(* ===== verification/_CoqProject ===== *)
-Q . S2P
Prelude.v
GoText.v
Stamp.v
Cursor.v
Framing.v
Graph.v
CoreDB.v
ProjectCore.v
Claims.v
CoreSpec.v
CoreRefine.v
CoreSafety.v
CoreLedger.v
CoreOutcome.v
Jobs.v
Presence.v
RuntimeHealth.v
Notifier.v
NotifierSpec.v
Supervisor.v
SupervisorSpec.v
OpsFs.v
ArchDB.v
HealthMonitor.v
HealthSpec.v
ServiceSpec.v
ArchPolicy.v
NativeJobs.v
NativeSpec.v
Ledger.v
LedgerSpec.v
ArchSafety.v
Evidence.v
LedgerOutcome.v
Scheduler.v
SchedulerSpec.v
SchedulerOutcome.v
SchedulerFault.v
SchedulerDemo.v
SessionDB.v
Sessions.v
SessionSpec.v
SessionOutcome.v
NativeOutcome.v
HumanStore.v
HumanProfile.v
HumanAuth.v
HumanSafety.v
GithubSync.v
GithubSpec.v
HistoricalImport.v
ImportSpec.v
ImportOutcome.v
SelectedReview.v
SelectedSpec.v
Forum.v
ForumReads.v
ForumService.v
ForumSpec.v
ForumOutcome.v
ForumPages.v
