(* ===== verification/Prelude.v ===== *)
(** * Codex Commons: a verification development

    Codex Commons is a collaboration server for people and coding agents.  One
    Go process owns a SQLite database; HTTP handlers, background jobs and a
    bridge to an external Codex process all write through [internal/store].
    This library models the parts of the program that decide what is recorded,
    who may record and read it, and whether the service runs, and proves what
    can be relied on.

    ** The parts and how they interact

    - The Project Core ([internal/store/project_core_write.go], with the
      helpers of [project_core_helpers.go] and the claims of [write.go]) keeps
      projects, milestones, tasks, dependencies, claims and wiki pages.  Every
      write takes the project's next revision, appends to its change log and,
      for the eight ledger commands, records its result under the request key.
    - The forum ([posts.go], [comments.go], [notifications.go],
      [post_discovery.go] and their services in [internal/application]) keeps
      posts, comments, the scope each is seen in, mentions and notifications;
      its writes take core revisions through the same [mutate].
    - Historical import ([historical_import.go]) writes old work into the core
      tables; selected review and application ([project_archaeology_review.go],
      [_eligibility.go], [_apply.go]) feed it with what a human has seen.
    - Archaeology sessions ([project_archaeology.go], [_runner.go],
      [_handoff.go], [_launch.go], [_task_grant.go]) discover sources and run
      tasks.  Native jobs ([project_archaeology_native.go]) run in an external
      process whose callbacks may be lost, repeated or late: a callback is
      committed as an intent in the persistence ledger
      ([project_archaeology_persistence.go]), applied to its job, and settled;
      a worker leases, retries and reconciles what is left.  The scheduler
      ([internal/application/project_archaeology_scheduler.go]) claims the
      jobs, launches them, receives the callbacks and hands every outcome to
      the ledger.
    - The external process is supervised by [internal/codexauth/process.go].
      The health monitor ([internal/server/runtime_health.go]) reads it, the
      ledger's counts and the database, evaluates them
      ([internal/runtimehealth]), wakes the scheduler, answers HTTP probes and
      feeds the systemd notifier ([internal/server/notify.go]), which decides
      whether the service goes on.
    - Humans ([human_auth.go], [human_sessions.go], [internal/httpapi/auth.go])
      log in, hold browser sessions and revoke them.
    - GitHub synchronisation ([internal/githubsync]) reads pages conditionally;
      background jobs ([internal/jobs]) run a request inside a declared
      envelope against a state store that grants leases; presence
      ([internal/presence]) is an in-memory registry; operator paths and
      checksum lines ([internal/opsfs]) name the files of the packaged
      operations.

    ** Files

    - [Prelude]: errors ([internal/domain/errors.go], [mapErr]), programs that
      call the database, transactions, the rely-guarantee logic and its
      automation, counting and list lemmas.
    - [GoText]: byte strings, text guards, dependency normalisation, the
      idempotency key ([project_core_helpers.go], [requestStorageKey]) and the
      saturating difference of instants.
    - [Stamp], [Cursor], [Framing]: the two text formats of an instant over
      Go's calendar, the page cursors over base64, and the unambiguous framing
      of digest input.
    - [Graph]: the recursive query of [validateTaskRelations] as a closure.
    - [CoreDB]: the core tables and statements ([migrations/001], [005]).
    - [ProjectCore]: the eight commands, replay, locking and the failure path.
    - [Claims]: [Claim], [Status], [Redact], [AddDecision] and [mutate].
    - [CoreSpec], [CoreRefine]: the abstract step [core_step] of a committed
      write, its invariants, and the proof that every operation refines it.
    - [CoreSafety], [CoreLedger], [CoreOutcome]: theorems about arbitrary
      runs, about requests, and about the result of one quiet call.
    - [Jobs], [Presence], [OpsFs]: one component each, with its theorems.
    - [RuntimeHealth]: the evaluator.  [Notifier], [NotifierSpec]: the
      notifier, as one call and at the granularity of its lock sections.
      [Supervisor], [SupervisorSpec]: the process supervisor at the granularity
      of its critical sections.  [HealthMonitor], [HealthSpec]: the monitor,
      its probes and its two views.  [ServiceSpec]: supervisor, monitor and
      notifier together.
    - [ArchDB], [ArchPolicy], [Evidence], [NativeJobs], [Ledger]: the
      archaeology tables, the execution policy and the checks of a reported
      outcome, and every write operation on jobs and on the ledger.
    - [NativeSpec], [LedgerSpec]: the steps a committed write makes on jobs
      and on intents, and that every operation makes only such steps.
      [ArchSafety], [LedgerOutcome], [NativeOutcome]: theorems about runs,
      about the ledger's results, and about the job operations' results.
    - [SessionDB], [Sessions], [SessionSpec], [SessionOutcome]: archaeology
      sessions, the runner, handoffs, task launches and grants.
    - [Scheduler]: the scheduler's lock sections and calls as acts, its
      operations as programs over them, and the threads that run them.
      [SchedulerSpec]: the protocol a thread keeps and the invariant of every
      interleaving; [SchedulerOutcome]: one launch and the drain of the queue;
      [SchedulerFault]: the latch with the store, the monitor and the notifier;
      [SchedulerDemo]: concrete runs.
    - [HumanStore], [HumanProfile], [HumanAuth], [HumanSafety]: bindings,
      profiles, stored and cached sessions, login and revocation.
    - [GithubSync], [GithubSpec]: the conditional reader and its page loops.
    - [HistoricalImport], [ImportSpec], [ImportOutcome]: batches, their
      preview and application.  [SelectedReview], [SelectedSpec]: reviews,
      tokens and the application of a selection.
    - [Forum], [ForumReads], [ForumService]: the forum's writes, reads and
      paged services.  [ForumSpec], [ForumOutcome], [ForumPages]: their
      invariants and refinement, the results of calls, and reading by pages.

    ** How code is represented

    A store method is a program of type [M DB E A]: a function of an
    environment and of a world, a database with a tick counter.  Each call to
    the driver, the clock or the random source consumes one tick, and the tick
    decides what the program cannot: whether the call fails, whether a COMMIT
    that reports an error became durable all the same ([tk_durable]), what
    time it is, which id is drawn, and what other connections commit before a
    call outside a transaction ([tk_others]).  A body run by [withTx] is
    atomic; on any error it is rolled back.  A Go early return is [throw], a
    deferred conversion is [mapE], and an error that the code inspects is
    caught by [attempt].  A table is a finite map from its primary key; a
    statement fails with [SqlConstraint] when a PRIMARY KEY, UNIQUE, FOREIGN
    KEY or value CHECK of the migrations is violated.  Times and durations are
    nanoseconds; where Go's 64-bit arithmetic could wrap or saturate it is
    written out ([GoText.time_Sub], [Notifier.wrap64]) or shown not to be
    reached ([LedgerOutcome.retry_delay_exact]).

    Code that shares memory behind a mutex is a step relation whose steps are
    the lock sections ([Notifier.sys_step], [Supervisor.sys_step],
    [Scheduler.sys_step], the requests of [HumanAuth]), so that theorems hold for every interleaving.

    What the source does not decide is an argument: JSON encoding and
    decoding, SHA-256 and the ids derived from it, the GitHub server,
    [url.Parse], the Unicode case tables, SQLite's [julianday] and full-text
    matcher, the identity the human proves, the answers of health probes, what
    the scheduler's repository and launcher answer, and the factory, clock and backoff of the supervisor.  Where a theorem needs a
    law of JSON or of the hash it is a field of a class ([Ledger.CodecLaws]) or
    a named hypothesis, and a concrete instance shows that it can hold.

    ** What the theorems show

    - Core invariants and safety (C1 to C6): under faults, ambiguous commits
      and interleaved writers, every operation refines the abstract step, and
      every reachable database has gapless revisions, acyclic dependencies
      within a project, claims that agree with task states, revisions that
      identify task rows and terminal states that are final.
    - Requests (C7 to C9): a result once returned is returned again and not
      written again, a failure without other writers left no trace (or, when
      a durable COMMIT and the next call both failed, its ledger record), a
      free task is granted.
    - Import and selection (C10 to C13): a preview predicts its application
      (but for the attributions and events of skipped tasks, which it counts
      and the application does not), a manifest's order is irrelevant, a selection is applied only after its
      review, and reviews are read in order.
    - Forum (C14 to C19): a closed post stays hidden, pages show every post,
      each by its own snapshot, and drain the notifications, a human is
      notified once, forum writes refine the core's step, cursors round-trip
      exactly up to the length that the decoder accepts.
    - Background jobs and archaeology (C20 to C25): leases are exclusive, job
      states only advance, intents keep their payload and budget, a grant opens
      once, a report needs the digest its claim registered, runs follow their
      state machine and answers its edges.
    - The scheduler (C26 to C30): a job is claimed only while nothing is in
      the air, no intent is lost, a launch settles its job by what the launcher
      answered, the queue is drained fairly over a healthy ledger and a drain
      is ready only when nothing is wrong; and a finding, a late tool call that ends the service.
    - The running service (C31 to C36): which signals the notifier may send
      in any interleaving and that a fatal error is delivered exactly once,
      what a failed and what a healthy store decide, no child process is lost,
      restarts stay within their budget; and two findings, a ledger backlog
      that ends the service and a failed replacement that idles the scheduler.
    - Evidence, humans and GitHub (C37 to C40): evidence stays within the
      sources and the limits of its batch's policy, a revocation fails closed
      until the next Codex login, wrong logins are bounded by how many run at
      a time, a synchronisation stays within its budget of client calls.
    The same files hold further theorems of each group.

    ** Bounds

    No definition runs out of fuel.  [Graph.closure] iterates as often as the
    edge set has targets, which is proved to reach the fixed point
    ([Graph.in_closure_tc]).  [Ledger.retry_loop] runs the loop of
    [archaeologyPersistenceRetryDelay] for exactly the iterations its counter
    allows, [Ledger.reconcile_loop] the nine rounds of the Go loop
    ([attempt <= archaeologyPersistenceMaxAttempts]), and
    [Supervisor.backoff_loop] one doubling per attempt.  The page counts of
    [ForumPages] are those of a client, and the theorems say which count
    reads everything.  An observation of the notifier passes nine lock
    sections, which bounds its steps.

    ** What is not modelled

    In modelled parts: the read models that end the human commands (they only
    read), the process-local mutex [archaeologyLaunchMu] (transactions are
    atomic here already), the error paths of the stamp parser and the length
    CHECKs of text columns (every row the code writes passes them),
    [withBusyRetry] at start-up, cookies and response bodies, and the
    request-driven recovery of process managers built by hand.
    Read-only projections: core reads and provenance, the archaeology
    catalogue, the home page, attention events, contributor lists.
    Of the scheduler, the titles and the prompt it gives to the launcher and
    the recovery of identities at start-up.
    Not modelled as parts: the other application services, the Codex client
    protocol and device pairing, restore receipts and installation status, the
    command-line manifests of the historical import, compatibility writes kept
    for demo data, backups, HTTP routing, server wiring, demo data and
    deployment. *)

From stdpp Require Import base tactics option list gmap strings sorting relations.
From Stdlib Require Import ZArith Lia.

(** ** Error values

    [internal/domain/errors.go] declares the domain's sentinel errors;
    everything else the store returns is an error of the SQL driver. *)

(** What the driver can report that no query asked for: a busy or locked
    database, a cancelled or expired context, an I/O failure. *)
Inductive Fault := FBusy | FCanceled | FDeadlineExceeded | FIO.

(** A driver error: [sql.ErrNoRows], a constraint violation, or a fault. *)
Inductive SqlErr := SqlNoRows | SqlConstraint | SqlFault (f : Fault).

Inductive Err :=
  | ErrNotFound | ErrConflict | ErrForbidden | ErrInvalid
  | ErrFutureRevision | ErrUnavailable
  | ErrSql (e : SqlErr)
  | ErrOther (what : string).

#[export] Instance Fault_eq_dec : EqDecision Fault.
Proof. solve_decision. Defined.
#[export] Instance SqlErr_eq_dec : EqDecision SqlErr.
Proof. solve_decision. Defined.
#[export] Instance Err_eq_dec : EqDecision Err.
Proof. solve_decision. Defined.

(** [mapErr]: a busy database is [ErrUnavailable], a constraint violation is
    [ErrConflict], a missing row is [ErrNotFound]; an error that already
    wraps a domain error keeps it. *)
Definition mapErr (e : Err) : Err :=
  match e with
  | ErrSql (SqlFault FBusy) => ErrUnavailable
  | ErrSql SqlConstraint => ErrConflict
  | ErrSql SqlNoRows => ErrNotFound
  | _ => e
  end.

(** ** Programs that call the database

    A program runs against an environment that decides, call by call, what
    the program does not control: whether the driver fails, what the clock
    and the random source return, and what other connections commit before a
    call made outside a transaction.  Every call consumes one tick. *)

Record Tick (DB : Type) := mkTick {
  tk_fault : option Fault;
  (** a COMMIT that reports an error may nevertheless have become durable *)
  tk_durable : bool;
  tk_now : Z;
  tk_id : string;
  tk_others : DB -> DB;
}.
Arguments mkTick {DB} _ _ _ _ _.
Arguments tk_fault {DB} _.
Arguments tk_durable {DB} _.
Arguments tk_now {DB} _.
Arguments tk_id {DB} _.
Arguments tk_others {DB} _ _.

Definition Env (DB : Type) := nat -> Tick DB.

Record World (DB : Type) := mkWorld { w_db : DB; w_tick : nat }.
Arguments mkWorld {DB} _ _.
Arguments w_db {DB} _.
Arguments w_tick {DB} _.

(** A program over databases [DB] with errors [E] and results [A]. *)
Definition M (DB E A : Type) : Type := Env DB -> World DB -> (E + A) * World DB.

Definition Stmt (DB A : Type) : Type := DB -> SqlErr + A * DB.

Section Programs.
Context {DB : Type}.
Implicit Types (E A B : Type).

Definition ret {E A} (a : A) : M DB E A := fun _ w => (inr a, w).
Definition throw {E A} (e : E) : M DB E A := fun _ w => (inl e, w).

Definition bind {E A B} (m : M DB E A) (f : A -> M DB E B) : M DB E B :=
  fun env w =>
    match m env w with
    | (inl e, w') => (inl e, w')
    | (inr a, w') => f a env w'
    end.

(** [if err != nil { return ..., f(err) }] *)
Definition mapE {E E' A} (f : E -> E') (m : M DB E A) : M DB E' A :=
  fun env w =>
    match m env w with
    | (inl e, w') => (inl (f e), w')
    | (inr a, w') => (inr a, w')
    end.

(** Both results of a call, for code that inspects the error. *)
Definition attempt {E E' A} (m : M DB E A) : M DB E' (E + A) :=
  fun env w => let '(r, w') := m env w in (inr r, w').

(** [s.now()] *)
Definition now {E} : M DB E Z :=
  fun env w => (inr (tk_now (env (w_tick w))), mkWorld (w_db w) (S (w_tick w))).

(** [newID(prefix)]: the prefix and 24 random hex digits *)
Definition newID {E} (prefix : string) : M DB E string :=
  fun env w => (inr (prefix +:+ tk_id (env (w_tick w))), mkWorld (w_db w) (S (w_tick w))).

(** One statement inside a transaction: it fails, or runs on the
    transaction's own view. *)
Definition exec {A} (st : Stmt DB A) : M DB SqlErr A :=
  fun env w =>
    match tk_fault (env (w_tick w)) with
    | Some f => (inl (SqlFault f), mkWorld (w_db w) (S (w_tick w)))
    | None =>
        match st (w_db w) with
        | inl e => (inl e, mkWorld (w_db w) (S (w_tick w)))
        | inr (a, d') => (inr a, mkWorld d' (S (w_tick w)))
        end
    end.

(** A statement on [s.db]: other connections may have committed since. *)
Definition autocommit {A} (st : Stmt DB A) : M DB SqlErr A :=
  fun env w =>
    exec st env (mkWorld (tk_others (env (w_tick w)) (w_db w)) (w_tick w)).

Definition query {A} (q : DB -> SqlErr + A) : Stmt DB A :=
  fun d => match q d with inl e => inl e | inr a => inr (a, d) end.

Fixpoint forM_ {E A} (l : list A) (f : A -> M DB E unit) : M DB E unit :=
  match l with
  | [] => ret tt
  | x :: l' => bind (f x) (fun _ => forM_ l' f)
  end.

(** [if cond { return ..., e }] *)
Definition require {E} (ok : bool) (e : E) : M DB E unit :=
  if ok then ret tt else throw e.
End Programs.

(** ** Transactions

    The body of a transaction ends in [tx.Commit()] or returns early and
    leaves the deferred [tx.Rollback()] to undo it.  A failure is tagged with
    the place it came from, because callers treat them differently. *)
Inductive TxOut (A : Type) := TxCommit (a : A) | TxRollback (a : A).
Arguments TxCommit {A} _.
Arguments TxRollback {A} _.

Inductive TxFail :=
  | FBegin (e : Err)      (** [BeginTx] failed *)
  | FBody (e : Err)       (** the body returned this error *)
  | FReplay (e : Err)     (** the body went to the replay-reading error path *)
  | FCommit (e : Err).    (** [Commit] failed *)

Definition withTx {DB A} (body : M DB TxFail (TxOut A)) : M DB TxFail A :=
  fun env w =>
    let t := env (w_tick w) in
    let d0 := tk_others t (w_db w) in
    match tk_fault t with
    | Some f => (inl (FBegin (ErrSql (SqlFault f))), mkWorld d0 (S (w_tick w)))
    | None =>
        match body env (mkWorld d0 (S (w_tick w))) with
        | (inl e, w1) => (inl e, mkWorld d0 (w_tick w1))
        | (inr (TxRollback a), w1) => (inr a, mkWorld d0 (w_tick w1))
        | (inr (TxCommit a), w1) =>
            let c := env (w_tick w1) in
            match tk_fault c with
            | None => (inr a, mkWorld (w_db w1) (S (w_tick w1)))
            | Some f =>
                (inl (FCommit (ErrSql (SqlFault f))),
                 mkWorld (if tk_durable c then w_db w1 else d0) (S (w_tick w1)))
            end
        end
    end.

(** The three ways the code reports a failed statement of a transaction. *)
Definition plain {DB A} (m : M DB SqlErr A) : M DB TxFail A :=
  mapE (fun e => FBody (ErrSql e)) m.
Definition mapped {DB A} (m : M DB SqlErr A) : M DB TxFail A :=
  mapE (fun e => FBody (mapErr (ErrSql e))) m.
Definition viaReplay {DB A} (m : M DB SqlErr A) : M DB TxFail A :=
  mapE (fun e => FReplay (ErrSql e)) m.

(** A transaction and a statement on [s.db], for code that returns whatever
    error it got. *)
Definition runTx {DB A} (body : M DB TxFail (TxOut A)) : M DB Err A :=
  mapE (fun f => match f with FBegin e | FBody e | FReplay e | FCommit e => e end) (withTx body).

Definition direct {DB A} (st : Stmt DB A) : M DB Err A := mapE (fun e => mapErr (ErrSql e)) (autocommit st).

(** A program of one part of the database as a piece of a transaction of the
    whole, where nobody else commits. *)
Definition zoom {S T E A} (get : T -> S) (put : S -> T -> T) (m : M S E A) : M T E A := fun env w =>
  let '(r, w1) := m (fun n => mkTick (tk_fault (env n)) (tk_durable (env n)) (tk_now (env n)) (tk_id (env n)) id)
                    (mkWorld (get (w_db w)) (w_tick w)) in
  (r, mkWorld (put (w_db w1) (w_db w)) (w_tick w1)).

Declare Scope prog_scope.
Delimit Scope prog_scope with prog.
Bind Scope prog_scope with M.
Notation "x <-- m ;; k" := (bind m (fun x => k))
  (at level 100, m at next level, right associativity) : prog_scope.
Notation "m ;;; k" := (bind m (fun _ => k))
  (at level 100, right associativity) : prog_scope.

(** ** Inverting runs *)

Section Inversion.
Context {DB : Type}.
Implicit Types (env : Env DB) (w : World DB).

Lemma bind_inr_inv {E A B} (m : M DB E A) (f : A -> M DB E B) env w b w' :
  bind m f env w = (inr b, w') ->
  exists a w1, m env w = (inr a, w1) /\ f a env w1 = (inr b, w').
Proof. unfold bind. destruct (m env w) as [[e|a] w1]; naive_solver. Qed.

Lemma ret_inr_inv {E A} (a b : A) env w w' :
  ret (E := E) a env w = (inr b, w') -> a = b /\ w = w'.
Proof. unfold ret. naive_solver. Qed.

Lemma require_inr_inv {E} ok (e : E) env w u w' :
  require ok e env w = (inr u, w') -> ok = true /\ w = w'.
Proof. unfold require, ret, throw. destruct ok; naive_solver. Qed.

Lemma mapE_inr_inv {E E' A} (g : E -> E') (m : M DB E A) env w a w' :
  mapE g m env w = (inr a, w') -> m env w = (inr a, w').
Proof. unfold mapE. destruct (m env w) as [[e|b] w1]; naive_solver. Qed.

Lemma exec_inr_inv {A} (st : Stmt DB A) env w a w' :
  exec st env w = (inr a, w') ->
  st (w_db w) = inr (a, w_db w') /\ w_tick w' = S (w_tick w).
Proof.
  unfold exec. destruct (tk_fault _); [done|].
  destruct (st (w_db w)) as [e|[b d]]; naive_solver.
Qed.

Lemma query_inr_inv {A} (q : DB -> SqlErr + A) d a d' :
  query q d = inr (a, d') -> q d = inr a /\ d' = d.
Proof. unfold query. destruct (q d); naive_solver. Qed.

Lemma attempt_query_inv {E A} (q : DB -> SqlErr + A) env w r w' :
  attempt (E' := E) (exec (query q)) env w = (inr r, w') ->
  w_db w' = w_db w /\ (r = q (w_db w) \/ exists f, r = inl (SqlFault f)).
Proof.
  unfold attempt, exec, query. destruct (tk_fault _); [naive_solver|].
  destruct (q (w_db w)); naive_solver.
Qed.

Lemma attempt_inv {E E' A} (m : M DB E A) env w (r : E + A) w' :
  attempt (E' := E') m env w = (inr r, w') -> m env w = (r, w').
Proof. unfold attempt. destruct (m env w). naive_solver. Qed.

Lemma now_inr_inv {E} env w t w' :
  now (E := E) env w = (inr t, w') ->
  t = tk_now (env (w_tick w)) /\ w_db w' = w_db w /\ w_tick w' = S (w_tick w).
Proof. unfold now. naive_solver. Qed.

Lemma newID_inr_inv {E} p env w i w' :
  newID (E := E) p env w = (inr i, w') ->
  i = p +:+ tk_id (env (w_tick w)) /\ w_db w' = w_db w /\ w_tick w' = S (w_tick w).
Proof. unfold newID. naive_solver. Qed.
End Inversion.

(** [m_inv] opens every bind, require and call of a successful run. *)
Ltac m_inv1 :=
  match goal with
  | H : bind _ _ _ _ = (inr _, _) |- _ =>
      let a := fresh "r" in let w := fresh "w" in let H1 := fresh "Hrun" in
      apply bind_inr_inv in H as (a & w & H1 & H)
  | H : mapE _ _ _ _ = (inr _, _) |- _ => apply mapE_inr_inv in H
  | H : plain _ _ _ = (inr _, _) |- _ => unfold plain in H
  | H : mapped _ _ _ = (inr _, _) |- _ => unfold mapped in H
  | H : viaReplay _ _ _ = (inr _, _) |- _ => unfold viaReplay in H
  | H : require _ _ _ _ = (inr _, _) |- _ =>
      let Hg := fresh "Hguard" in apply require_inr_inv in H as [Hg <-]
  | H : ret _ _ _ = (inr _, _) |- _ =>
      apply ret_inr_inv in H as [? ?]; simplify_eq
  | H : throw _ _ _ = (inr _, _) |- _ => discriminate H
  | H : exec _ _ _ = (inr _, _) |- _ =>
      let Hs := fresh "Hst" in apply exec_inr_inv in H as [Hs ?]
  | H : attempt (exec (query _)) _ _ = (inr _, _) |- _ =>
      let Hq := fresh "Hq" in apply attempt_query_inv in H as [? Hq]
  | H : query _ _ = inr (_, _) |- _ =>
      let Hq := fresh "Hq" in apply query_inr_inv in H as [Hq ?]
  | H : now _ _ = (inr _, _) |- _ => apply now_inr_inv in H as (? & ? & ?)
  | H : newID _ _ _ = (inr _, _) |- _ => apply newID_inr_inv in H as (? & ? & ?)
  end.
Ltac m_inv := repeat m_inv1.

(** ** Rely and guarantee

    What a program does to the database, seen from outside, is an interleaving
    of what other connections commit ([tk_others]) and of its own committed
    transactions, each of which is a step of a relation [R]. *)
Section Guarantee.
Context {DB : Type}.
Implicit Types (R : DB -> DB -> Prop) (env : Env DB) (w : World DB).

Definition sys R env : relation DB :=
  fun d d' => (exists n, d' = tk_others (env n) d) \/ R d d'.

Definition guarantees {E A} R (m : M DB E A) : Prop :=
  forall env w r w', m env w = (r, w') -> rtc (sys R env) (w_db w) (w_db w').

Definition stable (I : DB -> Prop) env : Prop :=
  forall n d, I d -> I (tk_others (env n) d).

Definition inductive_inv (I : DB -> Prop) R : Prop :=
  forall d d', R d d' -> I d -> I d'.

Lemma guarantees_inv {E A} R (m : M DB E A) I env w r w' :
  guarantees R m -> inductive_inv I R -> stable I env ->
  m env w = (r, w') -> I (w_db w) -> I (w_db w').
Proof.
  intros Hm Hind Hst Hrun. specialize (Hm env w r w' Hrun).
  induction Hm as [|d d1 d2 [[n ->]|HR] _ IH]; eauto.
Qed.

Lemma guarantees_mono {E A} R R' (m : M DB E A) :
  (forall d d', R d d' -> R' d d') -> guarantees R m -> guarantees R' m.
Proof.
  intros HR Hm env w r w' Hrun. eapply rtc_subrel; [|by eapply Hm]. intros d d' [?|?]; [by left|right; auto].
Qed.

Lemma guarantees_ret {E A} R (a : A) : guarantees R (ret (E := E) a).
Proof. intros env w r w' [= <- <-]. reflexivity. Qed.

Lemma guarantees_throw {E A} R (e : E) : guarantees R (throw (A := A) e).
Proof. intros env w r w' [= <- <-]. reflexivity. Qed.

Lemma guarantees_require {E} R ok (e : E) : guarantees R (require ok e).
Proof. destruct ok; [apply guarantees_ret|apply guarantees_throw]. Qed.

Lemma guarantees_bind {E A B} R (m : M DB E A) (f : A -> M DB E B) :
  guarantees R m -> (forall a, guarantees R (f a)) -> guarantees R (bind m f).
Proof.
  intros Hm Hf env w r w'. unfold bind.
  destruct (m env w) as [[e|a] w1] eqn:Hrun; intros Hr.
  - simplify_eq. eauto.
  - etrans; [by eapply Hm|by eapply Hf].
Qed.

Lemma guarantees_mapE {E E' A} R (g : E -> E') (m : M DB E A) :
  guarantees R m -> guarantees R (mapE g m).
Proof.
  intros Hm env w r w'. unfold mapE.
  destruct (m env w) as [[e|a] w1] eqn:Hrun; intros Hr; simplify_eq; eauto.
Qed.

Lemma guarantees_attempt {E E' A} R (m : M DB E A) :
  guarantees R m -> guarantees R (attempt (E' := E') m).
Proof.
  intros Hm env w r w'. unfold attempt.
  destruct (m env w) as [x w1] eqn:Hrun; intros Hr; simplify_eq; eauto.
Qed.

Lemma guarantees_now {E} R : guarantees R (now (E := E)).
Proof. intros env w r w' [= <- <-]. reflexivity. Qed.

Lemma guarantees_newID {E} R p : guarantees R (newID (E := E) p).
Proof. intros env w r w' [= <- <-]. reflexivity. Qed.

Lemma guarantees_autocommit {A} R (st : Stmt DB A) :
  (forall d a d', st d = inr (a, d') -> d' = d \/ R d d') ->
  guarantees R (autocommit st).
Proof.
  intros Hst env w r w'. unfold autocommit, exec. simpl.
  set (d0 := tk_others (env (w_tick w)) (w_db w)).
  assert (rtc (sys R env) (w_db w) d0) as H0.
  { apply rtc_once. left. eauto. }
  destruct (tk_fault _); [intros [= <- <-]; done|].
  destruct (st d0) as [e|[a d']] eqn:Hrun; intros [= <- <-]; [done|].
  destruct (Hst _ _ _ Hrun) as [->|HR]; [done|].
  etrans; [done|]. apply rtc_once. by right.
Qed.

Lemma guarantees_autocommit_query {A} R (q : DB -> SqlErr + A) :
  guarantees R (autocommit (query q)).
Proof. apply guarantees_autocommit. intros d a d' H. m_inv. auto. Qed.

Lemma guarantees_withTx {A} R (body : M DB TxFail (TxOut A)) :
  (forall env w a w1, body env w = (inr (TxCommit a), w1) ->
     w_db w1 = w_db w \/ R (w_db w) (w_db w1)) ->
  guarantees R (withTx body).
Proof.
  intros Hbody env w r w'. unfold withTx.
  set (d0 := tk_others (env (w_tick w)) (w_db w)).
  assert (rtc (sys R env) (w_db w) d0) as H0.
  { apply rtc_once. left. eauto. }
  destruct (tk_fault _); [intros [= <- <-]; done|].
  destruct (body env _) as [[e|[a|a]] w1] eqn:Hrun; [intros [= <- <-]; done| |intros [= <- <-]; done].
  assert (rtc (sys R env) d0 (w_db w1)) as H1.
  { destruct (Hbody _ _ _ _ Hrun) as [->|HR]; simpl in *; [done|].
    apply rtc_once. by right. }
  destruct (tk_fault _); intros [= <- <-]; simpl; [|by etrans].
  destruct (tk_durable _); [by etrans|done].
Qed.

Lemma guarantees_forM {E A} R (l : list A) (f : A -> M DB E unit) :
  (forall x, guarantees R (f x)) -> guarantees R (forM_ l f).
Proof.
  intros Hf. induction l; simpl; [apply guarantees_ret|].
  by apply guarantees_bind.
Qed.
End Guarantee.

Create HintDb guar.
#[export] Hint Resolve guarantees_ret guarantees_throw guarantees_require guarantees_bind
  guarantees_mapE guarantees_attempt guarantees_now guarantees_newID
  guarantees_autocommit_query guarantees_forM : guar.

(** ** Transactions, statement by statement

    [takes R d m]: started on [d], a successful run of [m] ends on a database
    related to [d] by the preorder [R]. *)
Section Takes.
Context {DB : Type} (R : relation DB) `{!Reflexive R, !Transitive R}.
Implicit Types (d : DB).

Definition takes {A} d (m : M DB TxFail A) : Prop :=
  forall env w r w1, w_db w = d -> m env w = (inr r, w1) -> R d (w_db w1).

Lemma sf_ret {A} d (a : A) : takes d (ret a).
Proof. intros env w r w1 <- H. m_inv. reflexivity. Qed.

Lemma sf_throw {A} d e : takes d (throw (A := A) e).
Proof. intros env w r w1 <- H. m_inv. Qed.

Lemma sf_bind {A B} d (m : M DB TxFail A) (f : A -> M DB TxFail B) :
  takes d m -> (forall d1 a, R d d1 -> takes d1 (f a)) -> takes d (bind m f).
Proof.
  intros Hm Hf env w r w1 <- H. m_inv1. pose proof (Hm _ _ _ _ eq_refl Hrun) as Hs.
  etrans; [done|]. by eapply (Hf _ _ Hs).
Qed.

(** The guard of a [require] holds in what follows. *)
Lemma sf_require {B} d ok e (k : unit -> M DB TxFail B) :
  (ok = true -> takes d (k tt)) -> takes d (bind (require ok e) k).
Proof. intros Hk env w r w1 <- H. m_inv1. m_inv1. destruct r0. by eapply Hk. Qed.

(** A query's result describes the database it ran on. *)
Lemma sf_query {A B} d (q : DB -> SqlErr + A) g (k : A -> M DB TxFail B) :
  (forall a, q d = inr a -> takes d (k a)) -> takes d (bind (mapE g (exec (query q))) k).
Proof.
  intros Hk env w r w1 <- H. m_inv1. m_inv1. m_inv1. m_inv1. by eapply Hk.
Qed.

Lemma sf_attempt {A B} d (q : DB -> SqlErr + A) (k : SqlErr + A -> M DB TxFail B) :
  (forall a, a = q d \/ (exists f, a = inl (SqlFault f)) -> takes d (k a)) ->
  takes d (bind (attempt (exec (query q))) k).
Proof.
  intros Hk env w r w1 <- H. m_inv1. m_inv1. by eapply Hk.
Qed.

Lemma sf_now {B} d (k : Z -> M DB TxFail B) :
  (forall t, takes d (k t)) -> takes d (bind now k).
Proof. intros Hk env w r w1 <- H. m_inv1. m_inv1. by eapply Hk. Qed.

Lemma sf_newID {B} d p (k : string -> M DB TxFail B) :
  (forall i, takes d (k i)) -> takes d (bind (newID p) k).
Proof. intros Hk env w r w1 <- H. m_inv1. m_inv1. by eapply Hk. Qed.

Lemma sf_exec {A} d (st : Stmt DB A) g :
  (forall a d1, st d = inr (a, d1) -> R d d1) -> takes d (mapE g (exec st)).
Proof. intros Hst env w r w1 <- H. m_inv. eauto. Qed.

(** The effect of a statement is known in what follows. *)
Lemma sf_effect {A B} d (st : Stmt DB A) g (k : A -> M DB TxFail B) :
  (forall a d1, st d = inr (a, d1) -> R d d1 /\ takes d1 (k a)) -> takes d (bind (mapE g (exec st)) k).
Proof.
  intros Hk env w r w1 <- H. m_inv1. m_inv1. m_inv1. destruct (Hk _ _ Hst) as [Hs Ht].
  etrans; [done|]. by eapply Ht.
Qed.

(** A loop body runs on an element of the list and after some of the steps. *)
Lemma sf_forM_in {A} d (l : list A) (f : A -> M DB TxFail unit) :
  (forall d1 x, R d d1 -> x ∈ l -> takes d1 (f x)) -> takes d (forM_ l f).
Proof.
  intros Hf. induction l as [|x l IH] in d, Hf |- *; simpl; [apply sf_ret|].
  apply sf_bind; [apply Hf; [reflexivity|left]|]. intros d1 _ H1. apply IH. intros d2 y H2 Hy.
  apply Hf; [by etrans|by right].
Qed.

Lemma sf_forM {A} d (l : list A) (f : A -> M DB TxFail unit) :
  (forall d x, takes d (f x)) -> takes d (forM_ l f).
Proof. intros Hf. apply sf_forM_in. auto. Qed.
End Takes.

Section Calls.
Context {DB : Type}.
Implicit Types (R : relation DB).

(** A guard that held is known in what follows. *)
Lemma guarantees_guard {E A} R ok (e : E) (k : unit -> M DB E A) :
  (ok = true -> guarantees R (k tt)) -> guarantees R (bind (require ok e) k).
Proof. intros Hk. destruct ok; [by apply Hk|]. intros env w r w' [= <- <-]. reflexivity. Qed.

Lemma guarantees_runTx {A} R (body : M DB TxFail (TxOut A)) :
  (forall d, takes R d body) -> guarantees R (runTx body).
Proof.
  intros Hb. apply guarantees_mapE, guarantees_withTx. intros env w a w1 H. right. by eapply Hb.
Qed.

Lemma guarantees_direct_query {A} R (q : DB -> SqlErr + A) : guarantees R (direct (query q)).
Proof. apply guarantees_mapE, guarantees_autocommit_query. Qed.

Lemma guarantees_direct {A} R (st : Stmt DB A) :
  (forall d a d', st d = inr (a, d') -> R d d') -> guarantees R (direct st).
Proof. intros Hst. apply guarantees_mapE, guarantees_autocommit. eauto. Qed.

Lemma zoom_inr_inv {S E A} (get : DB -> S) put (m : M S E A) env w a w' :
  zoom get put m env w = (inr a, w') ->
  exists env1 w1, m env1 (mkWorld (get (w_db w)) (w_tick w)) = (inr a, w1) /\ w_db w' = put (w_db w1) (w_db w).
Proof. unfold zoom. destruct (m _ _) as [r w1] eqn:Hm. intros [= -> <-]. eauto. Qed.

Lemma withTx_inr_inv {A} (body : M DB TxFail (TxOut A)) env w a w' :
  withTx body env w = (inr a, w') ->
  exists out w1, body env (mkWorld (tk_others (env (w_tick w)) (w_db w)) (S (w_tick w))) = (inr out, w1) /\
    match out with
    | TxCommit b => b = a /\ w_db w' = w_db w1
    | TxRollback b => b = a /\ w_db w' = tk_others (env (w_tick w)) (w_db w)
    end.
Proof.
  unfold withTx. destruct (tk_fault _); [done|].
  destruct (body env _) as [[e|[b|b]] w1] eqn:Hrun; [done| |].
  - destruct (tk_fault _); [done|]. intros [= <- <-]. exists (TxCommit b), w1. done.
  - intros [= <- <-]. exists (TxRollback b), w1. done.
Qed.

Lemma runTx_inr_inv {A} (body : M DB TxFail (TxOut A)) env w a w' :
  runTx body env w = (inr a, w') ->
  exists w1 o, body env (mkWorld (tk_others (env (w_tick w)) (w_db w)) (S (w_tick w))) = (inr o, w1) /\
    (o = TxCommit a /\ w_db w' = w_db w1 \/ o = TxRollback a /\ w_db w' = tk_others (env (w_tick w)) (w_db w)).
Proof.
  unfold runTx. intros Hrun. m_inv. apply withTx_inr_inv in Hrun as ([x|x] & w1 & Hb & -> & Hw); eauto 10.
Qed.

(** What a program guarantees, among others that do the same, is one step of a
    preorder. *)
Lemma guarantees_run R `{!Reflexive R, !Transitive R} {E A} (m : M DB E A) env w r w' :
  guarantees R m -> (forall n x, R x (tk_others (env n) x)) -> m env w = (r, w') -> R (w_db w) (w_db w').
Proof.
  intros Hm Hoth Hrun. specialize (Hm _ _ _ _ Hrun).
  induction Hm as [|x y z [[n ->]|HR] _ IH]; [reflexivity|..]; (etrans; [|exact IH]); auto.
Qed.

(** Programs run one after the other, whatever each returns. *)
Fixpoint run_all (ops : list (M DB Err unit)) : M DB Err unit :=
  match ops with
  | [] => ret tt
  | op :: ops' => bind (attempt (E := Err) op) (fun _ => run_all ops')
  end.

(** A run of programs that make steps of a preorder, among others that do, is
    a step of it. *)
Lemma run_all_step R `{!Reflexive R, !Transitive R} ops env w :
  (forall op, op ∈ ops -> guarantees R op) -> (forall n x, R x (tk_others (env n) x)) ->
  R (w_db w) (w_db (run_all ops env w).2).
Proof.
  intros Hop Hoth. assert (guarantees R (run_all ops)) as Hall.
  { induction ops as [|op ops IH]; [apply guarantees_ret|].
    apply guarantees_bind; [apply guarantees_attempt, Hop; left|]. intros _. apply IH. intros; apply Hop; by right. }
  destruct (run_all ops env w) as [r w'] eqn:E. by eapply guarantees_run.
Qed.
End Calls.
#[export] Hint Resolve guarantees_direct_query : guar.

(** The statements and helpers that a relation is known to allow. *)
Create HintDb txn.

(** Take one step of a transaction's text. *)
Ltac sf1 :=
  cbv zeta;
  match goal with
  | |- takes _ _ (let '(_, _) := ?x in _) => destruct x
  | |- takes _ _ (if ?b then _ else _) => destruct b eqn:?
  | |- takes _ _ (bind (require _ _) _) => apply sf_require; intros ?
  | |- takes _ _ (bind (mapped (exec (query _))) _) => apply sf_query; intros ? ?
  | |- takes _ _ (bind (plain (exec (query _))) _) => apply sf_query; intros ? ?
  | |- takes _ _ (bind (attempt (exec (query _))) _) => apply sf_attempt; intros ? ?
  | |- takes _ _ (bind now _) => apply sf_now; intros ?
  | |- takes _ _ (bind (newID _) _) => apply sf_newID; intros ?
  | |- takes _ _ (bind _ _) => refine (sf_bind _ _ _ _ _ _); [|intros ? ? ?]
  | |- takes _ _ (forM_ _ _) => refine (sf_forM _ _ _ _ _); intros ? ?
  | |- takes _ _ (ret _) => exact (sf_ret _ _ _)
  | |- takes _ _ (throw _) => exact (sf_throw _ _ _)
  | |- takes _ _ _ => solve [unfold mapped, plain; auto with txn]
  end.

(** ** Invariants of one run

    [holds P m Q]: [m] keeps [P] whether it succeeds or fails, and its
    results satisfy [Q]. *)
Section Holds.
Context {DB : Type} (env : Env DB) (P : DB -> Prop).

Definition holds {E A} (m : M DB E A) (Q : A -> Prop) : Prop :=
  forall w r w', P (w_db w) -> m env w = (r, w') -> P (w_db w') /\ match r with inr a => Q a | inl _ => True end.

Lemma holds_ret {E A} (a : A) (Q : A -> Prop) : Q a -> holds (E := E) (ret a) Q.
Proof. by intros HQ w r w' HP [= <- <-]. Qed.

Lemma holds_throw {E A} (e : E) (Q : A -> Prop) : holds (throw e) Q.
Proof. by intros w r w' HP [= <- <-]. Qed.

Lemma holds_require {E} ok (e : E) : holds (require ok e) (fun _ => True).
Proof. destruct ok; [by apply holds_ret|apply holds_throw]. Qed.

Lemma holds_bind {E A B} (m : M DB E A) (f : A -> M DB E B) Q Q' :
  holds m Q -> (forall a, Q a -> holds (f a) Q') -> holds (bind m f) Q'.
Proof.
  intros Hm Hf w r w' HP. unfold bind. destruct (m env w) as [[e|a] w1] eqn:Hrun; intros Heq.
  - simplify_eq. by destruct (Hm _ _ _ HP Hrun).
  - destruct (Hm _ _ _ HP Hrun) as [HP1 Ha]. by eapply Hf.
Qed.

Lemma holds_mapE {E E' A} (g : E -> E') (m : M DB E A) Q : holds m Q -> holds (mapE g m) Q.
Proof.
  intros Hm w r w' HP. unfold mapE. destruct (m env w) as [[e|a] w1] eqn:Hrun; intros Heq; simplify_eq; exact (Hm w _ _ HP Hrun).
Qed.

Lemma holds_attempt {E E' A} (m : M DB E A) : holds m (fun _ => True) -> holds (attempt (E' := E') m) (fun _ => True).
Proof.
  intros Hm w r w' HP. unfold attempt. destruct (m env w) as [x w1] eqn:Hrun; intros Heq; simplify_eq.
  split; [|done]. by eapply Hm.
Qed.

Lemma holds_now {E} (Q : Z -> Prop) : (forall n, Q (tk_now (env n))) -> holds (E := E) now Q.
Proof. by intros HQ w r w' HP [= <- <-]. Qed.

Lemma holds_newID {E} p (Q : string -> Prop) : (forall n, Q (p +:+ tk_id (env n))) -> holds (E := E) (newID p) Q.
Proof. by intros HQ w r w' HP [= <- <-]. Qed.

Lemma holds_run_all (ops : list (M DB Err unit)) :
  (forall op, op ∈ ops -> holds op (fun _ => True)) -> holds (run_all ops) (fun _ => True).
Proof.
  induction ops as [|op ops IH]; intros Hops; [by apply holds_ret|].
  eapply holds_bind; [apply holds_attempt, Hops; left|]. intros _ _. apply IH. intros; apply Hops; by right.
Qed.

Definition stmt_holds {A} (st : Stmt DB A) (Q : A -> Prop) : Prop :=
  forall d a d', P d -> st d = inr (a, d') -> P d' /\ Q a.

Lemma holds_exec {A} (st : Stmt DB A) Q : stmt_holds st Q -> holds (exec st) Q.
Proof.
  intros Hst w r w' HP. unfold exec. destruct (tk_fault _); [by intros [= <- <-]|].
  destruct (st (w_db w)) as [e|[a d]] eqn:Hrun; intros [= <- <-]; [done|]. by eapply Hst.
Qed.

Lemma stmt_query {A} (q : DB -> SqlErr + A) : stmt_holds (query q) (fun _ => True).
Proof. intros d a d' HP. unfold query. destruct (q d); intros; by simplify_eq. Qed.

Context (Hstable : stable P env).

Lemma holds_autocommit {A} (st : Stmt DB A) Q : stmt_holds st Q -> holds (autocommit st) Q.
Proof.
  intros Hst w r w' HP Hrun. unfold autocommit in Hrun.
  eapply (holds_exec st Q Hst); [|exact Hrun]. by apply Hstable.
Qed.

Lemma holds_direct {A} (st : Stmt DB A) Q : stmt_holds st Q -> holds (direct st) Q.
Proof. intros Hst. by apply holds_mapE, holds_autocommit. Qed.

Lemma holds_withTx {A} (body : M DB TxFail (TxOut A)) Q :
  holds body (fun o => match o with TxCommit a | TxRollback a => Q a end) -> holds (withTx body) Q.
Proof.
  intros Hb w r w' HP. unfold withTx. pose proof (Hstable (w_tick w) _ HP) as H0.
  destruct (tk_fault _); [by intros [= <- <-]|].
  destruct (body env _) as [x w1] eqn:Hrun. destruct (Hb (mkWorld _ _) _ _ H0 Hrun) as [H1 HQ].
  destruct x as [e|[a|a]]; [by intros [= <- <-]| |by intros [= <- <-]].
  destruct (tk_fault _); intros [= <- <-]; [|done]. split; [|done]. simpl. by destruct (tk_durable _).
Qed.

Lemma holds_runTx {A} (body : M DB TxFail (TxOut A)) Q :
  holds body (fun o => match o with TxCommit a | TxRollback a => Q a end) -> holds (runTx body) Q.
Proof. intros Hb. by apply holds_mapE, holds_withTx. Qed.

End Holds.

(** ** Quiet environments: no faults and no interference *)
Definition quiet {DB} (env : Env DB) : Prop :=
  forall n, tk_fault (env n) = None /\ forall d, tk_others (env n) d = d.

(** No interference: only this program writes. *)
Definition alone {DB} (env : Env DB) : Prop := forall n d, tk_others (env n) d = d.

Lemma direct_inr_inv {DB A} (st : Stmt DB A) env w a w' :
  alone env -> direct st env w = (inr a, w') -> st (w_db w) = inr (a, w_db w').
Proof. unfold direct, autocommit. intros Ha Hrun. m_inv. simpl in *. by rewrite Ha in Hst. Qed.

(** ** Counting and updating lists *)

Section Count.
Context {A : Type} (f : A -> bool).

Fixpoint count (l : list A) : nat :=
  match l with [] => 0 | x :: l => (if f x then 1 else 0) + count l end%nat.

Lemma count_app l1 l2 : count (l1 ++ l2) = (count l1 + count l2)%nat.
Proof. induction l1; simpl; lia. Qed.

Lemma count_list_insert l i x y : l !! i = Some x ->
  (count (<[i := y]> l) + (if f x then 1 else 0) = count l + (if f y then 1 else 0))%nat.
Proof. revert i. induction l as [|z l IH]; intros [|i]; simpl; intros H; simplify_eq; try lia. specialize (IH i H). lia. Qed.
End Count.

Lemma Exists_insert {A} (P : A -> Prop) l i (x y : A) :
  l !! i = Some x -> (P x -> P y) -> Exists P l -> Exists P (<[i := y]> l).
Proof.
  intros Hi Hxy (z & Hz & HP)%Exists_exists. apply Exists_exists.
  apply list_elem_of_lookup in Hz as [j Hj]. destruct (decide (i = j)) as [<-|Hne].
  - simplify_eq. exists y. split; [|auto]. apply list_elem_of_lookup. exists i. apply list_lookup_insert_eq. by eapply lookup_lt_Some.
  - exists z. split; [|done]. apply list_elem_of_lookup. exists j. by rewrite list_lookup_insert_ne.
Qed.
