(* ===== verification/GoText.v ===== *)
(** * Text as Go sees it

    A Go string is a byte sequence, here a [string] of [ascii] bytes.  This
    file models what the store uses of [strings], [unicode/utf8] and
    [strconv], the text guards of
    [internal/store/project_core_helpers.go], and the scoped idempotency key
    of [internal/store/write.go]. *)

From S2P Require Import Prelude.
From stdpp Require Import base list strings sorting pretty sets.
From Stdlib Require Import ZArith Lia Ascii.

Local Open Scope Z_scope.

(** ** Bytes *)

Definition byte (a : ascii) : Z := Z.of_N (N_of_ascii a).

(** [len(s)] *)
Definition len (s : string) : Z := Z.of_nat (String.length s).

Definition between (lo hi : Z) (a : ascii) : bool := (lo <=? byte a) && (byte a <=? hi).

Fixpoint all_bytes (p : ascii -> bool) (s : string) : bool :=
  match s with
  | EmptyString => true
  | String a s' => p a && all_bytes p s'
  end.

Definition seqb (a b : string) : bool := bool_decide (a = b).

(** [time.Time{}], the first instant of year 1, in nanoseconds of the Unix epoch *)
Definition zeroTime : Z := -62135596800000000000.
Definition IsZero (t : Z) : bool := t =? zeroTime.
(** [t.Sub(u)] saturates at the range of a duration. *)
Definition time_Sub (t u : Z) : Z := Z.max (-9223372036854775808) (Z.min 9223372036854775807 (t - u)).

(** ** [utf8.ValidString] *)

Definition cont (a : ascii) : bool := between 0x80 0xBF a.

Fixpoint utf8_ValidString (s : string) : bool :=
  match s with
  | EmptyString => true
  | String a s1 =>
      if byte a <? 0x80 then utf8_ValidString s1
      else match s1 with
      | EmptyString => false
      | String b s2 =>
          if between 0xC2 0xDF a then cont b && utf8_ValidString s2
          else match s2 with
          | EmptyString => false
          | String c s3 =>
              if byte a =? 0xE0 then between 0xA0 0xBF b && cont c && utf8_ValidString s3
              else if byte a =? 0xED then between 0x80 0x9F b && cont c && utf8_ValidString s3
              else if between 0xE1 0xEF a then cont b && cont c && utf8_ValidString s3
              else match s3 with
              | EmptyString => false
              | String d s4 =>
                  if byte a =? 0xF0 then between 0x90 0xBF b && cont c && cont d && utf8_ValidString s4
                  else if between 0xF1 0xF3 a then cont b && cont c && cont d && utf8_ValidString s4
                  else if byte a =? 0xF4 then between 0x80 0x8F b && cont c && cont d && utf8_ValidString s4
                  else false
              end
          end
      end
  end.

(** ** [strings.TrimSpace]

    Unicode white space by its UTF-8 encodings: six ASCII characters, the
    two-byte U+0085 and U+00A0, and the three-byte U+1680, U+2000 to U+200A,
    U+2028, U+2029, U+202F, U+205F and U+3000. *)

Definition space1 (a : ascii) : bool := (byte a =? 32) || between 9 13 a.
Definition space2 (a b : ascii) : bool :=
  (byte a =? 0xC2) && ((byte b =? 0x85) || (byte b =? 0xA0)).
Definition space3 (a b c : ascii) : bool :=
  ((byte a =? 0xE1) && (byte b =? 0x9A) && (byte c =? 0x80))
  || ((byte a =? 0xE2) && (byte b =? 0x80)
      && (between 0x80 0x8A c || (byte c =? 0xA8) || (byte c =? 0xA9) || (byte c =? 0xAF)))
  || ((byte a =? 0xE2) && (byte b =? 0x81) && (byte c =? 0x9F))
  || ((byte a =? 0xE3) && (byte b =? 0x80) && (byte c =? 0x80)).

Fixpoint trim_left (l : list ascii) : list ascii :=
  match l with
  | a :: l1 =>
      if space1 a then trim_left l1
      else match l1 with
      | b :: l2 =>
          if space2 a b then trim_left l2
          else match l2 with
          | c :: l3 => if space3 a b c then trim_left l3 else l
          | [] => l
          end
      | [] => l
      end
  | [] => []
  end.

(** The same on a reversed byte sequence: encodings appear last byte first. *)
Fixpoint trim_right_rev (l : list ascii) : list ascii :=
  match l with
  | a :: l1 =>
      if space1 a then trim_right_rev l1
      else match l1 with
      | b :: l2 =>
          if space2 b a then trim_right_rev l2
          else match l2 with
          | c :: l3 => if space3 c b a then trim_right_rev l3 else l
          | [] => l
          end
      | [] => l
      end
  | [] => []
  end.

Definition TrimSpace (s : string) : string :=
  String.string_of_list_ascii
    (reverse (trim_right_rev (reverse (trim_left (String.list_ascii_of_string s))))).

(** [strings.Fields]: [cur] is the field being read, last byte first. *)
Definition flush (cur : list ascii) (rest : list (list ascii)) : list (list ascii) :=
  match cur with [] => rest | _ => reverse cur :: rest end.

Fixpoint split_fields (cur l : list ascii) : list (list ascii) :=
  match l with
  | [] => flush cur []
  | a :: l1 =>
      if space1 a then flush cur (split_fields [] l1)
      else match l1 with
      | b :: l2 =>
          if space2 a b then flush cur (split_fields [] l2)
          else match l2 with
          | c :: l3 => if space3 a b c then flush cur (split_fields [] l3) else split_fields (a :: cur) l1
          | [] => split_fields (a :: cur) l1
          end
      | [] => split_fields (a :: cur) l1
      end
  end.
Definition Fields (s : string) : list string := String.string_of_list_ascii <$> split_fields [] (String.list_ascii_of_string s).

(** [strings.ContainsRune(value, 0)] *)
Definition contains_nul (s : string) : bool := negb (all_bytes (fun a => negb (byte a =? 0)) s).

(** ** The store's text guards *)

Definition maxCoreIDBytes : Z := 200.
Definition maxProjectNameBytes : Z := 200.
Definition maxProjectPurposeBytes : Z := 4000.
Definition maxProjectNowBytes : Z := 4000.
Definition maxMilestoneTitleBytes : Z := 300.
Definition maxTaskTitleBytes : Z := 300.
Definition maxTaskDescriptionBytes : Z := 12000.
Definition maxTaskAcceptanceBytes : Z := 4000.
Definition maxTaskBasisBytes : Z := 2000.
Definition maxTaskDependencies : Z := 20.
Definition maxWikiTitleBytes : Z := 300.
Definition maxWikiSummaryBytes : Z := 1000.
Definition maxWikiBodyBytes : Z := 24000.

Definition boundedCoreText (value : string) (max : Z) (required : bool) : bool :=
  if negb (utf8_ValidString value) || (max <? len value) || contains_nul value then false
  else if required && seqb (TrimSpace value) "" then false
  else true.

(** [^[a-z0-9][a-z0-9-]{0,n}$], where Go's [$] is the end of the text: the
    class of the first byte, the class of the rest, and the length bound. *)
Definition slug_first (a : ascii) : bool := between 97 122 a || between 48 57 a.
Definition slug_rest (a : ascii) : bool := slug_first a || (byte a =? 45).
Definition slugPattern (n : Z) (s : string) : bool :=
  match s with
  | EmptyString => false
  | String a s' => slug_first a && all_bytes slug_rest s' && (len s' <=? n)
  end.
Definition projectIDPattern : string -> bool := slugPattern 99.
Definition wikiSlugPattern : string -> bool := slugPattern 119.

(** ** [time.Parse("2006-01-02", value)]

    Four, two and two digits separated by dashes, naming a day of the
    proleptic Gregorian calendar; such a value is its own formatting. *)
Definition digit (a : ascii) : bool := between 48 57 a.
Definition digit_val (a : ascii) : Z := byte a - 48.
Definition leap_year (y : Z) : bool :=
  (y mod 4 =? 0) && (negb (y mod 100 =? 0) || (y mod 400 =? 0)).
Definition days_in_month (y m : Z) : Z :=
  if m =? 2 then (if leap_year y then 29 else 28)
  else if (m =? 4) || (m =? 6) || (m =? 9) || (m =? 11) then 30 else 31.

Definition validTargetDate (value : string) : bool :=
  match String.list_ascii_of_string value with
  | [] => true
  | [y1; y2; y3; y4; d1; m1; m2; d2; t1; t2] =>
      let y := 1000 * digit_val y1 + 100 * digit_val y2 + 10 * digit_val y3 + digit_val y4 in
      let m := 10 * digit_val m1 + digit_val m2 in
      let t := 10 * digit_val t1 + digit_val t2 in
      digit y1 && digit y2 && digit y3 && digit y4 && (byte d1 =? 45)
      && digit m1 && digit m2 && (byte d2 =? 45) && digit t1 && digit t2
      && (1 <=? m) && (m <=? 12) && (1 <=? t) && (t <=? days_in_month y m)
  | _ => false
  end.

(** ** [sort.Strings]: byte-wise lexicographic order *)

Fixpoint sleb (a b : string) : bool :=
  match a, b with
  | EmptyString, _ => true
  | String _ _, EmptyString => false
  | String x a', String y b' =>
      if byte x <? byte y then true else if byte x =? byte y then sleb a' b' else false
  end.
Definition sle (a b : string) : Prop := sleb a b = true.

#[export] Instance sle_dec : RelDecision sle.
Proof. intros a b. unfold sle. apply _. Defined.

(** The loop of [normalizeDependencyIDs] over the sorted values. *)
Fixpoint dependencies_check (prev : option string) (l : list string) : bool :=
  match l with
  | [] => true
  | v :: l' =>
      boundedCoreText v maxCoreIDBytes true
      && negb (bool_decide (prev = Some v)) && dependencies_check (Some v) l'
  end.

Definition normalizeDependencyIDs (values : list string) : option (list string) :=
  if maxTaskDependencies <? Z.of_nat (length values) then None
  else
    let out := merge_sort sle values in
    if dependencies_check None out then Some out else None.

(** ** [requestStorageKey]: the idempotency key, scoped by the actor *)

Definition request_scope (actorID sessionID : string) : string :=
  if seqb actorID "" then sessionID else actorID.

Definition requestStorageKey (actorID sessionID requestID : string) : string :=
  if seqb requestID "" then ""
  else
    let scope := request_scope actorID sessionID in
    pretty (String.length scope) +:+ ":" +:+ scope +:+ requestID.

(** ** Facts *)

Lemma string_app_assoc a b c : (a +:+ b) +:+ c = a +:+ (b +:+ c).
Proof. induction a as [|x a IH]; [done|]. change (String x ((a +:+ b) +:+ c) = String x (a +:+ (b +:+ c))). by rewrite IH. Qed.

Lemma string_app_nil a : a +:+ "" = a.
Proof. induction a as [|x a IH]; [done|]. change (String x (a +:+ "") = String x a). by rewrite IH. Qed.

Lemma byte_inj a b : byte a = byte b -> a = b.
Proof.
  unfold byte. intros H%N2Z.inj.
  rewrite <- (ascii_N_embedding a), <- (ascii_N_embedding b). by f_equal.
Qed.

#[export] Instance sle_refl : Reflexive sle.
Proof.
  intros a. unfold sle. induction a as [|x a IH]; simpl; [done|].
  by rewrite Z.ltb_irrefl, Z.eqb_refl.
Qed.

#[export] Instance sle_total : Total sle.
Proof.
  intros a. unfold sle. induction a as [|x a IH]; intros [|y b]; simpl; auto.
  destruct (Z.ltb_spec (byte x) (byte y)), (Z.ltb_spec (byte y) (byte x)),
    (Z.eqb_spec (byte x) (byte y)), (Z.eqb_spec (byte y) (byte x)); auto; lia.
Qed.

#[export] Instance sle_trans : Transitive sle.
Proof.
  intros a. unfold sle. induction a as [|x a IH]; intros [|y b] [|z c]; simpl; auto; [done|].
  destruct (Z.ltb_spec (byte x) (byte y)), (Z.ltb_spec (byte y) (byte z)),
    (Z.ltb_spec (byte x) (byte z)), (Z.eqb_spec (byte x) (byte y)),
    (Z.eqb_spec (byte y) (byte z)), (Z.eqb_spec (byte x) (byte z)); eauto; try lia; done.
Qed.

#[export] Instance sle_antisymm : AntiSymm (=) sle.
Proof.
  intros a. unfold sle. induction a as [|x a IH]; intros [|y b]; simpl; auto; try done.
  destruct (Z.ltb_spec (byte x) (byte y)), (Z.ltb_spec (byte y) (byte x)),
    (Z.eqb_spec (byte x) (byte y)), (Z.eqb_spec (byte y) (byte x)); try lia; try done.
  intros. f_equal; [by apply byte_inj|auto].
Qed.

Lemma seqb_true a b : seqb a b = true <-> a = b.
Proof. unfold seqb. by rewrite bool_decide_eq_true. Qed.
Lemma seqb_false a b : seqb a b = false <-> a <> b.
Proof. unfold seqb. by rewrite bool_decide_eq_false. Qed.
(** Turn the code's boolean tests into propositions. *)
Ltac bool_inv :=
  repeat match goal with
  | H : negb _ = true |- _ => apply negb_true_iff in H
  | H : negb _ = false |- _ => apply negb_false_iff in H
  | H : _ && _ = true |- _ => apply andb_true_iff in H as [? ?]
  | H : _ || _ = false |- _ => apply orb_false_iff in H as [? ?]
  | H : seqb _ _ = true |- _ => apply seqb_true in H
  | H : seqb _ _ = false |- _ => apply seqb_false in H
  | H : (_ =? _)%Z = true |- _ => apply Z.eqb_eq in H
  | H : (_ =? _)%Z = false |- _ => apply Z.eqb_neq in H
  | H : (_ <=? _)%Z = true |- _ => apply Z.leb_le in H
  | H : (_ <? _)%Z = true |- _ => apply Z.ltb_lt in H
  | H : (_ <=? _)%Z = false |- _ => apply Z.leb_gt in H
  | H : (_ <? _)%Z = false |- _ => apply Z.ltb_ge in H
  | H : bool_decide _ = true |- _ => apply bool_decide_eq_true in H
  | H : bool_decide _ = false |- _ => apply bool_decide_eq_false in H
  end.

Lemma seqb_refl a : seqb a a = true.
Proof. by apply seqb_true. Qed.

(** Sorted, a repeated identifier is its own neighbour. *)
Lemma dependencies_check_NoDup l prev :
  StronglySorted sle l -> dependencies_check prev l = true ->
  (forall p, prev = Some p -> Forall (sle p) l) ->
  NoDup l /\ forall p, prev = Some p -> p ∉ l.
Proof.
  revert prev. induction l as [|v l IH]; intros prev Hs Hc Hp.
  { split; [constructor|set_solver]. }
  simpl in Hc. rewrite !andb_true_iff, negb_true_iff, bool_decide_eq_false in Hc.
  destruct Hc as [[_ Hne] Hc]. apply StronglySorted_cons in Hs as [Hv Hs].
  destruct (IH (Some v) Hs Hc) as [Hnd Hnv].
  { by intros ? [= ->]. }
  specialize (Hnv v eq_refl). split; [by constructor|].
  intros p ->. rewrite elem_of_cons. intros [->|Hin]; [done|].
  specialize (Hp p eq_refl). apply Forall_cons in Hp as [Hpv _].
  rewrite Forall_forall in Hv. specialize (Hv p Hin).
  assert (p = v) as -> by (by apply (anti_symm sle)). done.
Qed.

Definition dependency_ok (v : string) : Prop := boundedCoreText v maxCoreIDBytes true = true.

Lemma dependencies_check_bounded l prev : dependencies_check prev l = true -> Forall dependency_ok l.
Proof.
  revert prev. induction l as [|v l IH]; intros prev Hc; [constructor|]. simpl in Hc.
  rewrite !andb_true_iff in Hc. destruct Hc as [[? _] ?]. constructor; [done|by eapply IH].
Qed.

Lemma dependencies_check_complete l prev :
  NoDup l -> Forall dependency_ok l -> (forall p, prev = Some p -> p ∉ l) -> dependencies_check prev l = true.
Proof.
  revert prev. induction l as [|v l IH]; intros prev Hnd Hok Hp; [done|]. simpl.
  apply NoDup_cons in Hnd as [Hv Hnd]. apply Forall_cons in Hok as [Hb Hok].
  rewrite !andb_true_iff, negb_true_iff, bool_decide_eq_false. split_and!; [done| |].
  - intros E. apply (Hp v E). left.
  - apply IH; [done|done|]. by intros p [= ->].
Qed.

(** Dependency identifiers are normalised exactly when there are at most
    twenty, each is valid text within its bound, and none is repeated; the
    result is then the sorted list of the same identifiers. *)
Theorem normalizeDependencyIDs_exact values out :
  normalizeDependencyIDs values = Some out <->
  out ≡ₚ values /\ StronglySorted sle out /\ NoDup values /\ Forall dependency_ok values /\
  Z.of_nat (length values) <= 20.
Proof.
  unfold normalizeDependencyIDs, maxTaskDependencies.
  pose proof (merge_sort_Permutation sle values) as Hp.
  assert (StronglySorted sle (merge_sort sle values)) as Hs by (apply (StronglySorted_merge_sort _)).
  destruct (Z.ltb_spec 20 (Z.of_nat (length values))); [split; [done|intros (_ & _ & _ & _ & ?); lia]|]. split.
  - destruct (dependencies_check _ _) eqn:Hc; [|done]. intros [= <-].
    destruct (dependencies_check_NoDup _ None Hs Hc) as [Hnd _]; [done|].
    pose proof (dependencies_check_bounded _ _ Hc) as Hb. rewrite Hp in Hnd, Hb. done.
  - intros (Hout & Hso & Hnd & Hok & _).
    assert (out = merge_sort sle values) as <- by (apply (StronglySorted_unique sle); [done..|by rewrite Hp]).
    rewrite dependencies_check_complete; [done|by rewrite Hout|by rewrite Hout|done].
Qed.

(** ** The idempotency key is injective in (scope, request) *)

(** A decimal numeral has no colon, so the first colon ends the length. *)
Fixpoint before_colon (s : string) : string :=
  match s with
  | EmptyString => EmptyString
  | String a s' => if bool_decide (a = ":"%char) then EmptyString else String a (before_colon s')
  end.

Definition no_colon (s : string) : Prop := Forall (fun a => a <> ":"%char) (String.list_ascii_of_string s).

Lemma before_colon_app s t : no_colon s -> before_colon (s +:+ ":" +:+ t) = s.
Proof.
  unfold no_colon. induction s as [|a s IH]; simpl; intros H; [done|].
  apply Forall_cons in H as [Ha H]. rewrite bool_decide_eq_false_2 by done. f_equal. by apply IH.
Qed.

Lemma pretty_N_go_no_colon x s : no_colon s -> no_colon (pretty_N_go x s).
Proof.
  revert s. induction (N.lt_wf_0 x) as [x _ IH]; intros s Hs.
  destruct (decide (x = 0)%N) as [->|Hx]; [by rewrite pretty_N_go_0|].
  rewrite pretty_N_go_step by lia. apply IH; [apply N.div_lt; lia|].
  unfold no_colon. simpl. constructor; [|done].
  unfold pretty_N_char. repeat case_match; discriminate.
Qed.

Lemma pretty_nat_no_colon (n : nat) : no_colon (pretty n).
Proof.
  unfold pretty, pretty_nat, pretty, pretty_N.
  case_decide; [|apply pretty_N_go_no_colon; constructor].
  by repeat constructor.
Qed.

Lemma string_app_inv_length s1 s2 t1 t2 :
  String.length s1 = String.length s2 -> s1 +:+ t1 = s2 +:+ t2 -> s1 = s2 /\ t1 = t2.
Proof.
  revert s2. induction s1 as [|a s1 IH]; intros [|b s2]; simpl; try done.
  intros [= Hl] [= -> H]. by destruct (IH s2 Hl H) as [-> ->].
Qed.

(** Two requests share an idempotency key only when their scope (the
    actor, or the session when there is none) and their request id agree: the
    length prefix keeps a scope from running into the request id. *)
Theorem requestStorageKey_inj a1 s1 r1 a2 s2 r2 :
  r1 <> "" -> r2 <> "" ->
  requestStorageKey a1 s1 r1 = requestStorageKey a2 s2 r2 ->
  request_scope a1 s1 = request_scope a2 s2 /\ r1 = r2.
Proof.
  unfold requestStorageKey. intros H1%seqb_false H2%seqb_false. rewrite H1, H2.
  generalize (request_scope a1 s1) as p1, (request_scope a2 s2) as p2. intros p1 p2 H.
  assert (pretty (String.length p1) = pretty (String.length p2)) as Hl.
  { rewrite <- (before_colon_app (pretty (String.length p1)) (p1 +:+ r1) (pretty_nat_no_colon _)).
    rewrite <- (before_colon_app (pretty (String.length p2)) (p2 +:+ r2) (pretty_nat_no_colon _)).
    by f_equal. }
  rewrite Hl in H. apply (inj (String.append _)) in H. injection H as H.
  apply (inj pretty) in Hl. by apply (string_app_inv_length _ _ _ _ Hl H).
Qed.

Lemma requestStorageKey_inj_witness :
  requestStorageKey "ab" "s" "c" = "2:abc" /\ requestStorageKey "a" "s" "bc" = "1:abc" /\
  request_scope "ab" "s" = request_scope "" "ab" /\ ("c" : string) = "c".
Proof.
  split; [vm_compute; reflexivity|]. split; [vm_compute; reflexivity|].
  apply (requestStorageKey_inj "ab" "s" "c" "" "ab" "c"); [discriminate|discriminate|vm_compute; reflexivity].
Defined.
