(* ===== verification/Stamp.v ===== *)
(** * Time stamps as text

    SQLite compares and orders stamps as text.  [stamp] and [parseStamp] of
    [internal/store/store.go] use RFC 3339 with a fraction of variable width;
    [archaeologyPersistenceStamp] of [project_archaeology_persistence.go] uses
    a fraction of fixed width.  This file models both formats over Go's
    proleptic Gregorian calendar in UTC, and proves which order each has.

    Instants are nanoseconds of the Unix epoch.  The years are 0 to 9999,
    which Go writes with four digits. *)

From Stdlib Require Import ZArith Lia Ascii.
From stdpp Require Import base list strings.
From S2P Require Import Prelude GoText.

Local Open Scope Z_scope.

(** ** The calendar *)

(** Days from 1 January of year 0 to 1 January of year [y]. *)
Definition days_before_year (y : Z) : Z := 365 * y + (y + 3) / 4 - (y + 99) / 100 + (y + 399) / 400.

(** The year of a day, from the mean length of a year and one correction. *)
Definition year_of (n : Z) : Z :=
  let y := n * 400 / 146097 in
  if days_before_year (y + 1) <=? n then y + 1 else if n <? days_before_year y then y - 1 else y.

Definition month_lengths (y : Z) : list Z :=
  [31; if leap_year y then 29 else 28; 31; 30; 31; 30; 31; 31; 30; 31; 30; 31].

(** The month, counted from [m], and the day of the month of day [k]. *)
Fixpoint month_walk (m : Z) (lengths : list Z) (k : Z) : Z * Z :=
  match lengths with
  | l :: rest => if k <? l then (m, k + 1) else month_walk (m + 1) rest (k - l)
  | [] => (m, k + 1)
  end.

Definition epoch_day : Z := 719528.
Definition nanos_per_day : Z := 86400 * 1000000000.

(** Year, month, day, hour, minute, second and nanosecond of an instant. *)
Definition fields (t : Z) : list Z :=
  let day := t / nanos_per_day + epoch_day in
  let r := t mod nanos_per_day in
  let y := year_of day in
  let '(m, d) := month_walk 1 (month_lengths y) (day - days_before_year y) in
  [y; m; d; r / 3600000000000; r / 60000000000 mod 60; r / 1000000000 mod 60; r mod 1000000000].

(** ** Formats *)

(** A number in [w] decimal digits. *)
Fixpoint dec (w : nat) (n : Z) : string :=
  match w with
  | O => ""
  | S w' => dec w' (n / 10) +:+ String (ascii_of_N (48 + Z.to_N (n mod 10))) ""
  end.

(** Fields of fixed width, each followed by its separator. *)
Fixpoint render (layout : list (nat * string)) (vs : list Z) : string :=
  match layout, vs with
  | (w, sep) :: layout', v :: vs' => dec w v +:+ sep +:+ render layout' vs'
  | _, _ => ""
  end.

Definition seconds_layout (last : string) : list (nat * string) :=
  [(4%nat, "-"); (2%nat, "-"); (2%nat, "T"); (2%nat, ":"); (2%nat, ":"); (2%nat, last)]%string.

(** [t.UTC().Format("2006-01-02T15:04:05.000000000Z07:00")] *)
Definition archaeologyPersistenceStamp (t : Z) : string :=
  render (seconds_layout "." ++ [(9%nat, "Z"%string)]) (fields t).

(** The fraction of [time.RFC3339Nano]: trailing zeros are dropped, and so is
    a fraction of zero. *)
Fixpoint trim_zeros (digits : nat) (n : Z) : string :=
  match digits with
  | O => ""
  | S digits' => if n mod 10 =? 0 then trim_zeros digits' (n / 10) else "." +:+ dec digits n
  end.

(** [t.UTC().Format(time.RFC3339Nano)] *)
Definition stamp (t : Z) : string :=
  render (seconds_layout "") (fields t) +:+ trim_zeros 9 (List.last (fields t) 0) +:+ "Z".

(** ** The calendar is ordered *)

(** [lia] with quotients and remainders by constants. *)
Ltac dlia := Z.to_euclidean_division_equations; lia.

Lemma days_before_year_mono a b : a <= b -> days_before_year a <= days_before_year b.
Proof.
  intros H. unfold days_before_year. pose proof (Z.div_le_mono (a + 3) (b + 3) 4). pose proof (Z.div_le_mono (a + 399) (b + 399) 400).
  assert ((b + 99) / 100 - (a + 99) / 100 <= b - a) by dlia. dlia.
Qed.

Lemma year_of_spec n : days_before_year (year_of n) <= n < days_before_year (year_of n + 1).
Proof.
  unfold year_of. set (y := n * 400 / 146097).
  assert (146097 * y <= n * 400 < 146097 * (y + 1)) as Hy by (subst y; dlia). clearbody y.
  destruct (Z.leb_spec (days_before_year (y + 1)) n) as [H1|H1].
  - split; [done|]. unfold days_before_year in *. dlia.
  - destruct (Z.ltb_spec n (days_before_year y)) as [H2|H2]; [|dlia].
    replace (y - 1 + 1) with y by dlia. split; [|done]. unfold days_before_year in *. dlia.
Qed.

Lemma year_of_unique n y : days_before_year y <= n < days_before_year (y + 1) -> year_of n = y.
Proof.
  intros Hy. pose proof (year_of_spec n) as Hs. destruct (Z.lt_trichotomy (year_of n) y) as [H|[H|H]]; [|done|].
  - pose proof (days_before_year_mono (year_of n + 1) y). dlia.
  - pose proof (days_before_year_mono (y + 1) (year_of n)). dlia.
Qed.

Lemma year_length y :
  days_before_year (y + 1) - days_before_year y = if leap_year y then 366 else 365.
Proof.
  unfold days_before_year, leap_year. 
  replace (y + 1 + 3) with (y + 4) by dlia.
  destruct (y mod 4 =? 0) eqn:E4, (y mod 100 =? 0) eqn:E100, (y mod 400 =? 0) eqn:E400; simpl; dlia.
Qed.

Fixpoint lexlt (a b : list Z) : Prop :=
  match a, b with
  | x :: a', y :: b' => x < y \/ x = y /\ lexlt a' b'
  | _, _ => False
  end.

Lemma month_walk_ge lens m k : m <= (month_walk m lens k).1.
Proof. revert m k. induction lens as [|l lens IH]; intros m k; simpl; [lia|]. case_match; simpl; [lia|]. specialize (IH (m + 1) (k - l)). lia. Qed.

Lemma month_walk_mono lens m k k' a b :
  k < k' -> lexlt ((month_walk m lens k).1 :: (month_walk m lens k).2 :: a) ((month_walk m lens k').1 :: (month_walk m lens k').2 :: b).
Proof.
  revert m k k'. induction lens as [|l lens IH]; intros m k k' H; cbn [month_walk]; [simpl; lia|].
  destruct (Z.ltb_spec k l), (Z.ltb_spec k' l); cbn [fst snd lexlt]; [lia| |lia|apply IH; lia].
  left. pose proof (month_walk_ge lens (m + 1) (k' - l)). lia.
Qed.

(** The months, days and times of day that a stamp shows. *)
Lemma month_walk_range lens m k :
  Forall (fun l => 28 <= l <= 31) lens -> 0 <= k < foldr Z.add 0 lens ->
  m <= (month_walk m lens k).1 < m + Z.of_nat (length lens) /\ 1 <= (month_walk m lens k).2 <= 31.
Proof.
  intros Hl. revert m k. induction Hl as [|l lens H _ IH]; intros m k Hk; cbn [month_walk foldr length] in *; [lia|].
  destruct (Z.ltb_spec k l); cbn [fst snd]; [lia|]. specialize (IH (m + 1) (k - l)). lia.
Qed.

Lemma month_lengths_ok y :
  Forall (fun l => 28 <= l <= 31) (month_lengths y) /\
  foldr Z.add 0 (month_lengths y) = days_before_year (y + 1) - days_before_year y.
Proof. rewrite year_length. unfold month_lengths. split; [repeat constructor; try lia; case_match; lia|by destruct (leap_year y)]. Qed.

(** [0 <= y <= 9999] *)
Definition in_range (t : Z) : Prop :=
  days_before_year 0 <= t / nanos_per_day + epoch_day < days_before_year 10000.

Definition widths : list nat := [4; 2; 2; 2; 2; 2; 9]%nat.

Lemma fields_fit t : in_range t -> Forall2 (fun w v => 0 <= v < 10 ^ Z.of_nat w) widths (fields t).
Proof.
  intros Hr. unfold fields. cbv zeta. set (day := t / nanos_per_day + epoch_day) in *. set (r := t mod nanos_per_day).
  assert (0 <= r < 86400000000000) as Hb by (apply (Z.mod_pos_bound t nanos_per_day); done).
  destruct (month_lengths_ok (year_of day)) as [Hl Hsum]. pose proof (year_of_spec day) as Hy.
  pose proof (month_walk_range _ 1 (day - days_before_year (year_of day)) Hl ltac:(lia)) as Hm. simpl length in Hm.
  destruct (month_walk _ _ _) as [m d]. simpl in Hm.
  assert (0 <= year_of day < 10000) as Hyr.
  { unfold in_range in Hr. fold day in Hr. split; apply Z.nlt_ge || apply Z.nle_gt; intros Hbad.
    - pose proof (days_before_year_mono (year_of day + 1) 0). lia.
    - pose proof (days_before_year_mono 10000 (year_of day)). lia. }
  repeat constructor; simpl Z.pow; try lia; dlia.
Qed.

Lemma fields_mono t t' : t < t' -> lexlt (fields t) (fields t').
Proof.
  intros Ht. unfold fields. cbv zeta. set (day := t / nanos_per_day + epoch_day). set (day' := t' / nanos_per_day + epoch_day).
  set (r := t mod nanos_per_day). set (r' := t' mod nanos_per_day).
  assert (day < day' \/ day = day' /\ r < r' /\ 0 <= r /\ 0 <= r') as [Hd|(-> & Hrr & Hr & Hr')]
    by (subst day day' r r'; unfold nanos_per_day; dlia).
  - pose proof (year_of_spec day) as Hy. pose proof (year_of_spec day') as Hy'.
    destruct (Z.lt_trichotomy (year_of day) (year_of day')) as [H|[H|H]].
    + destruct (month_walk _ _ _), (month_walk _ _ _). by left.
    + rewrite H. destruct (month_walk 1 _ (day - _)) as [m d] eqn:E1, (month_walk 1 _ (day' - _)) as [m' d'] eqn:E2.
      right. split; [done|].
      pose proof (month_walk_mono (month_lengths (year_of day')) 1 (day - days_before_year (year_of day')) (day' - days_before_year (year_of day'))
        [r / 3600000000000; r / 60000000000 mod 60; r / 1000000000 mod 60; r mod 1000000000]
        [r' / 3600000000000; r' / 60000000000 mod 60; r' / 1000000000 mod 60; r' mod 1000000000] ltac:(lia)) as Hm.
      rewrite E1, E2 in Hm. exact Hm.
    + exfalso. pose proof (days_before_year_mono (year_of day' + 1) (year_of day)). lia.
  - destruct (month_walk _ _ _) as [m d]. do 3 (right; split; [done|]). simpl. clearbody r r'. clear - Hrr Hr Hr'. dlia.
Qed.

(** ** Text order *)

Definition slt (a b : string) : Prop := sle a b /\ a <> b.

Lemma slt_cons x y a b : slt (String x a) (String y b) <-> byte x < byte y \/ x = y /\ slt a b.
Proof.
  unfold slt, sle. cbn [sleb]. destruct (Z.ltb_spec (byte x) (byte y)) as [H|H].
  - split; [by left|]. intros _. split; [done|]. intros [= -> _]. lia.
  - destruct (Z.eqb_spec (byte x) (byte y)) as [He%byte_inj|He]; [subst|].
    + split; [intros [? Hn]; right; split; [done|split; [done|congruence]]|].
      intros [?|[_ [? ?]]]; [lia|]. split; [done|congruence].
    + split; [by intros [? _]|]. intros [?|[-> _]]; [lia|done].
Qed.

Lemma slt_app_l a b x y : String.length a = String.length b -> slt a b -> slt (a +:+ x) (b +:+ y).
Proof.
  revert b. induction a as [|c a IH]; intros [|c' b]; [intros _ []; done|done|done|]. intros [= Hl].
  change (String c a +:+ x) with (String c (a +:+ x)). change (String c' b +:+ y) with (String c' (b +:+ y)).
  rewrite !slt_cons. intros [?|[? ?]]; [by left|right; auto].
Qed.

Lemma slt_app_r a x y : slt x y -> slt (a +:+ x) (a +:+ y).
Proof.
  intros H. induction a as [|c a IH]; [done|].
  change (String c a +:+ x) with (String c (a +:+ x)). change (String c a +:+ y) with (String c (a +:+ y)).
  rewrite slt_cons. by right.
Qed.

Lemma string_app_length a b : String.length (a +:+ b) = (String.length a + String.length b)%nat.
Proof. induction a as [|c a IH]; [done|]. change (String c a +:+ b) with (String c (a +:+ b)). simpl. by rewrite IH. Qed.

Lemma dec_length w n : String.length (dec w n) = w.
Proof. revert n. induction w as [|w IH]; intros n; [done|]. cbn [dec]. rewrite string_app_length, IH. simpl. lia. Qed.

Lemma digit_byte n : 0 <= n < 10 -> byte (ascii_of_N (48 + Z.to_N n)) = 48 + n.
Proof. intros Hn. unfold byte. rewrite N_ascii_embedding by lia. lia. Qed.

Lemma dec_lt w a b : 0 <= a < b -> b < 10 ^ Z.of_nat w -> slt (dec w a) (dec w b).
Proof.
  revert a b. induction w as [|w IH]; intros a b Ha Hb; [simpl in Hb; lia|]. cbn [dec].
  rewrite Nat2Z.inj_succ, Z.pow_succ_r in Hb by lia.
  destruct (Z.lt_ge_cases (a / 10) (b / 10)) as [Hq|Hq].
  - apply slt_app_l; [by rewrite !dec_length|]. apply IH; [dlia|]. apply Z.div_lt_upper_bound; lia.
  - assert (a / 10 = b / 10 /\ a mod 10 < b mod 10) as [-> Hm] by dlia. apply slt_app_r, slt_cons. left.
    rewrite !digit_byte by dlia. lia.
Qed.

Lemma render_lt layout a b :
  Forall2 (fun l v => 0 <= v < 10 ^ Z.of_nat l.1) layout a -> Forall2 (fun l v => 0 <= v < 10 ^ Z.of_nat l.1) layout b ->
  lexlt a b -> slt (render layout a) (render layout b).
Proof.
  intros Ha. revert b. induction Ha as [|[w sep] x layout a Hx Ha IH]; intros b Hb; inversion Hb as [|? y ? b' Hy Hb']; subst; [done|].
  cbn [lexlt render]. cbn [fst] in *. intros [Hlt|[-> Hlt]].
  - apply slt_app_l; [by rewrite !dec_length|]. apply dec_lt; lia.
  - apply slt_app_r, slt_app_r. by apply IH.
Qed.

Lemma slt_irrefl a : ~ slt a a.
Proof. by intros [_ []]. Qed.

Lemma sle_total a b : sle a b \/ sle b a.
Proof.
  unfold sle. revert b. induction a as [|x a IH]; intros [|y b]; simpl; [by left..|by right|].
  destruct (Z.ltb_spec (byte x) (byte y)), (Z.ltb_spec (byte y) (byte x)), (Z.eqb_spec (byte x) (byte y)),
    (Z.eqb_spec (byte y) (byte x)); try lia; auto.
Qed.

Lemma sle_antisym a b : sle a b -> sle b a -> a = b.
Proof.
  unfold sle. revert b. induction a as [|x a IH]; intros [|y b]; simpl; try done.
  destruct (Z.ltb_spec (byte x) (byte y)), (Z.ltb_spec (byte y) (byte x)), (Z.eqb_spec (byte x) (byte y)),
    (Z.eqb_spec (byte y) (byte x)); try lia; try done.
  intros H3 H4. f_equal; [by apply byte_inj|by apply IH].
Qed.

Lemma layout_fit (layout : list (nat * string)) t : layout.*1 = widths -> in_range t -> Forall2 (fun l v => 0 <= v < 10 ^ Z.of_nat l.1) layout (fields t).
Proof. intros Hl Hr%fields_fit. rewrite <-Hl in Hr. by apply Forall2_fmap_l in Hr. Qed.

Lemma archaeologyPersistenceStamp_lt t t' :
  in_range t -> in_range t' -> t < t' -> slt (archaeologyPersistenceStamp t) (archaeologyPersistenceStamp t').
Proof. intros Hr Hr' Ht. apply render_lt; [by apply layout_fit..|by apply fields_mono]. Qed.

(** The fixed-width stamps of the persistence ledger sort as the instants
    they denote, so the text comparisons of its queries compare times. *)
Theorem persistence_stamps_ordered t t' :
  in_range t -> in_range t' -> (sle (archaeologyPersistenceStamp t) (archaeologyPersistenceStamp t') <-> t <= t').
Proof.
  intros Hr Hr'. split.
  - intros Hle. apply Z.nlt_ge. intros Hlt.
    destruct (archaeologyPersistenceStamp_lt t' t Hr' Hr Hlt) as [Hle' Hne]. apply Hne. by apply sle_antisym.
  - intros [Hlt| ->]%Z.le_lteq; [by apply archaeologyPersistenceStamp_lt|]. by destruct (sle_total (archaeologyPersistenceStamp t') (archaeologyPersistenceStamp t')).
Qed.

Lemma persistence_stamps_ordered_witness :
  sle (archaeologyPersistenceStamp 100000000) (archaeologyPersistenceStamp 1000000000).
Proof. apply (persistence_stamps_ordered 100000000 1000000000); [split; vm_compute; congruence..|lia]. Defined.

(** The stamps of the other tables do not: half a second past an instant
    that falls on a second has the smaller text. *)
Theorem stamps_missort :
  let t := 1767225600 * 1000000000 in
  let t' := t + 500000000 in
  stamp t = "2026-01-01T00:00:00Z"%string /\ stamp t' = "2026-01-01T00:00:00.5Z"%string /\
  ~ sle (stamp t) (stamp t') /\ sle (stamp t') (stamp t).
Proof. vm_compute. split_and!; [done..|congruence|done]. Qed.

(** ** Reading a stamp back *)

(** [w] decimal digits of the text, as a number on top of [acc]. *)
Fixpoint read_dec (w : nat) (acc : Z) (s : string) : option (Z * string) :=
  match w, s with
  | O, _ => Some (acc, s)
  | S w', String a s' => if digit a then read_dec w' (10 * acc + digit_val a) s' else None
  | S _, EmptyString => None
  end.

Fixpoint read_text (sep s : string) : option string :=
  match sep, s with
  | EmptyString, _ => Some s
  | String a sep', String c s' => if Ascii.eqb a c then read_text sep' s' else None
  | String _ _, EmptyString => None
  end.

Fixpoint read_fields (layout : list (nat * string)) (s : string) : option (list Z * string) :=
  match layout with
  | [] => Some ([], s)
  | (w, sep) :: layout' =>
      match read_dec w 0 s with
      | Some (v, s1) =>
          match read_text sep s1 with
          | Some s2 => match read_fields layout' s2 with Some (vs, s3) => Some (v :: vs, s3) | None => None end
          | None => None
          end
      | None => None
      end
  end.

(** A fraction of up to nine digits, in nanoseconds: each digit is worth a
    tenth of the one before. *)
Fixpoint read_fraction (worth acc : Z) (s : string) : option Z :=
  match s with
  | EmptyString => None
  | String a s' =>
      if digit a then if worth =? 0 then None else read_fraction (worth / 10) (acc + worth * digit_val a) s'
      else if Ascii.eqb a "Z" then match s' with EmptyString => Some acc | _ => None end else None
  end.

Definition instant (vs : list Z) (nanos : Z) : option Z :=
  match vs with
  | [y; m; d; hh; mm; ss] =>
      if (1 <=? m) && (m <=? 12) && (1 <=? d) && (d <=? days_in_month y m) && (hh <=? 23) && (mm <=? 59) && (ss <=? 59) then
        let day := days_before_year y + foldr Z.add 0 (take (Z.to_nat (m - 1)) (month_lengths y)) + d - 1 - epoch_day in
        Some (day * nanos_per_day + hh * 3600000000000 + mm * 60000000000 + ss * 1000000000 + nanos)
      else None
  | _ => None
  end.

(** [time.Parse(time.RFC3339Nano, v)] on texts in UTC that end in [Z] and
    have no more than nine fractional digits, the only ones the store writes. *)
Definition parseRFC3339Nano (v : string) : option Z :=
  match read_fields (seconds_layout "") v with
  | Some (vs, String a rest) =>
      if Ascii.eqb a "Z" then match rest with EmptyString => instant vs 0 | _ => None end
      else if Ascii.eqb a "." then
        match rest with
        | String c _ =>
            if digit c then match read_fraction 100000000 0 rest with Some nanos => instant vs nanos | None => None end
            else None
        | EmptyString => None
        end
      else None
  | _ => None
  end.

(** [parseStamp] drops the error of [time.Parse]: a text that does not parse
    becomes the zero time. *)
Definition parseStamp (v : string) : Z := default zeroTime (parseRFC3339Nano v).

Lemma string_cons_app x a b : String x a +:+ b = String x (a +:+ b).
Proof. done. Qed.

(** The leading digit of a number. *)
Lemma dec_cons k v : 0 <= v < 10 ^ Z.of_nat (S k) ->
  dec (S k) v = String (ascii_of_N (48 + Z.to_N (v / 10 ^ Z.of_nat k))) (dec k (v mod 10 ^ Z.of_nat k)).
Proof.
  revert v. induction k as [|k IH]; intros v Hv.
  - simpl in *. rewrite Z.div_1_r, Z.mod_small by lia. done.
  - set (p := 10 ^ Z.of_nat k) in *. assert (0 < p) by (apply Z.pow_pos_nonneg; lia).
    assert (10 ^ Z.of_nat (S k) = 10 * p) as Hp by (rewrite Nat2Z.inj_succ, Z.pow_succ_r by lia; done).
    rewrite Hp. rewrite Nat2Z.inj_succ, Z.pow_succ_r, Hp in Hv by lia.
    change (dec (S (S k)) v) with (dec (S k) (v / 10) +:+ String (ascii_of_N (48 + Z.to_N (v mod 10))) "").
    rewrite IH by (rewrite Hp; dlia). fold p. rewrite string_cons_app. cbn [dec]. rewrite Z.div_div, (Z.rem_mul_r v 10 p) by lia.
    assert ((v mod 10 + 10 * ((v / 10) mod p)) / 10 = (v / 10) mod p /\ (v mod 10 + 10 * ((v / 10) mod p)) mod 10 = v mod 10) as [-> ->].
    { pose proof (Z.mod_pos_bound v 10 ltac:(lia)). generalize ((v / 10) mod p). intros q. split; dlia. }
    done.
Qed.

Lemma digit_ascii n : 0 <= n < 10 -> digit (ascii_of_N (48 + Z.to_N n)) = true /\ digit_val (ascii_of_N (48 + Z.to_N n)) = n.
Proof.
  intros Hn. unfold digit, between, digit_val. rewrite digit_byte by done. split; [|lia].
  apply andb_true_iff. rewrite !Z.leb_le. lia.
Qed.

Lemma leading_digit k v : 0 <= v < 10 ^ Z.of_nat (S k) ->
  0 <= v / 10 ^ Z.of_nat k < 10 /\ 0 <= v mod 10 ^ Z.of_nat k < 10 ^ Z.of_nat k /\
  v = v / 10 ^ Z.of_nat k * 10 ^ Z.of_nat k + v mod 10 ^ Z.of_nat k.
Proof.
  rewrite Nat2Z.inj_succ, Z.pow_succ_r by lia. set (p := 10 ^ Z.of_nat k). assert (0 < p) by (apply Z.pow_pos_nonneg; lia).
  intros Hv. split_and!; try apply Z.mod_pos_bound; try lia; [apply Z.div_pos; lia|apply Z.div_lt_upper_bound; lia|].
  rewrite Z.mul_comm. by apply Z.div_mod; lia.
Qed.

Lemma read_dec_dec w n acc s : 0 <= n < 10 ^ Z.of_nat w -> read_dec w acc (dec w n +:+ s) = Some (acc * 10 ^ Z.of_nat w + n, s).
Proof.
  revert n acc. induction w as [|w IH]; intros n acc Hn; [simpl in *; do 2 f_equal; lia|].
  destruct (leading_digit w n Hn) as (Hq & Hm & Heq). rewrite dec_cons, string_cons_app by done. cbn [read_dec].
  destruct (digit_ascii _ Hq) as [-> ->]. rewrite IH by done. do 2 f_equal.
  rewrite Nat2Z.inj_succ, Z.pow_succ_r by lia. lia.
Qed.

Lemma read_text_app sep s : read_text sep (sep +:+ s) = Some s.
Proof. induction sep as [|a sep IH]; [done|]. rewrite string_cons_app. cbn [read_text]. by rewrite Ascii.eqb_refl. Qed.

Lemma read_fields_render layout vs s :
  Forall2 (fun l v => 0 <= v < 10 ^ Z.of_nat l.1) layout vs -> read_fields layout (render layout vs +:+ s) = Some (vs, s).
Proof.
  induction 1 as [|[w sep] v layout vs Hv _ IH]; [done|]. cbn [render read_fields].
  rewrite !string_app_assoc, read_dec_dec by done. rewrite read_text_app, IH. by rewrite Z.add_0_l.
Qed.

Lemma pow10_nonzero n : (10 ^ Z.of_nat n =? 0) = false.
Proof. apply Z.eqb_neq. pose proof (Z.pow_pos_nonneg 10 (Z.of_nat n)). lia. Qed.

Lemma read_fraction_dec k j v acc :
  0 <= v < 10 ^ Z.of_nat (S k) ->
  read_fraction (10 ^ Z.of_nat (k + j)) acc (dec (S k) v +:+ "Z") = Some (acc + v * 10 ^ Z.of_nat j).
Proof.
  revert v acc. induction k as [|k IH]; intros v acc Hv; destruct (leading_digit _ v Hv) as (Hq & Hm & Heq);
    rewrite dec_cons, string_cons_app by done; cbn [read_fraction]; destruct (digit_ascii _ Hq) as [-> ->]; rewrite pow10_nonzero.
  - simpl. f_equal. rewrite Z.div_1_r. lia.
  - replace (10 ^ Z.of_nat (S k + j) / 10) with (10 ^ Z.of_nat (k + j)).
    2: { replace (Z.of_nat (S k + j)) with (Z.succ (Z.of_nat (k + j))) by lia. rewrite Z.pow_succ_r by lia. by rewrite Z.mul_comm, Z.div_mul. }
    rewrite IH by done. f_equal. replace (Z.of_nat (S k + j)) with (Z.of_nat (S k) + Z.of_nat j) by lia.
    rewrite Z.pow_add_r by lia. rewrite Heq at 3. ring.
Qed.

Lemma trim_zeros_cases D n : 0 <= n < 10 ^ Z.of_nat D ->
  n = 0 /\ trim_zeros D n = ""%string \/
  exists k j v, (S k + j)%nat = D /\ 0 <= v < 10 ^ Z.of_nat (S k) /\ n = v * 10 ^ Z.of_nat j /\ trim_zeros D n = "." +:+ dec (S k) v.
Proof.
  revert n. induction D as [|D IH]; intros n Hn; [left; simpl in Hn; split; [lia|done]|]. cbn [trim_zeros].
  destruct (Z.eqb_spec (n mod 10) 0) as [Hm|Hm].
  - rewrite Nat2Z.inj_succ, Z.pow_succ_r in Hn by lia. destruct (IH (n / 10)) as [[H0 ->]|(k & j & v & <- & Hv & Hq & ->)].
    + split; [dlia|]. apply Z.div_lt_upper_bound; lia.
    + left. split; [dlia|done].
    + right. exists k, (S j), v. split_and!; [lia|lia|lia| |done]. rewrite Nat2Z.inj_succ, Z.pow_succ_r by lia. dlia.
  - right. exists D, 0%nat, n. split_and!; [lia|lia|lia| |done]. simpl. lia.
Qed.

Lemma month_walk_inv lens m0 k : 0 <= k < foldr Z.add 0 lens ->
  let '(m, d) := month_walk m0 lens k in
  m0 <= m /\ 1 <= d /\ foldr Z.add 0 (take (Z.to_nat (m - m0)) lens) + d - 1 = k /\
  exists l, lens !! Z.to_nat (m - m0) = Some l /\ d <= l.
Proof.
  revert m0 k. induction lens as [|l lens IH]; intros m0 k Hk; cbn [month_walk foldr] in *; [lia|].
  destruct (Z.ltb_spec k l) as [Hl|Hl].
  - rewrite Z.sub_diag. simpl. split_and!; [lia..|]. exists l. split; [done|lia].
  - specialize (IH (m0 + 1) (k - l) ltac:(lia)). destruct (month_walk _ _ _) as [m d].
    destruct IH as (Hm & Hd & Hsum & l' & Hl' & Hdl).
    replace (Z.to_nat (m - m0)) with (S (Z.to_nat (m - (m0 + 1)))) by lia. cbn [take foldr].
    split_and!; [lia..|]. exists l'. done.
Qed.

Lemma month_length_days y m l : 1 <= m -> month_lengths y !! Z.to_nat (m - 1) = Some l -> days_in_month y m = l /\ m <= 12.
Proof.
  intros Hm Hl. assert (m <= 12) as H12 by (apply lookup_lt_Some in Hl; simpl in Hl; lia). split; [|done].
  assert (m ∈ [1; 2; 3; 4; 5; 6; 7; 8; 9; 10; 11; 12]) as Hin by (rewrite !elem_of_cons; lia).
  repeat (apply elem_of_cons in Hin as [->|Hin]; [by simplify_eq/=|]). by apply elem_of_nil in Hin.
Qed.

Lemma instant_fields t : instant (take 6 (fields t)) (List.last (fields t) 0) = Some t.
Proof.
  unfold fields. cbv zeta. set (day := t / nanos_per_day + epoch_day). set (r := t mod nanos_per_day).
  assert (t = (day - epoch_day) * nanos_per_day + r /\ 0 <= r < 86400000000000) as [Ht Hr] by (subst day r; unfold nanos_per_day; dlia).
  pose proof (year_of_spec day) as Hy. destruct (month_lengths_ok (year_of day)) as [_ Hsum].
  pose proof (month_walk_inv (month_lengths (year_of day)) 1 (day - days_before_year (year_of day)) ltac:(lia)) as Hw.
  destruct (month_walk _ _ _) as [m d]. destruct Hw as (Hm & Hd & Hk & l & Hl & Hdl).
  destruct (month_length_days _ _ _ Hm Hl) as [Hdm H12]. cbn [take List.last instant].
  clearbody day r. subst t. rewrite Hdm.
  assert ((1 <=? m) && (m <=? 12) && (1 <=? d) && (d <=? l) && (r / 3600000000000 <=? 23) && (r / 60000000000 mod 60 <=? 59)
          && (r / 1000000000 mod 60 <=? 59) = true) as ->.
  { rewrite !andb_true_iff, !Z.leb_le. split_and!; try lia; dlia. }
  f_equal. set (s := foldr _ _ _) in *. unfold nanos_per_day. clearbody s. clear Hl Hdm Hsum Hy. dlia.
Qed.

Lemma parse_stamp t : in_range t -> parseRFC3339Nano (stamp t) = Some t.
Proof.
  intros Hr. unfold stamp, parseRFC3339Nano.
  assert (render (seconds_layout "") (fields t) = render (seconds_layout "") (take 6 (fields t)) /\ length (fields t) = 7%nat) as [-> Hlen]
    by (unfold fields; cbv zeta; by destruct (month_walk _ _ _)).
  pose proof (layout_fit (seconds_layout "" ++ [(9%nat, ""%string)]) t eq_refl Hr) as Hfit.
  assert (Forall2 (fun l v => 0 <= v < 10 ^ Z.of_nat l.1) (seconds_layout "") (take 6 (fields t)) /\ 0 <= List.last (fields t) 0 < 10 ^ 9) as [H6 Hn].
  { destruct (fields t) as [|f1 [|f2 [|f3 [|f4 [|f5 [|f6 [|f7 [|]]]]]]]]; try done.
    change [f1; f2; f3; f4; f5; f6; f7] with ([f1; f2; f3; f4; f5; f6] ++ [f7]) in Hfit.
    apply Forall2_app_inv in Hfit as [? Hlast]; [|done]. split; [done|]. by inversion Hlast. }
  rewrite read_fields_render by done. pose proof (instant_fields t) as Hi.
  destruct (trim_zeros_cases 9 _ Hn) as [[H0 ->]|(k & j & v & Hkj & Hv & Hn' & ->)].
  - cbn. by rewrite H0 in Hi.
  - rewrite string_app_assoc. destruct (leading_digit _ v Hv) as (Hq & _ & _).
    assert (read_fraction 100000000 0 (dec (S k) v +:+ "Z") = Some (List.last (fields t) 0)) as Hf.
    { change 100000000 with (10 ^ Z.of_nat 8). replace 8%nat with (k + j)%nat by lia. rewrite read_fraction_dec by done.
      by rewrite Hn', Z.add_0_l. }
    destruct (digit_ascii _ Hq) as [Hdig _].
    rewrite string_cons_app. change ("" +:+ (dec (S k) v +:+ "Z")) with (dec (S k) v +:+ "Z").
    change (Ascii.eqb "." "Z") with false. change (Ascii.eqb "." ".") with true. cbv iota.
    rewrite Hf, dec_cons, string_cons_app by done. cbv iota. by rewrite Hdig.
Qed.

(** A stamp reads back as the instant it was written from. *)
Theorem stamp_round_trip t : in_range t -> parseStamp (stamp t) = t.
Proof. intros Hr. unfold parseStamp. by rewrite parse_stamp. Qed.

Lemma stamp_round_trip_witness : parseStamp (stamp 951868799120000000) = 951868799120000000.
Proof. apply (stamp_round_trip 951868799120000000). split; vm_compute; congruence. Defined.
