(* ===== verification/Cursor.v ===== *)
(** * Opaque cursors and keyset pages

    [encodeCursor] and [decodeCursor] of [internal/application/browse.go], over
    [base64.RawURLEncoding] and an argument for the JSON of the cursor; and the
    pages every list of the application is read in: one row more than the limit
    is fetched, the extra row only says that there is more, and the cursor is
    the last row shown. *)

From Stdlib Require Import ZArith Lia Ascii.
From stdpp Require Import base gmap strings list sets sorting pretty.
From S2P Require Import Prelude GoText Stamp.

Local Open Scope Z_scope.

(** ** [encoding/base64], [RawURLEncoding] *)

Definition base64_digit (n : N) : ascii :=
  ascii_of_N (if n <? 26 then 65 + n else if n <? 52 then 71 + n else if n <? 62 then n - 4 else if n =? 62 then 45 else 95)%N.
Fixpoint base64_bytes (l : list ascii) : list ascii :=
  match l with
  | a :: b :: c :: rest =>
      let n := (N_of_ascii a * 65536 + N_of_ascii b * 256 + N_of_ascii c)%N in
      base64_digit (n / 262144) :: base64_digit (n / 4096 mod 64) :: base64_digit (n / 64 mod 64) :: base64_digit (n mod 64) :: base64_bytes rest
  | [a; b] =>
      let n := (N_of_ascii a * 1024 + N_of_ascii b * 4)%N in
      [base64_digit (n / 4096); base64_digit (n / 64 mod 64); base64_digit (n mod 64)]
  | [a] => let n := (N_of_ascii a * 16)%N in [base64_digit (n / 64); base64_digit (n mod 64)]
  | [] => []
  end.
Definition base64_EncodeToString (s : string) : string := String.string_of_list_ascii (base64_bytes (String.list_ascii_of_string s)).

Definition base64_value (a : ascii) : option N :=
  let c := N_of_ascii a in
  (if (65 <=? c) && (c <=? 90) then Some (c - 65)
   else if (97 <=? c) && (c <=? 122) then Some (c - 71)
   else if (48 <=? c) && (c <=? 57) then Some (c + 4)
   else if c =? 45 then Some 62
   else if c =? 95 then Some 63
   else None)%N.

(** The decoder passes over line breaks and ignores the bits past the last
    byte. *)
Definition line_break (a : ascii) : bool := (byte a =? 10) || (byte a =? 13).
Fixpoint base64_quanta (l : list ascii) : option (list ascii) :=
  match l with
  | a :: b :: c :: d :: rest =>
      match base64_value a, base64_value b, base64_value c, base64_value d, base64_quanta rest with
      | Some x, Some y, Some z, Some t, Some out =>
          let n := (x * 262144 + y * 4096 + z * 64 + t)%N in
          Some (ascii_of_N (n / 65536) :: ascii_of_N (n / 256 mod 256) :: ascii_of_N (n mod 256) :: out)
      | _, _, _, _, _ => None
      end
  | [a; b; c] =>
      match base64_value a, base64_value b, base64_value c with
      | Some x, Some y, Some z =>
          let n := (x * 4096 + y * 64 + z)%N in Some [ascii_of_N (n / 1024); ascii_of_N (n / 4 mod 256)]
      | _, _, _ => None
      end
  | [a; b] =>
      match base64_value a, base64_value b with
      | Some x, Some y => Some [ascii_of_N ((x * 64 + y) / 16)%N]
      | _, _ => None
      end
  | [_] => None
  | [] => Some []
  end.
Definition base64_DecodeString (s : string) : option string :=
  String.string_of_list_ascii <$> base64_quanta (List.filter (fun a => negb (line_break a)) (String.list_ascii_of_string s)).

(** ** The cursor *)

(** The zero time stands for no time. *)
Record BrowseCursor := { bc_Time : Z; bc_Text : string; bc_ID : string }.
Record opaqueCursor := { oc_Version : Z; oc_Resource : string; oc_Time : string; oc_Text : string; oc_ID : string }.

(** [json.Marshal] and [json.Unmarshal] of the cursor *)
Class CursorJSON := {
  json_cursor : opaqueCursor -> string;
  json_cursor_read : string -> option opaqueCursor;
}.

Definition cursor_text_ok (w : opaqueCursor) : Prop :=
  utf8_ValidString (oc_Resource w) = true /\ utf8_ValidString (oc_Time w) = true /\ utf8_ValidString (oc_Text w) = true
  /\ utf8_ValidString (oc_ID w) = true.

(** Marshalled texts of valid UTF-8 read back as they were, and an object is
    not an empty text. *)
Class CursorJSONLaws `{CursorJSON} : Prop := {
  json_cursor_round_trip : forall w, cursor_text_ok w -> json_cursor_read (json_cursor w) = Some w;
  json_cursor_nonempty : forall w, json_cursor w <> "";
}.

Section Codec.
Context `{CursorJSON}.

Definition opaque_of (resource : string) (cursor : BrowseCursor) : opaqueCursor :=
  {| oc_Version := 1; oc_Resource := resource; oc_Time := if IsZero (bc_Time cursor) then "" else stamp (bc_Time cursor);
     oc_Text := bc_Text cursor; oc_ID := bc_ID cursor |}.

Definition encodeCursor (resource : string) (cursor : BrowseCursor) : string :=
  base64_EncodeToString (json_cursor (opaque_of resource cursor)).

(** [None] is the nil cursor of an empty text. *)
Definition decodeCursor (resource raw : string) : Err + option BrowseCursor :=
  if seqb raw "" then inr None
  else if 512 <? len raw then inl ErrInvalid
  else
    match base64_DecodeString raw with
    | None => inl ErrInvalid
    | Some payload =>
        match json_cursor_read payload with
        | None => inl ErrInvalid
        | Some w =>
            if negb (oc_Version w =? 1) || negb (seqb (oc_Resource w) resource) || seqb (oc_ID w) "" then inl ErrInvalid
            else if seqb (oc_Time w) "" then inr (Some {| bc_Time := zeroTime; bc_Text := oc_Text w; bc_ID := oc_ID w |})
            else match parseRFC3339Nano (oc_Time w) with
                 | None => inl ErrInvalid
                 | Some t => inr (Some {| bc_Time := t; bc_Text := oc_Text w; bc_ID := oc_ID w |})
                 end
        end
    end.
End Codec.

(** ** Facts *)

Lemma base64_value_digit n : (n < 64)%N -> base64_value (base64_digit n) = Some n.
Proof.
  intros Hn.
  assert (Hall : forallb (fun k => bool_decide (base64_value (base64_digit (N.of_nat k)) = Some (N.of_nat k))) (seq 0 64) = true)
    by (vm_compute; reflexivity).
  rewrite forallb_forall in Hall. specialize (Hall (N.to_nat n)). rewrite N2Nat.id in Hall.
  eapply bool_decide_eq_true_1, Hall, in_seq. lia.
Qed.

Lemma base64_digit_no_break n : (n < 64)%N -> line_break (base64_digit n) = false.
Proof.
  intros Hn.
  assert (Hall : forallb (fun k => negb (line_break (base64_digit (N.of_nat k)))) (seq 0 64) = true) by (vm_compute; reflexivity).
  rewrite forallb_forall in Hall. specialize (Hall (N.to_nat n)). rewrite N2Nat.id in Hall.
  apply negb_true_iff, Hall, in_seq. lia.
Qed.

Lemma byte_bound a : (N_of_ascii a < 256)%N.
Proof. apply N_ascii_bounded. Qed.

Lemma ascii_back a n : n = N_of_ascii a -> ascii_of_N n = a.
Proof. intros ->. apply ascii_N_embedding. Qed.

(** Induction by groups of three bytes *)
Lemma list_ind3 {A} (P : list A -> Prop) :
  P [] -> (forall a, P [a]) -> (forall a b, P [a; b]) -> (forall a b c l, P l -> P (a :: b :: c :: l)) -> forall l, P l.
Proof.
  intros H0 H1 H2 H3 l. induction l as [l IH] using (induction_ltof1 _ (@length A)). unfold ltof in IH.
  destruct l as [|a [|b [|c l]]]; [done..|]. apply H3, IH. simpl. lia.
Qed.

Ltac digits := repeat rewrite base64_value_digit by (zify; Z.to_euclidean_division_equations; lia).

Lemma base64_quanta_bytes l : base64_quanta (base64_bytes l) = Some l.
Proof.
  induction l as [|a|a b|a b c l IH] using list_ind3; [done|..]; simpl;
    pose proof (byte_bound a); try pose proof (byte_bound b); try pose proof (byte_bound c).
  - digits. do 2 f_equal. apply ascii_back. zify; Z.to_euclidean_division_equations; lia.
  - digits. repeat f_equal; apply ascii_back; zify; Z.to_euclidean_division_equations; lia.
  - digits. rewrite IH. repeat f_equal; apply ascii_back; zify; Z.to_euclidean_division_equations; lia.
Qed.

Lemma base64_no_breaks l : List.filter (fun a => negb (line_break a)) (base64_bytes l) = base64_bytes l.
Proof.
  induction l as [|a|a b|a b c l IH] using list_ind3; [done|..]; simpl;
    pose proof (byte_bound a); try pose proof (byte_bound b); try pose proof (byte_bound c);
    repeat rewrite base64_digit_no_break by (zify; Z.to_euclidean_division_equations; lia); simpl; by rewrite ?IH.
Qed.

Lemma base64_round_trip s : base64_DecodeString (base64_EncodeToString s) = Some s.
Proof.
  unfold base64_DecodeString, base64_EncodeToString.
  rewrite String.list_ascii_of_string_of_list_ascii, base64_no_breaks, base64_quanta_bytes. simpl.
  by rewrite String.string_of_list_ascii_of_string.
Qed.

Lemma stamp_nonempty t : stamp t <> "".
Proof.
  unfold stamp. intros E. apply (f_equal String.length) in E. rewrite !string_app_length in E. simpl in E. lia.
Qed.

(** Stamps are ASCII. *)
Definition ascii_text (s : string) : bool := all_bytes (fun a => byte a <? 0x80) s.

Lemma ascii_text_app a b : ascii_text (a +:+ b) = ascii_text a && ascii_text b.
Proof. unfold ascii_text. induction a as [|x a IH]; [done|]. simpl. rewrite IH. by destruct (byte x <? 128). Qed.

Lemma ascii_text_valid s : ascii_text s = true -> utf8_ValidString s = true.
Proof. unfold ascii_text. induction s as [|x s IH]; [done|]. simpl. intros H. apply andb_true_iff in H as [Hx Hs]. rewrite Hx. auto. Qed.

Lemma dec_ascii w n : ascii_text (dec w n) = true.
Proof.
  induction w as [|w IH] in n |- *; [done|]. simpl. rewrite ascii_text_app, IH. unfold ascii_text. simpl.
  rewrite digit_byte by (Z.to_euclidean_division_equations; lia). rewrite (proj2 (Z.ltb_lt _ _)); [done|].
  Z.to_euclidean_division_equations; lia.
Qed.

Lemma stamp_valid t : utf8_ValidString (stamp t) = true.
Proof.
  apply ascii_text_valid. unfold stamp. rewrite !ascii_text_app.
  assert (Hr : forall layout vs, Forall (fun x => ascii_text x.2 = true) layout -> ascii_text (render layout vs) = true).
  { induction layout as [|[w sep] layout IH]; intros [|v vs] Hl; try done. inversion Hl as [|? ? Hsep Hl']; subst. simpl in Hsep.
    cbn [render]. by rewrite !ascii_text_app, dec_ascii, Hsep, IH. }
  rewrite Hr by (repeat constructor).
  assert (Ht : forall k n, ascii_text (trim_zeros k n) = true).
  { induction k as [|k IH]; intros n; [done|]. cbn [trim_zeros]. destruct (_ =? 0); [apply IH|]. by rewrite ascii_text_app, dec_ascii. }
  by rewrite Ht.
Qed.

(** ** Keyset pages *)

Section Keyset.
Context {A : Type} (before : A -> A -> bool).

(** The rows after a cursor, one more than the limit. *)
Definition fetch (limit : nat) (after : option A) (l : list A) : list A :=
  take (S limit) (match after with None => l | Some c => List.filter (before c) l end).

(** The rows shown, and the cursor of the next page if there is more. *)
Definition cut (limit : nat) (rows : list A) : list A * option A :=
  if Nat.ltb limit (length rows) then (take limit rows, last (take limit rows)) else (rows, None).

Fixpoint walk (fuel limit : nat) (after : option A) (l : list A) : list A :=
  match fuel with
  | O => []
  | S fuel' =>
      let '(items, next) := cut limit (fetch limit after l) in
      match next with None => items | Some c => items ++ walk fuel' limit (Some c) l end
  end.

Context (Hirr : forall x, before x x = false) (Hasym : forall x y, before x y = true -> before y x = false).
Notation R := (fun x y => before x y = true).

Lemma filter_after l1 x l2 : StronglySorted R (l1 ++ x :: l2) -> List.filter (before x) (l1 ++ x :: l2) = l2.
Proof.
  intros Hs. rewrite List.filter_app. simpl. rewrite Hirr.
  apply StronglySorted_app in Hs as (H12 & H1 & H2). inversion H2 as [|? ? H3 H4]; subst.
  rewrite (List.forallb_filter_id _ l2); [|by apply forallb_forall; rewrite Forall_forall in H4; intros y Hy; apply H4, list_elem_of_In].
  replace (List.filter (before x) l1) with (@nil A); [done|]. clear -H12 Hasym.
  induction l1 as [|y l1 IH]; [done|]. simpl. rewrite (Hasym y x) by (apply H12; [left|left]). apply IH.
  intros a b Ha Hb. apply H12; [by right|done].
Qed.

(** From any point of a strictly ordered list, the pages give the rest. *)
Lemma walk_rest limit l1 l2 fuel after :
  (0 < limit)%nat -> StronglySorted R (l1 ++ l2) -> (length l2 < fuel)%nat ->
  (after = None /\ l1 = [] \/ exists l0 x, l1 = l0 ++ [x] /\ after = Some x) ->
  walk fuel limit after (l1 ++ l2) = l2.
Proof.
  intros Hlim. induction fuel as [|fuel IH] in l1, l2, after |- *; [lia|]. intros Hs Hlen Hafter. simpl.
  assert (Hf : fetch limit after (l1 ++ l2) = take (S limit) l2).
  { unfold fetch. destruct Hafter as [[-> ->]|(l0 & x & -> & ->)]; [done|]. f_equal.
    rewrite <- app_assoc in *. by apply filter_after. }
  rewrite Hf. unfold cut. destruct (Nat.ltb_spec limit (length (take (S limit) l2))) as [Hlt|Hge]; rewrite length_take in *.
  - rewrite take_take. replace (limit `min` S limit)%nat with limit by lia.
    destruct (last (take limit l2)) as [c|] eqn:Hc.
    + apply last_Some in Hc as [l0 Hc]. rewrite <- (take_drop limit l2) at 2. rewrite (app_assoc l1).
      rewrite (IH (l1 ++ take limit l2) (drop limit l2)); [by rewrite take_drop| | |].
      * by rewrite <- app_assoc, take_drop.
      * rewrite length_drop. lia.
      * right. exists (l1 ++ l0), c. by rewrite Hc, app_assoc.
    + apply last_None in Hc. apply (f_equal length) in Hc. rewrite length_take in Hc. simpl in Hc. lia.
  - rewrite take_ge; [done|lia].
Qed.

Lemma walk_all limit l : (0 < limit)%nat -> StronglySorted R l -> walk (S (length l)) limit None l = l.
Proof. intros. apply (walk_rest limit [] l); auto. Qed.
End Keyset.

Lemma filter_bool_perm {A} (p : A -> bool) a b : a ≡ₚ b -> List.filter p a ≡ₚ List.filter p b.
Proof.
  induction 1 as [|x a b _ IH|x y a|a b c _ IH1 _ IH2]; simpl; [done|..].
  - destruct (p x); by rewrite IH.
  - destruct (p x), (p y); try done. constructor.
  - by rewrite IH1.
Qed.

(** ** The orders lists are read in: by an instant, then by an identifier *)

Definition sltb (a b : string) : bool := negb (sleb b a).

Definition key_before (time_desc id_desc : bool) (a b : Z * string) : bool :=
  (if time_desc then b.1 <? a.1 else a.1 <? b.1) || (a.1 =? b.1) && (if id_desc then sltb b.2 a.2 else sltb a.2 b.2).

Lemma sltb_spec a b : sltb a b = true <-> sle a b /\ a <> b.
Proof.
  unfold sltb. rewrite negb_true_iff. split.
  - intros H. destruct (total sle a b) as [Hab|Hba]; [|by unfold sle in Hba; congruence]. split; [done|]. intros ->.
    assert (sle b b) as Hb by reflexivity. unfold sle in Hb. congruence.
  - intros [Hab Hne]. apply not_true_iff_false. intros Hba. apply Hne. by apply (anti_symm sle).
Qed.

Section Order.
Context (td sd : bool).
Notation before := (key_before td sd).

Lemma key_before_irr x : before x x = false.
Proof.
  unfold key_before. rewrite Z.ltb_irrefl, Z.eqb_refl. unfold sltb.
  assert (sleb x.2 x.2 = true) as -> by (change (sle x.2 x.2); reflexivity). by destruct td, sd.
Qed.

Lemma key_before_spec a b :
  before a b = true <->
  (if td then b.1 < a.1 else a.1 < b.1) \/ a.1 = b.1 /\ a.2 <> b.2 /\ (if sd then sle b.2 a.2 else sle a.2 b.2).
Proof.
  unfold key_before. rewrite orb_true_iff, andb_true_iff, Z.eqb_eq.
  destruct td, sd; rewrite Z.ltb_lt, sltb_spec; intuition congruence.
Qed.

Lemma key_before_asym a b : before a b = true -> before b a = false.
Proof.
  intros H. apply not_true_iff_false. rewrite !key_before_spec in *. intros H'.
  destruct H as [H|(E & Hne & H)], H' as [H'|(E' & Hne' & H')]; [destruct td; lia..|].
  apply Hne. destruct sd; by apply (anti_symm sle).
Qed.

Lemma key_before_trans a b c : before a b = true -> before b c = true -> before a c = true.
Proof.
  rewrite !key_before_spec. intros [H|(E & Hne & H)] [H'|(E' & Hne' & H')]; [left; destruct td; lia..|].
  right. split; [lia|]. destruct sd; (split; [|by etrans]); intros Heq; rewrite Heq in *; apply Hne'; by apply (anti_symm sle).
Qed.

Lemma key_before_total a b : before a b = false -> before b a = false -> a = b.
Proof.
  intros H H'. apply not_true_iff_false in H, H'. rewrite key_before_spec in H, H'. destruct a as [ta ia], b as [tb ib]. simpl in *.
  assert (ta = tb) as -> by (destruct td; lia). f_equal. destruct (decide (ia = ib)) as [|Hne]; [done|]. exfalso.
  destruct (total sle ia ib), sd; naive_solver.
Qed.

(** [ORDER BY]: rows by their keys *)
Context {A : Type} (key : A -> Z * string).

Definition row_le (x y : A) : Prop := before (key y) (key x) = false.
#[export] Instance row_le_dec x y : Decision (row_le x y).
Proof. unfold row_le. apply _. Defined.
#[export] Instance row_le_total : Total row_le.
Proof.
  intros x y. unfold row_le. destruct (before (key y) (key x)) eqn:E; [right; by apply key_before_asym|by left].
Qed.
#[export] Instance row_le_trans : Transitive row_le.
Proof.
  intros x y z H1 H2. unfold row_le in *. apply not_true_iff_false. intros Hzx.
  destruct (before (key y) (key z)) eqn:Eyz.
  - rewrite (key_before_trans _ _ _ Eyz Hzx) in H1. done.
  - rewrite (key_before_total _ _ Eyz H2) in *. rewrite Hzx in H1. done.
Qed.

Definition order_by (l : list A) : list A := merge_sort row_le l.

Lemma order_by_perm l : order_by l ≡ₚ l.
Proof. apply merge_sort_Permutation. Qed.

Context (l : list A) (Hkeys : NoDup (key <$> l)).

Lemma key_inj x y : x ∈ l -> y ∈ l -> key x = key y -> x = y.
Proof.
  intros (i & Hi)%list_elem_of_lookup (j & Hj)%list_elem_of_lookup E.
  assert (i = j) as ->; [|congruence]. eapply NoDup_lookup; [exact Hkeys| |]; rewrite list_lookup_fmap; [by rewrite Hi|by rewrite Hj, E].
Qed.

(** Distinct keys are listed in strict order. *)
Lemma order_by_strict : StronglySorted (fun x y => before (key x) (key y) = true) (order_by l).
Proof.
  assert (Hle : StronglySorted row_le (order_by l)) by (apply Sorted_StronglySorted; [apply _|]; apply Sorted_merge_sort, _).
  assert (Hnd : NoDup (key <$> order_by l)) by (by rewrite order_by_perm).
  induction Hle as [|x m Hm IH Hx]; [constructor|]. inversion Hnd as [|? ? Hni Hnd']; subst. constructor; [by apply IH|].
  apply Forall_forall. intros y Hy. rewrite Forall_forall in Hx. specialize (Hx y Hy). unfold row_le in Hx.
  destruct (before (key x) (key y)) eqn:E; [done|]. exfalso. apply Hni. rewrite (key_before_total _ _ E Hx).
  by apply list_elem_of_fmap_2.
Qed.

(** Filtering before ordering or after is the same. *)
Lemma order_by_filter (p : A -> bool) : order_by (List.filter p l) = List.filter p (order_by l).
Proof.
  apply (StronglySorted_unique_strong row_le).
  - intros x y Hx Hy H1 H2. rewrite order_by_perm in Hx. apply list_elem_of_In, filter_In in Hx as [Hx _].
    apply list_elem_of_In, filter_In in Hy as [Hy _]. apply list_elem_of_In in Hx, Hy. rewrite order_by_perm in Hy.
    apply key_inj; [done|done|]. by apply key_before_total.
  - apply Sorted_StronglySorted; [apply _|]. apply Sorted_merge_sort, _.
  - assert (Hle : StronglySorted row_le (order_by l)) by (apply Sorted_StronglySorted; [apply _|]; apply Sorted_merge_sort, _).
    clear -Hle. induction Hle as [|x m Hm IH Hx]; simpl; [constructor|]. destruct (p x); [|done]. constructor; [done|].
    apply Forall_forall. intros y Hy. apply list_elem_of_In, filter_In in Hy as [Hy _]. rewrite Forall_forall in Hx. by apply Hx, list_elem_of_In.
  - rewrite order_by_perm. apply filter_bool_perm. symmetry. apply order_by_perm.
Qed.
End Order.

(** The encoding of [n] bytes, without padding. *)
Lemma base64_length l : (3 * length (base64_bytes l) = 4 * length l + match length l mod 3 with 0 => 0 | 1 => 2 | _ => 1 end)%nat.
Proof.
  induction l as [|a|a b|a b c l IH] using list_ind3; [done..|]. simpl length in *.
  replace (S (S (S (length l)))) with (length l + 1 * 3)%nat by lia. rewrite Nat.Div0.mod_add. lia.
Qed.

Lemma encode_length `{CursorJSON} resource cursor :
  len (encodeCursor resource cursor) <= 512 <-> len (json_cursor (opaque_of resource cursor)) <= 384.
Proof.
  unfold encodeCursor, base64_EncodeToString, len. set (s := json_cursor _).
  assert (String.length s = length (String.list_ascii_of_string s)) as -> by (clear; induction s; simpl; congruence).
  assert (forall l, String.length (String.string_of_list_ascii l) = length l) as -> by (induction l; simpl; congruence).
  pose proof (base64_length (String.list_ascii_of_string s)) as Hl.
  pose proof (Nat.mod_upper_bound (length (String.list_ascii_of_string s)) 3 ltac:(lia)).
  pose proof (Nat.div_mod_eq (length (String.list_ascii_of_string s)) 3).
  destruct (length (String.list_ascii_of_string s) mod 3)%nat as [|[|[|]]]; lia.
Qed.

(** A cursor, as it reads for the list it was made for and for another. *)
Lemma decode_encode `{CursorJSONLaws} resource other cursor :
  cursor_text_ok (opaque_of resource cursor) -> bc_ID cursor <> "" -> (bc_Time cursor = zeroTime \/ in_range (bc_Time cursor)) ->
  decodeCursor other (encodeCursor resource cursor) =
  if (len (json_cursor (opaque_of resource cursor)) <=? 384) && seqb resource other then inr (Some cursor) else inl ErrInvalid.
Proof.
  intros Htext Hid Htime. unfold decodeCursor.
  assert (Hne : encodeCursor resource cursor <> "").
  { intros E. apply (json_cursor_nonempty (opaque_of resource cursor)).
    pose proof (base64_round_trip (json_cursor (opaque_of resource cursor))) as Hr. unfold encodeCursor in E. rewrite E in Hr. by injection Hr as <-. }
  apply seqb_false in Hne. rewrite Hne. pose proof (encode_length resource cursor) as Hl.
  destruct (Z.leb_spec (len (json_cursor (opaque_of resource cursor))) 384) as [Hle|Hgt]; cbn [andb];
    [rewrite (proj2 (Z.ltb_ge _ _)) by (by apply Hl)|by rewrite (proj2 (Z.ltb_lt _ _)) by lia].
  unfold encodeCursor. rewrite base64_round_trip, json_cursor_round_trip by done. apply seqb_false in Hid.
  cbn [opaque_of oc_Version oc_Resource oc_ID oc_Time oc_Text]. rewrite Hid. cbn [Z.eqb Pos.eqb negb orb].
  destruct (seqb resource other); [|done]. cbn [negb orb]. destruct (IsZero (bc_Time cursor)) eqn:Ez.
  - rewrite seqb_refl. unfold IsZero in Ez. apply Z.eqb_eq in Ez. destruct cursor; simpl in *; by subst.
  - rewrite (proj2 (seqb_false _ _)) by apply stamp_nonempty. destruct Htime as [Ht|Ht].
    { unfold IsZero in Ez. apply Z.eqb_neq in Ez. done. }
    rewrite parse_stamp by done. by destruct cursor.
Qed.

(** C19: a cursor of valid text, with an id and a time that is absent or within
    the years 0 to 9999, comes back as it was for the list it was made for
    exactly when its JSON is at most 384 bytes (512 of base64), and is refused
    otherwise; and it is refused for every other list. *)
Theorem cursor_round_trip `{CursorJSONLaws} resource other cursor :
  cursor_text_ok (opaque_of resource cursor) -> bc_ID cursor <> "" -> (bc_Time cursor = zeroTime \/ in_range (bc_Time cursor)) ->
  decodeCursor resource (encodeCursor resource cursor) =
    (if len (json_cursor (opaque_of resource cursor)) <=? 384 then inr (Some cursor) else inl ErrInvalid) /\
  (other <> resource -> decodeCursor other (encodeCursor resource cursor) = inl ErrInvalid).
Proof.
  intros Htext Hid Htime. rewrite !decode_encode by done. rewrite seqb_refl, andb_true_r. split; [done|].
  intros Hne. by rewrite (proj2 (seqb_false _ _)), andb_false_r by congruence.
Qed.

(** A stand-in for JSON: the fields one after the other, each after its length
    in strokes. *)
Module CursorDemo.
Fixpoint strokes (n : nat) (s : string) : string := match n with O => String "b"%char s | S m => String "a"%char (strokes m s) end.
Fixpoint count_strokes (s : string) : nat * string :=
  match s with
  | String c r => if Ascii.eqb c "a"%char then let '(n, t) := count_strokes r in (S n, t) else (O, r)
  | EmptyString => (O, ""%string)
  end.
Definition field (s rest : string) : string := strokes (String.length s) (s +:+ rest).
Definition take_field (s : string) : string * string :=
  let '(n, t) := count_strokes s in (String.substring 0 n t, String.substring n (String.length t - n) t).

Lemma count_strokes_back n s : count_strokes (strokes n s) = (n, s).
Proof. induction n as [|n IH]; [done|]. simpl. by rewrite IH. Qed.
Lemma substring_app a b : String.substring 0 (String.length a) (a +:+ b) = a.
Proof. induction a as [|x a IH]; [by destruct b|]. simpl. f_equal. exact IH. Qed.
Lemma substring_rest a b : String.substring (String.length a) (String.length (a +:+ b) - String.length a) (a +:+ b) = b.
Proof.
  induction a as [|x a IH]; simpl; [|exact IH]. rewrite Nat.sub_0_r. pose proof (substring_app b "") as Hb. by rewrite string_app_nil in Hb.
Qed.
Lemma take_field_back s rest : take_field (field s rest) = (s, rest).
Proof. unfold take_field, field. by rewrite count_strokes_back, substring_app, substring_rest. Qed.

#[export] Instance framed_cursor : CursorJSON := {|
  json_cursor w :=
    strokes (if oc_Version w =? 1 then 0 else 2 + Z.to_nat (2 * Z.abs (oc_Version w) + (if oc_Version w <? 0 then 1 else 0)))
      (field (oc_Resource w) (field (oc_Time w) (field (oc_Text w) (field (oc_ID w) ""))));
  json_cursor_read s :=
    let '(v, s1) := count_strokes s in let '(r, s2) := take_field s1 in let '(t, s3) := take_field s2 in
    let '(x, s4) := take_field s3 in let '(i, _) := take_field s4 in
    let v := Z.of_nat v in
    Some {| oc_Version := if v =? 0 then 1 else if Z.even v then (v - 2) / 2 else - ((v - 3) / 2);
            oc_Resource := r; oc_Time := t; oc_Text := x; oc_ID := i |} |}.

#[export] Instance framed_cursor_laws : CursorJSONLaws.
Proof.
  split.
  - intros [v r t x i] _. unfold json_cursor, json_cursor_read, framed_cursor. cbn [oc_Version oc_Resource oc_Time oc_Text oc_ID].
    rewrite count_strokes_back, !take_field_back. do 2 f_equal.
    destruct (Z.eqb_spec v 1) as [->|Hv]; [done|].
    set (k := if v <? 0 then 1 else 0). assert (k = 0 /\ 0 <= v \/ k = 1 /\ v < 0) as Hk by (unfold k; destruct (Z.ltb_spec v 0); lia).
    rewrite (proj2 (Z.eqb_neq _ _)) by lia.
    replace (Z.of_nat (2 + Z.to_nat (2 * Z.abs v + k))) with (2 * (1 + Z.abs v) + k) by lia.
    destruct Hk as [[-> Hv0]|[-> Hv0]]; rewrite ?Z.add_0_r.
    + rewrite Z.even_mul. cbn [Z.even orb]. rewrite Z.abs_eq by lia. Z.to_euclidean_division_equations; lia.
    + rewrite Z.add_1_r, Z.even_succ, <- Z.negb_even, Z.even_mul. cbn [Z.even orb negb]. Z.to_euclidean_division_equations; lia.
  - intros w. unfold json_cursor, framed_cursor. by destruct (oc_Version w =? 1).
Qed.

Definition demo_cursor : BrowseCursor := {| bc_Time := 1000000000; bc_Text := ""; bc_ID := "N-1" |}.

Lemma cursor_round_trip_witness :
  decodeCursor "posts" (encodeCursor "posts" demo_cursor) = inr (Some demo_cursor) /\
  decodeCursor "human-notifications" (encodeCursor "posts" demo_cursor) = inl ErrInvalid.
Proof.
  destruct (cursor_round_trip "posts" "human-notifications" demo_cursor) as [H1 H2].
  - repeat split; vm_compute; reflexivity.
  - discriminate.
  - right. vm_compute. split; [discriminate|reflexivity].
  - split; [exact H1|]. apply H2. discriminate.
Defined.
End CursorDemo.
