(* ===== verification/Framing.v ===== *)
(** * Digests and framed byte strings

    SHA-256 as an argument, [hex.EncodeToString], and the length-prefixed
    framing that the program hashes: [binary.BigEndian.PutUint32] and
    [PutUint64] before each field.  A digest identifies what was hashed only
    if the framing can be undone, which this file proves of any sequence of
    framed fields. *)

From Stdlib Require Import ZArith Lia Ascii.
From stdpp Require Import base list strings.
From S2P Require Import Prelude GoText.

Local Open Scope Z_scope.

(** [sha256.Sum256], as the string of its bytes *)
Class Sha256 := sha256_Sum256 : string -> string.

Definition hex_digit (n : N) : ascii := ascii_of_N (if (n <? 10)%N then 48 + n else 87 + n).

(** [hex.EncodeToString] *)
Fixpoint hex_EncodeToString (s : string) : string :=
  match s with
  | EmptyString => EmptyString
  | String a s' => String (hex_digit (N_of_ascii a / 16)) (String (hex_digit (N_of_ascii a mod 16)) (hex_EncodeToString s'))
  end.

(** ** Fixed-width numbers *)

(** [binary.BigEndian.PutUint32] and [PutUint64]: the low [k] bytes of [n],
    the most significant first. *)
Fixpoint PutUint (k : nat) (n : Z) : string :=
  match k with
  | O => ""
  | S k' => String (ascii_of_N (Z.to_N (n / 256 ^ Z.of_nat k' mod 256))) (PutUint k' n)
  end.

(** A byte string behind its length, as [writeString] of [human_auth.go] and
    [writeFramed] of [receipt.go] write it. *)
Definition framed (value : string) : string := PutUint 8 (len value) +:+ value.

Definition fits (value : string) : Prop := len value < 2 ^ 64.

Lemma ascii_of_byte_inj a b : 0 <= a < 256 -> 0 <= b < 256 -> ascii_of_N (Z.to_N a) = ascii_of_N (Z.to_N b) -> a = b.
Proof.
  intros Ha Hb H. apply (f_equal N_of_ascii) in H. rewrite !N_ascii_embedding in H by lia. lia.
Qed.

Lemma PutUint_length k n : String.length (PutUint k n) = k.
Proof. induction k; simpl; congruence. Qed.

(** Equal encodings agree modulo the width. *)
Lemma PutUint_mod k n m : PutUint k n = PutUint k m -> n mod 256 ^ Z.of_nat k = m mod 256 ^ Z.of_nat k.
Proof.
  induction k as [|k IH]; intros H; [by rewrite !Z.mod_1_r|]. injection H as Hb Ht. specialize (IH Ht).
  assert (0 < 256 ^ Z.of_nat k) as Hp by (apply Z.pow_pos_nonneg; lia).
  apply ascii_of_byte_inj in Hb; [|apply Z.mod_pos_bound; lia..].
  rewrite Nat2Z.inj_succ, Z.pow_succ_r by lia. rewrite (Z.mul_comm 256), !Z.rem_mul_r by lia. congruence.
Qed.

Lemma PutUint_inj k n m : 0 <= n < 256 ^ Z.of_nat k -> 0 <= m < 256 ^ Z.of_nat k -> PutUint k n = PutUint k m -> n = m.
Proof. intros Hn Hm H%PutUint_mod. by rewrite !Z.mod_small in H. Qed.

(** ** Framing *)

Lemma app_inj_length a b x y : String.length a = String.length b -> a +:+ x = b +:+ y -> a = b /\ x = y.
Proof.
  revert b. induction a as [|c a IH]; intros [|c' b] Hl; try discriminate Hl; intros H; [done|].
  injection Hl as Hl. injection H as -> H. destruct (IH _ Hl H) as [-> ->]. done.
Qed.

Lemma len_range s : 0 <= len s.
Proof. unfold len. lia. Qed.

Lemma PutUint_app_inj k n m x y :
  0 <= n < 256 ^ Z.of_nat k -> 0 <= m < 256 ^ Z.of_nat k -> PutUint k n +:+ x = PutUint k m +:+ y -> n = m /\ x = y.
Proof.
  intros Hn Hm H. destruct (app_inj_length _ _ _ _ ltac:(by rewrite !PutUint_length) H) as [He ->].
  split; [|done]. by apply PutUint_inj in He.
Qed.

(** A framed field can be told from what follows it. *)
Lemma framed_app_inj a b x y : fits a -> fits b -> framed a +:+ x = framed b +:+ y -> a = b /\ x = y.
Proof.
  unfold framed, fits. intros Ha Hb. pose proof (len_range a). pose proof (len_range b).
  rewrite !string_app_assoc. intros [Hlen He]%PutUint_app_inj; [|change (256 ^ Z.of_nat 8) with (2 ^ 64); lia..].
  apply app_inj_length; [|done]. unfold len in Hlen. lia.
Qed.

(** So can a sequence of them. *)
Lemma framed_fields_inj vs vs' :
  length vs = length vs' -> Forall fits vs -> Forall fits vs' ->
  String.concat "" (framed <$> vs) = String.concat "" (framed <$> vs') -> vs = vs'.
Proof.
  intros Hl Hv. revert vs' Hl. induction Hv as [|v vs Hfit _ IH]; intros [|v' vs'] Hl Hv' H; try discriminate Hl; [done|].
  inversion_clear Hv'. injection Hl as Hl.
  assert (forall v vs, String.concat "" (framed v :: vs) = framed v +:+ String.concat "" vs) as Hcons.
  { intros w [|u us]; [|done]. symmetry. apply string_app_nil. }
  cbn [fmap list_fmap] in H. rewrite !Hcons in H. apply framed_app_inj in H as [-> H]; [|done..].
  f_equal. by apply IH.
Qed.

(** ** For concrete runs *)
Module Sample.
(** A checksum of twelve bytes that separates the texts of a run. *)
Fixpoint little_endian (n : nat) (x : N) : string :=
  match n with O => "" | S n' => String (ascii_of_N (x mod 256)) (little_endian n' (x / 256)) end.
Definition checksum (s : string) : string :=
  little_endian 12 (fold_left (fun x a => (x * 257 + N_of_ascii a) mod (2 ^ 96 - 17))%N (String.list_ascii_of_string s) 1%N).
End Sample.
