(* ===== verification/Graph.v ===== *)
(** * Reachability in a finite edge set

    The recursive common table expression of [validateTaskRelations]
    computes the vertices reachable from a task by one or more dependency
    edges.  Here it is a fixed-point iteration, proved equal to the
    transitive closure, and the basis of the acyclicity argument. *)

From stdpp Require Import base gmap strings list sets relations.

Section Graph.
Context `{Countable V}.
Implicit Types (E : gset (V * V)) (S : gset V).

Definition edge E : relation V := fun a b => (a, b) ∈ E.

Definition successors E S : gset V := set_map snd (filter (fun e => e.1 ∈ S) E).

(** One round of UNION: the vertices one edge further. *)
Definition grow E S : gset V := S ∪ successors E S.

Fixpoint grow_n E (n : nat) S : gset V :=
  match n with
  | O => S
  | Datatypes.S n' => grow_n E n' (grow E S)
  end.

Definition targets E : gset V := set_map snd E.

(** Every round but the last adds the target of an edge, so the number of
    targets bounds the number of rounds. *)
Definition closure E (a : V) : gset V := grow_n E (size (targets E)) (successors E {[a]}).

Definition in_closure E (a b : V) : bool := bool_decide (b ∈ closure E a).

Definition acyclic E : Prop := forall a, ~ tc (edge E) a a.

Lemma elem_of_successors E S b : b ∈ successors E S <-> exists a, a ∈ S /\ (a, b) ∈ E.
Proof.
  unfold successors. rewrite elem_of_map. setoid_rewrite elem_of_filter. split.
  - intros ([a b'] & -> & ? & ?). eauto.
  - intros (a & ? & ?). by exists (a, b).
Qed.

Lemma elem_of_targets E b : b ∈ targets E <-> exists a, (a, b) ∈ E.
Proof.
  unfold targets. rewrite elem_of_map. split.
  - intros ([a b'] & -> & ?). eauto.
  - intros (a & ?). by exists (a, b).
Qed.

Lemma grow_n_fix E n S : grow E S = S -> grow_n E n S = S.
Proof. intros Hfix. induction n; simpl; [done|]. by rewrite Hfix. Qed.

Lemma grow_targets E S : S ⊆ targets E -> grow E S ⊆ targets E.
Proof.
  intros HS x. unfold grow. rewrite elem_of_union, elem_of_successors, elem_of_targets.
  intros [Hx|(a & _ & ?)]; [|eauto]. apply HS in Hx. by apply elem_of_targets.
Qed.

(** Enough rounds reach a fixed point. *)
Lemma grow_n_enough E n S :
  S ⊆ targets E -> size (targets E) <= n + size S -> grow E (grow_n E n S) = grow_n E n S.
Proof.
  revert S. induction n as [|n IH]; intros S HS Hn; simpl.
  - apply (anti_symm (⊆)); [|unfold grow; set_solver].
    etrans; [by apply grow_targets|].
    assert (S ≡ targets E) as Heq by (apply set_subseteq_size_equiv; [done|lia]). set_solver.
  - destruct (decide (grow E S = S)) as [Heq|Hne].
    { by rewrite Heq, (grow_n_fix _ _ _ Heq). }
    apply IH; [by apply grow_targets|].
    assert (S ⊂ grow E S) as Hlt.
    { split; [unfold grow; set_solver|]. intros Hsub. apply Hne.
      apply (anti_symm (⊆)); [done|unfold grow; set_solver]. }
    apply subset_size in Hlt. lia.
Qed.

Lemma grow_n_mono E n S : S ⊆ grow_n E n S.
Proof.
  revert S. induction n as [|n IH]; intros S; simpl; [done|].
  etrans; [|apply IH]. unfold grow. set_solver.
Qed.

Lemma grow_n_sound E n S b :
  b ∈ grow_n E n S -> exists a, a ∈ S /\ rtc (edge E) a b.
Proof.
  revert S. induction n as [|n IH]; intros S; simpl.
  - intros Hb. by exists b.
  - intros (a & Ha & Hab)%IH. unfold grow in Ha.
    rewrite elem_of_union, elem_of_successors in Ha.
    destruct Ha as [Ha|(c & Hc & Hca)]; [by exists a|].
    exists c. split; [done|]. by eapply rtc_l.
Qed.

(** The iteration computes the transitive closure. *)
Lemma closure_tc E a b : b ∈ closure E a <-> tc (edge E) a b.
Proof.
  split.
  - intros (c & Hc & Hcb)%grow_n_sound. rewrite elem_of_successors in Hc.
    destruct Hc as (? & ->%elem_of_singleton & Hac). by eapply tc_rtc_r; [apply tc_once|].
  - intros Hab. unfold closure. set (T := grow_n _ _ _).
    assert (grow E T = T) as Hfix.
    { apply grow_n_enough; [|lia]. intros x.
      rewrite elem_of_successors, elem_of_targets. naive_solver. }
    assert (forall x y, (x = a \/ x ∈ T) -> (x, y) ∈ E -> y ∈ T) as Hstep.
    { intros x y [->|Hx] Hxy.
      - apply grow_n_mono. rewrite elem_of_successors. exists a. set_solver.
      - rewrite <- Hfix. unfold grow. rewrite elem_of_union, elem_of_successors. eauto. }
    assert (forall x, x = a \/ x ∈ T -> tc (edge E) x b -> b ∈ T) as Hgo; [|by eauto].
    intros x Hx Hxb. induction Hxb as [x y Hxy|x y z Hxy _ IH]; eauto.
Qed.

Lemma in_closure_tc E a b : in_closure E a b = true <-> tc (edge E) a b.
Proof. unfold in_closure. by rewrite bool_decide_eq_true, closure_tc. Qed.

Lemma tc_last_edge E a b : tc (edge E) a b -> exists c, (c, b) ∈ E.
Proof. induction 1 as [a b Hab|a b c _ _ IH]; [by exists a|done]. Qed.

Lemma tc_edge_mono E E' a b : E ⊆ E' -> tc (edge E) a b -> tc (edge E') a b.
Proof. intros HE. induction 1; [by constructor; apply HE|]. econstructor 2; [by apply HE|done]. Qed.

Lemma acyclic_mono E E' : E ⊆ E' -> acyclic E' -> acyclic E.
Proof. intros HE Hac a Ha. by eapply Hac, tc_edge_mono. Qed.

(** Adding edges out of [v], none of whose heads reaches [v], creates no
    cycle: a cycle would have to leave [v] by a new edge and come back to
    [v] by old ones. *)
Lemma tc_added E E' v a b :
  (forall x y, (x, y) ∈ E' -> (x, y) ∈ E \/ x = v) ->
  tc (edge E') a b ->
  tc (edge E) a b \/
    (exists y, (v, y) ∈ E' /\ rtc (edge E') y b /\ (a = v \/ tc (edge E) a v)).
Proof.
  intros HE. induction 1 as [a b Hab|a b c Hab Hbc IH].
  - destruct (HE _ _ Hab) as [?| ->]; [left; by constructor|].
    right. exists b. split_and!; [done|reflexivity|by left].
  - destruct (HE _ _ Hab) as [Hab'| ->].
    + destruct IH as [?|(y & ? & ? & Hbv)]; [left; by econstructor 2|].
      right. exists y. split_and!; [done..|]. right.
      destruct Hbv as [->|?]; [by constructor|by econstructor 2].
    + right. exists b. split_and!; [done|by apply tc_rtc|by left].
Qed.

Lemma rtc_last_exit E E' v y b :
  (forall x z, (x, z) ∈ E' -> (x, z) ∈ E \/ x = v) ->
  rtc (edge E') y b ->
  rtc (edge E) y b \/ exists z, (v, z) ∈ E' /\ rtc (edge E) z b.
Proof.
  intros HE. induction 1 as [b|y z b Hyz Hzb IH]; [by left|].
  destruct IH as [Hzb'|?]; [|by right].
  destruct (HE _ _ Hyz) as [?| ->]; [left; by eapply rtc_l|]. right. eauto.
Qed.

Lemma acyclic_add_out E E' v :
  (forall x z, (x, z) ∈ E' -> (x, z) ∈ E \/ x = v) ->
  (forall z, (v, z) ∈ E' -> z <> v /\ ~ tc (edge E) z v) ->
  acyclic E -> acyclic E'.
Proof.
  intros HE Hv Hac a Ha.
  assert (tc (edge E') v v) as Hvv.
  { destruct (tc_added _ _ _ _ _ HE Ha) as [?|(y & Hy & Hya & Hav)]; [by destruct (Hac a)|].
    destruct Hav as [->|Hav]; [done|].
    destruct (rtc_last_exit _ _ _ _ _ HE Hya) as [Hya'|(z & Hz & Hza)].
    - destruct (Hv _ Hy) as [_ []]. by eapply tc_rtc_l.
    - destruct (Hv _ Hz) as [_ []]. by eapply tc_rtc_l. }
  destruct (tc_added _ _ _ _ _ HE Hvv) as [?|(y & Hy & Hyv & _)]; [by destruct (Hac v)|].
  assert (forall z, (v, z) ∈ E' -> ~ rtc (edge E) z v) as Hno.
  { intros z Hz Hzv. destruct (Hv _ Hz) as [Hne Hntc].
    apply rtc_tc in Hzv as [?|?]; [done|by apply Hntc]. }
  destruct (rtc_last_exit _ _ _ _ _ HE Hyv) as [?|(z & Hz & ?)]; [by eapply Hno|by eapply (Hno z)].
Qed.
End Graph.
