(* ===== verification/CoreDB.v ===== *)
(** * The Project Core tables

    The SQLite tables that [migrations/001_core.sql] and
    [migrations/005_project_core.sql] create for projects, milestones, tasks,
    claims, wiki pages and their histories, and the SQL statements the store
    runs on them.  A table is a finite map from its primary key to its row; a
    statement is a function on the whole database that fails with
    [SqlConstraint] exactly when a PRIMARY KEY, UNIQUE, CHECK or FOREIGN KEY
    clause is violated.  Timestamp columns hold instants (nanoseconds since
    the Unix epoch). *)

From S2P Require Import Prelude GoText.
From stdpp Require Import base gmap strings list sets.
From Stdlib Require Import ZArith Lia.

Local Open Scope Z_scope.

Definition maxInt64 : Z := 9223372036854775807.

(** ** Rows *)

Record project_row := {
  p_name : string; p_status : string; p_purpose : string; p_milestone : string;
  p_now : string; p_revision : Z; p_created : Z; p_updated : Z }.

Record topic_row := { tp_project : option string; tp_name : string; tp_created : Z }.

Record milestone_row := {
  ms_project : string; ms_title : string; ms_status : string; ms_position : Z;
  ms_target : option string; ms_revision : Z; ms_created : Z; ms_updated : Z }.

Record task_row := {
  t_project : string; t_state : string; t_title : string; t_priority : Z;
  t_owner : option string; t_accept : string; t_description : string;
  t_milestone : option string; t_revision : Z; t_created : Z; t_updated : Z }.

Record claim_row := {
  c_task : string; c_session : string; c_request : string; c_claimed : Z;
  c_lease : option Z; c_revision : Z }.

Record current_claim_row := { cc_claim : string; cc_lease : option Z; cc_updated : Z }.

Record task_event_row := {
  ev_task : string; ev_project : string; ev_revision : Z; ev_kind : string;
  ev_summary : string; ev_from : option string; ev_to : option string;
  ev_actor : string; ev_session : string; ev_created : Z }.

Record request_row := {
  rq_operation : string; rq_payload_hash : string; rq_result_id : string;
  rq_result_revision : Z; rq_project_revision : Z; rq_created : Z }.

Record wiki_page_row := {
  wp_project : string; wp_slug : string; wp_title : string; wp_current : Z }.

Record wiki_revision_row := {
  wr_summary : string; wr_body : string; wr_author : string; wr_created : Z }.

Record search_row := {
  sd_project : option string; sd_kind : string; sd_revision : Z; sd_title : string; sd_body : string }.

Record change_row := { ch_kind : string; ch_ref : string; ch_summary : string; ch_created : Z }.

Record activity_row := {
  ac_kind : string; ac_project : string; ac_actor : string; ac_ref : string;
  ac_title : string; ac_outcome : string; ac_untrusted : bool; ac_occurred : Z; ac_recorded : Z }.

Record decision_row := {
  dc_project : string; dc_revision : Z; dc_title : string; dc_rationale : string; dc_created : Z }.

Record status_row := {
  st_project : string; st_revision : Z; st_ref : string; st_state : string;
  st_detail : string; st_session : string; st_request : option string; st_created : Z }.

Record redaction_row := {
  rd_project : string; rd_ref : string; rd_reason : string; rd_replacement : string;
  rd_actor : string; rd_created : Z }.

Record DB := mkDB {
  projects : gmap string project_row;
  topics : gmap string topic_row;
  milestones : gmap string milestone_row;
  tasks : gmap string task_row;
  task_dependencies : gset (string * string);
  task_claims : gmap string claim_row;
  task_current_claims : gmap string current_claim_row;
  task_events : gmap string task_event_row;
  project_core_requests : gmap string request_row;
  wiki_pages : gmap string wiki_page_row;
  wiki_revisions : gmap (string * Z) wiki_revision_row;
  search_documents : gmap string search_row;
  changes : gmap (string * Z) change_row;
  activity_events : gmap string activity_row;
  decisions : gmap string decision_row;
  status_events : gmap string status_row;
  redactions : gmap string redaction_row;
}.

Definition set_projects (x : gmap string project_row) (d : DB) : DB :=
  mkDB x (topics d) (milestones d) (tasks d) (task_dependencies d) (task_claims d) (task_current_claims d) (task_events d) (project_core_requests d) (wiki_pages d) (wiki_revisions d) (search_documents d) (changes d) (activity_events d) (decisions d) (status_events d) (redactions d).
Definition set_topics (x : gmap string topic_row) (d : DB) : DB :=
  mkDB (projects d) x (milestones d) (tasks d) (task_dependencies d) (task_claims d) (task_current_claims d) (task_events d) (project_core_requests d) (wiki_pages d) (wiki_revisions d) (search_documents d) (changes d) (activity_events d) (decisions d) (status_events d) (redactions d).
Definition set_milestones (x : gmap string milestone_row) (d : DB) : DB :=
  mkDB (projects d) (topics d) x (tasks d) (task_dependencies d) (task_claims d) (task_current_claims d) (task_events d) (project_core_requests d) (wiki_pages d) (wiki_revisions d) (search_documents d) (changes d) (activity_events d) (decisions d) (status_events d) (redactions d).
Definition set_tasks (x : gmap string task_row) (d : DB) : DB :=
  mkDB (projects d) (topics d) (milestones d) x (task_dependencies d) (task_claims d) (task_current_claims d) (task_events d) (project_core_requests d) (wiki_pages d) (wiki_revisions d) (search_documents d) (changes d) (activity_events d) (decisions d) (status_events d) (redactions d).
Definition set_task_dependencies (x : gset (string * string)) (d : DB) : DB :=
  mkDB (projects d) (topics d) (milestones d) (tasks d) x (task_claims d) (task_current_claims d) (task_events d) (project_core_requests d) (wiki_pages d) (wiki_revisions d) (search_documents d) (changes d) (activity_events d) (decisions d) (status_events d) (redactions d).
Definition set_task_claims (x : gmap string claim_row) (d : DB) : DB :=
  mkDB (projects d) (topics d) (milestones d) (tasks d) (task_dependencies d) x (task_current_claims d) (task_events d) (project_core_requests d) (wiki_pages d) (wiki_revisions d) (search_documents d) (changes d) (activity_events d) (decisions d) (status_events d) (redactions d).
Definition set_task_current_claims (x : gmap string current_claim_row) (d : DB) : DB :=
  mkDB (projects d) (topics d) (milestones d) (tasks d) (task_dependencies d) (task_claims d) x (task_events d) (project_core_requests d) (wiki_pages d) (wiki_revisions d) (search_documents d) (changes d) (activity_events d) (decisions d) (status_events d) (redactions d).
Definition set_task_events (x : gmap string task_event_row) (d : DB) : DB :=
  mkDB (projects d) (topics d) (milestones d) (tasks d) (task_dependencies d) (task_claims d) (task_current_claims d) x (project_core_requests d) (wiki_pages d) (wiki_revisions d) (search_documents d) (changes d) (activity_events d) (decisions d) (status_events d) (redactions d).
Definition set_project_core_requests (x : gmap string request_row) (d : DB) : DB :=
  mkDB (projects d) (topics d) (milestones d) (tasks d) (task_dependencies d) (task_claims d) (task_current_claims d) (task_events d) x (wiki_pages d) (wiki_revisions d) (search_documents d) (changes d) (activity_events d) (decisions d) (status_events d) (redactions d).
Definition set_wiki_pages (x : gmap string wiki_page_row) (d : DB) : DB :=
  mkDB (projects d) (topics d) (milestones d) (tasks d) (task_dependencies d) (task_claims d) (task_current_claims d) (task_events d) (project_core_requests d) x (wiki_revisions d) (search_documents d) (changes d) (activity_events d) (decisions d) (status_events d) (redactions d).
Definition set_wiki_revisions (x : gmap (string * Z) wiki_revision_row) (d : DB) : DB :=
  mkDB (projects d) (topics d) (milestones d) (tasks d) (task_dependencies d) (task_claims d) (task_current_claims d) (task_events d) (project_core_requests d) (wiki_pages d) x (search_documents d) (changes d) (activity_events d) (decisions d) (status_events d) (redactions d).
Definition set_search_documents (x : gmap string search_row) (d : DB) : DB :=
  mkDB (projects d) (topics d) (milestones d) (tasks d) (task_dependencies d) (task_claims d) (task_current_claims d) (task_events d) (project_core_requests d) (wiki_pages d) (wiki_revisions d) x (changes d) (activity_events d) (decisions d) (status_events d) (redactions d).
Definition set_changes (x : gmap (string * Z) change_row) (d : DB) : DB :=
  mkDB (projects d) (topics d) (milestones d) (tasks d) (task_dependencies d) (task_claims d) (task_current_claims d) (task_events d) (project_core_requests d) (wiki_pages d) (wiki_revisions d) (search_documents d) x (activity_events d) (decisions d) (status_events d) (redactions d).
Definition set_activity_events (x : gmap string activity_row) (d : DB) : DB :=
  mkDB (projects d) (topics d) (milestones d) (tasks d) (task_dependencies d) (task_claims d) (task_current_claims d) (task_events d) (project_core_requests d) (wiki_pages d) (wiki_revisions d) (search_documents d) (changes d) x (decisions d) (status_events d) (redactions d).
Definition set_decisions (x : gmap string decision_row) (d : DB) : DB :=
  mkDB (projects d) (topics d) (milestones d) (tasks d) (task_dependencies d) (task_claims d) (task_current_claims d) (task_events d) (project_core_requests d) (wiki_pages d) (wiki_revisions d) (search_documents d) (changes d) (activity_events d) x (status_events d) (redactions d).
Definition set_status_events (x : gmap string status_row) (d : DB) : DB :=
  mkDB (projects d) (topics d) (milestones d) (tasks d) (task_dependencies d) (task_claims d) (task_current_claims d) (task_events d) (project_core_requests d) (wiki_pages d) (wiki_revisions d) (search_documents d) (changes d) (activity_events d) (decisions d) x (redactions d).
Definition set_redactions (x : gmap string redaction_row) (d : DB) : DB :=
  mkDB (projects d) (topics d) (milestones d) (tasks d) (task_dependencies d) (task_claims d) (task_current_claims d) (task_events d) (project_core_requests d) (wiki_pages d) (wiki_revisions d) (search_documents d) (changes d) (activity_events d) (decisions d) (status_events d) x.

(** ** Constraints *)

Definition constraint (ok : bool) (d : DB) : SqlErr + unit * DB :=
  if ok then inr (tt, d) else inl SqlConstraint.

Definition absent {A} `{Countable K} (m : gmap K A) (k : K) : bool := bool_decide (m !! k = None).
Lemma absent_inv {A} `{Countable K} (m : gmap K A) k : absent m k = true -> m !! k = None.
Proof. apply bool_decide_eq_true. Qed.
Definition present {A} `{Countable K} (m : gmap K A) (k : K) : bool := bool_decide (is_Some (m !! k)).
Definition present_opt {A} `{Countable K} (m : gmap K A) (k : option K) : bool :=
  match k with None => true | Some k => present m k end.

(** [NULLIF(?,'')] *)
Definition nullif_empty (s : string) : option string := if seqb s "" then None else Some s.

Definition task_states : list string := ["ready"; "in_progress"; "blocked"; "done"; "cancelled"].
Definition task_event_kinds : list string :=
  ["imported"; "created"; "updated"; "state_changed"; "claimed"; "reclaimed"].
Definition milestone_statuses : list string := ["planned"; "active"; "completed"; "cancelled"].
Definition activity_kinds : list string :=
  ["project_updated"; "task_claimed"; "task_status_changed"; "decision_recorded"; "wiki_revised";
   "post_published"; "comment_added"; "github_issue_changed"; "github_pull_request_changed";
   "github_check_changed"; "github_commit_referenced"; "host_connected"; "host_disconnected";
   "wiki_proposal_created"; "wiki_proposal_reviewed"].
Definition isin (s : string) (l : list string) : bool := bool_decide (s ∈ l).

(** [milestones_one_active_per_project]: the partial unique index *)
Definition active_slot_free (d : DB) (id project : string) : bool :=
  bool_decide (map_Forall (fun i r => ms_project r = project -> ms_status r = "active"%string -> i = id)
                 (milestones d)).

(** [UNIQUE(project_id, slug)] on [wiki_pages] *)
Definition slug_free (d : DB) (id project slug : string) : bool :=
  bool_decide (map_Forall (fun i r => wp_project r = project -> wp_slug r = slug -> i = id)
                 (wiki_pages d)).

(** [request_id TEXT NOT NULL UNIQUE] on [task_claims] *)
Definition claim_request_free (d : DB) (request : string) : bool :=
  bool_decide (map_Forall (fun _ r => c_request r <> request) (task_claims d)).

(** [claim_id TEXT NOT NULL UNIQUE] on [task_current_claims] *)
Definition claim_not_current (d : DB) (task claim : string) : bool :=
  bool_decide (map_Forall (fun t r => cc_claim r = claim -> t = task) (task_current_claims d)).

Definition status_request_free (d : DB) (request : option string) : bool :=
  bool_decide (map_Forall (fun _ r => st_request r = request -> request = None) (status_events d)).

(** ** Statements *)

Definition insert_project (id : string) (r : project_row) : Stmt DB unit := fun d =>
  constraint (absent (projects d) id && (0 <=? p_revision r)) (set_projects (<[id:=r]> (projects d)) d).

Definition insert_topic (id : string) (r : topic_row) : Stmt DB unit := fun d =>
  constraint (absent (topics d) id && present_opt (projects d) (tp_project r))
    (set_topics (<[id:=r]> (topics d)) d).

Definition insert_milestone (id : string) (r : milestone_row) : Stmt DB unit := fun d =>
  constraint
    (absent (milestones d) id && present (projects d) (ms_project r)
     && isin (ms_status r) milestone_statuses && (0 <=? ms_position r) && (0 <=? ms_revision r)
     && (negb (seqb (ms_status r) "active") || active_slot_free d id (ms_project r)))
    (set_milestones (<[id:=r]> (milestones d)) d).

Definition insert_task (id : string) (r : task_row) : Stmt DB unit := fun d =>
  constraint
    (absent (tasks d) id && present (projects d) (t_project r) && isin (t_state r) task_states
     && present_opt (milestones d) (t_milestone r) && (0 <=? t_revision r))
    (set_tasks (<[id:=r]> (tasks d)) d).

Definition insert_task_dependency (task dep : string) : Stmt DB unit := fun d =>
  constraint
    (bool_decide ((task, dep) ∉ task_dependencies d) && negb (seqb task dep)
     && present (tasks d) task && present (tasks d) dep)
    (set_task_dependencies ({[ (task, dep) ]} ∪ task_dependencies d) d).

Definition delete_task_dependencies (task : string) : Stmt DB unit := fun d =>
  inr (tt, set_task_dependencies (filter (fun e => e.1 <> task) (task_dependencies d)) d).

Definition insert_task_claim (id : string) (r : claim_row) : Stmt DB unit := fun d =>
  constraint (absent (task_claims d) id && present (tasks d) (c_task r) && claim_request_free d (c_request r))
    (set_task_claims (<[id:=r]> (task_claims d)) d).

Definition insert_current_claim (task : string) (r : current_claim_row) : Stmt DB unit := fun d =>
  constraint
    (absent (task_current_claims d) task && present (tasks d) task
     && present (task_claims d) (cc_claim r) && claim_not_current d task (cc_claim r))
    (set_task_current_claims (<[task:=r]> (task_current_claims d)) d).

Definition delete_current_claim (task : string) : Stmt DB unit := fun d =>
  inr (tt, set_task_current_claims (delete task (task_current_claims d)) d).

Definition insert_task_event_row (id : string) (r : task_event_row) : Stmt DB unit := fun d =>
  constraint
    (absent (task_events d) id && present (tasks d) (ev_task r) && present (projects d) (ev_project r)
     && (0 <=? ev_revision r) && isin (ev_kind r) task_event_kinds)
    (set_task_events (<[id:=r]> (task_events d)) d).

Definition insert_request (key : string) (r : request_row) : Stmt DB unit := fun d =>
  constraint
    (absent (project_core_requests d) key && (0 <=? rq_result_revision r) && (0 <=? rq_project_revision r))
    (set_project_core_requests (<[key:=r]> (project_core_requests d)) d).

Definition insert_wiki_page (id : string) (r : wiki_page_row) : Stmt DB unit := fun d =>
  constraint
    (absent (wiki_pages d) id && present (projects d) (wp_project r)
     && slug_free d id (wp_project r) (wp_slug r))
    (set_wiki_pages (<[id:=r]> (wiki_pages d)) d).

Definition insert_wiki_revision (page : string) (revision : Z) (r : wiki_revision_row) : Stmt DB unit := fun d =>
  constraint (absent (wiki_revisions d) (page, revision) && present (wiki_pages d) page)
    (set_wiki_revisions (<[(page, revision):=r]> (wiki_revisions d)) d).

Definition insert_change (project : string) (revision : Z) (r : change_row) : Stmt DB unit := fun d =>
  constraint (absent (changes d) (project, revision) && present (projects d) project)
    (set_changes (<[(project, revision):=r]> (changes d)) d).

Definition insert_activity (id : string) (r : activity_row) : Stmt DB unit := fun d =>
  constraint (absent (activity_events d) id && present (projects d) (ac_project r) && isin (ac_kind r) activity_kinds)
    (set_activity_events (<[id:=r]> (activity_events d)) d).

(** [INSERT INTO search_documents ... ON CONFLICT(ref) DO UPDATE SET
    revision=excluded.revision,title=excluded.title,body=excluded.body] *)
Definition upsert_search (ref : string) (r : search_row) : Stmt DB unit := fun d =>
  match search_documents d !! ref with
  | Some old =>
      inr (tt, set_search_documents
        (<[ref:={| sd_project := sd_project old; sd_kind := sd_kind old; sd_revision := sd_revision r;
                   sd_title := sd_title r; sd_body := sd_body r |}]> (search_documents d)) d)
  | None =>
      constraint (present_opt (projects d) (sd_project r))
        (set_search_documents (<[ref:=r]> (search_documents d)) d)
  end.

Definition insert_search (ref : string) (r : search_row) : Stmt DB unit := fun d =>
  constraint (absent (search_documents d) ref && present_opt (projects d) (sd_project r))
    (set_search_documents (<[ref:=r]> (search_documents d)) d).

Definition insert_decision (id : string) (r : decision_row) : Stmt DB unit := fun d =>
  constraint (absent (decisions d) id && present (projects d) (dc_project r))
    (set_decisions (<[id:=r]> (decisions d)) d).

Definition insert_status (id : string) (r : status_row) : Stmt DB unit := fun d =>
  constraint (absent (status_events d) id && present (projects d) (st_project r) && status_request_free d (st_request r))
    (set_status_events (<[id:=r]> (status_events d)) d).

Definition insert_redaction (id : string) (r : redaction_row) : Stmt DB unit := fun d =>
  constraint (absent (redactions d) id && present (projects d) (rd_project r))
    (set_redactions (<[id:=r]> (redactions d)) d).

(** A row by its primary key, [sql.ErrNoRows] when there is none. *)
Definition select {A} `{Countable K} (tbl : DB -> gmap K A) (k : K) : DB -> SqlErr + A := fun d =>
  match tbl d !! k with Some r => inr r | None => inl SqlNoRows end.

(** [UPDATE projects SET revision=revision+1,updated_at=? WHERE id=? RETURNING revision].
    A revision past the 64-bit range is a REAL, which the STRICT table refuses. *)
Definition bumped (r : project_row) (now : Z) : project_row :=
  {| p_name := p_name r; p_status := p_status r; p_purpose := p_purpose r; p_milestone := p_milestone r;
     p_now := p_now r; p_revision := p_revision r + 1; p_created := p_created r; p_updated := now |}.

Definition bump_project (id : string) (now : Z) : Stmt DB Z := fun d =>
  match projects d !! id with
  | None => inl SqlNoRows
  | Some r =>
      if p_revision r + 1 <=? maxInt64
      then inr (p_revision r + 1, set_projects (<[id:=bumped r now]> (projects d)) d)
      else inl SqlConstraint
  end.

(** [UPDATE ... WHERE id=?] with the number of rows it changed. *)
Definition update_row {A} (tbl : DB -> gmap string A) (set : gmap string A -> DB -> DB)
    (ok : DB -> A -> bool) (id : string) (f : A -> A) : Stmt DB Z := fun d =>
  match tbl d !! id with
  | None => inr (0, d)
  | Some r => if ok d (f r) then inr (1, set (<[id:=f r]> (tbl d)) d) else inl SqlConstraint
  end.

Definition update_project : string -> (project_row -> project_row) -> Stmt DB Z :=
  update_row projects set_projects (fun _ r => 0 <=? p_revision r).

Definition update_milestone (id : string) : (milestone_row -> milestone_row) -> Stmt DB Z :=
  update_row milestones set_milestones
    (fun d r => isin (ms_status r) milestone_statuses && (0 <=? ms_position r) && (0 <=? ms_revision r)
       && (negb (seqb (ms_status r) "active") || active_slot_free d id (ms_project r))) id.

Definition update_task : string -> (task_row -> task_row) -> Stmt DB Z :=
  update_row tasks set_tasks
    (fun d r => isin (t_state r) task_states && present_opt (milestones d) (t_milestone r) && (0 <=? t_revision r)).

Definition update_wiki_page : string -> (wiki_page_row -> wiki_page_row) -> Stmt DB Z :=
  update_row wiki_pages set_wiki_pages (fun _ _ => true).

(** [UPDATE topics SET name=? WHERE id=? AND project_id=?] *)
Definition rename_project_topic (id name : string) : Stmt DB unit := fun d =>
  match topics d !! id with
  | Some r =>
      if bool_decide (tp_project r = Some id)
      then inr (tt, set_topics (<[id:={| tp_project := tp_project r; tp_name := name; tp_created := tp_created r |}]> (topics d)) d)
      else inr (tt, d)
  | None => inr (tt, d)
  end.

(** [UPDATE task_current_claims SET claim_id=?,lease_until=?,updated_at=?
    WHERE task_id=? AND claim_id=? AND lease_until=?] *)
Definition swap_current_claim (task : string) (r : current_claim_row) (oldClaim : string) (oldLease : Z) : Stmt DB Z :=
  fun d =>
    match task_current_claims d !! task with
    | Some old =>
        if bool_decide (cc_claim old = oldClaim /\ cc_lease old = Some oldLease) then
          if present (task_claims d) (cc_claim r) && claim_not_current d task (cc_claim r)
          then inr (1, set_task_current_claims (<[task:=r]> (task_current_claims d)) d)
          else inl SqlConstraint
        else inr (0, d)
    | None => inr (0, d)
    end.

(** [SELECT ... FROM wiki_pages WHERE project_id=? AND slug=?] *)
Definition wiki_page_by_slug (project slug : string) : DB -> SqlErr + (string * wiki_page_row) := fun d =>
  match filter (fun e => wp_project e.2 = project /\ wp_slug e.2 = slug) (map_to_list (wiki_pages d)) with
  | e :: _ => inr e
  | [] => inl SqlNoRows
  end.

(** [SELECT ... FROM task_claims WHERE request_id=?] *)
Definition claim_row_by_request (key : string) : DB -> SqlErr + (string * claim_row) := fun d =>
  match filter (fun e => c_request e.2 = key) (map_to_list (task_claims d)) with
  | e :: _ => inr e
  | [] => inl SqlNoRows
  end.

(** [SELECT ... FROM status_events WHERE request_id=?] *)
Definition status_row_by_request (key : string) : DB -> SqlErr + (string * status_row) := fun d =>
  match filter (fun e => st_request e.2 = Some key) (map_to_list (status_events d)) with
  | e :: _ => inr e
  | [] => inl SqlNoRows
  end.

(** ** The empty database, as the migrations leave it *)
Definition db_empty : DB :=
  mkDB ∅ {["general" := {| tp_project := None; tp_name := "General"; tp_created := 0 |}]}
    ∅ ∅ ∅ ∅ ∅ ∅ ∅ ∅ ∅ ∅ ∅ ∅ ∅ ∅ ∅.
