(* ===== verification/ProjectCore.v ===== *)
(** * The Project Core write operations

    [internal/store/project_core_write.go] and
    [internal/store/project_core_helpers.go]: optimistic revisions, an
    append-only change log, and actor-scoped idempotency.  Every operation
    validates its command, looks for a recorded result of the same request,
    and otherwise runs one transaction that ends by recording its result. *)

From S2P Require Import Prelude GoText CoreDB Graph.
From stdpp Require Import base gmap strings list sets.
From Stdlib Require Import ZArith Lia.

Local Open Scope Z_scope.
Local Open Scope prog_scope.

(** ** Commands, [internal/domain/project_core.go] *)

Record CoreWriteMeta := { ActorID : string; SessionID : string; RequestID : string }.

Record CreateProjectCommand := {
  cp_ID : string; cp_Name : string; cp_Status : string; cp_Purpose : string; cp_Now : string;
  cp_Meta : CoreWriteMeta }.

Record UpdateProjectCommand := {
  up_ID : string; up_Name : string; up_Status : string; up_Purpose : string; up_Now : string;
  up_BaseRevision : Z; up_Meta : CoreWriteMeta }.

Record CreateMilestoneCommand := {
  cm_ProjectID : string; cm_Title : string; cm_Status : string; cm_TargetDate : string;
  cm_Position : Z; cm_Meta : CoreWriteMeta }.

Record UpdateMilestoneCommand := {
  um_ID : string; um_Title : string; um_Status : string; um_TargetDate : string;
  um_Position : Z; um_BaseRevision : Z; um_Meta : CoreWriteMeta }.

Record CreateTaskCommand := {
  ct_ProjectID : string; ct_Title : string; ct_Description : string; ct_Acceptance : string;
  ct_State : string; ct_MilestoneID : string; ct_Priority : Z; ct_DependencyIDs : list string;
  ct_Meta : CoreWriteMeta }.

Record UpdateTaskCommand := {
  ut_ID : string; ut_Title : string; ut_Description : string; ut_Acceptance : string;
  ut_MilestoneID : string; ut_Priority : Z; ut_DependencyIDs : list string;
  ut_BaseRevision : Z; ut_Meta : CoreWriteMeta }.

Record ChangeTaskStateCommand := {
  cs_ID : string; cs_State : string; cs_Basis : string; cs_BaseRevision : Z; cs_Meta : CoreWriteMeta }.

Record AppendWikiRevisionCommand := {
  aw_ProjectID : string; aw_Slug : string; aw_Title : string; aw_Summary : string; aw_Body : string;
  aw_BaseRevision : Z; aw_Meta : CoreWriteMeta }.

Record WriteResult := { ID : string; Revision : Z }.

#[export] Instance WriteResult_eq_dec : EqDecision WriteResult.
Proof. solve_decision. Defined.

(** The anonymous structs whose JSON is fingerprinted, one per operation. *)
Inductive Payload :=
  | PayloadCreateProject (ID Name Status Purpose Now : string)
  | PayloadUpdateProject (ID Name Status Purpose Now : string) (BaseRevision : Z)
  | PayloadCreateMilestone (ProjectID Title Status TargetDate : string) (Position : Z)
  | PayloadUpdateMilestone (ID Title Status TargetDate : string) (Position BaseRevision : Z)
  | PayloadCreateTask (ProjectID Title Description Acceptance State MilestoneID : string)
      (Priority : Z) (Dependencies : list string)
  | PayloadUpdateTask (ID Title Description Acceptance MilestoneID : string)
      (Priority : Z) (Dependencies : list string) (BaseRevision : Z)
  | PayloadChangeTaskState (ID State Basis : string) (BaseRevision : Z)
  | PayloadAppendWiki (ProjectID Slug Title Summary Body : string) (BaseRevision : Z).

Definition ProjectWriteStatuses : list string := ["active"; "paused"; "completed"; "archived"].
Definition MilestoneStatuses : list string := ["planned"; "active"; "completed"; "cancelled"].
Definition TaskStates : list string := ["ready"; "in_progress"; "blocked"; "done"; "cancelled"].

Definition validCoreMeta (meta : CoreWriteMeta) : bool :=
  boundedCoreText (ActorID meta) maxCoreIDBytes true
  && boundedCoreText (SessionID meta) maxCoreIDBytes true
  && boundedCoreText (RequestID meta) 200 true.

Definition coreRequestKey (meta : CoreWriteMeta) : string :=
  requestStorageKey (ActorID meta) (SessionID meta) (RequestID meta).

(** ** The request ledger *)

(** [readCoreReplay]: no row, the recorded result, or [ErrConflict] when the
    key was used for another operation or another payload. *)
Definition readCoreReplay (key operation fingerprint : string) : DB -> SqlErr + (Err + option WriteResult) :=
  fun d =>
    match project_core_requests d !! key with
    | None => inr (inr None)
    | Some r =>
        if negb (seqb (rq_operation r) operation) || negb (seqb (rq_payload_hash r) fingerprint)
        then inr (inl ErrConflict)
        else inr (inr (Some {| ID := rq_result_id r; Revision := rq_result_revision r |}))
    end.

Record coreResult := { cr_id : string; cr_revision : Z; cr_project_revision : Z; cr_now : Z }.

Definition recordCoreReplay (key operation fingerprint : string) (res : coreResult) : Stmt DB unit :=
  insert_request key
    {| rq_operation := operation; rq_payload_hash := fingerprint; rq_result_id := cr_id res;
       rq_result_revision := cr_revision res; rq_project_revision := cr_project_revision res;
       rq_created := cr_now res |}.

(** [UPDATE project_core_requests SET request_key=request_key WHERE ...] *)
Definition lockCoreWriter (key : string) : Stmt DB unit := fun d => inr (tt, d).

Definition coreWriteFailure (err : Err) (key operation fingerprint : string) : M DB Err WriteResult :=
  replay <-- attempt (autocommit (query (readCoreReplay key operation fingerprint))) ;;
  match replay with
  | inr (inr (Some r)) => ret r
  | _ => throw (mapErr err)
  end.

(** The transaction every operation runs: take the writer lock, look again
    for a recorded result, do the work, record the result. *)
Definition coreTx (key operation fingerprint : string) (body : M DB TxFail coreResult)
    : M DB TxFail (TxOut WriteResult) :=
  viaReplay (exec (lockCoreWriter key)) ;;;
  prior <-- plain (exec (query (readCoreReplay key operation fingerprint))) ;;
  match prior with
  | inl e => throw (FBody e)
  | inr (Some r) => ret (TxRollback r)
  | inr None =>
      res <-- body ;;
      viaReplay (exec (recordCoreReplay key operation fingerprint res)) ;;;
      ret (TxCommit {| ID := cr_id res; Revision := cr_revision res |})
  end.

Definition coreWrite (key operation fingerprint : string) (body : M DB TxFail coreResult)
    : M DB Err WriteResult :=
  prior <-- mapE ErrSql (autocommit (query (readCoreReplay key operation fingerprint))) ;;
  match prior with
  | inl e => throw e
  | inr (Some r) => ret r
  | inr None =>
      out <-- attempt (withTx (coreTx key operation fingerprint body)) ;;
      match out with
      | inr r => ret r
      | inl (FBegin e) | inl (FBody e) => throw e
      | inl (FReplay e) | inl (FCommit e) => coreWriteFailure e key operation fingerprint
      end
  end.

(** ** Shared statements *)

Definition bumpProjectRevision (projectID : string) (now : Z) : M DB TxFail Z :=
  mapped (exec (bump_project projectID now)).

Definition insertCoreChange (projectID : string) (revision : Z) (kind ref summary : string) (now : Z)
    : M DB TxFail unit :=
  plain (exec (insert_change projectID revision
    {| ch_kind := kind; ch_ref := ref; ch_summary := summary; ch_created := now |})).

Definition insertCoreActivity (kind projectID actorID ref title outcome : string) (now : Z)
    : M DB TxFail unit :=
  id <-- newID "A-" ;;
  plain (exec (insert_activity id
    {| ac_kind := kind; ac_project := projectID; ac_actor := actorID; ac_ref := ref; ac_title := title;
       ac_outcome := outcome; ac_untrusted := true; ac_occurred := now; ac_recorded := now |})).

Definition insertTaskEvent (taskID projectID : string) (revision : Z)
    (kind summary fromState toState : string) (meta : CoreWriteMeta) (now : Z) : M DB TxFail unit :=
  id <-- newID "TE-" ;;
  plain (exec (insert_task_event_row id
    {| ev_task := taskID; ev_project := projectID; ev_revision := revision; ev_kind := kind;
       ev_summary := summary; ev_from := nullif_empty fromState; ev_to := nullif_empty toState;
       ev_actor := ActorID meta; ev_session := SessionID meta; ev_created := now |})).

(** ** Task states *)

Definition taskTransitionAllowed (from to : string) : bool :=
  if seqb from to || negb (isin from TaskStates) || negb (isin to TaskStates) || seqb to "in_progress"
  then false
  else if seqb from "ready" then seqb to "blocked" || seqb to "done" || seqb to "cancelled"
  else if seqb from "in_progress" then seqb to "blocked" || seqb to "done" || seqb to "cancelled"
  else if seqb from "blocked" then seqb to "ready" || seqb to "cancelled"
  else false.

Definition validateTaskRelations (projectID taskID milestoneID : string) (dependencyIDs : list string)
    (checkCycle : bool) : M DB TxFail unit :=
  (if seqb milestoneID "" then ret tt
   else
     m <-- mapped (exec (query (select milestones milestoneID))) ;;
     require (seqb (ms_project m) projectID) (FBody ErrInvalid)) ;;;
  forM_ dependencyIDs (fun dependencyID =>
    require (negb (seqb dependencyID taskID)) (FBody ErrInvalid) ;;;
    t <-- mapped (exec (query (select tasks dependencyID))) ;;
    require (seqb (t_project t) projectID) (FBody ErrInvalid) ;;;
    if checkCycle then
      cycle <-- plain (exec (query (fun d => inr (in_closure (task_dependencies d) dependencyID taskID)))) ;;
      require (negb cycle) (FBody ErrConflict)
    else ret tt).

(** ** Operations *)

Section Operations.
(** [encoding/json] and [crypto/sha256] *)
Context (json_Marshal : Payload -> string) (sha256_hex : string -> string).

Definition coreFingerprint (value : Payload) : string := sha256_hex (json_Marshal value).

Definition default_to (value dflt : string) : string := if seqb value "" then dflt else value.

Definition createProject_valid (c : CreateProjectCommand) : bool :=
  projectIDPattern (cp_ID c) && negb (seqb (cp_ID c) "general")
  && boundedCoreText (cp_Name c) maxProjectNameBytes true
  && isin (default_to (cp_Status c) "active") ProjectWriteStatuses
  && boundedCoreText (cp_Purpose c) maxProjectPurposeBytes true
  && boundedCoreText (cp_Now c) maxProjectNowBytes false && validCoreMeta (cp_Meta c).

Definition createProject_body (c : CreateProjectCommand) : M DB TxFail coreResult :=
  t <-- now ;;
  viaReplay (exec (insert_project (cp_ID c)
    {| p_name := cp_Name c; p_status := default_to (cp_Status c) "active"; p_purpose := cp_Purpose c;
       p_milestone := ""; p_now := cp_Now c; p_revision := 1; p_created := t; p_updated := t |})) ;;;
  mapped (exec (insert_topic (cp_ID c)
    {| tp_project := Some (cp_ID c); tp_name := cp_Name c; tp_created := t |})) ;;;
  insertCoreChange (cp_ID c) 1 "project_created" (cp_ID c) (cp_Name c) t ;;;
  insertCoreActivity "project_updated" (cp_ID c) (ActorID (cp_Meta c)) (cp_ID c) (cp_Name c) "created" t ;;;
  ret {| cr_id := cp_ID c; cr_revision := 1; cr_project_revision := 1; cr_now := t |}.

Definition CreateCanonicalProject (c : CreateProjectCommand) : M DB Err WriteResult :=
  require (createProject_valid c) ErrInvalid ;;;
  coreWrite (coreRequestKey (cp_Meta c)) "project.create"
    (coreFingerprint (PayloadCreateProject (cp_ID c) (cp_Name c) (default_to (cp_Status c) "active")
                        (cp_Purpose c) (cp_Now c)))
    (createProject_body c).

Definition updateProject_valid (c : UpdateProjectCommand) : bool :=
  boundedCoreText (up_ID c) maxCoreIDBytes true && boundedCoreText (up_Name c) maxProjectNameBytes true
  && isin (up_Status c) ProjectWriteStatuses && boundedCoreText (up_Purpose c) maxProjectPurposeBytes true
  && boundedCoreText (up_Now c) maxProjectNowBytes false && (0 <=? up_BaseRevision c)
  && validCoreMeta (up_Meta c).

Definition project_details (name status purpose nowText : string) (r : project_row) : project_row :=
  {| p_name := name; p_status := status; p_purpose := purpose; p_milestone := p_milestone r;
     p_now := nowText; p_revision := p_revision r; p_created := p_created r; p_updated := p_updated r |}.

Definition updateProject_body (c : UpdateProjectCommand) : M DB TxFail coreResult :=
  p <-- mapped (exec (query (select projects (up_ID c)))) ;;
  require (p_revision p =? up_BaseRevision c) (FBody ErrConflict) ;;;
  t <-- now ;;
  revision <-- bumpProjectRevision (up_ID c) t ;;
  mapped (exec (update_project (up_ID c)
    (project_details (up_Name c) (up_Status c) (up_Purpose c) (up_Now c)))) ;;;
  plain (exec (rename_project_topic (up_ID c) (up_Name c))) ;;;
  insertCoreChange (up_ID c) revision "project_updated" (up_ID c) (up_Name c) t ;;;
  insertCoreActivity "project_updated" (up_ID c) (ActorID (up_Meta c)) (up_ID c) (up_Name c) "updated" t ;;;
  ret {| cr_id := up_ID c; cr_revision := revision; cr_project_revision := revision; cr_now := t |}.

Definition UpdateCanonicalProject (c : UpdateProjectCommand) : M DB Err WriteResult :=
  require (updateProject_valid c) ErrInvalid ;;;
  coreWrite (coreRequestKey (up_Meta c)) "project.update"
    (coreFingerprint (PayloadUpdateProject (up_ID c) (up_Name c) (up_Status c) (up_Purpose c) (up_Now c)
                        (up_BaseRevision c)))
    (updateProject_body c).

Definition createMilestone_valid (c : CreateMilestoneCommand) : bool :=
  boundedCoreText (cm_ProjectID c) maxCoreIDBytes true
  && boundedCoreText (cm_Title c) maxMilestoneTitleBytes true
  && isin (cm_Status c) MilestoneStatuses && (0 <=? cm_Position c) && (cm_Position c <=? 100000)
  && validTargetDate (cm_TargetDate c) && validCoreMeta (cm_Meta c).

Definition createMilestone_body (c : CreateMilestoneCommand) : M DB TxFail coreResult :=
  t <-- now ;;
  id <-- newID "MS-" ;;
  revision <-- bumpProjectRevision (cm_ProjectID c) t ;;
  viaReplay (exec (insert_milestone id
    {| ms_project := cm_ProjectID c; ms_title := cm_Title c; ms_status := cm_Status c;
       ms_position := cm_Position c; ms_target := nullif_empty (cm_TargetDate c);
       ms_revision := revision; ms_created := t; ms_updated := t |})) ;;;
  insertCoreChange (cm_ProjectID c) revision "milestone_created" id (cm_Title c) t ;;;
  insertCoreActivity "project_updated" (cm_ProjectID c) (ActorID (cm_Meta c)) id (cm_Title c)
    "milestone created" t ;;;
  ret {| cr_id := id; cr_revision := revision; cr_project_revision := revision; cr_now := t |}.

Definition CreateMilestone (c : CreateMilestoneCommand) : M DB Err WriteResult :=
  require (createMilestone_valid c) ErrInvalid ;;;
  coreWrite (coreRequestKey (cm_Meta c)) "milestone.create"
    (coreFingerprint (PayloadCreateMilestone (cm_ProjectID c) (cm_Title c) (cm_Status c)
                        (cm_TargetDate c) (cm_Position c)))
    (createMilestone_body c).

Definition updateMilestone_valid (c : UpdateMilestoneCommand) : bool :=
  boundedCoreText (um_ID c) maxCoreIDBytes true
  && boundedCoreText (um_Title c) maxMilestoneTitleBytes true
  && isin (um_Status c) MilestoneStatuses && (0 <=? um_Position c) && (um_Position c <=? 100000)
  && validTargetDate (um_TargetDate c) && (0 <=? um_BaseRevision c) && validCoreMeta (um_Meta c).

Definition milestone_details (c : UpdateMilestoneCommand) (revision t : Z) (r : milestone_row) : milestone_row :=
  {| ms_project := ms_project r; ms_title := um_Title c; ms_status := um_Status c;
     ms_position := um_Position c; ms_target := nullif_empty (um_TargetDate c);
     ms_revision := revision; ms_created := ms_created r; ms_updated := t |}.

Definition updateMilestone_body (c : UpdateMilestoneCommand) : M DB TxFail coreResult :=
  m <-- mapped (exec (query (select milestones (um_ID c)))) ;;
  require (ms_revision m =? um_BaseRevision c) (FBody ErrConflict) ;;;
  t <-- now ;;
  revision <-- bumpProjectRevision (ms_project m) t ;;
  viaReplay (exec (update_milestone (um_ID c) (milestone_details c revision t))) ;;;
  insertCoreChange (ms_project m) revision "milestone_updated" (um_ID c) (um_Title c) t ;;;
  insertCoreActivity "project_updated" (ms_project m) (ActorID (um_Meta c)) (um_ID c) (um_Title c)
    "milestone updated" t ;;;
  ret {| cr_id := um_ID c; cr_revision := revision; cr_project_revision := revision; cr_now := t |}.

Definition UpdateMilestone (c : UpdateMilestoneCommand) : M DB Err WriteResult :=
  require (updateMilestone_valid c) ErrInvalid ;;;
  coreWrite (coreRequestKey (um_Meta c)) "milestone.update"
    (coreFingerprint (PayloadUpdateMilestone (um_ID c) (um_Title c) (um_Status c) (um_TargetDate c)
                        (um_Position c) (um_BaseRevision c)))
    (updateMilestone_body c).

Definition createTask_valid (c : CreateTaskCommand) : bool :=
  boundedCoreText (ct_ProjectID c) maxCoreIDBytes true
  && boundedCoreText (ct_Title c) maxTaskTitleBytes true
  && boundedCoreText (ct_Description c) maxTaskDescriptionBytes false
  && boundedCoreText (ct_Acceptance c) maxTaskAcceptanceBytes false
  && (seqb (default_to (ct_State c) "ready") "ready" || seqb (default_to (ct_State c) "ready") "blocked")
  && (-1000 <=? ct_Priority c) && (ct_Priority c <=? 1000)
  && boundedCoreText (ct_MilestoneID c) maxCoreIDBytes false && validCoreMeta (ct_Meta c).

Definition createTask_body (c : CreateTaskCommand) (dependencies : list string) : M DB TxFail coreResult :=
  let state := default_to (ct_State c) "ready" in
  id <-- newID "T-" ;;
  validateTaskRelations (ct_ProjectID c) id (ct_MilestoneID c) dependencies false ;;;
  t <-- now ;;
  revision <-- bumpProjectRevision (ct_ProjectID c) t ;;
  viaReplay (exec (insert_task id
    {| t_project := ct_ProjectID c; t_state := state; t_title := ct_Title c; t_priority := ct_Priority c;
       t_owner := None; t_accept := ct_Acceptance c; t_description := ct_Description c;
       t_milestone := nullif_empty (ct_MilestoneID c); t_revision := revision;
       t_created := t; t_updated := t |})) ;;;
  forM_ dependencies (fun dependencyID => mapped (exec (insert_task_dependency id dependencyID))) ;;;
  insertTaskEvent id (ct_ProjectID c) revision "created" "Task created" "" state (ct_Meta c) t ;;;
  insertCoreChange (ct_ProjectID c) revision "task_created" id (ct_Title c) t ;;;
  insertCoreActivity "task_status_changed" (ct_ProjectID c) (ActorID (ct_Meta c)) id (ct_Title c) "created" t ;;;
  ret {| cr_id := id; cr_revision := revision; cr_project_revision := revision; cr_now := t |}.

Definition CreateCanonicalTask (c : CreateTaskCommand) : M DB Err WriteResult :=
  match normalizeDependencyIDs (ct_DependencyIDs c) with
  | None => throw ErrInvalid
  | Some dependencies =>
      require (createTask_valid c) ErrInvalid ;;;
      coreWrite (coreRequestKey (ct_Meta c)) "task.create"
        (coreFingerprint (PayloadCreateTask (ct_ProjectID c) (ct_Title c) (ct_Description c)
           (ct_Acceptance c) (default_to (ct_State c) "ready") (ct_MilestoneID c) (ct_Priority c) dependencies))
        (createTask_body c dependencies)
  end.

Definition updateTask_valid (c : UpdateTaskCommand) : bool :=
  boundedCoreText (ut_ID c) maxCoreIDBytes true
  && boundedCoreText (ut_Title c) maxTaskTitleBytes true
  && boundedCoreText (ut_Description c) maxTaskDescriptionBytes false
  && boundedCoreText (ut_Acceptance c) maxTaskAcceptanceBytes false
  && (-1000 <=? ut_Priority c) && (ut_Priority c <=? 1000)
  && boundedCoreText (ut_MilestoneID c) maxCoreIDBytes false
  && (0 <=? ut_BaseRevision c) && validCoreMeta (ut_Meta c).

Definition task_details (c : UpdateTaskCommand) (revision t : Z) (r : task_row) : task_row :=
  {| t_project := t_project r; t_state := t_state r; t_title := ut_Title c; t_priority := ut_Priority c;
     t_owner := t_owner r; t_accept := ut_Acceptance c; t_description := ut_Description c;
     t_milestone := nullif_empty (ut_MilestoneID c); t_revision := revision;
     t_created := t_created r; t_updated := t |}.

Definition updateTask_body (c : UpdateTaskCommand) (dependencies : list string) : M DB TxFail coreResult :=
  task <-- mapped (exec (query (select tasks (ut_ID c)))) ;;
  require (t_revision task =? ut_BaseRevision c) (FBody ErrConflict) ;;;
  validateTaskRelations (t_project task) (ut_ID c) (ut_MilestoneID c) dependencies true ;;;
  t <-- now ;;
  revision <-- bumpProjectRevision (t_project task) t ;;
  mapped (exec (update_task (ut_ID c) (task_details c revision t))) ;;;
  plain (exec (delete_task_dependencies (ut_ID c))) ;;;
  forM_ dependencies (fun dependencyID => mapped (exec (insert_task_dependency (ut_ID c) dependencyID))) ;;;
  insertTaskEvent (ut_ID c) (t_project task) revision "updated" "Task details updated"
    (t_state task) (t_state task) (ut_Meta c) t ;;;
  insertCoreChange (t_project task) revision "task_updated" (ut_ID c) (ut_Title c) t ;;;
  insertCoreActivity "task_status_changed" (t_project task) (ActorID (ut_Meta c)) (ut_ID c) (ut_Title c)
    "updated" t ;;;
  ret {| cr_id := ut_ID c; cr_revision := revision; cr_project_revision := revision; cr_now := t |}.

Definition UpdateCanonicalTask (c : UpdateTaskCommand) : M DB Err WriteResult :=
  match normalizeDependencyIDs (ut_DependencyIDs c) with
  | None => throw ErrInvalid
  | Some dependencies =>
      require (updateTask_valid c) ErrInvalid ;;;
      coreWrite (coreRequestKey (ut_Meta c)) "task.update"
        (coreFingerprint (PayloadUpdateTask (ut_ID c) (ut_Title c) (ut_Description c) (ut_Acceptance c)
           (ut_MilestoneID c) (ut_Priority c) dependencies (ut_BaseRevision c)))
        (updateTask_body c dependencies)
  end.

Definition changeState_valid (c : ChangeTaskStateCommand) : bool :=
  boundedCoreText (cs_ID c) maxCoreIDBytes true && isin (cs_State c) TaskStates
  && boundedCoreText (cs_Basis c) maxTaskBasisBytes true && (0 <=? cs_BaseRevision c)
  && validCoreMeta (cs_Meta c).

Definition task_with_state (state : string) (revision t : Z) (r : task_row) : task_row :=
  {| t_project := t_project r; t_state := state; t_title := t_title r; t_priority := t_priority r;
     t_owner := if seqb state "ready" then None else t_owner r; t_accept := t_accept r;
     t_description := t_description r; t_milestone := t_milestone r; t_revision := revision;
     t_created := t_created r; t_updated := t |}.

Definition changeState_body (c : ChangeTaskStateCommand) : M DB TxFail coreResult :=
  task <-- mapped (exec (query (select tasks (cs_ID c)))) ;;
  require ((t_revision task =? cs_BaseRevision c) && taskTransitionAllowed (t_state task) (cs_State c))
    (FBody ErrConflict) ;;;
  t <-- now ;;
  revision <-- bumpProjectRevision (t_project task) t ;;
  mapped (exec (update_task (cs_ID c) (task_with_state (cs_State c) revision t))) ;;;
  (if seqb (cs_State c) "ready" || seqb (cs_State c) "done" || seqb (cs_State c) "cancelled"
   then plain (exec (delete_current_claim (cs_ID c))) else ret tt) ;;;
  insertTaskEvent (cs_ID c) (t_project task) revision "state_changed" (cs_Basis c)
    (t_state task) (cs_State c) (cs_Meta c) t ;;;
  insertCoreChange (t_project task) revision "task_state_changed" (cs_ID c) (cs_State c) t ;;;
  insertCoreActivity "task_status_changed" (t_project task) (ActorID (cs_Meta c)) (cs_ID c) (t_title task)
    (cs_State c) t ;;;
  ret {| cr_id := cs_ID c; cr_revision := revision; cr_project_revision := revision; cr_now := t |}.

Definition ChangeCanonicalTaskState (c : ChangeTaskStateCommand) : M DB Err WriteResult :=
  require (changeState_valid c) ErrInvalid ;;;
  coreWrite (coreRequestKey (cs_Meta c)) "task.state"
    (coreFingerprint (PayloadChangeTaskState (cs_ID c) (cs_State c) (cs_Basis c) (cs_BaseRevision c)))
    (changeState_body c).

Definition appendWiki_valid (c : AppendWikiRevisionCommand) : bool :=
  boundedCoreText (aw_ProjectID c) maxCoreIDBytes true && wikiSlugPattern (aw_Slug c)
  && boundedCoreText (aw_Title c) maxWikiTitleBytes true
  && boundedCoreText (aw_Summary c) maxWikiSummaryBytes true
  && boundedCoreText (aw_Body c) maxWikiBodyBytes true && (0 <=? aw_BaseRevision c)
  && validCoreMeta (aw_Meta c).

(** The page and its revision: a missing page is revision 0 of a new one. *)
Definition appendWiki_page (c : AppendWikiRevisionCommand) : M DB TxFail (string * Z) :=
  found <-- attempt (exec (query (wiki_page_by_slug (aw_ProjectID c) (aw_Slug c)))) ;;
  match found with
  | inl SqlNoRows =>
      require (aw_BaseRevision c =? 0) (FBody ErrConflict) ;;;
      id <-- newID "W-" ;;
      ret (id, 0)
  | inl e => throw (FBody (ErrSql e))
  | inr (id, page) =>
      require (wp_current page =? aw_BaseRevision c) (FBody ErrConflict) ;;;
      ret (id, wp_current page)
  end.

Definition wiki_page_revised (title : string) (revision : Z) (r : wiki_page_row) : wiki_page_row :=
  {| wp_project := wp_project r; wp_slug := wp_slug r; wp_title := title; wp_current := revision |}.

Definition appendWiki_body (c : AppendWikiRevisionCommand) : M DB TxFail coreResult :=
  page <-- appendWiki_page c ;;
  let pageID := page.1 in
  let current := page.2 in
  t <-- now ;;
  projectRevision <-- bumpProjectRevision (aw_ProjectID c) t ;;
  let pageRevision := current + 1 in
  (if current =? 0 then
     viaReplay (exec (insert_wiki_page pageID
       {| wp_project := aw_ProjectID c; wp_slug := aw_Slug c; wp_title := aw_Title c;
          wp_current := pageRevision |}))
   else
     mapped (exec (update_wiki_page pageID (wiki_page_revised (aw_Title c) pageRevision))) ;;;
     ret tt) ;;;
  mapped (exec (insert_wiki_revision pageID pageRevision
    {| wr_summary := aw_Summary c; wr_body := aw_Body c; wr_author := SessionID (aw_Meta c);
       wr_created := t |})) ;;;
  plain (exec (upsert_search pageID
    {| sd_project := Some (aw_ProjectID c); sd_kind := "wiki"; sd_revision := projectRevision;
       sd_title := aw_Title c; sd_body := aw_Summary c +:+ " " +:+ aw_Body c |})) ;;;
  insertCoreChange (aw_ProjectID c) projectRevision "wiki_revised" pageID (aw_Summary c) t ;;;
  insertCoreActivity "wiki_revised" (aw_ProjectID c) (ActorID (aw_Meta c)) pageID (aw_Title c)
    "revision appended" t ;;;
  ret {| cr_id := pageID; cr_revision := pageRevision; cr_project_revision := projectRevision; cr_now := t |}.

Definition AppendWikiRevision (c : AppendWikiRevisionCommand) : M DB Err WriteResult :=
  require (appendWiki_valid c) ErrInvalid ;;;
  coreWrite (coreRequestKey (aw_Meta c)) "wiki.append"
    (coreFingerprint (PayloadAppendWiki (aw_ProjectID c) (aw_Slug c) (aw_Title c) (aw_Summary c)
                        (aw_Body c) (aw_BaseRevision c)))
    (appendWiki_body c).
End Operations.
