(* ===== verification/Claims.v ===== *)
(** * Task claims and single-statement project mutations

    [internal/store/write.go]: [Claim] takes a task for a session, atomically
    and idempotently, and hands an expired claim over; [Status] and [Redact]
    append to the project log through [mutate] of [internal/store/store.go],
    as does [AddDecision]. *)

From S2P Require Import Prelude GoText Graph CoreDB ProjectCore.
From stdpp Require Import base gmap strings list sets.
From Stdlib Require Import ZArith Lia.

Local Open Scope Z_scope.
Local Open Scope prog_scope.

(** ** Requests and results, [internal/domain/model.go] *)

Record ClaimRequest := {
  cl_TaskID : string; cl_ActorID : string; cl_SessionID : string; cl_RequestID : string;
  cl_LeaseUntil : option Z }.

Record ClaimResult := {
  clr_ID : string; clr_TaskID : string; clr_SessionID : string; clr_RequestID : string;
  clr_Revision : Z; clr_ClaimedAt : Z; clr_LeaseUntil : option Z }.

Record StatusRequest := {
  sr_ProjectID : string; sr_Ref : string; sr_State : string; sr_Detail : string;
  sr_ActorID : string; sr_SessionID : string; sr_RequestID : string }.

Record DecisionInput := { di_ID : string; di_ProjectID : string; di_Title : string; di_Rationale : string }.

Definition sameLease (a b : option Z) : bool := bool_decide (a = b).

(** [claimByRequest] and [claimByRequestQuery] read the same columns, on
    [s.db] and on the transaction. *)
Definition claimByRequest (storageKey requestID : string) : DB -> SqlErr + ClaimResult := fun d =>
  match claim_row_by_request storageKey d with
  | inl e => inl e
  | inr (id, r) =>
      inr {| clr_ID := id; clr_TaskID := c_task r; clr_SessionID := c_session r; clr_RequestID := requestID;
             clr_Revision := c_revision r; clr_ClaimedAt := c_claimed r; clr_LeaseUntil := c_lease r |}
  end.

Definition sameClaim (prior : ClaimResult) (req : ClaimRequest) : bool :=
  seqb (clr_TaskID prior) (cl_TaskID req) && seqb (clr_SessionID prior) (cl_SessionID req)
  && sameLease (clr_LeaseUntil prior) (cl_LeaseUntil req).

(** [UPDATE tasks SET state=state WHERE id=?] *)
Definition lock_task (id : string) : Stmt DB Z := fun d =>
  inr (if present (tasks d) id then 1 else 0, d).

(** Whether the task may be claimed at [claimedAt], and whether that takes
    over an expired claim. *)
Definition claim_mode (state : string) (current : option current_claim_row) (claimedAt : Z) : option bool :=
  match current with
  | None => if seqb state "ready" then Some false else None
  | Some c =>
      match cc_lease c with
      | None => None
      | Some lease =>
          if claimedAt <? lease then None
          else if negb (seqb state "ready") && negb (seqb state "in_progress") then None
          else Some true
      end
  end.

(** The scanned [currentClaimID] and [currentLease.String], zero values when
    there was no row or the lease is NULL. *)
Definition currentClaimID (cur : option current_claim_row) : string :=
  match cur with Some c => cc_claim c | None => "" end.
Definition currentLease (cur : option current_claim_row) : Z :=
  match cur with Some c => default 0 (cc_lease c) | None => 0 end.

Definition task_claimed (session : string) (revision t : Z) (r : task_row) : task_row :=
  {| t_project := t_project r; t_state := "in_progress"; t_title := t_title r; t_priority := t_priority r;
     t_owner := Some session; t_accept := t_accept r; t_description := t_description r;
     t_milestone := t_milestone r; t_revision := revision; t_created := t_created r; t_updated := t |}.

(** [SELECT claim_id,lease_until FROM task_current_claims WHERE task_id=?],
    where no row is not an error. *)
Definition readCurrentClaim (taskID : string) : M DB TxFail (option current_claim_row) :=
  found <-- attempt (exec (query (select task_current_claims taskID))) ;;
  match found with
  | inr c => ret (Some c)
  | inl SqlNoRows => ret None
  | inl e => throw (FBody (ErrSql e))
  end.

(** The writes of a claim, first or taken over. *)
Definition claimWrites (req : ClaimRequest) (storageKey : string) (task : task_row) (claimedAt : Z)
    (cur : option current_claim_row) (reclaim : bool) : M DB TxFail (TxOut ClaimResult) :=
  revision <-- bumpProjectRevision (t_project task) claimedAt ;;
  id <-- newID "C-" ;;
  viaReplay (exec (insert_task_claim id
    {| c_task := cl_TaskID req; c_session := cl_SessionID req; c_request := storageKey;
       c_claimed := claimedAt; c_lease := cl_LeaseUntil req; c_revision := revision |})) ;;;
  let row := {| cc_claim := id; cc_lease := cl_LeaseUntil req; cc_updated := claimedAt |} in
  (if reclaim then
     affected <-- mapped (exec (swap_current_claim (cl_TaskID req) row (currentClaimID cur)
                                  (currentLease cur))) ;;
     require (affected =? 1) (FBody ErrConflict)
   else mapped (exec (insert_current_claim (cl_TaskID req) row))) ;;;
  mapped (exec (update_task (cl_TaskID req) (task_claimed (cl_SessionID req) revision claimedAt))) ;;;
  let kind := if reclaim then "reclaimed" else "claimed" in
  let summary := if reclaim then "Expired task claim handed off" else "Task claimed" in
  insertTaskEvent (cl_TaskID req) (t_project task) revision kind summary (t_state task) "in_progress"
    {| ActorID := cl_ActorID req; SessionID := cl_SessionID req; RequestID := cl_RequestID req |}
    claimedAt ;;;
  insertCoreChange (t_project task) revision "claim" (cl_TaskID req) summary claimedAt ;;;
  insertCoreActivity "task_claimed" (t_project task) (cl_ActorID req) (cl_TaskID req) (t_title task)
    kind claimedAt ;;;
  ret (TxCommit
    {| clr_ID := id; clr_TaskID := cl_TaskID req; clr_SessionID := cl_SessionID req;
       clr_RequestID := cl_RequestID req; clr_Revision := revision; clr_ClaimedAt := claimedAt;
       clr_LeaseUntil := cl_LeaseUntil req |}).

Definition claimTx (req : ClaimRequest) (storageKey : string) : M DB TxFail (TxOut ClaimResult) :=
  affected <-- mapped (exec (lock_task (cl_TaskID req))) ;;
  require (affected =? 1) (FBody ErrNotFound) ;;;
  prior <-- attempt (exec (query (claimByRequest storageKey (cl_RequestID req)))) ;;
  match prior with
  | inr p => if sameClaim p req then ret (TxRollback p) else throw (FBody ErrConflict)
  | inl (SqlFault f) => throw (FBody (mapErr (ErrSql (SqlFault f))))
  | inl SqlConstraint => throw (FBody ErrConflict)
  | inl SqlNoRows =>
      task <-- mapped (exec (query (select tasks (cl_TaskID req)))) ;;
      claimedAt <-- now ;;
      cur <-- readCurrentClaim (cl_TaskID req) ;;
      match claim_mode (t_state task) cur claimedAt with
      | None => throw (FBody ErrConflict)
      | Some reclaim => claimWrites req storageKey task claimedAt cur reclaim
      end
  end.

(** After a failed INSERT or COMMIT: the prior claim if the same request got
    through after all. *)
Definition claimFailure (err : Err) (req : ClaimRequest) (storageKey : string) : M DB Err ClaimResult :=
  prior <-- attempt (autocommit (query (claimByRequest storageKey (cl_RequestID req)))) ;;
  match prior with
  | inr p => if sameClaim p req then ret p else throw (mapErr err)
  | inl _ => throw (mapErr err)
  end.

Definition Claim (req : ClaimRequest) : M DB Err ClaimResult :=
  require (negb (seqb (cl_TaskID req) "") && negb (seqb (cl_SessionID req) "")
           && negb (seqb (cl_RequestID req) "")) ErrInvalid ;;;
  let storageKey := requestStorageKey (cl_ActorID req) (cl_SessionID req) (cl_RequestID req) in
  prior <-- attempt (autocommit (query (claimByRequest storageKey (cl_RequestID req)))) ;;
  match prior with
  | inr p => if sameClaim p req then ret p else throw ErrConflict
  | inl (SqlFault f) => throw (mapErr (ErrSql (SqlFault f)))
  | inl SqlConstraint => throw ErrConflict
  | inl SqlNoRows =>
      out <-- attempt (withTx (claimTx req storageKey)) ;;
      match out with
      | inr c => ret c
      | inl (FBegin e) | inl (FBody e) => throw e
      | inl (FReplay e) | inl (FCommit e) => claimFailure e req storageKey
      end
  end.

(** ** [mutate]: bump the revision, do the work, append to the change log *)

(** [UPDATE projects SET revision=revision+1,updated_at=? WHERE id=?] *)
Definition bump_project_rows (id : string) (t : Z) : Stmt DB Z := fun d =>
  match bump_project id t d with
  | inl SqlNoRows => inr (0, d)
  | inl e => inl e
  | inr (_, d') => inr (1, d')
  end.

(** [call] runs a statement of these tables in the transaction, which may be
    one of a larger database whose other tables [fn] writes. *)
Definition mutateTx_in {T} (call : forall A, Stmt DB A -> M T SqlErr A) (projectID kind ref summary : string)
    (fn : Z -> M T TxFail unit) : M T TxFail (TxOut Z) :=
  t <-- now ;;
  n <-- mapped (call _ (bump_project_rows projectID t)) ;;
  require (n =? 1) (FBody ErrNotFound) ;;;
  p <-- plain (call _ (query (select projects projectID))) ;;
  fn (p_revision p) ;;;
  t' <-- now ;;
  mapped (call _ (insert_change projectID (p_revision p)
    {| ch_kind := kind; ch_ref := ref; ch_summary := summary; ch_created := t' |})) ;;;
  ret (TxCommit (p_revision p)).

Definition mutate_in {T} (call : forall A, Stmt DB A -> M T SqlErr A) (projectID kind ref summary : string)
    (fn : Z -> M T TxFail unit) : M T Err Z :=
  mapE (fun f => match f with
                 | FBegin e | FBody e => e
                 | FReplay e | FCommit e => mapErr e
                 end)
    (withTx (mutateTx_in call projectID kind ref summary fn)).

Definition mutateTx : string -> string -> string -> string -> (Z -> M DB TxFail unit) -> M DB TxFail (TxOut Z) :=
  mutateTx_in (fun A st => exec st).
Definition mutate : string -> string -> string -> string -> (Z -> M DB TxFail unit) -> M DB Err Z :=
  mutate_in (fun A st => exec st).

Definition statusByRequest (storageKey : string) : DB -> SqlErr + (StatusRequest * WriteResult) := fun d =>
  match status_row_by_request storageKey d with
  | inl e => inl e
  | inr (id, r) =>
      inr ({| sr_ProjectID := st_project r; sr_Ref := st_ref r; sr_State := st_state r; sr_Detail := st_detail r;
              sr_ActorID := ""; sr_SessionID := st_session r; sr_RequestID := "" |},
           {| ID := id; Revision := st_revision r |})
  end.

Definition sameStatus (a b : StatusRequest) : bool :=
  seqb (sr_ProjectID a) (sr_ProjectID b) && seqb (sr_Ref a) (sr_Ref b) && seqb (sr_State a) (sr_State b)
  && seqb (sr_Detail a) (sr_Detail b) && seqb (sr_SessionID a) (sr_SessionID b).

Definition Status (req : StatusRequest) : M DB Err WriteResult :=
  require (negb (seqb (sr_ProjectID req) "") && negb (seqb (sr_Ref req) "")
           && negb (seqb (sr_State req) "") && negb (seqb (sr_SessionID req) "")) ErrInvalid ;;;
  let storageKey := requestStorageKey (sr_ActorID req) (sr_SessionID req) (sr_RequestID req) in
  let replay : M DB Err (SqlErr + (StatusRequest * WriteResult)) :=
    if seqb storageKey "" then ret (inl SqlNoRows)
    else attempt (autocommit (query (statusByRequest storageKey))) in
  prior <-- replay ;;
  match prior with
  | inr (p, result) => if sameStatus p req then ret result else throw ErrConflict
  | inl (SqlFault f) => throw (mapErr (ErrSql (SqlFault f)))
  | inl SqlConstraint => throw ErrConflict
  | inl SqlNoRows =>
      id <-- newID "E-" ;;
      out <-- attempt (mutate (sr_ProjectID req) "status" (sr_Ref req) (sr_State req) (fun revision =>
        t <-- now ;;
        mapped (exec (insert_status id
          {| st_project := sr_ProjectID req; st_revision := revision; st_ref := sr_Ref req;
             st_state := sr_State req; st_detail := sr_Detail req; st_session := sr_SessionID req;
             st_request := nullif_empty storageKey; st_created := t |})))) ;;
      match out with
      | inr revision => ret {| ID := id; Revision := revision |}
      | inl err =>
          again <-- replay ;;
          match again with
          | inr (p, result) => if sameStatus p req then ret result else throw err
          | inl _ => throw err
          end
      end
  end.

Definition Redact (projectID ref reason replacement humanActor : string) : M DB Err WriteResult :=
  require (negb (seqb projectID "") && negb (seqb ref "") && negb (seqb reason "")
           && negb (seqb humanActor "")) ErrInvalid ;;;
  id <-- newID "X-" ;;
  revision <-- mutate projectID "redaction" ref "human audited redaction" (fun _ =>
    t <-- now ;;
    mapped (exec (insert_redaction id
      {| rd_project := projectID; rd_ref := ref; rd_reason := reason; rd_replacement := replacement;
         rd_actor := humanActor; rd_created := t |}))) ;;
  ret {| ID := id; Revision := revision |}.

Definition AddDecision (d : DecisionInput) : M DB Err Z :=
  mutate (di_ProjectID d) "decision" (di_ID d) (di_Title d) (fun revision =>
    t <-- now ;;
    mapped (exec (insert_decision (di_ID d)
      {| dc_project := di_ProjectID d; dc_revision := revision; dc_title := di_Title d;
         dc_rationale := di_Rationale d; dc_created := t |})) ;;;
    mapped (exec (insert_search (di_ID d)
      {| sd_project := Some (di_ProjectID d); sd_kind := "decision"; sd_revision := revision;
         sd_title := di_Title d; sd_body := di_Rationale d |}))).
