(* ===== verification/CoreSpec.v ===== *)
(** * What a committed Project Core write does

    The abstract transition relation of the core tables.  [core_step] relates
    the database before and after one committed write, in five independent
    parts: the revision log, tasks with their claims and dependencies,
    milestones, the wiki, and the append-only histories.  The invariants of
    each part are proved against its step only. *)

From S2P Require Import Prelude GoText Graph CoreDB ProjectCore Claims.
From stdpp Require Import base gmap strings list sets relations.
From Stdlib Require Import ZArith Lia.

Local Open Scope Z_scope.

(** ** Steps *)

(** One project gains one revision, and the change log one row at it. *)
Record log_step (d d' : DB) (pid : string) (rev : Z) : Prop := {
  ls_row : exists row',
    projects d' = <[pid:=row']> (projects d) /\ p_revision row' = rev;
  ls_rev :
    match projects d !! pid with
    | Some row => rev = p_revision row + 1 /\ rev <= maxInt64
    | None => rev = 1
    end;
  ls_change : exists ch, changes d !! (pid, rev) = None /\ changes d' = <[(pid, rev):=ch]> (changes d);
}.

(** Every task row the write touched belongs to that project and carries that
    revision. *)
Definition stamped (d d' : DB) (pid : string) (rev : Z) : Prop :=
  forall id row, tasks d' !! id = Some row ->
    tasks d !! id = Some row \/ t_project row = pid /\ t_revision row = rev.

(** The dependency edges of a task. *)
Definition out_edges (id : string) (deps : list string) : gset (string * string) :=
  list_to_set (map (pair id) deps).

Definition dependencies_ok (d : DB) (pid id : string) (deps : list string) : Prop :=
  Forall (fun x => x <> id /\ exists r, tasks d !! x = Some r /\ t_project r = pid) deps.

Inductive task_step (d d' : DB) : Prop :=
  | ts_none :
      tasks d' = tasks d -> task_dependencies d' = task_dependencies d ->
      task_claims d' = task_claims d -> task_current_claims d' = task_current_claims d ->
      task_step d d'
  | ts_create id row deps :
      tasks d !! id = None -> tasks d' = <[id:=row]> (tasks d) ->
      t_owner row = None -> t_state row = "ready"%string \/ t_state row = "blocked"%string ->
      dependencies_ok d (t_project row) id deps ->
      task_dependencies d' = out_edges id deps ∪ task_dependencies d ->
      task_claims d' = task_claims d -> task_current_claims d' = task_current_claims d ->
      task_step d d'
  | ts_update id row row' deps :
      tasks d !! id = Some row -> tasks d' = <[id:=row']> (tasks d) ->
      t_project row' = t_project row -> t_state row' = t_state row -> t_owner row' = t_owner row ->
      dependencies_ok d (t_project row) id deps ->
      Forall (fun x => ~ tc (edge (task_dependencies d)) x id) deps ->
      task_dependencies d' = out_edges id deps ∪ filter (fun e => e.1 <> id) (task_dependencies d) ->
      task_claims d' = task_claims d -> task_current_claims d' = task_current_claims d ->
      task_step d d'
  | ts_state id row to rev t :
      tasks d !! id = Some row -> taskTransitionAllowed (t_state row) to = true ->
      tasks d' = <[id:=task_with_state to rev t row]> (tasks d) ->
      task_dependencies d' = task_dependencies d -> task_claims d' = task_claims d ->
      task_current_claims d' =
        (if seqb to "ready" || seqb to "done" || seqb to "cancelled"
         then delete id (task_current_claims d) else task_current_claims d) ->
      task_step d d'
  | ts_claim id row cid cl reclaim rev t :
      tasks d !! id = Some row ->
      claim_mode (t_state row) (task_current_claims d !! id) t = Some reclaim ->
      task_claims d !! cid = None -> c_task cl = id -> c_claimed cl = t ->
      map_Forall (fun _ r => c_request r <> c_request cl) (task_claims d) ->
      tasks d' = <[id:=task_claimed (c_session cl) rev t row]> (tasks d) ->
      task_dependencies d' = task_dependencies d ->
      task_claims d' = <[cid:=cl]> (task_claims d) ->
      task_current_claims d' =
        <[id:={| cc_claim := cid; cc_lease := c_lease cl; cc_updated := t |}]> (task_current_claims d) ->
      task_step d d'
  | ts_import :
      tasks d ⊆ tasks d' ->
      (forall id row, tasks d' !! id = Some row -> tasks d !! id = None -> t_state row = "done"%string) ->
      task_dependencies d' = task_dependencies d -> task_claims d' = task_claims d ->
      task_current_claims d' = task_current_claims d -> task_step d d'.

Inductive milestone_step (d d' : DB) : Prop :=
  | mst_none : milestones d' = milestones d -> milestone_step d d'
  | mst_put id row :
      milestones d' = <[id:=row]> (milestones d) ->
      (forall old, milestones d !! id = Some old -> ms_project old = ms_project row) ->
      (ms_status row = "active"%string ->
       forall i r, milestones d !! i = Some r -> ms_project r = ms_project row ->
         ms_status r = "active"%string -> i = id) ->
      milestone_step d d'.

Inductive wiki_step (d d' : DB) : Prop :=
  | ws_none : wiki_pages d' = wiki_pages d -> wiki_revisions d' = wiki_revisions d -> wiki_step d d'
  | ws_append id row rr :
      wiki_pages d' = <[id:=row]> (wiki_pages d) ->
      match wiki_pages d !! id with
      | Some old => wp_project row = wp_project old /\ wp_slug row = wp_slug old /\ wp_current row = wp_current old + 1
      | None =>
          wp_current row = 1 /\
          forall i r, wiki_pages d !! i = Some r ->
            ~ (wp_project r = wp_project row /\ wp_slug r = wp_slug row)
      end ->
      wiki_revisions d !! (id, wp_current row) = None ->
      wiki_revisions d' = <[(id, wp_current row):=rr]> (wiki_revisions d) ->
      wiki_step d d'.

(** Append-only tables only grow. *)
Record history_step (d d' : DB) : Prop := {
  hs_changes : changes d ⊆ changes d';
  hs_task_events : task_events d ⊆ task_events d';
  hs_task_claims : task_claims d ⊆ task_claims d';
  hs_wiki_revisions : wiki_revisions d ⊆ wiki_revisions d';
  hs_activity : activity_events d ⊆ activity_events d';
  hs_requests : project_core_requests d ⊆ project_core_requests d';
  hs_status : status_events d ⊆ status_events d';
  hs_redactions : redactions d ⊆ redactions d';
}.

Record core_step (d d' : DB) : Prop := {
  st_log : exists pid rev, log_step d d' pid rev /\ stamped d d' pid rev;
  st_tasks : task_step d d';
  st_milestones : milestone_step d d';
  st_wiki : wiki_step d d';
  st_history : history_step d d';
}.

(** ** Invariants *)

(** Revisions are gapless: revision [k] of a project is logged exactly when
    [1 <= k <= revision]. *)
Definition log_inv (d : DB) : Prop :=
  forall pid k,
    is_Some (changes d !! (pid, k)) <->
    exists row, projects d !! pid = Some row /\ 1 <= k <= p_revision row.

Definition revision_nonneg (d : DB) : Prop := map_Forall (fun _ r => 0 <= p_revision r) (projects d).

(** No task is ahead of its project. *)
Definition task_revision_inv (d : DB) : Prop :=
  forall id row, tasks d !! id = Some row ->
    exists p, projects d !! t_project row = Some p /\ t_revision row <= p_revision p.

(** Dependencies join tasks of one project and have no cycle. *)
Record dependency_inv (d : DB) : Prop := {
  di_same_project : forall a b, (a, b) ∈ task_dependencies d ->
    exists ra rb, tasks d !! a = Some ra /\ tasks d !! b = Some rb /\ t_project ra = t_project rb;
  di_acyclic : acyclic (task_dependencies d);
}.

(** A task is in progress exactly as long as a session holds it. *)
Definition task_claim_ok (d : DB) (id : string) (row : task_row) : Prop :=
  (t_state row = "ready"%string -> task_current_claims d !! id = None /\ t_owner row = None) /\
  (t_state row = "in_progress"%string ->
     exists c cl, task_current_claims d !! id = Some c /\ task_claims d !! cc_claim c = Some cl /\
       t_owner row = Some (c_session cl)) /\
  (t_state row = "done"%string \/ t_state row = "cancelled"%string -> task_current_claims d !! id = None).

Record claim_inv (d : DB) : Prop := {
  ci_task : map_Forall (task_claim_ok d) (tasks d);
  ci_current : forall id c, task_current_claims d !! id = Some c ->
    is_Some (tasks d !! id) /\
    exists cl, task_claims d !! cc_claim c = Some cl /\ c_task cl = id /\ c_lease cl = cc_lease c;
  ci_request : forall i j ri rj, task_claims d !! i = Some ri -> task_claims d !! j = Some rj ->
    c_request ri = c_request rj -> i = j;
}.

Definition milestone_inv (d : DB) : Prop :=
  forall i j ri rj, milestones d !! i = Some ri -> milestones d !! j = Some rj ->
    ms_status ri = "active"%string -> ms_status rj = "active"%string ->
    ms_project ri = ms_project rj -> i = j.

Record wiki_inv (d : DB) : Prop := {
  wi_revisions : forall id k, is_Some (wiki_revisions d !! (id, k)) <->
    exists row, wiki_pages d !! id = Some row /\ 1 <= k <= wp_current row;
  wi_current : map_Forall (fun _ r => 1 <= wp_current r) (wiki_pages d);
  wi_slug : forall i j ri rj, wiki_pages d !! i = Some ri -> wiki_pages d !! j = Some rj ->
    wp_project ri = wp_project rj -> wp_slug ri = wp_slug rj -> i = j;
}.

Record core_inv (d : DB) : Prop := {
  inv_log : log_inv d;
  inv_rev : revision_nonneg d;
  inv_task_rev : task_revision_inv d;
  inv_deps : dependency_inv d;
  inv_claims : claim_inv d;
  inv_milestones : milestone_inv d;
  inv_wiki : wiki_inv d;
}.

(** ** Preservation, part by part *)

Lemma log_inv_step d d' : core_step d d' -> log_inv d -> revision_nonneg d -> log_inv d' /\ revision_nonneg d'.
Proof.
  intros [(pid & rev & [(row' & Hp & Hr) Hrev (ch & _ & Hch)] & _) _ _ _ _] Hinv Hnn.
  assert (0 <= rev) as Hrev0.
  { destruct (projects d !! pid) as [row|] eqn:E; [|lia]. specialize (Hnn _ _ E). simpl in *; lia. }
  split.
  - intros p k. rewrite Hp, Hch. destruct (decide (p = pid)) as [->|Hne].
    + rewrite lookup_insert_eq. specialize (Hinv pid k).
      destruct (decide (k = rev)) as [->|Hk].
      * rewrite lookup_insert_eq. split; [|by eauto]. intros _. exists row'. split; [done|].
        destruct (projects d !! pid) as [row|] eqn:E; [|lia]. specialize (Hnn _ _ E). simpl in *; lia.
      * rewrite lookup_insert_ne by congruence. rewrite Hinv.
        destruct (projects d !! pid) as [row|] eqn:E; split.
        -- intros (r & [= <-] & ?). exists row'. split; [done|lia].
        -- intros (r & [= <-] & ?). exists row. split; [done|lia].
        -- naive_solver.
        -- intros (r & [= <-] & ?). lia.
    + rewrite !lookup_insert_ne by congruence. apply Hinv.
  - unfold revision_nonneg. rewrite Hp. apply map_Forall_insert_2; [lia|done].
Qed.

Lemma task_revision_inv_step d d' : core_step d d' -> task_revision_inv d -> task_revision_inv d'.
Proof.
  intros [(pid & rev & [(row' & Hp & Hr) Hrev _] & Hst) _ _ _ _] Hinv id row Hrow.
  rewrite Hp. destruct (Hst _ _ Hrow) as [Hold|[<- Hrv]].
  - destruct (Hinv _ _ Hold) as (p & Hpj & Hle).
    destruct (decide (t_project row = pid)) as [<-|Hne].
    + rewrite Hpj in Hrev. rewrite lookup_insert_eq. eexists. split; [done|]. lia.
    + rewrite lookup_insert_ne by done. eauto.
  - rewrite lookup_insert_eq. eexists. split; [done|]. lia.
Qed.

Lemma elem_of_out_edges a b id deps : (a, b) ∈ out_edges id deps <-> a = id /\ b ∈ deps.
Proof.
  unfold out_edges. rewrite elem_of_list_to_set, list_elem_of_fmap. naive_solver.
Qed.

(** A change of a task row that keeps its project leaves the edges well formed. *)
Lemma dependency_inv_frame d d' id row row' :
  tasks d !! id = Some row -> tasks d' = <[id:=row']> (tasks d) -> t_project row' = t_project row ->
  task_dependencies d' = task_dependencies d -> dependency_inv d -> dependency_inv d'.
Proof.
  intros Hid Ht Hp Hd [Hsame Hac]. split; [|by rewrite Hd]. intros a b. rewrite Hd, Ht. intros Hab.
  destruct (Hsame _ _ Hab) as (ra & rb & Ha & Hb & Heq).
  rewrite !lookup_insert. repeat case_decide; subst; simplify_eq; eauto 10 with congruence.
Qed.

Lemma dependency_inv_create d d' id row deps :
  tasks d !! id = None -> tasks d' = <[id:=row]> (tasks d) ->
  dependencies_ok d (t_project row) id deps ->
  task_dependencies d' = out_edges id deps ∪ task_dependencies d ->
  dependency_inv d -> dependency_inv d'.
Proof.
  intros Hid Ht Hok Hd [Hsame Hac]. unfold dependencies_ok in Hok. rewrite Forall_forall in Hok.
  assert (forall x, ~ (x, id) ∈ task_dependencies d) as Hin.
  { intros x Hx. destruct (Hsame _ _ Hx) as (? & ? & _ & ? & _). congruence. }
  split.
  - intros a b. rewrite Hd, Ht, elem_of_union, elem_of_out_edges. intros [[-> Hb]|Hab].
    + destruct (Hok _ Hb) as (Hne & rb & ? & ?). exists row, rb.
      rewrite lookup_insert_eq, lookup_insert_ne by done. done.
    + destruct (Hsame _ _ Hab) as (ra & rb & Ha & Hb & ?). exists ra, rb.
      rewrite !lookup_insert_ne by congruence. done.
  - rewrite Hd. apply (acyclic_add_out (task_dependencies d) _ id); [| |done].
    + intros x z. rewrite elem_of_union, elem_of_out_edges. tauto.
    + intros z. rewrite elem_of_union, elem_of_out_edges. intros [[_ Hz]|Hz].
      * split; [by apply Hok in Hz as [? _]|]. intros (y & Hy)%tc_last_edge. by apply Hin in Hy.
      * destruct (Hsame _ _ Hz) as (? & ? & ? & _). congruence.
Qed.

Lemma dependency_inv_update d d' id row row' deps :
  tasks d !! id = Some row -> tasks d' = <[id:=row']> (tasks d) -> t_project row' = t_project row ->
  dependencies_ok d (t_project row) id deps ->
  Forall (fun x => ~ tc (edge (task_dependencies d)) x id) deps ->
  task_dependencies d' = out_edges id deps ∪ filter (fun e => e.1 <> id) (task_dependencies d) ->
  dependency_inv d -> dependency_inv d'.
Proof.
  intros Hid Ht Hpj Hok Hnc Hd [Hsame Hac].
  unfold dependencies_ok in Hok. rewrite Forall_forall in Hok, Hnc. split.
  - intros a b. rewrite Hd, Ht, elem_of_union, elem_of_out_edges, elem_of_filter.
    intros [[-> Hb]|[Ha Hab]]; simpl in *.
    + destruct (Hok _ Hb) as (Hne & rb & ? & ?). exists row', rb.
      rewrite lookup_insert_eq, lookup_insert_ne by done. split_and!; [done..|congruence].
    + destruct (Hsame _ _ Hab) as (ra & rb & Hla & Hlb & ?).
      exists ra. rewrite lookup_insert_ne by done.
      destruct (decide (b = id)) as [->|?].
      * exists row'. rewrite lookup_insert_eq. split_and!; [done..|congruence].
      * exists rb. rewrite lookup_insert_ne by done. done.
  - rewrite Hd. apply (acyclic_add_out (task_dependencies d) _ id); [| |done].
    + intros x z. rewrite elem_of_union, elem_of_out_edges, elem_of_filter. tauto.
    + intros z. rewrite elem_of_union, elem_of_out_edges, elem_of_filter. simpl.
      intros [[_ Hz]|[? _]]; [|done]. split; [by apply Hok in Hz as [? _]|by apply Hnc].
Qed.

Lemma dependency_inv_step d d' : core_step d d' -> dependency_inv d -> dependency_inv d'.
Proof.
  intros [_ Hts _ _ _] Hinv. destruct Hts as [Ht Hd _ _| | | | |Ht _ Hd _ _].
  - destruct Hinv as [H1 H2]. split; rewrite ?Ht, ?Hd; done.
  - by eapply dependency_inv_create.
  - by eapply dependency_inv_update.
  - by eapply dependency_inv_frame.
  - by eapply dependency_inv_frame.
  - destruct Hinv as [H1 H2]. split; rewrite Hd; [|done]. intros a b (ra & rb & Ha & Hb & Heq)%H1.
    exists ra, rb. split_and!; [by eapply lookup_weaken..|done].
Qed.

(** *** Claims *)

Lemma taskTransitionAllowed_cases from to :
  taskTransitionAllowed from to = true ->
  (from = "ready"%string \/ from = "in_progress"%string) /\ (to = "blocked"%string \/ to = "done"%string \/ to = "cancelled"%string)
  \/ from = "blocked"%string /\ (to = "ready"%string \/ to = "cancelled"%string).
Proof.
  unfold taskTransitionAllowed.
  destruct (_ || _ || _ || _); [done|].
  destruct (seqb from "ready") eqn:E1.
  { rewrite !orb_true_iff, !seqb_true. apply seqb_true in E1. tauto. }
  destruct (seqb from "in_progress") eqn:E2.
  { rewrite !orb_true_iff, !seqb_true. apply seqb_true in E2. tauto. }
  destruct (seqb from "blocked") eqn:E3; [|done].
  rewrite !orb_true_iff, !seqb_true. apply seqb_true in E3. tauto.
Qed.

Lemma task_claim_ok_frame d d' id row row' :
  task_current_claims d' !! id = task_current_claims d !! id ->
  task_claims d ⊆ task_claims d' ->
  t_state row' = t_state row -> t_owner row' = t_owner row ->
  task_claim_ok d id row -> task_claim_ok d' id row'.
Proof.
  intros Hc Hcl Hs Ho (H1 & H2 & H3). unfold task_claim_ok. rewrite Hc, Hs, Ho. split_and!; [done| |done].
  intros (c & cl & ? & ? & ?)%H2. exists c, cl. split_and!; [done| |done]. by eapply lookup_weaken.
Qed.

Lemma claim_inv_state d d' id row to rev t :
  tasks d !! id = Some row -> taskTransitionAllowed (t_state row) to = true ->
  tasks d' = <[id:=task_with_state to rev t row]> (tasks d) -> task_claims d' = task_claims d ->
  task_current_claims d' =
    (if seqb to "ready" || seqb to "done" || seqb to "cancelled"
     then delete id (task_current_claims d) else task_current_claims d) ->
  claim_inv d -> claim_inv d'.
Proof.
  intros Hid Htr Ht Hcl Hcc [Htask Hcur Hreq].
  assert (to = "blocked"%string /\ task_current_claims d' = task_current_claims d \/
          to <> "blocked"%string /\ to <> "in_progress"%string /\
          task_current_claims d' = delete id (task_current_claims d)) as Hto.
  { apply taskTransitionAllowed_cases in Htr.
    destruct Htr as [[_ [->|[-> | ->]]]|[_ [-> | ->]]]; simpl in Hcc; auto. }
  split.
  - intros i r. rewrite Ht, lookup_insert_Some. intros [[<- <-]|[Hne Hi]].
    + destruct Hto as [[-> Heq]|(Hb & Hi & Heq)]; unfold task_claim_ok; simpl.
      * split_and!; try done; intros [?|?]; done.
      * rewrite Heq, lookup_delete_eq. split_and!; try done. by intros ->.
    + apply (task_claim_ok_frame d d' i r r); [|by rewrite Hcl|done|done|by apply Htask].
      destruct Hto as [[_ ->]|(_ & _ & ->)]; [done|by rewrite lookup_delete_ne].
  - intros i c Hc. assert (task_current_claims d !! i = Some c) as Hold.
    { destruct Hto as [[_ Heq]|(_ & _ & Heq)]; rewrite Heq in Hc; [done|].
      by apply lookup_delete_Some in Hc as [_ ?]. }
    destruct (Hcur _ _ Hold) as [? (cl & ? & ? & ?)]. rewrite Hcl, Ht.
    split; [|by eauto]. rewrite lookup_insert_is_Some'. auto.
  - by rewrite Hcl.
Qed.

Lemma claim_inv_claim d d' id row cid cl rev t :
  tasks d !! id = Some row -> task_claims d !! cid = None -> c_task cl = id ->
  map_Forall (fun _ r => c_request r <> c_request cl) (task_claims d) ->
  tasks d' = <[id:=task_claimed (c_session cl) rev t row]> (tasks d) ->
  task_claims d' = <[cid:=cl]> (task_claims d) ->
  task_current_claims d' =
    <[id:={| cc_claim := cid; cc_lease := c_lease cl; cc_updated := t |}]> (task_current_claims d) ->
  claim_inv d -> claim_inv d'.
Proof.
  intros Hid Hcid Htk Hfree Ht Hcl Hcc [Htask Hcur Hreq].
  assert (task_claims d ⊆ task_claims d') as Hsub by (rewrite Hcl; by apply insert_subseteq).
  split.
  - intros i r. rewrite Ht, lookup_insert_Some. intros [[<- <-]|[Hne Hi]].
    + unfold task_claim_ok; simpl. split_and!; [done| |by intros [?|?]].
      intros _. rewrite Hcc, Hcl, lookup_insert_eq. eexists _, _. split; [done|]. simpl.
      by rewrite lookup_insert_eq.
    + apply (task_claim_ok_frame d d' i r r); [|done|done|done|by apply Htask]. by rewrite Hcc, lookup_insert_ne.
  - intros i c. rewrite Hcc, lookup_insert_Some, Ht, lookup_insert_is_Some'.
    intros [[<- <-]|[Hne Hi]]; simpl.
    + split; [by left|]. exists cl. by rewrite Hcl, lookup_insert_eq.
    + destruct (Hcur _ _ Hi) as [? (cl' & Hcl' & ? & ?)]. split; [by right|].
      exists cl'. split; [by eapply lookup_weaken|done].
  - intros i j ri rj. rewrite Hcl, !lookup_insert_Some.
    intros [[<- <-]|[Hi Hri]] [[<- <-]|[Hj Hrj]] Heq; [done|..|by eapply Hreq].
    + by destruct (Hfree _ _ Hrj).
    + by destruct (Hfree _ _ Hri).
Qed.

Lemma claim_inv_step d d' : core_step d d' -> claim_inv d -> claim_inv d'.
Proof.
  intros [_ Hts _ _ _] Hinv. destruct Hts as
    [Ht _ Hcl Hcc|id row deps Hid Ht Ho Hs _ _ Hcl Hcc|id row row' deps Hid Ht _ Hs Ho _ _ _ Hcl Hcc| | |Ht Hnew _ Hcl Hcc].
  - destruct Hinv as [H1 H2 H3]. split; [| |by rewrite Hcl].
    + intros i r. rewrite Ht. intros Hi.
      apply (task_claim_ok_frame d d' i r r); [by rewrite Hcc|by rewrite Hcl|done|done|by apply H1].
    + intros i c. rewrite Hcc, Hcl, Ht. apply H2.
  - destruct Hinv as [H1 H2 H3]. split; [| |by rewrite Hcl].
    + intros i r. rewrite Ht, lookup_insert_Some. intros [[<- <-]|[Hne Hi]].
      * assert (task_current_claims d' !! id = None) as Hnone.
        { rewrite Hcc. apply eq_None_not_Some. intros [c Hc]. destruct (H2 _ _ Hc) as [[? ?] _]. congruence. }
        unfold task_claim_ok. rewrite Hnone. destruct Hs as [-> | ->]; split_and!; done.
      * apply (task_claim_ok_frame d d' i r r); [by rewrite Hcc|by rewrite Hcl|done|done|by apply H1].
    + intros i c. rewrite Hcc, Hcl, Ht, lookup_insert_is_Some'. intros [? ?]%H2. auto.
  - destruct Hinv as [H1 H2 H3]. split; [| |by rewrite Hcl].
    + intros i r. rewrite Ht, lookup_insert_Some. intros [[<- <-]|[Hne Hi]].
      * apply (task_claim_ok_frame d d' id row row'); [by rewrite Hcc|by rewrite Hcl|done|done|by apply H1].
      * apply (task_claim_ok_frame d d' i r r); [by rewrite Hcc|by rewrite Hcl|done|done|by apply H1].
    + intros i c. rewrite Hcc, Hcl, Ht, lookup_insert_is_Some'. intros [? ?]%H2. auto.
  - by eapply claim_inv_state.
  - by eapply claim_inv_claim.
  - destruct Hinv as [H1 H2 H3]. split; [| |by rewrite Hcl].
    + intros i r Hi. destruct (tasks d !! i) as [r0|] eqn:Hold.
      * pose proof (lookup_weaken _ _ _ _ Hold Ht) as Hsame. simplify_eq.
        apply (task_claim_ok_frame d d' i r r); [by rewrite Hcc|by rewrite Hcl|done|done|by apply H1].
      * assert (task_current_claims d' !! i = None) as Hnone.
        { rewrite Hcc. apply eq_None_not_Some. intros [c Hc]. destruct (H2 _ _ Hc) as [[? ?] _]. congruence. }
        unfold task_claim_ok. rewrite Hnone, (Hnew _ _ Hi Hold). split_and!; done.
    + intros i c. rewrite Hcc, Hcl. intros [[r Hr] ?]%H2. split; [|done]. exists r. by eapply lookup_weaken.
Qed.

(** *** Milestones and wiki *)

Lemma milestone_inv_step d d' : core_step d d' -> milestone_inv d -> milestone_inv d'.
Proof.
  intros [_ _ Hms _ _] Hinv. destruct Hms as [Hm|id row Hm Hold Hfree].
  { unfold milestone_inv. by rewrite Hm. }
  intros i j ri rj. rewrite Hm, !lookup_insert_Some.
  intros [[<- <-]|[Hi Hri]] [[<- <-]|[Hj Hrj]] Hai Haj Hp; [done|..].
  - symmetry. by eapply (Hfree Hai j rj).
  - by eapply (Hfree Haj i ri).
  - by eapply (Hinv i j).
Qed.

Lemma wiki_inv_step d d' : core_step d d' -> wiki_inv d -> wiki_inv d'.
Proof.
  intros [_ _ _ Hws _] [Hrev Hcur Hslug]. destruct Hws as [Hp Hr|id row rr Hp Hrow Hnone Hr].
  { split; unfold map_Forall; rewrite ?Hp, ?Hr; done. }
  split.
  - intros i k. rewrite Hp, Hr. destruct (decide (i = id)) as [->|Hne].
    + rewrite lookup_insert_eq. specialize (Hrev id k). specialize (Hcur id).
      destruct (decide (k = wp_current row)) as [->|Hk].
      * rewrite lookup_insert_eq. split; [|by eauto]. intros _. exists row. split; [done|].
        destruct (wiki_pages d !! id) as [old|]; [|lia]. specialize (Hcur _ eq_refl). simpl in *. lia.
      * rewrite lookup_insert_ne by congruence. rewrite Hrev.
        destruct (wiki_pages d !! id) as [old|] eqn:E; split.
        -- intros (r & [= <-] & ?). exists row. split; [done|lia].
        -- intros (r & [= <-] & ?). exists old. split; [done|lia].
        -- intros (r & ? & _). done.
        -- intros (r & [= <-] & ?). lia.
    + rewrite !lookup_insert_ne by congruence. apply Hrev.
  - rewrite Hp. apply map_Forall_insert_2; [|done].
    destruct (wiki_pages d !! id) as [old|] eqn:E; [|lia]. specialize (Hcur _ _ E). simpl in *. lia.
  - intros i j ri rj. rewrite Hp, !lookup_insert_Some.
    destruct (wiki_pages d !! id) as [old|] eqn:E.
    + destruct Hrow as (Hpr & Hsl & _).
      intros [[<- <-]|[Hi Hri]] [[<- <-]|[Hj Hrj]] ? ?; [done|..]; (eapply Hslug; [done..|congruence|congruence]).
    + destruct Hrow as [_ Hfree].
      intros [[<- <-]|[Hi Hri]] [[<- <-]|[Hj Hrj]] ? ?; [done|..]; [| |by eapply Hslug];
        exfalso; eapply Hfree; eauto.
Qed.

(** ** The whole invariant *)

Lemma core_inv_step : inductive_inv core_inv core_step.
Proof.
  intros d d' Hstep [Hl Hn Ht Hd Hc Hm Hw].
  destruct (log_inv_step _ _ Hstep Hl Hn) as [? ?]. split; [done|done|by eapply task_revision_inv_step|..].
  - by eapply dependency_inv_step.
  - by eapply claim_inv_step.
  - by eapply milestone_inv_step.
  - by eapply wiki_inv_step.
Qed.

Lemma core_inv_empty : core_inv db_empty.
Proof.
  split.
  - intros p k. simpl. rewrite !lookup_empty. split; [by intros []|by intros (? & ? & _)].
  - apply map_Forall_empty.
  - intros id row. simpl. by rewrite lookup_empty.
  - split; [set_solver|]. intros a (x & Hx)%tc_last_edge. set_solver.
  - split; [apply map_Forall_empty|..].
    + intros id c. simpl. by rewrite lookup_empty.
    + intros i j ri rj. simpl. by rewrite lookup_empty.
  - intros i j ri rj. simpl. by rewrite lookup_empty.
  - split; [|apply map_Forall_empty|].
    + intros p k. simpl. rewrite !lookup_empty. split; [by intros []|by intros (? & ? & _)].
    + intros i j ri rj. simpl. by rewrite lookup_empty.
Qed.
