(* ===== verification/CoreRefine.v ===== *)
(** * The operations refine [core_step]

    Every operation of [ProjectCore] and [Claims], under any driver faults
    and any interleaving with other connections, changes the database only by
    committed steps of [core_step]; so the invariants of [CoreSpec] hold in
    every reachable database. *)

From S2P Require Import Prelude GoText Graph CoreDB ProjectCore Claims CoreSpec.
From stdpp Require Import base gmap strings list sets relations.
From Stdlib Require Import ZArith Lia.

Local Open Scope Z_scope.

(** ** Inverting statements *)

Ltac db_simpl := cbn [projects topics milestones tasks task_dependencies task_claims task_current_claims task_events project_core_requests wiki_pages wiki_revisions search_documents changes activity_events decisions status_events redactions
  set_projects set_topics set_milestones set_tasks set_task_dependencies set_task_claims set_task_current_claims set_task_events set_project_core_requests set_wiki_pages set_wiki_revisions set_search_documents set_changes set_activity_events set_decisions set_status_events set_redactions w_db w_tick] in *.

Lemma constraint_inv ok d u d' : constraint ok d = inr (u, d') -> ok = true /\ d' = d.
Proof. unfold constraint. destruct ok; naive_solver. Qed.

Lemma absent_true {A} `{Countable K} (m : gmap K A) k : absent m k = true <-> m !! k = None.
Proof. unfold absent. by rewrite bool_decide_eq_true. Qed.

Lemma select_inv {A} `{Countable K} (tbl : DB -> gmap K A) k d r :
  select tbl k d = inr r -> tbl d !! k = Some r.
Proof. unfold select. destruct (tbl d !! k); naive_solver. Qed.

Lemma bump_project_inv id t d rev d' :
  bump_project id t d = inr (rev, d') ->
  exists r, projects d !! id = Some r /\ rev = p_revision r + 1 /\ rev <= maxInt64 /\
    d' = set_projects (<[id:=bumped r t]> (projects d)) d.
Proof.
  unfold bump_project. destruct (projects d !! id) as [r|] eqn:E; [|done].
  destruct (Z.leb_spec (p_revision r + 1) maxInt64); [|done]. intros [= <- <-]. eauto 10.
Qed.

Lemma update_row_inv {A} (tbl : DB -> gmap string A) set ok id f d n d' :
  update_row tbl set ok id f d = inr (n, d') ->
  tbl d !! id = None /\ d' = d /\ n = 0 \/
  exists r, tbl d !! id = Some r /\ ok d (f r) = true /\ d' = set (<[id:=f r]> (tbl d)) d /\ n = 1.
Proof.
  unfold update_row. destruct (tbl d !! id) as [r|] eqn:E; [|naive_solver].
  destruct (ok d (f r)) eqn:Eok; naive_solver.
Qed.

Lemma insert_tables_inv_change p rev r d u d' :
  insert_change p rev r d = inr (u, d') ->
  changes d !! (p, rev) = None /\ d' = set_changes (<[(p, rev):=r]> (changes d)) d.
Proof. intros [H ->]%constraint_inv. apply andb_true_iff in H as [?%absent_true _]. done. Qed.

Lemma insert_activity_inv id r d u d' :
  insert_activity id r d = inr (u, d') ->
  activity_events d !! id = None /\ d' = set_activity_events (<[id:=r]> (activity_events d)) d.
Proof.
  intros [H ->]%constraint_inv. rewrite !andb_true_iff, absent_true in H. by destruct H as [[? _] _].
Qed.

Lemma insert_task_event_inv id r d u d' :
  insert_task_event_row id r d = inr (u, d') ->
  task_events d !! id = None /\ d' = set_task_events (<[id:=r]> (task_events d)) d.
Proof.
  intros [H ->]%constraint_inv. rewrite !andb_true_iff, absent_true in H. naive_solver.
Qed.

Lemma insert_request_inv key r d u d' :
  insert_request key r d = inr (u, d') ->
  project_core_requests d !! key = None /\ d' = set_project_core_requests (<[key:=r]> (project_core_requests d)) d.
Proof.
  intros [H ->]%constraint_inv. rewrite !andb_true_iff, absent_true in H. naive_solver.
Qed.

Lemma insert_project_inv id r d u d' :
  insert_project id r d = inr (u, d') -> projects d !! id = None /\ d' = set_projects (<[id:=r]> (projects d)) d.
Proof. intros [H ->]%constraint_inv. rewrite andb_true_iff, absent_true in H. naive_solver. Qed.

Lemma insert_topic_inv id r d u d' :
  insert_topic id r d = inr (u, d') -> d' = set_topics (<[id:=r]> (topics d)) d.
Proof. by intros [_ ->]%constraint_inv. Qed.

Lemma rename_project_topic_inv id name d u d' :
  rename_project_topic id name d = inr (u, d') -> exists tps, d' = set_topics tps d.
Proof.
  unfold rename_project_topic. assert (d = set_topics (topics d) d) as Heq by (by destruct d).
  repeat case_match; naive_solver.
Qed.

Lemma active_slot_free_true d id project :
  active_slot_free d id project = true ->
  forall i r, milestones d !! i = Some r -> ms_project r = project -> ms_status r = "active"%string -> i = id.
Proof. unfold active_slot_free. rewrite bool_decide_eq_true. intros H i r Hi. by apply (H i r). Qed.

Lemma insert_milestone_inv id r d u d' :
  insert_milestone id r d = inr (u, d') ->
  milestones d !! id = None /\ d' = set_milestones (<[id:=r]> (milestones d)) d /\
  (ms_status r = "active"%string -> active_slot_free d id (ms_project r) = true).
Proof.
  intros [H ->]%constraint_inv. rewrite !andb_true_iff, absent_true, orb_true_iff, negb_true_iff, seqb_false in H.
  naive_solver.
Qed.

Lemma update_milestone_inv id f d n d' :
  update_milestone id f d = inr (n, d') ->
  milestones d !! id = None /\ d' = d \/
  exists r, milestones d !! id = Some r /\ d' = set_milestones (<[id:=f r]> (milestones d)) d /\
    (ms_status (f r) = "active"%string -> active_slot_free d id (ms_project (f r)) = true).
Proof.
  intros [?|(r & ? & Hok & -> & _)]%update_row_inv; [naive_solver|]. right. exists r.
  rewrite !andb_true_iff, orb_true_iff, negb_true_iff, seqb_false in Hok. naive_solver.
Qed.

Lemma insert_task_inv id r d u d' :
  insert_task id r d = inr (u, d') -> tasks d !! id = None /\ d' = set_tasks (<[id:=r]> (tasks d)) d.
Proof. intros [H ->]%constraint_inv. rewrite !andb_true_iff, absent_true in H. naive_solver. Qed.

Lemma update_task_inv id f d n d' :
  update_task id f d = inr (n, d') ->
  tasks d !! id = None /\ d' = d \/
  exists r, tasks d !! id = Some r /\ d' = set_tasks (<[id:=f r]> (tasks d)) d.
Proof. intros [?|(r & ? & _ & -> & _)]%update_row_inv; naive_solver. Qed.

(** Inserting the dependencies one by one adds the task's out-edges. *)
Lemma insert_dependencies_inv id deps env w u w' :
  forM_ deps (fun x => mapped (exec (insert_task_dependency id x))) env w = (inr u, w') ->
  w_db w' = set_task_dependencies (out_edges id deps ∪ task_dependencies (w_db w)) (w_db w).
Proof.
  revert w. induction deps as [|x deps IH]; intros w H; simpl in H.
  { m_inv. unfold out_edges. simpl. rewrite (left_id_L ∅ (∪)). by destruct (w_db w'). }
  m_inv. apply IH in H. rewrite H. destruct (constraint_inv _ _ _ _ Hst) as [_ Heq]. rewrite Heq. db_simpl.
  unfold out_edges, set_task_dependencies. db_simpl. simpl. f_equal. set_solver.
Qed.

(** [validateTaskRelations] reads only, and passes only good relations. *)
Lemma validateTaskRelations_inv pid id mid deps check env w u w' :
  validateTaskRelations pid id mid deps check env w = (inr u, w') ->
  w_db w' = w_db w /\ dependencies_ok (w_db w) pid id deps /\
  (check = true -> Forall (fun x => ~ tc (edge (task_dependencies (w_db w))) x id) deps).
Proof.
  unfold validateTaskRelations. intros H. m_inv.
  assert (w_db w0 = w_db w) as Hw0.
  { destruct (seqb mid ""); m_inv; congruence. }
  rewrite <- Hw0. clear Hrun Hw0 w. revert w0 H.
  induction deps as [|x deps IH]; intros w H; simpl in H; m_inv.
  { split_and!; [done|constructor|constructor]. }
  apply select_inv in Hq. bool_inv. subst.
  assert (w_db w0 = w_db w /\ (check = true -> ~ tc (edge (task_dependencies (w_db w))) x id)) as [Hw0 Hc].
  { destruct check; m_inv; [|split; congruence]. split; [congruence|]. intros _ Htc.
    bool_inv. simplify_eq.
    match goal with H : in_closure _ _ _ = false |- _ => rewrite (proj2 (in_closure_tc _ _ _)) in H; [done|] end.
    congruence. }
  destruct (IH _ H) as (Hw' & Hok & Hnc). rewrite Hw0 in *. split_and!; [done| |].
  - constructor; [|done]. eauto.
  - intros Hcheck. constructor; auto.
Qed.

Lemma wiki_page_by_slug_inv p slug d id r :
  wiki_page_by_slug p slug d = inr (id, r) ->
  wiki_pages d !! id = Some r /\ wp_project r = p /\ wp_slug r = slug.
Proof.
  unfold wiki_page_by_slug. destruct (filter _ _) as [|e l] eqn:E; [done|]. intros [= ->].
  assert ((id, r) ∈ (id, r) :: l) as Hin by apply list_elem_of_here. rewrite <- E in Hin.
  apply list_elem_of_filter in Hin as [[? ?] ?%elem_of_map_to_list]. done.
Qed.

Lemma wiki_page_by_slug_none p slug d :
  wiki_page_by_slug p slug d = inl SqlNoRows ->
  forall i r, wiki_pages d !! i = Some r -> ~ (wp_project r = p /\ wp_slug r = slug).
Proof.
  unfold wiki_page_by_slug. destruct (filter _ _) as [|e l] eqn:E; [|done]. intros _ i r Hi Hps.
  assert ((i, r) ∈ filter (fun e => wp_project e.2 = p /\ wp_slug e.2 = slug) (map_to_list (wiki_pages d))) as Hin.
  { apply list_elem_of_filter. split; [done|]. by apply elem_of_map_to_list. }
  rewrite E in Hin. by apply not_elem_of_nil in Hin.
Qed.

Lemma insert_wiki_page_inv id r d u d' :
  insert_wiki_page id r d = inr (u, d') ->
  wiki_pages d !! id = None /\ d' = set_wiki_pages (<[id:=r]> (wiki_pages d)) d.
Proof. intros [H ->]%constraint_inv. rewrite !andb_true_iff, absent_true in H. naive_solver. Qed.

Lemma insert_wiki_revision_inv id k r d u d' :
  insert_wiki_revision id k r d = inr (u, d') ->
  wiki_revisions d !! (id, k) = None /\ d' = set_wiki_revisions (<[(id, k):=r]> (wiki_revisions d)) d.
Proof. intros [H ->]%constraint_inv. rewrite !andb_true_iff, absent_true in H. naive_solver. Qed.

Lemma upsert_search_inv ref r d u d' :
  upsert_search ref r d = inr (u, d') -> exists sds, d' = set_search_documents sds d.
Proof.
  unfold upsert_search. destruct (_ !! _); [naive_solver|]. intros [_ ->]%constraint_inv. eauto.
Qed.

Lemma insert_task_claim_inv id r d u d' :
  insert_task_claim id r d = inr (u, d') ->
  task_claims d !! id = None /\ map_Forall (fun _ r' => c_request r' <> c_request r) (task_claims d) /\
  d' = set_task_claims (<[id:=r]> (task_claims d)) d.
Proof.
  intros [H ->]%constraint_inv. unfold claim_request_free in H.
  rewrite !andb_true_iff, absent_true, bool_decide_eq_true in H. naive_solver.
Qed.

Lemma insert_current_claim_inv id r d u d' :
  insert_current_claim id r d = inr (u, d') ->
  d' = set_task_current_claims (<[id:=r]> (task_current_claims d)) d.
Proof. by intros [_ ->]%constraint_inv. Qed.

Lemma swap_current_claim_inv id r oc ol d d' :
  swap_current_claim id r oc ol d = inr (1, d') ->
  d' = set_task_current_claims (<[id:=r]> (task_current_claims d)) d.
Proof. unfold swap_current_claim. repeat case_match; naive_solver. Qed.

(** Open the shared programs and every statement they run. *)
Ltac stmt_inv1 :=
  match goal with
  | H : insert_change _ _ _ _ = inr (_, _) |- _ => apply insert_tables_inv_change in H as [? ?]
  | H : insert_activity _ _ _ = inr (_, _) |- _ => apply insert_activity_inv in H as [? ?]
  | H : insert_task_event_row _ _ _ = inr (_, _) |- _ => apply insert_task_event_inv in H as [? ?]
  | H : insert_request _ _ _ = inr (_, _) |- _ => apply insert_request_inv in H as [? ?]
  | H : insert_project _ _ _ = inr (_, _) |- _ => apply insert_project_inv in H as [? ?]
  | H : insert_topic _ _ _ = inr (_, _) |- _ => apply insert_topic_inv in H
  | H : insert_milestone _ _ _ = inr (_, _) |- _ => apply insert_milestone_inv in H as (? & ? & ?)
  | H : insert_task _ _ _ = inr (_, _) |- _ => apply insert_task_inv in H as [? ?]
  | H : insert_wiki_page _ _ _ = inr (_, _) |- _ => apply insert_wiki_page_inv in H as [? ?]
  | H : insert_wiki_revision _ _ _ _ = inr (_, _) |- _ => apply insert_wiki_revision_inv in H as [? ?]
  | H : insert_task_claim _ _ _ = inr (_, _) |- _ => apply insert_task_claim_inv in H as (? & ? & ?)
  | H : insert_current_claim _ _ _ = inr (_, _) |- _ => apply insert_current_claim_inv in H
  | H : upsert_search _ _ _ = inr (_, _) |- _ =>
      let s := fresh "sds" in apply upsert_search_inv in H as [s ?]
  | H : rename_project_topic _ _ _ = inr (_, _) |- _ =>
      let s := fresh "tps" in apply rename_project_topic_inv in H as [s ?]
  | H : delete_task_dependencies _ _ = inr (_, _) |- _ => injection H as H
  | H : delete_current_claim _ _ = inr (_, _) |- _ => injection H as H
  | H : forM_ _ _ _ _ = (inr _, _) |- _ => apply insert_dependencies_inv in H
  | H : validateTaskRelations _ _ _ _ _ _ _ = (inr _, _) |- _ =>
      apply validateTaskRelations_inv in H as (? & ? & ?)
  | H : bump_project _ _ _ = inr (_, _) |- _ =>
      let r := fresh "prow" in apply bump_project_inv in H as (r & ? & ? & ? & ?)
  | H : select _ _ _ = inr _ |- _ => apply select_inv in H
  | w : World DB |- _ => let d := fresh "d" in let n := fresh "n" in destruct w as [d n]; db_simpl
  | u : unit |- _ => destruct u
  end.
Ltac run_inv :=
  unfold insertCoreChange, insertCoreActivity, insertTaskEvent, bumpProjectRevision in *;
  m_inv; repeat stmt_inv1; subst; db_simpl.

(** ** Each body is one step *)

Definition body_step {A} (body : M DB TxFail A) : Prop :=
  forall env w res w1, body env w = (inr res, w1) -> core_step (w_db w) (w_db w1).

Lemma log_step_bump d d' pid row row' ch :
  projects d !! pid = Some row -> p_revision row + 1 <= maxInt64 ->
  projects d' = <[pid:=row']> (projects d) -> p_revision row' = p_revision row + 1 ->
  changes d !! (pid, p_revision row + 1) = None ->
  changes d' = <[(pid, p_revision row + 1):=ch]> (changes d) ->
  stamped d d' pid (p_revision row + 1) ->
  exists pid rev, log_step d d' pid rev /\ stamped d d' pid rev.
Proof.
  intros Hp Hmax Hp' Hr Hc Hc' Hst. exists pid, (p_revision row + 1). split; [|done].
  split; eauto. by rewrite Hp.
Qed.

Lemma log_step_create d d' pid row ch :
  projects d !! pid = None -> projects d' = <[pid:=row]> (projects d) -> p_revision row = 1 ->
  changes d !! (pid, 1) = None -> changes d' = <[(pid, 1):=ch]> (changes d) ->
  stamped d d' pid 1 ->
  exists pid rev, log_step d d' pid rev /\ stamped d d' pid rev.
Proof.
  intros Hp Hp' Hr Hc Hc' Hst. exists pid, 1. split; [|done]. split; eauto. by rewrite Hp.
Qed.

Ltac stamped_tac :=
  intros ? ?; db_simpl; first [by auto | rewrite lookup_insert_Some; intros [[<- <-]|[_ ?]]; by auto].
Ltac log_tac :=
  first [ eapply log_step_create; db_simpl;
          [eassumption|reflexivity|reflexivity|eassumption|reflexivity|stamped_tac]
        | eapply log_step_bump; db_simpl;
          [eassumption|eassumption|rewrite ?insert_insert_eq; reflexivity|reflexivity|eassumption|reflexivity|stamped_tac] ].
Ltac history_tac := constructor; db_simpl; first [done|by apply insert_subseteq].
Ltac step_tac :=
  constructor;
  [try log_tac | try (by apply ts_none) | try (by apply mst_none) | try (by apply ws_none) | try history_tac].

Lemma createProject_step c : body_step (createProject_body c).
Proof. intros env w res w1 H. unfold createProject_body in H. run_inv. step_tac. Qed.

Lemma updateProject_step c : body_step (updateProject_body c).
Proof.
  intros env w res w1 H. unfold updateProject_body in H. run_inv.
  match goal with H : update_project _ _ _ = _ |- _ => apply update_row_inv in H end.
  destruct Hst2 as [(Hn & _)|(r' & Hr' & _ & -> & _)]; db_simpl.
  { by rewrite lookup_insert_eq in Hn. }
  rewrite lookup_insert_eq in Hr'. simplify_eq. step_tac.
Qed.

(** A milestone write that passed the unique index on active milestones. *)
Lemma milestone_step_put d d1 d' id row :
  milestones d1 = milestones d -> milestones d' = <[id:=row]> (milestones d) ->
  (forall old, milestones d !! id = Some old -> ms_project old = ms_project row) ->
  (ms_status row = "active"%string -> active_slot_free d1 id (ms_project row) = true) ->
  milestone_step d d'.
Proof.
  intros H1 Hm Hold Hfree. eapply mst_put; [done|done|]. intros Ha. rewrite <- H1.
  by apply active_slot_free_true, Hfree.
Qed.

Lemma createMilestone_step c : body_step (createMilestone_body c).
Proof.
  intros env w res w1 H. unfold createMilestone_body in H. run_inv. step_tac.
  eapply milestone_step_put; cycle 3; [eassumption|done|done|congruence].
Qed.

Lemma updateMilestone_step c : body_step (updateMilestone_body c).
Proof.
  intros env w res w1 H. unfold updateMilestone_body in H. run_inv.
  match goal with H : update_milestone _ _ _ = _ |- _ => apply update_milestone_inv in H end.
  destruct Hst1 as [[Hn _]|(r' & Hr' & -> & Hfree)]; db_simpl; [congruence|]. simplify_eq. step_tac.
  eapply milestone_step_put; cycle 3; [eassumption|done|done|]. intros old ?. by simplify_eq.
Qed.

Lemma createTask_step c deps : createTask_valid c = true -> body_step (createTask_body c deps).
Proof.
  intros Hv env w res w1 H. unfold createTask_body in H. run_inv. step_tac.
  eapply ts_create; db_simpl; [eassumption|reflexivity|done| |eassumption|reflexivity|done|done].
  unfold createTask_valid in Hv. bool_inv.
  match goal with H : _ || _ = true |- _ => rewrite orb_true_iff, !seqb_true in H; exact H end.
Qed.

Lemma updateTask_step c deps : body_step (updateTask_body c deps).
Proof.
  intros env w res w1 H. unfold updateTask_body in H. run_inv.
  match goal with H : update_task _ _ _ = _ |- _ => apply update_task_inv in H as [[? ?]|(? & ? & ->)] end;
    db_simpl; [congruence|]. simplify_eq. step_tac.
  eapply ts_update; db_simpl; [eassumption|reflexivity|done|done|done|eassumption|by eauto|reflexivity|done|done].
Qed.

Lemma changeState_step c : body_step (changeState_body c).
Proof.
  intros env w res w1 H. unfold changeState_body in H.
  destruct (seqb (cs_State c) "ready" || seqb (cs_State c) "done" || seqb (cs_State c) "cancelled") eqn:Hdel;
    run_inv; apply andb_true_iff in Hguard as [_ Htr];
    (match goal with H : update_task _ _ _ = _ |- _ => apply update_task_inv in H as [[? ?]|(? & ? & ->)] end;
     db_simpl; [congruence|]; simplify_eq; step_tac;
     eapply ts_state; db_simpl; [eassumption|eassumption|reflexivity|done|done|by rewrite Hdel]).
Qed.

(** The page lookup: an existing page at the base revision, or a new one. *)
Lemma appendWiki_page_inv c env w id cur w' :
  appendWiki_page c env w = (inr (id, cur), w') ->
  w_db w' = w_db w /\
  ((exists r, wiki_pages (w_db w) !! id = Some r /\ cur = wp_current r /\
      wp_project r = aw_ProjectID c /\ wp_slug r = aw_Slug c) \/
   cur = 0 /\ forall i r, wiki_pages (w_db w) !! i = Some r ->
     ~ (wp_project r = aw_ProjectID c /\ wp_slug r = aw_Slug c)).
Proof.
  unfold appendWiki_page. intros H. m_inv. rename r into found.
  destruct found as [[]|[i r]]; m_inv; destruct Hq as [Hq|[f ?]]; try done.
  - simplify_eq. split; [congruence|]. right. split; [done|]. by apply wiki_page_by_slug_none.
  - simplify_eq. symmetry in Hq. apply wiki_page_by_slug_inv in Hq as (? & ? & ?).
    split; [done|]. left. eauto.
Qed.

Lemma wiki_step_new d d' id row rr :
  wiki_pages d !! id = None -> wiki_pages d' = <[id:=row]> (wiki_pages d) -> wp_current row = 1 ->
  (forall i r, wiki_pages d !! i = Some r -> ~ (wp_project r = wp_project row /\ wp_slug r = wp_slug row)) ->
  wiki_revisions d !! (id, 1) = None -> wiki_revisions d' = <[(id, 1):=rr]> (wiki_revisions d) ->
  wiki_step d d'.
Proof.
  intros Hn Hp H1 Hfree Hr Hr'. eapply (ws_append d d' id row rr); [done| |congruence..].
  by rewrite Hn.
Qed.

(** A stored page at revision 0 is never extended: its INSERT hits the
    primary key. *)
Lemma appendWiki_step c : body_step (appendWiki_body c).
Proof.
  intros env w res w1 H. unfold appendWiki_body in H. m_inv. destruct r as [id cur].
  apply appendWiki_page_inv in Hrun as [Hw0 Hpage]. rewrite <- Hw0 in *. clear w Hw0. simpl in *.
  destruct (Z.eqb_spec cur 0) as [->|Hcur].
  - run_inv. destruct Hpage as [(r & ? & _)|[_ Hfree]]; [congruence|]. step_tac.
    eapply wiki_step_new; db_simpl; [eassumption|reflexivity|done|done|eassumption|reflexivity].
  - destruct Hpage as [(r & Hr & -> & Hpr & Hsl)|[? _]]; [|done]. run_inv.
    match goal with H : update_wiki_page _ _ _ = _ |- _ =>
      apply update_row_inv in H as [(? & _)|(? & ? & _ & -> & _)] end; db_simpl; [congruence|].
    simplify_eq. step_tac.
    eapply (ws_append _ _ id (wiki_page_revised (aw_Title c) (wp_current r + 1) r)); db_simpl;
      [reflexivity|by rewrite Hr|eassumption|reflexivity].
Qed.

Lemma claim_mode_reclaim state cur t reclaim :
  claim_mode state cur t = Some reclaim -> reclaim = bool_decide (is_Some cur).
Proof. unfold claim_mode. destruct cur; repeat case_match; by intros [= <-]. Qed.

Lemma task_step_claim d d' id row cid session key t lease rev prevrev reclaim :
  tasks d !! id = Some row ->
  claim_mode (t_state row) (task_current_claims d !! id) t = Some reclaim ->
  task_claims d !! cid = None -> map_Forall (fun _ r => c_request r <> key) (task_claims d) ->
  tasks d' = <[id:=task_claimed session rev t row]> (tasks d) ->
  task_dependencies d' = task_dependencies d ->
  task_claims d' =
    <[cid:={| c_task := id; c_session := session; c_request := key; c_claimed := t; c_lease := lease;
              c_revision := prevrev |}]> (task_claims d) ->
  task_current_claims d' = <[id:={| cc_claim := cid; cc_lease := lease; cc_updated := t |}]> (task_current_claims d) ->
  task_step d d'.
Proof.
  intros. by eapply (ts_claim d d' id row cid
    {| c_task := id; c_session := session; c_request := key; c_claimed := t; c_lease := lease; c_revision := prevrev |}).
Qed.

Lemma readCurrentClaim_inv id env w cur w' :
  readCurrentClaim id env w = (inr cur, w') ->
  w_db w' = w_db w /\ cur = task_current_claims (w_db w) !! id.
Proof.
  unfold readCurrentClaim. intros H. m_inv.
  destruct r as [[]|cc]; m_inv; destruct Hq as [Hq|[f ?]]; try done;
    unfold select in Hq; destruct (_ !! _) eqn:E; simplify_eq; split; congruence.
Qed.

Lemma claimWrites_step req key task t cur reclaim env w c w1 :
  tasks (w_db w) !! cl_TaskID req = Some task -> cur = task_current_claims (w_db w) !! cl_TaskID req ->
  claim_mode (t_state task) cur t = Some reclaim ->
  claimWrites req key task t cur reclaim env w = (inr (TxCommit c), w1) -> core_step (w_db w) (w_db w1).
Proof.
  intros Htask -> Hmode H. unfold claimWrites in H.
  destruct reclaim; run_inv;
    try (match goal with H : (_ =? 1) = true |- _ => apply Z.eqb_eq in H; subst end;
         match goal with H : swap_current_claim _ _ _ _ _ = _ |- _ => apply swap_current_claim_inv in H; subst end);
    (match goal with H : update_task _ _ _ = _ |- _ => apply update_task_inv in H as [[? ?]|(? & ? & ->)] end;
     db_simpl; [congruence|]; simplify_eq; step_tac;
     eapply task_step_claim; db_simpl; [eassumption|eassumption|eassumption|eassumption|reflexivity..]).
Qed.

Lemma claimTx_step req key env w c w1 :
  claimTx req key env w = (inr (TxCommit c), w1) -> core_step (w_db w) (w_db w1).
Proof.
  intros H. unfold claimTx in H. m_inv. rename r1 into prior. injection Hst as _ Hst.
  destruct prior as [[]|p]; m_inv; [|by destruct (sameClaim p req); m_inv].
  match goal with H : readCurrentClaim _ _ _ = _ |- _ => apply readCurrentClaim_inv in H as [Hw Hcur] end.
  assert (w_db w5 = w_db w) as Heq by congruence. apply select_inv in Hq0.
  destruct (claim_mode _ _ _) as [reclaim|] eqn:Hmode; m_inv. rewrite <- Heq.
  eapply claimWrites_step; [| |exact Hmode|exact H]; congruence.
Qed.

(** ** [mutate] and the statements it runs *)

(** A write outside the tables of [core_step], append-only where it matters. *)
Definition aux_step (d d' : DB) : Prop :=
  exists sds dcs sts rds,
    d' = set_search_documents sds (set_decisions dcs (set_status_events sts (set_redactions rds d))) /\
    status_events d ⊆ sts /\ redactions d ⊆ rds.

Definition aux_fn (fn : Z -> M DB TxFail unit) : Prop :=
  forall rev env w u w1, fn rev env w = (inr u, w1) -> aux_step (w_db w) (w_db w1).

Lemma bump_project_rows_inv id t d d' :
  bump_project_rows id t d = inr (1, d') ->
  exists r, projects d !! id = Some r /\ p_revision r + 1 <= maxInt64 /\
    d' = set_projects (<[id:=bumped r t]> (projects d)) d.
Proof.
  unfold bump_project_rows. destruct (bump_project id t d) as [[]|[rev d1]] eqn:E; try done.
  intros [= <-]. apply bump_project_inv in E as (r & ? & -> & ? & ->). eauto.
Qed.

Lemma mutateTx_step pid kind ref summary fn env w rev w1 :
  aux_fn fn -> mutateTx pid kind ref summary fn env w = (inr (TxCommit rev), w1) ->
  core_step (w_db w) (w_db w1).
Proof.
  intros Hfn H. unfold mutateTx, mutateTx_in in H. m_inv. bool_inv. subst.
  match goal with H : bump_project_rows _ _ _ = _ |- _ => apply bump_project_rows_inv in H as (r' & Hr' & Hmax & Hd) end.
  match goal with H : fn _ _ _ = _ |- _ => apply Hfn in H as (sds & dcs & sts & rds & Haux & Hs & Hr) end.
  run_inv. rewrite lookup_insert_eq in Hq. simplify_eq. step_tac.
Qed.

Lemma guarantees_mutate pid kind ref summary fn :
  aux_fn fn -> guarantees core_step (mutate pid kind ref summary fn).
Proof.
  intros Hfn. apply guarantees_mapE, guarantees_withTx. intros. right. by eapply mutateTx_step.
Qed.

(** ** The request ledger *)

Lemma core_step_record d d1 d2 key op fp res u :
  core_step d d1 -> recordCoreReplay key op fp res d1 = inr (u, d2) -> core_step d d2.
Proof.
  intros [(pid & rev & [Hr1 Hr2 Hr3] & Hst) Ht Hm Hw Hh] Hrec.
  apply insert_request_inv in Hrec as [Hn ->]. constructor.
  - exists pid, rev. split; [by constructor|done].
  - destruct Ht; [by eapply ts_none|by eapply ts_create|by eapply ts_update|by eapply ts_state|by eapply ts_claim|by eapply ts_import].
  - destruct Hm; [by eapply mst_none|by eapply mst_put].
  - destruct Hw; [by eapply ws_none|by eapply ws_append].
  - destruct Hh. constructor; db_simpl; try done. etrans; [done|]. by apply insert_subseteq.
Qed.

Lemma coreTx_step key op fp body env w r w1 :
  body_step body -> coreTx key op fp body env w = (inr (TxCommit r), w1) -> core_step (w_db w) (w_db w1).
Proof.
  intros Hbody H. unfold coreTx in H. m_inv.
  match goal with H : lockCoreWriter _ _ = _ |- _ => injection H as Hlock end.
  destruct r1 as [e|[p|]]; m_inv.
  match goal with H : body _ _ = _ |- _ => apply Hbody in H end.
  eapply core_step_record; [|done]. congruence.
Qed.

Lemma guarantees_coreWriteFailure e key op fp : guarantees core_step (coreWriteFailure e key op fp).
Proof.
  apply guarantees_bind; [auto with guar|]. intros [?|[?|[?|]]]; auto with guar.
Qed.

Lemma guarantees_coreWrite key op fp body :
  body_step body -> guarantees core_step (coreWrite key op fp body).
Proof.
  intros Hbody. apply guarantees_bind; [auto with guar|]. intros [?|[?|]]; [auto with guar..|].
  apply guarantees_bind.
  - apply guarantees_attempt, guarantees_withTx. intros. right. by eapply coreTx_step.
  - intros [[]|]; auto using guarantees_coreWriteFailure with guar.
Qed.

(** ** Every operation *)

Section OperationsGuarantee.
Context (json_Marshal : Payload -> string) (sha256_hex : string -> string).

Lemma guarantees_CreateCanonicalProject c : guarantees core_step (CreateCanonicalProject json_Marshal sha256_hex c).
Proof. apply guarantees_bind; auto using guarantees_coreWrite, createProject_step with guar. Qed.

Lemma guarantees_UpdateCanonicalProject c : guarantees core_step (UpdateCanonicalProject json_Marshal sha256_hex c).
Proof. apply guarantees_bind; auto using guarantees_coreWrite, updateProject_step with guar. Qed.

Lemma guarantees_CreateMilestone c : guarantees core_step (CreateMilestone json_Marshal sha256_hex c).
Proof. apply guarantees_bind; auto using guarantees_coreWrite, createMilestone_step with guar. Qed.

Lemma guarantees_UpdateMilestone c : guarantees core_step (UpdateMilestone json_Marshal sha256_hex c).
Proof. apply guarantees_bind; auto using guarantees_coreWrite, updateMilestone_step with guar. Qed.

Lemma guarantees_CreateCanonicalTask c : guarantees core_step (CreateCanonicalTask json_Marshal sha256_hex c).
Proof.
  unfold CreateCanonicalTask. destruct (normalizeDependencyIDs _); [|auto with guar].
  destruct (createTask_valid c) eqn:Hv; [|apply guarantees_throw].
  apply guarantees_coreWrite. by apply createTask_step.
Qed.

Lemma guarantees_UpdateCanonicalTask c : guarantees core_step (UpdateCanonicalTask json_Marshal sha256_hex c).
Proof.
  unfold UpdateCanonicalTask. destruct (normalizeDependencyIDs _); [|auto with guar].
  apply guarantees_bind; auto using guarantees_coreWrite, updateTask_step with guar.
Qed.

Lemma guarantees_ChangeCanonicalTaskState c : guarantees core_step (ChangeCanonicalTaskState json_Marshal sha256_hex c).
Proof. apply guarantees_bind; auto using guarantees_coreWrite, changeState_step with guar. Qed.

Lemma guarantees_AppendWikiRevision c : guarantees core_step (AppendWikiRevision json_Marshal sha256_hex c).
Proof. apply guarantees_bind; auto using guarantees_coreWrite, appendWiki_step with guar. Qed.
End OperationsGuarantee.

Lemma guarantees_Claim req : guarantees core_step (Claim req).
Proof.
  apply guarantees_bind; [auto with guar|intros _]. apply guarantees_bind; [auto with guar|].
  intros [[]|p]; [|auto with guar..|destruct (sameClaim p req); auto with guar].
  apply guarantees_bind.
  - apply guarantees_attempt, guarantees_withTx. intros. right. by eapply claimTx_step.
  - intros [[]|]; try auto with guar;
      (apply guarantees_bind; [auto with guar|]; intros [|p]; [|destruct (sameClaim p req)]; auto with guar).
Qed.

(** The three appends of [mutate]. *)
Lemma aux_step_status id r d u d' : insert_status id r d = inr (u, d') -> aux_step d d'.
Proof.
  intros [H ->]%constraint_inv. rewrite !andb_true_iff, absent_true in H. destruct H as [[H _] _].
  exists (search_documents d), (decisions d), (<[id:=r]> (status_events d)), (redactions d).
  split_and!; [by destruct d|by apply insert_subseteq|done].
Qed.

Lemma aux_step_redaction id r d u d' : insert_redaction id r d = inr (u, d') -> aux_step d d'.
Proof.
  intros [H ->]%constraint_inv. rewrite !andb_true_iff, absent_true in H. destruct H as [H _].
  exists (search_documents d), (decisions d), (status_events d), (<[id:=r]> (redactions d)).
  split_and!; [by destruct d|done|by apply insert_subseteq].
Qed.

Lemma guarantees_Status req : guarantees core_step (Status req).
Proof.
  assert (forall key, guarantees core_step
    (if seqb key "" then ret (inl SqlNoRows)
     else attempt (E' := Err) (autocommit (query (statusByRequest key))))) as Hreplay.
  { intros key. destruct (seqb key ""); auto with guar. }
  apply guarantees_bind; [auto with guar|intros _]. apply guarantees_bind; [auto|].
  intros [[]|[p res]]; [|auto with guar..|destruct (sameStatus p req); auto with guar].
  apply guarantees_bind; [auto with guar|intros id]. apply guarantees_bind.
  - apply guarantees_attempt, guarantees_mutate. intros rev env w u w1 H. m_inv.
    match goal with H : insert_status _ _ _ = _ |- _ => apply aux_step_status in H end. congruence.
  - intros [e|rev]; [|auto with guar]. apply guarantees_bind; [auto|].
    intros [|[p res]]; [|destruct (sameStatus p req)]; auto with guar.
Qed.

Lemma guarantees_Redact pid ref reason replacement actor :
  guarantees core_step (Redact pid ref reason replacement actor).
Proof.
  apply guarantees_bind; [auto with guar|intros _]. apply guarantees_bind; [auto with guar|intros id].
  apply guarantees_bind; [|auto with guar]. apply guarantees_mutate. intros rev env w u w1 H. m_inv.
  match goal with H : insert_redaction _ _ _ = _ |- _ => apply aux_step_redaction in H end. congruence.
Qed.

Lemma aux_step_decision sds dcs d : aux_step d (set_search_documents sds (set_decisions dcs d)).
Proof. exists sds, dcs, (status_events d), (redactions d). split_and!; [by destruct d|done..]. Qed.

Lemma guarantees_AddDecision d : guarantees core_step (AddDecision d).
Proof.
  apply guarantees_mutate. intros rev env w u w1 H. m_inv. repeat stmt_inv1.
  match goal with H : insert_decision _ _ _ = _ |- _ => apply constraint_inv in H as [_ ?] end.
  match goal with H : insert_search _ _ _ = _ |- _ => apply constraint_inv in H as [_ ?] end. subst.
  apply aux_step_decision.
Qed.
