(* ===== verification/CoreSafety.v ===== *)
(** * Project Core under arbitrary interleavings

    Any sequence of the twelve operations, run against an environment whose
    other connections also only run these operations, with faults anywhere.
    The invariants of [CoreSpec] hold in every database reached that way, and
    histories, terminal states and revisions are monotone along it. *)

From S2P Require Import Prelude GoText Graph CoreDB ProjectCore Claims CoreSpec CoreRefine.
From stdpp Require Import base gmap strings list sets relations pretty.
From Stdlib Require Import ZArith Lia.

Local Open Scope Z_scope.
Local Open Scope prog_scope.

(** ** Operations as data *)

Inductive CoreOp :=
  | OpCreateProject (c : CreateProjectCommand)
  | OpUpdateProject (c : UpdateProjectCommand)
  | OpCreateMilestone (c : CreateMilestoneCommand)
  | OpUpdateMilestone (c : UpdateMilestoneCommand)
  | OpCreateTask (c : CreateTaskCommand)
  | OpUpdateTask (c : UpdateTaskCommand)
  | OpChangeTaskState (c : ChangeTaskStateCommand)
  | OpAppendWiki (c : AppendWikiRevisionCommand)
  | OpClaim (req : ClaimRequest)
  | OpStatus (req : StatusRequest)
  | OpRedact (projectID ref reason replacement humanActor : string)
  | OpAddDecision (d : DecisionInput).

(** Other connections commit zero or more core writes between our calls. *)
Definition others_run_core (env : Env DB) : Prop :=
  forall n d, rtc core_step d (tk_others (env n) d).

Section Runs.
Context (json_Marshal : Payload -> string) (sha256_hex : string -> string).

Definition run_op (op : CoreOp) : M DB Err unit :=
  match op with
  | OpCreateProject c => CreateCanonicalProject json_Marshal sha256_hex c ;;; ret tt
  | OpUpdateProject c => UpdateCanonicalProject json_Marshal sha256_hex c ;;; ret tt
  | OpCreateMilestone c => CreateMilestone json_Marshal sha256_hex c ;;; ret tt
  | OpUpdateMilestone c => UpdateMilestone json_Marshal sha256_hex c ;;; ret tt
  | OpCreateTask c => CreateCanonicalTask json_Marshal sha256_hex c ;;; ret tt
  | OpUpdateTask c => UpdateCanonicalTask json_Marshal sha256_hex c ;;; ret tt
  | OpChangeTaskState c => ChangeCanonicalTaskState json_Marshal sha256_hex c ;;; ret tt
  | OpAppendWiki c => AppendWikiRevision json_Marshal sha256_hex c ;;; ret tt
  | OpClaim req => Claim req ;;; ret tt
  | OpStatus req => Status req ;;; ret tt
  | OpRedact p ref reason repl actor => Redact p ref reason repl actor ;;; ret tt
  | OpAddDecision d => AddDecision d ;;; ret tt
  end.

(** A session's calls, one after the other, whatever each one returns. *)
Fixpoint run_ops (ops : list CoreOp) : M DB Err unit :=
  match ops with
  | [] => ret tt
  | op :: ops' => attempt (E := Err) (run_op op) ;;; run_ops ops'
  end.

Definition after (ops : list CoreOp) (env : Env DB) (d : DB) : DB :=
  w_db (run_ops ops env (mkWorld d 0)).2.

Lemma guarantees_run_op op : guarantees core_step (run_op op).
Proof.
  destruct op; apply guarantees_bind; try (intros; apply guarantees_ret);
    eauto using guarantees_CreateCanonicalProject, guarantees_UpdateCanonicalProject,
      guarantees_CreateMilestone, guarantees_UpdateMilestone, guarantees_CreateCanonicalTask,
      guarantees_UpdateCanonicalTask, guarantees_ChangeCanonicalTaskState, guarantees_AppendWikiRevision,
      guarantees_Claim, guarantees_Status, guarantees_Redact, guarantees_AddDecision.
Qed.

Lemma guarantees_run_ops ops : guarantees core_step (run_ops ops).
Proof.
  induction ops as [|op ops IH]; [apply guarantees_ret|].
  apply guarantees_bind; [apply guarantees_attempt, guarantees_run_op|done].
Qed.

Lemma sys_core_step env d d' :
  others_run_core env -> rtc (sys core_step env) d d' -> rtc core_step d d'.
Proof.
  intros Hoth. induction 1 as [|d d1 d2 [[n ->]|Hs] _ IH]; [done| |].
  - etrans; [apply Hoth|done].
  - by eapply rtc_l.
Qed.

Lemma after_steps ops env d : others_run_core env -> rtc core_step d (after ops env d).
Proof.
  intros Hoth. unfold after. destruct (run_ops ops env (mkWorld d 0)) as [r w'] eqn:E.
  apply (sys_core_step env); [done|]. by apply (guarantees_run_ops ops env (mkWorld d 0) r w').
Qed.

(** A database the operations can produce from the migrated empty one. *)
Definition reachable (d : DB) : Prop :=
  exists ops env, others_run_core env /\ d = after ops env db_empty.

Lemma steps_inv d d' : rtc core_step d d' -> core_inv d -> core_inv d'.
Proof. induction 1; eauto using core_inv_step. Qed.

Lemma reachable_core_inv d : reachable d -> core_inv d.
Proof.
  intros (ops & env & Hoth & ->). eapply steps_inv; [by apply after_steps|]. apply core_inv_empty.
Qed.

(** C2: the operations refine the abstract step: from any database, any
    sequence of calls, with faults, ambiguous commits and the core writes of
    other connections between any two statements, is a sequence of committed
    [core_step]s, each of which logs one revision and does to the tables only
    what the abstract step allows. *)
Theorem core_operations_refine ops env d : others_run_core env -> rtc core_step d (after ops env d).
Proof. apply after_steps. Qed.
End Runs.

(** ** What holds along any number of steps *)

Lemma history_step_refl d : history_step d d.
Proof. by split. Qed.

Lemma history_step_trans d1 d2 d3 : history_step d1 d2 -> history_step d2 d3 -> history_step d1 d3.
Proof. intros [] []. split; by etrans. Qed.

Lemma steps_history d d' : rtc core_step d d' -> history_step d d'.
Proof.
  induction 1 as [|d d1 d2 Hs _ IH]; [apply history_step_refl|].
  eapply history_step_trans; [apply Hs|done].
Qed.

(** One step keeps a task row or gives it a larger revision. *)
Lemma task_row_step d d' id r :
  core_step d d' -> core_inv d -> tasks d !! id = Some r ->
  exists r', tasks d' !! id = Some r' /\ (r' = r \/ t_revision r < t_revision r').
Proof.
  intros [(pid & rev & [(row' & Hp & Hr) Hrev _] & Hst) Ht _ _ _] Hinv Hid.
  assert (exists r', tasks d' !! id = Some r' /\ t_project r' = t_project r) as (r' & Hr' & Hproj).
  { destruct Ht as [Ht|i row deps Hn Ht|i row row2 deps Hi Ht Hpj|i row to rv t Hi _ Ht|i row cid cl rc rv t Hi _ _ _ _ _ Ht|Ht _ _ _ _];
      [..|exists r; split; [by eapply lookup_weaken|done]]; rewrite Ht; [by eauto|..]; (destruct (decide (i = id)) as [->|]; [|by rewrite lookup_insert_ne; eauto]);
      rewrite ?lookup_insert_eq; simplify_eq; eauto. }
  exists r'. split; [done|]. destruct (Hst _ _ Hr') as [Heq|[Hpj Hrv]]; [left; congruence|].
  right.
  destruct (inv_task_rev _ Hinv _ _ Hid) as (p & Hpid & Hle).
  rewrite <- Hproj, Hpj in Hpid. rewrite Hpid in Hrev. lia.
Qed.

Lemma task_row_steps d d' id r :
  rtc core_step d d' -> core_inv d -> tasks d !! id = Some r ->
  exists r', tasks d' !! id = Some r' /\ (r' = r \/ t_revision r < t_revision r').
Proof.
  intros Hs. revert r. induction Hs as [|d d1 d2 Hs _ IH]; intros r Hinv Hid; [by eauto|].
  destruct (task_row_step _ _ _ _ Hs Hinv Hid) as (r1 & H1 & Hr1).
  destruct (IH r1 (core_inv_step _ _ Hs Hinv) H1) as (r2 & H2 & Hr2).
  exists r2. split; [done|]. destruct Hr1 as [->|?], Hr2 as [->|?]; auto. right. lia.
Qed.

Definition terminal (state : string) : Prop := state = "done"%string \/ state = "cancelled"%string.

Lemma terminal_step d d' id r :
  core_step d d' -> core_inv d -> tasks d !! id = Some r -> terminal (t_state r) ->
  exists r', tasks d' !! id = Some r' /\ t_state r' = t_state r.
Proof.
  intros [_ Ht _ _ _] Hinv Hid Hterm.
  destruct Ht as [Ht|i row deps Hn Ht|i row row2 deps Hi Ht _ Hst|i row to rv t Hi Hal Ht|i row cid cl rc rv t Hi Hmode _ _ _ _ Ht|Ht _ _ _ _];
    [..|exists r; split; [by eapply lookup_weaken|done]]; rewrite Ht; [by eauto|..]; (destruct (decide (i = id)) as [->|]; [|by rewrite lookup_insert_ne; eauto]);
    rewrite ?lookup_insert_eq; simplify_eq; [by eauto|..]; exfalso.
  - apply taskTransitionAllowed_cases in Hal. unfold terminal in *. naive_solver congruence.
  - pose proof (ci_task _ (inv_claims _ Hinv) _ _ Hi) as (_ & _ & Hnone).
    rewrite (Hnone Hterm) in Hmode. unfold claim_mode in Hmode. case_match; [|done]. bool_inv.
    unfold terminal in *. naive_solver congruence.
Qed.

Lemma terminal_steps d d' id r :
  rtc core_step d d' -> core_inv d -> tasks d !! id = Some r -> terminal (t_state r) ->
  exists r', tasks d' !! id = Some r' /\ t_state r' = t_state r.
Proof.
  intros Hs. revert r. induction Hs as [|d d1 d2 Hs _ IH]; intros r Hinv Hid Hterm; [by eauto|].
  destruct (terminal_step _ _ _ _ Hs Hinv Hid Hterm) as (r1 & H1 & Hr1). rewrite <- Hr1 in *.
  destruct (IH r1 (core_inv_step _ _ Hs Hinv) H1 Hterm) as (r2 & ? & ?). eauto.
Qed.

(** ** A concrete run *)

(** A project with an ordered pair of tasks, a claimed one and a finished one,
    a milestone and a wiki page with two revisions, while another connection
    creates a project of its own before the first call. *)
Module Demo.
Definition json (p : Payload) : string :=
  match p with
  | PayloadCreateProject a _ _ _ _ => "project " +:+ a
  | PayloadChangeTaskState a b _ _ => "state " +:+ a +:+ b
  | PayloadCreateTask _ a _ _ _ _ _ _ => "task " +:+ a
  | PayloadAppendWiki _ a _ _ b _ => "wiki " +:+ a +:+ b
  | _ => "other"
  end.
Definition hash (s : string) : string := s.
Definition meta (r : string) : CoreWriteMeta := {| ActorID := "a"; SessionID := "s"; RequestID := r |}.
Definition project (id r : string) : CreateProjectCommand :=
  {| cp_ID := id; cp_Name := "Demo"; cp_Status := ""; cp_Purpose := "p"; cp_Now := ""; cp_Meta := meta r |}.
Definition task (title r : string) (deps : list string) : CreateTaskCommand :=
  {| ct_ProjectID := "demo"; ct_Title := title; ct_Description := ""; ct_Acceptance := ""; ct_State := "";
     ct_MilestoneID := ""; ct_Priority := 0; ct_DependencyIDs := deps; ct_Meta := meta r |}.
Definition state (id st r : string) (base : Z) : ChangeTaskStateCommand :=
  {| cs_ID := id; cs_State := st; cs_Basis := "because"; cs_BaseRevision := base; cs_Meta := meta r |}.
Definition claim (id r : string) : ClaimRequest :=
  {| cl_TaskID := id; cl_ActorID := "a"; cl_SessionID := "s"; cl_RequestID := r; cl_LeaseUntil := Some 5000 |}.
Definition milestone (title r : string) : CreateMilestoneCommand :=
  {| cm_ProjectID := "demo"; cm_Title := title; cm_Status := "active"; cm_TargetDate := "2026-02-28";
     cm_Position := 0; cm_Meta := meta r |}.
Definition wiki (body r : string) (base : Z) : AppendWikiRevisionCommand :=
  {| aw_ProjectID := "demo"; aw_Slug := "home"; aw_Title := "Home"; aw_Summary := "s"; aw_Body := body;
     aw_BaseRevision := base; aw_Meta := meta r |}.

Definition env0 : Env DB := fun n => mkTick None false (1000 + Z.of_nat n) ("o" +:+ pretty n) (fun d => d).
Definition env1 : Env DB := fun n =>
  mkTick None false (1000 + Z.of_nat n) (pretty n)
    (if decide (n = 0%nat) then after json hash [OpCreateProject (project "other" "r0")] env0 else fun d => d).

Lemma env0_others : others_run_core env0.
Proof. intros n d. apply rtc_refl. Defined.
Lemma env1_others : others_run_core env1.
Proof.
  intros n d. unfold env1. simpl. case_decide; [|apply rtc_refl].
  apply (after_steps json hash). apply env0_others.
Defined.

Definition ops : list CoreOp :=
  [OpCreateProject (project "demo" "r1"); OpCreateTask (task "first" "r2" []);
   OpCreateTask (task "second" "r3" ["T-16"]); OpClaim (claim "T-16" "r4");
   OpChangeTaskState (state "T-31" "done" "r5" 3); OpCreateMilestone (milestone "m" "r6");
   OpAppendWiki (wiki "one" "r7" 0); OpAppendWiki (wiki "two" "r8" 1)].

Definition db : DB := after json hash ops env1 db_empty.

Lemma db_reachable : reachable json hash db.
Proof. exists ops, env1. split; [apply env1_others|reflexivity]. Defined.
End Demo.

(** ** Properties *)

Section Safety.
Context (json_Marshal : Payload -> string) (sha256_hex : string -> string).

(** C1: in every database the operations can produce, under faults, ambiguous
    commits and concurrent writers, a project's change log has exactly one
    row for each of its revisions 1..n: no gap, no revision ahead of the
    project. *)
Theorem revisions_gapless d pid row k :
  reachable json_Marshal sha256_hex d -> projects d !! pid = Some row ->
  is_Some (changes d !! (pid, k)) <-> 1 <= k <= p_revision row.
Proof.
  intros Hr Hp. rewrite (inv_log _ (reachable_core_inv _ _ _ Hr) pid k), Hp. naive_solver.
Qed.

(** C3: the task dependency graph is acyclic and never crosses projects. *)
Theorem dependencies_well_formed d :
  reachable json_Marshal sha256_hex d ->
  (forall id, ~ tc (edge (task_dependencies d)) id id) /\
  forall a b, (a, b) ∈ task_dependencies d ->
    exists ra rb, tasks d !! a = Some ra /\ tasks d !! b = Some rb /\ t_project ra = t_project rb.
Proof. intros Hr. destruct (inv_deps _ (reachable_core_inv _ _ _ Hr)). done. Qed.

(** C4: a task in progress is owned by the session of its current claim, whose
    lease is the one that was claimed; a ready task has neither owner nor
    claim, and a finished one has no claim. *)
Theorem claims_consistent d id row :
  reachable json_Marshal sha256_hex d -> tasks d !! id = Some row ->
  (t_state row = "in_progress"%string ->
     exists c cl, task_current_claims d !! id = Some c /\ task_claims d !! cc_claim c = Some cl /\
       c_task cl = id /\ c_lease cl = cc_lease c /\ t_owner row = Some (c_session cl)) /\
  (t_state row = "ready"%string -> task_current_claims d !! id = None /\ t_owner row = None) /\
  (terminal (t_state row) -> task_current_claims d !! id = None).
Proof.
  intros Hr Hid. destruct (inv_claims _ (reachable_core_inv _ _ _ Hr)) as [Htask Hcur _].
  destruct (Htask _ _ Hid) as (H1 & H2 & H3). split_and!; [|done|done].
  intros (c & cl & Hc & Hcl & Ho)%H2. exists c, cl.
  destruct (Hcur _ _ Hc) as [_ (cl' & Hcl' & ? & ?)]. by simplify_eq.
Qed.

(** A project has at most one active milestone; each wiki page keeps
    exactly its revisions 1..current, and a slug names one page of a project. *)
Theorem milestone_and_wiki_unique d :
  reachable json_Marshal sha256_hex d ->
  (forall i j ri rj, milestones d !! i = Some ri -> milestones d !! j = Some rj ->
     ms_status ri = "active"%string -> ms_status rj = "active"%string ->
     ms_project ri = ms_project rj -> i = j) /\
  (forall id page k, wiki_pages d !! id = Some page ->
     is_Some (wiki_revisions d !! (id, k)) <-> 1 <= k <= wp_current page) /\
  (forall i j ri rj, wiki_pages d !! i = Some ri -> wiki_pages d !! j = Some rj ->
     wp_project ri = wp_project rj -> wp_slug ri = wp_slug rj -> i = j).
Proof.
  intros Hr. destruct (reachable_core_inv _ _ _ Hr) as [_ _ _ _ _ Hm [Hrev _ Hslug]].
  split_and!; [done| |done]. intros id page k Hp. rewrite Hrev, Hp. naive_solver.
Qed.

(** C5: a task's revision identifies its content: whatever runs later, the row
    is the same or carries a larger revision, so a base revision that still
    matches proves that nothing was overwritten in between. *)
Theorem revision_identifies_task d ops env id r :
  reachable json_Marshal sha256_hex d -> others_run_core env -> tasks d !! id = Some r ->
  exists r', tasks (after json_Marshal sha256_hex ops env d) !! id = Some r' /\
    t_revision r <= t_revision r' /\ (t_revision r' = t_revision r -> r' = r).
Proof.
  intros Hr Hoth Hid.
  destruct (task_row_steps d (after json_Marshal sha256_hex ops env d) id r)
    as (r' & Hr' & [->|Hlt]); [by apply after_steps|by eapply reachable_core_inv|done|..];
    eexists; (split_and!; [done|lia|]); [done|lia].
Qed.

(** C6: a task that is done or cancelled stays so for ever, whatever runs. *)
Theorem terminal_states_final d ops env id r :
  reachable json_Marshal sha256_hex d -> others_run_core env -> tasks d !! id = Some r ->
  terminal (t_state r) ->
  exists r', tasks (after json_Marshal sha256_hex ops env d) !! id = Some r' /\ t_state r' = t_state r.
Proof.
  intros Hr Hoth Hid Ht. eapply terminal_steps; [by apply after_steps|by eapply reachable_core_inv|done|done].
Qed.

(** The change log, task events, claims, wiki revisions, activity, request
    ledger, status events and redactions are append-only: no operation, no
    fault and no concurrent writer changes or removes a row. *)
Theorem histories_append_only d ops env :
  others_run_core env ->
  let d' := after json_Marshal sha256_hex ops env d in
  changes d ⊆ changes d' /\ task_events d ⊆ task_events d' /\ task_claims d ⊆ task_claims d' /\
  wiki_revisions d ⊆ wiki_revisions d' /\ activity_events d ⊆ activity_events d' /\
  project_core_requests d ⊆ project_core_requests d' /\ status_events d ⊆ status_events d' /\
  redactions d ⊆ redactions d'.
Proof.
  intros Hoth d'. destruct (steps_history d d') as [? ? ? ? ? ? ? ?]; [by apply after_steps|done].
Qed.
End Safety.

(** ** Witnesses *)

Lemma core_operations_refine_witness :
  exists ops env, rtc core_step db_empty (after Demo.json Demo.hash ops env db_empty) /\
    after Demo.json Demo.hash ops env db_empty = Demo.db.
Proof.
  destruct Demo.db_reachable as (ops & env & Hoth & Hdb). exists ops, env.
  split; [by apply (core_operations_refine Demo.json Demo.hash)|done].
Defined.

Lemma revisions_gapless_witness :
  exists row, projects Demo.db !! "demo"%string = Some row /\ p_revision row = 8 /\
    (is_Some (changes Demo.db !! ("demo"%string, 8)) <-> 1 <= 8 <= p_revision row).
Proof.
  eexists. split; [vm_compute; reflexivity|]. split; [reflexivity|].
  apply (revisions_gapless Demo.json Demo.hash); [apply Demo.db_reachable|vm_compute; reflexivity].
Defined.

Lemma dependencies_well_formed_witness :
  ("T-31", "T-16")%string ∈ task_dependencies Demo.db /\
  ~ tc (edge (task_dependencies Demo.db)) "T-16"%string "T-16"%string.
Proof.
  split; [apply (bool_decide_unpack _); vm_compute; exact I|].
  apply (dependencies_well_formed Demo.json Demo.hash Demo.db Demo.db_reachable).
Defined.

Lemma claims_consistent_witness :
  exists row c cl, tasks Demo.db !! "T-16"%string = Some row /\
    task_current_claims Demo.db !! "T-16"%string = Some c /\
    task_claims Demo.db !! cc_claim c = Some cl /\ t_owner row = Some (c_session cl).
Proof.
  assert (exists row, tasks Demo.db !! "T-16"%string = Some row /\ t_state row = "in_progress"%string)
    as (row & Hrow & Hst).
  { eexists. split; [vm_compute; reflexivity|reflexivity]. }
  destruct (claims_consistent Demo.json Demo.hash Demo.db "T-16" row Demo.db_reachable Hrow) as [H _].
  destruct (H Hst) as (c & cl & ? & ? & ? & ? & ?). exists row, c, cl. auto.
Defined.

Lemma milestone_and_wiki_unique_witness :
  exists id page, wiki_pages Demo.db !! id = Some page /\ wp_current page = 2 /\
    (is_Some (wiki_revisions Demo.db !! (id, 1)) <-> 1 <= 1 <= wp_current page).
Proof.
  assert (exists id page, wiki_pages Demo.db !! id = Some page /\ wp_current page = 2)
    as (id & page & Hp & Hc).
  { exists "W-96"%string. eexists. split; [vm_compute; reflexivity|reflexivity]. }
  exists id, page. split; [done|]. split; [done|].
  by apply (milestone_and_wiki_unique Demo.json Demo.hash Demo.db Demo.db_reachable).
Defined.

Lemma revision_identifies_task_witness :
  exists r r', tasks Demo.db !! "T-31"%string = Some r /\
    tasks (after Demo.json Demo.hash [OpClaim (Demo.claim "T-31" "r9")] Demo.env0 Demo.db) !! "T-31"%string = Some r' /\
    (t_revision r' = t_revision r -> r' = r).
Proof.
  assert (exists r, tasks Demo.db !! "T-31"%string = Some r) as [r Hr].
  { eexists. vm_compute. reflexivity. }
  destruct (revision_identifies_task Demo.json Demo.hash Demo.db [OpClaim (Demo.claim "T-31" "r9")] Demo.env0
    "T-31" r Demo.db_reachable Demo.env0_others Hr) as (r' & Hr' & _ & Heq).
  exists r, r'. exact (conj Hr (conj Hr' Heq)).
Defined.

Lemma terminal_states_final_witness :
  exists r r', tasks Demo.db !! "T-31"%string = Some r /\ t_state r = "done"%string /\
    tasks (after Demo.json Demo.hash [OpChangeTaskState (Demo.state "T-31" "ready" "r9" 5)] Demo.env0 Demo.db)
      !! "T-31"%string = Some r' /\ t_state r' = t_state r.
Proof.
  assert (exists r, tasks Demo.db !! "T-31"%string = Some r /\ t_state r = "done"%string) as (r & Hr & Hst).
  { eexists. split; [vm_compute; reflexivity|reflexivity]. }
  destruct (terminal_states_final Demo.json Demo.hash Demo.db
    [OpChangeTaskState (Demo.state "T-31" "ready" "r9" 5)] Demo.env0 "T-31" r
    Demo.db_reachable Demo.env0_others Hr (or_introl Hst)) as (r' & Hr' & Heq).
  exists r, r'. exact (conj Hr (conj Hst (conj Hr' Heq))).
Defined.

Lemma histories_append_only_witness :
  wiki_revisions Demo.db ⊆
    wiki_revisions (after Demo.json Demo.hash [OpAppendWiki (Demo.wiki "three" "r9" 2)] Demo.env0 Demo.db).
Proof.
  destruct (histories_append_only Demo.json Demo.hash Demo.db [OpAppendWiki (Demo.wiki "three" "r9" 2)] Demo.env0
    Demo.env0_others) as (_ & _ & _ & H & _).
  exact H.
Defined.
