(* ===== verification/CoreLedger.v ===== *)
(** * Exactly-once requests and atomic writes

    The request ledger of [project_core_requests] and the unique request keys
    of [task_claims]: a request that succeeded is answered from its record
    ever after, a key cannot be reused for something else, and a request that
    failed left no trace, an ambiguous COMMIT included. *)

From S2P Require Import Prelude GoText Graph CoreDB ProjectCore Claims CoreSpec CoreRefine CoreSafety.
From stdpp Require Import base gmap strings list sets relations.
From Stdlib Require Import ZArith Lia.

Local Open Scope Z_scope.
Local Open Scope prog_scope.

(** ** The eight ledger operations, uniformly *)

Inductive CoreCmd :=
  | CmdCreateProject (c : CreateProjectCommand)
  | CmdUpdateProject (c : UpdateProjectCommand)
  | CmdCreateMilestone (c : CreateMilestoneCommand)
  | CmdUpdateMilestone (c : UpdateMilestoneCommand)
  | CmdCreateTask (c : CreateTaskCommand)
  | CmdUpdateTask (c : UpdateTaskCommand)
  | CmdChangeTaskState (c : ChangeTaskStateCommand)
  | CmdAppendWiki (c : AppendWikiRevisionCommand).

Definition cmd_meta (c : CoreCmd) : CoreWriteMeta :=
  match c with
  | CmdCreateProject c => cp_Meta c | CmdUpdateProject c => up_Meta c
  | CmdCreateMilestone c => cm_Meta c | CmdUpdateMilestone c => um_Meta c
  | CmdCreateTask c => ct_Meta c | CmdUpdateTask c => ut_Meta c
  | CmdChangeTaskState c => cs_Meta c | CmdAppendWiki c => aw_Meta c
  end.

Definition cmd_key (c : CoreCmd) : string := coreRequestKey (cmd_meta c).

Definition cmd_operation (c : CoreCmd) : string :=
  match c with
  | CmdCreateProject _ => "project.create" | CmdUpdateProject _ => "project.update"
  | CmdCreateMilestone _ => "milestone.create" | CmdUpdateMilestone _ => "milestone.update"
  | CmdCreateTask _ => "task.create" | CmdUpdateTask _ => "task.update"
  | CmdChangeTaskState _ => "task.state" | CmdAppendWiki _ => "wiki.append"
  end.

(** The command passes the guards before the ledger is read. *)
Definition cmd_valid (c : CoreCmd) : bool :=
  match c with
  | CmdCreateProject c => createProject_valid c | CmdUpdateProject c => updateProject_valid c
  | CmdCreateMilestone c => createMilestone_valid c | CmdUpdateMilestone c => updateMilestone_valid c
  | CmdCreateTask c =>
      bool_decide (is_Some (normalizeDependencyIDs (ct_DependencyIDs c))) && createTask_valid c
  | CmdUpdateTask c =>
      bool_decide (is_Some (normalizeDependencyIDs (ut_DependencyIDs c))) && updateTask_valid c
  | CmdChangeTaskState c => changeState_valid c | CmdAppendWiki c => appendWiki_valid c
  end.

Definition cmd_dependencies (l : list string) : list string := default [] (normalizeDependencyIDs l).

Definition cmd_payload (c : CoreCmd) : Payload :=
  match c with
  | CmdCreateProject c =>
      PayloadCreateProject (cp_ID c) (cp_Name c) (default_to (cp_Status c) "active") (cp_Purpose c) (cp_Now c)
  | CmdUpdateProject c =>
      PayloadUpdateProject (up_ID c) (up_Name c) (up_Status c) (up_Purpose c) (up_Now c) (up_BaseRevision c)
  | CmdCreateMilestone c =>
      PayloadCreateMilestone (cm_ProjectID c) (cm_Title c) (cm_Status c) (cm_TargetDate c) (cm_Position c)
  | CmdUpdateMilestone c =>
      PayloadUpdateMilestone (um_ID c) (um_Title c) (um_Status c) (um_TargetDate c) (um_Position c) (um_BaseRevision c)
  | CmdCreateTask c =>
      PayloadCreateTask (ct_ProjectID c) (ct_Title c) (ct_Description c) (ct_Acceptance c)
        (default_to (ct_State c) "ready") (ct_MilestoneID c) (ct_Priority c) (cmd_dependencies (ct_DependencyIDs c))
  | CmdUpdateTask c =>
      PayloadUpdateTask (ut_ID c) (ut_Title c) (ut_Description c) (ut_Acceptance c) (ut_MilestoneID c)
        (ut_Priority c) (cmd_dependencies (ut_DependencyIDs c)) (ut_BaseRevision c)
  | CmdChangeTaskState c => PayloadChangeTaskState (cs_ID c) (cs_State c) (cs_Basis c) (cs_BaseRevision c)
  | CmdAppendWiki c =>
      PayloadAppendWiki (aw_ProjectID c) (aw_Slug c) (aw_Title c) (aw_Summary c) (aw_Body c) (aw_BaseRevision c)
  end.

Definition cmd_body (c : CoreCmd) : M DB TxFail coreResult :=
  match c with
  | CmdCreateProject c => createProject_body c | CmdUpdateProject c => updateProject_body c
  | CmdCreateMilestone c => createMilestone_body c | CmdUpdateMilestone c => updateMilestone_body c
  | CmdCreateTask c => createTask_body c (cmd_dependencies (ct_DependencyIDs c))
  | CmdUpdateTask c => updateTask_body c (cmd_dependencies (ut_DependencyIDs c))
  | CmdChangeTaskState c => changeState_body c | CmdAppendWiki c => appendWiki_body c
  end.

Section Commands.
Context (json_Marshal : Payload -> string) (sha256_hex : string -> string).

Definition run_cmd (c : CoreCmd) : M DB Err WriteResult :=
  match c with
  | CmdCreateProject c => CreateCanonicalProject json_Marshal sha256_hex c
  | CmdUpdateProject c => UpdateCanonicalProject json_Marshal sha256_hex c
  | CmdCreateMilestone c => CreateMilestone json_Marshal sha256_hex c
  | CmdUpdateMilestone c => UpdateMilestone json_Marshal sha256_hex c
  | CmdCreateTask c => CreateCanonicalTask json_Marshal sha256_hex c
  | CmdUpdateTask c => UpdateCanonicalTask json_Marshal sha256_hex c
  | CmdChangeTaskState c => ChangeCanonicalTaskState json_Marshal sha256_hex c
  | CmdAppendWiki c => AppendWikiRevision json_Marshal sha256_hex c
  end.

Definition cmd_fingerprint (c : CoreCmd) : string :=
  coreFingerprint json_Marshal sha256_hex (cmd_payload c).

(** Each operation is its guard, then the shared protocol on its body. *)
Lemma run_cmd_eq c env w :
  run_cmd c env w =
    if cmd_valid c then coreWrite (cmd_key c) (cmd_operation c) (cmd_fingerprint c) (cmd_body c) env w
    else (inl ErrInvalid, w).
Proof.
  destruct c as [c|c|c|c|c|c|c|c]; simpl;
    try (unfold CreateCanonicalProject, UpdateCanonicalProject, CreateMilestone, UpdateMilestone,
           ChangeCanonicalTaskState, AppendWikiRevision, bind, require;
         by destruct (_ : bool)).
  all: unfold CreateCanonicalTask, UpdateCanonicalTask, cmd_fingerprint, cmd_payload, cmd_body, cmd_dependencies.
  all: destruct (normalizeDependencyIDs _); simpl; [|done].
  all: unfold bind, require; by destruct (_ : bool).
Qed.
End Commands.

(** ** The protocol *)

Definition ledger_answers (d : DB) (key operation fp : string) (res : WriteResult) : Prop :=
  readCoreReplay key operation fp d = inr (inr (Some res)).

(** A record stays the answer in any database that keeps the ledger. *)
Lemma ledger_answers_mono d d' key op fp res :
  project_core_requests d ⊆ project_core_requests d' ->
  ledger_answers d key op fp res -> ledger_answers d' key op fp res.
Proof.
  unfold ledger_answers, readCoreReplay. intros Hsub.
  destruct (project_core_requests d !! key) eqn:E; [|done]. by rewrite (lookup_weaken _ _ _ _ E Hsub).
Qed.

Lemma ledger_answers_recorded key op fp cr d u d' :
  recordCoreReplay key op fp cr d = inr (u, d') ->
  ledger_answers d' key op fp {| ID := cr_id cr; Revision := cr_revision cr |}.
Proof.
  intros [_ ->]%insert_request_inv. unfold ledger_answers, readCoreReplay. simpl.
  by rewrite lookup_insert_eq; simpl; rewrite !seqb_refl.
Qed.

(** A committed transaction left its record, a rolled back one found it. *)
Lemma coreTx_recorded key op fp body env w out w1 :
  coreTx key op fp body env w = (inr out, w1) ->
  match out with
  | TxCommit r => ledger_answers (w_db w1) key op fp r
  | TxRollback r => ledger_answers (w_db w) key op fp r
  end.
Proof.
  intros H. unfold coreTx in H. m_inv.
  match goal with H : lockCoreWriter _ _ = _ |- _ => injection H as Hlock end.
  destruct r0 as [e|[p|]]; m_inv.
  - unfold ledger_answers. congruence.
  - by eapply ledger_answers_recorded.
Qed.

Lemma autocommit_query_inr_inv {A} (q : DB -> SqlErr + A) env w a w' :
  autocommit (query q) env w = (inr a, w') -> q (w_db w') = inr a.
Proof.
  unfold autocommit. intros H. m_inv. congruence.
Qed.

Lemma coreWriteFailure_recorded e key op fp env w res w' :
  coreWriteFailure e key op fp env w = (inr res, w') -> ledger_answers (w_db w') key op fp res.
Proof.
  unfold coreWriteFailure. intros H. m_inv. apply attempt_inv in Hrun.
  destruct r as [?|[?|[?|]]]; m_inv. by apply autocommit_query_inr_inv in Hrun.
Qed.

(** Whatever way a write succeeds, the ledger holds its answer. *)
Lemma coreWrite_recorded key op fp body env w res w' :
  coreWrite key op fp body env w = (inr res, w') -> ledger_answers (w_db w') key op fp res.
Proof.
  intros H. unfold coreWrite in H. m_inv1. rename Hrun into Hread. apply mapE_inr_inv, autocommit_query_inr_inv in Hread.
  destruct r as [e|[p|]]; m_inv; [done|].
  match goal with H : attempt _ _ _ = _ |- _ => apply attempt_inv in H end.
  destruct r as [[e|e|e|e]|r]; m_inv; [by eapply coreWriteFailure_recorded..|].
  apply withTx_inr_inv in Hrun as (out & w2 & Hbody & Hout). apply coreTx_recorded in Hbody.
  destruct out; destruct Hout as [-> ->]; done.
Qed.

(** ** Failures *)

(** At most one failing call. *)
Definition one_fault (env : Env DB) : Prop :=
  forall m n, is_Some (tk_fault (env m)) -> is_Some (tk_fault (env n)) -> m = n.

(** A failed transaction changed nothing, or its COMMIT reported an error after
    becoming durable. *)
Lemma withTx_inl_inv {A} (body : M DB TxFail (TxOut A)) env w e w' :
  alone env -> withTx body env w = (inl e, w') ->
  w_db w' = w_db w \/
  exists f a w1, e = FCommit (ErrSql (SqlFault f)) /\
    body env (mkWorld (w_db w) (S (w_tick w))) = (inr (TxCommit a), w1) /\
    w_db w' = w_db w1 /\ w_tick w' = S (w_tick w1) /\ tk_fault (env (w_tick w1)) = Some f /\
    tk_durable (env (w_tick w1)) = true.
Proof.
  intros Halone. unfold withTx. rewrite !Halone.
  destruct (tk_fault (env (w_tick w))); [intros [= <- <-]; by left|].
  destruct (body env _) as [[e1|[b|b]] w1] eqn:Hrun; [intros [= <- <-]; by left| |done].
  destruct (tk_fault (env (w_tick w1))) as [f|] eqn:Hf; [|done]. intros [= <- <-].
  destruct (tk_durable _) eqn:Hd; [|by left]. right. exists f, b, w1. done.
Qed.

Lemma autocommit_query_run {A} (q : DB -> SqlErr + A) env w :
  alone env ->
  autocommit (query q) env w =
    (match tk_fault (env (w_tick w)) with Some f => inl (SqlFault f) | None => q (w_db w) end,
     mkWorld (w_db w) (S (w_tick w))).
Proof.
  intros Halone. unfold autocommit, exec, query. simpl. rewrite Halone.
  destruct (tk_fault _); [done|]. by destruct (q (w_db w)).
Qed.

(** The error path reads the ledger again and changes nothing. *)
Lemma coreWriteFailure_run err key op fp env w :
  alone env ->
  coreWriteFailure err key op fp env w =
    (match tk_fault (env (w_tick w)), readCoreReplay key op fp (w_db w) with
     | None, inr (inr (Some r)) => inr r
     | _, _ => inl (mapErr err)
     end, mkWorld (w_db w) (S (w_tick w))).
Proof.
  intros Halone. unfold coreWriteFailure, bind, attempt. rewrite autocommit_query_run by done.
  destruct (tk_fault _); [done|]. by destruct (readCoreReplay _ _ _ _) as [?|[?|[?|]]].
Qed.

(** The one way a write that reports an error is in the database: COMMIT became
    durable and failed all the same, and so did the next call, the look into the
    ledger that would have told.  The ledger holds the answer. *)
Definition unheard_commit (env : Env DB) (key op fp : string) (w' : World DB) : Prop :=
  exists n f g res, w_tick w' = S (S n) /\
    tk_fault (env n) = Some f /\ tk_durable (env n) = true /\ tk_fault (env (S n)) = Some g /\
    ledger_answers (w_db w') key op fp res.

Lemma coreWrite_failed key op fp body env w e w' :
  alone env -> coreWrite key op fp body env w = (inl e, w') ->
  w_db w' = w_db w \/ unheard_commit env key op fp w'.
Proof.
  intros Halone. unfold coreWrite, bind, mapE. rewrite autocommit_query_run by done.
  destruct (tk_fault (env (w_tick w))); [intros [= <- <-]; by left|].
  destruct (readCoreReplay _ _ _ _) as [?|[?|[?|]]]; [(intros [= <- <-]; by left)..|].
  unfold attempt. destruct (withTx _ env _) as [out w1] eqn:Htx.
  destruct out as [f|r]; [|done].
  destruct (withTx_inl_inv _ _ _ _ _ Halone Htx) as [Hsame|(fl & a & w2 & -> & Hbody & Hdb & Htick & Hf & Hd)].
  - simpl in Hsame. destruct f; unfold throw; rewrite ?coreWriteFailure_run by done;
      repeat case_match; intros ?; simplify_eq; by left.
  - rewrite coreWriteFailure_run by done. apply coreTx_recorded in Hbody.
    destruct (tk_fault (env (w_tick w1))) as [g|] eqn:Hf1; [|by rewrite Hdb, Hbody].
    intros [= <- <-]. right. exists (w_tick w2), fl, g, a. simpl. rewrite <-Htick, Hdb. done.
Qed.

Lemma one_fault_heard env key op fp w' : one_fault env -> ~ unheard_commit env key op fp w'.
Proof. intros Hone (n & f & g & _ & _ & Hf & _ & Hg & _). assert (n = S n); [apply Hone; eauto|lia]. Qed.

Lemma coreWrite_replay key op fp body env d n res :
  quiet env -> ledger_answers d key op fp res ->
  coreWrite key op fp body env (mkWorld d n) = (inr res, mkWorld d (S n)).
Proof.
  intros Hq Hans. unfold coreWrite, bind, mapE.
  rewrite autocommit_query_run by (intros ? ?; apply Hq). simpl.
  destruct (Hq n) as [-> _]. by rewrite Hans.
Qed.

(** ** Stale base revisions *)

(** The revision the command was based on, and the one it finds. *)
Definition cmd_base (c : CoreCmd) : option Z :=
  match c with
  | CmdUpdateProject c => Some (up_BaseRevision c) | CmdUpdateMilestone c => Some (um_BaseRevision c)
  | CmdUpdateTask c => Some (ut_BaseRevision c) | CmdChangeTaskState c => Some (cs_BaseRevision c)
  | CmdAppendWiki c => Some (aw_BaseRevision c) | _ => None
  end.

Definition cmd_current (c : CoreCmd) (d : DB) : option Z :=
  match c with
  | CmdUpdateProject c => p_revision <$> projects d !! up_ID c
  | CmdUpdateMilestone c => ms_revision <$> milestones d !! um_ID c
  | CmdUpdateTask c => t_revision <$> tasks d !! ut_ID c
  | CmdChangeTaskState c => t_revision <$> tasks d !! cs_ID c
  | CmdAppendWiki c =>
      Some match wiki_page_by_slug (aw_ProjectID c) (aw_Slug c) d with inr (_, p) => wp_current p | inl _ => 0 end
  | _ => None
  end.

Lemma select_run {A} `{Countable K} (tbl : DB -> gmap K A) k env w :
  quiet env ->
  exec (query (select tbl k)) env w =
    (match tbl (w_db w) !! k with Some r => inr r | None => inl SqlNoRows end, mkWorld (w_db w) (S (w_tick w))).
Proof.
  intros Hq. unfold exec, query, select. destruct (Hq (w_tick w)) as [-> _]. by destruct (_ !! _).
Qed.

Lemma stale_body c env w r b :
  quiet env -> cmd_base c = Some b -> cmd_current c (w_db w) = Some r -> r <> b ->
  exists w', cmd_body c env w = (inl (FBody ErrConflict), w').
Proof.
  intros Hq Hb Hr Hne.
  destruct c as [c|c|c|c|c|c|c|c]; simpl in *; try done; simplify_eq.
  1-4: unfold updateProject_body, updateMilestone_body, updateTask_body, changeState_body, mapped, mapE, bind;
    rewrite select_run by done; apply fmap_Some in Hr as (row & -> & ->);
    unfold require; rewrite (proj2 (Z.eqb_neq _ _) Hne); simpl; unfold throw; by eauto.
  unfold appendWiki_body, appendWiki_page, bind, attempt, exec, query.
  destruct (Hq (w_tick w)) as [-> _].
  destruct (wiki_page_by_slug _ _ _) as [err|[id page]] eqn:Hpage.
  - unfold wiki_page_by_slug in Hpage. case_match; simplify_eq. unfold require.
    destruct (Z.eqb_spec (aw_BaseRevision c) 0); [congruence|]. unfold throw. by eauto.
  - unfold require. rewrite (proj2 (Z.eqb_neq _ _) Hne). unfold throw. by eauto.
Qed.

Lemma coreTx_fails key op fp body env d n e :
  quiet env -> project_core_requests d !! key = None ->
  (forall k, exists w', body env (mkWorld d k) = (inl e, w')) ->
  exists w', coreTx key op fp body env (mkWorld d n) = (inl e, w').
Proof.
  intros Hq Hnone Hbody. unfold coreTx, bind, viaReplay, plain, mapE, exec, query, readCoreReplay, lockCoreWriter.
  simpl. destruct (Hq n) as [-> _]. simpl. destruct (Hq (S n)) as [-> _]. rewrite Hnone. simpl.
  destruct (Hbody (S (S n))) as [w' ->]. eauto.
Qed.

Lemma coreWrite_body_fails key op fp body env w e :
  quiet env -> project_core_requests (w_db w) !! key = None ->
  (forall n, exists w', body env (mkWorld (w_db w) n) = (inl (FBody e), w')) ->
  exists n, coreWrite key op fp body env w = (inl e, mkWorld (w_db w) n).
Proof.
  intros Hq Hnone Hbody. unfold coreWrite, bind, mapE.
  rewrite autocommit_query_run by (intros ? ?; apply Hq). destruct (Hq (w_tick w)) as [-> _].
  unfold readCoreReplay at 1. rewrite Hnone. unfold attempt, withTx. simpl.
  destruct (Hq (S (w_tick w))) as [-> Ho]. rewrite Ho.
  destruct (coreTx_fails key op fp body env (w_db w) (S (S (w_tick w))) (FBody e) Hq Hnone Hbody) as [w2 ->].
  unfold throw. by eexists.
Qed.

(** ** The same for claims *)

Lemma claim_row_by_request_found d key i r :
  task_claims d !! i = Some r -> c_request r = key ->
  (forall j rj, task_claims d !! j = Some rj -> c_request rj = key -> j = i) ->
  claim_row_by_request key d = inr (i, r).
Proof.
  intros Hi Hr Huniq. unfold claim_row_by_request.
  destruct (filter _ _) as [|[j rj] l] eqn:E.
  - assert ((i, r) ∈ filter (fun e : string * claim_row => c_request e.2 = key) (map_to_list (task_claims d))) as Hin.
    { apply list_elem_of_filter. split; [done|]. by apply elem_of_map_to_list. }
    rewrite E in Hin. by apply elem_of_nil in Hin.
  - assert ((j, rj) ∈ filter (fun e : string * claim_row => c_request e.2 = key) (map_to_list (task_claims d))) as Hin.
    { rewrite E. by left. }
    apply list_elem_of_filter in Hin as [Hk Hj%elem_of_map_to_list]. simpl in Hk.
    specialize (Huniq _ _ Hj Hk) as ->. congruence.
Qed.

Lemma claim_row_by_request_inv d key i r :
  claim_row_by_request key d = inr (i, r) -> task_claims d !! i = Some r /\ c_request r = key.
Proof.
  unfold claim_row_by_request. destruct (filter _ _) as [|e l] eqn:E; [done|]. intros [= ->].
  assert ((i, r) ∈ filter (fun e : string * claim_row => c_request e.2 = key) (map_to_list (task_claims d))) as Hin.
  { rewrite E. by left. }
  apply list_elem_of_filter in Hin as [Hk Hj%elem_of_map_to_list]. done.
Qed.

(** The claim recorded for a request, as its answer. *)
Definition claim_answers (d : DB) (req : ClaimRequest) (res : ClaimResult) : Prop :=
  claimByRequest (requestStorageKey (cl_ActorID req) (cl_SessionID req) (cl_RequestID req)) (cl_RequestID req) d
    = inr res /\ sameClaim res req = true.

Lemma claim_answers_mono d d' req res :
  task_claims d ⊆ task_claims d' -> claim_inv d' -> claim_answers d req res -> claim_answers d' req res.
Proof.
  intros Hsub Hinv [Hby Hsame]. split; [|done]. unfold claimByRequest in *.
  destruct (claim_row_by_request _ d) as [|[i r]] eqn:E; [done|].
  apply claim_row_by_request_inv in E as [Hi Hr]. apply (lookup_weaken _ _ _ _ Hi) in Hsub.
  rewrite (claim_row_by_request_found d' _ i r); [done..|].
  intros j rj Hj Hrj. apply (ci_request _ Hinv _ _ _ _ Hj Hsub). congruence.
Qed.

Lemma sameClaim_requested req id rev t :
  sameClaim {| clr_ID := id; clr_TaskID := cl_TaskID req; clr_SessionID := cl_SessionID req;
       clr_RequestID := cl_RequestID req; clr_Revision := rev; clr_ClaimedAt := t;
       clr_LeaseUntil := cl_LeaseUntil req |} req = true.
Proof. unfold sameClaim, sameLease. simpl. by rewrite !seqb_refl, bool_decide_eq_true_2. Qed.

Lemma claim_answers_inserted d d' req id t rev :
  let key := requestStorageKey (cl_ActorID req) (cl_SessionID req) (cl_RequestID req) in
  map_Forall (fun _ r => c_request r <> key) (task_claims d) ->
  task_claims d' = <[id:={| c_task := cl_TaskID req; c_session := cl_SessionID req; c_request := key;
                            c_claimed := t; c_lease := cl_LeaseUntil req; c_revision := rev |}]> (task_claims d) ->
  claim_answers d' req
    {| clr_ID := id; clr_TaskID := cl_TaskID req; clr_SessionID := cl_SessionID req;
       clr_RequestID := cl_RequestID req; clr_Revision := rev; clr_ClaimedAt := t;
       clr_LeaseUntil := cl_LeaseUntil req |}.
Proof.
  intros key Hfree Hd'. split; [|apply sameClaim_requested]. unfold claimByRequest. fold key.
  set (row := {| c_task := _ |}) in Hd'.
  rewrite (claim_row_by_request_found d' key id row); rewrite ?Hd'; [done|apply lookup_insert_eq|done|].
  intros j rj [[<- <-]|[_ Hj]]%lookup_insert_Some Hk; [done|]. by destruct (Hfree _ _ Hj Hk).
Qed.

Lemma claimWrites_recorded req task t cur reclaim env w c w1 :
  claimWrites req (requestStorageKey (cl_ActorID req) (cl_SessionID req) (cl_RequestID req))
    task t cur reclaim env w = (inr (TxCommit c), w1) -> claim_answers (w_db w1) req c.
Proof.
  intros H. unfold claimWrites in H.
  destruct reclaim; run_inv;
    try (match goal with H : (_ =? 1) = true |- _ => apply Z.eqb_eq in H; subst end;
         match goal with H : swap_current_claim _ _ _ _ _ = _ |- _ => apply swap_current_claim_inv in H; subst end);
    (match goal with H : update_task _ _ _ = _ |- _ => apply update_task_inv in H as [[_ ->]|(? & ? & ->)] end;
     db_simpl; (eapply claim_answers_inserted; [eassumption|reflexivity])).
Qed.

Lemma claimWrites_commits req key task t cur reclaim env w out w1 :
  claimWrites req key task t cur reclaim env w = (inr out, w1) -> exists c, out = TxCommit c.
Proof. unfold claimWrites. intros H. m_inv. eauto. Qed.

Lemma claimTx_recorded req env w out w1 :
  claimTx req (requestStorageKey (cl_ActorID req) (cl_SessionID req) (cl_RequestID req)) env w = (inr out, w1) ->
  match out with
  | TxCommit c => claim_answers (w_db w1) req c
  | TxRollback c => claim_answers (w_db w) req c
  end.
Proof.
  intros H. unfold claimTx in H. m_inv. injection Hst as _ Hst.
  destruct r1 as [[]|p]; m_inv.
  - destruct (claim_mode _ _ _) as [reclaim|] eqn:Hmode; m_inv.
    destruct (claimWrites_commits _ _ _ _ _ _ _ _ _ _ H) as [c ->]. by eapply claimWrites_recorded.
  - destruct (sameClaim p req) eqn:Hsame; m_inv. destruct Hq as [Hq|[f ?]]; [|done]. split; [|done]. congruence.
Qed.

Definition claim_valid (req : ClaimRequest) : bool :=
  negb (seqb (cl_TaskID req) "") && negb (seqb (cl_SessionID req) "") && negb (seqb (cl_RequestID req) "").

Lemma claimFailure_recorded e req env w res w' :
  claimFailure e req (requestStorageKey (cl_ActorID req) (cl_SessionID req) (cl_RequestID req)) env w = (inr res, w') ->
  claim_answers (w_db w') req res.
Proof.
  unfold claimFailure. intros H. m_inv. apply attempt_inv in Hrun.
  destruct r as [|p]; m_inv. destruct (sameClaim p req) eqn:Hs; m_inv.
  by apply autocommit_query_inr_inv in Hrun.
Qed.

Lemma Claim_recorded req env w res w' :
  Claim req env w = (inr res, w') -> claim_valid req = true /\ claim_answers (w_db w') req res.
Proof.
  intros H. unfold Claim in H. m_inv. split; [done|].
  match goal with H : attempt _ _ _ = _ |- _ => apply attempt_inv in H end.
  destruct r0 as [[]|p]; m_inv.
  - match goal with H : attempt (withTx _) _ _ = (inr ?x, _) |- _ => apply attempt_inv in H as Htx; clear H; rename x into o end.
    destruct o as [[e|e|e|e]|c]; m_inv; [by eapply claimFailure_recorded..|].
    apply withTx_inr_inv in Htx as (out & w2 & Hbody & Hout). apply claimTx_recorded in Hbody.
    destruct out; destruct Hout as [-> ->]; done.
  - destruct (sameClaim p req) eqn:Hs; m_inv.
    match goal with H : autocommit _ _ _ = _ |- _ => by apply autocommit_query_inr_inv in H end.
Qed.

Lemma claimFailure_run err req key env w :
  alone env ->
  claimFailure err req key env w =
    (match tk_fault (env (w_tick w)), claimByRequest key (cl_RequestID req) (w_db w) with
     | None, inr p => if sameClaim p req then inr p else inl (mapErr err)
     | _, _ => inl (mapErr err)
     end, mkWorld (w_db w) (S (w_tick w))).
Proof.
  intros Halone. unfold claimFailure, bind, attempt. rewrite autocommit_query_run by done.
  destruct (tk_fault _); [done|]. destruct (claimByRequest _ _ _) as [|p]; [done|]. by destruct (sameClaim p req).
Qed.

Lemma Claim_atomic req env w e w' :
  alone env -> one_fault env -> Claim req env w = (inl e, w') -> w_db w' = w_db w.
Proof.
  intros Halone Hone. unfold Claim, bind, require. destruct (_ && _); [|by intros [= <- <-]]. simpl.
  unfold attempt. rewrite autocommit_query_run by done.
  destruct (tk_fault (env (w_tick w))); [by intros [= <- <-]|].
  destruct (claimByRequest _ _ _) as [[]|p]; [|by intros [= <- <-]..|by destruct (sameClaim p req); intros [= <- <-]].
  destruct (withTx _ env _) as [[f|r] w1] eqn:Htx; [|done].
  destruct (withTx_inl_inv _ _ _ _ _ Halone Htx) as [Hsame|(fl & a & w2 & -> & Hbody & Hdb & Htick & Hf & _)].
  - simpl in Hsame. destruct f; unfold throw; rewrite ?claimFailure_run by done; by intros [= _ <-].
  - rewrite claimFailure_run by done. apply claimTx_recorded in Hbody as [Hby Hsame].
    destruct (tk_fault (env (w_tick w1))) eqn:Hf1.
    { assert (w_tick w1 = w_tick w2); [apply Hone; eauto|lia]. }
    rewrite Hdb, Hby, Hsame. done.
Qed.

Lemma Claim_replay req env d n res :
  quiet env -> claim_valid req = true -> claim_answers d req res ->
  Claim req env (mkWorld d n) = (inr res, mkWorld d (S n)).
Proof.
  unfold claim_valid. intros Hq Hv [Hby Hsame]. unfold Claim, bind, require. rewrite Hv. simpl. unfold attempt.
  rewrite autocommit_query_run by (intros ? ?; apply Hq). simpl. destruct (Hq n) as [-> _].
  by rewrite Hby, Hsame.
Qed.

(** ** Properties *)

Section LedgerProperties.
Context (json_Marshal : Payload -> string) (sha256_hex : string -> string).

(** C7: exactly once.  Once any of the eight ledger operations has returned a
    result, however it got there (fresh, replayed, or recovered after an
    ambiguous COMMIT), repeating the same command later, after any further
    writes by anyone, returns that result again and changes nothing. *)
Theorem replay_exactly_once c env w res w' d env' n :
  run_cmd json_Marshal sha256_hex c env w = (inr res, w') ->
  rtc core_step (w_db w') d -> quiet env' ->
  run_cmd json_Marshal sha256_hex c env' (mkWorld d n) = (inr res, mkWorld d (S n)).
Proof.
  rewrite !run_cmd_eq. destruct (cmd_valid c); [|done]. intros Hrun Hsteps Hq.
  apply coreWrite_replay; [done|].
  eapply ledger_answers_mono; [by apply steps_history|by eapply coreWrite_recorded].
Qed.

(** A request key that was used cannot be spent on anything else: another
    operation or another payload under the same scoped key is refused with
    [ErrConflict] and changes nothing, whatever was written since. *)
Theorem reused_key_conflicts c c2 env w res w' d env' n :
  run_cmd json_Marshal sha256_hex c env w = (inr res, w') ->
  rtc core_step (w_db w') d -> quiet env' ->
  cmd_valid c2 = true -> cmd_key c2 = cmd_key c ->
  cmd_operation c2 <> cmd_operation c \/
    cmd_fingerprint json_Marshal sha256_hex c2 <> cmd_fingerprint json_Marshal sha256_hex c ->
  run_cmd json_Marshal sha256_hex c2 env' (mkWorld d n) = (inl ErrConflict, mkWorld d (S n)).
Proof.
  rewrite !run_cmd_eq. destruct (cmd_valid c); [|done]. intros Hrun Hsteps Hq -> -> Hdiff.
  apply coreWrite_recorded in Hrun. apply (ledger_answers_mono _ d) in Hrun; [|by apply steps_history].
  unfold ledger_answers, readCoreReplay in Hrun. destruct (project_core_requests d !! cmd_key c) as [r|] eqn:E; [|done].
  destruct (_ || _) eqn:Hor; [done|]. bool_inv.
  unfold coreWrite, bind, mapE. rewrite autocommit_query_run by (intros ? ?; apply Hq). simpl.
  destruct (Hq n) as [-> _]. unfold readCoreReplay at 1. rewrite E.
  replace (_ || _) with true; [done|]. symmetry. apply orb_true_iff. rewrite !negb_true_iff, !seqb_false.
  destruct Hdiff; [left|right]; congruence.
Qed.

(** C8: a ledger operation that reports an error, while no other writer runs
    and whatever calls of it fail, left the database as it was, with one
    exception: its COMMIT became durable and reported an error, and the very
    next call, the second look into the ledger, failed too.  Then the write is
    there with its ledger record, which answers a repetition of the request.
    So with at most one failing call an error always means that nothing was
    written. *)
Theorem failed_write_leaves_no_trace c env w e w' :
  alone env -> run_cmd json_Marshal sha256_hex c env w = (inl e, w') ->
  (w_db w' = w_db w \/
   unheard_commit env (cmd_key c) (cmd_operation c) (cmd_fingerprint json_Marshal sha256_hex c) w') /\
  (one_fault env -> w_db w' = w_db w).
Proof.
  intros Ha Hrun. assert (w_db w' = w_db w \/
    unheard_commit env (cmd_key c) (cmd_operation c) (cmd_fingerprint json_Marshal sha256_hex c) w') as H.
  { rewrite run_cmd_eq in Hrun. destruct (cmd_valid c); [by eapply coreWrite_failed|]. injection Hrun as _ <-. by left. }
  split; [done|]. intros Ho. destruct H as [H|H]; [done|]. by apply one_fault_heard in H.
Qed.

(** Optimistic concurrency.  A valid update whose base revision is not the
    current revision of the row it updates is refused with [ErrConflict] and
    changes nothing. *)
Theorem stale_write_conflicts c env d n current base :
  quiet env -> cmd_valid c = true -> project_core_requests d !! cmd_key c = None ->
  cmd_base c = Some base -> cmd_current c d = Some current -> current <> base ->
  exists n', run_cmd json_Marshal sha256_hex c env (mkWorld d n) = (inl ErrConflict, mkWorld d n').
Proof.
  intros Hq Hv Hk Hb Hc Hne. rewrite run_cmd_eq, Hv.
  apply coreWrite_body_fails; [done|done|]. intros k. by eapply stale_body.
Qed.

(** Claims are exactly-once too: a claim that was granted is granted again,
    with the same result and no further effect, whenever the same request is
    repeated, even after the claim expired and was handed over. *)
Theorem claim_exactly_once req env w res w' d env' n :
  Claim req env w = (inr res, w') -> core_inv (w_db w') ->
  rtc core_step (w_db w') d -> quiet env' ->
  Claim req env' (mkWorld d n) = (inr res, mkWorld d (S n)).
Proof.
  intros [Hv Hans]%Claim_recorded Hinv Hsteps Hq. apply Claim_replay; [done|done|].
  eapply claim_answers_mono; [by apply steps_history| |done].
  by apply inv_claims, (steps_inv (w_db w')).
Qed.

(** A claim that is refused or fails left no trace, with at most one
    failing call, an ambiguous COMMIT included. *)
Theorem failed_claim_leaves_no_trace req env w e w' :
  alone env -> one_fault env -> Claim req env w = (inl e, w') -> w_db w' = w_db w.
Proof. apply Claim_atomic. Qed.
End LedgerProperties.

(** ** Witnesses *)

Module LedgerDemo.
(** The COMMIT of the first write, the twelfth call, becomes durable and
    reports an I/O error. *)
Definition ambiguous : Env DB := fun n =>
  mkTick (if decide (n = 11%nat) then Some FIO else None) true (1000 + Z.of_nat n) (pretty.pretty n) (fun d => d).
(** The same COMMIT fails and is rolled back. *)
Definition lost : Env DB := fun n =>
  mkTick (if decide (n = 11%nat) then Some FIO else None) false (1000 + Z.of_nat n) (pretty.pretty n) (fun d => d).

(** It fails after becoming durable, and so does every call after it. *)
Definition unheard : Env DB := fun n =>
  mkTick (if decide (11 <= n)%nat then Some FIO else None) true (1000 + Z.of_nat n) (pretty.pretty n) (fun d => d).

Definition create : CoreCmd := CmdCreateProject (Demo.project "demo" "r1").
Definition first := run_cmd Demo.json Demo.hash create ambiguous (mkWorld db_empty 0).
Definition later : DB := after Demo.json Demo.hash [OpCreateTask (Demo.task "t" "r2" [])] Demo.env0 (w_db first.2).
Definition claimed := Claim (Demo.claim "T-31" "c1") Demo.env0
  (mkWorld (after Demo.json Demo.hash (firstn 3 Demo.ops) Demo.env1 db_empty) 0).

Lemma alone_lost : alone lost.
Proof. done. Defined.
Lemma one_fault_lost : one_fault lost.
Proof. intros m n [f Hm] [g Hn]. unfold lost in *. simpl in *. repeat case_decide; congruence. Defined.
Lemma quiet_env0 : quiet Demo.env0.
Proof. done. Defined.
Lemma first_later : rtc core_step (w_db first.2) later.
Proof. apply after_steps, Demo.env0_others. Defined.

(** The result of a run, computed. *)
Lemma run_result {A} (p : (Err + A) * World DB) r : p.1 = r -> p = (r, p.2).
Proof. destruct p as [x y]. simpl. by intros ->. Defined.
End LedgerDemo.
Import LedgerDemo.

Lemma replay_exactly_once_witness :
  first.1 = inr {| ID := "demo"; Revision := 1 |} /\
  run_cmd Demo.json Demo.hash create Demo.env0 (mkWorld later 7)
    = (inr {| ID := "demo"; Revision := 1 |}, mkWorld later 8).
Proof.
  assert (first.1 = inr {| ID := "demo"; Revision := 1 |}) as Hres by (vm_compute; reflexivity).
  split; [exact Hres|].
  exact (replay_exactly_once _ _ _ _ _ _ _ _ _ 7%nat (run_result first _ Hres) first_later quiet_env0).
Defined.

Lemma reused_key_conflicts_witness :
  run_cmd Demo.json Demo.hash (CmdCreateProject (Demo.project "demo2" "r1")) Demo.env0 (mkWorld later 7)
    = (inl ErrConflict, mkWorld later 8).
Proof.
  assert (first.1 = inr {| ID := "demo"; Revision := 1 |}) as Hres by (vm_compute; reflexivity).
  refine (reused_key_conflicts _ _ _ _ _ _ _ _ _ _ 7%nat (run_result first _ Hres) first_later quiet_env0 _ _ _).
  - vm_compute. reflexivity.
  - vm_compute. reflexivity.
  - right. vm_compute. discriminate.
Defined.

Lemma failed_write_leaves_no_trace_witness :
  (run_cmd Demo.json Demo.hash create lost (mkWorld db_empty 0)).1 = inl (ErrSql (SqlFault FIO)) /\
  w_db (run_cmd Demo.json Demo.hash create lost (mkWorld db_empty 0)).2 = db_empty /\
  unheard_commit unheard (cmd_key create) (cmd_operation create) (cmd_fingerprint Demo.json Demo.hash create)
    (run_cmd Demo.json Demo.hash create unheard (mkWorld db_empty 0)).2.
Proof.
  assert ((run_cmd Demo.json Demo.hash create lost (mkWorld db_empty 0)).1 = inl (ErrSql (SqlFault FIO))) as Hres
    by (vm_compute; reflexivity).
  split_and!; [exact Hres| |].
  - exact (proj2 (failed_write_leaves_no_trace _ _ _ _ _ _ _ alone_lost (run_result _ _ Hres)) one_fault_lost).
  - assert ((run_cmd Demo.json Demo.hash create unheard (mkWorld db_empty 0)).1 = inl (ErrSql (SqlFault FIO))) as Hun
      by (vm_compute; reflexivity).
    destruct (failed_write_leaves_no_trace _ _ _ unheard _ _ _ (fun _ _ => eq_refl) (run_result _ _ Hun)) as [[Hsame|H] _]; [|exact H].
    exfalso. apply (f_equal (fun d => size (project_core_requests d))) in Hsame. vm_compute in Hsame. discriminate Hsame.
Defined.

Lemma stale_write_conflicts_witness :
  exists n', run_cmd Demo.json Demo.hash (CmdChangeTaskState (Demo.state "T-31" "cancelled" "r9" 3)) Demo.env0
    (mkWorld Demo.db 0) = (inl ErrConflict, mkWorld Demo.db n').
Proof.
  refine (stale_write_conflicts _ _ _ Demo.env0 Demo.db 0%nat 5 3 quiet_env0 _ _ _ _ _);
    [vm_compute; reflexivity..|lia].
Defined.

Lemma claim_exactly_once_witness :
  exists res, claimed.1 = inr res /\
    Claim (Demo.claim "T-31" "c1") Demo.env0 (mkWorld (w_db claimed.2) 3) = (inr res, mkWorld (w_db claimed.2) 4).
Proof.
  assert (exists res, claimed.1 = inr res) as [res Hres] by (eexists; vm_compute; reflexivity).
  exists res. split; [exact Hres|].
  refine (claim_exactly_once _ _ _ _ _ _ _ 3%nat (run_result claimed _ Hres) _ (rtc_refl _ _) quiet_env0).
  refine (guarantees_inv core_step _ core_inv Demo.env0 _ _ _ (guarantees_Claim _) core_inv_step _
            (run_result claimed _ Hres) _).
  - intros n d Hd. exact Hd.
  - apply (reachable_core_inv Demo.json Demo.hash). exists (firstn 3 Demo.ops), Demo.env1.
    split; [apply Demo.env1_others|reflexivity].
Defined.

Lemma failed_claim_leaves_no_trace_witness :
  (Claim (Demo.claim "T-31" "c1") lost (mkWorld Demo.db 0)).1 = inl ErrConflict /\
  w_db (Claim (Demo.claim "T-31" "c1") lost (mkWorld Demo.db 0)).2 = w_db (mkWorld Demo.db 0).
Proof.
  assert ((Claim (Demo.claim "T-31" "c1") lost (mkWorld Demo.db 0)).1 = inl ErrConflict) as Hres
    by (vm_compute; reflexivity).
  split; [exact Hres|].
  exact (failed_claim_leaves_no_trace (Demo.claim "T-31" "c1") lost (mkWorld Demo.db 0) ErrConflict
    (Claim (Demo.claim "T-31" "c1") lost (mkWorld Demo.db 0)).2 alone_lost one_fault_lost (run_result _ _ Hres)).
Defined.
