(* ===== verification/CoreOutcome.v ===== *)
(** * What a claim and a state change return

    Without faults or interference, [Claim] and [ChangeCanonicalTaskState]
    are total functions of the database: when they grant, what they write,
    and which error each refusal reports. *)

From S2P Require Import Prelude GoText Graph CoreDB ProjectCore Claims CoreSpec CoreRefine CoreSafety CoreLedger.
From stdpp Require Import base gmap strings list sets relations.
From Stdlib Require Import ZArith Lia.

Local Open Scope Z_scope.
Local Open Scope prog_scope.

(** ** Running statements forward *)

Section Forward.
Context (env : Env DB) (Hquiet : quiet env).

Lemma run_exec {A} (st : Stmt DB A) d n a d' :
  st d = inr (a, d') -> exec st env (mkWorld d n) = (inr a, mkWorld d' (S n)).
Proof. intros H. unfold exec. simpl. destruct (Hquiet n) as [-> _]. by rewrite H. Qed.

Lemma run_bind {E A B} (m : M DB E A) (f : A -> M DB E B) w a w1 r :
  m env w = (inr a, w1) -> f a env w1 = r -> bind m f env w = r.
Proof. unfold bind. by intros ->. Qed.

Lemma run_mapE {E E' A} (g : E -> E') (m : M DB E A) w a w1 :
  m env w = (inr a, w1) -> mapE g m env w = (inr a, w1).
Proof. unfold mapE. by intros ->. Qed.

Lemma run_require {E} ok (e : E) w : ok = true -> require ok e env w = (inr tt, w).
Proof. by intros ->. Qed.

Lemma run_select {A} `{Countable K} (tbl : DB -> gmap K A) k d r :
  tbl d !! k = Some r -> query (select tbl k) d = inr (r, d).
Proof. unfold query, select. by intros ->. Qed.

Lemma run_constraint ok d : ok = true -> constraint ok d = inr (tt, d).
Proof. by intros ->. Qed.
End Forward.

Lemma present_true {A} `{Countable K} (m : gmap K A) k : present m k = true <-> is_Some (m !! k).
Proof. apply bool_decide_eq_true. Qed.

(** The random identifiers have not been used. *)
Definition fresh_ids (env : Env DB) (d : DB) : Prop :=
  forall n, task_claims d !! ("C-" +:+ tk_id (env n)) = None /\
    task_events d !! ("TE-" +:+ tk_id (env n)) = None /\ activity_events d !! ("A-" +:+ tk_id (env n)) = None.

(** ** The log entries every write ends with *)

Section Entries.
Context (env : Env DB) (Hquiet : quiet env).

Lemma run_bump pid t d n row :
  projects d !! pid = Some row -> p_revision row < maxInt64 ->
  bumpProjectRevision pid t env (mkWorld d n)
  = (inr (p_revision row + 1), mkWorld (set_projects (<[pid:=bumped row t]> (projects d)) d) (S n)).
Proof.
  intros Hp Hr. apply run_mapE, run_exec; [done|]. unfold bump_project. rewrite Hp.
  destruct (Z.leb_spec (p_revision row + 1) maxInt64); [done|lia].
Qed.

Lemma run_task_event task pid rev kind summary from to meta t d n :
  is_Some (tasks d !! task) -> is_Some (projects d !! pid) -> 0 <= rev -> isin kind task_event_kinds = true ->
  task_events d !! ("TE-" +:+ tk_id (env n)) = None ->
  insertTaskEvent task pid rev kind summary from to meta t env (mkWorld d n)
  = (inr tt, mkWorld (set_task_events (<["TE-" +:+ tk_id (env n):=
      {| ev_task := task; ev_project := pid; ev_revision := rev; ev_kind := kind; ev_summary := summary;
         ev_from := nullif_empty from; ev_to := nullif_empty to; ev_actor := ActorID meta;
         ev_session := SessionID meta; ev_created := t |}]> (task_events d)) d) (S (S n))).
Proof.
  intros Ht Hp Hr Hk Hf. eapply run_bind; [reflexivity|].
  apply run_mapE, run_exec, run_constraint; [done|]. simpl.
  by rewrite (proj2 (absent_true _ _)), !(proj2 (present_true _ _)), (proj2 (Z.leb_le _ _)).
Qed.

Lemma run_change pid rev kind ref summary t d n :
  is_Some (projects d !! pid) -> changes d !! (pid, rev) = None ->
  insertCoreChange pid rev kind ref summary t env (mkWorld d n)
  = (inr tt, mkWorld (set_changes (<[(pid, rev):={| ch_kind := kind; ch_ref := ref; ch_summary := summary;
                                                    ch_created := t |}]> (changes d)) d) (S n)).
Proof.
  intros Hp Hc. apply run_mapE, run_exec, run_constraint; [done|]. simpl.
  by rewrite (proj2 (absent_true _ _)), (proj2 (present_true _ _)).
Qed.

Lemma run_activity kind pid actor ref title outcome t d n :
  is_Some (projects d !! pid) -> isin kind activity_kinds = true ->
  activity_events d !! ("A-" +:+ tk_id (env n)) = None ->
  insertCoreActivity kind pid actor ref title outcome t env (mkWorld d n)
  = (inr tt, mkWorld (set_activity_events (<["A-" +:+ tk_id (env n):=
      {| ac_kind := kind; ac_project := pid; ac_actor := actor; ac_ref := ref; ac_title := title;
         ac_outcome := outcome; ac_untrusted := true; ac_occurred := t; ac_recorded := t |}]>
      (activity_events d)) d) (S (S n))).
Proof.
  intros Hp Hk Hf. eapply run_bind; [reflexivity|].
  apply run_mapE, run_exec, run_constraint; [done|]. simpl.
  by rewrite (proj2 (absent_true _ _)), (proj2 (present_true _ _)).
Qed.

Lemma run_update_task id f d n row :
  tasks d !! id = Some row -> isin (t_state (f row)) task_states = true ->
  present_opt (milestones d) (t_milestone (f row)) = true -> 0 <= t_revision (f row) ->
  mapped (exec (update_task id f)) env (mkWorld d n)
  = (inr 1, mkWorld (set_tasks (<[id:=f row]> (tasks d)) d) (S n)).
Proof.
  intros Ht Hs Hm Hr. apply run_mapE, run_exec; [done|]. unfold update_task, update_row.
  by rewrite Ht, Hs, Hm, (proj2 (Z.leb_le _ _) Hr).
Qed.
End Entries.

(** ** Claims *)

Definition claim_key (req : ClaimRequest) : string :=
  requestStorageKey (cl_ActorID req) (cl_SessionID req) (cl_RequestID req).




Section ClaimForward.
Context (env : Env DB) (Hquiet : quiet env).

End ClaimForward.


(** The project a task belongs to can log one more revision. *)
Lemma next_revision_free d id row :
  core_inv d -> tasks d !! id = Some row ->
  exists p, projects d !! t_project row = Some p /\ 0 <= p_revision p /\
    changes d !! (t_project row, p_revision p + 1) = None.
Proof.
  intros Hinv Ht. destruct (inv_task_rev _ Hinv _ _ Ht) as (p & Hp & _).
  exists p. split_and!; [done|exact (inv_rev _ Hinv _ _ Hp)|].
  apply eq_None_not_Some. intros (p' & Hp' & ?)%(inv_log _ Hinv). simplify_eq. lia.
Qed.


Lemma run_lock_task env d n id row :
  quiet env -> tasks d !! id = Some row ->
  mapped (exec (lock_task id)) env (mkWorld d n) = (inr 1, mkWorld d (S n)).
Proof.
  intros Hq Ht. apply run_mapE, run_exec; [done|]. unfold lock_task.
  by rewrite (proj2 (present_true _ _)) by (by rewrite Ht).
Qed.

Lemma run_read_claim env d n key rid :
  quiet env -> claimByRequest key rid d = inl SqlNoRows ->
  attempt (E' := TxFail) (exec (query (claimByRequest key rid))) env (mkWorld d n)
  = (inr (inl SqlNoRows), mkWorld d (S n)).
Proof. intros Hq Hn. unfold attempt, exec, query. simpl. destruct (Hq n) as [-> _]. by rewrite Hn. Qed.

Lemma run_readCurrentClaim env d n id :
  quiet env -> readCurrentClaim id env (mkWorld d n) = (inr (task_current_claims d !! id), mkWorld d (S n)).
Proof.
  intros Hq. unfold readCurrentClaim, bind, attempt, exec, query, select. simpl. destruct (Hq n) as [-> _].
  by destruct (task_current_claims d !! id).
Qed.

(** The transaction, up to the decision. *)
Lemma run_claimTx env req d n row :
  quiet env -> claimByRequest (claim_key req) (cl_RequestID req) d = inl SqlNoRows ->
  tasks d !! cl_TaskID req = Some row ->
  let t := tk_now (env (3 + n)%nat) in
  claimTx req (claim_key req) env (mkWorld d n) =
    match claim_mode (t_state row) (task_current_claims d !! cl_TaskID req) t with
    | None => (inl (FBody ErrConflict), mkWorld d (5 + n)%nat)
    | Some reclaim =>
        claimWrites req (claim_key req) row t (task_current_claims d !! cl_TaskID req) reclaim env (mkWorld d (5 + n)%nat)
    end.
Proof.
  intros Hq Hn Ht t. unfold claimTx. eapply run_bind; [by eapply run_lock_task|].
  eapply run_bind; [by apply run_require|]. eapply run_bind; [by apply run_read_claim|].
  eapply run_bind; [apply run_mapE, run_exec; [done|by apply run_select]|].
  eapply run_bind; [reflexivity|]. cbn [w_db w_tick].
  eapply run_bind; [by apply run_readCurrentClaim|]. by destruct (claim_mode _ _ _).
Qed.

(** [Claim], when the request is new, is its transaction. *)
Lemma run_Claim_new env req d n :
  quiet env -> claim_valid req = true -> claimByRequest (claim_key req) (cl_RequestID req) d = inl SqlNoRows ->
  forall out w1, claimTx req (claim_key req) env (mkWorld d (2 + n)%nat) = (out, w1) ->
  match out with
  | inr (TxCommit res) => exists n', Claim req env (mkWorld d n) = (inr res, mkWorld (w_db w1) n')
  | inl (FBody e) => exists n', Claim req env (mkWorld d n) = (inl e, mkWorld d n')
  | _ => True
  end.
Proof.
  unfold claim_valid. intros Hq Hv Hn out w1 Htx.
  assert (Claim req env (mkWorld d n) =
    (o <-- attempt (withTx (claimTx req (claim_key req))) ;;
     match o with
     | inr c => ret c
     | inl (FBegin e) | inl (FBody e) => throw e
     | inl (FReplay e) | inl (FCommit e) => claimFailure e req (claim_key req)
     end) env (mkWorld d (S n))) as ->.
  { unfold Claim. eapply run_bind; [by apply run_require|].
    eapply (run_bind _ _ _ _ (inl SqlNoRows)); [|reflexivity].
    unfold attempt. rewrite autocommit_query_run by (intros ? ?; apply Hq). simpl.
    destruct (Hq n) as [-> _]. unfold claim_key in Hn. by rewrite Hn. }
  unfold bind, attempt, withTx. simpl. destruct (Hq (S n)) as [-> Ho]. rewrite Ho.
  simpl in Htx. rewrite Htx. destruct out as [[]|[res|]]; try done; [by eexists|].
  destruct (Hq (w_tick w1)) as [-> _]. by eexists.
Qed.

(** ** State changes *)

(** What an accepted state change leaves behind. *)
Record state_changed (c : ChangeTaskStateCommand) (d d' : DB) (row : task_row) (t : Z) (res : WriteResult) : Prop := {
  sc_result : ID res = cs_ID c /\ exists p, projects d !! t_project row = Some p /\ Revision res = p_revision p + 1;
  sc_task : tasks d' = <[cs_ID c:=task_with_state (cs_State c) (Revision res) t row]> (tasks d);
  sc_current : task_current_claims d' =
    if seqb (cs_State c) "ready" || seqb (cs_State c) "done" || seqb (cs_State c) "cancelled"
    then delete (cs_ID c) (task_current_claims d) else task_current_claims d;
  sc_change : exists ch, changes d' = <[(t_project row, Revision res):=ch]> (changes d);
  sc_event : exists id ev, task_events d' = <[id:=ev]> (task_events d) /\ task_events d !! id = None /\
    ev_from ev = nullif_empty (t_state row) /\ ev_to ev = nullif_empty (cs_State c) /\ ev_summary ev = cs_Basis c;
}.

Lemma run_changeState_body env c d n row p :
  quiet env -> fresh_ids env d -> changeState_valid c = true ->
  tasks d !! cs_ID c = Some row -> t_revision row = cs_BaseRevision c ->
  taskTransitionAllowed (t_state row) (cs_State c) = true ->
  present_opt (milestones d) (t_milestone row) = true ->
  projects d !! t_project row = Some p -> 0 <= p_revision p < maxInt64 ->
  changes d !! (t_project row, p_revision p + 1) = None ->
  let t := tk_now (env (S n)) in
  let res := {| cr_id := cs_ID c; cr_revision := p_revision p + 1; cr_project_revision := p_revision p + 1; cr_now := t |} in
  exists w', changeState_body c env (mkWorld d n) = (inr res, w') /\
    project_core_requests (w_db w') = project_core_requests d /\
    state_changed c d (w_db w') row t {| ID := cs_ID c; Revision := p_revision p + 1 |}.
Proof.
  intros Hq Hfresh Hv Ht Hbase Htr Hms Hp Hrev Hch t res.
  assert (isin (cs_State c) task_states = true) as Hst.
  { unfold changeState_valid in Hv. bool_inv. assumption. }
  assert (is_Some (<[t_project row:=bumped p t]> (projects d) !! t_project row)) as Hpr.
  { rewrite lookup_insert_eq. eauto. }
  set (clear := seqb (cs_State c) "ready" || seqb (cs_State c) "done" || seqb (cs_State c) "cancelled").
  unfold changeState_body. fold clear.
  set (k := (if clear then 5 + n else 4 + n)%nat).
  destruct (Hfresh k) as (_ & Hte & _). destruct (Hfresh (3 + k)%nat) as (_ & _ & Hact).
  set (d1 := set_tasks (<[cs_ID c:=task_with_state (cs_State c) (p_revision p + 1) t row]> (tasks d))
               (set_projects (<[t_project row:=bumped p t]> (projects d)) d)).
  set (d2 := set_task_current_claims
               (if clear then delete (cs_ID c) (task_current_claims d) else task_current_claims d) d1).
  eexists. split.
  - eapply run_bind; [apply run_mapE, run_exec; [done|by apply run_select]|].
    eapply run_bind; [apply run_require; by rewrite Hbase, Z.eqb_refl, Htr|].
    eapply run_bind; [reflexivity|]. cbn [w_db w_tick].
    eapply run_bind; [apply run_bump; [done|done|lia]|].
    eapply run_bind; [apply (run_update_task env Hq _ _ _ _ row); simpl; [done..|lia]|].
    eapply (run_bind env _ _ _ tt (mkWorld d2 k)).
    { subst d2 k. destruct clear; cbv iota; [by apply run_mapE, run_exec|]. unfold ret. by destruct d. }
    eapply run_bind; [apply run_task_event; subst d2 d1; simpl; [done|by rewrite lookup_insert_eq|done|lia|done|done]|].
    eapply run_bind; [by apply run_change|]. cbn [w_db w_tick].
    eapply run_bind; [by apply run_activity|reflexivity].
  - split; [done|]. subst d2 d1. split; simpl; eauto 10.
Qed.

Lemma run_coreTx_new env key op fp body d n res w1 :
  quiet env -> project_core_requests d !! key = None ->
  body env (mkWorld d (2 + n)%nat) = (inr res, w1) ->
  project_core_requests (w_db w1) = project_core_requests d -> 0 <= cr_revision res -> 0 <= cr_project_revision res ->
  exists row w2, coreTx key op fp body env (mkWorld d n)
    = (inr (TxCommit {| ID := cr_id res; Revision := cr_revision res |}), w2) /\
    w_db w2 = set_project_core_requests (<[key:=row]> (project_core_requests d)) (w_db w1).
Proof.
  intros Hq Hk Hb Hreq Hr1 Hr2. destruct w1 as [d1 n1]. eexists _, _. split.
  - unfold coreTx. eapply run_bind; [by apply run_mapE, run_exec|].
    eapply (run_bind _ _ _ _ (inr None)).
    { apply run_mapE, run_exec; [done|]. unfold query, readCoreReplay. by rewrite Hk. }
    eapply run_bind; [exact Hb|].
    eapply run_bind; [apply run_mapE, run_exec, run_constraint; [done|]|reflexivity].
    simpl in *. by rewrite (proj2 (absent_true _ _)), !(proj2 (Z.leb_le _ _)) by congruence.
  - simpl in *. by rewrite Hreq.
Qed.

Lemma run_coreWrite_new env key op fp body d n res w1 :
  quiet env -> project_core_requests d !! key = None ->
  body env (mkWorld d (4 + n)%nat) = (inr res, w1) ->
  project_core_requests (w_db w1) = project_core_requests d -> 0 <= cr_revision res -> 0 <= cr_project_revision res ->
  exists row n', coreWrite key op fp body env (mkWorld d n)
    = (inr {| ID := cr_id res; Revision := cr_revision res |},
       mkWorld (set_project_core_requests (<[key:=row]> (project_core_requests d)) (w_db w1)) n').
Proof.
  intros Hq Hk Hb Hreq Hr1 Hr2.
  destruct (run_coreTx_new env key op fp body d (2 + n) res w1) as (row & w2 & Htx & Hw2); [done..|].
  exists row. unfold coreWrite, bind, mapE. rewrite autocommit_query_run by (intros ? ?; apply Hq). simpl.
  destruct (Hq n) as [-> _]. unfold readCoreReplay at 1. rewrite Hk. unfold attempt, withTx. simpl in *.
  destruct (Hq (S n)) as [-> Ho]. rewrite Ho, Htx. destruct (Hq (w_tick w2)) as [-> _]. rewrite <- Hw2. by eexists.
Qed.

(** ** Properties *)


(** A task whose lease is still running, or that is neither ready nor in
    progress, is not handed out: a new claim is refused with [ErrConflict] and
    changes nothing. *)
Theorem claim_refused_when_held env req d n row :
  quiet env -> claim_valid req = true ->
  claimByRequest (claim_key req) (cl_RequestID req) d = inl SqlNoRows ->
  tasks d !! cl_TaskID req = Some row ->
  (exists c, task_current_claims d !! cl_TaskID req = Some c /\
     forall lease, cc_lease c = Some lease -> tk_now (env (5 + n)%nat) < lease) \/
  t_state row <> "ready"%string /\ t_state row <> "in_progress"%string ->
  exists n', Claim req env (mkWorld d n) = (inl ErrConflict, mkWorld d n').
Proof.
  intros Hq Hv Hn Ht Hheld.
  pose proof (run_claimTx env req d (2 + n) row Hq Hn Ht) as Htx. simpl in Htx, Hheld.
  assert (claim_mode (t_state row) (task_current_claims d !! cl_TaskID req) (tk_now (env (S (S (S (S (S n))))))) = None)
    as Hmode.
  { unfold claim_mode. destruct Hheld as [(c & -> & Hlease)|[H1%seqb_false H2%seqb_false]].
    - destruct (cc_lease c) as [l|]; [|done]. by rewrite (proj2 (Z.ltb_lt _ _) (Hlease l eq_refl)).
    - rewrite H1, H2. by repeat case_match. }
  rewrite Hmode in Htx. by destruct (run_Claim_new env req d n Hq Hv Hn _ _ Htx) as [n' ->]; eauto.
Qed.

Section StateOutcome.
Context (json_Marshal : Payload -> string) (sha256_hex : string -> string).

(** A state change based on the task's current revision and allowed by the
    transition table succeeds: the task moves, a claim that no longer
    applies is dropped, the basis is recorded, and the next project revision
    is logged and returned. *)
Theorem state_change_succeeds env c d n row p :
  quiet env -> core_inv d -> fresh_ids env d -> changeState_valid c = true ->
  project_core_requests d !! coreRequestKey (cs_Meta c) = None ->
  tasks d !! cs_ID c = Some row -> t_revision row = cs_BaseRevision c ->
  taskTransitionAllowed (t_state row) (cs_State c) = true ->
  present_opt (milestones d) (t_milestone row) = true ->
  projects d !! t_project row = Some p -> p_revision p < maxInt64 ->
  exists res d' n', ChangeCanonicalTaskState json_Marshal sha256_hex c env (mkWorld d n) = (inr res, mkWorld d' n') /\
    state_changed c d d' row (tk_now (env (5 + n)%nat)) res.
Proof.
  intros Hq Hinv Hf Hv Hk Ht Hb Htr Hms Hp Hmax.
  destruct (next_revision_free _ _ _ Hinv Ht) as (p' & Hp' & Hr & Hch). simplify_eq.
  destruct (run_changeState_body env c d (4 + n) row p) as (w1 & Hbody & Hreq & Hsc); try done.
  edestruct (run_coreWrite_new env (coreRequestKey (cs_Meta c)) "task.state"
    (coreFingerprint json_Marshal sha256_hex
       (PayloadChangeTaskState (cs_ID c) (cs_State c) (cs_Basis c) (cs_BaseRevision c)))
    (changeState_body c) d n) as (r & n' & Hrun); [done|done|exact Hbody|done|simpl; lia..|].
  eexists _, _, n'. split.
  - unfold ChangeCanonicalTaskState. eapply run_bind; [by apply run_require|exact Hrun].
  - destruct Hsc. split; simpl in *; eauto.
Qed.

(** A transition outside the table, from a terminal state or into
    [in_progress] above all, is refused with [ErrConflict] and changes nothing. *)
Theorem state_change_refused env c d n row :
  quiet env -> changeState_valid c = true ->
  project_core_requests d !! coreRequestKey (cs_Meta c) = None ->
  tasks d !! cs_ID c = Some row ->
  t_state row = "done"%string \/ t_state row = "cancelled"%string \/ cs_State c = "in_progress"%string ->
  exists n', ChangeCanonicalTaskState json_Marshal sha256_hex c env (mkWorld d n) = (inl ErrConflict, mkWorld d n').
Proof.
  intros Hq Hv Hk Ht Hbad.
  assert (taskTransitionAllowed (t_state row) (cs_State c) = false) as Htr.
  { destruct (taskTransitionAllowed _ _) eqn:E; [|done]. apply taskTransitionAllowed_cases in E. naive_solver congruence. }
  edestruct (coreWrite_body_fails (coreRequestKey (cs_Meta c)) "task.state"
    (coreFingerprint json_Marshal sha256_hex
       (PayloadChangeTaskState (cs_ID c) (cs_State c) (cs_Basis c) (cs_BaseRevision c)))
    (changeState_body c) env (mkWorld d n) ErrConflict) as [n' Hrun]; [done|done| |].
  - intros k. eexists. unfold changeState_body.
    eapply run_bind; [apply run_mapE, run_exec; [done|by apply run_select]|].
    unfold bind, require. rewrite Htr, andb_false_r. reflexivity.
  - exists n'. unfold ChangeCanonicalTaskState. eapply run_bind; [by apply run_require|exact Hrun].
Qed.
End StateOutcome.

(** ** Witnesses *)

Module OutcomeDemo.
Definition env2 : Env DB := fun n => mkTick None false (9000 + Z.of_nat n) "fresh" (fun d => d).
(** T-16 is claimed until 5000, T-31 is ready. *)
Definition db : DB := after Demo.json Demo.hash (firstn 4 Demo.ops) Demo.env1 db_empty.

Lemma env2_quiet : quiet env2.
Proof. done. Defined.
Lemma db_inv : core_inv db.
Proof.
  apply (reachable_core_inv Demo.json Demo.hash). exists (firstn 4 Demo.ops), Demo.env1.
  split; [apply Demo.env1_others|reflexivity].
Defined.
Lemma db_fresh : fresh_ids env2 db.
Proof. intros n. split_and!; vm_compute; reflexivity. Defined.
End OutcomeDemo.
Import OutcomeDemo.


Lemma claim_refused_when_held_witness :
  exists n', Claim (Demo.claim "T-16" "c9") Demo.env0 (mkWorld db 0) = (inl ErrConflict, mkWorld db n').
Proof.
  assert (exists row, tasks db !! "T-16"%string = Some row) as [row Hrow] by (eexists; vm_compute; reflexivity).
  apply (claim_refused_when_held Demo.env0 (Demo.claim "T-16" "c9") db 0 row LedgerDemo.quiet_env0
    ltac:(vm_compute; reflexivity) ltac:(vm_compute; reflexivity) Hrow).
  left. eexists. split; [vm_compute; reflexivity|]. intros lease [= <-]. vm_compute. reflexivity.
Defined.

Lemma state_change_succeeds_witness :
  exists row res d' n', tasks db !! "T-31"%string = Some row /\
    ChangeCanonicalTaskState Demo.json Demo.hash (Demo.state "T-31" "blocked" "q1" 3) env2 (mkWorld db 0)
      = (inr res, mkWorld d' n') /\ state_changed (Demo.state "T-31" "blocked" "q1" 3) db d' row 9005 res.
Proof.
  assert (exists row, tasks db !! "T-31"%string = Some row /\ t_project row = "demo"%string /\
    t_state row = "ready"%string /\ t_milestone row = None /\ t_revision row = 3) as (row & Hrow & Hpr & Hst & Hms & Hrv).
  { eexists. split; [vm_compute; reflexivity|]. split_and!; reflexivity. }
  assert (exists p, projects db !! "demo"%string = Some p /\ p_revision p = 4) as (p & Hp & Hrev).
  { eexists. split; [vm_compute; reflexivity|reflexivity]. }
  destruct (state_change_succeeds Demo.json Demo.hash env2 (Demo.state "T-31" "blocked" "q1" 3) db 0 row p
    env2_quiet db_inv db_fresh
    ltac:(vm_compute; reflexivity) ltac:(vm_compute; reflexivity) Hrow Hrv ltac:(rewrite Hst; reflexivity)
    ltac:(rewrite Hms; reflexivity) ltac:(rewrite Hpr; exact Hp) ltac:(rewrite Hrev; reflexivity))
    as (res & d' & n' & Hrun & Hg).
  exists row, res, d', n'. exact (conj Hrow (conj Hrun Hg)).
Defined.

Lemma state_change_refused_witness :
  exists n', ChangeCanonicalTaskState Demo.json Demo.hash (Demo.state "T-31" "in_progress" "q1" 3) env2 (mkWorld db 0)
    = (inl ErrConflict, mkWorld db n').
Proof.
  assert (exists row, tasks db !! "T-31"%string = Some row) as [row Hrow] by (eexists; vm_compute; reflexivity).
  apply (state_change_refused Demo.json Demo.hash env2 (Demo.state "T-31" "in_progress" "q1" 3) db 0 row env2_quiet
    ltac:(vm_compute; reflexivity) ltac:(vm_compute; reflexivity) Hrow).
  right. right. reflexivity.
Defined.
