(* ===== verification/Jobs.v ===== *)
(** * Bounded background jobs

    [internal/jobs]: the authority envelope of a job ([types.go]), the runner
    that executes one request inside it ([runner.go]), and the in-memory state
    store that grants leases ([memory_store.go]).  The runner is written
    against the [StateStore] interface; [MemoryStore] is an instance.

    Instants and durations are nanoseconds. *)

From S2P Require Import Prelude GoText.
From stdpp Require Import base gmap strings list sets relations sorting.
From Stdlib Require Import ZArith Lia.

Local Open Scope Z_scope.

(** ** Types *)

Definition JobName := string.
Definition Capability := string.
Definition OutputType := string.

Definition GitHubWatcher : JobName := "github_watcher".
Definition WikiCurator : JobName := "wiki_curator".
Definition CapabilityGitHubRead : Capability := "github.read".
Definition CapabilityInterpret : Capability := "model.interpret".
Definition CapabilityWikiPropose : Capability := "wiki.propose".
Definition CapabilityCreateJobs : Capability := "jobs.create".
Definition CapabilityWakeAgents : Capability := "agents.wake".
Definition OutputSyncReceipt : OutputType := "sync_receipt".
Definition OutputWikiRevisionProposal : OutputType := "wiki_revision_proposal".
Definition watcherInputScope : string := "one project and one upstream cursor".
Definition curatorInputScope : string := "one resolved task and its bounded resolution evidence".

Definition maxIdentifier : Z := 200.
Definition maxText : Z := 16384.
Definition maxEvidence : Z := 32.

Inductive JobErr :=
  | ErrInvalidDefinition | ErrInvalidInput | ErrDisabled | ErrCapability | ErrBudget
  | ErrAlreadyRunning | ErrTooSoon | ErrIdempotencyConflict
  | Canceled | DeadlineExceeded | OtherError (what : string).

#[export] Instance JobErr_eq_dec : EqDecision JobErr.
Proof. solve_decision. Defined.

Record Definition_ := {
  Name : JobName; InputScope : string; Capabilities : list Capability; MaxWallRuntime : Z;
  TokenBudget : Z; MinimumInterval : Z; AllowedOutput : OutputType }.

Record WatchInput := { wi_Project : string; wi_Cursor : string }.

Record ResolvedTask := {
  rt_Project : string; rt_TaskID : string; rt_State : string; rt_ResolutionRevision : Z;
  rt_Title : string; rt_Resolution : string; rt_Evidence : list string }.

Record RunRequest := {
  rr_RunID : string; rr_Job : JobName; rr_Watch : option WatchInput; rr_Resolved : option ResolvedTask }.

Record WikiProposal := {
  pr_Project : string; pr_TaskID : string; pr_Page : string; pr_BaseRevision : Z;
  pr_ProposedTitle : string; pr_ProposedBody : string; pr_Basis : string; pr_RequiresReview : bool }.

Record Receipt := {
  rc_RunID : string; rc_Job : JobName; rc_Status : string; rc_OutputType : OutputType;
  rc_StartedAt : Z; rc_FinishedAt : Z; rc_Cursor : string; rc_Changed : bool;
  rc_TokensUsed : Z; rc_Error : string; rc_Proposal : option WikiProposal }.

Record SyncResult := { sy_Cursor : string; sy_Changed : bool }.

#[export] Instance WikiProposal_eq_dec : EqDecision WikiProposal.
Proof. solve_decision. Defined.
#[export] Instance Receipt_eq_dec : EqDecision Receipt.
Proof. solve_decision. Defined.

(** ** Definitions and their validation *)

Fixpoint validate_capabilities (seen : list Capability) (l : list Capability) : bool :=
  match l with
  | [] => true
  | c :: l' =>
      negb (seqb c "" || bool_decide (c ∈ seen) || seqb c CapabilityCreateJobs || seqb c CapabilityWakeAgents)
      && validate_capabilities (c :: seen) l'
  end.

Definition Validate (d : Definition_) : bool :=
  negb (seqb (Name d) "" || seqb (InputScope d) "" || (MaxWallRuntime d <=? 0) || (TokenBudget d <? 0)
        || (MinimumInterval d <? 0) || seqb (AllowedOutput d) "")
  && validate_capabilities [] (Capabilities d).

Definition WatcherDefinition (minimumInterval maxRuntime : Z) : Definition_ :=
  {| Name := GitHubWatcher; InputScope := watcherInputScope; Capabilities := [CapabilityGitHubRead];
     MaxWallRuntime := maxRuntime; TokenBudget := 0; MinimumInterval := minimumInterval;
     AllowedOutput := OutputSyncReceipt |}.

Definition CuratorDefinition (minimumInterval maxRuntime tokenBudget : Z) : Definition_ :=
  {| Name := WikiCurator; InputScope := curatorInputScope;
     Capabilities := [CapabilityInterpret; CapabilityWikiPropose]; MaxWallRuntime := maxRuntime;
     TokenBudget := tokenBudget; MinimumInterval := minimumInterval;
     AllowedOutput := OutputWikiRevisionProposal |}.

Definition hasExactly (d : Definition_) (want : list Capability) : bool :=
  (Nat.eqb (length (Capabilities d)) (length want)) && forallb (fun c => bool_decide (c ∈ Capabilities d)) want.

Definition validateBuiltinDefinition (d : Definition_) : bool :=
  if seqb (Name d) GitHubWatcher then
    seqb (InputScope d) watcherInputScope && (TokenBudget d =? 0)
    && seqb (AllowedOutput d) OutputSyncReceipt && hasExactly d [CapabilityGitHubRead]
  else if seqb (Name d) WikiCurator then
    seqb (InputScope d) curatorInputScope && negb (TokenBudget d <=? 0)
    && seqb (AllowedOutput d) OutputWikiRevisionProposal && hasExactly d [CapabilityInterpret; CapabilityWikiPropose]
  else false.

(** The definitions map of [NewRunner], filled in argument order. *)
Fixpoint add_definitions (m : gmap JobName Definition_) (l : list Definition_) : option (gmap JobName Definition_) :=
  match l with
  | [] => Some m
  | d :: l' =>
      if negb (Validate d) then None
      else if negb (validateBuiltinDefinition d) then None
      else if bool_decide (is_Some (m !! Name d)) then None
      else add_definitions (<[Name d:=d]> m) l'
  end.

Definition registered (m : gmap JobName Definition_) (j : JobName) : bool :=
  match m !! j with Some d => negb (seqb (Name d) "") | None => false end.

(** [NewRunner] with its clock, store and kill switch present. *)
Definition NewRunner (l : list Definition_) : option (gmap JobName Definition_) :=
  match add_definitions ∅ l with
  | None => None
  | Some m =>
      if negb (Nat.eqb (size m) 2) || negb (registered m GitHubWatcher) || negb (registered m WikiCurator)
      then None else Some m
  end.

(** ** The store interface *)

Inductive AcquireResult := Acquired | Existing (r : Receipt) | NotAcquired.

(** Operations on a store state [S], as atomic functions, and what the runner
    may rely on.  A key is a job and a run id. *)
Class StateStore (S : Type) := {
  Acquire : option JobErr -> Definition_ -> string -> string -> Z -> Z -> S -> (JobErr + AcquireResult) * S;
  Finish : Receipt -> S -> option JobErr * S;
}.

Class StateStoreLaws (S : Type) `{StateStore S} := {
  completed_of : S -> JobName * string -> option Receipt;
  bound_to : S -> JobName * string -> option string;
  (** the stores the operations produce *)
  store_ok : S -> Prop;
  acquire_store_ok ctx d run dig now until s res s' :
    Acquire ctx d run dig now until s = (res, s') -> store_ok s -> store_ok s';
  finish_store_ok r s e s' : Finish r s = (e, s') -> store_ok s -> store_ok s';
  (** acquiring completes nothing, and binds at most its own key *)
  acquire_completed ctx d run dig now until s res s' :
    Acquire ctx d run dig now until s = (res, s') -> forall k, completed_of s' k = completed_of s k;
  acquire_bound ctx d run dig now until s res s' :
    Acquire ctx d run dig now until s = (res, s') ->
    forall k b, bound_to s k = Some b -> bound_to s' k = Some b;
  (** a granted run was not complete, and is bound to its input *)
  acquire_granted ctx d run dig now until s s' :
    Acquire ctx d run dig now until s = (inr Acquired, s') ->
    completed_of s (Name d, run) = None /\ bound_to s' (Name d, run) = Some dig;
  (** what is reported as existing is the completed receipt of the same input *)
  acquire_existing ctx d run dig now until s r s' :
    Acquire ctx d run dig now until s = (inr (Existing r), s') -> store_ok s ->
    s' = s /\ completed_of s (Name d, run) = Some r /\ bound_to s (Name d, run) = Some dig;
  (** a completed run is always answered by its receipt, or by a conflict *)
  acquire_answers d run dig now until s r :
    completed_of s (Name d, run) = Some r ->
    Acquire None d run dig now until s =
      (if bool_decide (bound_to s (Name d, run) = None \/ bound_to s (Name d, run) = Some dig)
       then inr (Existing r) else inl ErrIdempotencyConflict, s);
  (** finishing records its receipt, once; a job name holds no NUL byte *)
  finish_ok r s s' :
    Finish r s = (None, s') -> contains_nul (rc_Job r) = false ->
    forall k, contains_nul k.1 = false -> completed_of s' k = if bool_decide (k = (rc_Job r, rc_RunID r)) then Some r else completed_of s k;
  finish_bound r s e s' : Finish r s = (e, s') -> forall k, bound_to s' k = bound_to s k;
  finish_failed r s e s' : Finish r s = (Some e, s') -> s' = s;
  finish_once r s s' r0 : Finish r s = (None, s') -> completed_of s (rc_Job r, rc_RunID r) = Some r0 -> r0 = r;
}.

(** ** The runner *)

Record Runner := {
  rn_github : option (WatchInput -> JobErr + SyncResult);
  rn_interpreter : option (ResolvedTask -> Z -> JobErr + (WikiProposal * Z));
  rn_disabled : JobName -> bool;
  rn_granted : Capability -> bool;
  rn_definitions : gmap JobName Definition_ }.

Definition validID (value : string) : bool :=
  negb (seqb value "") && (len value <=? maxIdentifier) && seqb (TrimSpace value) value.

Definition validateInput (req : RunRequest) : bool :=
  if seqb (rr_Job req) GitHubWatcher then
    match rr_Watch req, rr_Resolved req with
    | Some w, None => validID (wi_Project w) && (len (wi_Cursor w) <=? maxIdentifier)
    | _, _ => false
    end
  else if seqb (rr_Job req) WikiCurator then
    match rr_Watch req, rr_Resolved req with
    | None, Some v =>
        validID (rt_Project v) && validID (rt_TaskID v) && seqb (rt_State v) "resolved"
        && (0 <? rt_ResolutionRevision v) && negb (seqb (rt_Title v) "") && (len (rt_Title v) <=? maxText)
        && negb (seqb (rt_Resolution v) "") && (len (rt_Resolution v) <=? maxText)
        && (Z.of_nat (length (rt_Evidence v)) <=? maxEvidence)
        && forallb (fun e => negb (seqb e "") && (len e <=? maxText)) (rt_Evidence v)
    | _, _ => false
    end
  else false.

Definition stableError (e : JobErr) : string :=
  match e with
  | Canceled => "canceled"
  | DeadlineExceeded => "deadline_exceeded"
  | ErrBudget => "budget_exceeded"
  | ErrInvalidInput => "invalid_output"
  | _ => "unavailable"
  end.

Definition proposal_valid (p : WikiProposal) (v : ResolvedTask) : bool :=
  seqb (pr_Project p) (rt_Project v) && seqb (pr_TaskID p) (rt_TaskID v)
  && negb (seqb (pr_Page p) "") && (len (pr_Page p) <=? maxIdentifier)
  && negb (seqb (pr_ProposedTitle p) "") && (len (pr_ProposedTitle p) <=? maxText)
  && negb (seqb (pr_ProposedBody p) "") && (len (pr_ProposedBody p) <=? maxText)
  && (len (pr_Basis p) <=? maxText) && (0 <=? pr_BaseRevision p) && pr_RequiresReview p.

Definition with_sync (r : Receipt) (s : SyncResult) : Receipt :=
  {| rc_RunID := rc_RunID r; rc_Job := rc_Job r; rc_Status := rc_Status r; rc_OutputType := rc_OutputType r;
     rc_StartedAt := rc_StartedAt r; rc_FinishedAt := rc_FinishedAt r; rc_Cursor := sy_Cursor s;
     rc_Changed := sy_Changed s; rc_TokensUsed := rc_TokensUsed r; rc_Error := rc_Error r;
     rc_Proposal := rc_Proposal r |}.

Definition with_proposal (r : Receipt) (tokens : Z) (p : WikiProposal) : Receipt :=
  {| rc_RunID := rc_RunID r; rc_Job := rc_Job r; rc_Status := rc_Status r; rc_OutputType := rc_OutputType r;
     rc_StartedAt := rc_StartedAt r; rc_FinishedAt := rc_FinishedAt r; rc_Cursor := rc_Cursor r;
     rc_Changed := rc_Changed r; rc_TokensUsed := tokens; rc_Error := rc_Error r; rc_Proposal := Some p |}.

(** [execute] returns its error and the receipt it may have filled in.  The
    input pointer it dereferences is set, [validateInput] has checked that. *)
Definition execute (rn : Runner) (d : Definition_) (req : RunRequest) (r : Receipt) : option JobErr * Receipt :=
  if seqb (rr_Job req) GitHubWatcher then
    match rn_github rn, rr_Watch req with
    | Some check, Some w =>
        if negb (TokenBudget d =? 0) || negb (seqb (AllowedOutput d) OutputSyncReceipt)
        then (Some ErrInvalidDefinition, r)
        else match check w with
             | inl e => (Some e, r)
             | inr s => if maxIdentifier <? len (sy_Cursor s) then (Some ErrInvalidInput, r) else (None, with_sync r s)
             end
    | _, _ => (Some ErrInvalidDefinition, r)
    end
  else if seqb (rr_Job req) WikiCurator then
    match rn_interpreter rn, rr_Resolved req with
    | Some propose, Some v =>
        if (TokenBudget d <=? 0) || negb (seqb (AllowedOutput d) OutputWikiRevisionProposal)
        then (Some ErrInvalidDefinition, r)
        else match propose v (TokenBudget d) with
             | inl e => (Some e, r)
             | inr (p, tokens) =>
                 if (tokens <? 0) || (TokenBudget d <? tokens) then (Some ErrBudget, r)
                 else if negb (proposal_valid p v) then (Some ErrInvalidInput, r)
                 else (None, with_proposal r tokens p)
             end
    | _, _ => (Some ErrInvalidDefinition, r)
    end
  else (Some ErrInvalidInput, r).

(** What surrounds one call of [Run]: the two clock readings, the context's
    error at the start, in [Acquire], and when the work is done, and what
    other runners do to the store in between. *)
Record RunEnv (S : Type) := {
  re_started : Z; re_finished : Z;
  re_ctx : option JobErr; re_acquire_ctx : option JobErr; re_run_ctx : option JobErr;
  re_others : S -> S }.
Arguments re_started {S} _.
Arguments re_finished {S} _.
Arguments re_ctx {S} _.
Arguments re_acquire_ctx {S} _.
Arguments re_run_ctx {S} _.
Arguments re_others {S} _ _.

Definition finished_receipt (r : Receipt) (finished : Z) (e : option JobErr) : Receipt :=
  {| rc_RunID := rc_RunID r; rc_Job := rc_Job r;
     rc_Status := match e with None => "succeeded" | Some _ => rc_Status r end;
     rc_OutputType := rc_OutputType r; rc_StartedAt := rc_StartedAt r; rc_FinishedAt := finished;
     rc_Cursor := rc_Cursor r; rc_Changed := rc_Changed r; rc_TokensUsed := rc_TokensUsed r;
     rc_Error := match e with None => rc_Error r | Some e => stableError e end;
     rc_Proposal := rc_Proposal r |}.

Section Run.
Context {S : Type} `{StateStore S}.
(** [encoding/json], [crypto/sha256] and [encoding/hex] on the versioned inputs *)
Context (watch_digest : WatchInput -> string) (curator_digest : ResolvedTask -> string).

Definition semanticInputDigest (req : RunRequest) : option string :=
  if seqb (rr_Job req) GitHubWatcher then watch_digest <$> rr_Watch req
  else if seqb (rr_Job req) WikiCurator then curator_digest <$> rr_Resolved req
  else None.

(** The work between the lease and the receipt. *)
Definition run_receipt (rn : Runner) (env : RunEnv S) (d : Definition_) (req : RunRequest)
    : option JobErr * Receipt :=
  let receipt :=
    {| rc_RunID := rr_RunID req; rc_Job := rr_Job req; rc_Status := "failed"; rc_OutputType := AllowedOutput d;
       rc_StartedAt := re_started env; rc_FinishedAt := 0; rc_Cursor := ""; rc_Changed := false;
       rc_TokensUsed := 0; rc_Error := ""; rc_Proposal := None |} in
  let '(e, receipt) := execute rn d req receipt in
  let e := match e with None => re_run_ctx env | Some _ => e end in
  let e := if MaxWallRuntime d <? time_Sub (re_finished env) (re_started env)
           then Some DeadlineExceeded else e in
  (e, finished_receipt receipt (re_finished env) e).

(** [Run] returns a receipt and an error, both of which may be set. *)
Definition Run (rn : Runner) (env : RunEnv S) (req : RunRequest) (s : S)
    : (option Receipt * option JobErr) * S :=
  match rn_definitions rn !! rr_Job req with
  | None => ((None, Some ErrInvalidInput), s)
  | Some d =>
      if seqb (rr_RunID req) "" || (maxIdentifier <? len (rr_RunID req))
         || negb (seqb (TrimSpace (rr_RunID req)) (rr_RunID req))
      then ((None, Some ErrInvalidInput), s)
      else match re_ctx env with
      | Some e => ((None, Some e), s)
      | None =>
          if rn_disabled rn (rr_Job req) then ((None, Some ErrDisabled), s)
          else if negb (forallb (rn_granted rn) (Capabilities d)) then ((None, Some ErrCapability), s)
          else if negb (validateInput req) then ((None, Some ErrInvalidInput), s)
          else match semanticInputDigest req with
          | None => ((None, Some ErrInvalidInput), s)
          | Some digest =>
              let started := re_started env in
              match Acquire (re_acquire_ctx env) d (rr_RunID req) digest started (started + MaxWallRuntime d) s with
              | (inl e, s1) => ((None, Some e), s1)
              | (inr (Existing r), s1) => ((Some r, None), s1)
              | (inr NotAcquired, s1) => ((None, Some ErrAlreadyRunning), s1)
              | (inr Acquired, s1) =>
                  let '(e, receipt) := run_receipt rn env d req in
                  match Finish receipt (re_others env s1) with
                  | (Some fe, s2) => ((None, Some fe), s2)
                  | (None, s2) => ((Some receipt, e), s2)
                  end
              end
          end
      end
  end.
End Run.

(** ** The in-memory store *)

Record lease := { l_runID : string; l_until : Z }.

Record MemoryStore := {
  active : gmap JobName lease;
  lastStart : gmap JobName Z;
  bindings : gmap string string;
  completed : gmap string Receipt }.

Definition NewMemoryStore : MemoryStore :=
  {| active := ∅; lastStart := ∅; bindings := ∅; completed := ∅ |}.

(** [string(job) + "\x00" + runID] *)
Definition run_key (job : JobName) (runID : string) : string := job +:+ String Ascii.zero runID.

Definition MemoryStore_Acquire (ctx : option JobErr) (d : Definition_) (runID inputDigest : string)
    (now leaseUntil : Z) (s : MemoryStore) : (JobErr + AcquireResult) * MemoryStore :=
  match ctx with
  | Some e => (inl e, s)
  | None =>
      let key := run_key (Name d) runID in
      if match bindings s !! key with Some bound => negb (seqb bound inputDigest) | None => false end
      then (inl ErrIdempotencyConflict, s)
      else match completed s !! key with
      | Some receipt => (inr (Existing receipt), s)
      | None =>
          if match active s !! Name d with Some current => now <? l_until current | None => false end
          then (inl ErrAlreadyRunning, s)
          else if match lastStart s !! Name d with Some last => now <? last + MinimumInterval d | None => false end
          then (inl ErrTooSoon, s)
          else (inr Acquired,
                {| active := <[Name d:={| l_runID := runID; l_until := leaseUntil |}]> (active s);
                   lastStart := <[Name d:=now]> (lastStart s);
                   bindings := <[key:=inputDigest]> (bindings s);
                   completed := completed s |})
      end
  end.

Definition MemoryStore_Finish (r : Receipt) (s : MemoryStore) : option JobErr * MemoryStore :=
  let key := run_key (rc_Job r) (rc_RunID r) in
  match completed s !! key with
  | Some existing => if bool_decide (existing = r) then (None, s) else (Some ErrInvalidInput, s)
  | None =>
      match active s !! rc_Job r with
      | Some current =>
          if negb (seqb (l_runID current) (rc_RunID r)) then (Some ErrAlreadyRunning, s)
          else (None,
                {| active := delete (rc_Job r) (active s); lastStart := lastStart s; bindings := bindings s;
                   completed := <[key:=r]> (completed s) |})
      | None => (Some ErrAlreadyRunning, s)
      end
  end.

#[export] Instance MemoryStore_StateStore : StateStore MemoryStore :=
  {| Acquire := MemoryStore_Acquire; Finish := MemoryStore_Finish |}.

(** ** The memory store keeps the interface's promises *)

Lemma run_key_inj j1 r1 j2 r2 :
  contains_nul j1 = false -> contains_nul j2 = false -> run_key j1 r1 = run_key j2 r2 -> j1 = j2 /\ r1 = r2.
Proof.
  unfold run_key, contains_nul. rewrite !negb_false_iff. revert j2.
  induction j1 as [|a j1 IH]; intros [|b j2]; simpl; intros H1 H2 Heq.
  - by injection Heq as ->.
  - injection Heq as <- _. by apply andb_true_iff in H2 as [? _].
  - injection Heq as -> _. by apply andb_true_iff in H1 as [? _].
  - injection Heq as -> Heq. apply andb_true_iff in H1 as [_ H1], H2 as [_ H2].
    by destruct (IH j2 H1 H2 Heq) as [-> ->].
Qed.

Lemma MemoryStore_Acquire_cases ctx d run dig now until s res s' :
  MemoryStore_Acquire ctx d run dig now until s = (res, s') ->
  s' = s /\ res <> inr Acquired \/
  res = inr Acquired /\ completed s !! run_key (Name d) run = None /\
  (forall b, bindings s !! run_key (Name d) run = Some b -> b = dig) /\
  (forall l, active s !! Name d = Some l -> l_until l <= now) /\
  (forall t, lastStart s !! Name d = Some t -> t + MinimumInterval d <= now) /\
  s' = {| active := <[Name d:={| l_runID := run; l_until := until |}]> (active s);
          lastStart := <[Name d:=now]> (lastStart s);
          bindings := <[run_key (Name d) run:=dig]> (bindings s); completed := completed s |}.
Proof.
  unfold MemoryStore_Acquire. intros H.
  destruct ctx; [by left; simplify_eq|].
  destruct (match bindings s !! _ with Some _ => _ | None => _ end) eqn:Hb; [by left; simplify_eq|].
  destruct (completed s !! _) eqn:Hc; [by left; simplify_eq|].
  destruct (match active s !! _ with Some _ => _ | None => _ end) eqn:Ha; [by left; simplify_eq|].
  destruct (match lastStart s !! _ with Some _ => _ | None => _ end) eqn:Hl; [by left; simplify_eq|].
  right. simplify_eq. split_and!; try done.
  - intros b E. rewrite E in Hb. by bool_inv.
  - intros l E. rewrite E in Ha. by bool_inv.
  - intros t E. rewrite E in Hl. by bool_inv.
Qed.

Lemma MemoryStore_Finish_cases r s e s' :
  MemoryStore_Finish r s = (e, s') ->
  s' = s /\ (e = None -> completed s !! run_key (rc_Job r) (rc_RunID r) = Some r) \/
  e = None /\ completed s !! run_key (rc_Job r) (rc_RunID r) = None /\
  s' = {| active := delete (rc_Job r) (active s); lastStart := lastStart s; bindings := bindings s;
          completed := <[run_key (rc_Job r) (rc_RunID r):=r]> (completed s) |}.
Proof.
  unfold MemoryStore_Finish. intros H.
  destruct (completed s !! _) as [x|] eqn:Hc.
  - case_bool_decide; simplify_eq; by left.
  - destruct (active s !! _) as [l|]; [|by left; simplify_eq].
    destruct (negb _); simplify_eq; [by left|by right].
Qed.

(** Whatever is running or complete is bound to an input. *)
Record memory_ok (s : MemoryStore) : Prop := {
  mo_active j l : active s !! j = Some l -> is_Some (bindings s !! run_key j (l_runID l));
  mo_completed key r : completed s !! key = Some r -> is_Some (bindings s !! key);
}.

Lemma memory_ok_new : memory_ok NewMemoryStore.
Proof. split; intros *; simpl; by rewrite lookup_empty. Qed.

Lemma memory_ok_Acquire ctx d run dig now until s res s' :
  MemoryStore_Acquire ctx d run dig now until s = (res, s') -> memory_ok s -> memory_ok s'.
Proof.
  intros [[-> _]|(_ & _ & _ & _ & _ & ->)]%MemoryStore_Acquire_cases [Ha Hc]; [done|].
  split; simpl; intros *; rewrite lookup_insert_is_Some'.
  - intros [[<- <-]|[_ ?]]%lookup_insert_Some; [by left|right; eauto].
  - intros ?. right. eauto.
Qed.

Lemma memory_ok_Finish r s e s' : MemoryStore_Finish r s = (e, s') -> memory_ok s -> memory_ok s'.
Proof.
  unfold MemoryStore_Finish. intros Hrun [Ha Hc]. repeat (case_match; simplify_eq); try done.
  split; simpl.
  - intros j l0 [_ ?]%lookup_delete_Some. eauto.
  - intros key x [[<- <-]|[_ ?]]%lookup_insert_Some; [|by eauto]. bool_inv.
    match goal with H : active s !! _ = Some ?l, E : l_runID ?l = _ |- _ => apply Ha in H; by rewrite E in H end.
Qed.

#[export] Instance MemoryStore_Laws : StateStoreLaws MemoryStore.
Proof.
  refine {| completed_of := fun s k => completed s !! run_key k.1 k.2;
            bound_to := fun s k => bindings s !! run_key k.1 k.2;
            store_ok := memory_ok |}; simpl.
  - intros *. apply memory_ok_Acquire.
  - intros *. apply memory_ok_Finish.
  - by intros * [[-> _]|(_ & _ & _ & _ & _ & ->)]%MemoryStore_Acquire_cases k.
  - intros * [[-> _]|(_ & _ & Hb & _ & _ & ->)]%MemoryStore_Acquire_cases k b Hk; [done|]. simpl.
    destruct (decide (run_key (Name d) run = run_key k.1 k.2)) as [E|]; [|by rewrite lookup_insert_ne].
    rewrite E, lookup_insert_eq. rewrite E in Hb. by rewrite (Hb _ Hk).
  - intros * [[_ ?]|(_ & Hc & _ & _ & _ & ->)]%MemoryStore_Acquire_cases; [done|]. simpl.
    by rewrite lookup_insert_eq.
  - unfold MemoryStore_Acquire. intros * Hrun Hok.
    destruct ctx; [done|]. destruct (bindings s !! _) as [b|] eqn:Hb.
    + destruct (seqb b dig) eqn:Hs; [|done]. simpl in Hrun. bool_inv. subst b.
      repeat (case_match; simplify_eq); done.
    + destruct (completed s !! _) eqn:Hc; [|repeat (case_match; simplify_eq)].
      destruct (mo_completed _ Hok _ _ Hc). congruence.
  - intros * Hc. unfold MemoryStore_Acquire.
    destruct (bindings s !! run_key (Name d) run) as [b|] eqn:Hb.
    + destruct (seqb b dig) eqn:Hs; simpl; bool_inv; rewrite ?Hc.
      * rewrite bool_decide_eq_true_2 by (right; congruence). done.
      * rewrite bool_decide_eq_false_2 by naive_solver. done.
    + rewrite Hc, bool_decide_eq_true_2 by auto. done.
  - intros r s s' [[-> Hsame]|(_ & _ & ->)]%MemoryStore_Finish_cases Hj [j run] Hk; simpl in *.
    + case_bool_decide; [|done]. simplify_eq. by apply Hsame.
    + case_bool_decide as E; [simplify_eq; by rewrite lookup_insert_eq|].
      rewrite lookup_insert_ne; [done|]. intros Heq. apply E.
      by destruct (run_key_inj _ _ _ _ Hj Hk Heq) as [-> ->].
  - by intros * [[-> _]|(_ & _ & ->)]%MemoryStore_Finish_cases k.
  - by intros * [[-> _]|(? & _ & _)]%MemoryStore_Finish_cases.
  - intros r s s' r0 [[-> Hsame]|(_ & Hn & _)]%MemoryStore_Finish_cases Hc; [|congruence].
    rewrite Hsame in Hc by done. congruence.
Defined.

(** ** What a run produces *)

(** A receipt inside the authority envelope of its job. *)
Record receipt_ok (defs : gmap JobName Definition_) (r : Receipt) (d : Definition_) : Prop := {
  ro_definition : defs !! rc_Job r = Some d;
  ro_output : rc_OutputType r = AllowedOutput d;
  ro_tokens : 0 <= rc_TokensUsed r <= TokenBudget d;
  ro_status : rc_Status r = "failed"%string \/
    rc_Status r = "succeeded"%string /\ rc_Error r = ""%string /\
    time_Sub (rc_FinishedAt r) (rc_StartedAt r) <= MaxWallRuntime d;
  ro_watcher : rc_Job r = GitHubWatcher -> rc_Proposal r = None /\ rc_TokensUsed r = 0;
  ro_proposal p : rc_Proposal r = Some p ->
    pr_RequiresReview p = true /\ 0 <= pr_BaseRevision p /\ len (pr_ProposedBody p) <= maxText;
}.

(** The definitions a runner was built with. *)
Definition definitions_ok (defs : gmap JobName Definition_) : Prop :=
  map_Forall (fun j d => Name d = j /\ Validate d = true /\ validateBuiltinDefinition d = true) defs.

Lemma add_definitions_ok m l m' :
  add_definitions m l = Some m' -> definitions_ok m -> definitions_ok m'.
Proof.
  revert m. induction l as [|d l IH]; intros m; simpl; [by intros [= ->]|].
  destruct (Validate d) eqn:Hv; [|done]. destruct (validateBuiltinDefinition d) eqn:Hb; [|done]. simpl.
  case_bool_decide; [done|]. intros Hadd Hm. eapply IH; [done|]. by apply map_Forall_insert_2.
Qed.

Lemma NewRunner_ok l defs : NewRunner l = Some defs -> definitions_ok defs.
Proof.
  unfold NewRunner. destruct (add_definitions ∅ l) as [m|] eqn:E; [|done]. case_match; [done|]. intros [= <-].
  eapply add_definitions_ok; [done|apply map_Forall_empty].
Qed.

Lemma builtin_names d :
  validateBuiltinDefinition d = true -> Name d = GitHubWatcher \/ Name d = WikiCurator.
Proof. unfold validateBuiltinDefinition. repeat case_match; bool_inv; auto; done. Qed.

Lemma Validate_bounds d : Validate d = true -> 0 < MaxWallRuntime d /\ 0 <= TokenBudget d /\ 0 <= MinimumInterval d.
Proof. unfold Validate. intros H. bool_inv. lia. Qed.

Section RunFacts.
Context {S : Type} `{StateStoreLaws S}.
Context (watch_digest : WatchInput -> string) (curator_digest : ResolvedTask -> string).

(** The two ways [Run] hands out a receipt. *)
Lemma Run_receipt_inv rn env req s r e s' :
  Run watch_digest curator_digest rn env req s = ((Some r, e), s') ->
  exists d digest, rn_definitions rn !! rr_Job req = Some d /\
    (seqb (rr_RunID req) "" || (maxIdentifier <? len (rr_RunID req))
       || negb (seqb (TrimSpace (rr_RunID req)) (rr_RunID req)) = false) /\
    rn_disabled rn (rr_Job req) = false /\ forallb (rn_granted rn) (Capabilities d) = true /\
    validateInput req = true /\ semanticInputDigest watch_digest curator_digest req = Some digest /\
    ((Acquire (re_acquire_ctx env) d (rr_RunID req) digest (re_started env) (re_started env + MaxWallRuntime d) s
        = (inr (Existing r), s') /\ e = None) \/
     exists s1, Acquire (re_acquire_ctx env) d (rr_RunID req) digest (re_started env)
          (re_started env + MaxWallRuntime d) s = (inr Acquired, s1) /\
        run_receipt rn env d req = (e, r) /\ Finish r (re_others env s1) = (None, s')).
Proof.
  unfold Run. destruct (rn_definitions rn !! _) as [d|]; [|done].
  destruct (_ || _ || _) eqn:Hid; [done|]. destruct (re_ctx env); [done|].
  destruct (rn_disabled _ _) eqn:Hdis; [done|]. destruct (forallb _ _) eqn:Hcap; [|done]. simpl.
  destruct (validateInput req) eqn:Hin; [|done]. simpl.
  destruct (semanticInputDigest _ _ req) as [digest|] eqn:Hdig; [|done].
  destruct (Acquire _ _ _ _ _ _ _) as [[|[]] s1] eqn:Hacq; try done.
  - destruct (run_receipt rn env d req) as [e1 r1] eqn:Hr. destruct (Finish r1 _) as [[] s2] eqn:Hf; [done|].
    intros [= -> -> ->]. exists d, digest. split_and!; try done. right. exists s1. auto.
  - intros [= -> <- ->]. exists d, digest. split_and!; try done. by left.
Qed.

(** A fresh receipt is in the envelope. *)
Lemma run_receipt_ok rn env d req e r :
  definitions_ok (rn_definitions rn) -> rn_definitions rn !! rr_Job req = Some d ->
  run_receipt (S := S) rn env d req = (e, r) -> receipt_ok (rn_definitions rn) r d /\ rc_Job r = rr_Job req /\
    rc_RunID r = rr_RunID req.
Proof.
  intros Hdefs Hd. destruct (Hdefs _ _ Hd) as (Hname & Hval & _). pose proof (Validate_bounds _ Hval) as (_ & Htb & _).
  unfold run_receipt. destruct (execute rn d req _) as [e1 r1] eqn:Hex. intros [= <- <-].
  assert (rc_RunID r1 = rr_RunID req /\ rc_Job r1 = rr_Job req /\ rc_Status r1 = "failed"%string /\
    rc_OutputType r1 = AllowedOutput d /\ rc_StartedAt r1 = re_started env /\ rc_Error r1 = ""%string /\
    0 <= rc_TokensUsed r1 <= TokenBudget d /\
    (rc_Job r1 = GitHubWatcher -> rc_Proposal r1 = None /\ rc_TokensUsed r1 = 0) /\
    forall p, rc_Proposal r1 = Some p ->
      pr_RequiresReview p = true /\ 0 <= pr_BaseRevision p /\ len (pr_ProposedBody p) <= maxText)
    as (H1 & H2 & H3 & H4 & H5 & H6 & H7 & H8 & H9).
  { unfold execute in Hex. repeat (case_match; simplify_eq/=); unfold proposal_valid in *; bool_inv;
      (split_and!; try done; try lia); try (intros ?; congruence).
    all: intros; simplify_eq; unfold proposal_valid in *; bool_inv; split_and!; done. }
  split_and!; [|done|done].
  split; simpl; rewrite ?H2, ?H4, ?H5, ?H6; try done.
  - destruct (Z.ltb_spec (MaxWallRuntime d) (time_Sub (re_finished env) (re_started env))); [by left|].
    destruct (match e1 with Some _ => _ | None => _ end); [by left|by right].
  - by rewrite H2 in H8.
Qed.
End RunFacts.

(** ** Properties of the runner, against the interface *)

(** Other runners neither rebind a key nor change a completed receipt. *)
Definition others_respect {S} `{StateStoreLaws S} (f : S -> S) : Prop :=
  forall s, (store_ok s -> store_ok (f s)) /\
    (forall k b, bound_to s k = Some b -> bound_to (f s) k = Some b) /\
    (forall k r, completed_of s k = Some r -> completed_of (f s) k = Some r).

Section RunProperties.
Context {S : Type} `{HL : StateStoreLaws S}.
Context (watch_digest : WatchInput -> string) (curator_digest : ResolvedTask -> string).

(** A receipt a run hands out is inside its job's envelope: the declared
    output type, no more tokens than budgeted, finished in time if it
    succeeded, no proposal from the watcher, and only proposals that require
    review; and every receipt it leaves in the store is too. *)
Theorem run_within_envelope l rn env req s r e s' :
  NewRunner l = Some (rn_definitions rn) -> store_ok s ->
  (forall k x, contains_nul k.1 = false -> completed_of s k = Some x -> exists d, receipt_ok (rn_definitions rn) x d) ->
  (forall s1, store_ok s1 -> store_ok (re_others env s1) /\ forall k, completed_of (re_others env s1) k = completed_of s1 k) ->
  Run watch_digest curator_digest rn env req s = ((Some r, e), s') ->
  (exists d, receipt_ok (rn_definitions rn) r d) /\
  forall k x, contains_nul k.1 = false -> completed_of s' k = Some x -> exists d, receipt_ok (rn_definitions rn) x d.
Proof.
  intros Hnew Hok Hall Hoth Hrun. apply NewRunner_ok in Hnew.
  apply Run_receipt_inv in Hrun as (d & dig & Hd & _ & _ & _ & _ & _ & [[Hacq _]|(s1 & Hacq & Hrec & Hfin)]).
  - apply acquire_existing in Hacq as (-> & Hc & _); [|done]. split; [|done]. eapply Hall; [|done]. simpl.
    destruct (Hnew _ _ Hd) as (Hn & _ & Hb). destruct (builtin_names _ Hb) as [-> | ->]; done.
  - destruct (run_receipt_ok rn env d req e r Hnew Hd Hrec) as (Hro & Hj & _). split; [by eauto|].
    intros k x Hk Hx. pose proof (acquire_completed _ _ _ _ _ _ _ _ _ Hacq k) as Hsame.
    destruct (Hoth s1 (acquire_store_ok _ _ _ _ _ _ _ _ _ Hacq Hok)) as [_ Hcomp].
    rewrite (finish_ok _ _ _ Hfin), Hcomp, Hsame in Hx; [|rewrite Hj|done].
    + case_bool_decide; [simplify_eq; eauto|by eapply Hall].
    + destruct (Hnew _ _ Hd) as (<- & _ & Hb). destruct (builtin_names _ Hb) as [-> | ->]; done.
Qed.

(** A run that returned a receipt is idempotent: the same request, at any
    later time and against any later state of the store, returns the same
    receipt without doing the work or changing the store, even if the first
    run had failed. *)
Theorem run_idempotent rn env req s r e s' env2 s2 :
  definitions_ok (rn_definitions rn) -> store_ok s -> others_respect (re_others env) ->
  Run watch_digest curator_digest rn env req s = ((Some r, e), s') ->
  (forall k b, bound_to s' k = Some b -> bound_to s2 k = Some b) ->
  (forall k x, completed_of s' k = Some x -> completed_of s2 k = Some x) ->
  re_ctx env2 = None -> re_acquire_ctx env2 = None ->
  Run watch_digest curator_digest rn env2 req s2 = ((Some r, None), s2).
Proof.
  intros Hdefs Hok Hoth Hrun Hb Hc Hctx Hactx.
  apply Run_receipt_inv in Hrun as (d & dig & Hd & Hid & Hdis & Hcap & Hin & Hdig & Hcase).
  destruct (Hdefs _ _ Hd) as (Hname & _ & Hbuiltin).
  assert (bound_to s2 (Name d, rr_RunID req) = Some dig /\ completed_of s2 (Name d, rr_RunID req) = Some r)
    as [Hbound Hcomp].
  { destruct Hcase as [[Hacq _]|(s1 & Hacq & Hrec & Hfin)].
    - apply acquire_existing in Hacq as (-> & ? & ?); [|done]. auto.
    - apply acquire_granted in Hacq as [_ Hb1]. destruct (Hoth s1) as (_ & Hob & _). apply Hob in Hb1.
      destruct (run_receipt_ok rn env d req e r Hdefs Hd Hrec) as (_ & Hj & Hr). split.
      + apply Hb. by rewrite (finish_bound _ _ _ _ Hfin).
      + apply Hc. assert (contains_nul (Name d) = false) as Hnul.
        { destruct (builtin_names _ Hbuiltin) as [-> | ->]; done. }
        rewrite (finish_ok _ _ _ Hfin); [|by rewrite Hj, <- Hname|done].
        by rewrite Hj, Hr, Hname, bool_decide_eq_true_2. }
  unfold Run. rewrite Hd, Hid, Hctx, Hdis, Hcap, Hin, Hdig, Hactx. simpl.
  rewrite (acquire_answers _ _ _ _ _ _ _ Hcomp), bool_decide_eq_true_2 by auto. done.
Qed.
End RunProperties.

(** ** Traces of the memory store *)

Inductive StoreOp :=
  | SAcquire (ctx : option JobErr) (d : Definition_) (runID inputDigest : string) (now leaseUntil : Z)
  | SFinish (r : Receipt).

(** A lease that was granted. *)
Record Grant := { g_job : JobName; g_run : string; g_now : Z; g_until : Z; g_interval : Z }.

Definition store_op (op : StoreOp) (s : MemoryStore) : MemoryStore * option Grant :=
  match op with
  | SAcquire ctx d run dig now until =>
      match MemoryStore_Acquire ctx d run dig now until s with
      | (inr Acquired, s') =>
          (s', Some {| g_job := Name d; g_run := run; g_now := now; g_until := until; g_interval := MinimumInterval d |})
      | (_, s') => (s', None)
      end
  | SFinish r => ((MemoryStore_Finish r s).2, None)
  end.

(** The store and the grants, the latest first. *)
Fixpoint store_trace (ops : list StoreOp) (s : MemoryStore) (log : list Grant) : MemoryStore * list Grant :=
  match ops with
  | [] => (s, log)
  | op :: ops' =>
      let '(s', g) := store_op op s in
      store_trace ops' s' (match g with Some g => g :: log | None => log end)
  end.

Definition op_valid (op : StoreOp) : Prop :=
  match op with SAcquire _ d _ _ _ _ => 0 <= MinimumInterval d | SFinish _ => True end.

(** A later grant [g2] of the same job comes after the minimum interval, and
    after the earlier lease ended: by its own expiry or by a receipt. *)
Definition grant_after (s : MemoryStore) (g2 g1 : Grant) : Prop :=
  g_job g1 = g_job g2 ->
  g_now g1 + g_interval g2 <= g_now g2 /\
  (g_until g1 <= g_now g2 \/ is_Some (completed s !! run_key (g_job g1) (g_run g1))).

Definition grant_status (s : MemoryStore) (g : Grant) : Prop :=
  exists t, lastStart s !! g_job g = Some t /\ g_now g <= t /\
    (g_until g <= t \/ is_Some (completed s !! run_key (g_job g) (g_run g)) \/
     active s !! g_job g = Some {| l_runID := g_run g; l_until := g_until g |}).

Record trace_inv (s : MemoryStore) (log : list Grant) : Prop := {
  ti_status : Forall (grant_status s) log;
  ti_pairs : StronglySorted (grant_after s) log;
}.

Lemma grant_after_mono s s' log :
  completed s ⊆ completed s' -> StronglySorted (grant_after s) log -> StronglySorted (grant_after s') log.
Proof.
  intros Hsub. assert (forall g2 g1, grant_after s g2 g1 -> grant_after s' g2 g1) as Himp.
  { intros g2 g1 Hg Hj. destruct (Hg Hj) as [? [?|[x Hx]]]; (split; [done|]); [by left|right].
    exists x. by eapply lookup_weaken. }
  induction 1 as [|g log Hs IH Hall]; constructor; [done|]. eapply Forall_impl; [exact Hall|]. auto.
Qed.

Lemma trace_inv_acquire ctx d run dig now until s s' log :
  0 <= MinimumInterval d -> MemoryStore_Acquire ctx d run dig now until s = (inr Acquired, s') -> trace_inv s log ->
  trace_inv s' ({| g_job := Name d; g_run := run; g_now := now; g_until := until; g_interval := MinimumInterval d |} :: log).
Proof.
  intros Hint Hacq [Hst Hp].
  apply MemoryStore_Acquire_cases in Hacq as [[_ ?]|(_ & _ & _ & Hact & Hlast & ->)]; [done|].
  rewrite Forall_forall in Hst. split.
  - constructor.
    + exists now. simpl. rewrite !lookup_insert_eq. split_and!; [done|lia|auto].
    + apply Forall_forall. intros g Hg. destruct (Hst g Hg) as (t & Ht & Hle & Hs). unfold grant_status. simpl.
      destruct (decide (Name d = g_job g)) as [E|E]; [|rewrite !lookup_insert_ne by done; eauto].
      rewrite <- E in *. rewrite !lookup_insert_eq. specialize (Hlast t Ht). exists now. split_and!; [done|lia|].
      destruct Hs as [?|[?|Ha]]; [left; lia|auto|]. left. by apply (Hact _ Ha).
  - constructor; [by eapply grant_after_mono|].
    apply Forall_forall. intros g Hg Hj. simpl in *. destruct (Hst g Hg) as (t & Ht & Hle & Hs). rewrite Hj in Ht.
    specialize (Hlast t Ht). split; [lia|].
    destruct Hs as [?|[?|Ha]]; [left; lia|auto|]. left. rewrite Hj in Ha. by apply (Hact _ Ha).
Qed.

Lemma trace_inv_finish r s e s' log :
  MemoryStore_Finish r s = (e, s') -> trace_inv s log -> trace_inv s' log.
Proof.
  unfold MemoryStore_Finish. intros Hrun [Hst Hp]. repeat (case_match; simplify_eq); try done. bool_inv.
  assert (completed s ⊆ <[run_key (rc_Job r) (rc_RunID r):=r]> (completed s)) as Hsub by (by apply insert_subseteq).
  split; [|by eapply grant_after_mono].
  eapply Forall_impl; [done|]. intros g (t & Ht & Hle & Hs). exists t. simpl. split_and!; [done|done|].
  destruct Hs as [?|[[x Hx]|Ha]]; [auto|right; left; exists x; by eapply lookup_weaken|].
  destruct (decide (rc_Job r = g_job g)) as [E|E]; [|right; right; by rewrite lookup_delete_ne].
  right. left. rewrite E in *. simplify_eq. simpl in *.
  match goal with H : g_run g = _ |- _ => rewrite H end. rewrite lookup_insert_eq. eauto.
Qed.

Lemma trace_inv_op op s log :
  op_valid op -> trace_inv s log ->
  trace_inv (store_op op s).1 (match (store_op op s).2 with Some g => g :: log | None => log end).
Proof.
  destruct op as [ctx d run dig now until|r]; simpl; intros Hv Hinv.
  - destruct (MemoryStore_Acquire ctx d run dig now until s) as [res s'] eqn:E.
    destruct res as [err|[]]; simpl.
    2: by eapply trace_inv_acquire.
    all: by apply MemoryStore_Acquire_cases in E as [[-> _]|(? & _)].
  - destruct (MemoryStore_Finish r s) as [e s'] eqn:E. by eapply trace_inv_finish.
Qed.

(** C20: for any sequence of acquisitions and completions, in any order, from
    any number of runners: two grants of one job are at least its minimum
    interval apart, and the earlier lease had expired or its run had recorded
    its receipt before the later one was granted. *)
Theorem leases_exclusive_and_spaced ops s log :
  Forall op_valid ops -> store_trace ops NewMemoryStore [] = (s, log) ->
  StronglySorted (grant_after s) log.
Proof.
  assert (forall ops s0 log0, Forall op_valid ops -> trace_inv s0 log0 -> store_trace ops s0 log0 = (s, log) ->
    trace_inv s log) as Hgen.
  { clear. induction ops as [|op ops IH]; intros s0 log0 Hv Hinv; simpl; [by intros [= <- <-]|].
    apply Forall_cons in Hv as [Hop Hv]. pose proof (trace_inv_op op s0 log0 Hop Hinv) as Hnext.
    destruct (store_op op s0) as [s1 g]. by apply IH. }
  intros Hv Hrun. eapply Hgen; [done| |done]. split; constructor.
Qed.

(** ** Witnesses *)

Module JobsDemo.
Definition defs : list Definition_ := [WatcherDefinition 60 30; CuratorDefinition 0 30 1000].
Definition request : RunRequest :=
  {| rr_RunID := "run-1"; rr_Job := WikiCurator; rr_Watch := None;
     rr_Resolved := Some {| rt_Project := "demo"; rt_TaskID := "T-1"; rt_State := "resolved";
       rt_ResolutionRevision := 3; rt_Title := "t"; rt_Resolution := "r"; rt_Evidence := ["e"%string] |} |}.
Definition proposal : WikiProposal :=
  {| pr_Project := "demo"; pr_TaskID := "T-1"; pr_Page := "home"; pr_BaseRevision := 0; pr_ProposedTitle := "Home";
     pr_ProposedBody := "b"; pr_Basis := ""; pr_RequiresReview := true |}.
Definition runner : Runner :=
  {| rn_github := Some (fun _ => inr {| sy_Cursor := "c"; sy_Changed := true |});
     rn_interpreter := Some (fun _ _ => inr (proposal, 12)); rn_disabled := fun _ => false;
     rn_granted := fun _ => true; rn_definitions := default ∅ (NewRunner defs) |}.
Definition env (started finished : Z) : RunEnv MemoryStore :=
  {| re_started := started; re_finished := finished; re_ctx := None; re_acquire_ctx := None; re_run_ctx := None;
     re_others := fun s => s |}.
Definition wd (w : WatchInput) : string := wi_Project w.
Definition cd (v : ResolvedTask) : string := rt_TaskID v.
(** in time, and past the deadline *)
Definition good := Run wd cd runner (env 100 110) request NewMemoryStore.
Definition late := Run wd cd runner (env 100 200) request NewMemoryStore.
Definition ops : list StoreOp :=
  [SAcquire None (WatcherDefinition 60 30) "a" "d" 100 130; SAcquire None (WatcherDefinition 60 30) "b" "d" 150 180;
   SAcquire None (WatcherDefinition 60 30) "c" "d" 160 190].
End JobsDemo.

Lemma run_within_envelope_witness :
  exists r d, JobsDemo.good.1 = (Some r, None) /\ receipt_ok (rn_definitions JobsDemo.runner) r d /\ rc_TokensUsed r = 12.
Proof.
  assert (exists r, JobsDemo.good = ((Some r, None), JobsDemo.good.2) /\ rc_TokensUsed r = 12) as (r & Hrun & Htok).
  { eexists. split; [vm_compute; reflexivity|reflexivity]. }
  destruct (run_within_envelope JobsDemo.wd JobsDemo.cd JobsDemo.defs JobsDemo.runner (JobsDemo.env 100 110)
    JobsDemo.request NewMemoryStore r None JobsDemo.good.2) as [[d Hd] _].
  - vm_compute. reflexivity.
  - apply memory_ok_new.
  - intros k x _. simpl. rewrite lookup_empty. discriminate.
  - intros s1 Hs1. split; [exact Hs1|reflexivity].
  - exact Hrun.
  - exists r, d. split; [rewrite Hrun; reflexivity|]. exact (conj Hd Htok).
Defined.

Lemma run_idempotent_witness :
  exists r, JobsDemo.late.1 = (Some r, Some DeadlineExceeded) /\ rc_Error r = "deadline_exceeded"%string /\
    Run JobsDemo.wd JobsDemo.cd JobsDemo.runner (JobsDemo.env 900 901) JobsDemo.request JobsDemo.late.2
      = ((Some r, None), JobsDemo.late.2).
Proof.
  assert (exists r, JobsDemo.late = ((Some r, Some DeadlineExceeded), JobsDemo.late.2) /\
    rc_Error r = "deadline_exceeded"%string) as (r & Hrun & Herr).
  { eexists. split; [vm_compute; reflexivity|reflexivity]. }
  exists r. split; [rewrite Hrun; reflexivity|]. split; [exact Herr|].
  refine (run_idempotent JobsDemo.wd JobsDemo.cd JobsDemo.runner (JobsDemo.env 100 200) JobsDemo.request
    NewMemoryStore r (Some DeadlineExceeded) JobsDemo.late.2 (JobsDemo.env 900 901) JobsDemo.late.2
    _ memory_ok_new _ Hrun _ _ eq_refl eq_refl).
  - apply (NewRunner_ok JobsDemo.defs). vm_compute. reflexivity.
  - intros s. split_and!; auto.
  - intros k b Hb. exact Hb.
  - intros k x Hx. exact Hx.
Defined.

Lemma leases_exclusive_and_spaced_witness :
  exists s g2 g1, store_trace JobsDemo.ops NewMemoryStore [] = (s, [g2; g1]) /\ g_now g2 = 160 /\
    StronglySorted (grant_after s) [g2; g1].
Proof.
  destruct (store_trace JobsDemo.ops NewMemoryStore []) as [s log] eqn:E.
  assert (exists g2 g1, log = [g2; g1] /\ g_now g2 = 160) as (g2 & g1 & Hlog & Hnow).
  { change log with (s, log).2. rewrite <- E. vm_compute. eexists _, _. split; reflexivity. }
  exists s, g2, g1. rewrite Hlog in E |- *. split; [reflexivity|]. split; [exact Hnow|].
  apply (leases_exclusive_and_spaced JobsDemo.ops s [g2; g1]); [|exact E].
  repeat constructor; simpl; lia.
Defined.
