(* ===== verification/Presence.v ===== *)
(** * Live presence

    [internal/presence/registry.go]: a process-local registry of sessions,
    each with its connectivity, last activity and execution lease.  Every
    method runs under the registry's lock, so a method is one atomic function
    of the state and of the clock reading it takes. *)

From S2P Require Import Prelude GoText.
From stdpp Require Import base gmap strings list sets sorting.
From Stdlib Require Import ZArith Lia.

Local Open Scope Z_scope.

(** ** State *)

Record record := {
  r_Session : string; r_Actor : string; r_Host : string; r_Project : string; r_HostConnected : bool;
  r_LastActivity : Z; r_LoadedFact : option string; r_LeaseExpires : Z }.

Record Snapshot := {
  sn_Session : string; sn_Actor : string; sn_Host : string; sn_Project : string; sn_HostConnected : bool;
  sn_Execution : string; sn_LeaseExpires : option Z; sn_LastActivity : Z; sn_LoadedFact : option string }.

Record Session := { s_ID : string; s_Actor : string; s_Host : string; s_Project : string }.

(** the value of a missing map entry *)
Definition record_zero : record :=
  {| r_Session := ""; r_Actor := ""; r_Host := ""; r_Project := ""; r_HostConnected := false;
     r_LastActivity := zeroTime; r_LoadedFact := None; r_LeaseExpires := zeroTime |}.

Notation Registry := (gmap string record).
Definition New : Registry := ∅.

(** ** Methods *)

Definition Connect (s : Session) (now : Z) (r : Registry) : Registry :=
  let rec := default record_zero (r !! s_ID s) in
  <[s_ID s:={| r_Session := s_ID s; r_Actor := s_Actor s; r_Host := s_Host s; r_Project := s_Project s;
               r_HostConnected := true; r_LastActivity := now; r_LoadedFact := r_LoadedFact rec;
               r_LeaseExpires := r_LeaseExpires rec |}]> r.

(** [rec, ok := r.sessions[session]; if !ok { return false }; ...; r.sessions[session] = rec] *)
Definition update_session (session : string) (f : record -> record) (r : Registry) : bool * Registry :=
  match r !! session with
  | None => (false, r)
  | Some rec => (true, <[session:=f rec]> r)
  end.

Definition Disconnect (session : string) (now : Z) (r : Registry) : Registry :=
  (update_session session (fun rec =>
     {| r_Session := r_Session rec; r_Actor := r_Actor rec; r_Host := r_Host rec; r_Project := r_Project rec;
        r_HostConnected := false; r_LastActivity := now; r_LoadedFact := r_LoadedFact rec;
        r_LeaseExpires := r_LeaseExpires rec |}) r).2.

Definition Touch (session : string) (now : Z) (r : Registry) : bool * Registry :=
  update_session session (fun rec =>
    {| r_Session := r_Session rec; r_Actor := r_Actor rec; r_Host := r_Host rec; r_Project := r_Project rec;
       r_HostConnected := r_HostConnected rec; r_LastActivity := now; r_LoadedFact := r_LoadedFact rec;
       r_LeaseExpires := r_LeaseExpires rec |}) r.

(** The fact is copied out of the caller's pointer. *)
Definition SetLoaded (session : string) (fact : option string) (now : Z) (r : Registry) : bool * Registry :=
  update_session session (fun rec =>
    {| r_Session := r_Session rec; r_Actor := r_Actor rec; r_Host := r_Host rec; r_Project := r_Project rec;
       r_HostConnected := r_HostConnected rec; r_LastActivity := now; r_LoadedFact := fact;
       r_LeaseExpires := r_LeaseExpires rec |}) r.

Definition LeaseExecution (session : string) (duration now : Z) (r : Registry) : bool * Registry :=
  if duration <=? 0 then (false, r)
  else update_session session (fun rec =>
    {| r_Session := r_Session rec; r_Actor := r_Actor rec; r_Host := r_Host rec; r_Project := r_Project rec;
       r_HostConnected := r_HostConnected rec; r_LastActivity := now; r_LoadedFact := r_LoadedFact rec;
       r_LeaseExpires := now + duration |}) r.

Definition snapshot (rec : record) (now : Z) : Snapshot :=
  let live := negb (IsZero (r_LeaseExpires rec)) && (now <? r_LeaseExpires rec) in
  {| sn_Session := r_Session rec; sn_Actor := r_Actor rec; sn_Host := r_Host rec; sn_Project := r_Project rec;
     sn_HostConnected := r_HostConnected rec;
     sn_Execution := if live then "executing" else "not_running";
     sn_LeaseExpires := if live then Some (r_LeaseExpires rec) else None;
     sn_LastActivity := r_LastActivity rec; sn_LoadedFact := r_LoadedFact rec |}.

Definition Get (session : string) (now : Z) (r : Registry) : option Snapshot :=
  (fun rec => snapshot rec now) <$> r !! session.

(** [sort.Slice] by session *)
Definition by_session (a b : Snapshot) : Prop := sle (sn_Session a) (sn_Session b).
#[export] Instance by_session_dec : RelDecision by_session.
Proof. intros a b. unfold by_session. apply _. Defined.
#[export] Instance by_session_total : Total by_session.
Proof. intros a b. apply (total sle). Qed.
#[export] Instance by_session_trans : Transitive by_session.
Proof. intros a b c ??. unfold by_session in *. by etrans. Qed.

(** The loop over the map, in the order the runtime chose. *)
Definition selected (project : string) (now : Z) (order : list (string * record)) : list Snapshot :=
  (fun e => snapshot e.2 now) <$>
    filter (fun e => seqb project "" || seqb (r_Project e.2) project = true) order.

Definition List_ (project : string) (now : Z) (order : list (string * record)) : list Snapshot :=
  merge_sort by_session (selected project now order).

(** ** Operations as data *)

Inductive Op :=
  | OpConnect (s : Session)
  | OpDisconnect (session : string)
  | OpTouch (session : string)
  | OpSetLoaded (session : string) (fact : option string)
  | OpLease (session : string) (duration : Z).

Definition step (op : Op) (now : Z) (r : Registry) : Registry :=
  match op with
  | OpConnect s => Connect s now r
  | OpDisconnect session => Disconnect session now r
  | OpTouch session => (Touch session now r).2
  | OpSetLoaded session fact => (SetLoaded session fact now r).2
  | OpLease session duration => (LeaseExecution session duration now r).2
  end.

Definition steps (ops : list (Op * Z)) (r : Registry) : Registry := fold_left (fun r o => step o.1 o.2 r) ops r.

(** ** Facts *)

(** Every record is filed under its own session. *)
Definition keyed (r : Registry) : Prop := map_Forall (fun k rec => r_Session rec = k) r.

Lemma keyed_update session f r :
  (forall rec, r_Session (f rec) = r_Session rec) -> keyed r -> keyed (update_session session f r).2.
Proof.
  intros Hf Hr. unfold update_session. destruct (r !! session) as [rec|] eqn:E; [|done].
  apply map_Forall_insert_2; [|done]. rewrite Hf. by apply Hr in E.
Qed.

Lemma keyed_step op now r : keyed r -> keyed (step op now r).
Proof.
  intros Hr. destruct op; simpl; try (by apply keyed_update).
  - by apply map_Forall_insert_2.
  - unfold LeaseExecution. case_match; [done|by apply keyed_update].
Qed.

Lemma keyed_steps ops r : keyed r -> keyed (steps ops r).
Proof.
  unfold steps. revert r. induction ops as [|[op t] ops IH]; simpl; [done|]. intros r Hr. by apply IH, keyed_step.
Qed.

(** The lease of a session, whatever else its record says. *)
Definition lease_of (session : string) (r : Registry) : option Z := r_LeaseExpires <$> r !! session.

Lemma lease_of_update session s0 f r :
  (session = s0 -> forall rec, r_LeaseExpires (f rec) = r_LeaseExpires rec) ->
  lease_of session (update_session s0 f r).2 = lease_of session r.
Proof.
  intros Hf. unfold update_session, lease_of. destruct (r !! s0) as [rec|] eqn:E; [|done]. simpl.
  destruct (decide (session = s0)) as [->|Hne]; [|by rewrite lookup_insert_ne].
  rewrite lookup_insert_eq, E. simpl. by rewrite Hf.
Qed.

Lemma lease_of_step op now session r t :
  (forall d, op <> OpLease session d) -> lease_of session r = Some t ->
  lease_of session (step op now r) = Some t.
Proof.
  intros Hop Ht. rewrite <- Ht. destruct op as [s| | | |s0 d]; simpl; try (by apply lease_of_update).
  - unfold lease_of, Connect in *. destruct (decide (s_ID s = session)) as [<-|]; [|by rewrite lookup_insert_ne].
    rewrite lookup_insert_eq. by destruct (r !! s_ID s).
  - unfold LeaseExecution. case_match; [done|]. apply lease_of_update. intros ->. by destruct (Hop d).
Qed.

Lemma lease_of_steps ops session r t :
  Forall (fun o => forall d, o.1 <> OpLease session d) ops -> lease_of session r = Some t ->
  lease_of session (steps ops r) = Some t.
Proof.
  unfold steps. revert r. induction ops as [|[op u] ops IH]; simpl; [done|]. intros r [Ho Hops]%Forall_cons Ht.
  apply IH; [done|]. by apply lease_of_step.
Qed.

(** ** Properties *)

(** A granted lease makes its session execute for exactly its duration:
    whatever connects, disconnects, touches or loads in between, a reading is
    "executing", with the granted expiry, if and only if it is taken before
    the expiry. *)
Theorem lease_lifetime session duration granted r ops now snap :
  LeaseExecution session duration granted r = (true, (LeaseExecution session duration granted r).2) ->
  zeroTime < granted ->
  Forall (fun o => forall d, o.1 <> OpLease session d) ops ->
  Get session now (steps ops (LeaseExecution session duration granted r).2) = Some snap ->
  (sn_Execution snap = "executing"%string <-> now < granted + duration) /\
  (sn_LeaseExpires snap = if now <? granted + duration then Some (granted + duration) else None).
Proof.
  intros Hgr Hz Hops Hget.
  assert (0 < duration /\ lease_of session (LeaseExecution session duration granted r).2 = Some (granted + duration)) as [Hd Hl].
  { unfold LeaseExecution in *. destruct (Z.leb_spec duration 0); [done|]. split; [lia|].
    unfold update_session in *. destruct (r !! session) as [rec|]; [|done]. simpl.
    unfold lease_of. by rewrite lookup_insert_eq. }
  apply (lease_of_steps ops) in Hl; [|done]. unfold Get in Hget. unfold lease_of in Hl.
  destruct (_ !! session) as [rec|]; [|done]. simpl in *. simplify_eq. unfold snapshot. simpl.
  assert (IsZero (r_LeaseExpires rec) = false) as -> by (apply Z.eqb_neq; lia). simpl.
  rewrite Hl. destruct (Z.ltb_spec now (granted + duration)); (split; [|done]); split; intros; first [done|lia].
Qed.

Lemma selected_sessions project now order :
  Forall (fun e => r_Session e.2 = e.1) order ->
  sn_Session <$> selected project now order =
    (filter (fun e => seqb project "" || seqb (r_Project e.2) project = true) order).*1.
Proof.
  intros Hk. unfold selected. rewrite <- list_fmap_compose. apply list_fmap_ext. intros i e He. simpl.
  rewrite Forall_forall in Hk. apply Hk. apply list_elem_of_lookup_2 in He. by apply list_elem_of_filter in He as [_ ?].
Qed.

(** A session appears once in the output. *)
Lemma selected_NoDup project now r order :
  keyed r -> order ≡ₚ map_to_list r -> NoDup (sn_Session <$> selected project now order).
Proof.
  intros Hk Hp. rewrite selected_sessions.
  - apply (sublist_NoDup _ order.*1); [rewrite Hp; apply NoDup_fst_map_to_list|].
    apply fmap_sublist, sublist_filter.
  - rewrite Hp. apply Forall_forall. intros [k rec] Hin%elem_of_map_to_list. by apply Hk in Hin.
Qed.

Lemma NoDup_fmap_eq {A B} (f : A -> B) (l : list A) x y :
  NoDup (f <$> l) -> x ∈ l -> y ∈ l -> f x = f y -> x = y.
Proof.
  intros Hnd [i Hi]%list_elem_of_lookup [j Hj]%list_elem_of_lookup Heq.
  assert (i = j) as ->; [|congruence].
  eapply (NoDup_lookup (f <$> l)); [done|..]; rewrite list_lookup_fmap, ?Hi, ?Hj; simpl; by f_equal.
Qed.

(** [List] does not depend on the order in which Go iterates the map: for
    every order, whatever sorted permutation the sort produces is the same
    list, and it has exactly the snapshots of the sessions of the project. *)
Theorem list_deterministic ops project now order out :
  let r := steps ops New in
  order ≡ₚ map_to_list r ->
  out ≡ₚ selected project now order -> StronglySorted by_session out ->
  out = List_ project now (map_to_list r) /\ NoDup (sn_Session <$> out) /\
  forall snap, snap ∈ out <->
    Get (sn_Session snap) now r = Some snap /\ (project = ""%string \/ sn_Project snap = project).
Proof.
  intros r Hord Hout Hs.
  assert (keyed r) as Hk by (apply keyed_steps, map_Forall_empty).
  assert (NoDup (sn_Session <$> out)) as Hnd.
  { rewrite Hout. by eapply selected_NoDup. }
  split_and!; [|done|].
  - assert (List_ project now (map_to_list r) ≡ₚ out) as Hperm.
    { unfold List_. rewrite merge_sort_Permutation, Hout. unfold selected. by rewrite Hord. }
    apply (StronglySorted_unique_strong by_session); [|done|apply (StronglySorted_merge_sort _)|done].
    intros x y Hx Hy Hxy Hyx. rewrite Hperm in Hy. eapply NoDup_fmap_eq; [done|done|done|].
    by apply (anti_symm sle).
  - intros snap. rewrite Hout. unfold selected. rewrite list_elem_of_fmap. split.
    + intros ([k rec] & -> & [Hsel Hin]%list_elem_of_filter). rewrite Hord, elem_of_map_to_list in Hin. simpl in *.
      rewrite (Hk _ _ Hin). unfold Get. rewrite Hin. split; [done|].
      apply orb_true_iff in Hsel. rewrite !seqb_true in Hsel. done.
    + unfold Get. intros [Hget Hproj]. destruct (r !! _) as [rec|] eqn:E; [|done]. simpl in Hget. simplify_eq.
      exists (r_Session rec, rec). split; [done|]. apply list_elem_of_filter. simpl. split.
      * apply orb_true_iff. rewrite !seqb_true. done.
      * rewrite Hord. by apply elem_of_map_to_list.
Qed.

(** ** Witnesses *)

Module PresenceDemo.
Definition ses (id project : string) : Session := {| s_ID := id; s_Actor := "a"; s_Host := "h"; s_Project := project |}.
Definition ops : list (Op * Z) := [(OpConnect (ses "s2" "p"), 10); (OpConnect (ses "s1" "p"), 11); (OpConnect (ses "s3" "q"), 12)].
Definition reg : Registry := steps ops New.
Definition later : list (Op * Z) := [(OpDisconnect "s1", 105); (OpConnect (ses "s1" "p"), 106); (OpLease "s2" 7, 107)].
End PresenceDemo.
Import PresenceDemo.

Lemma lease_lifetime_witness :
  exists snap, Get "s1" 149 (steps later (LeaseExecution "s1" 50 100 reg).2) = Some snap /\
    (sn_Execution snap = "executing"%string <-> 149 < 100 + 50).
Proof.
  assert (exists snap, Get "s1" 149 (steps later (LeaseExecution "s1" 50 100 reg).2) = Some snap) as [snap Hs]
    by (eexists; vm_compute; reflexivity).
  exists snap. split; [exact Hs|].
  refine (proj1 (lease_lifetime "s1" 50 100 reg later 149 snap _ _ _ Hs)).
  - vm_compute. reflexivity.
  - vm_compute. reflexivity.
  - repeat constructor; discriminate.
Defined.

Lemma list_deterministic_witness :
  exists out, out = List_ "p" 50 (map_to_list reg) /\ map sn_Session out = ["s1"; "s2"]%string /\
    NoDup (sn_Session <$> out).
Proof.
  exists (List_ "p" 50 (map_to_list reg)). split; [reflexivity|]. split; [vm_compute; reflexivity|].
  apply (list_deterministic ops "p" 50 (map_to_list reg) (List_ "p" 50 (map_to_list reg))).
  - reflexivity.
  - apply merge_sort_Permutation.
  - apply (StronglySorted_merge_sort _).
Defined.
