(* ===== verification/RuntimeHealth.v ===== *)
(** * Runtime health

    [internal/runtimehealth/health.go]: the pure evaluator that turns one set
    of observations into the snapshot the server publishes.  Statuses are Go string types, so any string may arrive;
    instants are nanoseconds, and normalising one to UTC keeps it. *)

From Stdlib Require Import ZArith Lia.
From stdpp Require Import base strings list option.
From S2P Require Import Prelude GoText CoreDB.

Local Open Scope Z_scope.

(** ** Vocabulary *)

Definition State := string.
Definition StateStarting : State := "starting".
Definition StateReady : State := "ready".
Definition StateDegraded : State := "degraded".
Definition StateExhausted : State := "exhausted".
Definition StateStopping : State := "stopping".

Inductive ReasonCode :=
  | ReasonHealthy | ReasonStarting | ReasonDatabaseUnknown | ReasonDatabaseFailed | ReasonDatabaseUnavailable
  | ReasonPersistenceUnknown | ReasonPersistenceAttention | ReasonPersistenceFailed
  | ReasonReconciliationUnknown | ReasonReconciliationAttention | ReasonReconciliationFailed
  | ReasonCodexOptionalNotConfigured | ReasonCodexRequiredNotConfigured
  | ReasonCodexOptionalUnavailable | ReasonCodexRequiredUnavailable
  | ReasonCodexOptionalNotReady | ReasonCodexRequiredNotReady
  | ReasonCodexOptionalIncompatible | ReasonCodexRequiredIncompatible
  | ReasonAccountUnknown | ReasonAccountNotReady
  | ReasonModelUnknown | ReasonModelIncompatible | ReasonModelUnavailable
  | ReasonSupervisorUnknown | ReasonSupervisorStarting | ReasonSupervisorDegraded | ReasonSupervisorRecovering
  | ReasonSupervisorExhausted | ReasonSupervisorStopping | ReasonSupervisorStopped.

#[export] Instance ReasonCode_eq_dec : EqDecision ReasonCode.
Proof. solve_decision. Defined.

Inductive ComponentState :=
  | ComponentUnknown | ComponentStarting | ComponentHealthy | ComponentDegraded | ComponentFailed
  | ComponentRecovering | ComponentExhausted | ComponentStopping | ComponentDisabled.

Record ComponentStatus := {
  c_Status : ComponentState; c_Reason : ReasonCode; c_ObservedAt : Z; c_LastSuccessAt : Z; c_LastFailureAt : Z }.
Record ComponentSet := {
  Database : ComponentStatus; Codex : ComponentStatus; Supervisor : ComponentStatus; Account : ComponentStatus;
  Model : ComponentStatus; Reconciliation : ComponentStatus; Persistence : ComponentStatus }.

(** [ComponentSet.Get] *)
Definition Get (c : ComponentSet) (name : string) : ComponentStatus :=
  if seqb name "database" then Database c
  else if seqb name "codex" then Codex c
  else if seqb name "supervisor" then Supervisor c
  else if seqb name "account" then Account c
  else if seqb name "model" then Model c
  else if seqb name "reconciliation" then Reconciliation c
  else if seqb name "persistence" then Persistence c
  else {| c_Status := ComponentUnknown; c_Reason := ReasonStarting; c_ObservedAt := zeroTime;
          c_LastSuccessAt := zeroTime; c_LastFailureAt := zeroTime |}.

(** ** Observations *)

(** A status with the last success and failure that support it; the
    database, account, model, reconciliation and persistence observations
    have this shape. *)
Record Observation := { ob_Status : string; ob_LastSuccessAt : Z; ob_LastFailureAt : Z }.
Record CodexObservation := {
  cx_Configured : bool; cx_Required : bool; cx_Available : bool; cx_LastSuccessAt : Z; cx_LastFailureAt : Z }.
Record SupervisorObservation := {
  sv_Status : string; sv_Generation : Z; sv_LastSuccessAt : Z; sv_LastFailureAt : Z }.

Record Input := {
  i_ObservedAt : Z; i_Database : Observation; i_Codex : CodexObservation; i_Supervisor : SupervisorObservation;
  i_Account : Observation; i_Model : Observation; i_Reconciliation : Observation; i_Persistence : Observation;
  i_LastSuccessAt : Z; i_LastFailureAt : Z }.

Record Snapshot := {
  sn_State : State; sn_Status : State; sn_Ready : bool; sn_Live : bool; sn_Liveness : bool;
  sn_WatchdogEligible : bool; sn_SchedulerEligible : bool; sn_Generation : Z; sn_Reason : ReasonCode;
  sn_ObservedAt : Z; sn_LastSuccessAt : Z; sn_LastFailureAt : Z; sn_Components : ComponentSet }.

(** ** Evidence times *)

Definition normalizeTime (value : Z) : Z := if IsZero value then zeroTime else value.

Definition normalizeEvidenceTime (value observedAt : Z) : Z :=
  let value := normalizeTime value in
  if IsZero value || IsZero observedAt || (value <? observedAt) || (value =? observedAt) then value else zeroTime.

Definition latest (a b : Z) : Z := if a <? b then b else a.

Definition component (status : ComponentState) (reason : ReasonCode) (observedAt lastSuccessAt lastFailureAt : Z)
    : ComponentStatus :=
  {| c_Status := status; c_Reason := reason; c_ObservedAt := observedAt;
     c_LastSuccessAt := normalizeEvidenceTime lastSuccessAt observedAt;
     c_LastFailureAt := normalizeEvidenceTime lastFailureAt observedAt |}.

(** ** Components *)

Definition accountReady (status : string) : bool := seqb status "ready" || seqb status "signed_in".
Definition supervisorRunning (status : string) : bool := seqb status "running" || seqb status "available".
Definition knownHealthStatus (status : string) : bool := isin status ["healthy"; "attention"; "failed"].
Definition knownSupervisorStatus (status : string) : bool :=
  isin status ["starting"; "running"; "available"; "degraded"; "recovering"; "exhausted"; "stopping"; "stopped"; "closed"].

Definition supervisorReason (status : string) : ReasonCode :=
  if seqb status "starting" then ReasonSupervisorStarting
  else if seqb status "degraded" then ReasonSupervisorDegraded
  else if seqb status "recovering" then ReasonSupervisorRecovering
  else if seqb status "exhausted" then ReasonSupervisorExhausted
  else if seqb status "stopping" then ReasonSupervisorStopping
  else if seqb status "stopped" || seqb status "closed" then ReasonSupervisorStopped
  else ReasonSupervisorUnknown.

Definition codexNotConfiguredReason (required : bool) : ReasonCode :=
  if required then ReasonCodexRequiredNotConfigured else ReasonCodexOptionalNotConfigured.

Definition codexReason (i : Input) : ReasonCode :=
  let required := cx_Required (i_Codex i) in
  if negb (cx_Configured (i_Codex i)) then codexNotConfiguredReason required
  else if negb (cx_Available (i_Codex i)) then
    if required then ReasonCodexRequiredUnavailable else ReasonCodexOptionalUnavailable
  else if negb (accountReady (ob_Status (i_Account i))) then
    if seqb (ob_Status (i_Account i)) "unknown" || seqb (ob_Status (i_Account i)) "" then ReasonAccountUnknown
    else if required then ReasonCodexRequiredNotReady else ReasonCodexOptionalNotReady
  else if negb (seqb (ob_Status (i_Model i)) "compatible") then
    if seqb (ob_Status (i_Model i)) "unknown" || seqb (ob_Status (i_Model i)) "" then ReasonModelUnknown
    else if seqb (ob_Status (i_Model i)) "unavailable" then ReasonModelUnavailable
    else if required then ReasonCodexRequiredIncompatible else ReasonCodexOptionalIncompatible
  else ReasonHealthy.

Definition databaseComponent (o : Observation) (observedAt : Z) : ComponentStatus :=
  let at_ status reason := component status reason observedAt (ob_LastSuccessAt o) (ob_LastFailureAt o) in
  if seqb (ob_Status o) "healthy" then at_ ComponentHealthy ReasonHealthy
  else if seqb (ob_Status o) "failed" then at_ ComponentFailed ReasonDatabaseFailed
  else if seqb (ob_Status o) "unavailable" then at_ ComponentFailed ReasonDatabaseUnavailable
  else at_ ComponentUnknown ReasonDatabaseUnknown.

Definition codexComponent (i : Input) (usable : bool) (observedAt : Z) : ComponentStatus :=
  let c := i_Codex i in
  let at_ status reason := component status reason observedAt (cx_LastSuccessAt c) (cx_LastFailureAt c) in
  let bad := if cx_Required c then ComponentFailed else ComponentDegraded in
  if negb (cx_Configured c) then at_ bad (codexNotConfiguredReason (cx_Required c))
  else if negb (cx_Available c) then
    at_ bad (if cx_Required c then ReasonCodexRequiredUnavailable else ReasonCodexOptionalUnavailable)
  else if negb usable then at_ bad (codexReason i)
  else at_ ComponentHealthy ReasonHealthy.

Definition accountComponent (i : Input) (observedAt : Z) : ComponentStatus :=
  let o := i_Account i in
  let at_ status reason := component status reason observedAt (ob_LastSuccessAt o) (ob_LastFailureAt o) in
  if negb (cx_Configured (i_Codex i)) then at_ ComponentDisabled (codexNotConfiguredReason (cx_Required (i_Codex i)))
  else if accountReady (ob_Status o) then at_ ComponentHealthy ReasonHealthy
  else if isin (ob_Status o) ["not_ready"; "signed_out"; "failed"] then
    at_ (if cx_Required (i_Codex i) then ComponentFailed else ComponentDegraded) ReasonAccountNotReady
  else at_ ComponentUnknown ReasonAccountUnknown.

Definition modelComponent (i : Input) (observedAt : Z) : ComponentStatus :=
  let o := i_Model i in
  let at_ status reason := component status reason observedAt (ob_LastSuccessAt o) (ob_LastFailureAt o) in
  let bad := if cx_Required (i_Codex i) then ComponentFailed else ComponentDegraded in
  if negb (cx_Configured (i_Codex i)) then at_ ComponentDisabled (codexNotConfiguredReason (cx_Required (i_Codex i)))
  else if seqb (ob_Status o) "compatible" then at_ ComponentHealthy ReasonHealthy
  else if seqb (ob_Status o) "incompatible" then at_ bad ReasonModelIncompatible
  else if seqb (ob_Status o) "unavailable" then at_ bad ReasonModelUnavailable
  else at_ ComponentUnknown ReasonModelUnknown.

Definition supervisorComponent (s : SupervisorObservation) (observedAt : Z) : ComponentStatus :=
  let at_ status reason := component status reason observedAt (sv_LastSuccessAt s) (sv_LastFailureAt s) in
  if supervisorRunning (sv_Status s) then at_ ComponentHealthy ReasonHealthy
  else if seqb (sv_Status s) "starting" then at_ ComponentStarting ReasonSupervisorStarting
  else if seqb (sv_Status s) "degraded" then at_ ComponentDegraded ReasonSupervisorDegraded
  else if seqb (sv_Status s) "recovering" then at_ ComponentRecovering ReasonSupervisorRecovering
  else if seqb (sv_Status s) "exhausted" then at_ ComponentExhausted ReasonSupervisorExhausted
  else if seqb (sv_Status s) "stopping" then at_ ComponentStopping ReasonSupervisorStopping
  else if seqb (sv_Status s) "stopped" || seqb (sv_Status s) "closed" then at_ ComponentStopping ReasonSupervisorStopped
  else at_ ComponentUnknown ReasonSupervisorUnknown.

Definition healthComponent (o : Observation) (observedAt : Z) (unknown attention failed : ReasonCode) : ComponentStatus :=
  let at_ status reason := component status reason observedAt (ob_LastSuccessAt o) (ob_LastFailureAt o) in
  if seqb (ob_Status o) "healthy" then at_ ComponentHealthy ReasonHealthy
  else if seqb (ob_Status o) "attention" then at_ ComponentDegraded attention
  else if seqb (ob_Status o) "failed" then at_ ComponentFailed failed
  else at_ ComponentUnknown unknown.

Definition evaluated (c : ComponentSet) : list ComponentStatus :=
  [Database c; Codex c; Supervisor c; Account c; Model c; Reconciliation c; Persistence c].

Fixpoint first_reason (l : list ComponentStatus) : ReasonCode :=
  match l with
  | [] => ReasonStarting
  | s :: l' =>
      if negb (bool_decide (c_Reason s = ReasonHealthy)) && negb (bool_decide (c_Reason s = ReasonStarting))
      then c_Reason s else first_reason l'
  end.

Definition firstDegradedReason (c : ComponentSet) : ReasonCode :=
  first_reason [Database c; Persistence c; Reconciliation c; Supervisor c; Codex c; Account c; Model c].

(** ** The evaluator *)

Definition overallState (i : Input) (components : ComponentSet)
    (databaseHealthy databaseUnknown coreReady ready codexUsable stopping exhausted : bool) : State * ReasonCode :=
  let sv := sv_Status (i_Supervisor i) in
  let configured := cx_Configured (i_Codex i) in
  if stopping then
    if seqb sv "stopped" || seqb sv "closed" then (StateStopping, ReasonSupervisorStopped)
    else (StateStopping, ReasonSupervisorStopping)
  else if exhausted && cx_Required (i_Codex i) then (StateExhausted, ReasonSupervisorExhausted)
  else if seqb (ob_Status (i_Database i)) "failed" then (StateDegraded, ReasonDatabaseFailed)
  else if seqb (ob_Status (i_Database i)) "unavailable" then (StateDegraded, ReasonDatabaseUnavailable)
  else if databaseUnknown then (StateStarting, ReasonDatabaseUnknown)
  else if seqb (ob_Status (i_Persistence i)) "failed" then (StateDegraded, ReasonPersistenceFailed)
  else if negb (knownHealthStatus (ob_Status (i_Persistence i))) then (StateStarting, ReasonPersistenceUnknown)
  else if seqb (ob_Status (i_Reconciliation i)) "failed" then (StateDegraded, ReasonReconciliationFailed)
  else if negb (knownHealthStatus (ob_Status (i_Reconciliation i))) then (StateStarting, ReasonReconciliationUnknown)
  else if configured && (negb (knownSupervisorStatus sv) || seqb sv "starting") then (StateStarting, supervisorReason sv)
  else if configured && seqb sv "degraded" then (StateDegraded, ReasonSupervisorDegraded)
  else if configured && seqb sv "recovering" then (StateDegraded, ReasonSupervisorRecovering)
  else if configured && exhausted then (StateDegraded, ReasonSupervisorExhausted)
  else if seqb (ob_Status (i_Reconciliation i)) "attention" then (StateDegraded, ReasonReconciliationAttention)
  else if seqb (ob_Status (i_Persistence i)) "attention" then (StateDegraded, ReasonPersistenceAttention)
  else if negb codexUsable then (StateDegraded, codexReason i)
  else if negb coreReady || negb ready || negb databaseHealthy then (StateDegraded, firstDegradedReason components)
  else (StateReady, ReasonHealthy).

Definition codex_usable (i : Input) : bool :=
  cx_Configured (i_Codex i) && cx_Available (i_Codex i) && accountReady (ob_Status (i_Account i))
  && seqb (ob_Status (i_Model i)) "compatible".

Definition is_stopping (i : Input) : bool := isin (sv_Status (i_Supervisor i)) ["stopping"; "stopped"; "closed"].

Definition Evaluate (i : Input) : Snapshot :=
  let observedAt := normalizeTime (i_ObservedAt i) in
  let codexUsable := codex_usable i in
  let components :=
    {| Database := databaseComponent (i_Database i) observedAt;
       Codex := codexComponent i codexUsable observedAt;
       Supervisor := supervisorComponent (i_Supervisor i) observedAt;
       Account := accountComponent i observedAt;
       Model := modelComponent i observedAt;
       Reconciliation := healthComponent (i_Reconciliation i) observedAt
         ReasonReconciliationUnknown ReasonReconciliationAttention ReasonReconciliationFailed;
       Persistence := healthComponent (i_Persistence i) observedAt
         ReasonPersistenceUnknown ReasonPersistenceAttention ReasonPersistenceFailed |} in
  let lastSuccessAt := fold_left (fun x c => latest x (c_LastSuccessAt c)) (evaluated components)
    (normalizeEvidenceTime (i_LastSuccessAt i) observedAt) in
  let lastFailureAt := fold_left (fun x c => latest x (c_LastFailureAt c)) (evaluated components)
    (normalizeEvidenceTime (i_LastFailureAt i) observedAt) in
  let sv := sv_Status (i_Supervisor i) in
  let stopping := is_stopping i in
  let exhausted := seqb sv "exhausted" in
  let database := ob_Status (i_Database i) in
  let databaseHealthy := seqb database "healthy" in
  let databaseUnknown := negb (seqb database "healthy") && negb (seqb database "failed") && negb (seqb database "unavailable") in
  let persistenceHealthy := seqb (ob_Status (i_Persistence i)) "healthy" in
  let persistenceUnknown := negb (knownHealthStatus (ob_Status (i_Persistence i))) in
  let reconciliationUnknown := negb (knownHealthStatus (ob_Status (i_Reconciliation i))) in
  let reconciliationFailed := seqb (ob_Status (i_Reconciliation i)) "failed" in
  let persistenceFailed := seqb (ob_Status (i_Persistence i)) "failed" in
  let required := cx_Required (i_Codex i) in
  let live := databaseHealthy && negb stopping && negb persistenceFailed in
  let coreReady := databaseHealthy && persistenceHealthy && negb persistenceUnknown && negb reconciliationUnknown
    && negb reconciliationFailed && negb stopping in
  let ready := if required then coreReady && codexUsable && supervisorRunning sv else coreReady in
  let ready := if required && (seqb sv "starting" || seqb sv "recovering" || exhausted) then false else ready in
  let ready := if stopping || databaseUnknown || seqb database "failed" || seqb database "unavailable"
                  || persistenceUnknown || persistenceFailed || reconciliationUnknown || reconciliationFailed
               then false else ready in
  let schedulerEligible := ready && live && cx_Configured (i_Codex i) && codexUsable && supervisorRunning sv
    && seqb (ob_Status (i_Reconciliation i)) "healthy" && persistenceHealthy in
  let watchdogEligible := if required then live && coreReady && supervisorRunning sv else live && coreReady in
  let '(state, reason) := overallState i components databaseHealthy databaseUnknown coreReady ready codexUsable
    stopping exhausted in
  {| sn_State := state; sn_Status := state; sn_Ready := ready; sn_Live := live; sn_Liveness := live;
     sn_WatchdogEligible := watchdogEligible; sn_SchedulerEligible := schedulerEligible;
     sn_Generation := sv_Generation (i_Supervisor i); sn_Reason := reason; sn_ObservedAt := observedAt;
     sn_LastSuccessAt := lastSuccessAt; sn_LastFailureAt := lastFailureAt; sn_Components := components |}.

(** ** When the service is ready *)

Lemma isin_cons s x l : isin s (x :: l) = seqb s x || isin s l.
Proof.
  unfold isin, seqb. apply eq_true_iff_eq. rewrite orb_true_iff, !bool_decide_eq_true. apply elem_of_cons.
Qed.
Lemma isin_nil s : isin s [] = false.
Proof. apply bool_decide_eq_false. apply not_elem_of_nil. Qed.

(** The observations that readiness rests on, whatever Codex does. *)
Definition core_ready (i : Input) : bool :=
  seqb (ob_Status (i_Database i)) "healthy" && seqb (ob_Status (i_Persistence i)) "healthy"
  && isin (ob_Status (i_Reconciliation i)) ["healthy"; "attention"] && negb (is_stopping i).

Lemma supervisorRunning_not_stopping sv : supervisorRunning sv = true ->
  isin sv ["stopping"; "stopped"; "closed"] = false /\ seqb sv "starting" = false /\ seqb sv "recovering" = false /\
  seqb sv "exhausted" = false.
Proof. unfold supervisorRunning. intros [->%seqb_true| ->%seqb_true]%orb_true_iff; done. Qed.

Lemma health_known s : seqb s "healthy" = true -> knownHealthStatus s = true /\ seqb s "failed" = false.
Proof. by intros ->%seqb_true. Qed.

Lemma reconciliation_ready s :
  isin s ["healthy"; "attention"] = knownHealthStatus s && negb (seqb s "failed").
Proof.
  unfold knownHealthStatus. rewrite !isin_cons, isin_nil.
  destruct (seqb s "healthy") eqn:E1; [by apply seqb_true in E1 as ->|].
  destruct (seqb s "attention") eqn:E2; [by apply seqb_true in E2 as ->|]. by destruct (seqb s "failed").
Qed.

Lemma Evaluate_coreReady i :
  core_ready i =
  seqb (ob_Status (i_Database i)) "healthy" && seqb (ob_Status (i_Persistence i)) "healthy"
  && negb (negb (knownHealthStatus (ob_Status (i_Persistence i)))) && negb (negb (knownHealthStatus (ob_Status (i_Reconciliation i))))
  && negb (seqb (ob_Status (i_Reconciliation i)) "failed") && negb (is_stopping i).
Proof.
  unfold core_ready. rewrite !negb_involutive, reconciliation_ready.
  destruct (seqb (ob_Status (i_Persistence i)) "healthy") eqn:E; [destruct (health_known _ E) as [-> _]|];
    destruct (seqb (ob_Status (i_Database i)) "healthy"); try done; simpl; by destruct (knownHealthStatus _), (seqb _ "failed").
Qed.

(** The flags of a snapshot, from the observations they rest on. *)
Lemma Evaluate_flags i :
  let s := Evaluate i in
  let required := cx_Required (i_Codex i) in
  let running := supervisorRunning (sv_Status (i_Supervisor i)) in
  sn_Ready s = core_ready i && (negb required || codex_usable i && running) /\
  sn_Live s = seqb (ob_Status (i_Database i)) "healthy" && negb (is_stopping i)
              && negb (seqb (ob_Status (i_Persistence i)) "failed") /\
  sn_WatchdogEligible s = core_ready i && (negb required || running) /\
  sn_SchedulerEligible s = sn_Ready s && codex_usable i && running
                           && seqb (ob_Status (i_Reconciliation i)) "healthy".
Proof.
  unfold Evaluate. cbv zeta. destruct (overallState _ _ _ _ _ _ _ _ _) as [st re]. cbn [sn_Ready sn_Live sn_WatchdogEligible sn_SchedulerEligible].
  rewrite <-Evaluate_coreReady.
  set (sv := sv_Status (i_Supervisor i)). set (db := ob_Status (i_Database i)). set (pe := ob_Status (i_Persistence i)).
  assert (core_ready i = true -> seqb db "healthy" = true /\ seqb pe "healthy" = true /\ is_stopping i = false /\
          knownHealthStatus (ob_Status (i_Reconciliation i)) = true /\ seqb (ob_Status (i_Reconciliation i)) "failed" = false) as Hcore.
  { unfold core_ready. rewrite reconciliation_ready. fold db pe. rewrite !andb_true_iff, !negb_true_iff. tauto. }
  assert (codex_usable i = true -> cx_Configured (i_Codex i) = true) as Hconf.
  { unfold codex_usable. rewrite !andb_true_iff. tauto. }
  destruct (core_ready i).
  - destruct (Hcore eq_refl) as (Hdb & Hpe & -> & -> & ->). apply seqb_true in Hdb as ->, Hpe as ->. cbn.
    destruct (codex_usable i); [rewrite Hconf by done|clear Hconf];
      destruct (supervisorRunning sv) eqn:Hrun;
      try (destruct (supervisorRunning_not_stopping sv Hrun) as (_ & -> & -> & ->));
      destruct (cx_Required (i_Codex i)), (cx_Configured (i_Codex i)), (seqb (ob_Status (i_Reconciliation i)) "healthy"); cbn;
      repeat split; by repeat case_match.
  - clear Hcore. destruct (cx_Required (i_Codex i)); repeat split; repeat (case_match; try done); rewrite ?andb_false_r; try done.
Qed.

(** Readiness, liveness and eligibility are exactly what the observations
    justify: Codex counts towards readiness and the watchdog only when it is
    required, a ready service is live, and the scheduler may run only on a
    ready, live service whose Codex is configured and usable, whose supervisor
    runs and whose reconciliation is healthy. *)
Theorem health_flags_exact i :
  let s := Evaluate i in
  let required := cx_Required (i_Codex i) in
  let running := supervisorRunning (sv_Status (i_Supervisor i)) in
  sn_Ready s = core_ready i && (negb required || codex_usable i && running) /\
  sn_WatchdogEligible s = core_ready i && (negb required || running) /\
  (sn_Ready s = true -> sn_Live s = true) /\
  (sn_SchedulerEligible s = true <->
   sn_Ready s = true /\ codex_usable i = true /\ running = true /\ ob_Status (i_Reconciliation i) = "healthy"%string).
Proof.
  intros s required running. destruct (Evaluate_flags i) as (Hr & Hl & Hw & Hs). fold s required running in Hr, Hl, Hw, Hs.
  split_and!; [done|done| |].
  - rewrite Hr, Hl. unfold core_ready. rewrite !andb_true_iff. intros [[[[-> Hp] _] ->] _].
    by destruct (health_known _ Hp) as [_ ->].
  - rewrite Hs, !andb_true_iff, seqb_true. tauto.
Qed.

(** ** The published state and its reason *)

Lemma firstDegradedReason_unhealthy c : firstDegradedReason c <> ReasonHealthy.
Proof.
  unfold firstDegradedReason. generalize [Database c; Persistence c; Reconciliation c; Supervisor c; Codex c; Account c; Model c].
  intros l. induction l as [|x l IH]; simpl; [done|]. case_match eqn:E; [|done]. by apply andb_true_iff in E as [?%negb_true_iff%bool_decide_eq_false _].
Qed.

Lemma codexReason_unhealthy i : codex_usable i = false -> codexReason i <> ReasonHealthy.
Proof.
  unfold codex_usable, codexReason, codexNotConfiguredReason. destruct (cx_Configured _), (cx_Available _), (accountReady _), (seqb _ "compatible");
    simpl; intros; by repeat case_match.
Qed.

Lemma supervisorReason_unhealthy sv : supervisorReason sv <> ReasonHealthy.
Proof. unfold supervisorReason. by repeat case_match. Qed.

Lemma known_supervisor_running sv :
  knownSupervisorStatus sv = true -> isin sv ["stopping"; "stopped"; "closed"] = false -> seqb sv "starting" = false ->
  seqb sv "degraded" = false -> seqb sv "recovering" = false -> seqb sv "exhausted" = false -> supervisorRunning sv = true.
Proof.
  unfold knownSupervisorStatus, supervisorRunning. rewrite !isin_cons, isin_nil.
  intros H [H1 [H2 [H3 _]%orb_false_iff]%orb_false_iff]%orb_false_iff H4 H5 H6 H7. rewrite H1, H2, H3, H4, H5, H6, H7 in H. simpl in H.
  by destruct (seqb sv "running"), (seqb sv "available").
Qed.

Definition database_unknown (i : Input) : bool :=
  negb (seqb (ob_Status (i_Database i)) "healthy") && negb (seqb (ob_Status (i_Database i)) "failed")
  && negb (seqb (ob_Status (i_Database i)) "unavailable").

Lemma Evaluate_overall i :
  let s := Evaluate i in
  (sn_State s, sn_Reason s) = overallState i (sn_Components s) (seqb (ob_Status (i_Database i)) "healthy") (database_unknown i)
    (core_ready i) (sn_Ready s) (codex_usable i) (is_stopping i) (seqb (sv_Status (i_Supervisor i)) "exhausted") /\
  sn_Status s = sn_State s /\ sn_Generation s = sv_Generation (i_Supervisor i).
Proof.
  unfold Evaluate. cbv zeta. rewrite <-Evaluate_coreReady. fold (database_unknown i).
  destruct (overallState _ _ _ _ _ _ _ _ _) eqn:E. cbn in *. by rewrite E.
Qed.

Section Overall.
Context (i : Input) (c : ComponentSet) (ready : bool).
Let sv := sv_Status (i_Supervisor i).
Let o := overallState i c (seqb (ob_Status (i_Database i)) "healthy") (database_unknown i) (core_ready i) ready
  (codex_usable i) (is_stopping i) (seqb sv "exhausted").

Lemma overall_eligible :
  ready = true -> core_ready i = true -> codex_usable i = true -> supervisorRunning sv = true ->
  ob_Status (i_Reconciliation i) = "healthy"%string -> o = (StateReady, ReasonHealthy).
Proof.
  intros -> Hc Hu Hrun Hrec. unfold o, overallState. rewrite Hc, Hu. unfold core_ready in Hc.
  apply andb_true_iff in Hc as [[[Hdb Hpe]%andb_true_iff _]%andb_true_iff Hst]. apply negb_true_iff in Hst.
  apply seqb_true in Hdb, Hpe. unfold database_unknown. rewrite Hst, Hdb, Hpe, Hrec. fold sv.
  unfold supervisorRunning in Hrun. apply orb_true_iff in Hrun as [->%seqb_true| ->%seqb_true]; cbn;
    by destruct (cx_Configured (i_Codex i)), (cx_Required (i_Codex i)).
Qed.

Lemma overall_ready :
  o.1 = StateReady -> ready = true /\ codex_usable i = true /\ ob_Status (i_Reconciliation i) = "healthy"%string /\
  (cx_Configured (i_Codex i) = true -> supervisorRunning sv = true).
Proof.
  unfold o, overallState. cbv zeta. fold sv. repeat (case_match; [by try case_match|]). intros _. bool_inv.
  match goal with H1 : knownHealthStatus (ob_Status (i_Reconciliation i)) = true |- _ => rename H1 into Hk end.
  split_and!; [done..| |].
  - unfold knownHealthStatus in Hk. apply bool_decide_eq_true in Hk. rewrite !elem_of_cons, elem_of_nil in Hk. tauto.
  - intros Hconf. rewrite Hconf in *. simpl in *. bool_inv.
    apply known_supervisor_running; auto; unfold seqb; rewrite ?bool_decide_eq_false; auto.
Qed.

Lemma overall_reason : o.2 = ReasonHealthy -> o.1 = StateReady.
Proof.
  unfold o, overallState. cbv zeta. destruct (codex_usable i) eqn:Hu; repeat case_match; simpl; intros Hx; try done; exfalso.
  all: first [by apply supervisorReason_unhealthy in Hx|by apply firstDegradedReason_unhealthy in Hx
             |by apply codexReason_unhealthy in Hx].
Qed.

Lemma overall_stopping : o.1 = StateStopping <-> is_stopping i = true.
Proof. unfold o, overallState. cbv zeta. destruct (is_stopping i); repeat case_match; done. Qed.
End Overall.

(** The published state is [ready] exactly when the scheduler may run,
    and exactly then the reason is [healthy]; the state is [stopping] exactly
    when the supervisor stops or has stopped; and the generation is the
    supervisor's. *)
Theorem health_state_faithful i :
  let s := Evaluate i in
  (sn_State s = StateReady <-> sn_SchedulerEligible s = true) /\
  (sn_State s = StateReady <-> sn_Reason s = ReasonHealthy) /\
  (sn_State s = StateStopping <-> is_stopping i = true) /\
  sn_Status s = sn_State s /\ sn_Generation s = sv_Generation (i_Supervisor i).
Proof.
  intros s. destruct (Evaluate_flags i) as (Hr & _ & _ & Hs). destruct (Evaluate_overall i) as (Ho & Hst & Hg). fold s in Hr, Hs, Ho, Hst, Hg.
  set (o := overallState _ _ _ _ _ _ _ _ _) in Ho. assert (sn_State s = o.1 /\ sn_Reason s = o.2) as [H1 H2] by (by rewrite <-Ho).
  assert (sn_SchedulerEligible s = true -> o = (StateReady, ReasonHealthy)) as Hel.
  { rewrite Hs, !andb_true_iff, seqb_true. intros [[[Hrd Hu] Hrun] Hrec]. apply overall_eligible; try done.
    rewrite Hr in Hrd. by apply andb_true_iff in Hrd as [? _]. }
  assert (o.1 = StateReady -> sn_SchedulerEligible s = true) as Hsr.
  { intros (Hrd & Hu & Hrec & Hrun)%overall_ready. rewrite Hs, Hrd, Hu, Hrec, Hrun; [done|].
    unfold codex_usable in Hu. by apply andb_true_iff in Hu as [[[? _]%andb_true_iff _]%andb_true_iff _]. }
  rewrite Hst, Hg, H1, H2. split_and!; [|split|apply overall_stopping|done|done].
  - split; [done|]. intros He. by rewrite (Hel He).
  - intros Hx. by rewrite (Hel (Hsr Hx)).
  - apply overall_reason.
Qed.

(** ** Evidence times *)

(** An instant that a snapshot taken at [observedAt] may show. *)
Definition observable (observedAt t : Z) : Prop := t = zeroTime \/ observedAt = zeroTime \/ t <= observedAt.

Lemma normalizeEvidenceTime_observable t observedAt : observable observedAt (normalizeEvidenceTime t observedAt).
Proof.
  unfold observable, normalizeEvidenceTime, IsZero. case_match eqn:E; [|by left].
  rewrite !orb_true_iff, !Z.eqb_eq, Z.ltb_lt in E. lia.
Qed.

Definition shows (observedAt : Z) (c : ComponentStatus) : Prop :=
  observable observedAt (c_LastSuccessAt c) /\ observable observedAt (c_LastFailureAt c).

Lemma component_shows status reason observedAt a b : shows observedAt (component status reason observedAt a b).
Proof. split; apply normalizeEvidenceTime_observable. Qed.

Lemma databaseComponent_shows o t : shows t (databaseComponent o t).
Proof. unfold databaseComponent. cbv zeta. repeat case_match; apply component_shows. Qed.
Lemma codexComponent_shows i u t : shows t (codexComponent i u t).
Proof. unfold codexComponent. cbv zeta. repeat case_match; apply component_shows. Qed.
Lemma supervisorComponent_shows o t : shows t (supervisorComponent o t).
Proof. unfold supervisorComponent. cbv zeta. repeat case_match; apply component_shows. Qed.
Lemma accountComponent_shows i t : shows t (accountComponent i t).
Proof. unfold accountComponent. cbv zeta. repeat case_match; apply component_shows. Qed.
Lemma modelComponent_shows i t : shows t (modelComponent i t).
Proof. unfold modelComponent. cbv zeta. repeat case_match; apply component_shows. Qed.
Lemma healthComponent_shows o t x y z : shows t (healthComponent o t x y z).
Proof. unfold healthComponent. cbv zeta. repeat case_match; apply component_shows. Qed.

Create HintDb health.
#[local] Hint Resolve databaseComponent_shows codexComponent_shows supervisorComponent_shows accountComponent_shows
  modelComponent_shows healthComponent_shows List.Forall_cons List.Forall_nil : health.

Lemma evaluated_observable i : Forall (shows (sn_ObservedAt (Evaluate i))) (evaluated (sn_Components (Evaluate i))).
Proof.
  unfold Evaluate. cbv zeta. destruct (overallState _ _ _ _ _ _ _ _ _). unfold evaluated.
  cbn [sn_ObservedAt sn_Components Database Codex Supervisor Account Model Reconciliation Persistence]. auto 10 with health.
Qed.

Lemma fold_latest (f : ComponentStatus -> Z) l t :
  let m := fold_left (fun x c => latest x (f c)) l t in
  (m = t \/ exists c, c ∈ l /\ m = f c) /\ t <= m /\ Forall (fun c => f c <= m) l.
Proof.
  revert t. induction l as [|c l IH]; intros t; simpl; [split_and!; [by left|lia|done]|].
  destruct (IH (latest t (f c))) as (Hm & Hle & Hall). unfold latest in *.
  split_and!; [|destruct (t <? f c) eqn:E; lia|constructor; [destruct (t <? f c) eqn:E; lia|done]].
  destruct Hm as [Hm|(x & ? & ?)]; [|right; exists x; split; [by right|done]].
  rewrite Hm. destruct (t <? f c); [right; exists c; split; [left|done]|by left].
Qed.

(** A snapshot never shows a success or a failure from after the instant
    it was observed at: such evidence is dropped, and the service's own last
    success and failure are the latest of what is left. *)
Theorem health_evidence_not_from_future i :
  let s := Evaluate i in
  observable (sn_ObservedAt s) (sn_LastSuccessAt s) /\ observable (sn_ObservedAt s) (sn_LastFailureAt s) /\
  Forall (fun c => observable (sn_ObservedAt s) (c_LastSuccessAt c) /\ observable (sn_ObservedAt s) (c_LastFailureAt c) /\
                   c_LastSuccessAt c <= sn_LastSuccessAt s /\ c_LastFailureAt c <= sn_LastFailureAt s)
    (evaluated (sn_Components s)).
Proof.
  intros s. pose proof (evaluated_observable i) as Hobs. fold s in Hobs.
  assert (sn_LastSuccessAt s = fold_left (fun x c => latest x (c_LastSuccessAt c)) (evaluated (sn_Components s))
            (normalizeEvidenceTime (i_LastSuccessAt i) (sn_ObservedAt s)) /\
          sn_LastFailureAt s = fold_left (fun x c => latest x (c_LastFailureAt c)) (evaluated (sn_Components s))
            (normalizeEvidenceTime (i_LastFailureAt i) (sn_ObservedAt s))) as [Hs Hf].
  { subst s. unfold Evaluate. cbv zeta. by destruct (overallState _ _ _ _ _ _ _ _ _). }
  destruct (fold_latest c_LastSuccessAt (evaluated (sn_Components s)) (normalizeEvidenceTime (i_LastSuccessAt i) (sn_ObservedAt s)))
    as (Hm1 & _ & Hall1). rewrite <-Hs in Hm1, Hall1.
  destruct (fold_latest c_LastFailureAt (evaluated (sn_Components s)) (normalizeEvidenceTime (i_LastFailureAt i) (sn_ObservedAt s)))
    as (Hm2 & _ & Hall2). rewrite <-Hf in Hm2, Hall2.
  rewrite Forall_forall in Hobs. split_and!.
  - destruct Hm1 as [->|(c & Hc & ->)]; [apply normalizeEvidenceTime_observable|apply (Hobs _ (proj1 (list_elem_of_In _ _) Hc))].
  - destruct Hm2 as [->|(c & Hc & ->)]; [apply normalizeEvidenceTime_observable|apply (Hobs _ (proj1 (list_elem_of_In _ _) Hc))].
  - rewrite Forall_forall in Hall1, Hall2. apply Forall_forall. intros c Hc. destruct (Hobs _ Hc). auto 10.
Qed.
