(* ===== verification/Notifier.v ===== *)
(** * The systemd notifier

    [internal/server/notify.go]: the loop that turns the published health of
    the service into [READY=1], [STATUS=], [WATCHDOG=1] and [STOPPING=1]
    messages, and into one fatal signal when the service must be replaced.

    The notifier's fields are one record; [n_sent] is what its sender got,
    oldest first, and [n_onFatal] the calls of the fatal callback.  A snapshot
    and a clock reading are what the callbacks returned.  [observeAt] is the
    sequential body; [pc] and [advance] split it at its lock sections, so that
    [sys_step] interleaves the observations of the loop and of [ready]. *)

From Stdlib Require Import ZArith Lia.
From stdpp Require Import base strings list option relations.
From S2P Require Import Prelude GoText.

Local Open Scope Z_scope.

(** ** Data *)

Record NotifierHealthSnapshot := {
  hs_Probed : bool; hs_Ready : bool; hs_DatabaseHealthy : bool; hs_CoreHealthy : bool; hs_CodexHealthy : bool;
  hs_RequiredCodex : bool; hs_WatchdogEligible : bool; hs_RecoverySince : Z; hs_RequiredRecoveryActive : bool;
  hs_RecoveryExhausted : bool }.

Inductive NotifierError := ErrNotifierDatabaseFailure | ErrNotifierCoreFailure | ErrNotifierExhausted.

Inductive notifierState :=
  | notifierStateStarting | notifierStateReady | notifierStateRecovering | notifierStateDegraded | notifierStateExhausted.

#[export] Instance NotifierError_eq_dec : EqDecision NotifierError.
Proof. solve_decision. Defined.
#[export] Instance notifierState_eq_dec : EqDecision notifierState.
Proof. solve_decision. Defined.

Definition notifierStatusStarting : string := "Starting".
Definition notifierStatusReady : string := "Ready".
Definition notifierStatusRecovering : string := "Recovering".
Definition notifierStatusDegraded : string := "Degraded".
Definition notifierStatusExhausted : string := "Exhausted".
Definition notifierStatusStopping : string := "Stopping".

Definition zeroSnapshot : NotifierHealthSnapshot :=
  {| hs_Probed := false; hs_Ready := false; hs_DatabaseHealthy := false; hs_CoreHealthy := false;
     hs_CodexHealthy := false; hs_RequiredCodex := false; hs_WatchdogEligible := false; hs_RecoverySince := zeroTime;
     hs_RequiredRecoveryActive := false; hs_RecoveryExhausted := false |}.

(** What the constructor fixes: whether there is a sender and a fatal
    callback, and the two durations. *)
Record notifierConfig := { nc_sender : bool; nc_onFatal : bool; nc_watchdogInterval : Z; nc_recoveryGrace : Z }.

Record serviceNotifier := {
  n_readySent : bool; n_lastState : notifierState; n_haveState : bool; n_recoverySince : Z;
  n_fatal : option NotifierError; n_fatalCh : list NotifierError; n_fatalClosed : bool;
  n_onFatal : list NotifierError; n_sent : list string; n_closed : bool }.

Definition set_readySent (b : bool) (n : serviceNotifier) : serviceNotifier :=
  {| n_readySent := b; n_lastState := n_lastState n; n_haveState := n_haveState n; n_recoverySince := n_recoverySince n;
     n_fatal := n_fatal n; n_fatalCh := n_fatalCh n; n_fatalClosed := n_fatalClosed n; n_onFatal := n_onFatal n;
     n_sent := n_sent n; n_closed := n_closed n |}.
Definition set_last (s : notifierState) (n : serviceNotifier) : serviceNotifier :=
  {| n_readySent := n_readySent n; n_lastState := s; n_haveState := true; n_recoverySince := n_recoverySince n;
     n_fatal := n_fatal n; n_fatalCh := n_fatalCh n; n_fatalClosed := n_fatalClosed n; n_onFatal := n_onFatal n;
     n_sent := n_sent n; n_closed := n_closed n |}.
Definition set_since (t : Z) (n : serviceNotifier) : serviceNotifier :=
  {| n_readySent := n_readySent n; n_lastState := n_lastState n; n_haveState := n_haveState n; n_recoverySince := t;
     n_fatal := n_fatal n; n_fatalCh := n_fatalCh n; n_fatalClosed := n_fatalClosed n; n_onFatal := n_onFatal n;
     n_sent := n_sent n; n_closed := n_closed n |}.
Definition set_fatal (e : NotifierError) (ch calls : list NotifierError) (n : serviceNotifier) : serviceNotifier :=
  {| n_readySent := n_readySent n; n_lastState := n_lastState n; n_haveState := n_haveState n;
     n_recoverySince := n_recoverySince n; n_fatal := Some e; n_fatalCh := ch; n_fatalClosed := n_fatalClosed n;
     n_onFatal := calls; n_sent := n_sent n; n_closed := n_closed n |}.
Definition set_sent (l : list string) (n : serviceNotifier) : serviceNotifier :=
  {| n_readySent := n_readySent n; n_lastState := n_lastState n; n_haveState := n_haveState n;
     n_recoverySince := n_recoverySince n; n_fatal := n_fatal n; n_fatalCh := n_fatalCh n;
     n_fatalClosed := n_fatalClosed n; n_onFatal := n_onFatal n; n_sent := l; n_closed := n_closed n |}.
Definition set_closed (n : serviceNotifier) : serviceNotifier :=
  {| n_readySent := n_readySent n; n_lastState := n_lastState n; n_haveState := n_haveState n;
     n_recoverySince := n_recoverySince n; n_fatal := n_fatal n; n_fatalCh := n_fatalCh n;
     n_fatalClosed := true; n_onFatal := n_onFatal n; n_sent := n_sent n; n_closed := true |}.

(** ** Construction *)

Definition second : Z := 1000000000.
Definition defaultNotifierWatchdogInterval : Z := 30 * second.
Definition defaultNotifierRecoveryGrace : Z := 30 * second.

(** [newServiceNotifierWithOptions]: [sender] says whether the options or the
    environment's socket gave one. *)
Definition newConfig (sender onFatal : bool) (interval grace : Z) : notifierConfig :=
  {| nc_sender := sender; nc_onFatal := onFatal;
     nc_watchdogInterval := if interval <=? 0 then defaultNotifierWatchdogInterval else interval;
     nc_recoveryGrace := if grace <=? 0 then defaultNotifierRecoveryGrace else grace |}.

Definition newServiceNotifier : serviceNotifier :=
  {| n_readySent := false; n_lastState := notifierStateStarting; n_haveState := false; n_recoverySince := zeroTime;
     n_fatal := None; n_fatalCh := []; n_fatalClosed := false; n_onFatal := []; n_sent := []; n_closed := false |}.

(** The [any] argument of the legacy constructor. *)
Inductive legacyHealth :=
  | LegacyNil | LegacyBool (value : option bool) | LegacySnapshotFunc (value : option NotifierHealthSnapshot)
  | LegacySnapshot (value : NotifierHealthSnapshot) | LegacyOther.

Definition legacySnapshot (health : legacyHealth) : NotifierHealthSnapshot :=
  match health with
  | LegacyNil | LegacyOther | LegacySnapshotFunc None => zeroSnapshot
  | LegacyBool value =>
      let healthy := default true value in
      {| hs_Probed := true; hs_Ready := true; hs_DatabaseHealthy := healthy; hs_CoreHealthy := healthy;
         hs_CodexHealthy := true; hs_RequiredCodex := false; hs_WatchdogEligible := healthy;
         hs_RecoverySince := zeroTime; hs_RequiredRecoveryActive := false; hs_RecoveryExhausted := false |}
  | LegacySnapshotFunc (Some value) | LegacySnapshot value => value
  end.

(** [usec] is what [strconv.ParseInt] made of [WATCHDOG_USEC]; the product
    with a microsecond wraps at 64 bits. *)
Definition wrap64 (x : Z) : Z := (x + 2 ^ 63) mod 2 ^ 64 - 2 ^ 63.
Definition legacyWatchdogInterval (usec : option Z) : Z :=
  match usec with
  | None => 0
  | Some usec => if usec <=? 0 then 0 else Z.quot (wrap64 (usec * 1000)) 2
  end.

(** ** Messages *)

Definition newline : string := String (Ascii.ascii_of_nat 10) EmptyString.
Definition ready_message (status : string) : string := ("READY=1" +:+ newline +:+ "STATUS=" +:+ status)%string.
Definition status_message (status : string) : string := ("STATUS=" +:+ status)%string.
Definition watchdog_message : string := "WATCHDOG=1".
Definition stopping_message : string := ("STOPPING=1" +:+ newline +:+ "STATUS=" +:+ notifierStatusStopping)%string.

Section Notifier.
Context (cfg : notifierConfig).

(** A failed send is logged and forgotten. *)
Definition send (state : string) (n : serviceNotifier) : serviceNotifier :=
  if nc_sender cfg then set_sent (n_sent n ++ [state]) n else n.

Definition statusText (s : notifierState) : string :=
  match s with
  | notifierStateStarting => notifierStatusStarting
  | notifierStateReady => notifierStatusReady
  | notifierStateRecovering => notifierStatusRecovering
  | notifierStateDegraded => notifierStatusDegraded
  | notifierStateExhausted => notifierStatusExhausted
  end.

Definition setState (state : notifierState) (emitStatus : bool) (n : serviceNotifier) : serviceNotifier :=
  if n_haveState n && bool_decide (n_lastState n = state) then n
  else let n := set_last state n in
       if negb emitStatus then n else send (status_message (statusText state)) n.

Definition setStatus (state : notifierState) (n : serviceNotifier) : serviceNotifier := setState state true n.

(** ** The grace of a required outage *)

Definition requiredCodexWithinGrace (s : NotifierHealthSnapshot) (now : Z) (n : serviceNotifier) : serviceNotifier * bool :=
  if negb (hs_RequiredCodex s) || hs_CodexHealthy s then (set_since zeroTime n, true)
  else if negb (hs_RequiredRecoveryActive s) && IsZero (hs_RecoverySince s) then (n, false)
  else
    let n := if IsZero (hs_RecoverySince s) && IsZero (n_recoverySince n) then set_since now n else n in
    let since := if IsZero (hs_RecoverySince s) then n_recoverySince n else hs_RecoverySince s in
    if now <? since then (n, true) else (n, time_Sub now since <? nc_recoveryGrace cfg).

Definition verdict : Type := notifierState * string * option NotifierError.

Definition classify (s : NotifierHealthSnapshot) (now : Z) (n : serviceNotifier) : serviceNotifier * verdict :=
  if negb (hs_Probed s) then (n, (notifierStateStarting, notifierStatusStarting, None))
  else if hs_RequiredCodex s && hs_RecoveryExhausted s then
    (n, (notifierStateExhausted, notifierStatusExhausted, Some ErrNotifierExhausted))
  else if negb (hs_DatabaseHealthy s) then
    (n, (notifierStateDegraded, notifierStatusDegraded, Some ErrNotifierDatabaseFailure))
  else if negb (hs_CoreHealthy s) then (n, (notifierStateDegraded, notifierStatusDegraded, Some ErrNotifierCoreFailure))
  else if hs_RequiredCodex s && negb (hs_CodexHealthy s) then
    if negb (hs_Ready s) && negb (hs_RequiredRecoveryActive s) && IsZero (hs_RecoverySince s) then
      (n, (notifierStateStarting, notifierStatusStarting, None))
    else
      let '(n, within) := requiredCodexWithinGrace s now n in
      if negb within then (n, (notifierStateExhausted, notifierStatusExhausted, Some ErrNotifierExhausted))
      else (n, (notifierStateRecovering, notifierStatusRecovering, None))
  else if negb (hs_CodexHealthy s) then (n, (notifierStateDegraded, notifierStatusDegraded, None))
  else if negb (hs_Ready s) then (n, (notifierStateStarting, notifierStatusStarting, None))
  else (n, (notifierStateReady, notifierStatusReady, None)).

(** ** READY and the fatal signal *)

Definition emitReady (status : string) (n : serviceNotifier) : serviceNotifier :=
  if n_readySent n then n else send (ready_message status) (set_readySent true n).

(** The [once] is spent exactly when an error is recorded; the channel has
    room for one error, and a closed notifier does not use it. *)
Definition signalFatal (e : NotifierError) (n : serviceNotifier) : serviceNotifier :=
  match n_fatal n with
  | Some _ => n
  | None =>
      let ch := if n_fatalClosed n then n_fatalCh n else match n_fatalCh n with [] => [e] | ch => ch end in
      set_fatal e ch (if nc_onFatal cfg then n_onFatal n ++ [e] else n_onFatal n) n
  end.

(** ** One observation *)

Definition ready_facts (s : NotifierHealthSnapshot) : bool :=
  hs_Probed s && hs_Ready s && hs_DatabaseHealthy s && hs_CoreHealthy s.

Definition readyAuthorized (s : NotifierHealthSnapshot) (now : Z) (n : serviceNotifier) : serviceNotifier * bool :=
  if ready_facts s then requiredCodexWithinGrace s now n else (n, false).

Definition pings (st : notifierState) : bool :=
  bool_decide (st = notifierStateReady \/ st = notifierStateRecovering \/ st = notifierStateDegraded).

(** [lastPingAllowed] always allows. *)
Definition watchdogAllowed (s : NotifierHealthSnapshot) (now : Z) (n : serviceNotifier) : serviceNotifier * bool :=
  let '(n, withinGrace) :=
    if hs_RequiredCodex s && negb (hs_CodexHealthy s) then requiredCodexWithinGrace s now n else (n, false) in
  (n, hs_Probed s && hs_DatabaseHealthy s && hs_CoreHealthy s && (hs_WatchdogEligible s || withinGrace)).

Definition observeAt (now : Z) (ping : bool) (s : NotifierHealthSnapshot) (n : serviceNotifier)
    : serviceNotifier * option NotifierError :=
  let '(n, (state, status, fatal)) := classify s now n in
  let '(n, authorized) := readyAuthorized s now n in
  let n := if authorized then emitReady status (setState state (n_readySent n) n) else setState state true n in
  match fatal with
  | Some e => (signalFatal e n, Some e)
  | None =>
      if ping && pings state then
        let '(n, allowed) := watchdogAllowed s now n in
        (if allowed then send watchdog_message n else n, None)
      else (n, None)
  end.

Definition ready (now : Z) (s : NotifierHealthSnapshot) (n : serviceNotifier) : serviceNotifier :=
  fst (observeAt now false s n).

(** ** The loop *)

(** What the [select] of the loop receives; a tick carries the instant the
    ticker sent, the clock and the snapshot that is then read. *)
Inductive run_event :=
  | CtxDone | StopClosed | TickerClosed | Tick (tick now : Z) (s : NotifierHealthSnapshot).
Inductive run_result := RunContext | RunNil | RunFatal (e : NotifierError).

Fixpoint run_loop (events : list run_event) (n : serviceNotifier) : serviceNotifier * option run_result :=
  match events with
  | [] => (n, None)
  | CtxDone :: _ => (n, Some RunContext)
  | StopClosed :: _ | TickerClosed :: _ => (n, Some RunNil)
  | Tick tick now s :: events =>
      match observeAt (if IsZero tick then now else tick) true s n with
      | (n, Some e) => (n, Some (RunFatal e))
      | (n, None) => run_loop events n
      end
  end.

(** [run] with the first observation; [None] is a loop still waiting. *)
Definition run (now : Z) (s : NotifierHealthSnapshot) (events : list run_event) (n : serviceNotifier)
    : serviceNotifier * option run_result :=
  match observeAt now false s (setStatus notifierStateStarting n) with
  | (n, Some e) => (n, Some (RunFatal e))
  | (n, None) => run_loop events n
  end.

Definition close (n : serviceNotifier) : serviceNotifier :=
  if n_closed n then n else set_closed (send stopping_message n).

(** ** The interleaved observations *)

Record observation := { o_now : Z; o_ping : bool; o_snapshot : NotifierHealthSnapshot }.

(** Where an observation stands, between two lock sections. *)
Inductive pc :=
  | PClassify (o : observation)
  | PAuthorize (o : observation) (v : verdict)
  | PReadSent (o : observation) (v : verdict)
  | PSetState (o : observation) (v : verdict) (authorized emit : bool)
  | PEmit (o : observation) (v : verdict)
  | PSendReady (o : observation) (v : verdict)
  | PFatal (o : observation) (v : verdict)
  | PPing (o : observation) (v : verdict)
  | PSendPing (o : observation)
  | PDone (o : observation) (r : option NotifierError).

Definition advance (p : pc) (n : serviceNotifier) : serviceNotifier * pc :=
  match p with
  | PClassify o => let '(n, v) := classify (o_snapshot o) (o_now o) n in (n, PAuthorize o v)
  | PAuthorize o v =>
      let '(n, authorized) := readyAuthorized (o_snapshot o) (o_now o) n in
      (n, if authorized then PReadSent o v else PSetState o v false true)
  | PReadSent o v => (n, PSetState o v true (n_readySent n))
  | PSetState o v authorized emit =>
      (setState v.1.1 emit n, if authorized then PEmit o v else PFatal o v)
  | PEmit o v => if n_readySent n then (n, PFatal o v) else (set_readySent true n, PSendReady o v)
  | PSendReady o v => (send (ready_message v.1.2) n, PFatal o v)
  | PFatal o v =>
      match v.2 with
      | Some e => (signalFatal e n, PDone o (Some e))
      | None => (n, if o_ping o && pings v.1.1 then PPing o v else PDone o None)
      end
  | PPing o v =>
      let '(n, allowed) := watchdogAllowed (o_snapshot o) (o_now o) n in (n, if allowed then PSendPing o else PDone o None)
  | PSendPing o => (send watchdog_message n, PDone o None)
  | PDone o r => (n, PDone o r)
  end.

Record system := { sys_notifier : serviceNotifier; sys_observations : list pc }.

Definition initial_system : system := {| sys_notifier := newServiceNotifier; sys_observations := [] |}.

(** One step of the process: an observation begins with the snapshot it
    reads, an observation passes one lock section, the loop starts, or the
    notifier is closed. *)
Inductive sys_step : system -> system -> Prop :=
  | sys_begin n l o : sys_step {| sys_notifier := n; sys_observations := l |}
      {| sys_notifier := n; sys_observations := l ++ [PClassify o] |}
  | sys_advance n l i p n' p' :
      l !! i = Some p -> advance p n = (n', p') ->
      sys_step {| sys_notifier := n; sys_observations := l |}
        {| sys_notifier := n'; sys_observations := <[i := p']> l |}
  | sys_start n l : sys_step {| sys_notifier := n; sys_observations := l |}
      {| sys_notifier := setStatus notifierStateStarting n; sys_observations := l |}
  | sys_close n l : sys_step {| sys_notifier := n; sys_observations := l |}
      {| sys_notifier := close n; sys_observations := l |}.

Definition reachable (s : system) : Prop := rtc sys_step initial_system s.
End Notifier.
