(* ===== verification/NotifierSpec.v ===== *)
(** * What the notifier promises to systemd

    Over every interleaving of observations: [READY=1] is sent at most once
    and only on an authorised snapshot, a watchdog ping only on a healthy one,
    and one fatal error is signalled.  An observation that runs alone is
    [observeAt], and takes at most nine lock sections in any case.  In the
    loop, the status shown is the current one, and a required outage is fatal
    once its grace has passed. *)

From Stdlib Require Import ZArith Lia.
From stdpp Require Import base strings list option relations.
From S2P Require Import Prelude GoText Notifier.

Local Open Scope Z_scope.

Definition is_ready (m : string) : bool := String.prefix "READY=1" m.
Definition is_watchdog (m : string) : bool := seqb m watchdog_message.

Definition observed (p : pc) : observation :=
  match p with
  | PClassify o | PAuthorize o _ | PReadSent o _ | PSetState o _ _ _ | PEmit o _ | PSendReady o _ | PFatal o _
  | PPing o _ | PSendPing o | PDone o _ => o
  end.

Section Spec.
Context (cfg : notifierConfig).

(** ** One observation, alone *)

Fixpoint unhindered (k : nat) (p : pc) (n : serviceNotifier) : serviceNotifier * pc :=
  match k with
  | O => (n, p)
  | S k => let '(n, p) := advance cfg p n in unhindered k p n
  end.

Lemma alone_done k o r n : unhindered k (PDone o r) n = (n, PDone o r).
Proof. by induction k. Qed.

Lemma alone_S k p n : unhindered (S k) p n = let '(n, p) := advance cfg p n in unhindered k p n.
Proof. done. Qed.

Lemma alone_fatal k o v n :
  unhindered (3 + k) (PFatal o v) n =
  let '(n', r) :=
    match v.2 with
    | Some e => (signalFatal cfg e n, Some e)
    | None =>
        if o_ping o && pings v.1.1 then
          let '(n, allowed) := watchdogAllowed cfg (o_snapshot o) (o_now o) n in
          (if allowed then send cfg watchdog_message n else n, None)
        else (n, None)
    end in (n', PDone o r).
Proof.
  cbn [Nat.add]. rewrite alone_S. cbn [advance]. destruct (v.2); [by rewrite alone_done|].
  destruct (o_ping o && pings v.1.1); [|by rewrite alone_done].
  rewrite alone_S. cbn [advance]. destruct (watchdogAllowed cfg _ _ _) as [n3 [|]]; rewrite alone_S; cbn [advance]; by rewrite alone_done.
Qed.

Lemma observation_alone_eq o n :
  unhindered 9 (PClassify o) n =
  let '(n', r) := observeAt cfg (o_now o) (o_ping o) (o_snapshot o) n in (n', PDone o r).
Proof.
  unfold observeAt. rewrite alone_S. cbn [advance]. destruct (classify cfg _ _ n) as [n1 [[st status] fatal]].
  rewrite alone_S. cbn [advance]. destruct (readyAuthorized cfg _ _ n1) as [n2 [|]]; rewrite alone_S; cbn [advance fst snd].
  - rewrite alone_S. cbn [advance fst snd]. rewrite alone_S. cbn [advance]. unfold emitReady.
    destruct (n_readySent _); [exact (alone_fatal 1 o (st, status, fatal) _)|].
    rewrite alone_S. cbn [advance]. exact (alone_fatal 0 o (st, status, fatal) _).
  - exact (alone_fatal 3 o (st, status, fatal) _).
Qed.

(** The lock sections an observation still has to pass. *)
Definition remaining (p : pc) : nat :=
  match p with
  | PClassify _ => 9 | PAuthorize _ _ => 8 | PReadSent _ _ => 7 | PSetState _ _ _ _ => 6 | PEmit _ _ => 5
  | PSendReady _ _ => 4 | PFatal _ _ => 3 | PPing _ _ => 2 | PSendPing _ => 1 | PDone _ _ => 0
  end.

Lemma advance_remaining p n n' p' :
  advance cfg p n = (n', p') -> observed p' = observed p /\ (remaining p' <= Nat.pred (remaining p))%nat.
Proof.
  destruct p; cbn [advance]; intros H; repeat case_match; simplify_eq/=; split; (done || lia).
Qed.

(** ** What authorises a message *)

(** The outage of a required Codex is one the notifier may still wait for. *)
Definition grace_open (o : observation) : Prop :=
  hs_RequiredCodex (o_snapshot o) = false \/ hs_CodexHealthy (o_snapshot o) = true \/
  (hs_RecoverySince (o_snapshot o) = zeroTime /\ hs_RequiredRecoveryActive (o_snapshot o) = true) \/
  (hs_RecoverySince (o_snapshot o) <> zeroTime /\
   (o_now o < hs_RecoverySince (o_snapshot o) \/ o_now o - hs_RecoverySince (o_snapshot o) < nc_recoveryGrace cfg)).

Definition ready_justified (o : observation) : Prop := ready_facts (o_snapshot o) = true /\ grace_open o.

Definition ping_justified (o : observation) : Prop :=
  o_ping o = true /\ hs_Probed (o_snapshot o) = true /\ hs_DatabaseHealthy (o_snapshot o) = true /\
  hs_CoreHealthy (o_snapshot o) = true /\
  (hs_WatchdogEligible (o_snapshot o) = true \/
   hs_RequiredCodex (o_snapshot o) = true /\ hs_CodexHealthy (o_snapshot o) = false /\ grace_open o).

Lemma time_Sub_lt now since g :
  since <= now -> time_Sub now since < g -> g <= 9223372036854775807 -> now - since < g.
Proof. unfold time_Sub. lia. Qed.

Context (grace_range : nc_recoveryGrace cfg <= 9223372036854775807).

Lemma within_grace_open o n n' :
  requiredCodexWithinGrace cfg (o_snapshot o) (o_now o) n = (n', true) -> grace_open o.
Proof.
  unfold requiredCodexWithinGrace, grace_open, IsZero.
  destruct (hs_RequiredCodex _); [|tauto]. destruct (hs_CodexHealthy _); [tauto|]. simpl.
  destruct (Z.eqb_spec (hs_RecoverySince (o_snapshot o)) zeroTime) as [E|E].
  - destruct (hs_RequiredRecoveryActive _); simpl; [tauto|done].
  - rewrite andb_false_r. simpl. intros H. do 3 right. split; [done|].
    destruct (Z.ltb_spec (o_now o) (hs_RecoverySince (o_snapshot o))); [tauto|]. right.
    simplify_eq. match goal with H : (_ <? _) = true |- _ => apply Z.ltb_lt in H end. by apply time_Sub_lt.
Qed.

(** ** The invariant of the interleaved process *)

(** Two states of the notifier that differ in nothing an authorisation
    rests on. *)
Record same_signals (n n' : serviceNotifier) : Prop := {
  q_readySent : n_readySent n' = n_readySent n;
  q_fatal : n_fatal n' = n_fatal n;
  q_fatalCh : n_fatalCh n' = n_fatalCh n;
  q_onFatal : n_onFatal n' = n_onFatal n;
  q_closed : n_fatalClosed n = true -> n_fatalClosed n' = true;
  q_ready : count is_ready (n_sent n') = count is_ready (n_sent n);
  q_watchdog : count is_watchdog (n_sent n') = count is_watchdog (n_sent n) }.

#[local] Instance quiet_refl : Reflexive same_signals.
Proof. by constructor. Qed.
#[local] Instance quiet_trans : Transitive same_signals.
Proof. intros x y z [] []. constructor; try congruence. auto. Qed.

Lemma quiet_send m n : is_ready m = false -> is_watchdog m = false -> same_signals n (send cfg m n).
Proof.
  intros H1 H2. unfold send. destruct (nc_sender cfg); [|done]. constructor; try done; simpl; rewrite count_app; simpl;
    rewrite ?H1, ?H2; lia.
Qed.

Lemma quiet_setState st emit n : same_signals n (setState cfg st emit n).
Proof.
  unfold setState. destruct (n_haveState n && _); [done|]. transitivity (set_last st n); [by constructor|].
  destruct emit; [|done]. by destruct st; apply quiet_send.
Qed.

Lemma quiet_grace s now n n' b : requiredCodexWithinGrace cfg s now n = (n', b) -> same_signals n n'.
Proof. unfold requiredCodexWithinGrace. intros H. repeat case_match; simplify_eq; by constructor. Qed.

Lemma quiet_classify s now n n' v : classify cfg s now n = (n', v) -> same_signals n n'.
Proof. unfold classify. intros H. repeat case_match; simplify_eq; try done; by eapply quiet_grace. Qed.

Lemma quiet_authorized s now n n' b : readyAuthorized cfg s now n = (n', b) -> same_signals n n'.
Proof. unfold readyAuthorized. intros H. case_match; simplify_eq; [by eapply quiet_grace|done]. Qed.

Lemma quiet_allowed s now n n' b : watchdogAllowed cfg s now n = (n', b) -> same_signals n n'.
Proof.
  unfold watchdogAllowed. destruct (hs_RequiredCodex s && _); [|by intros [= <- _]].
  destruct (requiredCodexWithinGrace cfg s now n) eqn:E; intros [= <- _]. by eapply quiet_grace.
Qed.

Lemma authorized_justified o n n' : readyAuthorized cfg (o_snapshot o) (o_now o) n = (n', true) -> ready_justified o.
Proof.
  unfold readyAuthorized. destruct (ready_facts (o_snapshot o)) eqn:E; intros H; [|done].
  split; [done|by eapply within_grace_open].
Qed.

Lemma allowed_justified o n n' :
  o_ping o = true -> watchdogAllowed cfg (o_snapshot o) (o_now o) n = (n', true) -> ping_justified o.
Proof.
  intros Hp. unfold watchdogAllowed, ping_justified.
  destruct (hs_RequiredCodex (o_snapshot o) && _) eqn:E.
  - destruct (requiredCodexWithinGrace cfg _ _ n) as [n1 b] eqn:Eg. intros [= _ H].
    apply andb_true_iff in E as [H1 H2%negb_true_iff]. apply andb_true_iff in H as [[[H3 H4]%andb_true_iff H5]%andb_true_iff H6].
    apply orb_true_iff in H6 as [H6| ->]; [tauto|]. split_and!; auto. right. split_and!; auto. by eapply within_grace_open.
  - intros [= _ H]. rewrite orb_false_r, !andb_true_iff in H. tauto.
Qed.

(** What an observation has established at each point. *)
Definition pc_ok (p : pc) : Prop :=
  match p with
  | PReadSent o _ | PEmit o _ | PSendReady o _ => ready_justified o
  | PSetState o _ authorized _ => authorized = true -> ready_justified o
  | PPing o _ => o_ping o = true
  | PSendPing o => ping_justified o
  | _ => True
  end.

Definition sending_ready (p : pc) : bool := match p with PSendReady _ _ => true | _ => false end.

#[export] Instance ping_justified_dec o : Decision (ping_justified o).
Proof. unfold ping_justified, grace_open. apply _. Defined.

(** An observation that is over and saw a service worth a ping. *)
Definition pinged (p : pc) : bool := match p with PDone o None => bool_decide (ping_justified o) | _ => false end.

Definition failed_with (p : pc) : option NotifierError := match p with PDone _ r => r | _ => None end.

(** A fatal error was delivered: the callback got it once, if there is one,
    and the channel holds it unless it had been closed before. *)
Definition delivered (e : NotifierError) (n : serviceNotifier) : Prop :=
  n_onFatal n = (if nc_onFatal cfg then [e] else []) /\
  (n_fatalCh n = [e] \/ n_fatalCh n = [] /\ n_fatalClosed n = true).

Lemma delivered_quiet e n n' : same_signals n n' -> delivered e n -> delivered e n'.
Proof. intros [_ _ Q1 Q2 Q3 _ _] [H1 H2]. unfold delivered. rewrite Q1, Q2. split; [done|]. destruct H2 as [?|[? ?]]; auto. Qed.

Lemma delivered_send e m n : delivered e n -> delivered e (send cfg m n).
Proof. unfold delivered, send. by destruct (nc_sender cfg). Qed.

Record notifier_inv (s : system) : Prop := {
  i_ok : Forall pc_ok (sys_observations s);
  i_ready : (count is_ready (n_sent (sys_notifier s)) + count sending_ready (sys_observations s)
             <= if n_readySent (sys_notifier s) then 1 else 0)%nat;
  i_just : n_readySent (sys_notifier s) = true -> Exists (fun p => ready_justified (observed p)) (sys_observations s);
  i_ping : (count is_watchdog (n_sent (sys_notifier s)) <= count pinged (sys_observations s))%nat;
  i_failed : Forall (fun p => is_Some (failed_with p) -> is_Some (n_fatal (sys_notifier s))) (sys_observations s);
  i_fatal : match n_fatal (sys_notifier s) with
            | None => n_onFatal (sys_notifier s) = [] /\ n_fatalCh (sys_notifier s) = []
            | Some e => delivered e (sys_notifier s) /\ Exists (fun p => failed_with p = Some e) (sys_observations s)
            end }.

(** A step that changes only what [same_signals] ignores. *)
Lemma inv_quiet n n' l i p p' :
  notifier_inv {| sys_notifier := n; sys_observations := l |} -> l !! i = Some p -> same_signals n n' -> pc_ok p' ->
  observed p' = observed p -> sending_ready p = false -> sending_ready p' = false -> pinged p = false ->
  failed_with p = None -> failed_with p' = None ->
  notifier_inv {| sys_notifier := n'; sys_observations := <[i := p']> l |}.
Proof.
  intros [Hok Hready Hjust Hping Hfail Hfatal] Hi HQ Hp' Ho Hs Hs' Hg Hf Hf'. pose proof HQ as [Q1 Q2 Q3 Q4 _ Q5 Q6]. simpl in *.
  pose proof (count_list_insert sending_ready l i p p' Hi) as C1. rewrite Hs, Hs' in C1.
  pose proof (count_list_insert pinged l i p p' Hi) as C2. rewrite Hg in C2.
  constructor; simpl; rewrite ?Q1, ?Q2, ?Q3, ?Q4, ?Q5, ?Q6.
  - by apply Forall_insert.
  - lia.
  - intros Hr. eapply Exists_insert; [done| |by apply Hjust]. by rewrite Ho.
  - destruct (pinged p'); lia.
  - apply Forall_insert; [done|]. rewrite Hf'. by intros [].
  - destruct (n_fatal n); [|done]. destruct Hfatal as [Hd ?]. split; [by eapply delivered_quiet|].
    eapply Exists_insert; [done| |done]. by rewrite Hf.
Qed.

Lemma inv_quiet_notifier n n' l :
  notifier_inv {| sys_notifier := n; sys_observations := l |} -> same_signals n n' ->
  notifier_inv {| sys_notifier := n'; sys_observations := l |}.
Proof.
  intros [Hok Hready Hjust Hping Hfail Hfatal] HQ. pose proof HQ as [Q1 Q2 Q3 Q4 _ Q5 Q6]. simpl in *.
  constructor; simpl; rewrite ?Q1, ?Q2, ?Q3, ?Q4, ?Q5, ?Q6; try done.
  destruct (n_fatal n); [|done]. destruct Hfatal as [Hd ?]. split; [by eapply delivered_quiet|done].
Qed.

Lemma inv_begin n l o :
  notifier_inv {| sys_notifier := n; sys_observations := l |} ->
  notifier_inv {| sys_notifier := n; sys_observations := l ++ [PClassify o] |}.
Proof.
  intros [Hok Hready Hjust Hping Hfail Hfatal]. simpl in *. constructor; simpl; rewrite ?count_app; simpl; try lia.
  - apply Forall_app. split; [done|]. by constructor.
  - intros Hr. apply Exists_app. left. auto.
  - apply Forall_app. split; [done|]. constructor; [|done]. by intros [].
  - destruct (n_fatal n); [|done]. destruct Hfatal as [? ?]. split; [done|]. apply Exists_app. by left.
Qed.

Lemma send_ready_count m n : is_ready m = true -> is_watchdog m = false ->
  (count is_ready (n_sent (send cfg m n)) <= S (count is_ready (n_sent n)))%nat /\
  count is_watchdog (n_sent (send cfg m n)) = count is_watchdog (n_sent n).
Proof. intros H1 H2. unfold send. destruct (nc_sender cfg); [|lia]. simpl. rewrite !count_app. simpl. rewrite H1, H2. lia. Qed.

Lemma send_fields m n :
  let n' := send cfg m n in
  n_readySent n' = n_readySent n /\ n_fatal n' = n_fatal n /\ n_fatalCh n' = n_fatalCh n /\ n_onFatal n' = n_onFatal n.
Proof. unfold send. by destruct (nc_sender cfg). Qed.

Lemma quiet_close n : same_signals n (close cfg n).
Proof. unfold close. destruct (n_closed n); [done|]. transitivity (send cfg stopping_message n); [by apply quiet_send|by constructor]. Qed.

(** The four sections that change what [same_signals] keeps. *)
Section Loud.
Context (n : serviceNotifier) (l : list pc) (i : nat) (o : observation).
Context (Hinv : notifier_inv {| sys_notifier := n; sys_observations := l |}).

Lemma inv_emit v : l !! i = Some (PEmit o v) -> n_readySent n = false ->
  notifier_inv {| sys_notifier := set_readySent true n; sys_observations := <[i := PSendReady o v]> l |}.
Proof.
  destruct Hinv as [Hok Hready Hjust Hping Hfail Hfatal]. simpl in *. intros Hi Hr. rewrite Hr in Hready.
  pose proof (count_list_insert sending_ready l i _ (PSendReady o v) Hi) as C1. simpl in C1.
  pose proof (count_list_insert pinged l i _ (PSendReady o v) Hi) as C2. simpl in C2.
  assert (ready_justified o) as Hj by exact (Forall_lookup_1 _ _ _ _ Hok Hi).
  constructor; simpl; try lia.
  - by apply Forall_insert.
  - intros _. apply Exists_exists. exists (PSendReady o v). split; [|done]. apply list_elem_of_lookup. exists i.
    apply list_lookup_insert_eq. by eapply lookup_lt_Some.
  - apply Forall_insert; [done|]. by intros [].
  - destruct (n_fatal n); [|done]. destruct Hfatal as [? ?]. split; [done|]. by eapply Exists_insert.
Qed.

Lemma inv_send_ready v : l !! i = Some (PSendReady o v) ->
  notifier_inv {| sys_notifier := send cfg (ready_message v.1.2) n; sys_observations := <[i := PFatal o v]> l |}.
Proof.
  destruct Hinv as [Hok Hready Hjust Hping Hfail Hfatal]. simpl in *. intros Hi.
  pose proof (count_list_insert sending_ready l i _ (PFatal o v) Hi) as C1. simpl in C1.
  pose proof (count_list_insert pinged l i _ (PFatal o v) Hi) as C2. simpl in C2.
  destruct (send_ready_count (ready_message v.1.2) n) as [S1 S2]; [done|done|].
  destruct (send_fields (ready_message v.1.2) n) as (F1 & F2 & F3 & F4).
  constructor; simpl; rewrite ?F1, ?F2, ?F3, ?F4, ?S2; try lia.
  - by apply Forall_insert.
  - intros Hr. eapply Exists_insert; [done| |by apply Hjust]. done.
  - apply Forall_insert; [done|]. by intros [].
  - destruct (n_fatal n); [|done]. destruct Hfatal as [? ?]. split; [by apply delivered_send|]. by eapply Exists_insert.
Qed.

Lemma inv_send_ping : l !! i = Some (PSendPing o) ->
  notifier_inv {| sys_notifier := send cfg watchdog_message n; sys_observations := <[i := PDone o None]> l |}.
Proof.
  destruct Hinv as [Hok Hready Hjust Hping Hfail Hfatal]. simpl in *. intros Hi.
  pose proof (count_list_insert sending_ready l i _ (PDone o None) Hi) as C1. simpl in C1.
  pose proof (count_list_insert pinged l i _ (PDone o None) Hi) as C2. simpl in C2.
  assert (ping_justified o) as Hj by exact (Forall_lookup_1 _ _ _ _ Hok Hi).
  rewrite bool_decide_true in C2 by done.
  destruct (send_fields watchdog_message n) as (F1 & F2 & F3 & F4).
  assert (count is_ready (n_sent (send cfg watchdog_message n)) = count is_ready (n_sent n) /\
          count is_watchdog (n_sent (send cfg watchdog_message n)) <= S (count is_watchdog (n_sent n)))%nat as [S1 S2].
  { unfold send. destruct (nc_sender cfg); [|lia]. simpl. rewrite !count_app. simpl. lia. }
  constructor; simpl; rewrite ?F1, ?F2, ?F3, ?F4, ?S1; try lia.
  - by apply Forall_insert.
  - intros Hr. eapply Exists_insert; [done| |by apply Hjust]. done.
  - apply Forall_insert; [done|]. by intros [].
  - destruct (n_fatal n); [|done]. destruct Hfatal as [? ?]. split; [by apply delivered_send|]. by eapply Exists_insert.
Qed.

Lemma signalFatal_fields e :
  let n' := signalFatal cfg e n in n_readySent n' = n_readySent n /\ n_sent n' = n_sent n /\ is_Some (n_fatal n').
Proof. unfold signalFatal. destruct (n_fatal n) eqn:E; simpl; rewrite ?E; eauto. Qed.

Lemma inv_fatal v e : l !! i = Some (PFatal o v) ->
  notifier_inv {| sys_notifier := signalFatal cfg e n; sys_observations := <[i := PDone o (Some e)]> l |}.
Proof.
  destruct Hinv as [Hok Hready Hjust Hping Hfail Hfatal]. simpl in *. intros Hi.
  pose proof (count_list_insert sending_ready l i _ (PDone o (Some e)) Hi) as C1. simpl in C1.
  pose proof (count_list_insert pinged l i _ (PDone o (Some e)) Hi) as C2. simpl in C2.
  destruct (signalFatal_fields e) as (F1 & F2 & F3).
  constructor; simpl; rewrite ?F1, ?F2; try lia.
  - by apply Forall_insert.
  - intros Hr. eapply Exists_insert; [done| |by apply Hjust]. done.
  - apply Forall_insert; [|done]. eapply Forall_impl; [exact Hfail|done].
  - unfold signalFatal. destruct (n_fatal n) as [e'|] eqn:E; simpl; rewrite ?E.
    + destruct Hfatal as [? ?]. split; [done|]. eapply Exists_insert; [done| |done]. done.
    + destruct Hfatal as [-> ->]. unfold delivered. simpl. split_and!; [done|destruct (n_fatalClosed n); auto|].
      apply Exists_exists. exists (PDone o (Some e)). split; [|done]. apply list_elem_of_lookup. exists i.
      apply list_lookup_insert_eq. by eapply lookup_lt_Some.
Qed.
End Loud.

Lemma inv_advance n l i p n' p' :
  notifier_inv {| sys_notifier := n; sys_observations := l |} -> l !! i = Some p -> advance cfg p n = (n', p') ->
  notifier_inv {| sys_notifier := n'; sys_observations := <[i := p']> l |}.
Proof.
  intros Hinv Hi H. pose proof (Forall_lookup_1 _ _ _ _ (i_ok _ Hinv) Hi) as Hp. simpl in Hp.
  destruct p as [o|o v|o v|o v a e|o v|o v|o v|o v|o|o r]; cbn [advance] in H.
  - destruct (classify cfg _ _ n) eqn:E. simplify_eq. eapply inv_quiet; try done. by eapply quiet_classify.
  - destruct (readyAuthorized cfg _ _ n) as [n1 b] eqn:E. simplify_eq. apply quiet_authorized in E as Hq.
    eapply inv_quiet; try done; destruct b; try done. by eapply authorized_justified.
  - simplify_eq. eapply inv_quiet; try done. by intros _.
  - simplify_eq. eapply inv_quiet; [done|done|apply quiet_setState|..]; destruct a; try done. by apply Hp.
  - destruct (n_readySent n) eqn:E; simplify_eq; [by eapply inv_quiet|by apply inv_emit].
  - simplify_eq. by apply inv_send_ready.
  - destruct (v.2) as [e|]; simplify_eq; [by eapply inv_fatal|].
    eapply inv_quiet; try done; destruct (o_ping o && _) eqn:E; try done. by apply andb_true_iff in E as [? _].
  - destruct (watchdogAllowed cfg _ _ n) as [n1 b] eqn:E. simplify_eq. apply quiet_allowed in E as Hq.
    eapply inv_quiet; try done; destruct b; try done. by eapply allowed_justified.
  - simplify_eq. by apply inv_send_ping.
  - simplify_eq. by rewrite list_insert_id.
Qed.

Lemma inv_initial : notifier_inv initial_system.
Proof. constructor; simpl; [done|lia|done|lia|done|done]. Qed.

Lemma inv_reachable s : reachable cfg s -> notifier_inv s.
Proof.
  intros H. unfold reachable in H. revert s H. apply rtc_ind_r; [apply inv_initial|].
  intros x y _ Hstep IH. destruct Hstep.
  - by apply inv_begin.
  - by eapply inv_advance.
  - eapply inv_quiet_notifier; [done|apply quiet_setState].
  - eapply inv_quiet_notifier; [done|apply quiet_close].
Qed.

(** *** A signal is final *)

(** Whatever follows a fatal error, the notifier keeps it and what it did
    with it. *)
Definition same_fatal (n n' : serviceNotifier) : Prop :=
  n_fatal n' = n_fatal n /\ n_onFatal n' = n_onFatal n /\ n_fatalCh n' = n_fatalCh n.

Lemma same_fatal_quiet n n' : same_signals n n' -> same_fatal n n'.
Proof. by intros []. Qed.
Lemma same_fatal_send m n : same_fatal n (send cfg m n).
Proof. destruct (send_fields m n) as (_ & ? & ? & ?). done. Qed.

Lemma advance_same_fatal p n n' p' : advance cfg p n = (n', p') -> is_Some (n_fatal n) -> same_fatal n n'.
Proof.
  intros H [e He]. destruct p as [o|o v|o v|o v a em|o v|o v|o v|o v|o|o r]; cbn [advance] in H.
  - destruct (classify cfg _ _ n) eqn:E. simplify_eq. by eapply same_fatal_quiet, quiet_classify.
  - destruct (readyAuthorized cfg _ _ n) eqn:E. simplify_eq. by eapply same_fatal_quiet, quiet_authorized.
  - by simplify_eq.
  - simplify_eq. apply same_fatal_quiet, quiet_setState.
  - by destruct (n_readySent n); simplify_eq.
  - simplify_eq. apply same_fatal_send.
  - destruct (v.2); simplify_eq; [|done]. unfold signalFatal. by rewrite He.
  - destruct (watchdogAllowed cfg _ _ n) eqn:E. simplify_eq. by eapply same_fatal_quiet, quiet_allowed.
  - simplify_eq. apply same_fatal_send.
  - by simplify_eq.
Qed.

Lemma steps_same_fatal s s' : rtc (sys_step cfg) s s' -> is_Some (n_fatal (sys_notifier s)) ->
  same_fatal (sys_notifier s) (sys_notifier s').
Proof.
  induction 1 as [|s1 s2 s3 Hstep _ IH]; [done|]. intros Hf.
  assert (same_fatal (sys_notifier s1) (sys_notifier s2)) as (H1 & H2 & H3).
  { destruct Hstep; simpl in *; [done|by eapply advance_same_fatal|apply same_fatal_quiet, quiet_setState|apply same_fatal_quiet, quiet_close]. }
  rewrite <-H1 in Hf. destruct (IH Hf) as (? & ? & ?). unfold same_fatal. by rewrite <-H1, <-H2, <-H3.
Qed.

(** ** The status that is shown *)

(** The status text of a message, and the last one of a log. *)
Definition shown_in (m : string) : option string :=
  if String.prefix "STATUS=" m then Some (String.substring 7 (String.length m) m)
  else if is_ready m then Some (String.substring 15 (String.length m) m) else None.

Definition shown (l : list string) : option string :=
  fold_left (fun acc m => match shown_in m with Some t => Some t | None => acc end) l None.

Lemma shown_snoc l m : shown (l ++ [m]) = match shown_in m with Some t => Some t | None => shown l end.
Proof. unfold shown. by rewrite fold_left_app. Qed.

(** The status systemd shows is that of the notifier's state. *)
Definition status_current (n : serviceNotifier) : Prop :=
  n_haveState n = true -> shown (n_sent n) = Some (statusText (n_lastState n)).

Lemma classify_text s now n n' st text f : classify cfg s now n = (n', (st, text, f)) -> text = statusText st.
Proof. unfold classify. intros H. by repeat case_match; simplify_eq. Qed.

Record same_display (n n' : serviceNotifier) : Prop := {
  sd_sent : n_sent n' = n_sent n; sd_last : n_lastState n' = n_lastState n; sd_have : n_haveState n' = n_haveState n }.
#[local] Instance same_display_refl : Reflexive same_display.
Proof. by constructor. Qed.

Lemma display_grace s now n n' b : requiredCodexWithinGrace cfg s now n = (n', b) -> same_display n n'.
Proof. unfold requiredCodexWithinGrace. intros H. repeat case_match; simplify_eq; by constructor. Qed.
Lemma display_classify s now n n' v : classify cfg s now n = (n', v) -> same_display n n'.
Proof. unfold classify. intros H. repeat case_match; simplify_eq; try done; by eapply display_grace. Qed.
Lemma display_authorized s now n n' b : readyAuthorized cfg s now n = (n', b) -> same_display n n'.
Proof. unfold readyAuthorized. intros H. case_match; simplify_eq; [by eapply display_grace|done]. Qed.
Lemma display_allowed s now n n' b : watchdogAllowed cfg s now n = (n', b) -> same_display n n'.
Proof.
  unfold watchdogAllowed. destruct (hs_RequiredCodex s && _); [|by intros [= <- _]].
  destruct (requiredCodexWithinGrace cfg s now n) eqn:E; intros [= <- _]. by eapply display_grace.
Qed.
Lemma display_fatal e n : same_display n (signalFatal cfg e n).
Proof. unfold signalFatal. by destruct (n_fatal n). Qed.

Lemma status_current_display n n' : same_display n n' -> status_current n -> status_current n'.
Proof. intros [H1 H2 H3]. unfold status_current. by rewrite H1, H2, H3. Qed.

Context (sends : nc_sender cfg = true).

Lemma status_current_send m n : shown_in m = None -> status_current n -> status_current (send cfg m n).
Proof. intros Hm. unfold status_current, send. rewrite sends. simpl. by rewrite shown_snoc, Hm. Qed.

Lemma setState_shows st n : status_current n -> status_current (setState cfg st true n) /\
  n_haveState (setState cfg st true n) = true /\ n_lastState (setState cfg st true n) = st.
Proof.
  intros Hc. unfold setState. destruct (n_haveState n && bool_decide (n_lastState n = st)) eqn:E.
  - apply andb_true_iff in E as [E1 E2%bool_decide_eq_true]. auto.
  - unfold status_current, send. rewrite sends. simpl. rewrite shown_snoc. split_and!; [|done|done]. intros _. by destruct st.
Qed.

Lemma setState_silent st n : n_lastState (setState cfg st false n) = st /\ n_haveState (setState cfg st false n) = true /\
  n_sent (setState cfg st false n) = n_sent n /\ n_readySent (setState cfg st false n) = n_readySent n.
Proof.
  unfold setState. destruct (n_haveState n && bool_decide (n_lastState n = st)) eqn:E; [|done].
  apply andb_true_iff in E as [E1 E2%bool_decide_eq_true]. auto.
Qed.

Lemma authorised_shows st n :
  status_current n -> status_current (emitReady cfg (statusText st) (setState cfg st (n_readySent n) n)).
Proof.
  intros Hc. unfold emitReady. destruct (n_readySent n) eqn:E.
  - rewrite (q_readySent _ _ (quiet_setState st true n)), E. by apply setState_shows.
  - destruct (setState_silent st n) as (H1 & H2 & H3 & H4). rewrite H4, E. unfold status_current, send. rewrite sends. simpl.
    rewrite shown_snoc, H1. intros _. by destruct st.
Qed.

Lemma observeAt_status_current now ping s n : status_current n -> status_current (fst (observeAt cfg now ping s n)).
Proof.
  intros Hc. unfold observeAt. destruct (classify cfg s now n) as [n1 [[st text] f]] eqn:E1.
  apply classify_text in E1 as Et. subst text. apply display_classify in E1.
  destruct (readyAuthorized cfg s now n1) as [n2 b] eqn:E2. apply display_authorized in E2.
  apply (status_current_display _ _ E1), (status_current_display _ _ E2) in Hc.
  set (n3 := if b then _ else _). assert (status_current n3) as H3.
  { subst n3. destruct b; [by apply authorised_shows|by apply setState_shows]. }
  destruct f as [e|]; [by eapply status_current_display; [apply display_fatal|]|].
  destruct (ping && pings st); [|done]. destruct (watchdogAllowed cfg s now n3) as [n4 a] eqn:E4. apply display_allowed in E4.
  apply (status_current_display _ _ E4) in H3. destruct a; [|done]. by apply status_current_send.
Qed.

Lemma run_loop_status_current events n : status_current n -> status_current (fst (run_loop cfg events n)).
Proof.
  revert n. induction events as [|[| | |tick now s] events IH]; intros n Hc; try done. simpl.
  pose proof (observeAt_status_current (if IsZero tick then now else tick) true s n Hc) as H.
  destruct (observeAt cfg _ true s n) as [n' [e|]]; [done|]. by apply IH.
Qed.

Lemma run_status_current now s events n : status_current n -> status_current (fst (run cfg now s events n)).
Proof.
  intros Hc. unfold run. pose proof (observeAt_status_current now false s (setStatus cfg notifierStateStarting n)) as H.
  destruct (observeAt cfg now false s _) as [n' [e|]]; simpl in H; [|apply run_loop_status_current]; apply H; by apply setState_shows.
Qed.

(** ** A required outage *)

(** A healthy core whose required Codex is in a recovery that the snapshot
    does not date. *)
Definition outage (s : NotifierHealthSnapshot) : Prop :=
  hs_Probed s = true /\ hs_DatabaseHealthy s = true /\ hs_CoreHealthy s = true /\ hs_RequiredCodex s = true /\
  hs_CodexHealthy s = false /\ hs_RecoveryExhausted s = false /\ hs_RequiredRecoveryActive s = true /\
  hs_RecoverySince s = zeroTime.

Lemma grace_outage s now n : outage s -> n_recoverySince n <> zeroTime -> n_recoverySince n <= now ->
  requiredCodexWithinGrace cfg s now n = (n, bool_decide (now - n_recoverySince n < nc_recoveryGrace cfg)).
Proof.
  intros (_ & _ & _ & H1 & H2 & _ & H3 & H4) Hn Hle. unfold requiredCodexWithinGrace. rewrite H1, H2, H3, H4. simpl.
  unfold IsZero. destruct (Z.eqb_spec (n_recoverySince n) zeroTime); [done|].
  destruct (Z.ltb_spec now (n_recoverySince n)); [lia|]. f_equal. unfold time_Sub.
  destruct (decide (now - n_recoverySince n < nc_recoveryGrace cfg)); [rewrite bool_decide_true by done|rewrite bool_decide_false by done];
    [apply Z.ltb_lt|apply Z.ltb_ge]; lia.
Qed.

Lemma since_send m n : n_recoverySince (send cfg m n) = n_recoverySince n.
Proof. clear sends. unfold send. by destruct (nc_sender cfg). Qed.
Lemma since_setState st b n : n_recoverySince (setState cfg st b n) = n_recoverySince n.
Proof. clear sends. unfold setState. destruct (n_haveState n && _); [done|]. destruct b; [|done]. simpl. by rewrite since_send. Qed.
Lemma since_emitReady st n : n_recoverySince (emitReady cfg st n) = n_recoverySince n.
Proof. clear sends. unfold emitReady. destruct (n_readySent n); [done|]. by rewrite since_send. Qed.

(** An observation of a dated outage waits for it, and pings, until the
    grace has passed; then it is fatal. *)
Lemma observeAt_outage s now n : outage s -> n_recoverySince n <> zeroTime -> n_recoverySince n <= now ->
  let '(n', r) := observeAt cfg now true s n in
  n_recoverySince n' = n_recoverySince n /\
  if bool_decide (now - n_recoverySince n < nc_recoveryGrace cfg)
  then r = None /\ count is_watchdog (n_sent n') = S (count is_watchdog (n_sent n))
  else r = Some ErrNotifierExhausted.
Proof.
  intros Ho Hn Hle. pose proof Ho as (P1 & P2 & P3 & P4 & P5 & P6 & P7 & P8).
  pose proof (grace_outage s now n Ho Hn Hle) as Hg.
  assert (readyAuthorized cfg s now n = (n, hs_Ready s && bool_decide (now - n_recoverySince n < nc_recoveryGrace cfg))) as Hauth.
  { unfold readyAuthorized, ready_facts. rewrite P1, P2, P3, Hg. by destruct (hs_Ready s). }
  unfold observeAt, classify. rewrite P1, P2, P3, P4, P5, P6, P7, Hg. cbn [andb negb]. rewrite andb_false_r. cbn [andb].
  destruct (bool_decide (now - n_recoverySince n < nc_recoveryGrace cfg)) eqn:Eb; simpl; rewrite Hauth.
  - set (n3 := if hs_Ready s && true then _ else _).
    assert (n_recoverySince n3 = n_recoverySince n /\ count is_watchdog (n_sent n3) = count is_watchdog (n_sent n)) as [H3 H4].
    { subst n3. destruct (hs_Ready s && true).
      - rewrite since_emitReady, since_setState. split; [done|]. rewrite <-(q_watchdog _ _ (quiet_setState notifierStateRecovering (n_readySent n) n)).
        unfold emitReady. destruct (n_readySent (setState _ _ _ _)); [done|]. by destruct (send_ready_count (ready_message notifierStatusRecovering) (set_readySent true (setState cfg notifierStateRecovering (n_readySent n) n))) as [_ ->].
      - rewrite since_setState. split; [done|]. apply (q_watchdog _ _ (quiet_setState _ _ _)). }
    unfold watchdogAllowed. rewrite P4, P5. simpl. rewrite (grace_outage s now n3 Ho) by (by rewrite H3).
    rewrite H3, Eb, P1, P2, P3, orb_true_r. simpl. rewrite since_send. split_and!; [done|done|].
    unfold send. rewrite sends. simpl. rewrite count_app, H4. simpl. lia.
  - rewrite andb_false_r. split; [|done]. unfold signalFatal. destruct (n_fatal _); simpl; apply since_setState.
Qed.

Definition tick_at (t : Z) (s : NotifierHealthSnapshot) : run_event := Tick t t s.

Lemma run_loop_outage (ticks : list (Z * NotifierHealthSnapshot)) n :
  n_recoverySince n <> zeroTime -> Forall (fun t => outage t.2 /\ n_recoverySince n <= t.1) ticks ->
  let '(n', r) := run_loop cfg ((fun t => tick_at t.1 t.2) <$> ticks) n in
  (Exists (fun t => n_recoverySince n + nc_recoveryGrace cfg <= t.1) ticks -> r = Some (RunFatal ErrNotifierExhausted)) /\
  (Forall (fun t => t.1 < n_recoverySince n + nc_recoveryGrace cfg) ticks ->
   r = None /\ (count is_watchdog (n_sent n') = count is_watchdog (n_sent n) + length ticks)%nat).
Proof.
  revert n. induction ticks as [|[t s] ticks IH]; intros n Hn Hall; simpl.
  { split; [by intros ?%Exists_nil|]. intros _. split; [done|lia]. }
  apply Forall_cons in Hall as [[Ho Hle] Hall]. simpl in *. replace (if IsZero t then t else t) with t by (by destruct (IsZero t)).
  pose proof (observeAt_outage s t n Ho Hn Hle) as H. destruct (observeAt cfg t true s n) as [n1 r1]. destruct H as [Hs H].
  case_bool_decide as Hb.
  - destruct H as [-> Hc]. specialize (IH n1). rewrite Hs in IH. specialize (IH Hn Hall).
    destruct (run_loop cfg _ n1) as [n' r']. destruct IH as [IH1 IH2]. split.
    + intros [H|H]%Exists_cons; simpl in *; [lia|auto].
    + intros [_ H]%Forall_cons. destruct (IH2 H) as [-> ->]. split; [done|lia].
  - subst r1. split; [done|]. intros [H _]%Forall_cons. simpl in H. lia.
Qed.

Lemma grace_first s now n : outage s -> n_recoverySince n = zeroTime -> now <> zeroTime -> 0 < nc_recoveryGrace cfg ->
  requiredCodexWithinGrace cfg s now n = (set_since now n, true).
Proof.
  intros Ho Hn Hnow Hpos. pose proof Ho as (_ & _ & _ & H1 & H2 & _ & H3 & H4). unfold requiredCodexWithinGrace.
  rewrite H1, H2, H3, H4. cbn [negb orb andb]. rewrite Hn. unfold IsZero. rewrite Z.eqb_refl. cbn [andb n_recoverySince set_since].
  rewrite Z.ltb_irrefl. f_equal. apply Z.ltb_lt. unfold time_Sub. lia.
Qed.

Lemma observeAt_outage_first s now n : outage s -> n_recoverySince n = zeroTime -> now <> zeroTime -> 0 < nc_recoveryGrace cfg ->
  let '(n', r) := observeAt cfg now false s n in
  r = None /\ n_recoverySince n' = now /\ count is_watchdog (n_sent n') = count is_watchdog (n_sent n).
Proof.
  intros Ho Hn Hnow Hpos. pose proof Ho as (P1 & P2 & P3 & P4 & P5 & P6 & P7 & P8).
  pose proof (grace_first s now n Ho Hn Hnow Hpos) as Hg.
  assert (requiredCodexWithinGrace cfg s now (set_since now n) = (set_since now n, true)) as Hg'.
  { rewrite grace_outage by (done || simpl; lia). simpl. by rewrite bool_decide_true by lia. }
  assert (readyAuthorized cfg s now (set_since now n) = (set_since now n, hs_Ready s)) as Hauth.
  { unfold readyAuthorized, ready_facts. rewrite P1, P2, P3, Hg'. by destruct (hs_Ready s). }
  unfold observeAt, classify. rewrite P1, P2, P3, P4, P5, P6, P7, Hg. cbn [andb negb]. rewrite andb_false_r. cbn [andb].
  rewrite Hauth. split; [done|]. destruct (hs_Ready s).
  - rewrite since_emitReady, since_setState. split; [done|]. unfold emitReady.
    set (m := setState cfg _ _ _). assert (count is_watchdog (n_sent m) = count is_watchdog (n_sent n)) as Hm
      by apply (q_watchdog _ _ (quiet_setState _ _ (set_since now n))).
    destruct (n_readySent m); [done|].
    by destruct (send_ready_count (ready_message notifierStatusRecovering) (set_readySent true m)) as [_ ->].
  - rewrite since_setState. split; [done|]. apply (q_watchdog _ _ (quiet_setState _ _ (set_since now n))).
Qed.
End Spec.

(** ** The guarantees *)

(** C31: Over every interleaving of observations, of the loop's start and of
    the closing of the notifier, systemd gets [READY=1] at most once, and only
    after an observation of a probed, ready service with a healthy database
    and core whose required Codex was healthy or inside its grace; it gets no
    more watchdog pings than there were observations of a healthy core that
    was eligible or inside that grace.  A fatal error is recorded exactly when
    an observation has failed; it is then the error of such an observation, the
    callback (if configured) has got it exactly once, the channel holds it
    exactly once (unless the notifier was closed before it), and no later
    step changes any of this. *)
Theorem notifier_signals_safe cfg s :
  nc_recoveryGrace cfg <= 9223372036854775807 -> reachable cfg s ->
  let n := sys_notifier s in
  (count is_ready (n_sent n) <= 1)%nat /\
  ((0 < count is_ready (n_sent n))%nat -> Exists (fun p => ready_justified cfg (observed p)) (sys_observations s)) /\
  (count is_watchdog (n_sent n) <= count (pinged cfg) (sys_observations s))%nat /\
  (is_Some (n_fatal n) <-> Exists (fun p => is_Some (failed_with p)) (sys_observations s)) /\
  (forall e, n_fatal n = Some e ->
     Exists (fun p => failed_with p = Some e) (sys_observations s) /\
     n_onFatal n = (if nc_onFatal cfg then [e] else []) /\
     (n_fatalCh n = [e] \/ n_fatalCh n = [] /\ n_fatalClosed n = true) /\
     (forall s', rtc (sys_step cfg) s s' -> same_fatal n (sys_notifier s'))) /\
  (n_fatal n = None -> n_onFatal n = [] /\ n_fatalCh n = []).
Proof.
  intros Hg Hr. destruct (inv_reachable cfg Hg s Hr) as [_ Hready Hjust Hping Hfail Hfatal]. cbv zeta. split_and!.
  - destruct (n_readySent _); lia.
  - intros Hpos. apply Hjust. destruct (n_readySent _); [done|lia].
  - done.
  - split.
    + intros [e He]. rewrite He in Hfatal. eapply Exists_impl; [apply Hfatal|]. simpl. intros p ->. eauto.
    + intros (p & Hp & Hs)%Exists_exists. rewrite Forall_forall in Hfail. by apply (Hfail p).
  - intros e He. rewrite He in Hfatal. destruct Hfatal as [[H1 H2] H3]. split_and!; try done.
    intros s' Hs'. eapply steps_same_fatal; [done..|by rewrite He].
  - intros He. by rewrite He in Hfatal.
Qed.

(** An observation passes at most nine lock sections however it is
    interleaved, since each lowers what remains; and one that runs without
    interference is the sequential [observeAt]. *)
Theorem observation_serializes cfg o n :
  (forall p n1 n2 p', advance cfg p n1 = (n2, p') ->
     observed p' = observed p /\ (remaining p' <= Nat.pred (remaining p))%nat) /\
  (forall p, remaining p = 0%nat <-> exists r, p = PDone (observed p) r) /\
  unhindered cfg 9 (PClassify o) n =
  (let '(n', r) := observeAt cfg (o_now o) (o_ping o) (o_snapshot o) n in (n', PDone o r)).
Proof.
  split_and!; [intros; by eapply advance_remaining| |apply observation_alone_eq].
  intros [o'|o' v|o' v|o' v a e|o' v|o' v|o' v|o' v|o'|o' r]; simpl; split; intros H; try lia; try (by destruct H); eauto.
Qed.

(** When a required Codex is down behind a healthy core, the loop keeps
    running and pings at every tick inside the grace after the first
    observation of the outage, and it returns the exhaustion error at the
    first tick that is not inside it. *)
Theorem outage_is_bounded cfg now s (ticks : list (Z * NotifierHealthSnapshot)) :
  nc_sender cfg = true -> 0 < nc_recoveryGrace cfg <= 9223372036854775807 -> now <> zeroTime -> outage s ->
  Forall (fun t => outage t.2 /\ now <= t.1) ticks ->
  let '(n, r) := run cfg now s ((fun t => tick_at t.1 t.2) <$> ticks) newServiceNotifier in
  (Exists (fun t => now + nc_recoveryGrace cfg <= t.1) ticks -> r = Some (RunFatal ErrNotifierExhausted)) /\
  (Forall (fun t => t.1 < now + nc_recoveryGrace cfg) ticks ->
   r = None /\ count is_watchdog (n_sent n) = length ticks).
Proof.
  intros Hsend [Hpos Hg] Hnow Hs Hall. unfold run.
  set (n0 := setStatus cfg notifierStateStarting newServiceNotifier).
  assert (n_recoverySince n0 = zeroTime /\ count is_watchdog (n_sent n0) = 0%nat) as [Hn0 Hc0].
  { subst n0. unfold setStatus. rewrite since_setState. split; [done|].
    by rewrite (q_watchdog _ _ (quiet_setState cfg _ _ _)). }
  pose proof (observeAt_outage_first cfg Hg s now n0 Hs Hn0 Hnow Hpos) as H.
  destruct (observeAt cfg now false s n0) as [n1 r1]. destruct H as (-> & Hsince & Hc).
  pose proof (run_loop_outage cfg Hg Hsend ticks n1) as Hloop. rewrite Hsince in Hloop. specialize (Hloop Hnow Hall).
  destruct (run_loop cfg _ n1) as [n r]. by rewrite Hc, Hc0 in Hloop.
Qed.

(** While only the loop observes, the status systemd shows is the text of
    the state the notifier is in, whether it was sent on its own or with
    [READY=1]. *)
Theorem loop_status_is_current cfg now s events :
  nc_sender cfg = true ->
  let n := fst (run cfg now s events newServiceNotifier) in
  n_haveState n = true -> shown (n_sent n) = Some (statusText (n_lastState n)).
Proof. intros Hs. cbv zeta. change (status_current (fst (run cfg now s events newServiceNotifier))). by apply run_status_current. Qed.

(** ** Schedules *)

Inductive move := Begin (o : observation) | Advance (i : nat) | Start | Close.

Definition play (cfg : notifierConfig) (s : system) (m : move) : system :=
  let n := sys_notifier s in
  let l := sys_observations s in
  match m with
  | Begin o => {| sys_notifier := n; sys_observations := l ++ [PClassify o] |}
  | Advance i =>
      match l !! i with
      | None => s
      | Some p => let '(n', p') := advance cfg p n in {| sys_notifier := n'; sys_observations := <[i := p']> l |}
      end
  | Start => {| sys_notifier := setStatus cfg notifierStateStarting n; sys_observations := l |}
  | Close => {| sys_notifier := close cfg n; sys_observations := l |}
  end.

Lemma play_reachable cfg ms s : reachable cfg s -> reachable cfg (fold_left (play cfg) ms s).
Proof.
  revert s. induction ms as [|m ms IH]; intros s Hs; [done|]. apply IH. destruct s as [n l], m as [o|i| |]; simpl.
  - eapply rtc_r; [exact Hs|constructor].
  - destruct (l !! i) as [p|] eqn:Hi; [|done]. destruct (advance cfg p n) as [n' p'] eqn:Ha.
    eapply rtc_r; [exact Hs|by econstructor].
  - eapply rtc_r; [exact Hs|constructor].
  - eapply rtc_r; [exact Hs|constructor].
Qed.

(** The loop and [ready] may observe at once.  Two observations that
    both find [READY=1] unsent then keep their status for the message, only
    one of them sends it, and the state the other set is never shown. *)
Theorem status_lost_to_race cfg :
  nc_sender cfg = true ->
  exists s, reachable cfg s /\ Forall (fun p => remaining p = 0%nat) (sys_observations s) /\
    n_haveState (sys_notifier s) = true /\ n_lastState (sys_notifier s) = notifierStateDegraded /\
    shown (n_sent (sys_notifier s)) = Some notifierStatusReady.
Proof.
  intros Hs.
  set (view codex := {| hs_Probed := true; hs_Ready := true; hs_DatabaseHealthy := true; hs_CoreHealthy := true;
    hs_CodexHealthy := codex; hs_RequiredCodex := false; hs_WatchdogEligible := true; hs_RecoverySince := zeroTime;
    hs_RequiredRecoveryActive := false; hs_RecoveryExhausted := false |}).
  set (look codex := {| o_now := 0; o_ping := false; o_snapshot := view codex |}).
  exists (fold_left (play cfg) ([Begin (look true); Begin (look false)] ++ replicate 3 (Advance 0) ++ replicate 3 (Advance 1)
            ++ replicate 4 (Advance 0) ++ replicate 3 (Advance 1)) initial_system).
  split; [apply play_reachable, rtc_refl|]. destruct cfg as [b f i g]. simpl in Hs. subst b. vm_compute. repeat constructor.
Qed.

Module NotifierDemo.
Definition config : notifierConfig := newConfig true true 0 0.
Definition healthy : NotifierHealthSnapshot :=
  {| hs_Probed := true; hs_Ready := true; hs_DatabaseHealthy := true; hs_CoreHealthy := true; hs_CodexHealthy := true;
     hs_RequiredCodex := true; hs_WatchdogEligible := true; hs_RecoverySince := zeroTime;
     hs_RequiredRecoveryActive := false; hs_RecoveryExhausted := false |}.
Definition down : NotifierHealthSnapshot :=
  {| hs_Probed := true; hs_Ready := true; hs_DatabaseHealthy := true; hs_CoreHealthy := true; hs_CodexHealthy := false;
     hs_RequiredCodex := true; hs_WatchdogEligible := false; hs_RecoverySince := zeroTime;
     hs_RequiredRecoveryActive := true; hs_RecoveryExhausted := false |}.
Definition broken : NotifierHealthSnapshot :=
  {| hs_Probed := true; hs_Ready := true; hs_DatabaseHealthy := false; hs_CoreHealthy := true; hs_CodexHealthy := true;
     hs_RequiredCodex := true; hs_WatchdogEligible := false; hs_RecoverySince := zeroTime;
     hs_RequiredRecoveryActive := false; hs_RecoveryExhausted := false |}.
Definition look (t : Z) (s : NotifierHealthSnapshot) : observation := {| o_now := t; o_ping := true; o_snapshot := s |}.
Definition busy : system :=
  fold_left (play config)
    ([Start; Begin (look 1 healthy); Begin (look 2 healthy)] ++ replicate 5 (Advance 0) ++ replicate 9 (Advance 1)
     ++ replicate 4 (Advance 0) ++ [Begin (look 3 broken)] ++ replicate 9 (Advance 2) ++ [Close]) initial_system.

Example busy_log :
  n_sent (sys_notifier busy) =
  ["STATUS=Starting"; "WATCHDOG=1"; ready_message "Ready"; "WATCHDOG=1"; "STATUS=Degraded"; stopping_message]%string.
Proof. reflexivity. Qed.
End NotifierDemo.

Lemma notifier_signals_safe_witness :
  reachable NotifierDemo.config NotifierDemo.busy /\ count is_ready (n_sent (sys_notifier NotifierDemo.busy)) = 1%nat /\
  (count is_watchdog (n_sent (sys_notifier NotifierDemo.busy)) <= 2)%nat /\
  n_onFatal (sys_notifier NotifierDemo.busy) = [ErrNotifierDatabaseFailure] /\
  n_fatalCh (sys_notifier NotifierDemo.busy) = [ErrNotifierDatabaseFailure].
Proof.
  assert (reachable NotifierDemo.config NotifierDemo.busy) as Hr by apply play_reachable, rtc_refl.
  destruct (notifier_signals_safe NotifierDemo.config NotifierDemo.busy) as (_ & _ & H & _ & Hf & _); [vm_compute; congruence|exact Hr|].
  destruct (Hf ErrNotifierDatabaseFailure eq_refl) as (_ & Hc & [Hch|[Hch _]] & _); [|vm_compute in Hch; discriminate Hch].
  split; [exact Hr|]. split; [reflexivity|]. split; [exact H|]. split; [exact Hc|exact Hch].
Defined.

Lemma outage_is_bounded_witness :
  snd (run NotifierDemo.config 5 NotifierDemo.down
         ((fun t => tick_at t.1 t.2) <$> [(10, NotifierDemo.down); (30000000005, NotifierDemo.down)]) newServiceNotifier)
  = Some (RunFatal ErrNotifierExhausted).
Proof.
  pose proof (outage_is_bounded NotifierDemo.config 5 NotifierDemo.down
                [(10, NotifierDemo.down); (30000000005, NotifierDemo.down)]) as H.
  destruct (run NotifierDemo.config 5 NotifierDemo.down _ _) as [n r]. simpl. apply H; clear H.
  - reflexivity.
  - vm_compute. split; congruence.
  - vm_compute. congruence.
  - repeat split; reflexivity.
  - repeat constructor; vm_compute; congruence.
  - apply Exists_cons_tl, Exists_cons_hd. vm_compute. congruence.
Defined.

Lemma loop_status_is_current_witness :
  shown (n_sent (fst (run NotifierDemo.config 5 NotifierDemo.healthy [tick_at 9 NotifierDemo.down] newServiceNotifier)))
  = Some notifierStatusRecovering.
Proof. exact (loop_status_is_current NotifierDemo.config 5 NotifierDemo.healthy [tick_at 9 NotifierDemo.down] eq_refl eq_refl). Defined.

Lemma status_lost_to_race_witness :
  exists s, reachable NotifierDemo.config s /\ shown (n_sent (sys_notifier s)) = Some notifierStatusReady.
Proof. destruct (status_lost_to_race NotifierDemo.config eq_refl) as (s & H & _ & _ & _ & H'). exact (ex_intro _ s (conj H H')). Defined.
