(* ===== verification/Supervisor.v ===== *)
(** * The managed Codex process

    [internal/codexauth/process.go]: the manager that keeps one App Server
    child alive.  One goroutine, the supervisor, creates every child; requests
    report failures, a sustained healthy period returns the restart budget, and
    [Close] ends it.

    The manager's fields are one record, together with what happened to the
    children: a child is its number in the order of creation.  Each critical
    section of the code is one step: [tpc] are the points of a goroutine that
    reports a failure, observes health or closes the manager, [spc] those of
    the supervisor, and [sys_step] interleaves them.  What the section reads
    from outside (the clock, the backoff policy, the factory) is its [input].
    Only autonomous managers are modelled, which is what every exported
    constructor makes; the process and its protocol are behind the factory. *)

From Stdlib Require Import ZArith Lia.
From stdpp Require Import base strings list option relations.
From S2P Require Import Prelude GoText.

Local Open Scope Z_scope.

(** ** Errors and reasons *)

(** The errors the code tells apart with [errors.Is]. *)
Inductive ProcessErr :=
  | ErrUnavailable | ErrProcessExited | ErrProtocol | ErrLineTooLarge | io_EOF | io_ErrClosedPipe | context_Canceled | ErrOther.

#[export] Instance ProcessErr_eq_dec : EqDecision ProcessErr.
Proof. solve_decision. Defined.

Definition safeProcessReason (e : option ProcessErr) : string :=
  match e with
  | None => "unknown"
  | Some ErrProcessExited | Some io_EOF | Some io_ErrClosedPipe => "process_exited"
  | Some ErrProtocol => "protocol_failure"
  | Some ErrLineTooLarge => "line_too_large"
  | Some ErrUnavailable => "unavailable"
  | Some context_Canceled => "canceled"
  | Some ErrOther => "factory_failure"
  end.

Definition retryableProcessError (e : ProcessErr) : bool :=
  match e with context_Canceled | ErrOther => false | _ => true end.

(** ** Backoff *)

Definition millisecond_ : Z := 1000000.
Definition defaultMaxRecoveryAttempts : Z := 3.
Definition defaultRecoveryBackoff : Z := 250 * millisecond_.
Definition maxRecoveryBackoff : Z := 2000 * millisecond_.
Definition defaultHealthyInterval : Z := 30000 * millisecond_.

(** The loop of [defaultRecoveryBackoffFor], with the steps it has left. *)
Fixpoint backoff_loop (steps : nat) (delay : Z) : Z :=
  match steps with
  | O => if maxRecoveryBackoff <? delay then maxRecoveryBackoff else delay
  | S steps =>
      if delay <? maxRecoveryBackoff then
        if Z.quot maxRecoveryBackoff 2 <? delay then maxRecoveryBackoff else backoff_loop steps (delay * 2)
      else if maxRecoveryBackoff <? delay then maxRecoveryBackoff else delay
  end.

Definition defaultRecoveryBackoffFor (attempt : Z) : Z :=
  let attempt := if attempt <? 1 then 1 else attempt in
  backoff_loop (Z.to_nat (attempt - 1)) defaultRecoveryBackoff.

Definition boundedRecoveryBackoff (delay : Z) : Z :=
  if delay <? 0 then 0 else if maxRecoveryBackoff <? delay then maxRecoveryBackoff else delay.

(** ** The manager *)

Inductive ProcessState :=
  | ProcessStateStarting | ProcessStateAvailable | ProcessStateDegraded | ProcessStateRecovering
  | ProcessStateExhausted | ProcessStateClosed.

#[export] Instance ProcessState_eq_dec : EqDecision ProcessState.
Proof. solve_decision. Defined.

Definition state_is (a b : ProcessState) : bool := bool_decide (a = b).

Record managedRecovery := {
  rv_generation : Z; rv_client : option nat; rv_err : option ProcessErr; rv_doneClosed : bool }.

Record manager := mkManager {
  m_closed : bool; m_client : option nat; m_state : ProcessState; m_generation : Z;
  m_recoveryAttempts : Z; m_maxRecoveryAttempts : Z; m_nextRecoveryAt : Z; m_healthyInterval : Z; m_healthySince : Z;
  m_lastExitReason : string; m_lastFailureReason : string; m_lastExitAt : Z; m_lastFailureAt : Z; m_lastHealthyAt : Z;
  m_pid : Z; m_initialAttempted : bool; m_initialReported : bool; m_initialReady : option (option ProcessErr);
  (** the pending recovery, by its place among all that were ever begun *)
  m_recovery : option nat; m_recoveries : list managedRecovery;
  m_wake : bool; m_broadcasts : nat;
  (** the children: how many were made, and which were closed *)
  w_created : nat; w_closed : list nat;
  (** restart attempts since the budget was last returned *)
  w_restarts : Z }.

(** [newAutonomousManagedProcess]: the first of the four options that is not
    zero, and the first of the three intervals. *)
Definition first_set (l : list Z) (d : Z) : Z := List.fold_right (fun x r => if x =? 0 then r else x) d l.

Definition newManager (maxRestartAttempts maxRecoveryAttempts maxRestarts restartBudget : Z)
    (healthyInterval healthInterval sustained : Z) : manager :=
  {| m_closed := false; m_client := None; m_state := ProcessStateStarting; m_generation := 0; m_recoveryAttempts := 0;
     m_maxRecoveryAttempts :=
       first_set [maxRestartAttempts; maxRecoveryAttempts; maxRestarts; restartBudget] defaultMaxRecoveryAttempts;
     m_nextRecoveryAt := zeroTime; m_healthyInterval := first_set [healthyInterval; healthInterval; sustained] defaultHealthyInterval;
     m_healthySince := zeroTime; m_lastExitReason := ""; m_lastFailureReason := ""; m_lastExitAt := zeroTime;
     m_lastFailureAt := zeroTime; m_lastHealthyAt := zeroTime; m_pid := 0; m_initialAttempted := false;
     m_initialReported := false; m_initialReady := None; m_recovery := None; m_recoveries := []; m_wake := true;
     m_broadcasts := 0; w_created := 0; w_closed := []; w_restarts := 0 |}.
(** ** Field updates *)

Definition set_closed (m : manager) : manager :=
  mkManager true (m_client m) (m_state m) (m_generation m) (m_recoveryAttempts m) (m_maxRecoveryAttempts m)
    (m_nextRecoveryAt m) (m_healthyInterval m) (m_healthySince m) (m_lastExitReason m) (m_lastFailureReason m)
    (m_lastExitAt m) (m_lastFailureAt m) (m_lastHealthyAt m) (m_pid m) (m_initialAttempted m) (m_initialReported m)
    (m_initialReady m) (m_recovery m) (m_recoveries m) (m_wake m) (m_broadcasts m) (w_created m) (w_closed m)
    (w_restarts m).
Definition set_client (c : option nat) (m : manager) : manager :=
  mkManager (m_closed m) c (m_state m) (m_generation m) (m_recoveryAttempts m) (m_maxRecoveryAttempts m)
    (m_nextRecoveryAt m) (m_healthyInterval m) (m_healthySince m) (m_lastExitReason m) (m_lastFailureReason m)
    (m_lastExitAt m) (m_lastFailureAt m) (m_lastHealthyAt m) (m_pid m) (m_initialAttempted m) (m_initialReported m)
    (m_initialReady m) (m_recovery m) (m_recoveries m) (m_wake m) (m_broadcasts m) (w_created m) (w_closed m)
    (w_restarts m).
Definition set_state (s : ProcessState) (m : manager) : manager :=
  mkManager (m_closed m) (m_client m) s (m_generation m) (m_recoveryAttempts m) (m_maxRecoveryAttempts m)
    (m_nextRecoveryAt m) (m_healthyInterval m) (m_healthySince m) (m_lastExitReason m) (m_lastFailureReason m)
    (m_lastExitAt m) (m_lastFailureAt m) (m_lastHealthyAt m) (m_pid m) (m_initialAttempted m) (m_initialReported m)
    (m_initialReady m) (m_recovery m) (m_recoveries m) (m_wake m) (m_broadcasts m) (w_created m) (w_closed m)
    (w_restarts m).
Definition set_next (t : Z) (m : manager) : manager :=
  mkManager (m_closed m) (m_client m) (m_state m) (m_generation m) (m_recoveryAttempts m) (m_maxRecoveryAttempts m)
    t (m_healthyInterval m) (m_healthySince m) (m_lastExitReason m) (m_lastFailureReason m) (m_lastExitAt m)
    (m_lastFailureAt m) (m_lastHealthyAt m) (m_pid m) (m_initialAttempted m) (m_initialReported m) (m_initialReady
    m) (m_recovery m) (m_recoveries m) (m_wake m) (m_broadcasts m) (w_created m) (w_closed m) (w_restarts m).
Definition set_attempts (a : Z) (m : manager) : manager :=
  mkManager (m_closed m) (m_client m) (m_state m) (m_generation m) a (m_maxRecoveryAttempts m) (m_nextRecoveryAt m)
    (m_healthyInterval m) (m_healthySince m) (m_lastExitReason m) (m_lastFailureReason m) (m_lastExitAt m)
    (m_lastFailureAt m) (m_lastHealthyAt m) (m_pid m) (m_initialAttempted m) (m_initialReported m) (m_initialReady
    m) (m_recovery m) (m_recoveries m) (m_wake m) (m_broadcasts m) (w_created m) (w_closed m) (w_restarts m).
Definition set_restarts (r : Z) (m : manager) : manager :=
  mkManager (m_closed m) (m_client m) (m_state m) (m_generation m) (m_recoveryAttempts m) (m_maxRecoveryAttempts m)
    (m_nextRecoveryAt m) (m_healthyInterval m) (m_healthySince m) (m_lastExitReason m) (m_lastFailureReason m)
    (m_lastExitAt m) (m_lastFailureAt m) (m_lastHealthyAt m) (m_pid m) (m_initialAttempted m) (m_initialReported m)
    (m_initialReady m) (m_recovery m) (m_recoveries m) (m_wake m) (m_broadcasts m) (w_created m) (w_closed m) r.
Definition set_healthy (since last : Z) (m : manager) : manager :=
  mkManager (m_closed m) (m_client m) (m_state m) (m_generation m) (m_recoveryAttempts m) (m_maxRecoveryAttempts m)
    (m_nextRecoveryAt m) (m_healthyInterval m) since (m_lastExitReason m) (m_lastFailureReason m) (m_lastExitAt m)
    (m_lastFailureAt m) last (m_pid m) (m_initialAttempted m) (m_initialReported m) (m_initialReady m) (m_recovery
    m) (m_recoveries m) (m_wake m) (m_broadcasts m) (w_created m) (w_closed m) (w_restarts m).
Definition set_reasons (exit failure : string) (m : manager) : manager :=
  mkManager (m_closed m) (m_client m) (m_state m) (m_generation m) (m_recoveryAttempts m) (m_maxRecoveryAttempts m)
    (m_nextRecoveryAt m) (m_healthyInterval m) (m_healthySince m) exit failure (m_lastExitAt m) (m_lastFailureAt m)
    (m_lastHealthyAt m) (m_pid m) (m_initialAttempted m) (m_initialReported m) (m_initialReady m) (m_recovery m)
    (m_recoveries m) (m_wake m) (m_broadcasts m) (w_created m) (w_closed m) (w_restarts m).
Definition set_failedAt (exit failure : Z) (m : manager) : manager :=
  mkManager (m_closed m) (m_client m) (m_state m) (m_generation m) (m_recoveryAttempts m) (m_maxRecoveryAttempts m)
    (m_nextRecoveryAt m) (m_healthyInterval m) (m_healthySince m) (m_lastExitReason m) (m_lastFailureReason m) exit
    failure (m_lastHealthyAt m) (m_pid m) (m_initialAttempted m) (m_initialReported m) (m_initialReady m)
    (m_recovery m) (m_recoveries m) (m_wake m) (m_broadcasts m) (w_created m) (w_closed m) (w_restarts m).
Definition set_child (g pid : Z) (m : manager) : manager :=
  mkManager (m_closed m) (m_client m) (m_state m) g (m_recoveryAttempts m) (m_maxRecoveryAttempts m)
    (m_nextRecoveryAt m) (m_healthyInterval m) (m_healthySince m) (m_lastExitReason m) (m_lastFailureReason m)
    (m_lastExitAt m) (m_lastFailureAt m) (m_lastHealthyAt m) pid (m_initialAttempted m) (m_initialReported m)
    (m_initialReady m) (m_recovery m) (m_recoveries m) (m_wake m) (m_broadcasts m) (w_created m) (w_closed m)
    (w_restarts m).
Definition set_initialAttempted (m : manager) : manager :=
  mkManager (m_closed m) (m_client m) (m_state m) (m_generation m) (m_recoveryAttempts m) (m_maxRecoveryAttempts m)
    (m_nextRecoveryAt m) (m_healthyInterval m) (m_healthySince m) (m_lastExitReason m) (m_lastFailureReason m)
    (m_lastExitAt m) (m_lastFailureAt m) (m_lastHealthyAt m) (m_pid m) true (m_initialReported m) (m_initialReady m)
    (m_recovery m) (m_recoveries m) (m_wake m) (m_broadcasts m) (w_created m) (w_closed m) (w_restarts m).
Definition set_initial (r : option ProcessErr) (m : manager) : manager :=
  mkManager (m_closed m) (m_client m) (m_state m) (m_generation m) (m_recoveryAttempts m) (m_maxRecoveryAttempts m)
    (m_nextRecoveryAt m) (m_healthyInterval m) (m_healthySince m) (m_lastExitReason m) (m_lastFailureReason m)
    (m_lastExitAt m) (m_lastFailureAt m) (m_lastHealthyAt m) (m_pid m) (m_initialAttempted m) true (Some r)
    (m_recovery m) (m_recoveries m) (m_wake m) (m_broadcasts m) (w_created m) (w_closed m) (w_restarts m).
Definition set_recovery (r : option nat) (m : manager) : manager :=
  mkManager (m_closed m) (m_client m) (m_state m) (m_generation m) (m_recoveryAttempts m) (m_maxRecoveryAttempts m)
    (m_nextRecoveryAt m) (m_healthyInterval m) (m_healthySince m) (m_lastExitReason m) (m_lastFailureReason m)
    (m_lastExitAt m) (m_lastFailureAt m) (m_lastHealthyAt m) (m_pid m) (m_initialAttempted m) (m_initialReported m)
    (m_initialReady m) r (m_recoveries m) (m_wake m) (m_broadcasts m) (w_created m) (w_closed m) (w_restarts m).
Definition set_recoveries (l : list managedRecovery) (m : manager) : manager :=
  mkManager (m_closed m) (m_client m) (m_state m) (m_generation m) (m_recoveryAttempts m) (m_maxRecoveryAttempts m)
    (m_nextRecoveryAt m) (m_healthyInterval m) (m_healthySince m) (m_lastExitReason m) (m_lastFailureReason m)
    (m_lastExitAt m) (m_lastFailureAt m) (m_lastHealthyAt m) (m_pid m) (m_initialAttempted m) (m_initialReported m)
    (m_initialReady m) (m_recovery m) l (m_wake m) (m_broadcasts m) (w_created m) (w_closed m) (w_restarts m).
Definition set_wake (b : bool) (m : manager) : manager :=
  mkManager (m_closed m) (m_client m) (m_state m) (m_generation m) (m_recoveryAttempts m) (m_maxRecoveryAttempts m)
    (m_nextRecoveryAt m) (m_healthyInterval m) (m_healthySince m) (m_lastExitReason m) (m_lastFailureReason m)
    (m_lastExitAt m) (m_lastFailureAt m) (m_lastHealthyAt m) (m_pid m) (m_initialAttempted m) (m_initialReported m)
    (m_initialReady m) (m_recovery m) (m_recoveries m) b (m_broadcasts m) (w_created m) (w_closed m) (w_restarts m).
Definition set_broadcasts (n : nat) (m : manager) : manager :=
  mkManager (m_closed m) (m_client m) (m_state m) (m_generation m) (m_recoveryAttempts m) (m_maxRecoveryAttempts m)
    (m_nextRecoveryAt m) (m_healthyInterval m) (m_healthySince m) (m_lastExitReason m) (m_lastFailureReason m)
    (m_lastExitAt m) (m_lastFailureAt m) (m_lastHealthyAt m) (m_pid m) (m_initialAttempted m) (m_initialReported m)
    (m_initialReady m) (m_recovery m) (m_recoveries m) (m_wake m) n (w_created m) (w_closed m) (w_restarts m).
Definition set_children (created : nat) (closed : list nat) (m : manager) : manager :=
  mkManager (m_closed m) (m_client m) (m_state m) (m_generation m) (m_recoveryAttempts m) (m_maxRecoveryAttempts m)
    (m_nextRecoveryAt m) (m_healthyInterval m) (m_healthySince m) (m_lastExitReason m) (m_lastFailureReason m)
    (m_lastExitAt m) (m_lastFailureAt m) (m_lastHealthyAt m) (m_pid m) (m_initialAttempted m) (m_initialReported m)
    (m_initialReady m) (m_recovery m) (m_recoveries m) (m_wake m) (m_broadcasts m) created closed (w_restarts m).

Definition uint64_succ (g : Z) : Z := (g + 1) mod 2 ^ 64.

(** ** Shared operations, each under the lock *)

Definition broadcastStateLocked (m : manager) : manager := set_broadcasts (S (m_broadcasts m)) m.

Definition signalSupervisor (m : manager) : manager := set_wake true m.

(** The first report of the initial child goes to the waiting constructor. *)
Definition finishInitial (e : option ProcessErr) (m : manager) : manager :=
  if m_initialReported m then m else set_initial e m.

Definition finishRecovery (pending : option nat) (client : option nat) (e : option ProcessErr) (m : manager) : manager :=
  match pending with
  | None => m
  | Some p =>
      match m_recoveries m !! p with
      | None => m
      | Some r =>
          if rv_doneClosed r then m
          else
            let m := set_recoveries (<[p := {| rv_generation := rv_generation r; rv_client := client; rv_err := e;
                                              rv_doneClosed := true |}]> (m_recoveries m)) m in
            let m := if bool_decide (m_recovery m = Some p) then set_recovery None m else m in
            broadcastStateLocked m
      end
  end.

(** A new pending recovery of the current generation. *)
Definition newRecovery (m : manager) : manager :=
  set_recovery (Some (length (m_recoveries m)))
    (set_recoveries (m_recoveries m ++ [{| rv_generation := m_generation m; rv_client := None; rv_err := None;
                                           rv_doneClosed := false |}]) m).

(** The state cannot be degraded or recovering where this is called, but the
    code says what would follow. *)
Definition resetHealthyLocked (now : Z) (m : manager) : manager :=
  let m := set_restarts 0 (set_attempts 0 (set_next zeroTime (set_healthy (m_healthySince m) now m))) in
  let m := if state_is (m_state m) ProcessStateDegraded || state_is (m_state m) ProcessStateRecovering
           then set_state ProcessStateAvailable m else m in
  broadcastStateLocked m.

Definition closeChild (c : nat) (m : manager) : manager := set_children (w_created m) (c :: w_closed m) m.

(** [now.Before(t.Add(d))] is false *)
Definition elapsed (now t d : Z) : bool := t + d <=? now.

(** ** Goroutines other than the supervisor *)

Record supervisorEvent := { e_generation : Z; e_client : nat; e_err : option ProcessErr; e_pid : Z }.

(** What is left to do outside the sections proper, one call at a time. *)
Inductive action :=
  | AFinishInitial (e : option ProcessErr)
  | AFinishRecovery (pending : option nat) (client : option nat) (e : option ProcessErr)
  | ASignal
  | ACloseChild (c : nat).

Definition act (a : action) (m : manager) : manager :=
  match a with
  | AFinishInitial e => finishInitial e m
  | AFinishRecovery p c e => finishRecovery p c e m
  | ASignal => signalSupervisor m
  | ACloseChild c => closeChild c m
  end.

Inductive tpc :=
  | TFailure (client : nat) (e : option ProcessErr) (pid : Z)
  | TEvent (ev : supervisorEvent)
  | TEvent2 (ev : supervisorEvent) (pending : option nat)
  | THealthy (client : nat)
  | THealthy2 (client : nat)
  | TClose
  | TTail (l : list action).

(** What a section gets from outside: the clock, the backoff policy's answer,
    the factory's, and the identifier of the process. *)
Inductive factory_result := FactoryFails (e : ProcessErr) (withChild : bool) | FactoryNil | FactoryChild (usable : bool).
Record input := { in_now : Z; in_delay : Z; in_factory : factory_result; in_pid : Z }.

Definition eventStale (ev : supervisorEvent) (m : manager) : bool :=
  m_closed m || negb (bool_decide (m_client m = Some (e_client ev))) || negb (m_generation m =? e_generation ev).

(** [requestFailure], its own section. *)
Definition requestFailure (client : nat) (e : option ProcessErr) (pid : Z) (m : manager) : manager * tpc :=
  if m_closed m || negb (bool_decide (m_client m = Some client)) || negb (state_is (m_state m) ProcessStateAvailable)
  then (m, TTail [])
  else (m, TEvent {| e_generation := m_generation m; e_client := client; e_err := e; e_pid := pid |}).

(** [handleSupervisorEvent]: the section that degrades the manager, *)
Definition handleSupervisorEvent (ev : supervisorEvent) (m : manager) : manager * tpc :=
  if eventStale ev m || negb (state_is (m_state m) ProcessStateAvailable) then (m, TTail [])
  else
    let reason := safeProcessReason (e_err ev) in
    let m := match m_recovery m with None => newRecovery m | Some _ => m end in
    let pending := m_recovery m in
    (broadcastStateLocked (set_reasons reason reason (set_healthy zeroTime (m_lastHealthyAt m)
       (set_next zeroTime (set_state ProcessStateDegraded m)))), TEvent2 ev pending).

(** and the one that schedules the replacement or gives up. *)
Definition scheduleRecovery (i : input) (ev : supervisorEvent) (pending : option nat) (m : manager) : manager * tpc :=
  if eventStale ev m then (m, TTail [])
  else
    let m := set_failedAt (in_now i) (in_now i) m in
    if (m_maxRecoveryAttempts m <=? 0) || (m_maxRecoveryAttempts m <=? m_recoveryAttempts m) then
      (broadcastStateLocked (set_next zeroTime (set_state ProcessStateExhausted (set_recovery None m))),
       TTail [AFinishRecovery pending None (e_err ev)])
    else
      (broadcastStateLocked (set_next (in_now i + boundedRecoveryBackoff (in_delay i)) m), TTail [ASignal]).

(** [markHealthy], before and after it reads the clock. *)
Definition markHealthy (client : nat) (m : manager) : manager * tpc :=
  if m_closed m || negb (bool_decide (m_client m = Some client)) then (m, TTail []) else (m, THealthy2 client).

Definition recordHealthy (i : input) (client : nat) (m : manager) : manager * tpc :=
  if m_closed m || negb (bool_decide (m_client m = Some client)) then (m, TTail [])
  else if state_is (m_state m) ProcessStateAvailable then
    let since := if IsZero (m_healthySince m) then in_now i else m_healthySince m in
    let m := set_healthy since (in_now i) m in
    (if (m_healthyInterval m <=? 0) || elapsed (in_now i) since (m_healthyInterval m)
     then resetHealthyLocked (in_now i) m else m, TTail [])
  else (m, TTail []).

(** [Close], up to what follows outside the lock. *)
Definition closeManager (m : manager) : manager * tpc :=
  if m_closed m then (m, TTail [])
  else
    let client := m_client m in
    let pending := m_recovery m in
    let m := broadcastStateLocked (set_recovery None (set_client None (set_state ProcessStateClosed (set_closed m)))) in
    let m := match pending with
             | None => m
             | Some p =>
                 match m_recoveries m !! p with
                 | Some r => if rv_doneClosed r then m
                             else set_recoveries (<[p := {| rv_generation := rv_generation r; rv_client := rv_client r;
                                    rv_err := Some ErrUnavailable; rv_doneClosed := true |}]> (m_recoveries m)) m
                 | None => m
                 end
             end in
    (m, TTail (match client with Some c => [ACloseChild c] | None => [] end
               ++ [AFinishInitial (Some ErrUnavailable); ASignal])).

Definition advance_t (i : input) (t : tpc) (m : manager) : manager * tpc :=
  match t with
  | TFailure client e pid => requestFailure client e pid m
  | TEvent ev => handleSupervisorEvent ev m
  | TEvent2 ev pending => scheduleRecovery i ev pending m
  | THealthy client => markHealthy client m
  | THealthy2 client => recordHealthy i client m
  | TClose => closeManager m
  | TTail [] => (m, TTail [])
  | TTail (a :: l) => (act a m, TTail l)
  end.

(** ** The supervisor *)

Record spawn := { s_initial : bool; s_pending : option nat; s_old : option nat; s_oldGeneration : Z }.

Inductive spc :=
  | SStep
  | SStepLocked
  | SAttempt (now attempt : Z) (old : option nat) (oldGeneration : Z)
  | SSpawn (s : spawn)
  | SFactory (s : spawn)
  | SCheck (s : spawn) (candidate : option nat) (e : option ProcessErr)
  | SFailed (s : spawn) (e : option ProcessErr)
  | SInstall (s : spawn) (candidate : nat) (oldClient : option nat) (oldGenerationNow : Z)
  | SThread (t : tpc).

Definition spawnStale (s : spawn) (old : option nat) (oldGeneration : Z) (m : manager) : bool :=
  m_closed m
  || negb (s_initial s) && (negb (bool_decide (m_client m = old)) || negb (m_generation m =? oldGeneration))
  || s_initial s && bool_decide (is_Some (m_client m)).

Definition finish_actions (pending : option nat) (client : option nat) (e : option ProcessErr) : list action :=
  match pending with None => [] | Some _ => [AFinishRecovery pending client e] end.

Definition discard (candidate : option nat) (s : spawn) : spc :=
  SThread (TTail (match candidate with Some c => [ACloseChild c] | None => [] end
                  ++ finish_actions (s_pending s) None (Some ErrUnavailable))).

(** The factory's answer, with a child that is not usable closed again. *)
Definition make (f : factory_result) (m : manager) : manager * option nat * option ProcessErr :=
  let c := w_created m in
  match f with
  | FactoryFails e false => (m, None, Some e)
  | FactoryFails e true => (closeChild c (set_children (S c) (w_closed m) m), None, Some e)
  | FactoryNil => (m, None, Some ErrUnavailable)
  | FactoryChild false => (closeChild c (set_children (S c) (w_closed m) m), None, Some ErrUnavailable)
  | FactoryChild true => (set_children (S c) (w_closed m) m, Some c, None)
  end.

(** [supervisorStep], once it has read the clock, *)
Definition supervisorStep (i : input) (m : manager) : manager * spc :=
  let now := in_now i in
  if m_closed m then (m, SThread (TTail []))
  else if state_is (m_state m) ProcessStateAvailable && negb (IsZero (m_healthySince m))
          && ((m_healthyInterval m <=? 0) || elapsed now (m_healthySince m) (m_healthyInterval m))
  then (resetHealthyLocked now m, SThread (TTail []))
  else if negb (m_initialAttempted m) && bool_decide (m_client m = None) then
    (broadcastStateLocked (set_state ProcessStateStarting (set_initialAttempted m)),
     SSpawn {| s_initial := true; s_pending := None; s_old := None; s_oldGeneration := 0 |})
  else if bool_decide (m_recovery m = None) || state_is (m_state m) ProcessStateAvailable then (m, SThread (TTail []))
  else if (m_maxRecoveryAttempts m <=? 0) || (m_maxRecoveryAttempts m <=? m_recoveryAttempts m) then
    (set_recovery None (broadcastStateLocked (set_next zeroTime (set_state ProcessStateExhausted m))),
     SThread (TTail [AFinishRecovery (m_recovery m) None (Some ErrUnavailable)]))
  else if negb (IsZero (m_nextRecoveryAt m)) && (now <? m_nextRecoveryAt m) then (m, SThread (TTail []))
  else (m, SAttempt now (m_recoveryAttempts m + 1) (m_client m) (m_generation m)).

(** and when it takes the attempt. *)
Definition takeAttempt (now attempt : Z) (old : option nat) (oldGeneration : Z) (m : manager) : manager * spc :=
  if m_closed m || bool_decide (m_recovery m = None) || negb (bool_decide (m_client m = old))
     || negb (m_generation m =? oldGeneration) || negb (IsZero (m_nextRecoveryAt m)) && (now <? m_nextRecoveryAt m)
  then (m, SThread (TTail []))
  else
    (broadcastStateLocked (set_next zeroTime (set_state ProcessStateRecovering
       (set_restarts (w_restarts m + 1) (set_attempts attempt m)))),
     SSpawn {| s_initial := false; s_pending := m_recovery m; s_old := old; s_oldGeneration := oldGeneration |}).

(** [spawnCandidate]: the first look at the candidate, *)
Definition checkCandidate (s : spawn) (candidate : option nat) (e : option ProcessErr) (m : manager) : manager * spc :=
  if spawnStale s (s_old s) (s_oldGeneration s) m then (m, discard candidate s)
  else match e, candidate with
       | None, Some c => (m, SInstall s c (m_client m) (m_generation m))
       | _, _ => (m, SFailed s e)
       end.

(** what a failure leaves, *)
Definition candidateFailed (i : input) (s : spawn) (e : option ProcessErr) (m : manager) : manager * spc :=
  if spawnStale s (s_old s) (s_oldGeneration s) m then (m, SThread (TTail []))
  else
    let next := in_now i + boundedRecoveryBackoff (in_delay i) in
    let m := set_failedAt (m_lastExitAt m) (in_now i) (set_reasons (m_lastExitReason m) (safeProcessReason e) m) in
    if s_initial s then
      (broadcastStateLocked (newRecovery (set_attempts 1 (set_next next (set_state ProcessStateDegraded m)))),
       SThread (TTail [AFinishInitial e; ASignal]))
    else if m_maxRecoveryAttempts m <=? m_recoveryAttempts m then
      (set_recovery None (broadcastStateLocked (set_next zeroTime (set_state ProcessStateExhausted m))),
       SThread (TTail [AFinishRecovery (s_pending s) None e]))
    else (broadcastStateLocked (set_next next (set_state ProcessStateDegraded m)), SThread (TTail [ASignal])).

(** and the installation. *)
Definition installCandidate (i : input) (s : spawn) (c : nat) (oldClient : option nat) (oldGenerationNow : Z) (m : manager)
    : manager * spc :=
  if spawnStale s oldClient oldGenerationNow m then (m, discard (Some c) s)
  else
    (broadcastStateLocked (set_healthy (in_now i) (in_now i) (set_next zeroTime (set_state ProcessStateAvailable
       (set_child (uint64_succ (m_generation m)) (in_pid i) (set_client (Some c) m))))),
     SThread (TTail ((if s_initial s then [AFinishInitial None] else []) ++ finish_actions (s_pending s) (Some c) None))).

Definition advance_s (i : input) (s : spc) (m : manager) : manager * spc :=
  match s with
  | SStep => if m_closed m then (m, SThread (TTail [])) else (m, SStepLocked)
  | SStepLocked => supervisorStep i m
  | SAttempt now attempt old oldGeneration => takeAttempt now attempt old oldGeneration m
  | SSpawn s => (match s_old s with Some c => closeChild c m | None => m end, SFactory s)
  | SFactory s => let '(m, candidate, e) := make (in_factory i) m in (m, SCheck s candidate e)
  | SCheck s candidate e => checkCandidate s candidate e m
  | SFailed s e => candidateFailed i s e m
  | SInstall s c oldClient oldGenerationNow => installCandidate i s c oldClient oldGenerationNow m
  | SThread t => let '(m, t) := advance_t i t m in (m, SThread t)
  end.

(** ** What others read *)

(** How long the loop sleeps when nothing wakes it. *)
Definition hour : Z := 3600000 * millisecond_.

Definition supervisorDelay (now : Z) (m : manager) : Z :=
  if m_closed m then hour
  else if negb (m_initialAttempted m) && bool_decide (m_client m = None) then 0
  else if bool_decide (is_Some (m_recovery m)) then
    if IsZero (m_nextRecoveryAt m) || negb (now <? m_nextRecoveryAt m) then 0 else time_Sub (m_nextRecoveryAt m) now
  else if state_is (m_state m) ProcessStateAvailable && negb (IsZero (m_healthySince m)) && (0 <? m_healthyInterval m) then
    let until := time_Sub (m_healthySince m + m_healthyInterval m) now in if until <=? 0 then 0 else until
  else hour.

(** The child a request may use. *)
Definition current (m : manager) : option nat :=
  if m_closed m then None else if negb (state_is (m_state m) ProcessStateAvailable) then None else m_client m.

(** [alive] says of a child whether it is available. *)
Definition Available (alive : nat -> bool) (m : manager) : bool :=
  match current m with Some c => alive c | None => false end.

Record Snapshot := {
  sn_State : ProcessState; sn_Generation : Z; sn_PID : Z; sn_Attempts : Z; sn_MaxAttempts : Z; sn_RestartBudget : Z;
  sn_LastExitReason : string; sn_LastFailureReason : string; sn_Reason : string; sn_LastExitAt : Z; sn_LastFailureAt : Z;
  sn_LastHealthyAt : Z; sn_HealthySince : Z; sn_NextRetryAt : Z }.

Definition snapshotReason (failure exit : string) : string := if seqb failure "" then exit else failure.

Definition snapshot (m : manager) : Snapshot :=
  let remaining := m_maxRecoveryAttempts m - m_recoveryAttempts m in
  {| sn_State := m_state m; sn_Generation := m_generation m; sn_PID := m_pid m; sn_Attempts := m_recoveryAttempts m;
     sn_MaxAttempts := m_maxRecoveryAttempts m; sn_RestartBudget := if remaining <? 0 then 0 else remaining;
     sn_LastExitReason := m_lastExitReason m; sn_LastFailureReason := m_lastFailureReason m;
     sn_Reason := snapshotReason (m_lastFailureReason m) (m_lastExitReason m); sn_LastExitAt := m_lastExitAt m;
     sn_LastFailureAt := m_lastFailureAt m; sn_LastHealthyAt := m_lastHealthyAt m; sn_HealthySince := m_healthySince m;
     sn_NextRetryAt := m_nextRecoveryAt m |}.

(** ** One request

    [withRetry] of an autonomous manager.  The waits for a child and the calls
    are the environment's: [first] is the child found or waited for, [call]
    what the operation answers on a child, [ended] whether the caller's context
    has ended after the first call, and [replacement] what the wait for another
    child gives.  The second component are the children the operation ran on,
    the third the failures that were reported to the supervisor. *)
Definition withRetry (first : option nat) (call : nat -> option ProcessErr) (ended : bool) (replacement : option nat)
    : option ProcessErr * list nat * list (nat * ProcessErr) :=
  match first with
  | None => (Some ErrUnavailable, [], [])
  | Some c =>
      match call c with
      | None => (None, [c], [])
      | Some e =>
          if negb (retryableProcessError e) || ended then (Some e, [c], [])
          else match replacement with
               | None => (Some e, [c], [(c, e)])
               | Some c' =>
                   match call c' with
                   | None => (None, [c; c'], [(c, e)])
                   | Some e' => (Some e', [c; c'], (c, e) :: if retryableProcessError e' then [(c', e')] else [])
                   end
               end
      end
  end.

(** The operations that start or change something at Codex, which run on the
    current child or not at all. *)
Definition withoutRetry (m : manager) (call : nat -> option ProcessErr) : option ProcessErr * list nat :=
  match current m with None => (Some ErrUnavailable, []) | Some c => (call c, [c]) end.

(** What [waitForClient] returns on a state of the manager, [None] while it
    waits on. *)
Definition waitForClient (alive : nat -> bool) (failed : option nat) (m : manager) : option (option nat) :=
  if m_closed m || state_is (m_state m) ProcessStateExhausted || state_is (m_state m) ProcessStateClosed then Some None
  else match m_client m with
       | Some c => if state_is (m_state m) ProcessStateAvailable && negb (bool_decide (failed = Some c)) && alive c
                   then Some (Some c) else None
       | None => None
       end.

(** ** The process *)

Record system := { y_manager : manager; y_supervisor : spc; y_threads : list tpc }.

Definition idle : spc := SThread (TTail []).

(** One step: the supervisor, when idle, takes a wake or an event; a request
    reports a failure or a success; someone closes the manager; a goroutine
    passes one section. *)
Inductive sys_step : system -> system -> Prop :=
  | y_wake m l : sys_step {| y_manager := m; y_supervisor := idle; y_threads := l |}
      {| y_manager := set_wake false m; y_supervisor := SStep; y_threads := l |}
  | y_event m l ev : sys_step {| y_manager := m; y_supervisor := idle; y_threads := l |}
      {| y_manager := m; y_supervisor := SThread (TEvent ev); y_threads := l |}
  | y_supervise i m s l m' s' : advance_s i s m = (m', s') ->
      sys_step {| y_manager := m; y_supervisor := s; y_threads := l |} {| y_manager := m'; y_supervisor := s'; y_threads := l |}
  | y_failure m s l c e pid : sys_step {| y_manager := m; y_supervisor := s; y_threads := l |}
      {| y_manager := m; y_supervisor := s; y_threads := l ++ [TFailure c e pid] |}
  | y_healthy m s l c : sys_step {| y_manager := m; y_supervisor := s; y_threads := l |}
      {| y_manager := m; y_supervisor := s; y_threads := l ++ [THealthy c] |}
  | y_close m s l : sys_step {| y_manager := m; y_supervisor := s; y_threads := l |}
      {| y_manager := m; y_supervisor := s; y_threads := l ++ [TClose] |}
  | y_thread i m s l k t m' t' : l !! k = Some t -> advance_t i t m = (m', t') ->
      sys_step {| y_manager := m; y_supervisor := s; y_threads := l |}
        {| y_manager := m'; y_supervisor := s; y_threads := <[k := t']> l |}.

Definition start (m : manager) : system := {| y_manager := m; y_supervisor := idle; y_threads := [] |}.
