(* ===== verification/SupervisorSpec.v ===== *)
(** * What the supervisor promises

    Over every interleaving of the supervisor with requests and [Close]: no
    child is lost, a closed manager installs none, and a restart budget bounds
    the replacements between two sustained healthy periods.  A race between
    the installation of a replacement and its first failure leaves the manager
    without a child for good. *)

From Stdlib Require Import ZArith Lia.
From stdpp Require Import base strings list option relations.
From S2P Require Import Prelude GoText Supervisor.

Local Open Scope Z_scope.

(** Opens the section that a goroutine or the supervisor is in. *)
Ltac open_t H := cbn [advance_t] in H; unfold requestFailure, handleSupervisorEvent, scheduleRecovery, markHealthy, recordHealthy, closeManager in H.
Ltac open_s H := cbn [advance_s] in H; unfold supervisorStep, takeAttempt, checkCandidate, candidateFailed, installCandidate in H.

(** ** Children in hand *)

(** The children that the rest of a goroutine closes. *)
Definition held_a (l : list action) : list nat := omap (fun a => match a with ACloseChild c => Some c | _ => None end) l.
Definition held_t (t : tpc) : list nat := match t with TTail l => held_a l | _ => [] end.
Definition held_s (s : spc) : list nat :=
  match s with
  | SCheck _ (Some c) _ | SInstall _ c _ _ => [c]
  | SThread t => held_t t
  | _ => []
  end.

Definition accounted (m : manager) (h : list nat) (c : nat) : Prop := c ∈ w_closed m \/ m_client m = Some c \/ c ∈ h.

Lemma held_a_app l1 l2 : held_a (l1 ++ l2) = held_a l1 ++ held_a l2.
Proof. apply omap_app. Qed.

Lemma held_finish p c e : held_a (finish_actions p c e) = [].
Proof. by destruct p. Qed.

(** ** The sections of a goroutine *)

(** The fields that tell which state a manager is in, after the helpers. *)
Lemma finishInitial_frame e m :
  let m' := finishInitial e m in
  m_closed m' = m_closed m /\ m_client m' = m_client m /\ m_state m' = m_state m /\ w_created m' = w_created m /\
  w_closed m' = w_closed m /\ m_recoveryAttempts m' = m_recoveryAttempts m /\ w_restarts m' = w_restarts m /\
  m_maxRecoveryAttempts m' = m_maxRecoveryAttempts m /\ m_initialAttempted m' = m_initialAttempted m /\
  m_generation m' = m_generation m /\ m_lastFailureAt m' = m_lastFailureAt m.
Proof. unfold finishInitial. by destruct (m_initialReported m). Qed.

Lemma finishRecovery_frame p c e m :
  let m' := finishRecovery p c e m in
  m_closed m' = m_closed m /\ m_client m' = m_client m /\ m_state m' = m_state m /\ w_created m' = w_created m /\
  w_closed m' = w_closed m /\ m_recoveryAttempts m' = m_recoveryAttempts m /\ w_restarts m' = w_restarts m /\
  m_maxRecoveryAttempts m' = m_maxRecoveryAttempts m /\ m_initialAttempted m' = m_initialAttempted m /\
  m_generation m' = m_generation m /\ m_lastFailureAt m' = m_lastFailureAt m.
Proof.
  unfold finishRecovery. destruct p as [p|]; [|done]. destruct (m_recoveries m !! p) as [r|]; [|done].
  destruct (rv_doneClosed r); [done|]. cbv zeta. by destruct (bool_decide _).
Qed.

(** What a section of a goroutine that is not the supervisor may change. *)
Record t_frame (m m' : manager) : Prop := {
  f_created : w_created m' = w_created m;
  f_closed : m_closed m = true -> m_closed m' = true;
  f_client : m_client m' = m_client m \/ m_client m' = None /\ m_closed m' = true;
  f_available : m_state m' = ProcessStateAvailable -> m_state m = ProcessStateAvailable;
  f_budget : m_recoveryAttempts m' = m_recoveryAttempts m /\ w_restarts m' = w_restarts m \/
             m_recoveryAttempts m' = 0 /\ w_restarts m' = 0 /\ m_state m = ProcessStateAvailable;
  f_max : m_maxRecoveryAttempts m' = m_maxRecoveryAttempts m;
  f_initial : m_initialAttempted m' = m_initialAttempted m;
  f_generation : m_generation m' = m_generation m;
  f_children : w_closed m ⊆ w_closed m';
  f_shut : (m_closed m = true -> m_client m = None /\ m_state m = ProcessStateClosed) ->
           (m_closed m' = true -> m_client m' = None /\ m_state m' = ProcessStateClosed) }.

Lemma t_frame_refl m : t_frame m m.
Proof. constructor; auto. Qed.

Lemma act_frame a m : t_frame m (act a m).
Proof.
  destruct a as [e|p c e| |c]; simpl.
  - destruct (finishInitial_frame e m) as (H1 & H2 & H3 & H4 & H5 & H6 & H7 & H8 & H9 & H10 & _).
    constructor; rewrite ?H1, ?H2, ?H3, ?H4, ?H5, ?H6, ?H7, ?H8, ?H9, ?H10; auto.
  - destruct (finishRecovery_frame p c e m) as (H1 & H2 & H3 & H4 & H5 & H6 & H7 & H8 & H9 & H10 & _).
    constructor; rewrite ?H1, ?H2, ?H3, ?H4, ?H5, ?H6, ?H7, ?H8, ?H9, ?H10; auto.
  - by constructor; auto.
  - constructor; simpl; auto. set_solver.
Qed.

Lemma state_is_true a b : state_is a b = true <-> a = b.
Proof. apply bool_decide_eq_true. Qed.

Lemma reset_frame now m : m_state m = ProcessStateAvailable -> m_closed m = false ->
  t_frame m (resetHealthyLocked now m) /\ m_client (resetHealthyLocked now m) = m_client m.
Proof.
  intros Hs Hc. unfold resetHealthyLocked. simpl. rewrite Hs. simpl. split; [|done]. constructor; simpl; auto; congruence.
Qed.

Lemma advance_t_frame i t m m' t' : advance_t i t m = (m', t') -> t_frame m m'.
Proof.
  destruct t as [c e pid|ev|ev p|c|c| |[|a l]]; intros H; open_t H.
  - repeat case_match; simplify_eq; apply t_frame_refl.
  - destruct (eventStale ev m || _) eqn:E; simplify_eq; [apply t_frame_refl|]. apply orb_false_iff in E as [E1 E2].
    unfold eventStale in E1. apply orb_false_iff in E1 as [[E1 _]%orb_false_iff _].
    apply negb_false_iff, state_is_true in E2. destruct (m_recovery m); constructor; simpl; auto; congruence.
  - destruct (eventStale ev m) eqn:E1; simplify_eq; [apply t_frame_refl|].
    unfold eventStale in E1. apply orb_false_iff in E1 as [[E1 _]%orb_false_iff _].
    simpl in H. destruct (_ || _); simplify_eq; constructor; simpl; auto; congruence.
  - repeat case_match; simplify_eq; apply t_frame_refl.
  - destruct (m_closed m || _) eqn:E; simplify_eq; [apply t_frame_refl|]. apply orb_false_iff in E as [E1 _].
    destruct (state_is _ _) eqn:E2; simplify_eq; [|apply t_frame_refl]. apply state_is_true in E2.
    simpl. set (m1 := set_healthy _ _ m).
    assert (t_frame m m1) as F by (subst m1; constructor; simpl; auto).
    destruct (_ || _); [|done]. destruct (reset_frame (in_now i) m1) as [[] _]; [done|done|].
    constructor; simpl in *; auto.
  - destruct (m_closed m) eqn:E; simplify_eq; [apply t_frame_refl|].
    set (m1 := broadcastStateLocked _) in *.
    assert (t_frame m m1) as F by (subst m1; constructor; simpl; auto; congruence).
    destruct (m_recovery m) as [p|]; [|done]. destruct (m_recoveries m1 !! p) as [r|]; [|done].
    destruct (rv_doneClosed r); [done|]. destruct F. constructor; simpl in *; auto.
  - simplify_eq. apply t_frame_refl.
  - simplify_eq. apply act_frame.
Qed.

(** A goroutine loses no child: the one that [Close] takes is closed next. *)
Lemma advance_t_accounted i t m m' t' c :
  advance_t i t m = (m', t') -> accounted m (held_t t) c -> accounted m' (held_t t') c.
Proof.
  intros H. pose proof (advance_t_frame _ _ _ _ _ H) as F. unfold accounted.
  destruct t as [c' e pid|ev|ev p|c'|c'| |[|a l]]; open_t H; cbn [held_t].
  - repeat case_match; simplify_eq; set_solver.
  - destruct (_ || _); simplify_eq; [set_solver|]. destruct (m_recovery m); simpl; set_solver.
  - destruct (eventStale ev m); simplify_eq; [set_solver|]. simpl in H. destruct (_ || _); simplify_eq; simpl; set_solver.
  - repeat case_match; simplify_eq; set_solver.
  - destruct (_ || _); simplify_eq; [set_solver|]. destruct (state_is _ _); simplify_eq; [|set_solver]. simpl.
    unfold resetHealthyLocked. destruct (_ || elapsed _ _ _); [|set_solver]. simpl. destruct (_ || _); set_solver.
  - destruct (m_closed m); simplify_eq; [set_solver|].
    cbn [held_t]. rewrite held_a_app. set (m1 := broadcastStateLocked _).
    assert (m_client m = Some c -> c ∈ held_a (match m_client m with Some c => [ACloseChild c] | None => [] end)) as Hh
      by (intros ->; set_solver).
    assert (forall m2, w_closed m2 = w_closed m -> c ∈ w_closed m \/ m_client m = Some c \/ c ∈ [] ->
      c ∈ w_closed m2 \/ m_client m2 = Some c \/ c ∈ held_a (match m_client m with Some c => [ACloseChild c] | None => [] end)
        ++ held_a [AFinishInitial (Some ErrUnavailable); ASignal]) as Hgoal.
    { intros m2 -> [?|[?|?%not_elem_of_nil]]; [by left|right; right; apply elem_of_app; left; auto|done]. }
    apply Hgoal. destruct (m_recovery m) as [p|]; [|done]. destruct (m_recoveries m1 !! p) as [r|]; [|done]. by destruct (rv_doneClosed r).
  - by simplify_eq.
  - simplify_eq. destruct a as [e|p c' e| |c']; simpl.
    + destruct (finishInitial_frame e m) as (_ & -> & _ & _ & -> & _). done.
    + destruct (finishRecovery_frame p c' e m) as (_ & -> & _ & _ & -> & _). done.
    + done.
    + unfold closeChild. simpl. set_solver.
Qed.

(** ** The sections of the supervisor *)

Definition old_closed (s : spawn) (m : manager) : Prop := forall o, s_old s = Some o -> o ∈ w_closed m.

(** Nothing was restarted before or while the first child is made. *)
Definition fresh (s : spawn) (m : manager) : Prop :=
  m_initialAttempted m = true /\ (s_initial s = true -> w_restarts m = 0).

(** What the supervisor has established at each of its points. *)
Definition s_ok (s : spc) (m : manager) : Prop :=
  match s with
  | SAttempt _ attempt _ _ =>
      m_state m <> ProcessStateAvailable /\ attempt = m_recoveryAttempts m + 1 /\
      m_recoveryAttempts m < m_maxRecoveryAttempts m /\ m_initialAttempted m = true
  | SSpawn s => fresh s m
  | SFactory s | SFailed s _ => old_closed s m /\ fresh s m
  | SCheck s candidate e => old_closed s m /\ fresh s m /\ (is_Some e -> candidate = None)
  | SInstall s _ oldClient _ => old_closed s m /\ fresh s m /\ (s_initial s = false -> oldClient = s_old s)
  | _ => True
  end.

Record m_ok (m : manager) : Prop := {
  b_restarts : 0 <= w_restarts m <= m_recoveryAttempts m;
  b_attempts : m_recoveryAttempts m <= Z.max 1 (m_maxRecoveryAttempts m);
  b_budget : w_restarts m <= Z.max 0 (m_maxRecoveryAttempts m);
  b_initial : m_initialAttempted m = false -> w_restarts m = 0 /\ m_client m = None;
  b_shut : m_closed m = true -> m_client m = None /\ m_state m = ProcessStateClosed }.

Lemma t_frame_restarts m m' : t_frame m m' -> w_restarts m' = w_restarts m \/ w_restarts m' = 0.
Proof. intros F. destruct (f_budget _ _ F) as [[_ ->]|(_ & -> & _)]; auto. Qed.

Lemma t_frame_m_ok m m' : t_frame m m' -> m_ok m -> m_ok m'.
Proof.
  intros F [B1 B2 B3 B4 B5]. pose proof (t_frame_restarts _ _ F) as Hr. destruct F as [F1 F2 F3 F4 F5 F6 F7 F8 F9 F10].
  constructor; rewrite ?F6, ?F7; auto.
  - destruct F5 as [[-> ->]|(-> & -> & _)]; lia.
  - destruct F5 as [[-> _]|(-> & _ & _)]; lia.
  - lia.
  - intros Hi. destruct (B4 Hi) as [H1 H2]. split; [lia|]. destruct F3 as [->|[-> _]]; done.
Qed.

Lemma t_frame_fresh s m m' : t_frame m m' -> fresh s m -> fresh s m'.
Proof.
  intros F [H1 H2]. split; [by rewrite (f_initial _ _ F)|]. intros Hi. pose proof (t_frame_restarts _ _ F). specialize (H2 Hi). lia.
Qed.

Lemma t_frame_s_ok s m m' : t_frame m m' -> s_ok s m -> s_ok s m'.
Proof.
  intros F. pose proof (fun s => t_frame_fresh s _ _ F) as Hf. destruct F as [F1 F2 F3 F4 F5 F6 F7 F8 F9 F10]. unfold s_ok, old_closed.
  destruct s as [| |now a old og|s|s|s c e|s e|s c oc og|t]; try done; [|naive_solver..].
  intros (H1 & H2 & H3 & H4). rewrite F6, F7. destruct F5 as [[-> _]|(_ & _ & Hx)]; [|done]. auto.
Qed.

Lemma make_frame f m m' c e : make f m = (m', c, e) ->
  m_closed m' = m_closed m /\ m_client m' = m_client m /\ m_state m' = m_state m /\
  m_recoveryAttempts m' = m_recoveryAttempts m /\ w_restarts m' = w_restarts m /\
  m_maxRecoveryAttempts m' = m_maxRecoveryAttempts m /\ m_initialAttempted m' = m_initialAttempted m /\
  w_closed m ⊆ w_closed m' /\ (is_Some e -> c = None) /\ m_generation m' = m_generation m.
Proof. destruct f as [e' []| |[]]; intros [= <- <- <-]; simpl; split_and!; try done; try set_solver; by intros []. Qed.

Lemma make_children f m m' c e k : make f m = (m', c, e) -> (k < w_created m')%nat ->
  (k < w_created m)%nat \/ k ∈ w_closed m' \/ c = Some k.
Proof.
  destruct f as [e' []| |[]]; intros [= <- <- <-]; simpl; intros Hk; auto;
    destruct (decide (k = w_created m)) as [->|]; try (left; lia); right; try (left; by left); by right.
Qed.

Lemma stale_initial s old og m : spawnStale s old og m = false -> m_closed m = false /\
  (s_initial s = true -> m_client m = None) /\ (s_initial s = false -> m_client m = old).
Proof.
  unfold spawnStale. intros H. apply orb_false_iff in H as [[H1 H2]%orb_false_iff H3]. split; [done|].
  destruct (s_initial s); simpl in *; split; try done; intros _.
  - apply bool_decide_eq_false in H3. by destruct (m_client m); [destruct H3; eauto|].
  - apply orb_false_iff in H2 as [H2 _]. by apply negb_false_iff, bool_decide_eq_true in H2.
Qed.

Lemma held_discard c s : held_s (discard c s) = match c with Some c => [c] | None => [] end.
Proof. unfold discard. cbn [held_s held_t]. rewrite held_a_app, held_finish, app_nil_r. by destruct c. Qed.

(** The supervisor keeps its own invariant and the manager's. *)
Lemma advance_s_ok i s m m' s' : advance_s i s m = (m', s') -> s_ok s m -> m_ok m -> s_ok s' m' /\ m_ok m'.
Proof.
  intros H Hs Hm. pose proof Hm as [B1 B2 B3 B4 B5].
  destruct s as [| |now a old og|s|s|s c e|s e|s c oc og|t]; open_s H.
  - repeat case_match; by simplify_eq.
  - destruct (m_closed m) eqn:Ec; simplify_eq; [done|].
    destruct (state_is (m_state m) ProcessStateAvailable && _ && _) eqn:E1; simplify_eq.
    { apply andb_true_iff in E1 as [[E1%state_is_true _]%andb_true_iff _].
      split; [done|]. eapply t_frame_m_ok; [|done]. by apply reset_frame. }
    destruct (negb (m_initialAttempted m) && _) eqn:E2; simplify_eq.
    { apply andb_true_iff in E2 as [E2%negb_true_iff _]. destruct (B4 E2). split; [done|]. constructor; simpl; auto; congruence. }
    assert (m_initialAttempted m = true) as Hi.
    { destruct (m_initialAttempted m) eqn:E; [done|]. destruct (B4 eq_refl) as [_ Hc]. rewrite Hc in E2. done. }
    destruct (_ || state_is _ _) eqn:E3; simplify_eq; [done|]. apply orb_false_iff in E3 as [_ E3].
    destruct (_ || (m_maxRecoveryAttempts m <=? m_recoveryAttempts m)) eqn:E4; simplify_eq.
    { split; [done|]. constructor; simpl; auto; congruence. }
    destruct (negb (IsZero (m_nextRecoveryAt m)) && _); simplify_eq; [done|]. split; [|done].
    apply orb_false_iff in E4 as [_ E4%Z.leb_gt]. split_and!; try done. intros Hx. unfold state_is in E3. by rewrite bool_decide_true in E3.
  - destruct Hs as (H1 & H2 & H3 & H4).
    destruct (m_closed m) eqn:Ec; [simpl in H; by simplify_eq|]. destruct (_ || _); simplify_eq; [done|].
    split; [done|]. constructor; simpl; auto; try lia; congruence.
  - simplify_eq. destruct (s_old s) as [o|] eqn:Eo; [|split; [|done]; split; [|done]; intros o' Ho'; congruence].
    assert (t_frame m (closeChild o m)) as F by (constructor; simpl; auto; set_solver).
    split; [|by eapply t_frame_m_ok]. split; [|by eapply t_frame_fresh]. intros o' Ho'. rewrite Eo in Ho'. simplify_eq. by left.
  - destruct (make (in_factory i) m) as [[m1 c] e] eqn:E. simplify_eq. destruct Hs as [H1 [H2 H3]].
    destruct (make_frame _ _ _ _ _ E) as (M1 & M2 & M3 & M4 & M5 & M6 & M7 & M8 & M9 & _). unfold s_ok, old_closed, fresh.
    rewrite M5, M7. split; [naive_solver|]. constructor; rewrite ?M1, ?M2, ?M3, ?M4, ?M5, ?M6, ?M7; auto.
  - destruct Hs as (H1 & H2 & H3). destruct (spawnStale _ _ _ m) eqn:E; simplify_eq; [done|].
    destruct (stale_initial _ _ _ _ E) as (_ & _ & Ho). split; [|by repeat case_match; simplify_eq].
    destruct e, c; simplify_eq; split; auto.
  - destruct Hs as (H1 & H2 & H3). destruct (spawnStale _ _ _ m) eqn:E; simplify_eq; [done|].
    destruct (stale_initial _ _ _ _ E) as (Ec & _ & Ho).
    destruct (s_initial s) eqn:Ei; simplify_eq.
    { split; [done|]. specialize (H3 eq_refl). constructor; simpl; auto; try lia; congruence. }
    simpl in H. destruct (_ <=? _); simplify_eq; split; try done; constructor; simpl; auto; congruence.
  - destruct Hs as (H1 & [H2 H3] & H4). destruct (spawnStale _ _ _ m) eqn:E; simplify_eq; [done|].
    destruct (stale_initial _ _ _ _ E) as (Ec & _ & Ho). split; [done|]. constructor; simpl; auto; congruence.
  - destruct (advance_t i t m) as [m1 t1] eqn:E. simplify_eq. split; [done|]. eapply t_frame_m_ok; [|done]. by eapply advance_t_frame.
Qed.

(** The supervisor loses no child either. *)
Lemma advance_s_accounted i s m m' s' k : advance_s i s m = (m', s') -> s_ok s m ->
  (k < w_created m')%nat -> ((k < w_created m)%nat -> accounted m (held_s s) k) -> accounted m' (held_s s') k.
Proof.
  unfold accounted. intros H Hs Hk Hacc. destruct s as [| |now a old og|s|s|s c e|s e|s c oc og|t]; open_s H; cbn [held_s] in Hacc.
  - repeat case_match; simplify_eq; auto.
  - unfold resetHealthyLocked in H. simpl in H. repeat (case_match; simplify_eq; simpl in *; auto).
  - repeat (case_match; simplify_eq; simpl in *; auto).
  - simplify_eq. destruct (s_old s); simpl in *; [|auto]. destruct (Hacc Hk) as [?|[?|?]]; [left; by right|auto|auto].
  - destruct (make (in_factory i) m) as [[m1 c] e] eqn:E. simplify_eq.
    destruct (make_frame _ _ _ _ _ E) as (_ & -> & _ & _ & _ & _ & _ & Hsub & _).
    destruct (make_children _ _ _ _ _ k E Hk) as [Hold|[Hc|Hc]]; [|by left|].
    + destruct (Hacc Hold) as [?|[?|?%not_elem_of_nil]]; [left; by apply Hsub|by right; left|done].
    + subst. right. right. by left.
  - destruct Hs as (_ & _ & H3). destruct (spawnStale _ _ _ m); simplify_eq; [rewrite held_discard; by destruct c; auto|].
    destruct e, c; simplify_eq; simpl in *; auto. by specialize (H3 (mk_is_Some _ _ eq_refl)).
  - destruct (spawnStale _ _ _ m); simplify_eq; [auto|]. simpl in H. repeat (case_match; simplify_eq; simpl in *; auto).
  - destruct Hs as (H1 & _ & H4). destruct (spawnStale _ _ _ m) eqn:E; simplify_eq; [rewrite held_discard; auto|].
    destruct (stale_initial _ _ _ _ E) as (_ & Hi & Ho). cbn [held_s held_t]. rewrite held_a_app, held_finish, app_nil_r. simpl in *.
    destruct (Hacc Hk) as [?|[Hc| ->%list_elem_of_singleton]]; [auto| |auto]. left.
    destruct (s_initial s) eqn:Ei; [rewrite Hi in Hc by done; done|]. apply H1. rewrite <-H4, <-Ho; done.
  - destruct (advance_t i t m) as [m1 t1] eqn:E. simplify_eq. eapply (advance_t_accounted _ _ _ _ _ k E).
    rewrite (f_created _ _ (advance_t_frame _ _ _ _ _ E)) in Hk. exact (Hacc Hk).
Qed.

(** ** The invariant of the process *)

Record sup_inv (y : system) : Prop := {
  v_manager : m_ok (y_manager y);
  v_supervisor : s_ok (y_supervisor y) (y_manager y);
  v_children : forall c, (c < w_created (y_manager y))%nat ->
    accounted (y_manager y) (held_s (y_supervisor y)) c \/ Exists (fun t => c ∈ held_t t) (y_threads y) }.

Lemma sup_inv_add m s l t : sup_inv {| y_manager := m; y_supervisor := s; y_threads := l |} ->
  sup_inv {| y_manager := m; y_supervisor := s; y_threads := l ++ [t] |}.
Proof. intros [H1 H2 H3]. constructor; simpl in *; auto. intros c Hc. rewrite Exists_app. destruct (H3 c Hc); auto. Qed.

Lemma sup_inv_thread i m s l k t m' t' :
  sup_inv {| y_manager := m; y_supervisor := s; y_threads := l |} -> l !! k = Some t -> advance_t i t m = (m', t') ->
  sup_inv {| y_manager := m'; y_supervisor := s; y_threads := <[k := t']> l |}.
Proof.
  intros [H1 H2 H3] Hk H. simpl in *. pose proof (advance_t_frame _ _ _ _ _ H) as F. constructor; simpl.
  - by eapply t_frame_m_ok.
  - by eapply t_frame_s_ok.
  - intros c. rewrite (f_created _ _ F). intros Hc. unfold accounted in *.
    assert (forall x, accounted m (held_t t) x -> accounted m' (held_t t') x) as Ha by (intros x; by eapply advance_t_accounted).
    assert (accounted m' (held_t t') c -> (c ∈ w_closed m' \/ m_client m' = Some c \/ c ∈ held_s s) \/
            Exists (fun t => c ∈ held_t t) (<[k:=t']> l)) as Hout.
    { unfold accounted. intros [?|[?|Hin]]; [auto|auto|]. right. apply Exists_exists. exists t'. split; [|done].
      apply list_elem_of_lookup. exists k. apply list_lookup_insert_eq. by eapply lookup_lt_Some. }
    destruct (H3 c Hc) as [[?|[?|?]]|Hex].
    + apply Hout, Ha. by left.
    + apply Hout, Ha. by right; left.
    + auto.
    + destruct (decide (c ∈ held_t t)) as [Hin|Hnin]; [apply Hout, Ha; by right; right|]. right.
      by eapply Exists_insert.
Qed.

Lemma sup_inv_step y y' : sys_step y y' -> sup_inv y -> sup_inv y'.
Proof.
  intros Hstep Hinv. destruct Hstep as [m l|m l ev|i m s l m' s' Ha|m s l c e pid|m s l c|m s l|i m s l k t m' t' Hk Ha].
  - destruct Hinv as [H1 _ H3]. constructor; simpl in *; [by destruct H1|done|exact H3].
  - destruct Hinv as [H1 _ H3]. constructor; simpl in *; [done|done|exact H3].
  - destruct Hinv as [H1 H2 H3]. simpl in *. destruct (advance_s_ok _ _ _ _ _ Ha H2 H1) as [H4 H5]. constructor; simpl; auto.
    intros c Hc. destruct (decide (Exists (fun t => c ∈ held_t t) l)) as [|Hno]; [by right|]. left.
    eapply advance_s_accounted; [done|done|done|]. intros Hold. destruct (H3 c Hold); [done|by destruct Hno].
  - by apply sup_inv_add.
  - by apply sup_inv_add.
  - by apply sup_inv_add.
  - by eapply sup_inv_thread.
Qed.

Lemma sup_inv_start a b c d x y z : sup_inv (start (newManager a b c d x y z)).
Proof. constructor; simpl; [|done|intros; lia]. constructor; simpl; auto; lia. Qed.

Lemma sup_inv_rtc y y' : rtc sys_step y y' -> sup_inv y -> sup_inv y'.
Proof. induction 1; [done|]. eauto using sup_inv_step. Qed.

(** ** After the close *)

Lemma advance_closed i s m m' s' : advance_s i s m = (m', s') -> m_ok m -> m_closed m = true ->
  m_closed m' = true /\ m_generation m' = m_generation m.
Proof.
  intros H Hm Hc. destruct s as [| |now a old og|s|s|s c e|s e|s c oc og|t]; open_s H.
  - rewrite Hc in H. simpl in H. by simplify_eq.
  - rewrite Hc in H. simpl in H. by simplify_eq.
  - rewrite Hc in H. simpl in H. by simplify_eq.
  - simplify_eq. by destruct (s_old s).
  - destruct (make (in_factory i) m) as [[m1 c] e] eqn:E. simplify_eq.
    destruct (make_frame _ _ _ _ _ E) as (-> & _ & _ & _ & _ & _ & _ & _ & _ & ->). done.
  - unfold spawnStale in H. rewrite Hc in H. simpl in H. by simplify_eq.
  - unfold spawnStale in H. rewrite Hc in H. simpl in H. by simplify_eq.
  - unfold spawnStale in H. rewrite Hc in H. simpl in H. by simplify_eq.
  - destruct (advance_t i t m) as [m1 t1] eqn:E. simplify_eq. apply advance_t_frame in E as [? ? ? ? ? ? ? ? ? ?]. auto.
Qed.

Lemma closed_step y y' : sys_step y y' -> sup_inv y -> m_closed (y_manager y) = true ->
  m_closed (y_manager y') = true /\ m_generation (y_manager y') = m_generation (y_manager y).
Proof.
  intros Hstep [Hm _ _] Hc. destruct Hstep as [m l|m l ev|i m s l m' s' Ha|m s l c e pid|m s l c|m s l|i m s l k t m' t' Hk Ha]; simpl in *; try done.
  - by eapply advance_closed.
  - apply advance_t_frame in Ha as [? ? ? ? ? ? ? ? ? ?]. auto.
Qed.

Lemma closed_rtc y y' : rtc sys_step y y' -> sup_inv y -> m_closed (y_manager y) = true ->
  m_closed (y_manager y') = true /\ m_generation (y_manager y') = m_generation (y_manager y).
Proof.
  induction 1 as [|x y z Hxy _ IH]; [done|]. intros Hi Hc. destruct (closed_step _ _ Hxy Hi Hc) as [H1 H2].
  destruct (IH (sup_inv_step _ _ Hxy Hi) H1) as [H3 H4]. split; congruence.
Qed.

(** ** Returning the budget *)

(** The clock reading at which the budget is returned is kept as the last
    healthy time; the health it rests on is what the manager had before. *)
Definition sustained (m m' : manager) : Prop :=
  m_state m = ProcessStateAvailable /\
  (m_healthyInterval m <= 0 \/ m_healthySince m <> zeroTime /\ m_healthySince m + m_healthyInterval m <= m_lastHealthyAt m').

Lemma reset_last now m : m_lastHealthyAt (resetHealthyLocked now m) = now.
Proof. unfold resetHealthyLocked. simpl. by destruct (_ || _). Qed.

Lemma advance_t_returns i t m m' t' : advance_t i t m = (m', t') -> w_restarts m' <> w_restarts m -> sustained m m'.
Proof.
  intros H Hne. destruct t as [c e pid|ev|ev p|c|c| |[|a l]]; open_t H.
  - by repeat case_match; simplify_eq.
  - destruct (_ || _); simplify_eq. by destruct (m_recovery m).
  - destruct (eventStale ev m); simplify_eq. simpl in H. by destruct (_ || _); simplify_eq.
  - by repeat case_match; simplify_eq.
  - destruct (_ || _); simplify_eq. destruct (state_is _ _) eqn:E; simplify_eq. apply state_is_true in E.
    split; [done|]. simpl in *. destruct (_ || elapsed _ _ _) eqn:E2; [|done]. rewrite reset_last.
    apply orb_true_iff in E2 as [E2%Z.leb_le|E2]; [by left|]. unfold elapsed, IsZero in E2. apply Z.leb_le in E2.
    destruct (Z.eqb_spec (m_healthySince m) zeroTime); [left; lia|by right].
  - destruct (m_closed m); simplify_eq. revert Hne. repeat case_match; done.
  - by simplify_eq.
  - simplify_eq. destruct a as [e|p c e| |c]; try done.
    + destruct (finishInitial_frame e m) as (_ & _ & _ & _ & _ & _ & Hr & _). by destruct Hne.
    + destruct (finishRecovery_frame p c e m) as (_ & _ & _ & _ & _ & _ & Hr & _). by destruct Hne.
Qed.

Lemma advance_s_returns i s m m' s' : advance_s i s m = (m', s') -> w_restarts m' < w_restarts m -> sustained m m'.
Proof.
  intros H Hlt. destruct s as [| |now a old og|s|s|s c e|s e|s c oc og|t]; open_s H.
  - repeat case_match; simplify_eq; lia.
  - destruct (m_closed m); simplify_eq; [lia|].
    destruct (state_is _ _ && _ && _) eqn:E; simplify_eq.
    { apply andb_true_iff in E as [[E1%state_is_true E2%negb_true_iff]%andb_true_iff E3]. split; [done|]. rewrite reset_last.
      unfold IsZero in E2. apply Z.eqb_neq in E2. apply orb_true_iff in E3 as [E3%Z.leb_le|E3]; [by left|].
      unfold elapsed in E3. apply Z.leb_le in E3. by right. }
    repeat (case_match; simplify_eq; simpl in *; try lia).
  - repeat (case_match; simplify_eq; simpl in *; try lia).
  - simplify_eq. destruct (s_old s); simpl in *; lia.
  - destruct (make (in_factory i) m) as [[m1 c] e] eqn:E. simplify_eq.
    destruct (make_frame _ _ _ _ _ E) as (_ & _ & _ & _ & Hr & _). lia.
  - repeat (case_match; simplify_eq; simpl in *; try lia).
  - destruct (spawnStale _ _ _ _); simplify_eq; [lia|]. simpl in H. repeat (case_match; simplify_eq; simpl in *; try lia).
  - destruct (spawnStale _ _ _ _); simplify_eq; simpl in *; lia.
  - destruct (advance_t i t m) as [m1 t1] eqn:E. simplify_eq. eapply advance_t_returns; [done|lia].
Qed.

Lemma step_returns y y' : sys_step y y' -> w_restarts (y_manager y') < w_restarts (y_manager y) ->
  sustained (y_manager y) (y_manager y').
Proof.
  intros Hstep. destruct Hstep as [m l|m l ev|i m s l m' s' Ha|m s l c e pid|m s l c|m s l|i m s l k t m' t' Hk Ha]; simpl; try lia.
  - by eapply advance_s_returns.
  - intros ?. eapply advance_t_returns; [done|lia].
Qed.

(** ** A manager without a recovery *)

(** Degraded, with no recovery begun: nothing that runs is about to end it. *)
Definition stalled (m : manager) : Prop :=
  m_closed m = false /\ m_state m = ProcessStateDegraded /\ m_recovery m = None /\ m_initialAttempted m = true.

Definition calm_t (t : tpc) : Prop := match t with TEvent2 _ _ => False | _ => True end.
Definition calm_s (s : spc) : Prop :=
  match s with SStep | SStepLocked => True | SThread t => calm_t t | _ => False end.
Definition calm (y : system) : Prop := calm_s (y_supervisor y) /\ Forall calm_t (y_threads y).

Lemma act_stalled a m : stalled m -> stalled (act a m).
Proof.
  intros (H1 & H2 & H3 & H4). destruct a as [e|p c e| |c]; try done; simpl.
  - unfold finishInitial. destruct (m_initialReported m); done.
  - unfold finishRecovery. destruct p as [p|]; [|done]. destruct (m_recoveries m !! p) as [r|]; [|done].
    destruct (rv_doneClosed r); [done|]. cbv zeta. case_match; done.
Qed.

Lemma advance_t_stalled i t m m' t' : advance_t i t m = (m', t') -> calm_t t -> stalled m ->
  calm_t t' /\ (m_closed m' = true \/ stalled m').
Proof.
  intros H Hc Hs. pose proof Hs as (H1 & H2 & H3 & H4).
  destruct t as [c e pid|ev|ev p|c|c| |[|a l]]; open_t H; try done.
  - rewrite H2, !orb_true_r in H. simplify_eq. auto.
  - rewrite H2, orb_true_r in H. simplify_eq. auto.
  - repeat case_match; simplify_eq; auto.
  - rewrite H2 in H. repeat case_match; simplify_eq; auto.
  - rewrite H1, H3 in H. simplify_eq. auto.
  - simplify_eq. auto.
  - simplify_eq. split; [done|]. right. by apply act_stalled.
Qed.

Lemma step_stalled y y' : sys_step y y' -> calm y -> stalled (y_manager y) ->
  calm y' /\ (m_closed (y_manager y') = true \/ stalled (y_manager y')).
Proof.
  intros Hstep [Hcs Hct] Hs. destruct Hstep as [m l|m l ev|i m s l m' s' Ha|m s l c e pid|m s l c|m s l|i m s l k t m' t' Hk Ha]; simpl in *.
  - split; [by split|by right].
  - split; [by split|by right].
  - pose proof Hs as (H1 & H2 & H3 & H4). destruct s as [| |now a old og|s|s|s c e|s e|s c oc og|t]; try done; open_s Ha.
    + rewrite H1 in Ha. simplify_eq. split; [by split|by right].
    + rewrite H1, H2, H3, H4 in Ha. simpl in Ha. simplify_eq. split; [by split|by right].
    + destruct (advance_t i t m) as [m1 t1] eqn:E. simplify_eq. destruct (advance_t_stalled _ _ _ _ _ E Hcs Hs) as [H5 H6]. split; [by split|done].
  - split; [|by right]. split; [done|]. apply Forall_app. split; [done|by constructor].
  - split; [|by right]. split; [done|]. apply Forall_app. split; [done|by constructor].
  - split; [|by right]. split; [done|]. apply Forall_app. split; [done|by constructor].
  - destruct (advance_t_stalled _ _ _ _ _ Ha (Forall_lookup_1 _ _ _ _ Hct Hk) Hs) as [H1 H2].
    split; [|done]. split; [done|]. by apply Forall_insert.
Qed.

(** ** Schedules *)

Inductive move := MWake | MEvent (ev : supervisorEvent) | MSupervise (i : input) | MFailure (c : nat) (e : option ProcessErr)
  | MHealthy (c : nat) | MClose | MThread (i : input) (k : nat).

Definition is_idle (s : spc) : bool := match s with SThread (TTail []) => true | _ => false end.

Definition play (y : system) (mv : move) : system :=
  let m := y_manager y in
  let s := y_supervisor y in
  let l := y_threads y in
  match mv with
  | MWake => if is_idle s then {| y_manager := set_wake false m; y_supervisor := SStep; y_threads := l |} else y
  | MEvent ev => if is_idle s then {| y_manager := m; y_supervisor := SThread (TEvent ev); y_threads := l |} else y
  | MSupervise i => let '(m, s) := advance_s i s m in {| y_manager := m; y_supervisor := s; y_threads := l |}
  | MFailure c e => {| y_manager := m; y_supervisor := s; y_threads := l ++ [TFailure c e 0] |}
  | MHealthy c => {| y_manager := m; y_supervisor := s; y_threads := l ++ [THealthy c] |}
  | MClose => {| y_manager := m; y_supervisor := s; y_threads := l ++ [TClose] |}
  | MThread i k =>
      match l !! k with
      | None => y
      | Some t => let '(m, t) := advance_t i t m in {| y_manager := m; y_supervisor := s; y_threads := <[k := t]> l |}
      end
  end.

Lemma play_step y mv : rtc sys_step y (play y mv).
Proof.
  destruct y as [m s l]. destruct mv as [|ev|i|c e|c| |i k]; simpl.
  - destruct (is_idle s) eqn:E; [|done]. destruct s as [| | | | | | | |t]; try done. destruct t as [| | | | | |[|]]; try done.
    apply rtc_once. constructor.
  - destruct (is_idle s) eqn:E; [|done]. destruct s as [| | | | | | | |t]; try done. destruct t as [| | | | | |[|]]; try done.
    apply rtc_once. constructor.
  - destruct (advance_s i s m) as [m' s'] eqn:E. apply rtc_once. by econstructor.
  - apply rtc_once. constructor.
  - apply rtc_once. constructor.
  - apply rtc_once. constructor.
  - destruct (l !! k) as [t|] eqn:Hk; [|done]. destruct (advance_t i t m) as [m' t'] eqn:E. apply rtc_once. by econstructor.
Qed.

Lemma plays_steps l y : rtc sys_step y (fold_left play l y).
Proof. revert y. induction l as [|mv l IH]; intros y; [done|]. etrans; [apply play_step|apply IH]. Qed.

(** ** The guarantees *)

Definition at_rest (y : system) : Prop := y_supervisor y = idle /\ Forall (fun t => t = TTail []) (y_threads y).

(** C34: No child is lost.  However the supervisor, failing requests and
    [Close] interleave, every child the factory ever made is closed, is the
    current one, or is in the hands of a goroutine that installs or closes it;
    once a closed manager is at rest, all of them are closed. *)
Theorem no_child_is_lost a b c d h1 h2 h3 y :
  rtc sys_step (start (newManager a b c d h1 h2 h3)) y ->
  (forall k, (k < w_created (y_manager y))%nat ->
     k ∈ w_closed (y_manager y) \/ m_client (y_manager y) = Some k \/ k ∈ held_s (y_supervisor y) \/
     Exists (fun t => k ∈ held_t t) (y_threads y)) /\
  (m_closed (y_manager y) = true -> at_rest y -> forall k, (k < w_created (y_manager y))%nat -> k ∈ w_closed (y_manager y)).
Proof.
  intros Hy. destruct (sup_inv_rtc _ _ Hy (sup_inv_start a b c d h1 h2 h3)) as [Hm _ Hc]. unfold accounted in Hc. split.
  - intros k Hk. destruct (Hc k Hk) as [[?|[?|?]]|?]; auto.
  - intros Hcl [Hs Ht] k Hk. destruct (b_shut _ Hm Hcl) as [Hn _].
    destruct (Hc k Hk) as [[?|[?|Hx]]|Hx]; [done|congruence| |].
    + rewrite Hs in Hx. by apply not_elem_of_nil in Hx.
    + apply Exists_exists in Hx as (t & Hin & Hx). apply list_elem_of_lookup in Hin as [j Hj].
      pose proof (Forall_lookup_1 _ _ _ _ Ht Hj) as Heq. simpl in Heq. subst t. by apply not_elem_of_nil in Hx.
Qed.

(** A closed manager stays closed: it has no child, no request gets one,
    and no later step installs one, even a replacement that was being made
    when it was closed. *)
Theorem close_is_final a b c d h1 h2 h3 y y' :
  rtc sys_step (start (newManager a b c d h1 h2 h3)) y -> m_closed (y_manager y) = true -> rtc sys_step y y' ->
  m_closed (y_manager y') = true /\ m_state (y_manager y') = ProcessStateClosed /\ m_client (y_manager y') = None /\
  current (y_manager y') = None /\ m_generation (y_manager y') = m_generation (y_manager y) /\
  forall alive failed, waitForClient alive failed (y_manager y') = Some None.
Proof.
  intros Hy Hcl Hyy. pose proof (sup_inv_rtc _ _ Hy (sup_inv_start a b c d h1 h2 h3)) as Hi.
  destruct (closed_rtc _ _ Hyy Hi Hcl) as [H1 H2]. destruct (sup_inv_rtc _ _ Hyy Hi) as [[_ _ _ _ Hs] _ _]. destruct (Hs H1) as [H3 H4].
  split_and!; try done; [unfold current|intros alive failed; unfold waitForClient]; by rewrite H1.
Qed.

(** C35: Between two sustained healthy periods at most the configured number of
    replacements is attempted, the budget that is reported is never negative,
    and it is returned only by a manager that is available and has been so for
    the healthy interval. *)
Theorem restarts_within_budget a b c d h1 h2 h3 y :
  rtc sys_step (start (newManager a b c d h1 h2 h3)) y ->
  0 <= w_restarts (y_manager y) <= Z.max 0 (m_maxRecoveryAttempts (y_manager y)) /\
  w_restarts (y_manager y) <= sn_Attempts (snapshot (y_manager y)) /\ 0 <= sn_RestartBudget (snapshot (y_manager y)) /\
  forall y', sys_step y y' -> w_restarts (y_manager y') < w_restarts (y_manager y) -> sustained (y_manager y) (y_manager y').
Proof.
  intros Hy. destruct (sup_inv_rtc _ _ Hy (sup_inv_start a b c d h1 h2 h3)) as [[B1 B2 B3 B4 B5] _ _].
  split_and!; [lia|lia|simpl; lia| |].
  - simpl. destruct (_ <? 0) eqn:E; [done|]. apply Z.ltb_ge in E. lia.
  - intros y'. apply step_returns.
Qed.

(** Waits between replacements double from a quarter of a second and stay
    at two seconds. *)
Theorem recovery_backoff_doubles attempt :
  defaultRecoveryBackoffFor attempt = Z.min (defaultRecoveryBackoff * 2 ^ (Z.max 1 attempt - 1)) maxRecoveryBackoff.
Proof.
  assert (forall n k, backoff_loop n (Z.min (defaultRecoveryBackoff * 2 ^ Z.of_nat k) maxRecoveryBackoff)
          = Z.min (defaultRecoveryBackoff * 2 ^ Z.of_nat (k + n)) maxRecoveryBackoff) as Hloop.
  { unfold defaultRecoveryBackoff, maxRecoveryBackoff, millisecond_. induction n as [|n IH]; intros k.
    - rewrite Nat.add_0_r. simpl. unfold maxRecoveryBackoff, millisecond_. destruct (Z.ltb_spec (2000 * 1000000) (Z.min (250 * 1000000 * 2 ^ Z.of_nat k) (2000 * 1000000))); lia.
    - cbn [backoff_loop]. unfold maxRecoveryBackoff, millisecond_. specialize (IH (S k)).
      rewrite Nat.add_succ_comm in IH. rewrite Nat2Z.inj_succ, Z.pow_succ_r in IH by lia.
      assert (2 ^ Z.of_nat k <= 2 ^ Z.of_nat (k + S n)) by (apply Z.pow_le_mono_r; lia).
      pose proof (Z.pow_pos_nonneg 2 (Z.of_nat k)). change (Z.quot (2000 * 1000000) 2) with 1000000000.
      destruct (Z.ltb_spec (Z.min (250 * 1000000 * 2 ^ Z.of_nat k) (2000 * 1000000)) (2000 * 1000000)).
      + destruct (Z.ltb_spec 1000000000 (Z.min (250 * 1000000 * 2 ^ Z.of_nat k) (2000 * 1000000))).
        * assert (2 * 2 ^ Z.of_nat k <= 2 ^ Z.of_nat (k + S n)).
          { rewrite <-Z.pow_succ_r by lia. apply Z.pow_le_mono_r; lia. }
          lia.
        * replace (Z.min (250 * 1000000 * 2 ^ Z.of_nat k) (2000 * 1000000) * 2)
            with (Z.min (250 * 1000000 * (2 * 2 ^ Z.of_nat k)) (2000 * 1000000)) by lia. exact IH.
      + destruct (Z.ltb_spec (2000 * 1000000) (Z.min (250 * 1000000 * 2 ^ Z.of_nat k) (2000 * 1000000))); lia. }
  unfold defaultRecoveryBackoffFor.
  replace (if attempt <? 1 then 1 else attempt) with (Z.max 1 attempt) by (destruct (Z.ltb_spec attempt 1); lia).
  specialize (Hloop (Z.to_nat (Z.max 1 attempt - 1)) 0%nat). simpl in Hloop. rewrite Z2Nat.id in Hloop by lia. exact Hloop.
Qed.

(** An idempotent request runs on at most two children, the second one
    another than the first, and is repeated only after an error of the process
    itself; what launches, renames or interrupts a task runs at most once. *)
Theorem requests_retried_once m alive first call ended replacement :
  (forall c, first = Some c -> replacement = None \/ waitForClient alive (Some c) m = Some replacement) ->
  let '(r, ran, failures) := withRetry first call ended replacement in
  (length ran <= 2)%nat /\ NoDup ran /\
  (length ran = 2%nat -> exists c e, first = Some c /\ call c = Some e /\ retryableProcessError e = true /\ ended = false) /\
  (r = None -> exists c, last ran = Some c /\ call c = None) /\
  Forall (fun f => call f.1 = Some f.2 /\ retryableProcessError f.2 = true) failures /\
  (length (withoutRetry m call).2 <= 1)%nat /\ (forall c, c ∈ (withoutRetry m call).2 -> current m = Some c).
Proof.
  intros Hrep. assert ((length (withoutRetry m call).2 <= 1)%nat /\ (forall c, c ∈ (withoutRetry m call).2 -> current m = Some c)) as [Hw1 Hw2].
  { unfold withoutRetry. destruct (current m) as [c|]; simpl; split; try lia; set_solver. }
  unfold withRetry. destruct first as [c|]; [|split_and!; simpl; try done; [lia|constructor]].
  destruct (call c) as [e|] eqn:Ec.
  2:{ split_and!; simpl; try done; [lia|apply NoDup_singleton|]. intros _. by exists c. }
  destruct (retryableProcessError e) eqn:Er; simpl; [|split_and!; simpl; try done; [lia|apply NoDup_singleton]].
  destruct ended; [split_and!; simpl; try done; [lia|apply NoDup_singleton]|].
  destruct replacement as [c'|]; [|split_and!; simpl; try done; [lia|apply NoDup_singleton|by constructor]].
  assert (c' <> c) as Hne.
  { destruct (Hrep c eq_refl) as [?|Hx]; [done|]. unfold waitForClient in Hx. intros ->.
    destruct (_ || _); [done|]. destruct (m_client m) as [c0|]; [|done]. destruct (_ && _ && _) eqn:E; simplify_eq.
    apply andb_true_iff in E as [[_ E]%andb_true_iff _]. apply negb_true_iff, bool_decide_eq_false in E. done. }
  destruct (call c') as [e'|] eqn:Ec'.
  - split_and!; simpl; try done; [apply NoDup_cons; split; [set_solver|apply NoDup_singleton]|by exists c, e|].
    constructor; [done|]. destruct (retryableProcessError e') eqn:Er'; by repeat constructor.
  - split_and!; simpl; try done; [apply NoDup_cons; split; [set_solver|apply NoDup_singleton]|by exists c, e|by exists c'|by constructor].
Qed.

Module SupervisorDemo.
Definition at_ (t : Z) : input := {| in_now := t; in_delay := 5; in_factory := FactoryChild true; in_pid := 42 |}.
Definition begin_ : system := start (newManager 0 0 0 0 0 0 0).
(** the first child is made and installed *)
Definition first_child : list move := MWake :: replicate 8 (MSupervise (at_ 10)).
(** a request reports its failure, completely *)
Definition reports (c k : nat) (t : Z) : list move := MFailure c (Some ErrProtocol) :: replicate 4 (MThread (at_ t) k).
(** the supervisor replaces it, up to the installation *)
Definition replace_child (t : Z) : list move := MWake :: replicate 7 (MSupervise (at_ t)).
(** the replacement fails before its recovery is finished *)
Definition stall : list move := first_child ++ reports 0 0 20 ++ replace_child 40 ++ reports 1 1 50 ++ [MSupervise (at_ 60)].
Definition stalled_system : system := fold_left play stall begin_.
End SupervisorDemo.

(** A replacement that fails as soon as it is installed can leave the
    manager without a child for good.  The failure is reported between the
    installation and the end of the recovery, so it joins that recovery, whose
    end then clears it: with most of the restart budget left the manager is
    degraded with no recovery to run, and whatever happens afterwards it stays
    so, no request gets a child and the loop sleeps for an hour at a time,
    until it is closed. *)
Lemma failed_replacement_stalls :
  exists y, rtc sys_step (start (newManager 0 0 0 0 0 0 0)) y /\ at_rest y /\
    m_state (y_manager y) = ProcessStateDegraded /\ sn_RestartBudget (snapshot (y_manager y)) = 2 /\
    forall y', rtc sys_step y y' -> m_closed (y_manager y') = false ->
      m_state (y_manager y') = ProcessStateDegraded /\ current (y_manager y') = None /\
      (forall now, supervisorDelay now (y_manager y') = hour) /\
      (forall alive failed, waitForClient alive failed (y_manager y') = None).
Proof.
  exists SupervisorDemo.stalled_system. split; [apply plays_steps|].
  assert (at_rest SupervisorDemo.stalled_system) as Hr by (vm_compute; repeat constructor).
  assert (stalled (y_manager SupervisorDemo.stalled_system)) as Hs by (vm_compute; repeat constructor).
  split; [done|]. split; [vm_compute; reflexivity|]. split; [vm_compute; reflexivity|].
  assert (sup_inv SupervisorDemo.stalled_system) as Hinv by (eapply sup_inv_rtc; [apply plays_steps|apply sup_inv_start]).
  assert (calm SupervisorDemo.stalled_system) as Hc.
  { destruct Hr as [H1 H2]. split; [by rewrite H1|]. eapply Forall_impl; [exact H2|]. by intros t ->. }
  clear Hr.
  generalize dependent SupervisorDemo.stalled_system. intros y Hs Hinv Hc y' Hyy. revert Hs Hinv Hc.
  induction Hyy as [y|x y z Hxy Hyz IH]; intros Hs Hinv Hc Hopen.
  - destruct Hs as (H1 & H2 & H3 & H4). split_and!; [done| | |].
    + unfold current. by rewrite H1, H2.
    + intros now. unfold supervisorDelay. by rewrite H1, H2, H3, H4.
    + intros alive failed. unfold waitForClient. rewrite H1, H2. simpl. by destruct (m_client (y_manager y)).
  - destruct (step_stalled _ _ Hxy Hc Hs) as [Hc' [Hcl|Hs']].
    + destruct (closed_rtc _ _ Hyz (sup_inv_step _ _ Hxy Hinv) Hcl). congruence.
    + apply IH; auto. by eapply sup_inv_step.
Qed.

Lemma no_child_is_lost_witness :
  let y := fold_left play (SupervisorDemo.stall ++ [MClose; MThread (SupervisorDemo.at_ 70) 2; MThread (SupervisorDemo.at_ 70) 2;
             MThread (SupervisorDemo.at_ 70) 2; MThread (SupervisorDemo.at_ 70) 2]) SupervisorDemo.begin_ in
  w_created (y_manager y) = 2%nat /\ 1%nat ∈ w_closed (y_manager y).
Proof.
  intros y. split; [vm_compute; reflexivity|].
  apply (no_child_is_lost 0 0 0 0 0 0 0 y); [apply plays_steps|vm_compute; reflexivity|vm_compute; repeat constructor|vm_compute; lia].
Defined.

Lemma close_is_final_witness :
  let y := fold_left play (SupervisorDemo.first_child ++ [MClose; MThread (SupervisorDemo.at_ 70) 0]) SupervisorDemo.begin_ in
  current (y_manager (fold_left play (SupervisorDemo.replace_child 80) y)) = None.
Proof.
  intros y. apply (close_is_final 0 0 0 0 0 0 0 y); [apply plays_steps|vm_compute; reflexivity|apply plays_steps].
Defined.

Lemma restarts_within_budget_witness :
  w_restarts (y_manager SupervisorDemo.stalled_system) = 1 /\
  w_restarts (y_manager SupervisorDemo.stalled_system) <= Z.max 0 (m_maxRecoveryAttempts (y_manager SupervisorDemo.stalled_system)).
Proof.
  split; [vm_compute; reflexivity|]. apply (restarts_within_budget 0 0 0 0 0 0 0 SupervisorDemo.stalled_system). apply plays_steps.
Defined.

Lemma requests_retried_once_witness :
  let call c := if (c =? 0)%nat then Some ErrProtocol else None in
  let y := fold_left play (SupervisorDemo.first_child ++ SupervisorDemo.reports 0 0 20 ++ SupervisorDemo.replace_child 40) SupervisorDemo.begin_ in
  waitForClient (fun _ => true) (Some 0%nat) (y_manager y) = Some (Some 1%nat) /\
  NoDup (withRetry (Some 0%nat) call false (Some 1%nat)).1.2.
Proof.
  intros call y. assert (waitForClient (fun _ => true) (Some 0%nat) (y_manager y) = Some (Some 1%nat)) as Hw by (vm_compute; reflexivity).
  split; [exact Hw|].
  apply (requests_retried_once (y_manager y) (fun _ => true) (Some 0%nat) call false (Some 1%nat)). intros c [= <-]. right. exact Hw.
Defined.
