(* ===== verification/OpsFs.v ===== *)
(** * Operator paths and checksum records

    [internal/opsfs/path.go] and [internal/opsfs/checksum.go]: the small path
    grammar of the packaged operations, and the one-line SHA-256 records that
    name such a path.  A Go string or byte slice is a list of bytes here; an
    error is [None]. *)

From stdpp Require Import base list strings sets.
From Stdlib Require Import ZArith Lia Ascii.
From S2P Require Import Prelude GoText.

Local Open Scope Z_scope.

Definition bytes := list ascii.

Definition slash : ascii := "/"%char.
Definition newline : ascii := "010"%char.
Definition space : ascii := " "%char.
Definition dot : ascii := "."%char.

Definition MaxChecksumBytes : Z := 4096.

(** ** [strings] and [bytes] *)

(** [strings.Split(s, "/")]: the parts between separators, at least one *)
Fixpoint split_on (sep : ascii) (s : bytes) : list bytes :=
  match s with
  | [] => [[]]
  | c :: s' =>
      if decide (c = sep) then [] :: split_on sep s'
      else match split_on sep s' with
           | p :: ps => (c :: p) :: ps
           | [] => [[c]]
           end
  end.

(** [strings.Contains(s, string(a)+string(b))] *)
Fixpoint contains2 (a b : ascii) (s : bytes) : bool :=
  match s with
  | x :: ((y :: _) as s') => bool_decide (x = a /\ y = b) || contains2 a b s'
  | _ => false
  end.

(** [bytes.IndexByte(s, c) >= 0] *)
Definition has_byte (c : ascii) (s : bytes) : bool := bool_decide (c ∈ s).

(** [bytes.Count(s, []byte{c})] *)
Fixpoint count_byte (c : ascii) (s : bytes) : nat :=
  match s with [] => O | x :: s' => (if decide (x = c) then 1 else 0) + count_byte c s' end.

(** [strings.Cut(s, "  ")]: around the first pair of spaces *)
Fixpoint cut_spaces (s : bytes) : option (bytes * bytes) :=
  match s with
  | a :: ((b :: rest) as s') =>
      if decide (a = space /\ b = space) then Some ([], rest)
      else match cut_spaces s' with Some (p, q) => Some (a :: p, q) | None => None end
  | _ => None
  end.

(** [strings.LastIndexByte(s, '/')], as the split it is used for *)
Fixpoint cut_last (sep : ascii) (s : bytes) : option (bytes * bytes) :=
  match s with
  | [] => None
  | c :: s' =>
      match cut_last sep s' with
      | Some (p, q) => Some (c :: p, q)
      | None => if decide (c = sep) then Some ([], s') else None
      end
  end.

(** ** Paths *)

Definition path_char (c : ascii) : bool :=
  between 65 90 c || between 97 122 c || between 48 57 c || (byte c =? 46) || (byte c =? 95) || (byte c =? 45).

Definition validComponent (part : bytes) : bool :=
  negb (bool_decide (part = [])) && negb (bool_decide (part = [dot])) && negb (bool_decide (part = [dot; dot]))
  && forallb path_char part.

Definition ValidAbsPath (path : bytes) : bool :=
  match path with
  | [] => false
  | c :: rest =>
      if negb (bool_decide (c = slash)) then false
      else if bool_decide (rest = []) then false
      else if contains2 slash slash path then false
      else if bool_decide (List.last path slash = slash) then false
      else forallb validComponent (split_on slash rest)
  end.

Definition SplitParentLeaf (path : bytes) : option (bytes * bytes) :=
  if negb (ValidAbsPath path) then None
  else match cut_last slash path with
       | None => None
       | Some (parent, leaf) => if bool_decide (parent = []) then Some ([slash], leaf) else Some (parent, leaf)
       end.

(** ** Checksum records *)

Definition hex_char (c : ascii) : bool := between 48 57 c || between 97 102 c.

Definition validDigest (digest : bytes) : bool := (Nat.eqb (length digest) 64) && forallb hex_char digest.

Definition ParseSHA256Sum (body path : bytes) : option bytes :=
  if bool_decide (body = []) || (MaxChecksumBytes <? Z.of_nat (length body)) then None
  else if has_byte zero body then None
  else if negb (Nat.eqb (count_byte newline body) 1) || negb (bool_decide (List.last body zero = newline)) then None
  else
    let line := removelast body in
    if has_byte newline line || has_byte "013"%char line then None
    else match cut_spaces line with
    | None => None
    | Some (digest, rest) =>
        if has_byte space rest || has_byte "009"%char rest then None
        else if negb (bool_decide (rest = path)) then None
        else if validDigest digest then Some digest else None
    end.

Definition FormatSHA256Sum (digest path : bytes) : option bytes :=
  if negb (ValidAbsPath path) then None
  else if negb (validDigest digest) then None
  else
    let rec := digest ++ [space; space] ++ path ++ [newline] in
    match ParseSHA256Sum rec path with
    | None => None
    | Some _ => Some rec
    end.

(** ** Facts *)

Lemma split_on_nonempty sep s : split_on sep s <> [].
Proof. destruct s as [|c s]; simpl; [done|]. case_decide; [done|]. by destruct (split_on sep s). Qed.

(** Joining the parts gives the text back. *)
Fixpoint join (sep : ascii) (parts : list bytes) : bytes :=
  match parts with
  | [] => []
  | [p] => p
  | p :: ps => p ++ sep :: join sep ps
  end.

Lemma join_cons sep p ps : ps <> [] -> join sep (p :: ps) = p ++ sep :: join sep ps.
Proof. by destruct ps. Qed.

Lemma join_split sep s : join sep (split_on sep s) = s.
Proof.
  induction s as [|c s IH]; [done|]. pose proof (split_on_nonempty sep s). simpl. case_decide as E.
  - rewrite join_cons by done. simpl. by rewrite IH, E.
  - destruct (split_on sep s) as [|p ps] eqn:Hs; [done|].
    destruct ps as [|q ps]; [simpl in *; by rewrite IH|].
    rewrite join_cons in IH |- * by done. simpl in *. by rewrite IH.
Qed.

Lemma split_on_no_sep sep p : sep ∉ p -> split_on sep p = [p].
Proof.
  induction p as [|c p IH]; [done|]. rewrite not_elem_of_cons. intros [Hc Hp]. simpl.
  rewrite decide_False by done. by rewrite IH.
Qed.

Lemma split_on_app sep p s : sep ∉ p -> split_on sep (p ++ sep :: s) = p :: split_on sep s.
Proof.
  induction p as [|c p IH]; simpl; [by rewrite decide_True|]. rewrite not_elem_of_cons. intros [Hc Hp].
  rewrite decide_False by done. by rewrite IH.
Qed.

Lemma path_char_not_slash c : path_char c = true -> c <> slash.
Proof. by intros H ->. Qed.
Lemma path_char_not_space c : path_char c = true -> c <> space.
Proof. by intros H ->. Qed.

Lemma validComponent_no_slash p : validComponent p = true -> slash ∉ p.
Proof.
  unfold validComponent. intros H Hin%list_elem_of_In. bool_inv. rewrite forallb_forall in *.
  apply (path_char_not_slash slash); [auto|done].
Qed.

Definition plain_byte (c : ascii) : Prop := path_char c = true \/ c = slash.

Lemma ValidAbsPath_inv path :
  ValidAbsPath path = true ->
  exists rest, path = slash :: rest /\ forallb validComponent (split_on slash rest) = true.
Proof.
  destruct path as [|c rest]; [done|]. unfold ValidAbsPath.
  destruct (bool_decide (c = slash)) eqn:Hc; [|done]. cbn [negb].
  destruct (bool_decide (rest = [])); [done|]. destruct (contains2 _ _ _); [done|].
  destruct (bool_decide (List.last _ _ = _)); [done|]. intros Hall. bool_inv. subst. by exists rest.
Qed.

Lemma validComponent_bytes p : validComponent p = true -> Forall (fun c => path_char c = true) p.
Proof.
  unfold validComponent. intros H. bool_inv. apply Forall_forall. intros x Hx%list_elem_of_In.
  rewrite forallb_forall in *. auto.
Qed.

(** Every byte of a valid path is a path character or a separator. *)
Lemma ValidAbsPath_bytes path : ValidAbsPath path = true -> Forall plain_byte path.
Proof.
  intros (rest & -> & Hall)%ValidAbsPath_inv. constructor; [by right|].
  rewrite <- (join_split slash rest). revert Hall. generalize (split_on slash rest). clear.
  induction l as [|p ps IH]; [constructor|]. simpl. intros [Hp Hps]%andb_true_iff.
  assert (Forall plain_byte p) as Hbytes.
  { eapply Forall_impl; [by apply validComponent_bytes|]. intros; by left. }
  destruct ps; [done|]. apply Forall_app. split; [done|]. constructor; [by right|]. by apply IH.
Qed.

Lemma contains2_cons a b x s : contains2 a b (x :: s) = false -> contains2 a b s = false.
Proof. destruct s as [|y s]; [done|]. simpl. by intros [_ ?]%orb_false_iff. Qed.

Lemma contains2_skip a b x s : x <> a -> contains2 a b s = false -> contains2 a b (x :: s) = false.
Proof.
  intros Hx Hs. destruct s as [|y s]; [done|]. simpl in *. rewrite Hs, orb_false_r.
  apply bool_decide_eq_false. naive_solver.
Qed.

(** Without empty components there is no doubled and no trailing separator. *)
Lemma nonempty_components s :
  Forall (fun p => p <> []) (split_on slash s) ->
  contains2 slash slash (slash :: s) = false /\ List.last s slash <> slash.
Proof.
  induction s as [s IH] using (induction_ltof1 _ (@length ascii)). unfold ltof in IH.
  destruct s as [|c s]; simpl split_on; [by intros [[] _]%Forall_cons|].
  case_decide as Hc; [by intros [[] _]%Forall_cons|].
  destruct s as [|d s]; [by intros _; simpl; rewrite bool_decide_eq_false_2 by naive_solver|].
  simpl split_on. case_decide as Hd.
  - intros [_ Hps]%Forall_cons. destruct (IH s ltac:(simpl; lia) Hps) as [H1 H2]. subst d. split.
    + change (bool_decide (slash = slash /\ c = slash) || contains2 slash slash (c :: slash :: s) = false).
      rewrite bool_decide_eq_false_2 by naive_solver. by apply contains2_skip.
    + by destruct s.
  - destruct (split_on slash s) as [|p ps] eqn:E; [by destruct (split_on_nonempty slash s)|].
    intros [_ Hps]%Forall_cons. destruct (IH (d :: s) ltac:(simpl; lia)) as [H1 H2].
    { simpl. rewrite decide_False by done. rewrite E. by constructor. }
    split; [|done]. apply contains2_cons in H1. change (contains2 slash slash (slash :: c :: d :: s))
      with (bool_decide (slash = slash /\ c = slash) || contains2 slash slash (c :: d :: s)).
    rewrite bool_decide_eq_false_2 by naive_solver. by apply contains2_skip.
Qed.

Lemma valid_components_nonempty l : forallb validComponent l = true -> Forall (fun p => p <> []) l.
Proof.
  rewrite forallb_forall. intros H. apply Forall_forall. intros p Hp%list_elem_of_In ->. by apply H in Hp.
Qed.

(** The grammar: a slash, then valid components separated by slashes. *)
Lemma ValidAbsPath_slash rest : ValidAbsPath (slash :: rest) = forallb validComponent (split_on slash rest).
Proof.
  destruct (forallb validComponent (split_on slash rest)) eqn:E.
  - destruct (nonempty_components rest (valid_components_nonempty _ E)) as [H1 H2].
    unfold ValidAbsPath. rewrite H1, E. simpl negb. destruct rest as [|c rest]; [done|].
    rewrite bool_decide_eq_false_2 by done. by rewrite bool_decide_eq_false_2 by (by destruct rest).
  - destruct (ValidAbsPath (slash :: rest)) eqn:Hv; [|done].
    apply ValidAbsPath_inv in Hv as (r & [= <-] & ?). congruence.
Qed.

Lemma split_on_join sep a b : split_on sep (a ++ sep :: b) = split_on sep a ++ split_on sep b.
Proof.
  induction a as [|c a IH]; simpl; [by rewrite decide_True|]. rewrite IH. case_decide; [done|].
  destruct (split_on sep a) eqn:E; [by destruct (split_on_nonempty sep a)|done].
Qed.

Lemma cut_last_Some sep s p q : cut_last sep s = Some (p, q) -> s = p ++ sep :: q /\ sep ∉ q.
Proof.
  assert (forall s, cut_last sep s = None -> sep ∉ s) as Hnone.
  { clear. induction s as [|c s IH]; simpl; [set_solver|]. destruct (cut_last sep s) as [[]|]; [done|].
    case_decide; [done|]. intros _. rewrite not_elem_of_cons. auto. }
  revert p. induction s as [|c s IH]; simpl; [done|]. intros p. destruct (cut_last sep s) as [[p' q']|] eqn:E.
  - intros [= <- <-]. destruct (IH p' eq_refl) as [-> ?]. done.
  - case_decide; [|done]. intros [= <- <-]. subst. split; [done|auto].
Qed.

Lemma cut_last_None sep s : cut_last sep s = None -> sep ∉ s.
Proof.
  induction s as [|c s IH]; simpl; [set_solver|]. destruct (cut_last sep s) as [[]|]; [done|].
  case_decide; [done|]. intros _. rewrite not_elem_of_cons. auto.
Qed.

Lemma cut_spaces_Some s p q : cut_spaces s = Some (p, q) -> s = p ++ space :: space :: q.
Proof.
  revert p. induction s as [|a s IH]; [done|]. intros p. destruct s as [|b s]; [done|].
  change (cut_spaces (a :: b :: s)) with
    (if decide (a = space /\ b = space) then Some ([], s)
     else match cut_spaces (b :: s) with Some (p, q) => Some (a :: p, q) | None => None end).
  case_decide as E.
  - intros [= <- <-]. by destruct E as [-> ->].
  - destruct (cut_spaces (b :: s)) as [[p' q']|]; [|done]. intros [= <- <-]. by rewrite (IH p' eq_refl).
Qed.

Lemma cut_spaces_app p q : space ∉ p -> cut_spaces (p ++ space :: space :: q) = Some (p, q).
Proof.
  induction p as [|a p IH]; [done|]. rewrite not_elem_of_cons. intros [Ha Hp].
  specialize (IH Hp). simpl app. destruct (p ++ space :: space :: q) as [|b l] eqn:E; [by destruct p|].
  change (cut_spaces (a :: b :: l)) with
    (if decide (a = space /\ b = space) then Some ([], l)
     else match cut_spaces (b :: l) with Some (p, q) => Some (a :: p, q) | None => None end).
  rewrite IH. by rewrite decide_False by naive_solver.
Qed.

Lemma count_byte_app c s t : count_byte c (s ++ t) = (count_byte c s + count_byte c t)%nat.
Proof. induction s as [|x s IH]; simpl; [done|]. rewrite IH. lia. Qed.

Lemma count_byte_zero c s : c ∉ s -> count_byte c s = O.
Proof.
  induction s as [|x s IH]; simpl; [done|]. rewrite not_elem_of_cons. intros [? ?]. rewrite decide_False by done. auto.
Qed.

Lemma has_byte_false c s : has_byte c s = false <-> c ∉ s.
Proof. apply bool_decide_eq_false. Qed.

(** A byte that no path and no digest contains. *)
Lemma plain_not_elem c s : Forall plain_byte s -> path_char c = false -> c <> slash -> c ∉ s.
Proof. rewrite Forall_forall. intros H Hc Hs Hin. destruct (H c Hin); congruence. Qed.

Lemma digest_not_elem c s : validDigest s = true -> hex_char c = false -> c ∉ s.
Proof.
  unfold validDigest. intros [_ H]%andb_true_iff Hc Hin%list_elem_of_In. rewrite forallb_forall in H.
  apply H in Hin. congruence.
Qed.

(** A record that parses is the canonical one. *)
Lemma ParseSHA256Sum_canonical body path digest :
  ParseSHA256Sum body path = Some digest ->
  body = digest ++ [space; space] ++ path ++ [newline] /\ validDigest digest = true.
Proof.
  unfold ParseSHA256Sum. destruct (bool_decide (body = [])) eqn:Hne; [done|]. cbn [orb].
  destruct (_ <? _); [done|]. destruct (has_byte zero body); [done|].
  destruct (negb (Nat.eqb _ 1)); [done|]. cbn [orb].
  destruct (bool_decide (List.last body zero = newline)) eqn:Hlast; [|done]. cbn [negb].
  destruct (has_byte newline _ || _); [done|].
  destruct (cut_spaces (removelast body)) as [[d rest]|] eqn:Hcut; [|done].
  destruct (has_byte space rest || _); [done|].
  destruct (bool_decide (rest = path)) eqn:Hpath; [|done]. cbn [negb].
  destruct (validDigest d) eqn:Hd; [|done]. intros [= <-]. bool_inv. split; [|done].
  rewrite (app_removelast_last zero Hne), Hlast, (cut_spaces_Some _ _ _ Hcut), Hpath. by rewrite <- app_assoc.
Qed.

(** The canonical record of a valid path and digest parses, if it fits. *)
Lemma ParseSHA256Sum_record digest path :
  ValidAbsPath path = true -> validDigest digest = true -> Z.of_nat (length path) <= MaxChecksumBytes - 67 ->
  ParseSHA256Sum (digest ++ [space; space] ++ path ++ [newline]) path = Some digest.
Proof.
  intros Hp Hd Hlen. pose proof (ValidAbsPath_bytes _ Hp) as Hpb.
  assert (forall c, hex_char c = false -> path_char c = false -> c <> slash -> c <> space ->
    c ∉ digest ++ [space; space] ++ path) as Hnot.
  { intros c H1 H2 H3 H4. rewrite !elem_of_app. intros [Hin|[Hin|Hin]].
    - by eapply digest_not_elem.
    - rewrite !elem_of_cons, elem_of_nil in Hin. naive_solver.
    - by eapply plain_not_elem. }
  assert (digest ++ [space; space] ++ path ++ [newline] = (digest ++ [space; space] ++ path) ++ [newline]) as ->.
  { by rewrite <- !app_assoc. }
  unfold ParseSHA256Sum. rewrite removelast_last, last_last.
  rewrite bool_decide_eq_false_2 by (by destruct digest). cbn [orb].
  assert (length digest = 64%nat) as Hl by (by apply andb_true_iff in Hd as [?%Nat.eqb_eq _]).
  destruct (Z.ltb_spec MaxChecksumBytes (Z.of_nat (length ((digest ++ [space; space] ++ path) ++ [newline])))) as [Hlt|_].
  { rewrite !length_app in Hlt. simpl in Hlt. unfold MaxChecksumBytes in *. lia. }
  rewrite (proj2 (has_byte_false _ _)).
  2: { rewrite elem_of_app, elem_of_cons, elem_of_nil. intros [Hin|[Hin|[]]]; [|done]. by apply (Hnot zero). }
  rewrite count_byte_app, count_byte_zero by (by apply Hnot). rewrite bool_decide_eq_true_2 by done.
  rewrite !(proj2 (has_byte_false _ _)) by (by apply Hnot).
  change ([space; space] ++ path) with (space :: space :: path).
  rewrite cut_spaces_app by (by eapply digest_not_elem).
  rewrite !(proj2 (has_byte_false _ _)) by (by eapply plain_not_elem).
  rewrite bool_decide_eq_true_2 by done. cbn. by rewrite Hd.
Qed.

(** ** Properties *)

(** Checksum records round trip.  Formatting succeeds exactly on a valid
    path and digest whose record fits the size budget, the record parses back
    to its digest, and a record that parses for a valid path is the one
    formatting produces: there is no second spelling. *)
Theorem checksum_round_trip digest path body :
  (FormatSHA256Sum digest path = Some body ->
     ParseSHA256Sum body path = Some digest /\ Z.of_nat (length body) <= MaxChecksumBytes) /\
  (ValidAbsPath path = true -> ParseSHA256Sum body path = Some digest -> FormatSHA256Sum digest path = Some body) /\
  (is_Some (FormatSHA256Sum digest path) <->
     ValidAbsPath path = true /\ validDigest digest = true /\ Z.of_nat (length path) <= MaxChecksumBytes - 67).
Proof.
  assert (forall p, FormatSHA256Sum digest path = Some p -> ValidAbsPath path = true /\ validDigest digest = true /\
    p = digest ++ [space; space] ++ path ++ [newline] /\ ParseSHA256Sum p path = Some digest) as Hfmt.
  { unfold FormatSHA256Sum. intros p. destruct (ValidAbsPath path); [|done]. destruct (validDigest digest) eqn:Hd; [|done].
    cbn [negb]. destruct (ParseSHA256Sum _ _) as [d'|] eqn:Hparse; [|done]. intros [= <-]. split_and!; try done.
    etransitivity; [exact Hparse|]. f_equal. symmetry. apply ParseSHA256Sum_canonical in Hparse as [Heq _].
    by apply app_inv_tail in Heq. }
  assert (forall p, ParseSHA256Sum p path = Some digest -> Z.of_nat (length p) <= MaxChecksumBytes) as Hsize.
  { unfold ParseSHA256Sum. intros p. destruct (bool_decide _); [done|]. cbn [orb].
    destruct (Z.ltb_spec MaxChecksumBytes (Z.of_nat (length p))); [done|]. intros _. lia. }
  split_and!.
  - intros (_ & _ & _ & Hp)%Hfmt. auto.
  - intros Hv Hp. destruct (ParseSHA256Sum_canonical _ _ _ Hp) as [-> Hd].
    unfold FormatSHA256Sum. rewrite Hv, Hd. cbn [negb]. by rewrite Hp.
  - split.
    + intros [p Hf]. destruct (Hfmt p Hf) as (Hv & Hd & -> & Hp). split_and!; [done|done|].
      apply Hsize in Hp. apply andb_true_iff in Hd as [Hl%Nat.eqb_eq _].
      rewrite !length_app in Hp. simpl in Hp. lia.
    + intros (Hv & Hd & Hlen). unfold FormatSHA256Sum. rewrite Hv, Hd. cbn [negb].
      rewrite ParseSHA256Sum_record by done. eauto.
Qed.

(** Splitting a valid path always succeeds: the leaf is a valid component,
    the parent is the root or again a valid path, and together they spell the
    path. *)
Theorem split_parent_leaf path :
  ValidAbsPath path = true ->
  exists parent leaf, SplitParentLeaf path = Some (parent, leaf) /\ validComponent leaf = true /\
    (parent = [slash] /\ path = slash :: leaf \/ ValidAbsPath parent = true /\ path = parent ++ slash :: leaf).
Proof.
  intros Hv. unfold SplitParentLeaf. rewrite Hv. cbn [negb].
  destruct (ValidAbsPath_inv _ Hv) as (rest & -> & Hall).
  destruct (cut_last slash (slash :: rest)) as [[p q]|] eqn:Hcut.
  2: { apply cut_last_None in Hcut. rewrite not_elem_of_cons in Hcut. naive_solver. }
  apply cut_last_Some in Hcut as [Heq Hq]. destruct p as [|c p]; simpl in Heq.
  - injection Heq as ->. exists [slash], q. split_and!; [done| |by left].
    rewrite split_on_no_sep in Hall by done. by apply andb_true_iff in Hall as [? _].
  - injection Heq as <- ->. exists (slash :: p), q. rewrite split_on_join, forallb_app in Hall.
    apply andb_true_iff in Hall as [Hp Hleaf]. rewrite split_on_no_sep in Hleaf by done.
    split_and!; [done|by apply andb_true_iff in Hleaf as [? _]|right]. by rewrite ValidAbsPath_slash.
Qed.

(** ** Witnesses *)

Module OpsFsDemo.
Definition b (s : string) : bytes := String.list_ascii_of_string s.
Definition path : bytes := b "/var/lib/commons/daily.db".
Definition digest : bytes := b "0123456789abcdef0123456789abcdef0123456789abcdef0123456789abcdef".
End OpsFsDemo.

Lemma checksum_round_trip_witness :
  exists body, FormatSHA256Sum OpsFsDemo.digest OpsFsDemo.path = Some body /\
    ParseSHA256Sum body OpsFsDemo.path = Some OpsFsDemo.digest.
Proof.
  assert (exists body, FormatSHA256Sum OpsFsDemo.digest OpsFsDemo.path = Some body) as [body Hb]
    by (eexists; vm_compute; reflexivity).
  exists body. split; [exact Hb|]. apply (checksum_round_trip OpsFsDemo.digest OpsFsDemo.path body). exact Hb.
Defined.

Lemma split_parent_leaf_witness :
  exists parent leaf, SplitParentLeaf OpsFsDemo.path = Some (parent, leaf) /\ validComponent leaf = true.
Proof.
  destruct (split_parent_leaf OpsFsDemo.path) as (parent & leaf & H1 & H2 & _); [vm_compute; reflexivity|].
  exists parent, leaf. split; [exact H1|exact H2].
Defined.
