(* ===== verification/ArchDB.v ===== *)
(** * The archaeology tables

    Sessions, candidates, native batches and jobs, reported outcomes, human
    resolutions and the durable persistence intents
    ([migrations/010] to [migrations/016]), beside the Project Core tables
    they refer to.  A table is a finite map from its primary key; timestamp
    columns hold instants. *)

From S2P Require Import Prelude GoText CoreDB.
From stdpp Require Import base gmap strings list sets.
From Stdlib Require Import ZArith Lia.

Local Open Scope Z_scope.

(** ** Execution policy, [internal/domain/project_archaeology.go] *)

Record ArchaeologySources := { Git : bool; Docs : bool; CodexHistory : bool }.
Record ArchaeologyExecutionPolicy := { Depth : string; Sources : ArchaeologySources }.
Record ArchaeologyExecutionLimits := {
  MaxOutcomes : Z; MaxProvenancePerOutcome : Z; MaxContributorsPerOutcome : Z;
  MaxHistoricalAliases : Z; MaxHistoricalTasks : Z; MaxSourcesExamined : Z }.

Definition Limits (p : ArchaeologyExecutionPolicy) : option ArchaeologyExecutionLimits :=
  if negb (Git (Sources p)) && negb (Docs (Sources p)) && negb (CodexHistory (Sources p)) then None
  else if seqb (Depth p) "quick" then
    Some {| MaxOutcomes := 2; MaxProvenancePerOutcome := 4; MaxContributorsPerOutcome := 1;
            MaxHistoricalAliases := 2; MaxHistoricalTasks := 2; MaxSourcesExamined := 50 |}
  else if seqb (Depth p) "standard" then
    Some {| MaxOutcomes := 2; MaxProvenancePerOutcome := 4; MaxContributorsPerOutcome := 1;
            MaxHistoricalAliases := 3; MaxHistoricalTasks := 3; MaxSourcesExamined := 250 |}
  else if seqb (Depth p) "deep" then
    Some {| MaxOutcomes := 2; MaxProvenancePerOutcome := 4; MaxContributorsPerOutcome := 1;
            MaxHistoricalAliases := 3; MaxHistoricalTasks := 4; MaxSourcesExamined := 1000 |}
  else None.

Definition Allows (p : ArchaeologyExecutionPolicy) (kind : string) : bool :=
  if seqb kind "git" then Git (Sources p)
  else if seqb kind "docs" then Docs (Sources p)
  else if seqb kind "codex_history" then CodexHistory (Sources p)
  else false.

(** ** Rows *)

Record session_row := {
  se_principal : string; se_state : string; se_policy : ArchaeologyExecutionPolicy; se_max : Z;
  se_revision : Z; se_updated : Z }.

Record candidate_row := {
  ca_project : string; ca_name : string; ca_from_root : bool; ca_selected : bool }.

Record mapping_row := {
  mp_project : string; mp_principal : string; mp_purpose : string; mp_created : bool; mp_mapped : Z }.

Record batch_row := {
  ba_session : string; ba_request : string; ba_digest : string; ba_state : string; ba_max : Z;
  ba_policy : ArchaeologyExecutionPolicy; ba_attested : bool; ba_ack : option Z; ba_ack_by : string;
  ba_created : Z; ba_updated : Z }.

Record job_row := {
  jo_batch : string; jo_session : string; jo_candidate : string; jo_project : string; jo_name : string;
  jo_state : string; jo_thread : string; jo_codex : string; jo_turn : string; jo_phase : string;
  jo_sources : Z; jo_duration : option Z; jo_report : option string; jo_error : string;
  jo_created : Z; jo_started : option Z; jo_reported : option Z; jo_terminal : option Z; jo_updated : Z }.

Record outcome_row := {
  oc_job : string; oc_project : string; oc_title : string; oc_summary : string; oc_sources : Z;
  oc_proposal : string; oc_created : Z }.
Record provenance_row := { pv_kind : string; pv_stable : string; pv_digest : string; pv_occurred : Z }.
Record contributor_row := {
  co_contribution : string; co_strength : string; co_uncertainty : string; co_confidence : string }.

Record resolution_row := {
  re_session : string; re_job : string; re_principal : string; re_request : string; re_digest : string;
  re_resolution : string; re_thread : string; re_turn : string; re_created : Z }.

Record arch_request_row := { ar_operation : string; ar_digest : string; ar_session : string; ar_recorded : Z }.

Record intent_row := {
  in_job : string; in_operation : string; in_digest : string; in_payload : string; in_state : string;
  in_attempts : Z; in_next : option Z; in_owner : string; in_expires : option Z; in_error : string;
  in_applied : option Z; in_created : Z; in_updated : Z }.

Record ADB := mkADB {
  core : DB;
  a_sessions : gmap string session_row;
  a_candidates : gmap (string * string) candidate_row;
  a_mappings : gmap (string * string) mapping_row;
  a_batches : gmap string batch_row;
  a_jobs : gmap string job_row;
  a_outcomes : gmap string outcome_row;
  a_provenance : gmap (string * Z) provenance_row;
  a_contributors : gmap (string * string) contributor_row;
  a_resolutions : gmap string resolution_row;
  a_requests : gmap (string * string) arch_request_row;
  a_intents : gmap string intent_row;
}.

Definition set_core (x : DB) (d : ADB) : ADB :=
  mkADB x (a_sessions d) (a_candidates d) (a_mappings d) (a_batches d) (a_jobs d) (a_outcomes d) (a_provenance d) (a_contributors d) (a_resolutions d) (a_requests d) (a_intents d).
Definition set_a_sessions (x : gmap string session_row) (d : ADB) : ADB :=
  mkADB (core d) x (a_candidates d) (a_mappings d) (a_batches d) (a_jobs d) (a_outcomes d) (a_provenance d) (a_contributors d) (a_resolutions d) (a_requests d) (a_intents d).
Definition set_a_mappings (x : gmap (string * string) mapping_row) (d : ADB) : ADB :=
  mkADB (core d) (a_sessions d) (a_candidates d) x (a_batches d) (a_jobs d) (a_outcomes d) (a_provenance d) (a_contributors d) (a_resolutions d) (a_requests d) (a_intents d).
Definition set_a_batches (x : gmap string batch_row) (d : ADB) : ADB :=
  mkADB (core d) (a_sessions d) (a_candidates d) (a_mappings d) x (a_jobs d) (a_outcomes d) (a_provenance d) (a_contributors d) (a_resolutions d) (a_requests d) (a_intents d).
Definition set_a_jobs (x : gmap string job_row) (d : ADB) : ADB :=
  mkADB (core d) (a_sessions d) (a_candidates d) (a_mappings d) (a_batches d) x (a_outcomes d) (a_provenance d) (a_contributors d) (a_resolutions d) (a_requests d) (a_intents d).
Definition set_a_outcomes (x : gmap string outcome_row) (d : ADB) : ADB :=
  mkADB (core d) (a_sessions d) (a_candidates d) (a_mappings d) (a_batches d) (a_jobs d) x (a_provenance d) (a_contributors d) (a_resolutions d) (a_requests d) (a_intents d).
Definition set_a_provenance (x : gmap (string * Z) provenance_row) (d : ADB) : ADB :=
  mkADB (core d) (a_sessions d) (a_candidates d) (a_mappings d) (a_batches d) (a_jobs d) (a_outcomes d) x (a_contributors d) (a_resolutions d) (a_requests d) (a_intents d).
Definition set_a_contributors (x : gmap (string * string) contributor_row) (d : ADB) : ADB :=
  mkADB (core d) (a_sessions d) (a_candidates d) (a_mappings d) (a_batches d) (a_jobs d) (a_outcomes d) (a_provenance d) x (a_resolutions d) (a_requests d) (a_intents d).
Definition set_a_resolutions (x : gmap string resolution_row) (d : ADB) : ADB :=
  mkADB (core d) (a_sessions d) (a_candidates d) (a_mappings d) (a_batches d) (a_jobs d) (a_outcomes d) (a_provenance d) (a_contributors d) x (a_requests d) (a_intents d).
Definition set_a_requests (x : gmap (string * string) arch_request_row) (d : ADB) : ADB :=
  mkADB (core d) (a_sessions d) (a_candidates d) (a_mappings d) (a_batches d) (a_jobs d) (a_outcomes d) (a_provenance d) (a_contributors d) (a_resolutions d) x (a_intents d).
Definition set_a_intents (x : gmap string intent_row) (d : ADB) : ADB :=
  mkADB (core d) (a_sessions d) (a_candidates d) (a_mappings d) (a_batches d) (a_jobs d) (a_outcomes d) (a_provenance d) (a_contributors d) (a_resolutions d) (a_requests d) x.

Definition adb_empty : ADB := mkADB db_empty ∅ ∅ ∅ ∅ ∅ ∅ ∅ ∅ ∅ ∅ ∅.

(** ** Statements

    The inserts and updates check keys, references, uniqueness and the value
    sets and ranges of their tables.  The length and format checks of text
    columns are left out: the code validates those texts, within the same
    bounds, before it writes them. *)

Definition acheck (ok : bool) (d : ADB) : SqlErr + unit * ADB := if ok then inr (tt, d) else inl SqlConstraint.

(** A statement of the core tables. *)
Definition on_core {A} (st : Stmt DB A) : Stmt ADB A := fun d =>
  match st (core d) with inl e => inl e | inr (a, c) => inr (a, set_core c d) end.

Definition aselect {A} `{Countable K} (tbl : ADB -> gmap K A) (k : K) : ADB -> SqlErr + A := fun d =>
  match tbl d !! k with Some r => inr r | None => inl SqlNoRows end.

(** [SELECT ... FROM archaeology_sessions WHERE principal=?], a unique column *)
Definition session_by_principal (principal : string) : ADB -> SqlErr + (string * session_row) := fun d =>
  match filter (fun e => se_principal e.2 = principal) (map_to_list (a_sessions d)) with
  | e :: _ => inr e
  | [] => inl SqlNoRows
  end.

(** [UPDATE archaeology_sessions SET state=?,revision=revision+1,updated_at=? WHERE id=?] *)
Definition bump_session (id : string) (state : option string) (t : Z) : Stmt ADB unit := fun d =>
  match a_sessions d !! id with
  | None => inr (tt, d)
  | Some r =>
      if se_revision r + 1 <=? maxInt64 then
        inr (tt, set_a_sessions (<[id:={| se_principal := se_principal r; se_state := default (se_state r) state;
          se_policy := se_policy r; se_max := se_max r; se_revision := se_revision r + 1; se_updated := t |}]>
          (a_sessions d)) d)
      else inl SqlConstraint
  end.

(** [UPDATE archaeology_native_batches SET state=?,updated_at=? WHERE ...] *)
Definition batch_with (state : string) (t : Z) (b : batch_row) : batch_row :=
  {| ba_session := ba_session b; ba_request := ba_request b; ba_digest := ba_digest b; ba_state := state;
     ba_max := ba_max b; ba_policy := ba_policy b; ba_attested := ba_attested b; ba_ack := ba_ack b;
     ba_ack_by := ba_ack_by b; ba_created := ba_created b; ba_updated := t |}.

Definition update_batches (cond : string -> batch_row -> bool) (f : batch_row -> batch_row) : Stmt ADB unit := fun d =>
  inr (tt, set_a_batches (map_imap (fun id b => Some (if cond id b then f b else b)) (a_batches d)) d).

Definition set_batch_state (id state : string) (t : Z) : Stmt ADB unit :=
  update_batches (fun i _ => seqb i id) (batch_with state t).

(** The partial unique indexes on [thread_id] and [turn_id]. *)
Definition identity_free (d : ADB) (id : string) (r : job_row) : bool :=
  bool_decide (map_Forall (fun i x => i <> id ->
    (jo_thread r <> ""%string -> jo_thread x <> jo_thread r) /\
    (jo_turn r <> ""%string -> jo_turn x <> jo_turn r)) (a_jobs d)).

(** [UPDATE archaeology_native_jobs SET ... WHERE id=? AND ...], with the rows affected *)
Definition update_job (id : string) (cond : job_row -> bool) (f : job_row -> job_row) : Stmt ADB Z := fun d =>
  match a_jobs d !! id with
  | None => inr (0, d)
  | Some r =>
      if cond r then
        if identity_free d id (f r) then inr (1, set_a_jobs (<[id:=f r]> (a_jobs d)) d) else inl SqlConstraint
      else inr (0, d)
  end.

(** The same over many rows, for updates that keep thread and turn. *)
Definition update_jobs (cond : job_row -> bool) (f : job_row -> job_row) : Stmt ADB unit := fun d =>
  inr (tt, set_a_jobs ((fun r => if cond r then f r else r) <$> a_jobs d) d).

(** [SELECT count] of the jobs that satisfy a condition *)
Definition count_jobs (cond : string -> job_row -> bool) (d : ADB) : Z :=
  Z.of_nat (length (filter (fun e => cond e.1 e.2 = true) (map_to_list (a_jobs d)))).

Definition job_batch_candidate_free (d : ADB) (batch candidate project : string) : bool :=
  bool_decide (map_Forall (fun _ r => jo_batch r = batch -> jo_candidate r <> candidate /\ jo_project r <> project)
                 (a_jobs d)).

Definition insert_job (id : string) (r : job_row) : Stmt ADB unit := fun d =>
  acheck (absent (a_jobs d) id && present (a_batches d) (jo_batch r) && present (a_sessions d) (jo_session r)
          && present (projects (core d)) (jo_project r) && present (a_candidates d) (jo_session r, jo_candidate r)
          && job_batch_candidate_free d (jo_batch r) (jo_candidate r) (jo_project r))
    (set_a_jobs (<[id:=r]> (a_jobs d)) d).

Definition insert_batch (id : string) (r : batch_row) : Stmt ADB unit := fun d =>
  acheck (absent (a_batches d) id && present (a_sessions d) (ba_session r) && (1 <=? ba_max r) && (ba_max r <=? 2)
          && bool_decide (map_Forall (fun _ b => ba_session b = ba_session r -> ba_request b <> ba_request r) (a_batches d)))
    (set_a_batches (<[id:=r]> (a_batches d)) d).

Definition insert_mapping (session candidate : string) (r : mapping_row) : Stmt ADB unit := fun d =>
  acheck (absent (a_mappings d) (session, candidate) && present (projects (core d)) (mp_project r)
          && present (a_candidates d) (session, candidate)
          && bool_decide (map_Forall (fun k m => k.1 = session -> mp_project m <> mp_project r) (a_mappings d)))
    (set_a_mappings (<[(session, candidate):=r]> (a_mappings d)) d).

Definition insert_outcome (id : string) (r : outcome_row) : Stmt ADB unit := fun d =>
  acheck (absent (a_outcomes d) id && present (a_jobs d) (oc_job r) && (1 <=? oc_sources r) && (oc_sources r <=? 1000))
    (set_a_outcomes (<[id:=r]> (a_outcomes d)) d).

Definition insert_provenance (outcome : string) (position : Z) (r : provenance_row) : Stmt ADB unit := fun d =>
  acheck (absent (a_provenance d) (outcome, position) && present (a_outcomes d) outcome
          && (0 <=? position) && (position <=? 99) && isin (pv_kind r) ["git"; "docs"; "codex_history"])
    (set_a_provenance (<[(outcome, position):=r]> (a_provenance d)) d).

Definition insert_contributor (outcome session : string) (r : contributor_row) : Stmt ADB unit := fun d =>
  acheck (absent (a_contributors d) (outcome, session) && present (a_outcomes d) outcome
          && isin (co_confidence r) ["verified"; "supported"; "uncertain"])
    (set_a_contributors (<[(outcome, session):=r]> (a_contributors d)) d).

Definition insert_resolution (id : string) (r : resolution_row) : Stmt ADB unit := fun d =>
  acheck (absent (a_resolutions d) id && present (a_sessions d) (re_session r) && present (a_jobs d) (re_job r)
          && bool_decide (map_Forall (fun _ x =>
               re_job x <> re_job r /\ ~ (re_session x = re_session r /\ re_request x = re_request r)) (a_resolutions d)))
    (set_a_resolutions (<[id:=r]> (a_resolutions d)) d).

Definition insert_arch_request (principal key : string) (r : arch_request_row) : Stmt ADB unit := fun d =>
  acheck (absent (a_requests d) (principal, key) && present (a_sessions d) (ar_session r))
    (set_a_requests (<[(principal, key):=r]> (a_requests d)) d).
