(* ===== verification/HealthMonitor.v ===== *)
(** * The health monitor

    [internal/server/runtime_health.go], its wiring in
    [internal/server/server.go] and the HTTP projection of
    [internal/httpapi/backend.go]: one goroutine probes the store and the
    Codex supervisor, evaluates [RuntimeHealth.Evaluate], tracks the recovery
    of a service that was ready, and publishes snapshot, recovery and
    supervisor facts as one value, from which the notifier's and the HTTP
    views are projected.

    A probe is what its call returned, or [None] when it is not wired; an
    error is a [None] result.  The monitor's own fields, which only its
    goroutine touches, and the publication are one record; [mo_compatCalls]
    and [mo_wakes] are the calls it made of the compatibility probe and of the
    scheduler. *)

From Stdlib Require Import ZArith Lia.
From stdpp Require Import base strings list option gmap.
From S2P Require Import Prelude GoText CoreDB RuntimeHealth Notifier ArchDB.

Local Open Scope Z_scope.

(** ** Probe results *)

Record runtimePersistenceResult := {
  pr_Healthy : bool; pr_Reconciliation : string; pr_Uncertain : Z; pr_PersistenceAttention : bool;
  pr_PersistenceFault : bool }.

Record runtimeSupervisorResult := {
  sr_Configured : bool; sr_Available : bool; sr_Generation : Z; sr_State : string; sr_Attempts : Z; sr_MaxAttempts : Z;
  sr_NextRetryAt : Z; sr_LastHealthyAt : Z; sr_RecoveryActive : bool; sr_RecoverySince : Z; sr_RecoveryExhausted : bool }.

Definition zeroSupervisor (configured : bool) : runtimeSupervisorResult :=
  {| sr_Configured := configured; sr_Available := false; sr_Generation := 0; sr_State := ""; sr_Attempts := 0;
     sr_MaxAttempts := 0; sr_NextRetryAt := zeroTime; sr_LastHealthyAt := zeroTime; sr_RecoveryActive := false;
     sr_RecoverySince := zeroTime; sr_RecoveryExhausted := false |}.

(** What the wired probes of one cycle return. *)
Record runtimeProbes := {
  p_DB : option bool;
  p_Persistence : option (option runtimePersistenceResult);
  p_Supervisor : option (runtimeSupervisorResult * bool);
  p_Account : option (option string);
  p_Compatibility : option (option bool) }.

Record runtimeHealthMeta := {
  me_readyLatched : bool; me_recoverySince : Z; me_recoveryActive : bool; me_recoveryExhausted : bool }.

Record runtimeHealthOptions := { op_RequiredCodex : bool; op_CodexConfigured : bool; op_RecoveryGrace : Z }.

Record runtimePublication := {
  pu_snapshot : Snapshot; pu_meta : runtimeHealthMeta; pu_supervisor : runtimeSupervisorResult }.

Record runtimeHealthMonitor := {
  mo_publication : runtimePublication; mo_readyClosed : bool;
  mo_cacheGeneration : Z; mo_cacheValid : bool; mo_cachedAccount : string; mo_cachedModel : string;
  mo_compatCalls : list Z; mo_wakes : nat }.

(** ** The store's probe *)

Definition count_where {V} (P : V -> bool) (m : gmap string V) : Z :=
  Z.of_nat (size (filter (fun e : string * V => P e.2 = true) m)).

(** The row of the one statement: the reconciliation marker, which is an
    argument, and the counts over the jobs and the intents. *)
Record persistence_row := { ro_reconciliation : option string; ro_uncertain : Z; ro_pending : Z; ro_leased : Z; ro_blocked : Z }.

Definition persistence_counts (reconciliation : option string) (d : ADB) : persistence_row :=
  {| ro_reconciliation := reconciliation;
     ro_uncertain := count_where (fun j => seqb (jo_state j) "uncertain") (a_jobs d);
     ro_pending := count_where (fun i => seqb (in_state i) "pending") (a_intents d);
     ro_leased := count_where (fun i => seqb (in_state i) "leased") (a_intents d);
     ro_blocked := count_where (fun i => seqb (in_state i) "blocked") (a_intents d) |}.

(** [probe.Persistence] of [runtimeHealthProbeForStore]; a missing marker
    does not scan. *)
Definition storePersistence (r : persistence_row) : option runtimePersistenceResult :=
  match ro_reconciliation r with
  | None => None
  | Some reconciliation =>
      let attention := (0 <? ro_pending r) || (0 <? ro_leased r) || (0 <? ro_blocked r) in
      let healthy := negb attention in
      let reconciliation :=
        if seqb reconciliation "attention" && (ro_uncertain r =? 0) && healthy then "healthy"%string else reconciliation in
      if seqb reconciliation "" || seqb reconciliation "unknown" then
        Some {| pr_Healthy := false; pr_Reconciliation := reconciliation; pr_Uncertain := ro_uncertain r;
                pr_PersistenceAttention := attention; pr_PersistenceFault := false |}
      else Some {| pr_Healthy := healthy; pr_Reconciliation := reconciliation; pr_Uncertain := ro_uncertain r;
                   pr_PersistenceAttention := attention; pr_PersistenceFault := false |}
  end.

(** The server adds what the scheduler reports. *)
Definition serverPersistence (schedulerFault schedulerAttention : bool) (base : option runtimePersistenceResult)
    : option runtimePersistenceResult :=
  match base with
  | None => None
  | Some v => Some {| pr_Healthy := pr_Healthy v; pr_Reconciliation := pr_Reconciliation v; pr_Uncertain := pr_Uncertain v;
                      pr_PersistenceAttention := pr_PersistenceAttention v || schedulerAttention;
                      pr_PersistenceFault := schedulerFault |}
  end.

(** ** The client's probe *)

(** The reported facts of a managed client, and its [Available]. *)
Record processSnapshot := {
  ps_State : string; ps_Attempts : Z; ps_MaxAttempts : Z; ps_NextRetryAt : Z; ps_LastHealthyAt : Z; ps_LastFailureAt : Z;
  ps_Generation : Z }.

Definition clientSupervisor (available : bool) (reporter : option processSnapshot) : runtimeSupervisorResult :=
  match reporter with
  | None =>
      {| sr_Configured := true; sr_Available := available; sr_Generation := 0; sr_State := ""; sr_Attempts := 0;
         sr_MaxAttempts := 0; sr_NextRetryAt := zeroTime; sr_LastHealthyAt := zeroTime; sr_RecoveryActive := false;
         sr_RecoverySince := zeroTime; sr_RecoveryExhausted := false |}
  | Some s =>
      {| sr_Configured := true; sr_Available := seqb (ps_State s) "available" && available;
         sr_Generation := ps_Generation s; sr_State := ps_State s; sr_Attempts := ps_Attempts s;
         sr_MaxAttempts := ps_MaxAttempts s; sr_NextRetryAt := ps_NextRetryAt s; sr_LastHealthyAt := ps_LastHealthyAt s;
         sr_RecoveryActive := isin (ps_State s) ["recovering"; "degraded"; "exhausted"];
         sr_RecoverySince := ps_LastFailureAt s; sr_RecoveryExhausted := seqb (ps_State s) "exhausted" |}
  end.

(** ** Observations *)

Definition supervisorRunningObservation (status : string) : bool := seqb status "running" || seqb status "available".

Definition clampRuntimeTimestamp (value observedAt : Z) : Z :=
  if IsZero value then zeroTime
  else if negb (IsZero observedAt) && (observedAt <? value) then observedAt else value.

Definition clampRecoveryTimestamp (value observedAt : Z) (status : string) : Z :=
  let value := clampRuntimeTimestamp value observedAt in
  if negb (IsZero value) then value
  else if negb (IsZero observedAt) && isin status ["degraded"; "recovering"; "exhausted"] then observedAt else zeroTime.

Definition supervisorStatus (v : runtimeSupervisorResult) (probeErr : bool) : string :=
  if isin (sr_State v) ["starting"; "available"; "degraded"; "recovering"; "exhausted"; "closed"] then sr_State v
  else if sr_RecoveryExhausted v then "exhausted"
  else if sr_RecoveryActive v then "recovering"
  else if sr_Available v then "available"
  else if probeErr then "recovering" else "starting".

Definition runtimeSupervisorObservation (v : runtimeSupervisorResult) (probeErr : bool) (observedAt : Z)
    : SupervisorObservation :=
  let status := supervisorStatus v probeErr in
  {| sv_Status := status; sv_Generation := sr_Generation v;
     sv_LastSuccessAt := clampRuntimeTimestamp (sr_LastHealthyAt v) observedAt;
     sv_LastFailureAt := clampRecoveryTimestamp (sr_RecoverySince v) observedAt status |}.

Definition accountObservation (state : string) : string :=
  if seqb state "signed_in" then "ready" else if seqb state "signed_out" then "not_ready" else "unknown".

Definition modelObservation (value : string) : string :=
  if isin value ["compatible"; "incompatible"; "unavailable"] then value else "unknown".

Definition observation_of (status : string) : Observation :=
  {| ob_Status := status; ob_LastSuccessAt := zeroTime; ob_LastFailureAt := zeroTime |}.

Definition databaseStatus (p : runtimeProbes) : string :=
  match p_DB p with None => "unknown" | Some true => "healthy" | Some false => "unavailable" end.

Definition persistenceStatus (p : runtimeProbes) : string :=
  match p_Persistence p with
  | None => "unknown"
  | Some None => "failed"
  | Some (Some v) =>
      if pr_PersistenceFault v then "failed" else if pr_PersistenceAttention v then "attention"
      else if pr_Healthy v then "healthy" else "unknown"
  end.

Definition reconciliationStatus (p : runtimeProbes) : string :=
  match p_Persistence p with
  | None => "unknown"
  | Some None => "failed"
  | Some (Some v) =>
      let status := if isin (pr_Reconciliation v) ["healthy"; "attention"; "failed"] then pr_Reconciliation v else "unknown" in
      if (0 <? pr_Uncertain v) && seqb status "healthy" then "attention" else status
  end.

(** ** The cached capability probes *)

Definition invalidate (m : runtimeHealthMonitor) : runtimeHealthMonitor :=
  {| mo_publication := mo_publication m; mo_readyClosed := mo_readyClosed m; mo_cacheGeneration := mo_cacheGeneration m;
     mo_cacheValid := false; mo_cachedAccount := mo_cachedAccount m; mo_cachedModel := mo_cachedModel m;
     mo_compatCalls := mo_compatCalls m; mo_wakes := mo_wakes m |}.

(** The account and model observations, and the monitor with its cache. *)
Definition probeCodexForGeneration (p : runtimeProbes) (generation previous : Z) (m : runtimeHealthMonitor)
    : runtimeHealthMonitor * string * string :=
  let modelCached := mo_cacheValid m && (mo_cacheGeneration m =? generation) && (previous =? generation) in
  let account := match p_Account p with Some (Some state) => state | _ => "unknown" end in
  let model :=
    if modelCached then mo_cachedModel m
    else match p_Compatibility p with
         | None => "unknown"
         | Some None => "unavailable"
         | Some (Some true) => "compatible"
         | Some (Some false) => "incompatible"
         end in
  let calls :=
    if negb modelCached && bool_decide (is_Some (p_Compatibility p)) then mo_compatCalls m ++ [generation] else mo_compatCalls m in
  ({| mo_publication := mo_publication m; mo_readyClosed := mo_readyClosed m;
      mo_cacheGeneration := generation; mo_cacheValid := true; mo_cachedAccount := account; mo_cachedModel := model;
      mo_compatCalls := calls; mo_wakes := mo_wakes m |},
   accountObservation account, modelObservation model).

Section Monitor.
Context (options : runtimeHealthOptions).

Definition with_times (v : runtimeSupervisorResult) (o : SupervisorObservation) : runtimeSupervisorResult :=
  {| sr_Configured := sr_Configured v; sr_Available := sr_Available v; sr_Generation := sr_Generation v;
     sr_State := sr_State v; sr_Attempts := sr_Attempts v; sr_MaxAttempts := sr_MaxAttempts v;
     sr_NextRetryAt := sr_NextRetryAt v; sr_LastHealthyAt := sv_LastSuccessAt o; sr_RecoveryActive := sr_RecoveryActive v;
     sr_RecoverySince := sv_LastFailureAt o; sr_RecoveryExhausted := sr_RecoveryExhausted v |}.

Definition with_state (v : runtimeSupervisorResult) (state : string) : runtimeSupervisorResult :=
  {| sr_Configured := sr_Configured v; sr_Available := sr_Available v; sr_Generation := sr_Generation v;
     sr_State := state; sr_Attempts := sr_Attempts v; sr_MaxAttempts := sr_MaxAttempts v;
     sr_NextRetryAt := sr_NextRetryAt v; sr_LastHealthyAt := sr_LastHealthyAt v; sr_RecoveryActive := sr_RecoveryActive v;
     sr_RecoverySince := sr_RecoverySince v; sr_RecoveryExhausted := sr_RecoveryExhausted v |}.

Definition supervisor_unset (status : string) : SupervisorObservation :=
  {| sv_Status := status; sv_Generation := 0; sv_LastSuccessAt := zeroTime; sv_LastFailureAt := zeroTime |}.

(** The Codex side of a probe: the supervisor's result and observation,
    whether Codex is available, and the account and model observations. *)
Definition probe_codex (p : runtimeProbes) (previous : Snapshot) (now : Z) (m : runtimeHealthMonitor)
    : runtimeHealthMonitor * runtimeSupervisorResult * SupervisorObservation * bool * string * string :=
  if negb (op_CodexConfigured options) then
    (m, with_state (zeroSupervisor false) "available", supervisor_unset "running", false, "unknown"%string, "unknown"%string)
  else match p_Supervisor p with
  | Some (value, probeErr) =>
      let o := runtimeSupervisorObservation value probeErr now in
      let running := supervisorRunningObservation (sv_Status o) in
      let '(m, account, model) :=
        if running then probeCodexForGeneration p (sv_Generation o) (sn_Generation previous) m
        else (invalidate m, "unknown"%string, "unknown"%string) in
      (m, with_times value o, o, running && sr_Available value, account, model)
  | None => (invalidate m, zeroSupervisor true, supervisor_unset "starting", false, "unknown"%string, "unknown"%string)
  end.

Definition codex_observation (available : bool) (o : SupervisorObservation) : CodexObservation :=
  {| cx_Configured := op_CodexConfigured options; cx_Required := op_RequiredCodex options; cx_Available := available;
     cx_LastSuccessAt := sv_LastSuccessAt o; cx_LastFailureAt := sv_LastFailureAt o |}.

Definition probe_input (p : runtimeProbes) (now : Z) (o : SupervisorObservation) (available : bool) (account model : string)
    : Input :=
  {| i_ObservedAt := now; i_Database := observation_of (databaseStatus p); i_Codex := codex_observation available o;
     i_Supervisor := o; i_Account := observation_of account; i_Model := observation_of model;
     i_Reconciliation := observation_of (reconciliationStatus p); i_Persistence := observation_of (persistenceStatus p);
     i_LastSuccessAt := zeroTime; i_LastFailureAt := zeroTime |}.

Definition probe (p : runtimeProbes) (previous : Snapshot) (now : Z) (m : runtimeHealthMonitor)
    : runtimeHealthMonitor * Snapshot * runtimeSupervisorResult :=
  let '(m, result, o, available, account, model) := probe_codex p previous now m in
  (m, Evaluate (probe_input p now o available account model), result).

(** ** Recovery *)

Definition is_state (a b : ComponentState) : bool :=
  match a, b with
  | ComponentUnknown, ComponentUnknown | ComponentStarting, ComponentStarting | ComponentHealthy, ComponentHealthy
  | ComponentDegraded, ComponentDegraded | ComponentFailed, ComponentFailed | ComponentRecovering, ComponentRecovering
  | ComponentExhausted, ComponentExhausted | ComponentStopping, ComponentStopping | ComponentDisabled, ComponentDisabled => true
  | _, _ => false
  end.

Definition recovery_start (meta : runtimeHealthMeta) (supervisor : runtimeSupervisorResult) (now : Z) : Z :=
  if negb (IsZero (me_recoverySince meta)) then me_recoverySince meta
  else if negb (IsZero (sr_RecoverySince supervisor)) then sr_RecoverySince supervisor else now.

Definition nextMeta (next : Snapshot) (supervisor : runtimeSupervisorResult) (now : Z) (meta : runtimeHealthMeta)
    : runtimeHealthMeta :=
  let latched := sn_Ready next || me_readyLatched meta in
  if is_state (c_Status (Codex (sn_Components next))) ComponentHealthy then
    {| me_readyLatched := latched; me_recoverySince := zeroTime; me_recoveryActive := false; me_recoveryExhausted := false |}
  else if seqb (sn_State next) StateExhausted || is_state (c_Status (Supervisor (sn_Components next))) ComponentExhausted then
    {| me_readyLatched := latched; me_recoverySince := recovery_start meta supervisor now; me_recoveryActive := true;
       me_recoveryExhausted := true |}
  else if latched && op_CodexConfigured options then
    let since := recovery_start meta supervisor now in
    {| me_readyLatched := latched; me_recoverySince := since; me_recoveryActive := true;
       me_recoveryExhausted := op_RecoveryGrace options <=? time_Sub now since |}
  else
    {| me_readyLatched := latched; me_recoverySince := me_recoverySince meta; me_recoveryActive := me_recoveryActive meta;
       me_recoveryExhausted := me_recoveryExhausted meta |}.

(** ** The monitor *)

Definition zeroMeta : runtimeHealthMeta :=
  {| me_readyLatched := false; me_recoverySince := zeroTime; me_recoveryActive := false; me_recoveryExhausted := false |}.

(** The evaluation of no observation at all. *)
Definition initial_input : Input :=
  {| i_ObservedAt := zeroTime; i_Database := observation_of "";
     i_Codex := {| cx_Configured := op_CodexConfigured options; cx_Required := op_RequiredCodex options;
                   cx_Available := false; cx_LastSuccessAt := zeroTime; cx_LastFailureAt := zeroTime |};
     i_Supervisor := supervisor_unset ""; i_Account := observation_of ""; i_Model := observation_of "";
     i_Reconciliation := observation_of ""; i_Persistence := observation_of "";
     i_LastSuccessAt := zeroTime; i_LastFailureAt := zeroTime |}.

Definition newRuntimeHealthMonitor : runtimeHealthMonitor :=
  {| mo_publication := {| pu_snapshot := Evaluate initial_input; pu_meta := zeroMeta; pu_supervisor := zeroSupervisor false |};
     mo_readyClosed := false; mo_cacheGeneration := 0; mo_cacheValid := false; mo_cachedAccount := ""; mo_cachedModel := "";
     mo_compatCalls := []; mo_wakes := 0 |}.

Definition current (m : runtimeHealthMonitor) : Snapshot := pu_snapshot (mo_publication m).

Definition probeAndPublish (p : runtimeProbes) (now : Z) (m : runtimeHealthMonitor) : runtimeHealthMonitor :=
  let previous := current m in
  let '(m, next, supervisor) := probe p previous now m in
  let meta := nextMeta next supervisor now (pu_meta (mo_publication m)) in
  {| mo_publication := {| pu_snapshot := next; pu_meta := meta; pu_supervisor := supervisor |};
     mo_readyClosed := sn_Ready next || mo_readyClosed m;
     mo_cacheGeneration := mo_cacheGeneration m; mo_cacheValid := mo_cacheValid m;
     mo_cachedAccount := mo_cachedAccount m; mo_cachedModel := mo_cachedModel m; mo_compatCalls := mo_compatCalls m;
     mo_wakes := if negb (sn_SchedulerEligible previous) && sn_SchedulerEligible next then S (mo_wakes m) else mo_wakes m |}.

(** The cycles of the loop, each with what its probes return and its clock. *)
Definition cycles (l : list (runtimeProbes * Z)) (m : runtimeHealthMonitor) : runtimeHealthMonitor :=
  fold_left (fun m c => probeAndPublish c.1 c.2 m) l m.

(** ** The notifier's view *)

Definition watchdogSnapshot (m : runtimeHealthMonitor) : NotifierHealthSnapshot :=
  let snapshot := pu_snapshot (mo_publication m) in
  let meta := pu_meta (mo_publication m) in
  let c := sn_Components snapshot in
  let probed := negb (IsZero (sn_ObservedAt snapshot)) in
  let coreHealthy := sn_Live snapshot && is_state (c_Status (Persistence c)) ComponentHealthy
    && negb (is_state (c_Status (Reconciliation c)) ComponentUnknown)
    && negb (is_state (c_Status (Reconciliation c)) ComponentFailed) in
  let terminal := probed && (is_state (c_Status (Database c)) ComponentFailed
    || is_state (c_Status (Persistence c)) ComponentFailed || is_state (c_Status (Reconciliation c)) ComponentFailed) in
  let exhausted := me_recoveryExhausted meta || seqb (sn_State snapshot) StateExhausted
    || is_state (c_Status (Supervisor c)) ComponentExhausted in
  let ready := me_readyLatched meta || sn_Ready snapshot || terminal in
  {| hs_Probed := probed; hs_Ready := if exhausted then false else ready;
     hs_DatabaseHealthy := is_state (c_Status (Database c)) ComponentHealthy; hs_CoreHealthy := coreHealthy;
     hs_CodexHealthy := is_state (c_Status (Codex c)) ComponentHealthy; hs_RequiredCodex := op_RequiredCodex options;
     hs_WatchdogEligible := sn_WatchdogEligible snapshot; hs_RecoverySince := me_recoverySince meta;
     hs_RequiredRecoveryActive := me_recoveryActive meta; hs_RecoveryExhausted := exhausted |}.
End Monitor.

(** ** The HTTP view *)

Definition reasonText (r : ReasonCode) : string :=
  match r with
  | ReasonHealthy => "healthy" | ReasonStarting => "starting"
  | ReasonDatabaseUnknown => "database_unknown" | ReasonDatabaseFailed => "database_failed"
  | ReasonDatabaseUnavailable => "database_unavailable"
  | ReasonPersistenceUnknown => "persistence_unknown" | ReasonPersistenceAttention => "persistence_attention"
  | ReasonPersistenceFailed => "persistence_failed"
  | ReasonReconciliationUnknown => "reconciliation_unknown" | ReasonReconciliationAttention => "reconciliation_attention"
  | ReasonReconciliationFailed => "reconciliation_failed"
  | ReasonCodexOptionalNotConfigured => "codex_optional_not_configured"
  | ReasonCodexRequiredNotConfigured => "codex_required_not_configured"
  | ReasonCodexOptionalUnavailable => "codex_optional_unavailable"
  | ReasonCodexRequiredUnavailable => "codex_required_unavailable"
  | ReasonCodexOptionalNotReady => "codex_optional_not_ready" | ReasonCodexRequiredNotReady => "codex_required_not_ready"
  | ReasonCodexOptionalIncompatible => "codex_optional_incompatible"
  | ReasonCodexRequiredIncompatible => "codex_required_incompatible"
  | ReasonAccountUnknown => "account_unknown" | ReasonAccountNotReady => "account_not_ready"
  | ReasonModelUnknown => "model_unknown" | ReasonModelIncompatible => "model_incompatible"
  | ReasonModelUnavailable => "model_unavailable"
  | ReasonSupervisorUnknown => "supervisor_unknown" | ReasonSupervisorStarting => "supervisor_starting"
  | ReasonSupervisorDegraded => "supervisor_degraded" | ReasonSupervisorRecovering => "supervisor_recovering"
  | ReasonSupervisorExhausted => "supervisor_exhausted" | ReasonSupervisorStopping => "supervisor_stopping"
  | ReasonSupervisorStopped => "supervisor_stopped"
  end.

Definition componentText (c : ComponentState) : string :=
  match c with
  | ComponentUnknown => "unknown" | ComponentStarting => "starting" | ComponentHealthy => "healthy"
  | ComponentDegraded => "degraded" | ComponentFailed => "failed" | ComponentRecovering => "recovering"
  | ComponentExhausted => "exhausted" | ComponentStopping => "stopping" | ComponentDisabled => "disabled"
  end.

Record RuntimeSupervisorSnapshot := {
  hv_Generation : Z; hv_State : string; hv_RetryCount : Z; hv_RetryAt : option Z; hv_LastHealthy : option Z;
  hv_RecoveryActive : bool; hv_RecoveryExhausted : bool; hv_RecoverySince : option Z }.

Record RuntimeComponentSnapshot := {
  hc_State : string; hc_Ready : bool; hc_Required : bool; hc_Status : string; hc_Reason : string }.

Record RuntimeHealthSnapshot := {
  rh_Mode : string; rh_Required : bool; rh_State : string; rh_Ready : bool; rh_Live : bool; rh_Liveness : bool;
  rh_WatchdogEligible : bool; rh_SchedulerEligible : bool; rh_Status : string; rh_Reason : string;
  rh_ObservedAt : option Z; rh_LastSuccessAt : option Z; rh_LastFailureAt : option Z; rh_Generation : Z;
  rh_Supervisor : RuntimeSupervisorSnapshot; rh_Components : gmap string RuntimeComponentSnapshot }.

Definition timePointer (t : Z) : option Z := if IsZero t then None else Some t.

Definition supervisorState (c : ComponentState) : string :=
  match c with ComponentHealthy => "running" | _ => componentText c end.

Definition projectComponent (c : ComponentStatus) (required : bool) : RuntimeComponentSnapshot :=
  {| hc_State := componentText (c_Status c); hc_Ready := is_state (c_Status c) ComponentHealthy; hc_Required := required;
     hc_Status := componentText (c_Status c); hc_Reason := reasonText (c_Reason c) |}.

Definition ProjectRuntimeHealth (s : Snapshot) (required : bool) : RuntimeHealthSnapshot :=
  let c := sn_Components s in
  {| rh_Mode := if required then "required" else "optional"; rh_Required := required; rh_State := sn_State s;
     rh_Ready := sn_Ready s; rh_Live := sn_Live s; rh_Liveness := sn_Liveness s;
     rh_WatchdogEligible := sn_WatchdogEligible s; rh_SchedulerEligible := sn_SchedulerEligible s; rh_Status := sn_Status s;
     rh_Reason := reasonText (sn_Reason s); rh_ObservedAt := timePointer (sn_ObservedAt s);
     rh_LastSuccessAt := timePointer (sn_LastSuccessAt s); rh_LastFailureAt := timePointer (sn_LastFailureAt s);
     rh_Generation := sn_Generation s;
     rh_Supervisor := {| hv_Generation := sn_Generation s; hv_State := supervisorState (c_Status (Supervisor c));
       hv_RetryCount := 0; hv_RetryAt := None; hv_LastHealthy := None; hv_RecoveryActive := false;
       hv_RecoveryExhausted := false; hv_RecoverySince := None |};
     rh_Components :=
       <["database" := projectComponent (Database c) true]> (<["codex" := projectComponent (Codex c) required]>
       (<["supervisor" := projectComponent (Supervisor c) required]> (<["account" := projectComponent (Account c) required]>
       (<["model" := projectComponent (Model c) required]> (<["reconciliation" := projectComponent (Reconciliation c) true]>
       (<["persistence" := projectComponent (Persistence c) true]> ∅)))))) |}%string.

Definition set_supervisor (v : RuntimeSupervisorSnapshot) (s : RuntimeHealthSnapshot) : RuntimeHealthSnapshot :=
  {| rh_Mode := rh_Mode s; rh_Required := rh_Required s; rh_State := rh_State s; rh_Ready := rh_Ready s;
     rh_Live := rh_Live s; rh_Liveness := rh_Liveness s; rh_WatchdogEligible := rh_WatchdogEligible s;
     rh_SchedulerEligible := rh_SchedulerEligible s; rh_Status := rh_Status s; rh_Reason := rh_Reason s;
     rh_ObservedAt := rh_ObservedAt s; rh_LastSuccessAt := rh_LastSuccessAt s; rh_LastFailureAt := rh_LastFailureAt s;
     rh_Generation := rh_Generation s; rh_Supervisor := v; rh_Components := rh_Components s |}.

Definition runtimeHTTPSnapshot (s : Snapshot) (meta : runtimeHealthMeta) (v : runtimeSupervisorResult) (required : bool)
    : RuntimeHealthSnapshot :=
  let out := ProjectRuntimeHealth s required in
  let recoverySince :=
    match timePointer (sr_RecoverySince v) with
    | Some t => Some t
    | None => timePointer (me_recoverySince meta)
    end in
  set_supervisor
    {| hv_Generation := if negb (sr_Generation v =? 0) || (sn_Generation s =? 0) then sr_Generation v else sn_Generation s;
       hv_State := if negb (seqb (sr_State v) "") then sr_State v else hv_State (rh_Supervisor out);
       hv_RetryCount := sr_Attempts v; hv_RetryAt := timePointer (sr_NextRetryAt v);
       hv_LastHealthy :=
         match timePointer (sr_LastHealthyAt v) with
         | Some t => Some t
         | None => timePointer (c_LastSuccessAt (Supervisor (sn_Components s)))
         end;
       hv_RecoveryActive := me_recoveryActive meta || sr_RecoveryActive v;
       hv_RecoveryExhausted := me_recoveryExhausted meta || sr_RecoveryExhausted v || seqb (sn_State s) StateExhausted;
       hv_RecoverySince := recoverySince |} out.

(** [Snapshot] of the monitor. *)
Definition httpSnapshot (options : runtimeHealthOptions) (m : runtimeHealthMonitor) : RuntimeHealthSnapshot :=
  runtimeHTTPSnapshot (pu_snapshot (mo_publication m)) (pu_meta (mo_publication m)) (pu_supervisor (mo_publication m))
    (op_RequiredCodex options).

(** The copy fills a generation that only one of the two places has. *)
Definition CloneRuntimeHealthSnapshot (s : RuntimeHealthSnapshot) : RuntimeHealthSnapshot :=
  let v := rh_Supervisor s in
  let generation := if rh_Generation s =? 0 then hv_Generation v else rh_Generation s in
  {| rh_Mode := rh_Mode s; rh_Required := rh_Required s; rh_State := rh_State s; rh_Ready := rh_Ready s;
     rh_Live := rh_Live s; rh_Liveness := rh_Liveness s; rh_WatchdogEligible := rh_WatchdogEligible s;
     rh_SchedulerEligible := rh_SchedulerEligible s; rh_Status := rh_Status s; rh_Reason := rh_Reason s;
     rh_ObservedAt := rh_ObservedAt s; rh_LastSuccessAt := rh_LastSuccessAt s; rh_LastFailureAt := rh_LastFailureAt s;
     rh_Generation := generation;
     rh_Supervisor := {| hv_Generation := if hv_Generation v =? 0 then generation else hv_Generation v; hv_State := hv_State v;
       hv_RetryCount := hv_RetryCount v; hv_RetryAt := hv_RetryAt v; hv_LastHealthy := hv_LastHealthy v;
       hv_RecoveryActive := hv_RecoveryActive v; hv_RecoveryExhausted := hv_RecoveryExhausted v;
       hv_RecoverySince := hv_RecoverySince v |};
     rh_Components := rh_Components s |}.

(** ** The wait between two subscriptions to a closed channel *)

Definition millisecond : Z := 1000000.
Definition defaultStateChangeBackoff : Z := 10 * millisecond.
Definition maxStateChangeBackoff : Z := second.

Definition nextStateChangeBackoff (delay : Z) : Z :=
  if delay <=? 0 then defaultStateChangeBackoff
  else if Z.quot maxStateChangeBackoff 2 <=? delay then maxStateChangeBackoff else delay * 2.

(** What one subscription of [watchStateChanges] finds: no channel, a closed
    one and whether the wait that follows ran out, one with a value, or an open
    one, on which it then sees the context end or a transition. *)
Inductive subscription := SubNil | SubClosed (waited : bool) | SubValue | SubOpen (transition : bool).

(** The backoff of the next subscription, when there is one, and whether the
    monitor is triggered; the trigger has room for one. *)
Definition watchStep (s : subscription) (backoff : Z) : option Z * bool :=
  match s with
  | SubNil => (None, false)
  | SubClosed waited => (if waited then Some (nextStateChangeBackoff backoff) else None, true)
  | SubValue => (Some defaultStateChangeBackoff, true)
  | SubOpen transition => (if transition then Some defaultStateChangeBackoff else None, transition)
  end.

(** The waits of a sequence of subscriptions, whether the monitor was
    triggered, and the backoff it is left with. *)
Fixpoint watchStateChanges (l : list subscription) (backoff : Z) (triggered : bool) : list Z * bool * option Z :=
  match l with
  | [] => ([], triggered, Some backoff)
  | s :: l =>
      let '(next, t) := watchStep s backoff in
      let wait := match s with SubClosed _ => [backoff] | _ => [] end in
      match next with
      | None => (wait, triggered || t, None)
      | Some b => let '(waits, t', r) := watchStateChanges l b (triggered || t) in (wait ++ waits, t', r)
      end
  end.
