(* ===== verification/HealthSpec.v ===== *)
(** * What the health monitor promises

    The recovery facts that the monitor publishes with a snapshot, what a
    published view lets the notifier do, when the scheduler is woken and the
    capability probe is repeated, and two behaviours of the composed service:
    a backlog of the native ledger ends it, and an old failure of the
    supervisor uses up the grace of a new outage. *)

From Stdlib Require Import ZArith Lia.
From stdpp Require Import base strings list option gmap.
From S2P Require Import Prelude GoText CoreDB RuntimeHealth Notifier NotifierSpec ArchDB HealthMonitor.

Local Open Scope Z_scope.

(** ** The components of an evaluation *)

Lemma Evaluate_components i :
  let t := normalizeTime (i_ObservedAt i) in
  sn_ObservedAt (Evaluate i) = t /\
  sn_Components (Evaluate i) =
  {| Database := databaseComponent (i_Database i) t; Codex := codexComponent i (codex_usable i) t;
     Supervisor := supervisorComponent (i_Supervisor i) t; Account := accountComponent i t; Model := modelComponent i t;
     Reconciliation := healthComponent (i_Reconciliation i) t ReasonReconciliationUnknown ReasonReconciliationAttention
       ReasonReconciliationFailed;
     Persistence := healthComponent (i_Persistence i) t ReasonPersistenceUnknown ReasonPersistenceAttention
       ReasonPersistenceFailed |}.
Proof. unfold Evaluate. cbv zeta. by destruct (overallState _ _ _ _ _ _ _ _ _). Qed.

Lemma normalizeTime_id t : normalizeTime t = t.
Proof. unfold normalizeTime, IsZero. destruct (Z.eqb_spec t zeroTime); congruence. Qed.

Lemma database_healthy o t : is_state (c_Status (databaseComponent o t)) ComponentHealthy = seqb (ob_Status o) "healthy".
Proof. unfold databaseComponent. cbv zeta. by repeat case_match. Qed.

Lemma health_healthy o t x y z : is_state (c_Status (healthComponent o t x y z)) ComponentHealthy = seqb (ob_Status o) "healthy".
Proof. unfold healthComponent. cbv zeta. by repeat case_match. Qed.

Lemma health_known_or_failed o t x y z :
  negb (is_state (c_Status (healthComponent o t x y z)) ComponentUnknown)
  && negb (is_state (c_Status (healthComponent o t x y z)) ComponentFailed) = isin (ob_Status o) ["healthy"; "attention"].
Proof.
  unfold healthComponent. cbv zeta. rewrite !isin_cons, isin_nil.
  destruct (seqb (ob_Status o) "healthy"); [done|]. destruct (seqb (ob_Status o) "attention"); [done|].
  by destruct (seqb (ob_Status o) "failed").
Qed.

Lemma codex_healthy i u t : is_state (c_Status (codexComponent i u t)) ComponentHealthy
  = cx_Configured (i_Codex i) && cx_Available (i_Codex i) && u.
Proof. unfold codexComponent. cbv zeta. by destruct (cx_Configured _), (cx_Available _), u, (cx_Required _). Qed.

Lemma supervisor_exhausted o t :
  is_state (c_Status (supervisorComponent o t)) ComponentExhausted = seqb (sv_Status o) "exhausted".
Proof.
  unfold supervisorComponent. cbv zeta. destruct (supervisorRunning (sv_Status o)) eqn:E.
  - destruct (supervisorRunning_not_stopping _ E) as (_ & _ & _ & ->). done.
  - destruct (seqb (sv_Status o) "exhausted") eqn:Ee; [by apply seqb_true in Ee as ->|]. by repeat case_match.
Qed.

Lemma state_exhausted i : sn_State (Evaluate i) = StateExhausted -> seqb (sv_Status (i_Supervisor i)) "exhausted" = true.
Proof.
  destruct (Evaluate_overall i) as (H & _). intros Hs. rewrite Hs in H. unfold overallState in H. cbv zeta in H.
  destruct (is_stopping i); [by destruct (_ || _)|]. destruct (seqb (sv_Status (i_Supervisor i)) "exhausted"); [done|].
  by repeat (case_match; simplify_eq).
Qed.

Section Spec.
Context (options : runtimeHealthOptions).

(** ** One cycle *)

(** The Codex facts of a cycle, and what it leaves of the monitor. *)
Lemma probe_codex_frame p previous now m m' r o a ac mo :
  probe_codex options p previous now m = (m', r, o, a, ac, mo) ->
  mo_publication m' = mo_publication m /\ mo_readyClosed m' = mo_readyClosed m /\ mo_wakes m' = mo_wakes m.
Proof.
  unfold probe_codex. intros H. destruct (negb _); [by simplify_eq|]. destruct (p_Supervisor p) as [[v e]|]; [|by simplify_eq].
  cbv zeta in H. destruct (supervisorRunningObservation _); unfold probeCodexForGeneration in H; by simplify_eq.
Qed.

Definition cycle_input (p : runtimeProbes) (now : Z) (m : runtimeHealthMonitor) : Input :=
  let '(_, _, o, available, account, model) := probe_codex options p (current m) now m in
  probe_input options p now o available account model.

Definition cycle_supervisor (p : runtimeProbes) (now : Z) (m : runtimeHealthMonitor) : runtimeSupervisorResult :=
  let '(_, r, _, _, _, _) := probe_codex options p (current m) now m in r.

Lemma publish_eq p now m :
  let m' := probeAndPublish options p now m in
  let next := Evaluate (cycle_input p now m) in
  mo_publication m' = {| pu_snapshot := next;
    pu_meta := nextMeta options next (cycle_supervisor p now m) now (pu_meta (mo_publication m));
    pu_supervisor := cycle_supervisor p now m |} /\
  mo_readyClosed m' = sn_Ready next || mo_readyClosed m /\
  mo_wakes m' = (if negb (sn_SchedulerEligible (current m)) && sn_SchedulerEligible next then S (mo_wakes m) else mo_wakes m).
Proof.
  unfold probeAndPublish, probe, cycle_input, cycle_supervisor.
  destruct (probe_codex options p (current m) now m) as [[[[[m1 r] o] a] ac] mo] eqn:E.
  destruct (probe_codex_frame _ _ _ _ _ _ _ _ _ _ E) as (-> & -> & ->). done.
Qed.

Lemma cycle_input_fields p now m :
  let i := cycle_input p now m in
  i_ObservedAt i = now /\ ob_Status (i_Database i) = databaseStatus p /\ ob_Status (i_Persistence i) = persistenceStatus p /\
  ob_Status (i_Reconciliation i) = reconciliationStatus p /\ cx_Configured (i_Codex i) = op_CodexConfigured options /\
  cx_Required (i_Codex i) = op_RequiredCodex options.
Proof. unfold cycle_input. destruct (probe_codex _ _ _ _ _) as [[[[[m1 r] o] a] ac] mo]. done. Qed.

(** An available Codex has a running supervisor. *)
Lemma cycle_available p now m :
  cx_Available (i_Codex (cycle_input p now m)) = true ->
  supervisorRunning (sv_Status (i_Supervisor (cycle_input p now m))) = true /\ op_CodexConfigured options = true.
Proof.
  unfold cycle_input, probe_codex. destruct (op_CodexConfigured options); [|done]. cbn [negb].
  destruct (p_Supervisor p) as [[v e]|]; [|done]. cbv zeta. unfold supervisorRunning.
  fold (supervisorRunningObservation (sv_Status (runtimeSupervisorObservation v e now))).
  destruct (supervisorRunningObservation _) eqn:E; [|done].
  destruct (probeCodexForGeneration _ _ _ _) as [[m1 ac] mo]. cbn [i_Codex i_Supervisor probe_input codex_observation cx_Available].
  intros _. done.
Qed.

(** The published facts the recovery rests on, from the observations. *)
Lemma cycle_codex_healthy p now m :
  is_state (c_Status (Codex (sn_Components (Evaluate (cycle_input p now m))))) ComponentHealthy
  = codex_usable (cycle_input p now m).
Proof.
  destruct (Evaluate_components (cycle_input p now m)) as [_ ->]. simpl. rewrite codex_healthy. unfold codex_usable.
  by destruct (cx_Configured _), (cx_Available _), (accountReady _), (seqb _ "compatible").
Qed.

Definition cycle_exhausted (p : runtimeProbes) (now : Z) (m : runtimeHealthMonitor) : bool :=
  seqb (sv_Status (i_Supervisor (cycle_input p now m))) "exhausted".

Lemma cycle_exhausted_eq p now m :
  seqb (sn_State (Evaluate (cycle_input p now m))) StateExhausted
  || is_state (c_Status (Supervisor (sn_Components (Evaluate (cycle_input p now m))))) ComponentExhausted
  = cycle_exhausted p now m.
Proof.
  destruct (Evaluate_components (cycle_input p now m)) as [_ Hc]. rewrite Hc. simpl. rewrite supervisor_exhausted.
  unfold cycle_exhausted. destruct (seqb (sn_State _) StateExhausted) eqn:E; [|done]. apply seqb_true in E.
  by rewrite (state_exhausted _ E).
Qed.

Lemma exhausted_not_usable p now m : cycle_exhausted p now m = true -> codex_usable (cycle_input p now m) = false.
Proof.
  unfold cycle_exhausted. intros H. destruct (codex_usable (cycle_input p now m)) eqn:E; [|done].
  unfold codex_usable in E. apply andb_true_iff in E as [[[_ Ha]%andb_true_iff _]%andb_true_iff _].
  apply cycle_available in Ha as [Hr _]. apply supervisorRunning_not_stopping in Hr as (_ & _ & _ & Hx). congruence.
Qed.

(** ** Evidence times of the supervisor *)

Lemma clampRuntimeTimestamp_le v t : t <> zeroTime -> clampRuntimeTimestamp v t = zeroTime \/ clampRuntimeTimestamp v t <= t.
Proof.
  intros Ht. unfold clampRuntimeTimestamp, IsZero. destruct (Z.eqb_spec v zeroTime); [by left|].
  destruct (Z.eqb_spec t zeroTime); [done|]. simpl. destruct (Z.ltb_spec t v); lia.
Qed.

Lemma clampRecoveryTimestamp_le v t st : t <> zeroTime ->
  clampRecoveryTimestamp v t st = zeroTime \/ clampRecoveryTimestamp v t st <= t.
Proof.
  intros Ht. unfold clampRecoveryTimestamp. destruct (negb (IsZero (clampRuntimeTimestamp v t))); [by apply clampRuntimeTimestamp_le|].
  destruct (_ && _); lia.
Qed.

Lemma cycle_supervisor_since p now m : now <> zeroTime ->
  sr_RecoverySince (cycle_supervisor p now m) = zeroTime \/ sr_RecoverySince (cycle_supervisor p now m) <= now.
Proof.
  intros Hn. unfold cycle_supervisor, probe_codex. destruct (negb _); [by left|].
  destruct (p_Supervisor p) as [[v e]|]; [|by left]. cbv zeta. destruct (supervisorRunningObservation _);
    [destruct (probeCodexForGeneration _ _ _ _) as [[m1 ac] mo]|]; by apply clampRecoveryTimestamp_le.
Qed.

(** ** The recovery of a service *)

(** What holds of the publication after a cycle at [t]. *)
Record monitor_ok (t : Z) (m : runtimeHealthMonitor) : Prop := {
  k_closed : mo_readyClosed m = me_readyLatched (pu_meta (mo_publication m));
  k_ready : sn_Ready (current m) = true -> me_readyLatched (pu_meta (mo_publication m)) = true;
  k_active : me_recoveryActive (pu_meta (mo_publication m)) = negb (IsZero (me_recoverySince (pu_meta (mo_publication m))));
  k_exhausted : me_recoveryExhausted (pu_meta (mo_publication m)) = true ->
                me_recoveryActive (pu_meta (mo_publication m)) = true;
  k_since : me_recoverySince (pu_meta (mo_publication m)) = zeroTime \/ me_recoverySince (pu_meta (mo_publication m)) <= t;
  k_healthy : is_state (c_Status (Codex (sn_Components (current m)))) ComponentHealthy = true ->
              me_recoveryActive (pu_meta (mo_publication m)) = false;
  k_waits : me_readyLatched (pu_meta (mo_publication m)) = true -> op_CodexConfigured options = true ->
            is_state (c_Status (Codex (sn_Components (current m)))) ComponentHealthy = false ->
            me_recoveryActive (pu_meta (mo_publication m)) = true }.

Lemma recovery_start_ok meta sup now :
  now <> zeroTime -> (me_recoverySince meta = zeroTime \/ me_recoverySince meta <= now) ->
  (sr_RecoverySince sup = zeroTime \/ sr_RecoverySince sup <= now) ->
  IsZero (recovery_start meta sup now) = false /\ recovery_start meta sup now <= now.
Proof.
  intros Hn Hm Hs. unfold recovery_start, IsZero. destruct (Z.eqb_spec (me_recoverySince meta) zeroTime) as [E|E]; simpl.
  - destruct (Z.eqb_spec (sr_RecoverySince sup) zeroTime) as [E'|E']; simpl; rewrite Z.eqb_neq; lia.
  - rewrite Z.eqb_neq. lia.
Qed.

Lemma publish_ok t p now m :
  monitor_ok t m -> now <> zeroTime -> t <= now -> monitor_ok now (probeAndPublish options p now m).
Proof.
  intros [K1 K2 K3 K4 K5 K6 K7] Hn Ht. destruct (publish_eq p now m) as (Hp & Hc & _).
  set (m' := probeAndPublish options p now m) in *. set (i := cycle_input p now m) in *.
  set (meta := pu_meta (mo_publication m)) in *. set (sup := cycle_supervisor p now m) in *.
  destruct (recovery_start_ok meta sup now Hn) as [S1 S2]; [lia|by apply cycle_supervisor_since|].
  pose proof (cycle_codex_healthy p now m) as Hu. pose proof (cycle_exhausted_eq p now m) as Hx. fold i in Hu, Hx.
  assert (me_readyLatched (nextMeta options (Evaluate i) sup now meta) = sn_Ready (Evaluate i) || me_readyLatched meta) as HL
    by (unfold nextMeta; by repeat case_match).
  constructor; unfold current; rewrite ?Hp, ?Hc; cbn [pu_snapshot pu_meta]; rewrite ?HL, ?K1; try done.
  - by intros ->.
  - unfold nextMeta. rewrite Hu, Hx. destruct (codex_usable i); [done|]. destruct (cycle_exhausted p now m); simpl; [by rewrite S1|].
    destruct (_ && op_CodexConfigured options); simpl; [by rewrite S1|done].
  - unfold nextMeta. rewrite Hu, Hx. destruct (codex_usable i); [done|]. destruct (cycle_exhausted p now m); [done|].
    destruct (_ && op_CodexConfigured options); [done|]. done.
  - unfold nextMeta. rewrite Hu, Hx. destruct (codex_usable i); [by left|]. destruct (cycle_exhausted p now m); simpl; [lia|].
    destruct (_ && op_CodexConfigured options); simpl; lia.
  - rewrite Hu. unfold nextMeta. rewrite Hu. by intros ->.
  - rewrite Hu. unfold nextMeta. rewrite Hu, Hx. intros HLt HC ->. rewrite HLt, HC. by destruct (cycle_exhausted p now m).
Qed.

Lemma new_ok t : monitor_ok t (newRuntimeHealthMonitor options).
Proof. constructor; try done. by left. Qed.

Fixpoint clocked (t : Z) (l : list (runtimeProbes * Z)) : Prop :=
  match l with [] => True | c :: l => c.2 <> zeroTime /\ t <= c.2 /\ clocked c.2 l end.

Definition last_clock (t : Z) (l : list (runtimeProbes * Z)) : Z := fold_left (fun _ c => c.2) l t.

Lemma cycles_ok t l m : clocked t l -> monitor_ok t m -> monitor_ok (last_clock t l) (cycles options l m).
Proof.
  revert t m. induction l as [|[p now] l IH]; intros t m Hc Hm; [done|]. destruct Hc as (H1 & H2 & H3).
  apply IH; [done|]. by eapply publish_ok.
Qed.

(** ** The notifier's view of a cycle *)

(** A store whose probes answered, without a fault or a backlog, and whose
    reconciliation neither failed nor is unknown. *)
Definition store_ok (p : runtimeProbes) : Prop :=
  p_DB p = Some true /\
  exists v, p_Persistence p = Some (Some v) /\ pr_PersistenceFault v = false /\ pr_PersistenceAttention v = false /\
            pr_Healthy v = true /\ pr_Reconciliation v ∈ ["healthy"; "attention"]%string.

Definition stopping (p : runtimeProbes) (now : Z) (m : runtimeHealthMonitor) : bool := is_stopping (cycle_input p now m).

Lemma persistence_status_ok p v : p_Persistence p = Some (Some v) ->
  seqb (persistenceStatus p) "healthy" = negb (pr_PersistenceFault v) && negb (pr_PersistenceAttention v) && pr_Healthy v.
Proof. unfold persistenceStatus. intros ->. by destruct (pr_PersistenceFault v), (pr_PersistenceAttention v), (pr_Healthy v). Qed.

Lemma reconciliation_status_ok p v : p_Persistence p = Some (Some v) ->
  isin (reconciliationStatus p) ["healthy"; "attention"] = isin (pr_Reconciliation v) ["healthy"; "attention"].
Proof.
  unfold reconciliationStatus. intros ->. cbv zeta. rewrite !(isin_cons (pr_Reconciliation v)), isin_nil.
  destruct (seqb (pr_Reconciliation v) "healthy") eqn:E1.
  { apply seqb_true in E1 as ->. by destruct (0 <? pr_Uncertain v). }
  destruct (seqb (pr_Reconciliation v) "attention") eqn:E2; [apply seqb_true in E2 as ->; by rewrite andb_false_r|].
  destruct (seqb (pr_Reconciliation v) "failed") eqn:E3; [apply seqb_true in E3 as ->; by rewrite andb_false_r|].
  simpl. by rewrite andb_false_r.
Qed.

Lemma cycle_core_ready p now m : core_ready (cycle_input p now m) = true <-> store_ok p /\ stopping p now m = false.
Proof.
  destruct (cycle_input_fields p now m) as (_ & H1 & H2 & H3 & _). unfold core_ready. rewrite H1, H2, H3.
  rewrite !andb_true_iff, negb_true_iff. unfold store_ok, stopping.
  destruct (p_Persistence p) as [[v|]|] eqn:E.
  - rewrite (persistence_status_ok p v E), (reconciliation_status_ok p v E), !andb_true_iff, !negb_true_iff.
    unfold isin. rewrite bool_decide_eq_true. unfold databaseStatus. split.
    + intros [[[Hd ((? & ?) & ?)] ?] ?]. split_and!; try done; [|by eauto 10]. destruct (p_DB p) as [[]|]; done.
    + intros [[-> (v' & Hv & ? & ? & ? & ?)] ?]. simplify_eq. tauto.
  - unfold persistenceStatus. rewrite E. split; [intros [[[_ Hx] _] _]; done|]. intros [[_ (v & Hv & _)] _]. done.
  - unfold persistenceStatus. rewrite E. split; [intros [[[_ Hx] _] _]; done|]. intros [[_ (v & Hv & _)] _]. done.
Qed.

Lemma view_fields p now m : now <> zeroTime ->
  let w := watchdogSnapshot options (probeAndPublish options p now m) in
  hs_Probed w = true /\ hs_DatabaseHealthy w = seqb (databaseStatus p) "healthy" /\
  hs_CoreHealthy w = core_ready (cycle_input p now m) /\ hs_CodexHealthy w = codex_usable (cycle_input p now m) /\
  hs_RequiredCodex w = op_RequiredCodex options /\
  hs_WatchdogEligible w = core_ready (cycle_input p now m)
    && (negb (op_RequiredCodex options) || supervisorRunning (sv_Status (i_Supervisor (cycle_input p now m)))) /\
  hs_RecoverySince w = me_recoverySince (pu_meta (mo_publication (probeAndPublish options p now m))) /\
  hs_RequiredRecoveryActive w = me_recoveryActive (pu_meta (mo_publication (probeAndPublish options p now m))) /\
  (hs_RecoveryExhausted w = me_recoveryExhausted (pu_meta (mo_publication (probeAndPublish options p now m))) || cycle_exhausted p now m).
Proof.
  intros Hn. destruct (publish_eq p now m) as (Hp & _). set (i := cycle_input p now m) in *.
  destruct (cycle_input_fields p now m) as (F1 & F2 & F3 & F4 & F5 & F6). fold i in F1, F2, F3, F4, F5, F6.
  destruct (Evaluate_components i) as [Ho Hc]. destruct (Evaluate_flags i) as (_ & Hl & Hw & _).
  pose proof (cycle_codex_healthy p now m) as Hu. pose proof (cycle_exhausted_eq p now m) as Hx. fold i in Hu, Hx.
  cbv zeta. unfold watchdogSnapshot. rewrite Hp.
  cbn [pu_snapshot pu_meta hs_Probed hs_DatabaseHealthy hs_CoreHealthy hs_CodexHealthy hs_RequiredCodex hs_WatchdogEligible
       hs_RecoverySince hs_RequiredRecoveryActive hs_RecoveryExhausted].
  rewrite Hu, <-orb_assoc, Hx. split_and!; try done.
  - rewrite Ho, normalizeTime_id, F1. unfold IsZero. by rewrite (proj2 (Z.eqb_neq _ _) Hn).
  - rewrite Hc. simpl. by rewrite database_healthy, F2.
  - rewrite Hc. simpl. rewrite <-!andb_assoc, health_known_or_failed, health_healthy, Hl. unfold core_ready.
    destruct (seqb (ob_Status (i_Database i)) "healthy"); [|done].
    destruct (seqb (ob_Status (i_Persistence i)) "healthy") eqn:E; [|by rewrite !andb_false_r].
    destruct (health_known _ E) as [_ ->]. simpl. rewrite andb_true_r. apply andb_comm.
  - by rewrite Hw, F6.
Qed.

(** What the notifier does with the view of a cycle. *)
Lemma view_observed cfg p now m t ping n : now <> zeroTime ->
  let '(n', r) := observeAt cfg t ping (watchdogSnapshot options (probeAndPublish options p now m)) n in
  (core_ready (cycle_input p now m) = false ->
   is_Some r /\ count is_ready (n_sent n') = count is_ready (n_sent n) /\
   count is_watchdog (n_sent n') = count is_watchdog (n_sent n)) /\
  (core_ready (cycle_input p now m) = true -> op_RequiredCodex options = false -> r = None) /\
  (core_ready (cycle_input p now m) = false -> op_RequiredCodex options = false ->
   r = Some (if seqb (databaseStatus p) "healthy" then ErrNotifierCoreFailure else ErrNotifierDatabaseFailure)).
Proof.
  intros Hn. destruct (view_fields p now m Hn) as (V1 & V2 & V3 & V4 & V5 & V6 & V7 & V8 & V9).
  set (w := watchdogSnapshot options (probeAndPublish options p now m)) in *.
  destruct (core_ready (cycle_input p now m)) eqn:Ec.
  - assert (seqb (databaseStatus p) "healthy" = true) as Hd.
    { apply cycle_core_ready in Ec as [[Hd _] _]. unfold databaseStatus. by rewrite Hd. }
    rewrite Hd in V2. destruct (observeAt cfg t ping w n) as [n' r] eqn:E. split_and!; [done| |done]. intros _ Hreq.
    rewrite Hreq in V5. unfold observeAt, classify in E. rewrite V1, V2, V3, V4, V5 in E. cbn [negb andb] in E.
    destruct (codex_usable _), (hs_Ready w); cbn [negb] in E; destruct (readyAuthorized cfg w t n) as [n1 b];
      cbn [fst snd] in E; repeat case_match; by simplify_eq.
  - assert (readyAuthorized cfg w t n = (n, false)) as Ha.
    { unfold readyAuthorized, ready_facts. by rewrite V3, andb_false_r. }
    unfold observeAt, classify. rewrite V1, V3, V5, V2. cbn [negb andb].
    destruct (op_RequiredCodex options && hs_RecoveryExhausted w) eqn:Ex; cbn [fst snd].
    + rewrite Ha. cbn. split_and!; [|done|].
      * intros _. destruct (signalFatal_fields cfg (setState cfg notifierStateExhausted true n) ErrNotifierExhausted) as (_ & -> & _).
        split; [by eexists|]. split; apply quiet_setState.
      * intros _ Hr. by rewrite Hr in Ex.
    + destruct (seqb (databaseStatus p) "healthy"); cbn [negb fst snd]; rewrite Ha; cbn; (split_and!; [|done|done]); intros _.
      * destruct (signalFatal_fields cfg (setState cfg notifierStateDegraded true n) ErrNotifierCoreFailure) as (_ & -> & _).
        split; [by eexists|]. split; apply quiet_setState.
      * destruct (signalFatal_fields cfg (setState cfg notifierStateDegraded true n) ErrNotifierDatabaseFailure) as (_ & -> & _).
        split; [by eexists|]. split; apply quiet_setState.
Qed.

(** ** Waking the scheduler *)

Fixpoint trajectory (l : list (runtimeProbes * Z)) (m : runtimeHealthMonitor) : list runtimeHealthMonitor :=
  match l with
  | [] => []
  | c :: l => let m' := probeAndPublish options c.1 c.2 m in m' :: trajectory l m'
  end.

Definition eligible (m : runtimeHealthMonitor) : bool := sn_SchedulerEligible (current m).

(** How often a sequence turns true. *)
Fixpoint rising (b : bool) (l : list bool) : nat :=
  match l with [] => 0 | b' :: l => (if negb b && b' then 1 else 0) + rising b' l end%nat.

Lemma cycles_wakes l m :
  mo_wakes (cycles options l m) = (mo_wakes m + rising (eligible m) (eligible <$> trajectory l m))%nat.
Proof.
  revert m. induction l as [|[p now] l IH]; intros m; [simpl; lia|].
  change (cycles options ((p, now) :: l) m) with (cycles options l (probeAndPublish options p now m)).
  rewrite IH. cbn [trajectory fst snd fmap list_fmap rising].
  destruct (publish_eq p now m) as (Hp & _ & Hw). set (m' := probeAndPublish options p now m) in *.
  assert (eligible m' = sn_SchedulerEligible (Evaluate (cycle_input p now m))) as He by (unfold eligible, current; by rewrite Hp).
  rewrite <-He in Hw. fold (eligible m) in Hw. rewrite Hw. destruct (negb (eligible m) && eligible m'); lia.
Qed.

(** ** The cached capability *)

Definition cached (g : Z) (m : runtimeHealthMonitor) : bool :=
  mo_cacheValid m && (mo_cacheGeneration m =? g) && (sn_Generation (current m) =? g).

(** A cycle that finds the supervisor running as generation [g]. *)
Definition runs_as (g : Z) (p : runtimeProbes) : Prop :=
  exists v e, p_Supervisor p = Some (v, e) /\ supervisorRunningObservation (supervisorStatus v e) = true /\ sr_Generation v = g.

Definition capability (p : runtimeProbes) : string :=
  match p_Compatibility p with
  | None => "unknown" | Some None => "unavailable" | Some (Some true) => "compatible" | Some (Some false) => "incompatible"
  end.

Context (configured : op_CodexConfigured options = true).

Lemma publish_cache g p now m : runs_as g p -> is_Some (p_Compatibility p) ->
  let m' := probeAndPublish options p now m in
  cached g m' = true /\
  mo_cachedModel m' = (if cached g m then mo_cachedModel m else capability p) /\
  mo_compatCalls m' = (if cached g m then mo_compatCalls m else mo_compatCalls m ++ [g]) /\
  ob_Status (i_Model (cycle_input p now m)) = modelObservation (mo_cachedModel m').
Proof.
  intros (v & e & Hs & Hrun & Hg) Hcompat. destruct (publish_eq p now m) as (Hp & _). cbv zeta.
  assert (sn_Generation (Evaluate (cycle_input p now m)) = g) as Hgen.
  { destruct (Evaluate_overall (cycle_input p now m)) as (_ & _ & ->).
    unfold cycle_input, probe_codex. rewrite configured, Hs. cbn [negb]. cbv zeta.
    destruct (supervisorRunningObservation _); [destruct (probeCodexForGeneration _ _ _ _) as [[? ?] ?]|]; done. }
  unfold cached at 1. unfold current at 1. rewrite Hp. cbn [pu_snapshot]. rewrite Hgen.
  unfold cycle_input, probeAndPublish, probe, probe_codex. rewrite configured, Hs. cbn [negb]. cbv zeta. cbn [sv_Status runtimeSupervisorObservation].
  rewrite Hrun. change (sv_Generation (runtimeSupervisorObservation v e now)) with (sr_Generation v). rewrite Hg.
  unfold probeCodexForGeneration. fold (cached g m).
  cbn [mo_cacheValid mo_cacheGeneration mo_cachedModel mo_compatCalls i_Model probe_input observation_of ob_Status].
  rewrite !Z.eqb_refl. rewrite bool_decide_true by done. fold (capability p). by destruct (cached g m).
Qed.

Lemma publish_uncached p now m v e : p_Supervisor p = Some (v, e) -> supervisorRunningObservation (supervisorStatus v e) = false ->
  mo_cacheValid (probeAndPublish options p now m) = false.
Proof.
  intros Hs Hrun. unfold probeAndPublish, probe, probe_codex. rewrite configured, Hs. cbn [negb]. cbv zeta.
  cbn [sv_Status runtimeSupervisorObservation]. by rewrite Hrun.
Qed.

Lemma cycles_cache g l m : cached g m = true -> Forall (fun c => runs_as g c.1 /\ is_Some (p_Compatibility c.1)) l ->
  let m' := cycles options l m in
  cached g m' = true /\ mo_cachedModel m' = mo_cachedModel m /\ mo_compatCalls m' = mo_compatCalls m.
Proof.
  revert m. induction l as [|[p now] l IH]; intros m Hc Hall; [done|]. apply Forall_cons in Hall as [[Hr Hp] Hall].
  destruct (publish_cache g p now m Hr Hp) as (H1 & H2 & H3 & _). rewrite Hc in H2, H3.
  destruct (IH (probeAndPublish options p now m) H1 Hall) as (I1 & I2 & I3).
  change (cycles options ((p, now) :: l) m) with (cycles options l (probeAndPublish options p now m)).
  rewrite <-H2, <-H3. auto.
Qed.
End Spec.

(** ** The guarantees *)

(** After any cycles of the monitor whose clock does not go back, what
    is published with a snapshot is consistent with it: the ready latch is set
    by the first ready snapshot, agrees with the channel that waiters use and
    is never reset; a recovery is active exactly when it has a start, which is
    not in the future; only an active recovery is exhausted; none is active
    while Codex is healthy; and one is active whenever a configured Codex is
    not healthy on a service that was ready. *)
Theorem recovery_is_tracked options t l :
  clocked t l ->
  let m := cycles options l (newRuntimeHealthMonitor options) in
  let meta := pu_meta (mo_publication m) in
  let codex := is_state (c_Status (Codex (sn_Components (current m)))) ComponentHealthy in
  mo_readyClosed m = me_readyLatched meta /\ (sn_Ready (current m) = true -> me_readyLatched meta = true) /\
  (me_recoveryActive meta = true <-> me_recoverySince meta <> zeroTime) /\
  (me_recoverySince meta <> zeroTime -> me_recoverySince meta <= last_clock t l) /\
  (me_recoveryExhausted meta = true -> me_recoveryActive meta = true) /\
  (codex = true -> me_recoveryActive meta = false) /\
  (me_readyLatched meta = true -> op_CodexConfigured options = true -> codex = false -> me_recoveryActive meta = true) /\
  (forall p now, me_readyLatched meta = true ->
     me_readyLatched (pu_meta (mo_publication (probeAndPublish options p now m))) = true).
Proof.
  intros Hc. destruct (cycles_ok options t l _ Hc (new_ok options t)) as [K1 K2 K3 K4 K5 K6 K7]. cbv zeta. split_and!; try done.
  - rewrite K3. unfold IsZero. rewrite negb_true_iff, Z.eqb_neq. done.
  - intros H. by destruct K5.
  - intros p now H. destruct (publish_eq options p now (cycles options l (newRuntimeHealthMonitor options))) as (-> & _).
    simpl. unfold nextMeta. rewrite H, orb_true_r. by repeat case_match.
Qed.

(** A store that cannot be relied on: the database did not answer as healthy,
    or the persistence probe failed, reports a fault or is unhealthy for
    another reason than a backlog, or the reconciliation failed or is unknown. *)
Definition store_failed (p : runtimeProbes) : Prop :=
  p_DB p <> Some true \/
  match p_Persistence p with
  | Some (Some v) => pr_PersistenceFault v = true \/ (pr_Healthy v = false /\ pr_PersistenceAttention v = false) \/
                     pr_Reconciliation v ∉ ["healthy"; "attention"]%string
  | _ => True
  end.

Lemma store_failed_not_ok p : store_failed p -> ~ store_ok p.
Proof.
  intros [Hd|Hp] [Hdb (v & Hv & Hf & Ha & Hh & Hr)]; [done|]. rewrite Hv in Hp.
  destruct Hp as [?|[[? ?]|?]]; [congruence..|done].
Qed.

(** C32: What the notifier does with a view that was just published, at a
    proper clock, rests on the store.  When the database is not healthy, the
    persistence probe failed or reports a fault, or the reconciliation failed
    or is unknown, the observation sends neither [READY=1] nor a ping and
    returns a fatal error.  When the database and the persistence ledger are
    healthy, without a backlog, the reconciliation is known not to have failed,
    the supervisor is not stopping and Codex is optional, it is not fatal,
    whatever else Codex and its account do.  (A backlog is treated below.) *)
Theorem store_decides_service options cfg p now m t ping n :
  now <> zeroTime ->
  let '(n', r) := observeAt cfg t ping (watchdogSnapshot options (probeAndPublish options p now m)) n in
  (store_failed p ->
   is_Some r /\ count is_ready (n_sent n') = count is_ready (n_sent n) /\
   count is_watchdog (n_sent n') = count is_watchdog (n_sent n)) /\
  (store_ok p -> stopping options p now m = false -> op_RequiredCodex options = false -> r = None).
Proof.
  intros Hn. pose proof (view_observed options cfg p now m t ping n Hn) as H.
  destruct (observeAt cfg t ping _ n) as [n' r]. destruct H as (H1 & H2 & _). pose proof (cycle_core_ready options p now m) as Hc.
  split.
  - intros Hno%store_failed_not_ok. apply H1. destruct (core_ready _); [by destruct Hno; apply Hc|done].
  - intros Hs Hst Hr. apply H2; [by apply Hc|done].
Qed.

Lemma count_where_pos {V} (P : V -> bool) (m : gmap string V) k v : m !! k = Some v -> P v = true -> 0 < count_where P m.
Proof.
  intros Hk Hv. unfold count_where. assert (size (filter (fun e : string * V => P e.2 = true) m) <> 0%nat); [|lia].
  intros H%map_size_empty_inv. assert (filter (fun e : string * V => P e.2 = true) m !! k = Some v) as Hx
    by (by apply map_lookup_filter_Some). by rewrite H in Hx.
Qed.

(** An intent that is not settled. *)
Definition backlog (d : ADB) : Prop :=
  exists id i, a_intents d !! id = Some i /\ in_state i ∈ ["pending"; "leased"; "blocked"]%string.

Lemma backlog_attention r d v : backlog d -> storePersistence (persistence_counts (Some r) d) = Some v -> pr_PersistenceAttention v = true.
Proof.
  intros (id & i & Hi & Hst). unfold storePersistence, persistence_counts. cbn [ro_reconciliation ro_pending ro_leased ro_blocked ro_uncertain].
  set (att := (_ || _ || _)).
  assert (att = true) as ->.
  { subst att. rewrite !orb_true_iff, !Z.ltb_lt. apply elem_of_cons in Hst as [H|Hst]; [left; left|].
    { eapply count_where_pos; [done|]. by rewrite H. }
    apply elem_of_cons in Hst as [H|Hst]; [left; right; eapply count_where_pos; [done|by rewrite H]|].
    apply list_elem_of_singleton in Hst. right. eapply count_where_pos; [done|]. by rewrite Hst. }
  cbv zeta. intros H. case_match; by simplify_eq.
Qed.

(** C33: A backlog of the native ledger is fatal to the service: with a
    healthy database, a readable ledger, no fault and an optional Codex, one
    pending, leased or blocked intent makes the first observation of the
    notifier return the core failure, on which the server shuts down. *)
Theorem ledger_backlog_ends_service options cfg d reconciliation attention p now m t ping n :
  now <> zeroTime -> op_RequiredCodex options = false -> backlog d -> p_DB p = Some true ->
  p_Persistence p = Some (serverPersistence false attention (storePersistence (persistence_counts (Some reconciliation) d))) ->
  snd (observeAt cfg t ping (watchdogSnapshot options (probeAndPublish options p now m)) n) = Some ErrNotifierCoreFailure.
Proof.
  intros Hn Hr Hb Hdb Hp. pose proof (view_observed options cfg p now m t ping n Hn) as H.
  destruct (observeAt cfg t ping _ n) as [n' r]. destruct H as (_ & _ & H). simpl.
  assert (seqb (databaseStatus p) "healthy" = true) as Hd by (unfold databaseStatus; by rewrite Hdb). rewrite Hd in H. apply H; [|done].
  destruct (core_ready _) eqn:E; [|done]. apply cycle_core_ready in E as [[_ (v & Hv & _ & Ha & _)] _]. rewrite Hp in Hv.
  destruct (storePersistence _) as [w|] eqn:Ew; [|done]. simpl in Hv. simplify_eq. simpl in Ha.
  apply backlog_attention in Ew; [|done]. by rewrite Ew in Ha.
Qed.

(** The grace of a required outage may be spent before it begins.  The
    supervisor reports the time of its last failure also after it recovered,
    and the monitor takes that time for the start of any new outage: when the
    account of a healthy, ready service signs out longer than the grace after
    such a failure, the recovery is published as exhausted at once, and the
    next observation of the notifier is fatal. *)
Theorem stale_failure_spends_grace options cfg p now m s store t ping n :
  op_RequiredCodex options = true -> op_CodexConfigured options = true -> op_RecoveryGrace options <= 9223372036854775807 ->
  me_readyLatched (pu_meta (mo_publication m)) = true -> me_recoverySince (pu_meta (mo_publication m)) = zeroTime ->
  p = {| p_DB := Some true; p_Persistence := store; p_Supervisor := Some (clientSupervisor true (Some s), false);
         p_Account := Some (Some "signed_out"%string); p_Compatibility := Some (Some true) |} ->
  ps_State s = "available"%string -> ps_LastFailureAt s <> zeroTime -> now <> zeroTime ->
  0 < op_RecoveryGrace options -> ps_LastFailureAt s + op_RecoveryGrace options <= now ->
  me_recoveryExhausted (pu_meta (mo_publication (probeAndPublish options p now m))) = true /\
  snd (observeAt cfg t ping (watchdogSnapshot options (probeAndPublish options p now m)) n) = Some ErrNotifierExhausted.
Proof.
  intros Hreq Hconf Hg HL Hz -> Hst Hf Hnow Hpos Hlate. set (p := {| p_DB := _ |}).
  assert (me_recoveryExhausted (pu_meta (mo_publication (probeAndPublish options p now m))) = true) as Hx.
  { destruct (publish_eq options p now m) as (-> & _). cbn [pu_meta]. unfold nextMeta.
    rewrite cycle_codex_healthy, cycle_exhausted_eq, HL, Hconf, orb_true_r.
    assert (codex_usable (cycle_input options p now m) = false /\ cycle_exhausted options p now m = false /\
            sr_RecoverySince (cycle_supervisor options p now m) = ps_LastFailureAt s) as (-> & -> & Hs).
    { unfold cycle_exhausted, cycle_supervisor, cycle_input, probe_codex. rewrite Hconf. cbn [negb p_Supervisor p]. cbv zeta.
      unfold runtimeSupervisorObservation, supervisorStatus, clientSupervisor. rewrite Hst.
      cbn [sv_Status sr_State sr_RecoverySince sv_LastFailureAt]. 
      assert (isin "available" ["starting"; "available"; "degraded"; "recovering"; "exhausted"; "closed"] = true) as -> by done.
      replace (supervisorRunningObservation "available") with true by done. cbn.
      split_and!; [|done|].
      - unfold codex_usable. cbn. by rewrite !andb_false_r.
      - unfold clampRecoveryTimestamp, clampRuntimeTimestamp, IsZero. rewrite (proj2 (Z.eqb_neq _ _) Hf), (proj2 (Z.eqb_neq _ _) Hnow).
        rewrite (proj2 (Z.ltb_ge now (ps_LastFailureAt s))) by lia. cbn. by rewrite (proj2 (Z.eqb_neq _ _) Hf). }
    cbn [andb me_recoveryExhausted]. unfold recovery_start. rewrite Hz, Hs. unfold IsZero. rewrite Z.eqb_refl, (proj2 (Z.eqb_neq _ _) Hf).
    cbn [negb]. apply Z.leb_le. unfold time_Sub. lia. }
  split; [done|]. destruct (view_fields options p now m Hnow) as (V1 & _ & _ & _ & V5 & _ & _ & _ & V9). rewrite Hx in V9. rewrite Hreq in V5.
  unfold observeAt, classify. rewrite V1, V5, V9. cbn [negb andb orb]. by destruct (readyAuthorized cfg _ t n).
Qed.

(** The scheduler is woken exactly when its eligibility turns true in
    the published sequence; and while the supervisor runs as one generation,
    the capability probe is called once, on its first cycle, and its answer is
    the one every later cycle of that generation uses, until a cycle finds the
    supervisor not running. *)
Theorem monitor_calls_are_edges options l m g p now rest v e :
  op_CodexConfigured options = true -> cached g m = false ->
  runs_as g p -> is_Some (p_Compatibility p) ->
  Forall (fun c => runs_as g c.1 /\ is_Some (p_Compatibility c.1)) rest ->
  supervisorRunningObservation (supervisorStatus v e) = false ->
  mo_wakes (cycles options l m) = (mo_wakes m + rising (eligible m) (eligible <$> trajectory options l m))%nat /\
  (let m' := cycles options ((p, now) :: rest) m in
   mo_compatCalls m' = mo_compatCalls m ++ [g] /\ mo_cachedModel m' = capability p) /\
  (forall q t m', p_Supervisor q = Some (v, e) -> cached g (probeAndPublish options q t m') = false).
Proof.
  intros Hconf Hc Hr Hp Hall Hrun. split_and!.
  - apply cycles_wakes.
  - destruct (publish_cache options Hconf g p now m Hr Hp) as (H1 & H2 & H3 & _). rewrite Hc in H2, H3.
    destruct (cycles_cache options Hconf g rest _ H1 Hall) as (_ & I2 & I3). cbv zeta.
    change (cycles options ((p, now) :: rest) m) with (cycles options rest (probeAndPublish options p now m)).
    by rewrite I2, I3, H2, H3.
  - intros q t m' Hq. unfold cached. by rewrite (publish_uncached options Hconf q t m' v e Hq Hrun).
Qed.

Definition closed_wait (k : nat) : Z := Z.min (defaultStateChangeBackoff * 2 ^ Z.of_nat k) maxStateChangeBackoff.

Lemma closed_wait_next k : nextStateChangeBackoff (closed_wait k) = closed_wait (S k).
Proof.
  unfold closed_wait, defaultStateChangeBackoff, maxStateChangeBackoff, millisecond, second.
  rewrite Nat2Z.inj_succ, Z.pow_succ_r by lia. unfold nextStateChangeBackoff, maxStateChangeBackoff, second.
  change (Z.quot 1000000000 2) with 500000000. pose proof (Z.pow_pos_nonneg 2 (Z.of_nat k)).
  destruct (Z.leb_spec (Z.min (10 * 1000000 * 2 ^ Z.of_nat k) 1000000000) 0); [lia|].
  destruct (Z.leb_spec 500000000 (Z.min (10 * 1000000 * 2 ^ Z.of_nat k) 1000000000)); lia.
Qed.

Lemma watch_closed n k t :
  watchStateChanges (replicate n (SubClosed true)) (closed_wait k) t
  = (closed_wait <$> seq k n, t || negb (n =? 0)%nat, Some (closed_wait (k + n))).
Proof.
  revert k t. induction n as [|n IH]; intros k t; cbn [replicate watchStateChanges watchStep]; [by rewrite orb_false_r, Nat.add_0_r|].
  rewrite closed_wait_next, IH. cbn. rewrite Nat.add_succ_r. by destruct t, n.
Qed.

Lemma watch_app l1 l2 b t :
  watchStateChanges (l1 ++ l2) b t =
  let '(w, t1, r) := watchStateChanges l1 b t in
  match r with
  | None => (w, t1, None)
  | Some b' => let '(w2, t2, r2) := watchStateChanges l2 b' t1 in (w ++ w2, t2, r2)
  end.
Proof.
  revert b t. induction l1 as [|s l1 IH]; intros b t; cbn [app watchStateChanges]; [by destruct (watchStateChanges l2 b t) as [[? ?] ?]|].
  destruct (watchStep s b) as [[b'|] t']; [|done]. rewrite IH. destruct (watchStateChanges l1 b' _) as [[w t1] [b1|]]; [|done].
  destruct (watchStateChanges l2 b1 t1) as [[w2 t2] r2]. by rewrite app_assoc.
Qed.

(** A reporter that hands out closed channels for ever is asked again
    after waits that double from ten milliseconds and stay at one second, and
    one transition on an open channel afterwards restores the first wait. *)
Theorem closed_channel_backoff n :
  watchStateChanges (replicate n (SubClosed true) ++ [SubOpen true]) defaultStateChangeBackoff false =
  ((fun k => Z.min (defaultStateChangeBackoff * 2 ^ Z.of_nat k) maxStateChangeBackoff) <$> seq 0 n, true,
   Some defaultStateChangeBackoff).
Proof.
  rewrite watch_app. change defaultStateChangeBackoff with (closed_wait 0) at 1. rewrite watch_closed.
  cbn [watchStateChanges watchStep]. by rewrite app_nil_r, orb_true_r.
Qed.

(** ** The two views *)

(** The readiness page and the notifier read one publication and agree
    on it: after a cycle the page's readiness and watchdog flags are the
    snapshot's, a component is shown ready exactly when it is healthy and for
    every one of the seven names, the copy that the transport makes changes
    nothing it shows, and a page that shows an exhausted recovery is one the
    notifier takes for exhausted, when the supervisor is the managed client. *)
Theorem views_agree options p now m available s :
  now <> zeroTime -> op_CodexConfigured options = true -> p_Supervisor p = Some (clientSupervisor available s, false) ->
  let m' := probeAndPublish options p now m in
  let page := httpSnapshot options m' in
  rh_Ready page = sn_Ready (current m') /\ rh_WatchdogEligible page = hs_WatchdogEligible (watchdogSnapshot options m') /\
  (forall name, name ∈ ["database"; "codex"; "supervisor"; "account"; "model"; "reconciliation"; "persistence"]%string ->
     exists c, rh_Components page !! name = Some c /\
       hc_Ready c = is_state (c_Status (Get (sn_Components (current m')) name)) ComponentHealthy) /\
  rh_Components page !! "codex"%string = Some (projectComponent (Codex (sn_Components (current m'))) (op_RequiredCodex options)) /\
  hv_RecoveryExhausted (rh_Supervisor page) = hs_RecoveryExhausted (watchdogSnapshot options m') /\
  hv_Generation (rh_Supervisor page) = rh_Generation page /\ CloneRuntimeHealthSnapshot page = page.
Proof.
  intros Hn Hconf Hp. destruct (publish_eq options p now m) as (Hpub & _). cbv zeta.
  destruct (view_fields options p now m Hn) as (_ & _ & _ & _ & _ & V6 & _ & _ & V9).
  assert (sr_Generation (cycle_supervisor options p now m) = sn_Generation (Evaluate (cycle_input options p now m)) /\
          sr_RecoveryExhausted (cycle_supervisor options p now m) = cycle_exhausted options p now m /\
          op_CodexConfigured options = true) as (G1 & G2 & _).
  { destruct (Evaluate_overall (cycle_input options p now m)) as (_ & _ & ->).
    unfold cycle_exhausted, cycle_supervisor, cycle_input, probe_codex. rewrite Hconf, Hp. cbn [negb]. cbv zeta.
    set (o := runtimeSupervisorObservation _ _ _).
    assert (sr_RecoveryExhausted (clientSupervisor available s) = seqb (sv_Status o) "exhausted") as Hx.
    { subst o. unfold runtimeSupervisorObservation, supervisorStatus, clientSupervisor. cbn [sv_Status]. destruct s as [s|]; cbn.
      - case_match eqn:E; [done|]. destruct (seqb (ps_State s) "exhausted") eqn:E'; [apply seqb_true in E'; by rewrite E' in E|].
        by repeat case_match.
      - by destruct available. }
    destruct (supervisorRunningObservation _); [destruct (probeCodexForGeneration _ _ _ _) as [[? ?] ?]|]; done. }
  assert (sn_Generation (current (probeAndPublish options p now m)) = sr_Generation (cycle_supervisor options p now m)) as G3
    by (unfold current; by rewrite Hpub).
  rewrite V6, V9. unfold httpSnapshot, current. rewrite Hpub.
  destruct (Evaluate_flags (cycle_input options p now m)) as (_ & _ & Hw & _).
  destruct (cycle_input_fields options p now m) as (_ & _ & _ & _ & _ & F6).
  cbn [pu_snapshot pu_meta pu_supervisor]. split_and!.
  - done.
  - unfold runtimeHTTPSnapshot. simpl. by rewrite Hw, F6.
  - intros name Hname. rewrite !elem_of_cons in Hname.
    destruct Hname as [->|[->|[->|[->|[->|[->|[->|Hx]]]]]]]; [eexists; split; reflexivity..|]. by apply not_elem_of_nil in Hx.
  - done.
  - unfold runtimeHTTPSnapshot. simpl. rewrite G2, <-orb_assoc. f_equal.
    destruct (seqb (sn_State _) StateExhausted) eqn:E; [|by rewrite orb_false_r]. apply seqb_true, state_exhausted in E.
    unfold cycle_exhausted. by rewrite E.
  - unfold runtimeHTTPSnapshot. cbn [rh_Supervisor set_supervisor hv_Generation rh_Generation ProjectRuntimeHealth].
    rewrite G1. by destruct (sn_Generation _ =? 0).
  - unfold CloneRuntimeHealthSnapshot, runtimeHTTPSnapshot, set_supervisor.
    cbn [rh_Supervisor hv_Generation rh_Generation ProjectRuntimeHealth]. rewrite G1.
    destruct (sn_Generation (Evaluate (cycle_input options p now m)) =? 0) eqn:E; cbn [negb orb]; rewrite E; done.
Qed.

Module HealthDemo.
Definition second_ : Z := 1000000000.
Definition options (required : bool) : runtimeHealthOptions :=
  {| op_RequiredCodex := required; op_CodexConfigured := true; op_RecoveryGrace := 30 * second_ |}.
Definition process (state : string) (failedAt : Z) : processSnapshot :=
  {| ps_State := state; ps_Attempts := 0; ps_MaxAttempts := 5; ps_NextRetryAt := zeroTime; ps_LastHealthyAt := 1;
     ps_LastFailureAt := failedAt; ps_Generation := 2 |}.
Definition probes (d : ADB) (account : string) (s : processSnapshot) : runtimeProbes :=
  {| p_DB := Some true;
     p_Persistence := Some (serverPersistence false false (storePersistence (persistence_counts (Some "healthy"%string) d)));
     p_Supervisor := Some (clientSupervisor true (Some s), false); p_Account := Some (Some account);
     p_Compatibility := Some (Some true) |}.
Definition pending : intent_row :=
  {| in_job := "j"; in_operation := "outcome"; in_digest := ""; in_payload := ""; in_state := "pending"; in_attempts := 0;
     in_next := Some 0; in_owner := ""; in_expires := None; in_error := ""; in_applied := None; in_created := 0; in_updated := 0 |}.
Definition busy : ADB := set_a_intents {[ "i"%string := pending ]} adb_empty.
Definition well (t : Z) : runtimeProbes * Z := (probes adb_empty "signed_in" (process "available" 1), t).
Definition signed_out : runtimeProbes := probes adb_empty "signed_out" (process "available" 1).
Definition running (required : bool) : runtimeHealthMonitor := cycles (options required) [well 5] (newRuntimeHealthMonitor (options required)).
Definition config : notifierConfig := newConfig true true 0 0.

Example running_ready : sn_State (current (running true)) = StateReady /\ mo_compatCalls (running true) = [2] /\ mo_wakes (running true) = 1%nat.
Proof. repeat split; reflexivity. Qed.
End HealthDemo.

Lemma recovery_is_tracked_witness :
  let m := cycles (HealthDemo.options true) [HealthDemo.well 5; (HealthDemo.signed_out, 9)] (newRuntimeHealthMonitor (HealthDemo.options true)) in
  me_recoveryActive (pu_meta (mo_publication m)) = true.
Proof.
  apply (recovery_is_tracked (HealthDemo.options true) 0 [HealthDemo.well 5; (HealthDemo.signed_out, 9)]);
    [repeat split; vm_compute; congruence|reflexivity..].
Defined.

Lemma store_decides_service_witness :
  snd (observeAt HealthDemo.config 7 true (watchdogSnapshot (HealthDemo.options false) (probeAndPublish (HealthDemo.options false) (HealthDemo.well 6).1 6 (HealthDemo.running false))) newServiceNotifier) = None.
Proof.
  pose proof (store_decides_service (HealthDemo.options false) HealthDemo.config (HealthDemo.well 6).1 6 (HealthDemo.running false) 7 true newServiceNotifier) as H.
  destruct (observeAt _ _ _ _ _) as [n' r]. simpl. apply H; [vm_compute; congruence| |reflexivity|reflexivity].
  split; [reflexivity|]. eexists. split_and!; try reflexivity. apply (proj1 (bool_decide_eq_true _)). reflexivity.
Defined.

Lemma ledger_backlog_ends_service_witness :
  snd (observeAt HealthDemo.config 7 false (watchdogSnapshot (HealthDemo.options false)
         (probeAndPublish (HealthDemo.options false) (HealthDemo.probes HealthDemo.busy "signed_in" (HealthDemo.process "available" 1)) 6
            (HealthDemo.running false))) newServiceNotifier) = Some ErrNotifierCoreFailure.
Proof.
  apply (ledger_backlog_ends_service (HealthDemo.options false) HealthDemo.config HealthDemo.busy "healthy" false); try reflexivity.
  - vm_compute. congruence.
  - exists "i"%string, HealthDemo.pending. split; [reflexivity|]. apply (proj1 (bool_decide_eq_true _)). reflexivity.
Defined.

Lemma stale_failure_spends_grace_witness :
  snd (observeAt HealthDemo.config 100000000000 true (watchdogSnapshot (HealthDemo.options true)
         (probeAndPublish (HealthDemo.options true) HealthDemo.signed_out 100000000000 (HealthDemo.running true))) newServiceNotifier)
  = Some ErrNotifierExhausted.
Proof.
  apply (stale_failure_spends_grace (HealthDemo.options true) HealthDemo.config HealthDemo.signed_out 100000000000 (HealthDemo.running true)
           (HealthDemo.process "available" 1) (p_Persistence HealthDemo.signed_out) 100000000000 true newServiceNotifier);
    try reflexivity; vm_compute; congruence.
Defined.

Lemma monitor_calls_are_edges_witness :
  mo_compatCalls (cycles (HealthDemo.options true) [HealthDemo.well 5; HealthDemo.well 10; HealthDemo.well 15] (newRuntimeHealthMonitor (HealthDemo.options true)))
  = [2].
Proof.
  assert (forall t, runs_as 2 (HealthDemo.well t).1) as Hr.
  { intros t. exists (clientSupervisor true (Some (HealthDemo.process "available" 1))), false. repeat split; reflexivity. }
  destruct (monitor_calls_are_edges (HealthDemo.options true) [] (newRuntimeHealthMonitor (HealthDemo.options true)) 2 (HealthDemo.well 5).1 5
              [HealthDemo.well 10; HealthDemo.well 15] (clientSupervisor true (Some (HealthDemo.process "starting" 1))) false)
    as (_ & [H _] & _); [reflexivity|reflexivity|apply Hr|by eexists| |reflexivity|exact H].
  repeat constructor; try apply Hr; by eexists.
Defined.

Lemma views_agree_witness :
  hv_RecoveryExhausted (rh_Supervisor (httpSnapshot (HealthDemo.options true)
    (probeAndPublish (HealthDemo.options true) (HealthDemo.probes adb_empty "signed_in" (HealthDemo.process "exhausted" 1)) 6 (HealthDemo.running true))))
  = hs_RecoveryExhausted (watchdogSnapshot (HealthDemo.options true)
    (probeAndPublish (HealthDemo.options true) (HealthDemo.probes adb_empty "signed_in" (HealthDemo.process "exhausted" 1)) 6 (HealthDemo.running true))).
Proof.
  apply (views_agree (HealthDemo.options true) (HealthDemo.probes adb_empty "signed_in" (HealthDemo.process "exhausted" 1)) 6 (HealthDemo.running true)
           true (Some (HealthDemo.process "exhausted" 1))); [vm_compute; congruence|reflexivity|reflexivity].
Defined.
