(* ===== verification/ServiceSpec.v ===== *)
(** * The supervised service

    The health monitor reads the Codex supervisor through the snapshot that
    its manager reports; this file joins the two. *)

From Stdlib Require Import ZArith Lia.
From stdpp Require Import base strings list option relations.
From S2P Require Import Prelude GoText RuntimeHealth Notifier NotifierSpec HealthMonitor HealthSpec Supervisor SupervisorSpec.

Local Open Scope Z_scope.

Definition stateText (s : ProcessState) : string :=
  match s with
  | ProcessStateStarting => "starting" | ProcessStateAvailable => "available" | ProcessStateDegraded => "degraded"
  | ProcessStateRecovering => "recovering" | ProcessStateExhausted => "exhausted" | ProcessStateClosed => "closed"
  end.

(** The facts of the manager's report that the monitor copies. *)
Definition processOf (s : Supervisor.Snapshot) : processSnapshot :=
  {| ps_State := stateText (Supervisor.sn_State s); ps_Attempts := sn_Attempts s; ps_MaxAttempts := sn_MaxAttempts s;
     ps_NextRetryAt := sn_NextRetryAt s; ps_LastHealthyAt := sn_LastHealthyAt s;
     ps_LastFailureAt := Supervisor.sn_LastFailureAt s; ps_Generation := Supervisor.sn_Generation s |}.

(** A cycle of the monitor that reads the manager [m]. *)
Definition reads (m : manager) (alive : nat -> bool) (p : runtimeProbes) : Prop :=
  p_Supervisor p = Some (clientSupervisor (Available alive m) (Some (processOf (snapshot m))), false).

Section Cycle.
Context (options : runtimeHealthOptions) (p : runtimeProbes) (m : manager) (alive : nat -> bool).
Context (configured : op_CodexConfigured options = true) (Hreads : reads m alive p).

Lemma cycle_status now mon : sv_Status (i_Supervisor (cycle_input options p now mon)) = stateText (m_state m).
Proof.
  unfold cycle_input, probe_codex. rewrite configured, Hreads. cbn [negb]. cbv zeta.
  set (o := runtimeSupervisorObservation _ _ _).
  assert (sv_Status o = stateText (m_state m)) as Hs by (subst o; simpl; by destruct (m_state m)).
  destruct (supervisorRunningObservation _); [destruct (probeCodexForGeneration _ _ _ _) as [[? ?] ?]|]; exact Hs.
Qed.

(** Codex is usable only while the manager is available. *)
Lemma cycle_usable now mon : codex_usable (cycle_input options p now mon) = true -> m_state m = ProcessStateAvailable.
Proof.
  unfold codex_usable. intros H. apply andb_true_iff in H as [[[_ Ha]%andb_true_iff _]%andb_true_iff _].
  apply cycle_available in Ha as [Hr _]. rewrite cycle_status in Hr. by destruct (m_state m).
Qed.
End Cycle.

(** The scheduler runs only while the managed process is available: a
    cycle that reads the manager in any other state publishes a snapshot on
    which the scheduler is not eligible, and, when Codex is required, one that
    is not ready and whose recovery is exhausted once the grace has passed
    since it began, which is fatal to the service. *)
Theorem service_follows_process options cfg p m alive now mon t ping n :
  op_CodexConfigured options = true -> reads m alive p -> m_state m <> ProcessStateAvailable -> now <> zeroTime ->
  eligible (probeAndPublish options p now mon) = false /\
  (op_RequiredCodex options = true -> RuntimeHealth.sn_Ready (HealthMonitor.current (probeAndPublish options p now mon)) = false) /\
  (op_RequiredCodex options = true -> me_readyLatched (pu_meta (mo_publication mon)) = true ->
   me_recoverySince (pu_meta (mo_publication mon)) <> zeroTime ->
   op_RecoveryGrace options <= time_Sub now (me_recoverySince (pu_meta (mo_publication mon))) ->
   snd (observeAt cfg t ping (watchdogSnapshot options (probeAndPublish options p now mon)) n) = Some ErrNotifierExhausted).
Proof.
  intros Hconf Hr Hst Hn. set (i := cycle_input options p now mon).
  assert (codex_usable i = false) as Hu.
  { destruct (codex_usable i) eqn:E; [|done]. by apply (cycle_usable options p m alive Hconf Hr) in E. }
  destruct (publish_eq options p now mon) as (Hp & _). destruct (Evaluate_flags i) as (Hready & _ & _ & Helig). fold i in Hp.
  split_and!.
  - unfold eligible, HealthMonitor.current. rewrite Hp. cbn [pu_snapshot]. by rewrite Helig, Hu, andb_false_r.
  - intros Hreq. unfold HealthMonitor.current. rewrite Hp. cbn [pu_snapshot]. rewrite Hready, Hu.
    destruct (cycle_input_fields options p now mon) as (_ & _ & _ & _ & _ & F6). fold i in F6. rewrite F6, Hreq. by rewrite andb_false_r.
  - intros Hreq Hlatch Hsince Hgrace.
    destruct (view_fields options p now mon Hn) as (V1 & _ & _ & _ & V5 & _ & _ & _ & V9).
    assert (hs_RecoveryExhausted (watchdogSnapshot options (probeAndPublish options p now mon)) = true) as Hx.
    { rewrite V9, Hp. cbn [pu_meta]. unfold nextMeta. subst i. rewrite cycle_codex_healthy, cycle_exhausted_eq, Hu.
      destruct (cycle_exhausted options p now mon); [done|]. rewrite Hlatch, Hconf, orb_true_r. cbn [andb me_recoveryExhausted].
      unfold recovery_start, IsZero. rewrite (proj2 (Z.eqb_neq _ _) Hsince). cbn [negb]. rewrite orb_false_r. by apply Z.leb_le. }
    unfold observeAt, classify. rewrite V1, V5, Hreq, Hx. cbn [negb andb]. by destruct (readyAuthorized cfg _ t n).
Qed.

(** C36: A replacement that fails as soon as it is installed can end the
    scheduler's work for good.  The manager can be left degraded, at rest, with
    two of its three restarts unused and no recovery to run; from then on,
    until it is closed, no request gets a child, and every cycle of the health
    monitor that reads it publishes a scheduler that is not eligible. *)
Theorem failed_replacement_idles_scheduler options :
  op_CodexConfigured options = true ->
  exists y, rtc Supervisor.sys_step (start (newManager 0 0 0 0 0 0 0)) y /\ at_rest y /\
    sn_RestartBudget (snapshot (y_manager y)) = 2 /\
    forall y', rtc Supervisor.sys_step y y' -> m_closed (y_manager y') = false ->
      Supervisor.current (y_manager y') = None /\
      forall alive p now mon, reads (y_manager y') alive p -> now <> zeroTime -> eligible (probeAndPublish options p now mon) = false.
Proof.
  intros Hconf. destruct failed_replacement_stalls as (y & H1 & H2 & _ & H4 & H5). exists y. split_and!; [done..|].
  intros y' Hy Hc. destruct (H5 y' Hy Hc) as (Hs & Hcur & _). split; [done|]. intros alive p now mon Hr Hn.
  assert (codex_usable (cycle_input options p now mon) = false) as Hu.
  { destruct (codex_usable _) eqn:E; [|done]. apply (cycle_usable options p (y_manager y') alive Hconf Hr) in E. congruence. }
  destruct (publish_eq options p now mon) as (Hp & _). destruct (Evaluate_flags (cycle_input options p now mon)) as (_ & _ & _ & Helig).
  unfold eligible, HealthMonitor.current. rewrite Hp. cbn [pu_snapshot]. by rewrite Helig, Hu, andb_false_r.
Qed.

Module ServiceDemo.
Definition probes (m : manager) : runtimeProbes :=
  {| p_DB := Some true;
     p_Persistence := Some (Some {| pr_Healthy := true; pr_Reconciliation := "healthy"; pr_Uncertain := 0;
                                    pr_PersistenceAttention := false; pr_PersistenceFault := false |});
     p_Supervisor := Some (clientSupervisor (Available (fun _ => true) m) (Some (processOf (snapshot m))), false);
     p_Account := Some (Some "signed_in"%string); p_Compatibility := Some (Some true) |}.
Definition options : runtimeHealthOptions :=
  {| op_RequiredCodex := true; op_CodexConfigured := true; op_RecoveryGrace := 30000000000 |}.
Definition up : manager := y_manager (fold_left SupervisorSpec.play SupervisorDemo.first_child SupervisorDemo.begin_).
Definition down : manager := y_manager SupervisorDemo.stalled_system.
Definition before : runtimeHealthMonitor :=
  cycles options [(probes up, 15); (probes down, 70)] (newRuntimeHealthMonitor options).

Example up_eligible : eligible (probeAndPublish options (probes up) 15 (newRuntimeHealthMonitor options)) = true.
Proof. vm_compute. reflexivity. Qed.
End ServiceDemo.

Lemma service_follows_process_witness :
  snd (observeAt (newConfig true true 0 0) 40000000000 true
         (watchdogSnapshot ServiceDemo.options (probeAndPublish ServiceDemo.options (ServiceDemo.probes ServiceDemo.down) 40000000000 ServiceDemo.before))
         newServiceNotifier) = Some ErrNotifierExhausted.
Proof.
  apply (service_follows_process ServiceDemo.options (newConfig true true 0 0) (ServiceDemo.probes ServiceDemo.down) ServiceDemo.down (fun _ => true)
           40000000000 ServiceDemo.before 40000000000 true newServiceNotifier); try reflexivity; vm_compute; congruence.
Defined.

Lemma failed_replacement_idles_scheduler_witness :
  exists y, rtc Supervisor.sys_step (start (newManager 0 0 0 0 0 0 0)) y /\ sn_RestartBudget (snapshot (y_manager y)) = 2.
Proof.
  destruct (failed_replacement_idles_scheduler ServiceDemo.options eq_refl) as (y & H1 & _ & H3 & _).
  exact (ex_intro _ y (conj H1 H3)).
Defined.
