(* ===== verification/ArchPolicy.v ===== *)
(** * Digests, identifiers and the validation of reported outcomes

    [internal/store/project_archaeology_policy.go], [validArchaeologyOutcome]
    of [project_archaeology_runner.go], [validHistoricalSource] and
    [deterministicHistoricalID] of [historical_import.go], and
    [archaeologyDigest] of [project_archaeology.go].

    A report of the external process is accepted only when every piece of
    evidence it names is of a kind the human attested, under an opaque
    identifier, and when the evidence of its proposal is part of it.  The
    decoding of JSON and the hash are arguments. *)

From stdpp Require Import base gmap strings list sets.
From Stdlib Require Import ZArith Lia Ascii.
From S2P Require Import Prelude GoText Framing CoreDB OpsFs ArchDB.

Local Open Scope Z_scope.

(** ** [crypto/sha256] and the identifiers derived from it *)

Definition deterministicHistoricalID `{Sha256} (prefix : string) (parts : list string) : string :=
  prefix +:+ hex_EncodeToString (String.substring 0 12 (sha256_Sum256 (String.concat (String Ascii.zero "") parts))).

(** The structs that [archaeologyDigest] is called with. *)
Inductive digestValue :=
  | nativeStart (BaseRevision : Z) (Policy : ArchaeologyExecutionPolicy) (MaxConcurrency : Z) (AcknowledgeLargeBatch : bool)
  | nativeStartLegacy (BaseRevision : Z)
  | nativeResolve (BaseRevision : Z) (JobID ThreadID TurnID Action : string)
  | nativeCancel (BaseRevision : Z).

(** [json.Marshal] of an operation and such a struct *)
Class DigestJSON := json_digest : string -> digestValue -> string.

Definition archaeologyDigest `{Sha256, DigestJSON} (operation : string) (value : digestValue) : string :=
  sha256_Sum256 (json_digest operation value).

(** ** [strings], [unicode] and [path] *)

Definition bytes_of (s : string) : bytes := String.list_ascii_of_string s.

Fixpoint HasPrefix (s prefix : bytes) {struct prefix} : bool :=
  match prefix, s with
  | [], _ => true
  | p :: prefix', c :: s' => bool_decide (c = p) && HasPrefix s' prefix'
  | _ :: _, [] => false
  end.

Definition HasSuffix (s suffix : bytes) : bool := HasPrefix (reverse s) (reverse suffix).

Fixpoint Contains (s needle : bytes) : bool :=
  HasPrefix s needle || match s with [] => false | _ :: s' => Contains s' needle end.

Definition TrimPrefix (s prefix : bytes) : bytes := if HasPrefix s prefix then drop (length prefix) s else s.

(** [strings.ToLower], as far as a search for ASCII text sees it.  Two runes
    beyond ASCII have an ASCII lower case: U+0130 and U+212A.  The lower case
    of any other is beyond ASCII too, and is left as it stands. *)
Definition lower_byte (a : ascii) : ascii := if between 65 90 a then ascii_of_N (N_of_ascii a + 32) else a.

Fixpoint ToLower (s : bytes) : bytes :=
  match s with
  | [] => []
  | x :: s1 =>
      match s1 with
      | y :: s2 =>
          if (byte x =? 0xC4) && (byte y =? 0xB0) then "i"%char :: ToLower s2
          else match s2 with
               | z :: s3 =>
                   if (byte x =? 0xE2) && (byte y =? 0x84) && (byte z =? 0xAA) then "k"%char :: ToLower s3
                   else lower_byte x :: ToLower s1
               | [] => lower_byte x :: ToLower s1
               end
      | [] => [lower_byte x]
      end
  end.

(** [unicode.IsControl] of some rune of valid UTF-8: below U+0020, U+007F,
    or U+0080 to U+009F, whose encodings are C2 80 to C2 9F *)
Fixpoint has_control (s : bytes) : bool :=
  match s with
  | [] => false
  | x :: s' =>
      (byte x <? 32) || (byte x =? 127)
      || match s' with y :: _ => (byte x =? 0xC2) && between 0x80 0x9F y | [] => false end
      || has_control s'
  end.

(** [path.Clean]: the elements that are kept, last first *)
Fixpoint clean_elements (rooted : bool) (kept : list bytes) (elements : list bytes) : list bytes :=
  match elements with
  | [] => kept
  | e :: rest =>
      if bool_decide (e = []) || bool_decide (e = [dot]) then clean_elements rooted kept rest
      else if bool_decide (e = [dot; dot]) then
        match kept with
        | top :: below =>
            if bool_decide (top = [dot; dot]) then clean_elements rooted (e :: kept) rest
            else clean_elements rooted below rest
        | [] => clean_elements rooted (if rooted then [] else [e]) rest
        end
      else clean_elements rooted (e :: kept) rest
  end.

Definition Clean (p : bytes) : bytes :=
  let rooted := HasPrefix p [slash] in
  let out := join slash (reverse (clean_elements rooted [] (split_on slash p))) in
  if rooted then slash :: out else if bool_decide (out = []) then [dot] else out.

(** ** Identifiers of evidence *)

Definition lower_hex (s : bytes) : bool := forallb hex_char s.
Definition letter_or_digit (c : ascii) : bool := between 48 57 c || between 65 90 c || between 97 122 c.

(** [^(commit|tree|blob|tag):[0-9a-f]{40}([0-9a-f]{24})?$] *)
Definition nativeGitObjectID (s : bytes) : bool :=
  existsb (fun p => HasPrefix s p &&
    let rest := drop (length p) s in
    lower_hex rest && (Nat.eqb (length rest) 40 || Nat.eqb (length rest) 64))
    (map bytes_of ["commit:"; "tree:"; "blob:"; "tag:"]%string).

(** [^(task|thread):[A-Za-z0-9][A-Za-z0-9_-]{7,119}$] *)
Definition nativeCodexID (s : bytes) : bool :=
  existsb (fun p => HasPrefix s p &&
    match drop (length p) s with
    | c :: rest =>
        letter_or_digit c && forallb (fun x => letter_or_digit x || (byte x =? 95) || (byte x =? 45)) rest
        && Nat.leb 7 (length rest) && Nat.leb (length rest) 119
    | [] => false
    end) (map bytes_of ["task:"; "thread:"]%string).

Definition forbidden_ids : list bytes :=
  map bytes_of ["/home/"; "\\"; "prompt"; "transcript"; "secret"; "private"; "credential"; "password"; "token"; ".env";
         "id_rsa"; "id_ed25519"]%string.

Definition opaqueNativeStableID (value : string) : bool :=
  boundedCoreText value 300 true && seqb (TrimSpace value) value && negb (has_control (bytes_of value))
  && negb (existsb (Contains (ToLower (bytes_of value))) forbidden_ids).

Definition ref_char (c : ascii) : bool :=
  letter_or_digit c || (byte c =? 45) || (byte c =? 95) || (byte c =? 46) || (byte c =? 43).

Definition validNativeGitRef (value : bytes) : bool :=
  HasPrefix value (bytes_of "ref:refs/") &&
  let ref := TrimPrefix value (bytes_of "ref:") in
  negb (Contains ref (bytes_of "..") || Contains ref (bytes_of "@{") || Contains ref (bytes_of "//") || HasSuffix ref (bytes_of "/")
        || HasSuffix ref (bytes_of ".") || HasSuffix ref (bytes_of ".lock"))
  && forallb (fun segment =>
       negb (bool_decide (segment = []) || bool_decide (segment = [dot]) || bool_decide (segment = [dot; dot])
             || HasPrefix segment [dot] || HasSuffix segment (bytes_of ".lock"))
       && forallb ref_char segment) (split_on slash ref).

Definition validNativeDocumentPath (value : string) : bool :=
  let v := bytes_of value in
  negb (negb (opaqueNativeStableID value) || HasPrefix v [slash] || HasPrefix v (bytes_of "~") || Contains v (bytes_of ":")
        || negb (bool_decide (Clean v = v)) || bool_decide (v = [dot]))
  && forallb (fun segment =>
       negb (bool_decide (segment = []) || bool_decide (segment = [dot]) || bool_decide (segment = [dot; dot])
             || HasPrefix segment [dot])) (split_on slash v).

Definition validNativeStableID (kind value : string) : bool :=
  opaqueNativeStableID value &&
  (if seqb kind "git" then nativeGitObjectID (bytes_of value) || validNativeGitRef (bytes_of value)
   else if seqb kind "docs" then validNativeDocumentPath value
   else if seqb kind "codex_history" then nativeCodexID (bytes_of value)
   else false).

(** ** Historical values *)

(** [^[a-z0-9][a-z0-9._-]{0,63}$] *)
Definition historicalKeyPattern (value : string) : bool :=
  match bytes_of value with
  | c :: rest =>
      slug_first c && forallb (fun x => slug_first x || (byte x =? 46) || (byte x =? 95) || (byte x =? 45)) rest
      && Nat.leb (length rest) 63
  | [] => false
  end.

(** [^sha256:[0-9a-f]{64}$] *)
Definition historicalDigestPattern (value : string) : bool :=
  HasPrefix (bytes_of value) (bytes_of "sha256:") &&
  let rest := drop 7 (bytes_of value) in lower_hex rest && Nat.eqb (length rest) 64.

Definition HistoricalImportSchemaVersion : Z := 1.
Definition HistoricalCollisionCurrentWins : string := "current_wins".
Definition HistoricalRoles : list string := ["originator"; "implementer"; "reviewer"; "evaluator"].
Definition HistoricalConfidences : list string := ["verified"; "supported"; "uncertain"].
Definition HistoricalEventKinds : list string :=
  ["completed"; "reviewed"; "failed"; "retried"; "remediated"; "evaluated"].
Definition maxHistoricalAttributions : Z := 200.
Definition maxHistoricalEvents : Z := 500.
Definition maxHistoricalSourceKind : Z := 40.
Definition maxHistoricalStableID : Z := 300.

(** [domain.HistoricalSource], [domain.ArchaeologyProvenance] and
    [nativeProposalSource] have these fields. *)
Record source := { s_Kind : string; s_StableID : string; s_Digest : string; s_OccurredAt : Z }.

Definition validHistoricalSource (s : source) (now : Z) : bool :=
  boundedCoreText (s_Kind s) maxHistoricalSourceKind true && boundedCoreText (s_StableID s) maxHistoricalStableID true
  && historicalDigestPattern (s_Digest s) && negb (IsZero (s_OccurredAt s))
  && (s_OccurredAt s <=? now + 5 * 60 * 1000000000).

(** ** Proposals *)

Record nativeProposalAlias := { al_Alias : string; al_Session : string; al_Source : source }.
Record nativeProposalAttribution := {
  at_Session : string; at_Role : string; at_Confidence : string; at_Source : source }.
Record nativeProposalEvent := {
  e_Key : string; e_Kind : string; e_Session : string; e_Confidence : string; e_Source : source }.
Record nativeProposalTask := {
  k_Key : string; k_Source : source; k_Attributions : list nativeProposalAttribution;
  k_Events : list nativeProposalEvent }.
Record nativeProposal := {
  np_SchemaVersion : Z; np_BatchID : string; np_SourceDigest : string; np_CollisionPolicy : string;
  np_ProjectThreadAliases : list nativeProposalAlias; np_Tasks : list nativeProposalTask }.

(** [json.Valid], and [json.Unmarshal] into a [nativeProposal] *)
Class ProposalJSON := {
  json_Valid : string -> bool;
  json_proposal : string -> option nativeProposal;
}.

(** [nativeEvidenceKey]; [Format(time.RFC3339Nano)] names an instant of UTC *)
Definition nativeEvidenceKey := ((string * string) * (string * Z))%type.
Definition nativeProposalEvidenceKey (s : source) : nativeEvidenceKey :=
  ((s_Kind s, s_StableID s), (s_Digest s, s_OccurredAt s)).

Definition validNativeSource (s : source) (policy : ArchaeologyExecutionPolicy) (now : Z) : bool :=
  Allows policy (s_Kind s) && validNativeStableID (s_Kind s) (s_StableID s) && validHistoricalSource s now.

Definition has (k : string) (m : gset string) : bool := bool_decide (k ∈ m).

(** A loop that may return early. *)
Fixpoint foldM {S A} (f : S -> A -> option S) (s : S) (l : list A) : option S :=
  match l with
  | [] => Some s
  | x :: l' => match f s x with Some s' => foldM f s' l' | None => None end
  end.

(** The maps and counters of [validNativeProposal]. *)
Record proposalState := {
  p_sessions : gset string; p_evidence : gset nativeEvidenceKey; p_aliasSessions : gset string;
  p_aliases : gset string; p_taskKeys : gset string; p_totalAttributions : Z; p_totalEvents : Z }.

Definition witnessed (s : source) (sessions : gset string) (p : proposalState) : proposalState :=
  {| p_sessions := sessions ∪ p_sessions p; p_evidence := {[nativeProposalEvidenceKey s]} ∪ p_evidence p;
     p_aliasSessions := p_aliasSessions p; p_aliases := p_aliases p; p_taskKeys := p_taskKeys p;
     p_totalAttributions := p_totalAttributions p; p_totalEvents := p_totalEvents p |}.

Section Proposals.
Context (policy : ArchaeologyExecutionPolicy) (now : Z).

Definition check_alias (p : proposalState) (a : nativeProposalAlias) : option proposalState :=
  if negb (historicalKeyPattern (al_Alias a)) || has (al_Alias a) (p_aliases p)
     || negb (boundedCoreText (al_Session a) 200 true) || has (al_Session a) (p_aliasSessions p)
     || negb (validNativeSource (al_Source a) policy now)
  then None
  else
    let p := witnessed (al_Source a) {[al_Session a]} p in
    Some {| p_sessions := p_sessions p; p_evidence := p_evidence p;
            p_aliasSessions := {[al_Session a]} ∪ p_aliasSessions p; p_aliases := {[al_Alias a]} ∪ p_aliases p;
            p_taskKeys := p_taskKeys p; p_totalAttributions := p_totalAttributions p; p_totalEvents := p_totalEvents p |}.

Definition check_attribution (st : proposalState * gset string) (a : nativeProposalAttribution)
    : option (proposalState * gset string) :=
  let '(p, attributed) := st in
  if negb (boundedCoreText (at_Session a) 200 true) || has (at_Session a) (p_aliasSessions p)
     || negb (isin (at_Role a) HistoricalRoles) || negb (isin (at_Confidence a) HistoricalConfidences)
     || negb (validNativeSource (at_Source a) policy now)
  then None
  else Some (witnessed (at_Source a) {[at_Session a]} p, {[at_Session a]} ∪ attributed).

Definition check_event (attributed : gset string) (st : proposalState * gset string) (e : nativeProposalEvent)
    : option (proposalState * gset string) :=
  let '(p, eventKeys) := st in
  if negb (historicalKeyPattern (e_Key e)) || has (e_Key e) eventKeys || negb (isin (e_Kind e) HistoricalEventKinds)
     || negb (boundedCoreText (e_Session e) 200 false) || has (e_Session e) (p_aliasSessions p)
     || (negb (seqb (e_Session e) "") && negb (has (e_Session e) attributed))
     || negb (isin (e_Confidence e) HistoricalConfidences) || negb (validNativeSource (e_Source e) policy now)
  then None
  else Some (witnessed (e_Source e) (if seqb (e_Session e) "" then ∅ else {[e_Session e]}) p, {[e_Key e]} ∪ eventKeys).

Definition check_task (p : proposalState) (k : nativeProposalTask) : option proposalState :=
  if negb (historicalKeyPattern (k_Key k)) || has (k_Key k) (p_taskKeys p)
     || (Z.of_nat (length (k_Attributions k)) <? 1) || (2 <? Z.of_nat (length (k_Attributions k)))
     || (1 <? Z.of_nat (length (k_Events k))) || negb (validNativeSource (k_Source k) policy now)
  then None
  else
    let w := witnessed (k_Source k) ∅ p in
    let p := {| p_sessions := p_sessions w; p_evidence := p_evidence w; p_aliasSessions := p_aliasSessions w;
                p_aliases := p_aliases w; p_taskKeys := {[k_Key k]} ∪ p_taskKeys w;
                p_totalAttributions := p_totalAttributions w + Z.of_nat (length (k_Attributions k));
                p_totalEvents := p_totalEvents w + Z.of_nat (length (k_Events k)) |} in
    if (maxHistoricalAttributions <? p_totalAttributions p) || (maxHistoricalEvents <? p_totalEvents p) then None
    else
      match foldM check_attribution (p, ∅) (k_Attributions k) with
      | Some (p, attributed) => fst <$> foldM (check_event attributed) (p, ∅) (k_Events k)
      | None => None
      end.

Definition emptyProposalState : proposalState :=
  {| p_sessions := ∅; p_evidence := ∅; p_aliasSessions := ∅; p_aliases := ∅; p_taskKeys := ∅;
     p_totalAttributions := 0; p_totalEvents := 0 |}.

(** The sessions it names and the evidence it cites. *)
Definition validNativeProposal `{ProposalJSON} (value : string) (limits : ArchaeologyExecutionLimits)
    : option (gset string * gset nativeEvidenceKey) :=
  match json_proposal value with
  | None => None
  | Some np =>
      if negb (np_SchemaVersion np =? HistoricalImportSchemaVersion) || negb (historicalKeyPattern (np_BatchID np))
         || negb (historicalDigestPattern (np_SourceDigest np))
         || negb (seqb (np_CollisionPolicy np) HistoricalCollisionCurrentWins)
         || (Z.of_nat (length (np_Tasks np)) <? 1) || (MaxHistoricalTasks limits <? Z.of_nat (length (np_Tasks np)))
         || (MaxHistoricalAliases limits <? Z.of_nat (length (np_ProjectThreadAliases np)))
      then None
      else
        match foldM check_alias emptyProposalState (np_ProjectThreadAliases np) with
        | Some p => (fun p => (p_sessions p, p_evidence p)) <$> foldM check_task p (np_Tasks np)
        | None => None
        end
  end.
End Proposals.

(** ** Outcomes *)

Record ArchaeologyContributor := {
  ac_SessionID : string; ac_Contribution : string; ac_DemonstratedStrength : string; ac_Uncertainty : string;
  ac_Confidence : string }.
Record ArchaeologyOutcome := {
  ao_ID : string; ao_ProjectID : string; ao_Title : string; ao_Summary : string; ao_SourceCount : Z;
  ao_ProposalJSON : string; ao_Provenance : list source; ao_Contributors : list ArchaeologyContributor }.

Definition ArchaeologyNativeProposalMaxBytes : Z := 32 * 1024.
Definition forbidden_fields : list bytes :=
  map (fun w => "034"%char :: bytes_of w ++ ["034"%char]) ["prompt"; "reasoning"; "transcript"; "secret"; "private_data"]%string.

Definition check_source (now : Z) (seen : gset (string * string * string)) (s : source)
    : option (gset (string * string * string)) :=
  if isin (s_Kind s) ["git"; "docs"; "codex_history"] && validHistoricalSource s now
     && negb (bool_decide ((s_Kind s, s_StableID s, s_Digest s) ∈ seen))
  then Some ({[(s_Kind s, s_StableID s, s_Digest s)]} ∪ seen) else None.

Definition check_member (seen : gset string) (m : ArchaeologyContributor) : option (gset string) :=
  if negb (boundedCoreText (ac_SessionID m) 200 true) || negb (boundedCoreText (ac_Contribution m) 1000 true)
     || negb (boundedCoreText (ac_DemonstratedStrength m) 300 false)
     || negb (boundedCoreText (ac_Uncertainty m) 500 false) || negb (isin (ac_Confidence m) HistoricalConfidences)
     || has (ac_SessionID m) seen
  then None else Some ({[ac_SessionID m]} ∪ seen).

Definition validArchaeologyOutcome `{ProposalJSON} (o : ArchaeologyOutcome) (now : Z) : bool :=
  let provenance := Z.of_nat (length (ao_Provenance o)) in
  boundedCoreText (ao_ID o) 120 false && boundedCoreText (ao_ProjectID o) 120 true
  && boundedCoreText (ao_Title o) 300 true && boundedCoreText (ao_Summary o) 4000 true
  && (1 <=? ao_SourceCount o) && (ao_SourceCount o <=? 1000)
  && (1 <=? provenance) && (provenance <=? 100) && (provenance <=? ao_SourceCount o)
  && (Z.of_nat (length (ao_Contributors o)) <=? 100) && (len (ao_ProposalJSON o) <=? ArchaeologyNativeProposalMaxBytes)
  && json_Valid (ao_ProposalJSON o) && HasPrefix (bytes_of (TrimSpace (ao_ProposalJSON o))) (bytes_of "{")
  && negb (existsb (Contains (ToLower (bytes_of (ao_ProposalJSON o)))) forbidden_fields)
  && bool_decide (is_Some (foldM (check_source now) ∅ (ao_Provenance o)))
  && bool_decide (is_Some (foldM check_member ∅ (ao_Contributors o))).

Definition validNativeOutcome `{ProposalJSON} (o : ArchaeologyOutcome) (policy : ArchaeologyExecutionPolicy)
    (limits : ArchaeologyExecutionLimits) (now : Z) : bool :=
  validArchaeologyOutcome o now && (ao_SourceCount o <=? MaxSourcesExamined limits)
  && (Z.of_nat (length (ao_Provenance o)) <=? MaxProvenancePerOutcome limits)
  && (Z.of_nat (length (ao_Contributors o)) <=? MaxContributorsPerOutcome limits)
  && match validNativeProposal policy now (ao_ProposalJSON o) limits with
     | None => false
     | Some (sessions, evidence) =>
         forallb (fun s => Allows policy (s_Kind s) && validNativeStableID (s_Kind s) (s_StableID s)) (ao_Provenance o)
         && bool_decide (evidence ∖ list_to_set (map nativeProposalEvidenceKey (ao_Provenance o)) = ∅)
         && forallb (fun m => has (ac_SessionID m) sessions) (ao_Contributors o)
     end.

(** ** Document paths *)

(** A path element that neither is empty nor starts with a dot. *)
Definition plain_segment (s : bytes) : Prop := exists c s', s = c :: s' /\ c <> dot.

Lemma HasPrefix1 s c : HasPrefix s [c] = true <-> head s = Some c.
Proof. destruct s as [|x s]; simpl; [done|]. rewrite andb_true_r, bool_decide_eq_true. naive_solver. Qed.

Lemma Contains1 s c : Contains s [c] = true <-> c ∈ s.
Proof.
  induction s as [|x s IH]; [simpl; split; [done|by intros ?%elem_of_nil]|]. cbn [Contains].
  rewrite orb_true_iff, HasPrefix1, IH, elem_of_cons. simpl. naive_solver.
Qed.

Lemma segment_test s :
  negb (bool_decide (s = []) || bool_decide (s = [dot]) || bool_decide (s = [dot; dot]) || HasPrefix s [dot]) = true
  <-> plain_segment s.
Proof.
  rewrite negb_true_iff, !orb_false_iff, !bool_decide_eq_false, <-not_true_iff_false, HasPrefix1. split.
  - intros [[[? _] _] Hh]. destruct s as [|c s]; [done|]. exists c, s. split; [done|]. intros ->. by apply Hh.
  - intros (c & s' & -> & Hc). split_and!; intros ?; simplify_eq/=.
Qed.

Lemma clean_plain rooted kept l : Forall plain_segment l -> clean_elements rooted kept l = reverse l ++ kept.
Proof.
  intros Hl. revert kept. induction Hl as [|s l (c & s' & -> & Hc) _ IH]; intros kept; [done|]. cbn [clean_elements].
  rewrite !bool_decide_eq_false_2 by naive_solver. simpl. rewrite IH, reverse_cons. by rewrite <-app_assoc.
Qed.

(** Plain segments make a clean relative path. *)
Lemma plain_clean v :
  Forall plain_segment (split_on slash v) -> HasPrefix v [slash] = false /\ Clean v = v /\ v <> [dot].
Proof.
  intros Hp. destruct v as [|c v].
  { inversion Hp as [|? ? (? & ? & ? & _)]; simplify_eq. }
  assert (c <> slash /\ (c :: v) <> [dot]) as [Hc Hd].
  { split; [intros -> |intros [= -> ->]].
    - simpl in Hp. inversion Hp as [|? ? (? & ? & ? & _)]; simplify_eq.
    - inversion Hp as [|? ? (? & ? & ? & Hx)]; by simplify_eq. }
  assert (HasPrefix (c :: v) [slash] = false) as Hs.
  { apply not_true_iff_false. rewrite HasPrefix1. by intros [= ->]. }
  split_and!; [done| |done]. unfold Clean. rewrite Hs, (clean_plain _ _ _ Hp), app_nil_r, reverse_involutive, join_split.
  by rewrite bool_decide_eq_false_2.
Qed.

(** The segment test alone decides whether an opaque text is accepted as a
    document path: an accepted path is relative and clean, has no hidden or
    parent segment, no drive or scheme, and no home shorthand. *)
Lemma validNativeDocumentPath_segments value :
  validNativeDocumentPath value = true <->
  opaqueNativeStableID value = true /\ ":"%char ∉ bytes_of value /\ head (bytes_of value) <> Some "~"%char /\
  Forall plain_segment (split_on slash (bytes_of value)).
Proof.
  unfold validNativeDocumentPath. set (v := bytes_of value). change (bytes_of "~") with ["~"%char]. change (bytes_of ":") with [":"%char].
  rewrite andb_true_iff, negb_true_iff, !orb_false_iff, forallb_forall, <-!not_true_iff_false, HasPrefix1, HasPrefix1, Contains1,
    !negb_true_iff, !bool_decide_eq_false, bool_decide_eq_true, not_false_iff_true.
  setoid_rewrite segment_test. rewrite <-List.Forall_forall. split.
  - intros [[[[[[? _] ?] ?] _] _] ?]. split_and!; done.
  - intros (-> & ? & ? & Hp). destruct (plain_clean v Hp) as (Hs & ? & ?). split_and!; try done; [by rewrite <-HasPrefix1, Hs|naive_solver].
Qed.

(** ** What an accepted outcome guarantees *)

(** The evidence and the sessions that a proposal names. *)
Definition task_sources (k : nativeProposalTask) : list source :=
  k_Source k :: map at_Source (k_Attributions k) ++ map e_Source (k_Events k).
Definition proposal_sources (np : nativeProposal) : list source :=
  map al_Source (np_ProjectThreadAliases np) ++ concat (map task_sources (np_Tasks np)).
Definition task_sessions (k : nativeProposalTask) : list string :=
  map at_Session (k_Attributions k) ++ filter (fun s => s <> ""%string) (map e_Session (k_Events k)).
Definition proposal_sessions (np : nativeProposal) : list string :=
  map al_Session (np_ProjectThreadAliases np) ++ concat (map task_sessions (np_Tasks np)).

(** A loop that collects what each element adds. *)
Lemma foldM_collect {S A} `{Countable B} (f : S -> A -> option S) (view : S -> gset B) (g : A -> list B) l s s' :
  (forall s x s', f s x = Some s' -> view s' = view s ∪ list_to_set (g x)) ->
  foldM f s l = Some s' -> view s' = view s ∪ list_to_set (concat (map g l)).
Proof.
  intros Hf. revert s. induction l as [|x l IH]; simpl; intros s.
  - intros [= ->]. set_solver.
  - destruct (f s x) as [s1|] eqn:E; [|done]. intros H1%IH. rewrite H1, (Hf _ _ _ E), list_to_set_app_L. set_solver.
Qed.

(** A property that every element of an accepted list has. *)
Lemma foldM_forall {S A} (f : S -> A -> option S) (P : A -> Prop) l s s' :
  (forall s x s', f s x = Some s' -> P x) -> foldM f s l = Some s' -> Forall P l.
Proof.
  intros Hf. revert s. induction l as [|x l IH]; simpl; intros s; [constructor|].
  destruct (f s x) as [s1|] eqn:E; [|done]. intros H1%IH. constructor; [by eapply Hf|done].
Qed.

Section Collected.
Context (policy : ArchaeologyExecutionPolicy) (now : Z).

Let keys (l : list source) : gset nativeEvidenceKey := list_to_set (map nativeProposalEvidenceKey l).

Lemma check_alias_view p a p' :
  check_alias policy now p a = Some p' ->
  p_evidence p' = p_evidence p ∪ keys [al_Source a] /\ p_sessions p' = p_sessions p ∪ list_to_set [al_Session a] /\
  validNativeSource (al_Source a) policy now = true.
Proof.
  unfold check_alias. case_match eqn:E; [done|]. bool_inv. intros [= <-]. simpl. split_and!; [set_solver..|done].
Qed.

Lemma check_attribution_view p s a p' s' :
  check_attribution policy now (p, s) a = Some (p', s') ->
  p_evidence p' = p_evidence p ∪ keys [at_Source a] /\ p_sessions p' = p_sessions p ∪ list_to_set [at_Session a] /\
  validNativeSource (at_Source a) policy now = true.
Proof.
  unfold check_attribution. case_match eqn:E; [done|]. bool_inv. intros [= <- <-]. simpl. split_and!; [set_solver..|done].
Qed.

Lemma check_event_view attributed p s e p' s' :
  check_event policy now attributed (p, s) e = Some (p', s') ->
  p_evidence p' = p_evidence p ∪ keys [e_Source e] /\
  p_sessions p' = p_sessions p ∪ list_to_set (filter (fun s => s <> ""%string) [e_Session e]) /\
  validNativeSource (e_Source e) policy now = true.
Proof.
  unfold check_event. case_match eqn:E; [done|]. bool_inv. intros [= <- <-]. simpl. unfold seqb.
  split_and!; [set_solver| |done]. case_bool_decide as Hs; [rewrite filter_cons_False by naive_solver
    |rewrite filter_cons_True by done]; set_solver.
Qed.
Lemma list_to_set_single_map {A} `{Countable B} (g : A -> B) l :
  list_to_set (C := gset B) (concat (map (fun x => [g x]) l)) = list_to_set (map g l).
Proof. induction l as [|x l IH]; simpl; [done|]. by rewrite IH. Qed.

Lemma filter_concat_map {A} (g : A -> string) l :
  concat (map (fun x => filter (fun s => s <> ""%string) [g x]) l) = filter (fun s => s <> ""%string) (map g l).
Proof. induction l as [|x l IH]; [done|]. simpl. rewrite IH. by rewrite <-filter_app. Qed.

Lemma check_task_view p k p' :
  check_task policy now p k = Some p' ->
  p_evidence p' = p_evidence p ∪ keys (task_sources k) /\ p_sessions p' = p_sessions p ∪ list_to_set (task_sessions k) /\
  Forall (fun s => validNativeSource s policy now = true) (task_sources k).
Proof.
  unfold check_task. case_match eqn:E; [done|]. cbv zeta. case_match eqn:E2; [done|].
  set (p1 := Build_proposalState _ _ _ _ _ _ _). destruct (foldM _ (p1, ∅) _) as [[p2 attributed]|] eqn:Ha; [|done].
  intros ([p3 ks] & He & ->)%fmap_Some. bool_inv.
  assert (p_evidence p1 = p_evidence p ∪ keys [k_Source k] /\ p_sessions p1 = p_sessions p) as [Hv1 Hs1] by (simpl; set_solver).
  pose proof (foldM_collect _ (fun st => p_evidence st.1) (fun a => map nativeProposalEvidenceKey [at_Source a]) _ _ _
    ltac:(intros [] ? [] ?%check_attribution_view; naive_solver) Ha) as Hv2.
  pose proof (foldM_collect _ (fun st => p_sessions st.1) (fun a => [at_Session a]) _ _ _
    ltac:(intros [] ? [] ?%check_attribution_view; naive_solver) Ha) as Hs2.
  pose proof (foldM_collect _ (fun st => p_evidence st.1) (fun e => map nativeProposalEvidenceKey [e_Source e]) _ _ _
    ltac:(intros [] ? [] ?%check_event_view; naive_solver) He) as Hv3.
  pose proof (foldM_collect _ (fun st => p_sessions st.1) (fun e => filter (fun s => s <> ""%string) [e_Session e]) _ _ _
    ltac:(intros [] ? [] ?%check_event_view; naive_solver) He) as Hs3.
  cbn [fst] in *. split_and!.
  - rewrite Hv3, Hv2, Hv1. unfold keys, task_sources. simpl map. rewrite !map_app, !list_to_set_cons, list_to_set_app_L, !map_map.
    rewrite !list_to_set_single_map. set_solver.
  - rewrite Hs3, Hs2, Hs1. unfold task_sessions. rewrite filter_concat_map, list_to_set_single_map, list_to_set_app_L. set_solver.
  - unfold task_sources. constructor; [done|]. apply Forall_app. rewrite !Forall_map. split.
    + eapply foldM_forall, Ha. intros [] ? [] ?%check_attribution_view. naive_solver.
    + eapply foldM_forall, He. intros [] ? [] ?%check_event_view. naive_solver.
Qed.

(** The loops of [validNativeProposal] collect the evidence and the sessions
    of the whole proposal, each source of which is valid under the policy. *)
Lemma validNativeProposal_collects `{ProposalJSON} value limits sessions evidence np :
  validNativeProposal policy now value limits = Some (sessions, evidence) -> json_proposal value = Some np ->
  evidence = keys (proposal_sources np) /\ sessions = list_to_set (proposal_sessions np) /\
  Forall (fun s => validNativeSource s policy now = true) (proposal_sources np).
Proof.
  unfold validNativeProposal. intros Hv Hnp. rewrite Hnp in Hv. case_match; [done|].
  destruct (foldM (check_alias _ _) _ _) as [p1|] eqn:Ha; [|done].
  destruct (foldM (check_task _ _) _ _) as [p2|] eqn:Ht; [|done]. injection Hv as <- <-.
  pose proof (foldM_collect _ p_evidence (fun a => map nativeProposalEvidenceKey [al_Source a]) _ _ _
    ltac:(intros ? ? ? ?%check_alias_view; naive_solver) Ha) as Hv1.
  pose proof (foldM_collect _ p_sessions (fun a => [al_Session a]) _ _ _
    ltac:(intros ? ? ? ?%check_alias_view; naive_solver) Ha) as Hs1.
  pose proof (foldM_collect _ p_evidence (fun k => map nativeProposalEvidenceKey (task_sources k)) _ _ _
    ltac:(intros ? ? ? ?%check_task_view; naive_solver) Ht) as Hv2.
  pose proof (foldM_collect _ p_sessions task_sessions _ _ _ ltac:(intros ? ? ? ?%check_task_view; naive_solver) Ht) as Hs2.
  split_and!.
  - rewrite Hv2, Hv1. unfold keys, proposal_sources. simpl. rewrite map_app, list_to_set_app_L, map_map, concat_map, map_map.
    rewrite list_to_set_single_map. set_solver.
  - rewrite Hs2, Hs1. unfold proposal_sessions. simpl. rewrite list_to_set_app_L, list_to_set_single_map. set_solver.
  - unfold proposal_sources. apply Forall_app. split.
    + rewrite Forall_map. eapply foldM_forall, Ha. intros ? ? ? ?%check_alias_view. naive_solver.
    + apply Forall_concat, Forall_map. eapply foldM_forall, Ht. intros ? ? ? ?%check_task_view. naive_solver.
Qed.
End Collected.

(** The provenance of an accepted outcome is attested and opaque. *)
Lemma validNativeOutcome_provenance `{ProposalJSON} o policy limits now :
  validNativeOutcome o policy limits now = true ->
  Forall (fun s => Allows policy (s_Kind s) = true /\ validNativeStableID (s_Kind s) (s_StableID s) = true) (ao_Provenance o).
Proof.
  unfold validNativeOutcome. intros Hv. apply andb_true_iff in Hv as [_ Hv].
  destruct (validNativeProposal _ _ _ _) as [[sessions evidence]|]; [|done].
  apply andb_true_iff in Hv as [[Hv _]%andb_true_iff _]. rewrite forallb_forall in Hv. apply List.Forall_forall.
  intros s Hs. apply andb_true_iff. by apply Hv.
Qed.

(** An accepted outcome's proposal cites no evidence beyond the outcome's own
    provenance, and its contributors are sessions the proposal names. *)
Lemma validNativeOutcome_covers `{ProposalJSON} o policy limits now np :
  validNativeOutcome o policy limits now = true -> json_proposal (ao_ProposalJSON o) = Some np ->
  (forall s, s ∈ proposal_sources np -> validNativeSource s policy now = true /\
     exists p, p ∈ ao_Provenance o /\ nativeProposalEvidenceKey p = nativeProposalEvidenceKey s) /\
  (forall m, m ∈ ao_Contributors o -> ac_SessionID m ∈ proposal_sessions np).
Proof.
  unfold validNativeOutcome. intros Hv Hnp. apply andb_true_iff in Hv as [_ Hv].
  destruct (validNativeProposal _ _ _ _) as [[sessions evidence]|] eqn:E; [|done].
  destruct (validNativeProposal_collects _ _ _ _ _ _ _ E Hnp) as (-> & -> & Hsrc).
  apply andb_true_iff in Hv as [[_ He]%andb_true_iff Hm]. apply bool_decide_eq_true in He. split.
  - intros s Hs. split; [by rewrite Forall_forall in Hsrc; auto|].
    assert (nativeProposalEvidenceKey s ∈ map nativeProposalEvidenceKey (ao_Provenance o)) as Hin.
    { destruct (decide (nativeProposalEvidenceKey s ∈ map nativeProposalEvidenceKey (ao_Provenance o))) as [|Hn]; [done|].
      exfalso. apply (not_elem_of_empty (C := gset nativeEvidenceKey) (nativeProposalEvidenceKey s)). rewrite <-He.
      apply elem_of_difference. rewrite !elem_of_list_to_set. split; [|done]. by apply list_elem_of_fmap_2. }
    apply list_elem_of_fmap in Hin as (p & ? & ?). eauto.
  - intros m Hin. rewrite forallb_forall in Hm. apply list_elem_of_In, Hm in Hin.
    unfold has in Hin. apply bool_decide_eq_true in Hin. by apply elem_of_list_to_set in Hin.
Qed.

(** Proofs use these through their lemmas; simplification leaves them alone. *)
Arguments validNativeOutcome {_} _ _ _ _ : simpl never.
Arguments validNativeStableID _ _ : simpl never.
Arguments deterministicHistoricalID {_} _ _ : simpl never.
Arguments archaeologyDigest {_ _} _ _ : simpl never.
