(* ===== verification/NativeJobs.v ===== *)
(** * Native archaeology jobs

    [internal/store/project_archaeology_native.go]: the durable state machine
    of a job that runs in an external Codex process.  Callbacks may be lost,
    repeated or late; the operations below decide which of them still applies.
    The process-local [archaeologyLaunchMu] is not modelled: every transaction
    is atomic, and other processes may write between calls. *)

From S2P Require Import Prelude GoText Stamp Framing CoreDB ProjectCore ArchDB ArchPolicy.
From stdpp Require Import base gmap strings list sets sorting.
From Stdlib Require Import ZArith Lia.

Local Open Scope Z_scope.
Local Open Scope prog_scope.

(** ** Commands *)

Record ArchaeologyLaunchResult := {
  la_LaunchID : string; la_ProjectID : string; la_State : string; la_ThreadID : string;
  la_CodexSessionID : string; la_TurnID : string; la_Error : string }.

#[export] Instance ArchaeologyLaunchResult_eq_dec : EqDecision ArchaeologyLaunchResult.
Proof. solve_decision. Defined.

Record ArchaeologyNativeBatchRequest := {
  br_Principal : string; br_RequestID : string; br_BaseRevision : Z; br_AcknowledgeLargeBatch : bool }.
Record ArchaeologyNativeResolution := {
  rs_Principal : string; rs_RequestID : string; rs_JobID : string; rs_ThreadID : string; rs_TurnID : string;
  rs_Resolution : string; rs_BaseRevision : Z }.
Record ArchaeologyNativeProgress := {
  pg_JobID : string; pg_ThreadID : string; pg_TurnID : string; pg_PhaseLabel : string; pg_SourcesExamined : Z }.
(** an empty digest is the zero array *)
Record ArchaeologyNativeReport := {
  rp_JobID : string; rp_ThreadID : string; rp_TurnID : string; rp_Digest : string; rp_Outcomes : list ArchaeologyOutcome }.
Record ArchaeologyNativeTerminal := {
  tm_JobID : string; tm_ThreadID : string; tm_TurnID : string; tm_Status : string; tm_DurationMS : option Z }.

(** What a claimed job tells its launcher. *)
Record ClaimedJob := {
  cj_ID : string; cj_BatchID : string; cj_CandidateID : string; cj_ProjectID : string; cj_StartedAt : Z;
  cj_Policy : ArchaeologyExecutionPolicy }.

Definition live_states : list string := ["queued"; "starting"; "active"; "report_ready"; "cancel_requested"].
Definition attention_states : list string := ["failed"; "interrupted"; "attention"].
Definition terminal_states : list string := ["completed"; "failed"; "interrupted"; "attention"].

(** ** Row updates *)

Definition job_started (t : Z) (r : job_row) : job_row :=
  {| jo_batch := jo_batch r; jo_session := jo_session r; jo_candidate := jo_candidate r; jo_project := jo_project r;
     jo_name := jo_name r; jo_state := "starting"; jo_thread := jo_thread r; jo_codex := jo_codex r;
     jo_turn := jo_turn r; jo_phase := jo_phase r; jo_sources := jo_sources r; jo_duration := jo_duration r;
     jo_report := jo_report r; jo_error := jo_error r; jo_created := jo_created r; jo_started := Some t;
     jo_reported := jo_reported r; jo_terminal := jo_terminal r; jo_updated := t |}.

Definition job_bound (thread codex turn phase : string) (t : Z) (r : job_row) : job_row :=
  {| jo_batch := jo_batch r; jo_session := jo_session r; jo_candidate := jo_candidate r; jo_project := jo_project r;
     jo_name := jo_name r; jo_state := jo_state r; jo_thread := thread; jo_codex := codex;
     jo_turn := turn; jo_phase := phase; jo_sources := jo_sources r; jo_duration := jo_duration r;
     jo_report := jo_report r; jo_error := jo_error r; jo_created := jo_created r; jo_started := jo_started r;
     jo_reported := jo_reported r; jo_terminal := jo_terminal r; jo_updated := t |}.

Definition job_state_phase (state phase : string) (t : Z) (r : job_row) : job_row :=
  {| jo_batch := jo_batch r; jo_session := jo_session r; jo_candidate := jo_candidate r; jo_project := jo_project r;
     jo_name := jo_name r; jo_state := state; jo_thread := jo_thread r; jo_codex := jo_codex r;
     jo_turn := jo_turn r; jo_phase := phase; jo_sources := jo_sources r; jo_duration := jo_duration r;
     jo_report := jo_report r; jo_error := jo_error r; jo_created := jo_created r; jo_started := jo_started r;
     jo_reported := jo_reported r; jo_terminal := jo_terminal r; jo_updated := t |}.

Definition job_progress (phase : string) (sources t : Z) (r : job_row) : job_row :=
  {| jo_batch := jo_batch r; jo_session := jo_session r; jo_candidate := jo_candidate r; jo_project := jo_project r;
     jo_name := jo_name r; jo_state := jo_state r; jo_thread := jo_thread r; jo_codex := jo_codex r;
     jo_turn := jo_turn r; jo_phase := phase; jo_sources := sources; jo_duration := jo_duration r;
     jo_report := jo_report r; jo_error := jo_error r; jo_created := jo_created r; jo_started := jo_started r;
     jo_reported := jo_reported r; jo_terminal := jo_terminal r; jo_updated := t |}.

Definition job_reported (digest : string) (t : Z) (r : job_row) : job_row :=
  {| jo_batch := jo_batch r; jo_session := jo_session r; jo_candidate := jo_candidate r; jo_project := jo_project r;
     jo_name := jo_name r; jo_state := "report_ready"; jo_thread := jo_thread r; jo_codex := jo_codex r;
     jo_turn := jo_turn r; jo_phase := "Report ready for human review"; jo_sources := jo_sources r;
     jo_duration := jo_duration r; jo_report := Some digest; jo_error := jo_error r; jo_created := jo_created r;
     jo_started := jo_started r; jo_reported := Some t; jo_terminal := jo_terminal r; jo_updated := t |}.

(** state, error code and [terminal_at] *)
Definition job_ended (state error : string) (terminal : option Z) (t : Z) (r : job_row) : job_row :=
  {| jo_batch := jo_batch r; jo_session := jo_session r; jo_candidate := jo_candidate r; jo_project := jo_project r;
     jo_name := jo_name r; jo_state := state; jo_thread := jo_thread r; jo_codex := jo_codex r;
     jo_turn := jo_turn r; jo_phase := jo_phase r; jo_sources := jo_sources r; jo_duration := jo_duration r;
     jo_report := jo_report r; jo_error := error; jo_created := jo_created r; jo_started := jo_started r;
     jo_reported := jo_reported r; jo_terminal := terminal; jo_updated := t |}.

Definition job_with_duration (duration : option Z) (r : job_row) : job_row :=
  {| jo_batch := jo_batch r; jo_session := jo_session r; jo_candidate := jo_candidate r; jo_project := jo_project r;
     jo_name := jo_name r; jo_state := jo_state r; jo_thread := jo_thread r; jo_codex := jo_codex r;
     jo_turn := jo_turn r; jo_phase := jo_phase r; jo_sources := jo_sources r; jo_duration := duration;
     jo_report := jo_report r; jo_error := jo_error r; jo_created := jo_created r; jo_started := jo_started r;
     jo_reported := jo_reported r; jo_terminal := jo_terminal r; jo_updated := jo_updated r |}.

(** [coalesce(terminal_at,?)] *)
Definition coalesce_terminal (t : Z) (r : job_row) : option Z :=
  match jo_terminal r with Some x => Some x | None => Some t end.

Definition has_turn (thread turn : string) (r : job_row) : bool := seqb (jo_thread r) thread && seqb (jo_turn r) turn.

(** [column='' OR column=?] *)
Definition empty_or (current wanted : string) : bool := seqb current "" || seqb current wanted.

(** ** Claiming a queued job *)

Section Scheduling.
(** one row of the join: the job's key, the job and its batch *)
Definition joined := (string * (job_row * batch_row))%type.

(** [ORDER BY] compares the texts of the stamps. *)
Definition job_order (a b : joined) : Prop :=
  let '(ia, (ja, ba)) := a in
  let '(ib, (jb, bb)) := b in
  if seqb (stamp (ba_created ba)) (stamp (ba_created bb)) then
    if seqb (stamp (jo_created ja)) (stamp (jo_created jb)) then sle ia ib
    else sle (stamp (jo_created ja)) (stamp (jo_created jb))
  else sle (stamp (ba_created ba)) (stamp (ba_created bb)).

#[local] Instance job_order_dec : RelDecision job_order.
Proof.
  intros [ia [ja ba]] [ib [jb bb]]. unfold job_order.
  destruct (seqb (stamp (ba_created ba)) _); [destruct (seqb (stamp (jo_created ja)) _)|]; apply _.
Defined.

Definition intent_unsettled (r : intent_row) : bool := isin (in_state r) ["pending"; "leased"; "blocked"].

(** The jobs of open, attested batches that wait in the queue. *)
Definition claimable (d : ADB) : list joined :=
  omap (fun e =>
    match a_batches d !! jo_batch e.2 with
    | Some b =>
        if seqb (jo_state e.2) "queued" && isin (ba_state b) ["queued"; "running"] && ba_attested b
        then Some (e.1, (e.2, b)) else None
    | None => None
    end) (map_to_list (a_jobs d)).

Definition next_job (d : ADB) : SqlErr + joined :=
  if bool_decide (map_Forall (fun _ r => jo_state r <> "uncertain"%string) (a_jobs d))
     && bool_decide (map_Forall (fun _ r => intent_unsettled r = false) (a_intents d))
  then match merge_sort job_order (claimable d) with
       | e :: _ => inr e
       | [] => inl SqlNoRows
       end
  else inl SqlNoRows.

Definition claimTx : M ADB TxFail (TxOut ClaimedJob) :=
  found <-- attempt (exec (query next_job)) ;;
  match found with
  | inl SqlNoRows => throw (FBody ErrConflict)
  | inl e => throw (FBody (mapErr (ErrSql e)))
  | inr (id, (r, b)) =>
      t <-- now ;;
      changed <-- mapped (exec (update_job id (fun r => seqb (jo_state r) "queued") (job_started t))) ;;
      require (changed =? 1) (FBody ErrConflict) ;;;
      mapped (exec (set_batch_state (jo_batch r) "running" t)) ;;;
      ret (TxCommit {| cj_ID := id; cj_BatchID := jo_batch r; cj_CandidateID := jo_candidate r;
                       cj_ProjectID := jo_project r; cj_StartedAt := t; cj_Policy := ba_policy b |})
  end.

Definition ClaimArchaeologyNativeJob : M ADB Err ClaimedJob := runTx claimTx.
End Scheduling.

(** ** Identity and activation *)

Definition BindArchaeologyNativeIdentity (jobID threadID sessionID turnID : string) : M ADB Err unit :=
  require (boundedCoreText jobID 120 true && boundedCoreText threadID 120 true
           && boundedCoreText sessionID 120 true && boundedCoreText turnID 120 true) ErrInvalid ;;;
  r <-- direct (query (aselect a_jobs jobID)) ;;
  require (empty_or (jo_thread r) threadID && empty_or (jo_codex r) sessionID && empty_or (jo_turn r) turnID)
    ErrConflict ;;;
  if seqb (jo_thread r) threadID && seqb (jo_codex r) sessionID && seqb (jo_turn r) turnID then ret tt
  else
    require (isin (jo_state r) ["starting"; "uncertain"]) ErrConflict ;;;
    t <-- now ;;
    changed <-- direct (update_job jobID (fun x => isin (jo_state x) ["starting"; "uncertain"]
        && empty_or (jo_thread x) threadID && empty_or (jo_codex x) sessionID && empty_or (jo_turn x) turnID)
      (job_bound threadID sessionID turnID "Codex identity durably bound" t)) ;;
    require (changed =? 1) ErrConflict.

Definition ActivateArchaeologyNativeJob (jobID threadID turnID : string) : M ADB Err unit :=
  require (boundedCoreText jobID 120 true && boundedCoreText threadID 120 true && boundedCoreText turnID 120 true)
    ErrInvalid ;;;
  r <-- direct (query (aselect a_jobs jobID)) ;;
  require (empty_or (jo_thread r) threadID && empty_or (jo_turn r) turnID) ErrConflict ;;;
  if seqb (jo_state r) "active" && has_turn threadID turnID r then ret tt
  else
    require (seqb (jo_state r) "starting") ErrConflict ;;;
    t <-- now ;;
    changed <-- direct (update_job jobID (fun x => has_turn threadID turnID x && seqb (jo_state x) "starting")
      (job_state_phase "active" "Visible in Codex" t)) ;;
    require (changed =? 1) ErrConflict.

Definition BindArchaeologyNativeJob (jobID threadID sessionID turnID : string) : M ADB Err unit :=
  BindArchaeologyNativeIdentity jobID threadID sessionID turnID ;;;
  ActivateArchaeologyNativeJob jobID threadID turnID.

(** ** Failed starts *)

Definition stageLabel (error : string) : string :=
  if seqb error "thread_effective" then "Codex launch uncertain at thread policy check"
  else if seqb error "name_set" then "Codex launch uncertain while naming task"
  else if seqb error "thread_read" then "Codex launch uncertain at task identity check"
  else if seqb error "turn_start" then "Codex launch uncertain while starting turn"
  else if seqb error "settings_wait" then "Codex launch uncertain awaiting turn settings"
  else if seqb error "settings_exact" then "Codex launch uncertain at turn policy check"
  else if seqb error "visibility" then "Codex launch uncertain at task visibility check"
  else "".

Definition optional_text (s : string) : bool := seqb s "" || boundedCoreText s 120 true.
Definition fill (current offered : string) : string := if seqb current "" then offered else current.
Definition clash (current offered : string) : bool :=
  negb (seqb current "") && negb (seqb offered "") && negb (seqb current offered).
Definition missing (current offered : string) : bool := negb (seqb offered "") && seqb current "".

(** The tallies of a batch after a job changed. *)
Definition remaining_jobs (batch : string) : ADB -> Z :=
  count_jobs (fun _ r => seqb (jo_batch r) batch && isin (jo_state r) live_states).
Definition attention_jobs (batch : string) : ADB -> Z :=
  count_jobs (fun _ r => seqb (jo_batch r) batch && isin (jo_state r) attention_states).
Definition uncertain_jobs (batch : string) : ADB -> Z :=
  count_jobs (fun _ r => seqb (jo_batch r) batch && seqb (jo_state r) "uncertain").

Definition job_failed (state thread codex turn phase code : string) (t : Z) (r : job_row) : job_row :=
  job_ended state code (coalesce_terminal t r) t (job_bound thread codex turn phase t r).

(** Write the failed start, then recompute the batch and the session. *)
Definition failStartWrites (jobID : string) (r : job_row) (launch : ArchaeologyLaunchResult) (state code : string) (t : Z)
    : M ADB TxFail (TxOut unit) :=
  let thread := fill (jo_thread r) (la_ThreadID launch) in
  let codex := fill (jo_codex r) (la_CodexSessionID launch) in
  let turn := fill (jo_turn r) (la_TurnID launch) in
  let phase0 := if seqb thread "" then "" else "Codex task identity retained for review" in
  let phase := if seqb (stageLabel (la_Error launch)) "" then phase0 else stageLabel (la_Error launch) in
  mapped (exec (update_job jobID (fun _ => true) (job_failed state thread codex turn phase code t))) ;;;
  counts <-- mapped (exec (query (fun d =>
    inr (remaining_jobs (jo_batch r) d, attention_jobs (jo_batch r) d, uncertain_jobs (jo_batch r) d)))) ;;
  let '(remaining, attention, uncertainCount) := counts in
  let batchState :=
    if (0 <? uncertainCount) || ((remaining =? 0) && (0 <? attention)) then "attention"
    else if remaining =? 0 then "completed" else "running" in
  mapped (exec (set_batch_state (jo_batch r) batchState t)) ;;;
  (if (seqb batchState "completed" || seqb batchState "attention") && (uncertainCount =? 0)
   then mapped (exec (bump_session (jo_session r) (Some "draft") t)) else ret tt) ;;;
  ret (TxCommit tt).

Definition FailArchaeologyNativeStart (jobID : string) (launch : ArchaeologyLaunchResult) (uncertain : bool)
    : M ADB Err unit :=
  require (boundedCoreText jobID 120 true && optional_text (la_ThreadID launch)
           && optional_text (la_CodexSessionID launch) && optional_text (la_TurnID launch)) ErrInvalid ;;;
  let uncertain := uncertain || negb (seqb (la_ThreadID launch) "") || negb (seqb (la_CodexSessionID launch) "")
                   || negb (seqb (la_TurnID launch) "") in
  let state := if uncertain then "uncertain" else "failed" in
  let code := if uncertain then "codex_acceptance_uncertain" else "codex_start_failed" in
  t <-- now ;;
  runTx
    (r <-- mapped (exec (query (aselect a_jobs jobID))) ;;
     require (negb (clash (jo_thread r) (la_ThreadID launch) || clash (jo_codex r) (la_CodexSessionID launch)
                    || clash (jo_turn r) (la_TurnID launch))) (FBody ErrConflict) ;;;
     let needsIdentity := missing (jo_thread r) (la_ThreadID launch) || missing (jo_codex r) (la_CodexSessionID launch)
                          || missing (jo_turn r) (la_TurnID launch) in
     if seqb (jo_state r) "uncertain" && negb uncertain then throw (FBody ErrConflict)
     else if seqb (jo_state r) "uncertain" && negb needsIdentity then ret (TxCommit tt)
     else
       let code := if seqb (jo_state r) "uncertain" && negb (seqb (jo_error r) "") then jo_error r else code in
       if seqb (jo_state r) "failed" && negb uncertain && seqb (jo_error r) "codex_start_failed"
       then ret (TxCommit tt)
       else
         require (isin (jo_state r) ["starting"; "uncertain"]) (FBody ErrConflict) ;;;
         failStartWrites jobID r launch state code t).

Definition BindArchaeologyNativeUncertainty (jobID : string) (launch : ArchaeologyLaunchResult) : M ADB Err unit :=
  require (boundedCoreText jobID 120 true && boundedCoreText (la_ThreadID launch) 120 true
           && boundedCoreText (la_CodexSessionID launch) 120 true && boundedCoreText (la_TurnID launch) 120 true)
    ErrInvalid ;;;
  t <-- now ;;
  changed <-- direct (update_job jobID (fun x => seqb (jo_state x) "uncertain"
      && empty_or (jo_thread x) (la_ThreadID launch) && empty_or (jo_codex x) (la_CodexSessionID launch)
      && empty_or (jo_turn x) (la_TurnID launch))
    (job_bound (la_ThreadID launch) (la_CodexSessionID launch) (la_TurnID launch)
       "Recovered exact Codex task identity" t)) ;;
  require (changed =? 1) ErrConflict.

(** ** Progress and reports *)

(** [... FROM archaeology_native_jobs j JOIN archaeology_native_batches b ON b.id=j.batch_id
    WHERE j.id=? AND j.thread_id=? AND j.turn_id=?] *)
Definition job_of_turn (jobID threadID turnID : string) : ADB -> SqlErr + (job_row * batch_row) := fun d =>
  match a_jobs d !! jobID with
  | Some r =>
      if has_turn threadID turnID r then
        match a_batches d !! jo_batch r with Some b => inr (r, b) | None => inl SqlNoRows end
      else inl SqlNoRows
  | None => inl SqlNoRows
  end.

Definition UpdateArchaeologyNativeProgress (p : ArchaeologyNativeProgress) : M ADB Err unit :=
  require (boundedCoreText (pg_JobID p) 120 true && boundedCoreText (pg_ThreadID p) 120 true
           && boundedCoreText (pg_TurnID p) 120 true && boundedCoreText (pg_PhaseLabel p) 120 true
           && (0 <=? pg_SourcesExamined p) && (pg_SourcesExamined p <=? 10000)) ErrInvalid ;;;
  jb <-- direct (query (job_of_turn (pg_JobID p) (pg_ThreadID p) (pg_TurnID p))) ;;
  require (seqb (jo_state jb.1) "active" && ba_attested jb.2) ErrConflict ;;;
  require (match Limits (ba_policy jb.2) with
           | Some limits => pg_SourcesExamined p <=? MaxSourcesExamined limits
           | None => false
           end) ErrInvalid ;;;
  t <-- now ;;
  changed <-- direct (update_job (pg_JobID p)
    (fun x => has_turn (pg_ThreadID p) (pg_TurnID p) x && seqb (jo_state x) "active")
    (job_progress (pg_PhaseLabel p) (pg_SourcesExamined p) t)) ;;
  require (changed =? 1) ErrConflict.

Section Reports.
Context `{Sha256, ProposalJSON}.

Definition insertOutcome (jobID digest : string) (t : Z) (index : nat) (o : ArchaeologyOutcome) : M ADB TxFail unit :=
  let id := deterministicHistoricalID "ARON-" [jobID; digest; pretty.pretty index] in
  mapped (exec (insert_outcome id
    {| oc_job := jobID; oc_project := ao_ProjectID o; oc_title := ao_Title o; oc_summary := ao_Summary o;
       oc_sources := ao_SourceCount o; oc_proposal := ao_ProposalJSON o; oc_created := t |})) ;;;
  forM_ (imap pair (ao_Provenance o)) (fun ps =>
    mapped (exec (insert_provenance id (Z.of_nat ps.1)
      {| pv_kind := s_Kind ps.2; pv_stable := s_StableID ps.2; pv_digest := s_Digest ps.2;
         pv_occurred := s_OccurredAt ps.2 |}))) ;;;
  forM_ (ao_Contributors o) (fun m =>
    mapped (exec (insert_contributor id (ac_SessionID m)
      {| co_contribution := ac_Contribution m; co_strength := ac_DemonstratedStrength m;
         co_uncertainty := ac_Uncertainty m; co_confidence := ac_Confidence m |}))).

Definition ReportArchaeologyNativeJob (c : ArchaeologyNativeReport) : M ADB Err unit :=
  require (boundedCoreText (rp_JobID c) 120 true && boundedCoreText (rp_ThreadID c) 120 true
           && boundedCoreText (rp_TurnID c) 120 true && negb (seqb (rp_Digest c) "")
           && (1 <=? Z.of_nat (length (rp_Outcomes c))) && (Z.of_nat (length (rp_Outcomes c)) <=? 20)) ErrInvalid ;;;
  t <-- now ;;
  runTx
    (jb <-- mapped (exec (query (fun d =>
        match job_of_turn (rp_JobID c) (rp_ThreadID c) (rp_TurnID c) d with
        | inr (r, b) => if ba_attested b then inr (r, b) else inl SqlNoRows
        | inl e => inl e
        end))) ;;
     let '(r, b) := jb in
     require (match Limits (ba_policy b) with
              | Some limits =>
                  (Z.of_nat (length (rp_Outcomes c)) <=? MaxOutcomes limits)
                  && forallb (fun o => validNativeOutcome o (ba_policy b) limits t
                                       && seqb (ao_ProjectID o) (jo_project r)) (rp_Outcomes c)
              | None => false
              end) (FBody ErrInvalid) ;;;
     match jo_report r with
     | Some prior =>
         require (seqb prior (rp_Digest c)) (FBody ErrConflict) ;;;
         ret (TxCommit tt)
     | None =>
         require (seqb (jo_state r) "active") (FBody ErrConflict) ;;;
         forM_ (imap pair (rp_Outcomes c)) (fun io => insertOutcome (rp_JobID c) (rp_Digest c) t io.1 io.2) ;;;
         mapped (exec (update_job (rp_JobID c) (fun _ => true) (job_reported (rp_Digest c) t))) ;;;
         mapped (exec (update_batches (fun i _ => seqb i (jo_batch r)) (fun x => batch_with (ba_state x) t x))) ;;;
         mapped (exec (bump_session (jo_session r) None t)) ;;;
         ret (TxCommit tt)
     end).
End Reports.

(** ** Terminal callbacks *)

Definition valid_duration (d : option Z) : bool :=
  match d with None => true | Some x => (0 <=? x) && (x <=? 604800000) end.

(** The state a terminal callback leads to, and its error code. *)
Definition completion (status : string) (report : option string) : string * string :=
  if seqb status "interrupted" then ("interrupted", "codex_turn_interrupted")%string
  else if seqb status "completed" && bool_decide (is_Some report) then ("completed", "")%string
  else if seqb status "completed" then ("attention", "completed_without_report")%string
  else ("failed", "codex_turn_failed")%string.

Definition completed_batch (current : string) (remaining attention uncertain : Z) : string :=
  if 0 <? uncertain then "attention"
  else if remaining =? 0 then
    if seqb current "cancel_requested" then "canceled"
    else if 0 <? attention then "attention" else "completed"
  else if seqb current "cancel_requested" then "cancel_requested" else "running".

Definition completeWrites (tm : ArchaeologyNativeTerminal) (r : job_row) (b : batch_row) (t : Z)
    : M ADB TxFail (TxOut unit) :=
  let '(next, code) := completion (tm_Status tm) (jo_report r) in
  changed <-- mapped (exec (update_job (tm_JobID tm)
    (fun x => has_turn (tm_ThreadID tm) (tm_TurnID tm) x && seqb (jo_state x) (jo_state r))
    (fun x => job_with_duration (tm_DurationMS tm) (job_ended next code (Some t) t x)))) ;;
  require (changed =? 1) (FBody ErrConflict) ;;;
  counts <-- plain (exec (query (fun d =>
    inr (remaining_jobs (jo_batch r) d, attention_jobs (jo_batch r) d, uncertain_jobs (jo_batch r) d)))) ;;
  let '(remaining, attention, uncertain) := counts in
  let batchState := completed_batch (ba_state b) remaining attention uncertain in
  mapped (exec (set_batch_state (jo_batch r) batchState t)) ;;;
  (if (seqb batchState "completed" || seqb batchState "canceled" || seqb batchState "attention") && (uncertain =? 0)
   then mapped (exec (bump_session (jo_session r) (Some "draft") t)) else ret tt) ;;;
  ret (TxCommit tt).

Definition CompleteArchaeologyNativeTurn (tm : ArchaeologyNativeTerminal) : M ADB Err unit :=
  require (boundedCoreText (tm_JobID tm) 120 true && boundedCoreText (tm_ThreadID tm) 120 true
           && boundedCoreText (tm_TurnID tm) 120 true && isin (tm_Status tm) ["completed"; "interrupted"; "failed"]
           && valid_duration (tm_DurationMS tm)) ErrInvalid ;;;
  runTx
    (t <-- now ;;
     jb <-- mapped (exec (query (job_of_turn (tm_JobID tm) (tm_ThreadID tm) (tm_TurnID tm)))) ;;
     let '(r, b) := jb in
     if isin (jo_state r) terminal_states then
       let expected := if seqb (tm_Status tm) "completed" && negb (bool_decide (is_Some (jo_report r)))
                       then "attention"%string else tm_Status tm in
       require (seqb (jo_state r) expected && bool_decide (tm_DurationMS tm = jo_duration r)) (FBody ErrConflict) ;;;
       ret (TxCommit tt)
     else completeWrites tm r b t).

Definition LoseArchaeologyNativeTurn (jobID threadID turnID : string) : M ADB Err unit :=
  require (boundedCoreText jobID 120 true && boundedCoreText threadID 120 true && boundedCoreText turnID 120 true)
    ErrInvalid ;;;
  t <-- now ;;
  runTx
    (r <-- mapped (exec (query (aselect a_jobs jobID))) ;;
     require (empty_or (jo_thread r) threadID && empty_or (jo_turn r) turnID) (FBody ErrConflict) ;;;
     if seqb (jo_state r) "uncertain" && seqb (jo_error r) "codex_process_unavailable" && has_turn threadID turnID r
     then ret (TxCommit tt)
     else
       changed <-- mapped (exec
         (if seqb (jo_state r) "uncertain" && has_turn threadID turnID r
          then update_job jobID (fun x => has_turn threadID turnID x && seqb (jo_state x) "uncertain")
                 (fun x => job_ended (jo_state x) "codex_process_unavailable" (jo_terminal x) t x)
          else update_job jobID (fun x => has_turn threadID turnID x
                                          && isin (jo_state x) ["active"; "report_ready"; "cancel_requested"])
                 (job_ended "uncertain" "codex_process_unavailable" (Some t) t))) ;;
       require (changed =? 1) (FBody ErrConflict) ;;;
       j <-- mapped (exec (query (aselect a_jobs jobID))) ;;
       mapped (exec (set_batch_state (jo_batch j) "attention" t)) ;;;
       ret (TxCommit tt)).

(** ** Human commands

    The three commands end by reading the session back for the caller; that
    read changes nothing and is not modelled. *)

Section Commands.
Context `{Sha256, DigestJSON}.

(** [claimArchaeologyRequest]: whether the request is a replay *)
Definition claimArchaeologyRequest (principal key operation sessionID digest : string) (t : Z) : M ADB TxFail bool :=
  found <-- attempt (exec (query (aselect a_requests (principal, key)))) ;;
  match found with
  | inr r =>
      require (seqb (ar_operation r) operation && seqb (ar_digest r) digest) (FBody ErrConflict) ;;;
      ret true
  | inl SqlNoRows =>
      mapped (exec (insert_arch_request principal key
        {| ar_operation := operation; ar_digest := digest; ar_session := sessionID; ar_recorded := t |})) ;;;
      ret false
  | inl e => throw (FBody (ErrSql e))
  end.

Definition resolution_by_request (sessionID key : string) : ADB -> SqlErr + resolution_row := fun d =>
  match filter (fun e => re_session e.2 = sessionID /\ re_request e.2 = key) (map_to_list (a_resolutions d)) with
  | e :: _ => inr e.2
  | [] => inl SqlNoRows
  end.

Definition resolveWrites (c : ArchaeologyNativeResolution) (sessionID digest : string) : M ADB TxFail (TxOut unit) :=
  r <-- mapped (exec (query (fun d =>
    match a_jobs d !! rs_JobID c with
    | Some r => if seqb (jo_session r) sessionID then inr r else inl SqlNoRows
    | None => inl SqlNoRows
    end))) ;;
  require (seqb (jo_state r) "uncertain" && negb (seqb (jo_thread r) "") && negb (seqb (jo_turn r) "")
           && has_turn (rs_ThreadID c) (rs_TurnID c) r) (FBody ErrConflict) ;;;
  otherLive <-- plain (exec (query (fun d => inr (count_jobs (fun i x => seqb (jo_batch x) (jo_batch r)
    && negb (seqb i (rs_JobID c)) && isin (jo_state x) ["starting"; "active"; "report_ready"; "cancel_requested"]) d)))) ;;
  require (otherLive =? 0) (FBody ErrConflict) ;;;
  t <-- now ;;
  mapped (exec (insert_resolution (deterministicHistoricalID "ARR-" [sessionID; rs_RequestID c])
    {| re_session := sessionID; re_job := rs_JobID c; re_principal := rs_Principal c; re_request := rs_RequestID c;
       re_digest := digest; re_resolution := rs_Resolution c; re_thread := rs_ThreadID c; re_turn := rs_TurnID c;
       re_created := t |})) ;;;
  mapped (exec (update_job (rs_JobID c) (fun x => seqb (jo_state x) "uncertain")
    (fun x => job_ended "interrupted" "human_confirmed_stopped" (coalesce_terminal t x) t x))) ;;;
  remaining <-- plain (exec (query (fun d => inr (uncertain_jobs (jo_batch r) d)))) ;;
  (if remaining =? 0 then
     mapped (exec (update_jobs (fun x => seqb (jo_batch x) (jo_batch r) && seqb (jo_state x) "queued")
       (fun x => job_ended "interrupted" "batch_abandoned_after_reconciliation" (coalesce_terminal t x) t x))) ;;;
     mapped (exec (update_batches (fun i b => seqb i (jo_batch r) && seqb (ba_state b) "attention")
       (batch_with "canceled" t))) ;;;
     mapped (exec (bump_session sessionID (Some "draft") t))
   else ret tt) ;;;
  ret (TxCommit tt).

Definition ResolveArchaeologyNativeUncertainty (c : ArchaeologyNativeResolution) : M ADB Err unit :=
  require (boundedCoreText (rs_Principal c) 200 true && boundedCoreText (rs_RequestID c) 200 true
           && boundedCoreText (rs_JobID c) 120 true && boundedCoreText (rs_ThreadID c) 120 true
           && boundedCoreText (rs_TurnID c) 120 true && seqb (rs_Resolution c) "confirmed_stopped"
           && (0 <=? rs_BaseRevision c)) ErrInvalid ;;;
  runTx
    (s <-- mapped (exec (query (session_by_principal (rs_Principal c)))) ;;
     let '(sessionID, srow) := s in
     let digest := archaeologyDigest "native_resolve"
       (nativeResolve (rs_BaseRevision c) (rs_JobID c) (rs_ThreadID c) (rs_TurnID c) (rs_Resolution c)) in
     prior <-- attempt (exec (query (resolution_by_request sessionID (rs_RequestID c)))) ;;
     match prior with
     | inr p =>
         require (seqb (re_digest p) digest) (FBody ErrConflict) ;;;
         ret (TxCommit tt)
     | inl SqlNoRows =>
         require (se_revision srow =? rs_BaseRevision c) (FBody ErrConflict) ;;;
         resolveWrites c sessionID digest
     | inl e => throw (FBody (ErrSql e))
     end).

Definition cancelWrites (sessionID : string) (t : Z) : M ADB TxFail unit :=
  mapped (exec (update_jobs (fun x => seqb (jo_session x) sessionID && seqb (jo_state x) "queued")
    (job_ended "interrupted" "canceled_before_start" (Some t) t))) ;;;
  mapped (exec (update_jobs (fun x => seqb (jo_session x) sessionID
      && isin (jo_state x) ["active"; "report_ready"; "cancel_requested"])
    (fun x => job_ended "cancel_requested" "human_cancel_requested" (jo_terminal x) t x))) ;;;
  mapped (exec (update_jobs (fun x => seqb (jo_session x) sessionID && seqb (jo_state x) "starting")
    (fun x => job_ended "uncertain" "canceled_during_ambiguous_start" (jo_terminal x) t x))) ;;;
  live <-- plain (exec (query (fun d => inr (count_jobs (fun _ x => seqb (jo_session x) sessionID
    && isin (jo_state x) ["starting"; "active"; "report_ready"; "cancel_requested"; "uncertain"]) d)))) ;;
  let batchState := if live =? 0 then "canceled"%string else "cancel_requested"%string in
  let nextSessionState := if live =? 0 then "draft"%string else "cancel_requested"%string in
  mapped (exec (update_batches (fun _ b => seqb (ba_session b) sessionID && isin (ba_state b) ["queued"; "running"])
    (batch_with batchState t))) ;;;
  mapped (exec (bump_session sessionID (Some nextSessionState) t)).

#[local] Instance job_id_order_dec : RelDecision (fun a b : string * job_row => sle a.1 b.1).
Proof. intros a b. simpl. apply _. Defined.

(** The jobs whose turns the caller must interrupt, by id. *)
Definition cancel_requested_jobs (sessionID : string) (d : ADB) : list (string * job_row) :=
  merge_sort (fun a b => sle a.1 b.1)
    (filter (fun e => jo_session e.2 = sessionID /\ jo_state e.2 = "cancel_requested"%string) (map_to_list (a_jobs d))).

Definition CancelArchaeologyNativeBatch (principal requestID : string) (baseRevision : Z)
    : M ADB Err (list (string * job_row)) :=
  require (boundedCoreText principal 200 true && boundedCoreText requestID 200 true) ErrInvalid ;;;
  runTx
    (s <-- mapped (exec (query (session_by_principal principal))) ;;
     let '(sessionID, srow) := s in
     t0 <-- now ;;
     let digest := archaeologyDigest "native_cancel" (nativeCancel baseRevision) in
     replay <-- claimArchaeologyRequest principal requestID "native_cancel" sessionID digest t0 ;;
     if replay then ret (TxCommit [])
     else
       require ((se_revision srow =? baseRevision) && seqb (se_state srow) "running") (FBody ErrConflict) ;;;
       t <-- now ;;
       cancelWrites sessionID t ;;;
       jobs <-- plain (exec (query (fun d => inr (cancel_requested_jobs sessionID d)))) ;;
       ret (TxCommit jobs)).

(** *** Queueing a batch *)

Definition batch_by_request (sessionID key : string) : ADB -> SqlErr + batch_row := fun d =>
  match filter (fun e => ba_session e.2 = sessionID /\ ba_request e.2 = key) (map_to_list (a_batches d)) with
  | e :: _ => inr e.2
  | [] => inl SqlNoRows
  end.

#[local] Instance candidate_order_dec : RelDecision (fun a b : (string * string) * candidate_row => sle a.1.2 b.1.2).
Proof. intros a b. simpl. apply _. Defined.

(** [WHERE session_id=? AND selected=1 ORDER BY id LIMIT 101] *)
Definition selected_candidates (sessionID : string) (d : ADB) : list ((string * string) * candidate_row) :=
  take 101 (merge_sort (fun a b => sle a.1.2 b.1.2)
    (filter (fun e => e.1.1 = sessionID /\ ca_selected e.2 = true) (map_to_list (a_candidates d)))).

Definition candidate_valid (e : (string * string) * candidate_row) : bool :=
  boundedCoreText e.1.2 120 true && projectIDPattern (ca_project e.2) && negb (seqb (ca_project e.2) "general")
  && boundedCoreText (ca_name e.2) maxProjectNameBytes true.

Definition ArchaeologyNativeMaxProjects : Z := 30.
Definition purpose : string := "Added from the Codex project catalog; history pending review.".

Definition coreP {A} (m : M DB TxFail A) : M ADB TxFail A := fun env w =>
  let env' : Env DB := fun n => mkTick (tk_fault (env n)) (tk_durable (env n)) (tk_now (env n)) (tk_id (env n)) id in
  let '(r, w') := m env' (mkWorld (core (w_db w)) (w_tick w)) in
  (r, mkWorld (set_core (w_db w') (w_db w)) (w_tick w')).

Definition create_candidate_project (principal : string) (c : candidate_row) (t : Z) : M ADB TxFail unit :=
  mapped (exec (on_core (insert_project (ca_project c)
    {| p_name := ca_name c; p_status := "active"; p_purpose := purpose; p_milestone := ""; p_now := "";
       p_revision := 1; p_created := t; p_updated := t |}))) ;;;
  mapped (exec (on_core (insert_topic (ca_project c)
    {| tp_project := Some (ca_project c); tp_name := ca_name c; tp_created := t |}))) ;;;
  coreP (insertCoreChange (ca_project c) 1 "project_created" (ca_project c) (ca_name c) t) ;;;
  coreP (insertCoreActivity "project_updated" (ca_project c) principal (ca_project c) (ca_name c) "created" t).

Definition queue_candidate (principal sessionID batchID : string) (t : Z) (e : (string * string) * candidate_row)
    : M ADB TxFail unit :=
  let candidateID := e.1.2 in
  let c := e.2 in
  found <-- attempt (exec (query (aselect a_mappings (sessionID, candidateID)))) ;;
  mapped_to <-- match found with
                | inr m => require (seqb (mp_project m) (ca_project c)) (FBody ErrConflict) ;;; ret (mp_project m)
                | inl SqlNoRows => ret ""%string
                | inl err => throw (FBody (ErrSql err))
                end ;;
  existing <-- attempt (exec (query (fun d => select projects (ca_project c) (core d)))) ;;
  created <-- match existing with
              | inl SqlNoRows => create_candidate_project principal c t ;;; ret true
              | inl err => throw (FBody (mapErr (ErrSql err)))
              | inr _ =>
                  require (negb (seqb mapped_to "" && negb (ca_from_root c))) (FBody ErrConflict) ;;;
                  topic <-- mapE (fun _ => FBody ErrConflict) (exec (query (fun d => select topics (ca_project c) (core d)))) ;;
                  require (bool_decide (tp_project topic = Some (ca_project c))) (FBody ErrConflict) ;;;
                  ret false
              end ;;
  (if seqb mapped_to "" then
     mapped (exec (insert_mapping sessionID candidateID
       {| mp_project := ca_project c; mp_principal := principal; mp_purpose := purpose; mp_created := created;
          mp_mapped := t |}))
   else ret tt) ;;;
  mapped (exec (insert_job (deterministicHistoricalID "ARJ-" [batchID; candidateID])
    {| jo_batch := batchID; jo_session := sessionID; jo_candidate := candidateID; jo_project := ca_project c;
       jo_name := ca_name c; jo_state := "queued"; jo_thread := ""; jo_codex := ""; jo_turn := ""; jo_phase := "";
       jo_sources := 0; jo_duration := None; jo_report := None; jo_error := ""; jo_created := t;
       jo_started := None; jo_reported := None; jo_terminal := None; jo_updated := t |})).

Definition QueueArchaeologyNativeBatch (c : ArchaeologyNativeBatchRequest) : M ADB Err unit :=
  require (boundedCoreText (br_Principal c) 200 true && boundedCoreText (br_RequestID c) 200 true) ErrInvalid ;;;
  runTx
    (t <-- now ;;
     s <-- mapped (exec (query (session_by_principal (br_Principal c)))) ;;
     let '(sessionID, srow) := s in
     require (bool_decide (is_Some (Limits (se_policy srow)))) (FBody ErrInvalid) ;;;
     let digest := archaeologyDigest "native_start"
       (nativeStart (br_BaseRevision c) (se_policy srow) (se_max srow) (br_AcknowledgeLargeBatch c)) in
     let legacyDigest := archaeologyDigest "native_start" (nativeStartLegacy (br_BaseRevision c)) in
     prior <-- attempt (exec (query (batch_by_request sessionID (br_RequestID c)))) ;;
     match prior with
     | inr b =>
         require (seqb (ba_digest b) digest || seqb (ba_digest b) legacyDigest)
           (FBody ErrConflict) ;;;
         ret (TxCommit tt)
     | inl SqlNoRows =>
         require (seqb (se_state srow) "draft" && (se_revision srow =? br_BaseRevision c)) (FBody ErrConflict) ;;;
         selected <-- plain (exec (query (fun d => inr (selected_candidates sessionID d)))) ;;
         require (forallb candidate_valid selected) (FBody ErrInvalid) ;;;
         require ((1 <=? Z.of_nat (length selected)) && (Z.of_nat (length selected) <=? ArchaeologyNativeMaxProjects))
           (FBody ErrInvalid) ;;;
         require (negb ((5 <? Z.of_nat (length selected)) && negb (br_AcknowledgeLargeBatch c))) (FBody ErrInvalid) ;;;
         let large := 5 <? Z.of_nat (length selected) in
         let batchID := deterministicHistoricalID "ARB-" [sessionID; br_RequestID c] in
         mapped (exec (insert_batch batchID
           {| ba_session := sessionID; ba_request := br_RequestID c; ba_digest := digest; ba_state := "queued";
              ba_max := se_max srow; ba_policy := se_policy srow; ba_attested := true;
              ba_ack := if large then Some t else None; ba_ack_by := if large then br_Principal c else "";
              ba_created := t; ba_updated := t |})) ;;;
         forM_ selected (queue_candidate (br_Principal c) sessionID batchID t) ;;;
         mapped (exec (bump_session sessionID (Some "running") t)) ;;;
         ret (TxCommit tt)
     | inl e => throw (FBody (ErrSql e))
     end).
End Commands.
