(* ===== verification/NativeSpec.v ===== *)
(** * What a committed write does to the native jobs

    Every operation of [NativeJobs] moves each job forward along one order of
    states, never touches a finished job, and never replaces an identity or a
    report that is already recorded. *)

From S2P Require Import Prelude GoText Framing CoreDB ProjectCore ArchDB ArchPolicy NativeJobs.
From stdpp Require Import base gmap strings list sets relations.
From Stdlib Require Import ZArith Lia.

Local Open Scope Z_scope.
Local Open Scope prog_scope.

#[local] Set Default Proof Using "Type*".

(** ** The order of states *)

Definition rank (state : string) : Z :=
  if seqb state "starting" then 1
  else if seqb state "active" then 2
  else if seqb state "report_ready" then 3
  else if seqb state "cancel_requested" then 4
  else if seqb state "uncertain" then 5
  else if isin state terminal_states then 6
  else 0.

Definition finished (r : job_row) : Prop := jo_state r ∈ terminal_states.

(** A recorded identity stays. *)
Definition kept (old new : string) : Prop := old <> ""%string -> new = old.

Record row_step (r r' : job_row) : Prop := {
  rw_finished : finished r -> r' = r;
  rw_rank : rank (jo_state r) <= rank (jo_state r');
  rw_same : rank (jo_state r) = rank (jo_state r') -> jo_state r' = jo_state r;
  rw_thread : kept (jo_thread r) (jo_thread r');
  rw_codex : kept (jo_codex r) (jo_codex r');
  rw_turn : kept (jo_turn r) (jo_turn r');
  rw_report : forall x, jo_report r = Some x -> jo_report r' = Some x;
  rw_completed : jo_state r' = "completed"%string -> r' = r \/ is_Some (jo_report r');
  rw_owner : jo_batch r' = jo_batch r /\ jo_session r' = jo_session r /\ jo_project r' = jo_project r;
}.

Lemma row_step_refl r : row_step r r.
Proof. split; by auto. Qed.

Lemma kept_trans a b c : kept a b -> kept b c -> kept a c.
Proof. unfold kept. intros H1 H2 Ha. rewrite H2, H1; [done|done|]. by rewrite H1. Qed.

Lemma row_step_trans r1 r2 r3 : row_step r1 r2 -> row_step r2 r3 -> row_step r1 r3.
Proof.
  intros [F1 R1 S1 T1 C1 U1 P1 M1 O1] [F2 R2 S2 T2 C2 U2 P2 M2 O2]. split; eauto using kept_trans.
  - intros Hf. pose proof (F1 Hf) as E. subst. auto.
  - lia.
  - intros Heq. rewrite S2 by lia. apply S1. lia.
  - intros Hc. destruct (M2 Hc) as [->|?]; [|by right]. destruct (M1 Hc) as [->|?]; auto.
  - destruct O1 as (?&?&?), O2 as (?&?&?). split_and!; congruence.
Qed.

Definition fresh_job (r : job_row) : Prop :=
  jo_state r = "queued"%string /\ jo_thread r = ""%string /\ jo_codex r = ""%string /\ jo_turn r = ""%string /\
  jo_report r = None.

Definition row_rel (o o' : option job_row) : Prop :=
  match o, o' with
  | Some r, Some r' => row_step r r'
  | None, Some r' => exists r0, fresh_job r0 /\ row_step r0 r'
  | Some _, None => False
  | None, None => True
  end.

(** No two jobs share a thread or a turn. *)
Definition identities_unique (d : ADB) : Prop :=
  forall i j ri rj, a_jobs d !! i = Some ri -> a_jobs d !! j = Some rj -> i <> j ->
    (jo_thread ri <> ""%string -> jo_thread rj <> jo_thread ri) /\ (jo_turn ri <> ""%string -> jo_turn rj <> jo_turn ri).

Record jobs_step (d d' : ADB) : Prop := {
  js_rows : forall id, row_rel (a_jobs d !! id) (a_jobs d' !! id);
  js_unique : identities_unique d -> identities_unique d';
}.

Lemma row_rel_refl o : row_rel o o.
Proof. destruct o; simpl; [apply row_step_refl|done]. Qed.

Lemma row_rel_trans o1 o2 o3 : row_rel o1 o2 -> row_rel o2 o3 -> row_rel o1 o3.
Proof.
  destruct o1, o2, o3; simpl; try done; eauto using row_step_trans.
  intros (r0 & ? & ?) ?. exists r0. eauto using row_step_trans.
Qed.

#[export] Instance jobs_step_refl : Reflexive jobs_step.
Proof. intros d. split; [intros; apply row_rel_refl|done]. Qed.

#[export] Instance jobs_step_trans : Transitive jobs_step.
Proof. intros d1 d2 d3 [H1 U1] [H2 U2]. split; [intros id; by eapply row_rel_trans|auto]. Qed.

(** ** Statements *)

Lemma jobs_step_frame d d' : a_jobs d' = a_jobs d -> jobs_step d d'.
Proof.
  intros E. split; [intros id; rewrite E; apply row_rel_refl|].
  unfold identities_unique. by rewrite E.
Qed.

Lemma update_job_inv id cond f d n d' :
  update_job id cond f d = inr (n, d') ->
  n = 0 /\ d' = d \/
  exists r, n = 1 /\ a_jobs d !! id = Some r /\ cond r = true /\ identity_free d id (f r) = true /\
    d' = set_a_jobs (<[id:=f r]> (a_jobs d)) d.
Proof.
  unfold update_job. destruct (a_jobs d !! id) as [r|]; [|naive_solver].
  destruct (cond r) eqn:Hc; [|naive_solver]. destruct (identity_free d id (f r)) eqn:Hi; [|done].
  intros [= <- <-]. right. eauto 10.
Qed.

Lemma jobs_step_row d id r r' :
  a_jobs d !! id = Some r -> row_step r r' -> identity_free d id r' = true ->
  jobs_step d (set_a_jobs (<[id:=r']> (a_jobs d)) d).
Proof.
  intros Hr Hstep Hfree%bool_decide_eq_true. split.
  - intros i. simpl. destruct (decide (i = id)) as [->|Hne].
    + rewrite lookup_insert_eq, Hr. done.
    + rewrite lookup_insert_ne by done. apply row_rel_refl.
  - intros Hu i j ri rj. simpl. rewrite !lookup_insert_Some.
    intros [[<- <-]|[Hi Hri]] [[<- <-]|[Hj Hrj]] Hne; [done|..|by eapply Hu].
    + by apply (Hfree _ _ Hrj).
    + destruct (Hfree _ _ Hri Hne) as [H1 H2]. split; intros Hne' Heq; [apply H1|apply H2]; congruence.
Qed.

Lemma jobs_step_update id cond f d n d' :
  update_job id cond f d = inr (n, d') ->
  (forall r, a_jobs d !! id = Some r -> cond r = true -> row_step r (f r)) -> jobs_step d d'.
Proof.
  intros [[_ ->]|(r & _ & Hr & Hc & Hf & ->)]%update_job_inv Hstep; [reflexivity|]. by eapply jobs_step_row; [|apply Hstep|].
Qed.

Lemma jobs_step_bulk cond f d u d' :
  update_jobs cond f d = inr (u, d') ->
  (forall r, cond r = true -> row_step r (f r) /\ jo_thread (f r) = jo_thread r /\ jo_turn (f r) = jo_turn r) ->
  jobs_step d d'.
Proof.
  intros [= <- <-] Hf. split.
  - intros i. simpl. rewrite lookup_fmap. destruct (a_jobs d !! i) as [r|]; simpl; [|done].
    destruct (cond r) eqn:E; [by apply Hf|apply row_step_refl].
  - assert (forall r, jo_thread (if cond r then f r else r) = jo_thread r /\ jo_turn (if cond r then f r else r) = jo_turn r)
      as Hid.
    { intros r. destruct (cond r) eqn:E; [|done]. destruct (Hf r E) as (_ & -> & ->). done. }
    intros Hu i j ri rj. simpl. rewrite !lookup_fmap, !fmap_Some.
    intros (r1 & H1 & ->) (r2 & H2 & ->) Hne. destruct (Hid r1) as [-> ->], (Hid r2) as [-> ->]. by eapply Hu.
Qed.

Lemma jobs_step_insert id r d u d' :
  insert_job id r d = inr (u, d') -> fresh_job r -> jobs_step d d'.
Proof.
  unfold insert_job, acheck. destruct (absent (a_jobs d) id) eqn:Ha; [|done]. simpl.
  destruct (_ && _); [|done]. intros [= <- <-] Hf. apply bool_decide_eq_true in Ha. split.
  - intros i. simpl. destruct (decide (i = id)) as [->|Hne].
    + rewrite lookup_insert_eq, Ha. simpl. exists r. split; [done|apply row_step_refl].
    + rewrite lookup_insert_ne by done. apply row_rel_refl.
  - destruct Hf as (_ & Ht & _ & Hu & _). intros Hq i j ri rj. simpl. rewrite !lookup_insert_Some.
    intros [[<- <-]|[Hi Hri]] [[<- <-]|[Hj Hrj]] Hne; [done|..|by eapply Hq].
    + by rewrite Ht, Hu.
    + rewrite Ht, Hu. split; by intros ? ?.
Qed.

(** ** Programs, from a given database *)

Notation steps_from := (takes jobs_step).

Lemma guarantees_direct_update id cond f :
  (forall r, cond r = true -> row_step r (f r)) -> guarantees jobs_step (direct (update_job id cond f)).
Proof. intros Hf. apply guarantees_direct. intros d a d' H. eapply jobs_step_update; eauto. Qed.

(** Statements that leave the jobs alone. *)
Definition frames {A} (st : Stmt ADB A) : Prop :=
  forall d a d1, st d = inr (a, d1) -> a_jobs d1 = a_jobs d.

Lemma sf_frame {A} d (st : Stmt ADB A) g : frames st -> steps_from d (mapE g (exec st)).
Proof. intros Hst. apply sf_exec. intros a d1 H. apply jobs_step_frame. eauto. Qed.

Lemma frames_check ok f : (forall d, a_jobs (f d) = a_jobs d) -> frames (fun d => acheck (ok d) (f d)).
Proof. intros Hf d a d1. unfold acheck. destruct (ok d); naive_solver. Qed.

Lemma frames_core (st : Stmt DB unit) : frames (on_core st).
Proof. intros d a d1. unfold on_core. destruct (st (core d)) as [|[]]; naive_solver. Qed.

Lemma frames_batches cond f : frames (update_batches cond f).
Proof. by intros d a d1 [= <- <-]. Qed.

Lemma frames_session id st t : frames (bump_session id st t).
Proof. intros d a d1. unfold bump_session. destruct (a_sessions d !! id); [case_match|]; naive_solver. Qed.

Lemma sf_coreP {A} d (m : M DB TxFail A) : steps_from d (coreP m).
Proof.
  intros env w r w1 <-. unfold coreP. destruct (m _ _) as [x w']. intros [= _ <-]. by apply jobs_step_frame.
Qed.

(** Programs that leave the jobs alone. *)
Definition jobs_fixed {A} (m : M ADB TxFail A) : Prop :=
  forall env w r w1, m env w = (inr r, w1) -> a_jobs (w_db w1) = a_jobs (w_db w).

Lemma jf_bind {A B} (m : M ADB TxFail A) (f : A -> M ADB TxFail B) :
  jobs_fixed m -> (forall a, jobs_fixed (f a)) -> jobs_fixed (bind m f).
Proof. intros Hm Hf env w r w1 H. m_inv1. rewrite (Hf _ _ _ _ _ H). by eapply Hm. Qed.

Lemma jf_exec (st : Stmt ADB unit) g : frames st -> jobs_fixed (mapE g (exec st)).
Proof. intros Hst env w r w1 H. m_inv. eauto. Qed.

Lemma jf_forM {A} (l : list A) (f : A -> M ADB TxFail unit) : (forall x, jobs_fixed (f x)) -> jobs_fixed (forM_ l f).
Proof.
  intros Hf. induction l as [|x l IH]; [|by apply jf_bind].
  intros env w r w1 H. simpl in H. by m_inv.
Qed.

Lemma sf_fixed {A B} d (m : M ADB TxFail A) (f : A -> M ADB TxFail B) :
  jobs_fixed m -> (forall d1 a, a_jobs d1 = a_jobs d -> steps_from d1 (f a)) -> steps_from d (bind m f).
Proof.
  intros Hm Hf env w r w1 <- H. m_inv1. pose proof (Hm _ _ _ _ Hrun) as Heq.
  etrans; [by apply jobs_step_frame|]. by eapply (Hf _ _ Heq).
Qed.

#[export] Hint Resolve sf_frame frames_core frames_batches frames_session sf_coreP : txn.
#[export] Hint Extern 2 (frames (set_batch_state _ _ _)) => apply frames_batches : txn.
#[export] Hint Extern 2 (frames (insert_batch _ _)) => apply frames_check; reflexivity : txn.
#[export] Hint Extern 2 (frames (insert_mapping _ _ _)) => apply frames_check; reflexivity : txn.
#[export] Hint Extern 2 (frames (insert_outcome _ _)) => apply frames_check; reflexivity : txn.
#[export] Hint Extern 2 (frames (insert_provenance _ _ _)) => apply frames_check; reflexivity : txn.
#[export] Hint Extern 2 (frames (insert_contributor _ _ _)) => apply frames_check; reflexivity : txn.
#[export] Hint Extern 2 (frames (insert_resolution _ _)) => apply frames_check; reflexivity : txn.
#[export] Hint Extern 2 (frames (insert_arch_request _ _ _)) => apply frames_check; reflexivity : txn.

(** ** Row updates move a job forward *)

Lemma isin_inv s l : isin s l = true <-> s ∈ l.
Proof. apply bool_decide_eq_true. Qed.

(** A move of a job that is not finished. *)
Lemma row_step_move r r' :
  ~ finished r -> rank (jo_state r) < rank (jo_state r') \/ jo_state r' = jo_state r ->
  kept (jo_thread r) (jo_thread r') -> kept (jo_codex r) (jo_codex r') -> kept (jo_turn r) (jo_turn r') ->
  (forall x, jo_report r = Some x -> jo_report r' = Some x) ->
  (jo_state r' = "completed"%string -> is_Some (jo_report r')) ->
  jo_batch r' = jo_batch r /\ jo_session r' = jo_session r /\ jo_project r' = jo_project r ->
  row_step r r'.
Proof.
  intros Hf Hr Ht Hc Hu Hp Hm Ho. split; auto; [done|..].
  - destruct Hr as [?|E]; [lia|rewrite E; lia].
  - intros Heq. destruct Hr as [?|?]; [lia|done].
Qed.

Lemma kept_refl s : kept s s.
Proof. done. Qed.

Lemma kept_empty_or a b : empty_or a b = true -> kept a b.
Proof. unfold empty_or, kept. rewrite orb_true_iff, !seqb_true. naive_solver. Qed.

Lemma kept_fill a b : kept a (fill a b).
Proof. unfold kept, fill. intros Ha. destruct (seqb a "") eqn:E; [bool_inv; done|done]. Qed.
#[export] Hint Resolve kept_refl kept_empty_or kept_fill : txn.

(** The states are concrete: compare them by computation. *)
Ltac state_cases :=
  unfold has_turn in *; bool_inv;
  repeat match goal with
  | H : isin _ _ = true |- _ => apply isin_inv in H; unfold live_states, terminal_states in H;
      rewrite ?elem_of_cons, elem_of_nil in H
  | H : _ \/ _ |- _ => destruct H as [H|H]
  | H : False |- _ => destruct H
  end.
Ltac not_finished :=
  unfold finished, terminal_states; rewrite ?elem_of_cons, elem_of_nil;
  match goal with H : jo_state ?r = _ |- context [jo_state ?r] => rewrite H end; naive_solver discriminate.
Ltac rank_tac :=
  simpl; first [by right | left; match goal with H : jo_state ?r = _ |- _ => rewrite H end; by vm_compute].
Ltac row_tac :=
  state_cases; (apply row_step_move; simpl;
    [not_finished|rank_tac|auto with txn|auto with txn|auto with txn|auto|first [done|intros; congruence|idtac]|done]).

Lemma row_started t r : seqb (jo_state r) "queued" = true -> row_step r (job_started t r).
Proof. intros. row_tac. Qed.

Lemma row_bound a b c ph t r :
  isin (jo_state r) ["starting"; "uncertain"] = true -> empty_or (jo_thread r) a = true ->
  empty_or (jo_codex r) b = true -> empty_or (jo_turn r) c = true -> row_step r (job_bound a b c ph t r).
Proof. intros. row_tac. Qed.

Lemma row_activated ph t r : seqb (jo_state r) "starting" = true -> row_step r (job_state_phase "active" ph t r).
Proof. intros. row_tac. Qed.

Lemma row_progress ph n t r : seqb (jo_state r) "active" = true -> row_step r (job_progress ph n t r).
Proof. intros. row_tac. Qed.

Lemma row_reported x t r :
  seqb (jo_state r) "active" = true -> jo_report r = None -> row_step r (job_reported x t r).
Proof. intros ? E. row_tac. by rewrite E. Qed.

(** A job that ends, or is latched as uncertain. *)
Lemma row_ended st err term t r :
  ~ finished r -> rank (jo_state r) < rank st \/ st = jo_state r -> (st = "completed"%string -> is_Some (jo_report r)) ->
  row_step r (job_ended st err term t r).
Proof. intros Hf Hr Hc. apply row_step_move; simpl; auto with txn. Qed.

Lemma finished_rank r : finished r -> rank (jo_state r) = 6.
Proof.
  unfold finished, terminal_states. rewrite !elem_of_cons, elem_of_nil.
  intros [-> |[-> |[-> |[-> |[]]]]]; reflexivity.
Qed.

Lemma rank_unfinished s : isin s terminal_states = false -> rank s < 6.
Proof. unfold rank. intros ->. repeat case_match; lia. Qed.

Ltac end_tac := state_cases; (apply row_ended;
  [not_finished|rank_tac|first [done|intros; congruence]]).

(** ** Every operation *)

Lemma guarantees_ClaimJob : guarantees jobs_step ClaimArchaeologyNativeJob.
Proof.
  apply guarantees_runTx. intros d. unfold claimTx. sf1. destruct a as [[]|[id [r b]]]; repeat sf1.
  apply sf_exec. intros n d1 H1. eapply jobs_step_update; [done|]. intros x _ Hx. by apply row_started.
Qed.

Lemma guarantees_BindIdentity j a b c : guarantees jobs_step (BindArchaeologyNativeIdentity j a b c).
Proof.
  apply guarantees_bind; [auto with guar|intros _]. apply guarantees_bind; [apply guarantees_direct_query|intros r].
  apply guarantees_bind; [auto with guar|intros _]. destruct (_ && _ && _); [auto with guar|].
  apply guarantees_bind; [auto with guar|intros _]. apply guarantees_bind; [auto with guar|intros t].
  apply guarantees_bind; [|auto with guar]. apply guarantees_direct_update. intros x Hx.
  rewrite !andb_true_iff in Hx. destruct Hx as [[[? ?] ?] ?]. by apply row_bound.
Qed.

Lemma guarantees_Activate j a c : guarantees jobs_step (ActivateArchaeologyNativeJob j a c).
Proof.
  apply guarantees_bind; [auto with guar|intros _]. apply guarantees_bind; [apply guarantees_direct_query|intros r].
  apply guarantees_bind; [auto with guar|intros _]. destruct (_ && _); [auto with guar|].
  apply guarantees_bind; [auto with guar|intros _]. apply guarantees_bind; [auto with guar|intros t].
  apply guarantees_bind; [|auto with guar]. apply guarantees_direct_update. intros x [_ Hx]%andb_true_iff.
  by apply row_activated.
Qed.

Lemma guarantees_BindJob j a b c : guarantees jobs_step (BindArchaeologyNativeJob j a b c).
Proof. apply guarantees_bind; [apply guarantees_BindIdentity|intros _; apply guarantees_Activate]. Qed.

Lemma guarantees_FailStart j launch u : guarantees jobs_step (FailArchaeologyNativeStart j launch u).
Proof.
  apply guarantees_bind; [auto with guar|intros _]. apply guarantees_bind; [auto with guar|intros t].
  apply guarantees_runTx. intros d. sf1. rename a into r. sf1. cbv zeta.
  set (unc := u || _ || _ || _). set (needs := missing _ _ || _ || _).
  destruct (seqb (jo_state r) "uncertain" && negb unc) eqn:E1; [sf1|].
  destruct (seqb (jo_state r) "uncertain" && negb needs); [sf1|].
  destruct (seqb (jo_state r) "failed" && negb unc && _); [sf1|]. sf1.
  unfold failStartWrites. sf1.
  - apply sf_exec. intros n d1 Hu. eapply jobs_step_update; [done|]. intros x Hx _.
    assert (x = r) as ->. { unfold aselect in H. rewrite Hx in H. congruence. }
    apply row_step_move; simpl; auto with txn.
    + state_cases; not_finished.
    + state_cases.
      * left. rewrite H1. by destruct unc.
      * right. rewrite H1 in *. by destruct unc.
    + by destruct unc.
  - repeat sf1.
Qed.

Lemma guarantees_BindUncertainty j launch : guarantees jobs_step (BindArchaeologyNativeUncertainty j launch).
Proof.
  apply guarantees_bind; [auto with guar|intros _]. apply guarantees_bind; [auto with guar|intros t].
  apply guarantees_bind; [|auto with guar]. apply guarantees_direct_update. intros x Hx.
  rewrite !andb_true_iff in Hx. destruct Hx as [[[? ?] ?] ?]. apply row_bound; try done. bool_inv.
  match goal with H : jo_state x = _ |- _ => by rewrite H end.
Qed.

Lemma guarantees_Progress p : guarantees jobs_step (UpdateArchaeologyNativeProgress p).
Proof.
  apply guarantees_bind; [auto with guar|intros _]. apply guarantees_bind; [apply guarantees_direct_query|intros r].
  apply guarantees_bind; [auto with guar|intros _]. apply guarantees_bind; [auto with guar|intros _].
  apply guarantees_bind; [auto with guar|intros t]. apply guarantees_bind; [|auto with guar].
  apply guarantees_direct_update. intros x [_ Hx]%andb_true_iff. by apply row_progress.
Qed.

Lemma job_of_turn_inv j a c d r b : job_of_turn j a c d = inr (r, b) -> a_jobs d !! j = Some r.
Proof. unfold job_of_turn. repeat case_match; naive_solver. Qed.

(** Reporting inserts outcomes only, then marks the job. *)
Lemma jobs_fixed_insertOutcome `{Sha256} j x t i o : jobs_fixed (insertOutcome j x t i o).
Proof.
  apply jf_bind; [apply jf_exec; auto with txn|intros _].
  apply jf_bind; [apply jf_forM; intros; apply jf_exec; auto with txn|intros _].
  apply jf_forM. intros. apply jf_exec. auto with txn.
Qed.

Lemma guarantees_Report `{Sha256, ProposalJSON} c : guarantees jobs_step (ReportArchaeologyNativeJob c).
Proof.
  apply guarantees_bind; [auto with guar|intros _]. apply guarantees_bind; [auto with guar|intros t].
  apply guarantees_runTx. intros d. sf1. destruct a as [r b]. sf1.
  destruct (jo_report r) eqn:Hrep; [repeat sf1|]. sf1.
  apply (sf_fixed d); [apply jf_forM; intros; apply jobs_fixed_insertOutcome|]. intros d1 _ Hd1. sf1; [|repeat sf1].
  apply sf_exec. intros n d2 Hu. eapply jobs_step_update; [done|]. intros x Hx _.
  assert (a_jobs d !! rp_JobID c = Some r) as Hr.
  { destruct (job_of_turn _ _ _ d) as [|[r' b']] eqn:E; [done|]. destruct (ba_attested b'); [|done]. simplify_eq.
    by eapply job_of_turn_inv. }
  rewrite Hd1, Hr in Hx. simplify_eq. by apply row_reported.
Qed.

Lemma completion_rank st rep : rank (completion st rep).1 = 6.
Proof. unfold completion. by repeat case_match. Qed.

Lemma completion_report st rep : (completion st rep).1 = "completed"%string -> is_Some rep.
Proof. unfold completion. repeat case_match; try done. bool_inv. done. Qed.

Lemma guarantees_Complete tm : guarantees jobs_step (CompleteArchaeologyNativeTurn tm).
Proof.
  apply guarantees_bind; [auto with guar|intros _]. apply guarantees_runTx. intros d. sf1. sf1. destruct a as [r b].
  apply job_of_turn_inv in H. destruct (isin (jo_state r) terminal_states) eqn:Hterm; [repeat sf1|].
  unfold completeWrites. destruct (completion (tm_Status tm) (jo_report r)) as [next code] eqn:Hc. sf1; [|repeat sf1].
  apply sf_exec. intros n d1 Hu. eapply jobs_step_update; [done|]. intros x Hx _. simplify_eq.
  pose proof (completion_rank (tm_Status tm) (jo_report r)) as Hrk.
  pose proof (completion_report (tm_Status tm) (jo_report r)) as Hrep. rewrite Hc in Hrk, Hrep. simpl in Hrk, Hrep.
  apply row_step_move; simpl; auto with txn.
  - unfold finished. rewrite <- isin_inv. congruence.
  - left. rewrite Hrk. by apply rank_unfinished.
Qed.

Lemma guarantees_Lose j a c : guarantees jobs_step (LoseArchaeologyNativeTurn j a c).
Proof.
  apply guarantees_bind; [auto with guar|intros _]. apply guarantees_bind; [auto with guar|intros t].
  apply guarantees_runTx. intros d. repeat sf1.
  apply sf_exec. intros n d1 Hu.
  destruct (seqb (jo_state a0) "uncertain" && has_turn a c a0); (eapply jobs_step_update; [done|]; intros x _ Hx).
  - apply andb_true_iff in Hx as [_ Hx]. end_tac.
  - apply andb_true_iff in Hx as [_ Hx]. end_tac.
Qed.

Lemma sf_claimRequest d p k op s dg t : steps_from d (claimArchaeologyRequest p k op s dg t).
Proof. unfold claimArchaeologyRequest. sf1. destruct a as [[]|r]; repeat sf1. Qed.

(** One of the bulk updates of a cancellation or resolution. *)
Lemma sf_bulk d cond f g :
  (forall r, cond r = true -> row_step r (f r) /\ jo_thread (f r) = jo_thread r /\ jo_turn (f r) = jo_turn r) ->
  steps_from d (mapE g (exec (update_jobs cond f))).
Proof. intros Hf. apply sf_exec. intros u d1 H. by eapply jobs_step_bulk. Qed.

Lemma guarantees_Cancel `{Sha256, DigestJSON} p q b : guarantees jobs_step (CancelArchaeologyNativeBatch p q b).
Proof.
  apply guarantees_bind; [auto with guar|intros _]. apply guarantees_runTx. intros d. sf1. sf1. sf1.
  sf1; [apply sf_claimRequest|]. sf1; [sf1|]. sf1. sf1. sf1; [|repeat sf1]. unfold cancelWrites.
  repeat sf1; (apply sf_bulk; intros r [_ Hr]%andb_true_iff; (split; [|done]); end_tac).
Qed.

Lemma guarantees_Resolve `{Sha256, DigestJSON} c : guarantees jobs_step (ResolveArchaeologyNativeUncertainty c).
Proof.
  apply guarantees_bind; [auto with guar|intros _]. apply guarantees_runTx. intros d. sf1. sf1. sf1.
  destruct a as [[]|r]; [|sf1|sf1|repeat sf1]. sf1. unfold resolveWrites. repeat sf1.
  - apply sf_exec. intros n d9 Hu. eapply jobs_step_update; [done|]. intros x _ Hx. end_tac.
  - apply sf_bulk. intros r [_ Hr]%andb_true_iff. (split; [|done]). end_tac.
Qed.

Lemma sf_queue_candidate `{Sha256} d p s b t e : steps_from d (queue_candidate p s b t e).
Proof.
  unfold queue_candidate. sf1. sf1. { destruct a as [[]|m]; repeat sf1. } sf1. sf1.
  { destruct a1 as [[]|m]; [|sf1|sf1|].
    - unfold create_candidate_project. repeat sf1.
    - sf1. apply sf_query. intros ? ?. repeat sf1. }
  sf1; [destruct (seqb _ _); sf1|].
  apply sf_exec. intros u d9 Hi. by eapply jobs_step_insert.
Qed.

Lemma guarantees_Queue `{Sha256, DigestJSON} c :
  guarantees jobs_step (QueueArchaeologyNativeBatch c).
Proof.
  apply guarantees_bind; [auto with guar|intros _]. apply guarantees_runTx. intros d. sf1. sf1. sf1. sf1. sf1.
  destruct a as [[]|m]; [|sf1|sf1|repeat sf1]. repeat sf1. apply sf_queue_candidate.
Qed.
