(* ===== verification/Ledger.v ===== *)
(** * The durable persistence ledger

    [internal/store/project_archaeology_persistence.go]: a callback of an
    external Codex process is first committed as an intent, then applied to
    its native job, and the intent is settled.  A worker leases due intents,
    retries with a bounded backoff and gives up after eight attempts.

    The scheduling columns hold fixed-width UTC stamps, whose text order is
    the order of the instants they denote; the model keeps the instants, so
    the stamp parser's error paths and the length checks of the payload and
    of the key, which every written row passes, are not represented. *)

From S2P Require Import Prelude GoText Framing CoreDB ProjectCore ArchDB ArchPolicy NativeJobs.
From stdpp Require Import base gmap strings list sets sorting.
From Stdlib Require Import ZArith Lia.

Local Open Scope Z_scope.
Local Open Scope prog_scope.

(** ** Constants (durations in nanoseconds) *)

Definition archaeologyPersistenceMaxAttempts : Z := 8.
Definition archaeologyPersistenceMaxRows : Z := 32.
Definition archaeologyPersistenceLease : Z := 30 * 1000000000.
Definition archaeologyPersistenceRetryBase : Z := 100 * 1000000.
Definition archaeologyPersistenceRetryMax : Z := 30 * 1000000000.

(** ** Intents *)

Record ArchaeologyNativePersistenceIntent := {
  pi_JobID : string; pi_Operation : string; pi_Launch : ArchaeologyLaunchResult; pi_Uncertain : bool;
  pi_ThreadID : string; pi_CodexSessionID : string; pi_TurnID : string; pi_Status : string; pi_DurationMS : option Z }.

(** The closed payload structs. *)
Inductive payload :=
  | archaeologyNativeFailStartPayload (launch : ArchaeologyLaunchResult) (uncertain : bool)
  | archaeologyNativeIdentityPayload (threadID codexSessionID turnID : string)
  | archaeologyNativeTurnPayload (threadID turnID : string)
  | archaeologyNativeCompletePayload (threadID turnID status : string) (durationMS : option Z).

(** [encoding/json] and [crypto/sha256], which the ledger only calls: one
    unmarshaller per payload struct, since the code picks the struct by the
    operation and [json.Unmarshal] fills whatever struct it is given. *)
Class Codec := {
  json_payload : payload -> string;
  json_fail_start : string -> option (ArchaeologyLaunchResult * bool);
  json_identity : string -> option (string * string * string);
  json_turn : string -> option (string * string);
  json_complete : string -> option (string * string * string * option Z);
  codec_sha256 :: Sha256;
}.

(** A payload of Go values: its texts are valid UTF-8 (which [json.Marshal]
    would otherwise replace) and its duration is an [int64]. *)
Definition payload_plain (p : payload) : bool :=
  match p with
  | archaeologyNativeFailStartPayload l _ =>
      forallb utf8_ValidString [la_LaunchID l; la_ProjectID l; la_State l; la_ThreadID l; la_CodexSessionID l;
                                la_TurnID l; la_Error l]
  | archaeologyNativeIdentityPayload a b c => forallb utf8_ValidString [a; b; c]
  | archaeologyNativeTurnPayload a c => forallb utf8_ValidString [a; c]
  | archaeologyNativeCompletePayload a c s x =>
      forallb utf8_ValidString [a; c; s] && match x with Some n => (- maxInt64 - 1 <=? n) && (n <=? maxInt64) | None => true end
  end.

(** What the ledger relies on: a marshalled struct unmarshals to itself. *)
Class CodecLaws `{Codec} := {
  fail_start_round l u : let p := archaeologyNativeFailStartPayload l u in
    payload_plain p = true -> json_fail_start (json_payload p) = Some (l, u);
  identity_round a b c : let p := archaeologyNativeIdentityPayload a b c in
    payload_plain p = true -> json_identity (json_payload p) = Some (a, b, c);
  turn_round a c : let p := archaeologyNativeTurnPayload a c in
    payload_plain p = true -> json_turn (json_payload p) = Some (a, c);
  complete_round a c s x : let p := archaeologyNativeCompletePayload a c s x in
    payload_plain p = true -> json_complete (json_payload p) = Some (a, c, s, x);
}.

Definition emptyLaunch : ArchaeologyLaunchResult :=
  {| la_LaunchID := ""; la_ProjectID := ""; la_State := ""; la_ThreadID := ""; la_CodexSessionID := "";
     la_TurnID := ""; la_Error := "" |}.

Definition validatePersistenceLaunch (l : ArchaeologyLaunchResult) : bool :=
  boundedCoreText (la_LaunchID l) 200 false && boundedCoreText (la_ProjectID l) 200 false
  && boundedCoreText (la_State l) 120 false && boundedCoreText (la_ThreadID l) 120 false
  && boundedCoreText (la_CodexSessionID l) 120 false && boundedCoreText (la_TurnID l) 120 false
  && boundedCoreText (la_Error l) 200 false.

Definition emptyPersistenceLaunch (l : ArchaeologyLaunchResult) : bool := bool_decide (l = emptyLaunch).

Definition validPersistenceDuration (d : option Z) : bool :=
  match d with None => true | Some x => (0 <=? x) && (x <=? 604800000) end.

Definition no_duration (i : ArchaeologyNativePersistenceIntent) : bool := bool_decide (pi_DurationMS i = None).

(** The payload an intent is stored with; [None] is [ErrInvalid]. *)
Definition intent_payload (i : ArchaeologyNativePersistenceIntent) : option payload :=
  if seqb (pi_Operation i) "fail_start" then
    if validatePersistenceLaunch (pi_Launch i) && boundedCoreText (pi_ThreadID i) 120 false
       && boundedCoreText (pi_CodexSessionID i) 120 false && boundedCoreText (pi_TurnID i) 120 false
       && boundedCoreText (pi_Status i) 120 false && validPersistenceDuration (pi_DurationMS i)
       && seqb (pi_ThreadID i) "" && seqb (pi_CodexSessionID i) "" && seqb (pi_TurnID i) "" && seqb (pi_Status i) ""
       && no_duration i
    then Some (archaeologyNativeFailStartPayload (pi_Launch i) (pi_Uncertain i)) else None
  else if seqb (pi_Operation i) "bind_identity" then
    if boundedCoreText (pi_ThreadID i) 120 true && boundedCoreText (pi_CodexSessionID i) 120 true
       && boundedCoreText (pi_TurnID i) 120 true && emptyPersistenceLaunch (pi_Launch i) && negb (pi_Uncertain i)
       && seqb (pi_Status i) "" && no_duration i
    then Some (archaeologyNativeIdentityPayload (pi_ThreadID i) (pi_CodexSessionID i) (pi_TurnID i)) else None
  else if seqb (pi_Operation i) "activate" || seqb (pi_Operation i) "lose_turn" then
    if boundedCoreText (pi_ThreadID i) 120 true && boundedCoreText (pi_TurnID i) 120 true
       && seqb (pi_CodexSessionID i) "" && emptyPersistenceLaunch (pi_Launch i) && negb (pi_Uncertain i)
       && seqb (pi_Status i) "" && no_duration i
    then Some (archaeologyNativeTurnPayload (pi_ThreadID i) (pi_TurnID i)) else None
  else if seqb (pi_Operation i) "complete_turn" then
    if boundedCoreText (pi_ThreadID i) 120 true && boundedCoreText (pi_TurnID i) 120 true
       && boundedCoreText (pi_Status i) 32 true && isin (pi_Status i) ["completed"; "interrupted"; "failed"]
       && validPersistenceDuration (pi_DurationMS i) && seqb (pi_CodexSessionID i) ""
       && emptyPersistenceLaunch (pi_Launch i) && negb (pi_Uncertain i)
    then Some (archaeologyNativeCompletePayload (pi_ThreadID i) (pi_TurnID i) (pi_Status i) (pi_DurationMS i)) else None
  else None.

(** ** Rows and statements *)

(** The CHECK constraints of [archaeology_native_persistence_intents]. *)
Definition intent_states : list string := ["pending"; "leased"; "applied"; "superseded"; "blocked"].
Definition intent_operations : list string := ["fail_start"; "bind_identity"; "activate"; "lose_turn"; "complete_turn"].
Definition blank (s : string) : bool := all_bytes (fun a => byte a =? 32) s.

Definition intent_ok (r : intent_row) : bool :=
  isin (in_operation r) intent_operations && isin (in_state r) intent_states
  && (0 <=? in_attempts r) && (in_attempts r <=? 1000) && (len (in_owner r) <=? 200) && (len (in_error r) <=? 200)
  && (if isin (in_state r) ["pending"; "leased"] then bool_decide (is_Some (in_next r)) else bool_decide (in_next r = None))
  && (if seqb (in_state r) "applied" then bool_decide (is_Some (in_applied r)) else bool_decide (in_applied r = None))
  && (if seqb (in_state r) "leased" then negb (blank (in_owner r)) && bool_decide (is_Some (in_expires r))
      else seqb (in_owner r) "" && bool_decide (in_expires r = None)).

Definition insert_intent (id : string) (r : intent_row) : Stmt ADB unit := fun d =>
  acheck (absent (a_intents d) id && present (a_jobs d) (in_job r) && intent_ok r
          && bool_decide (map_Forall (fun _ x => ~ (in_job x = in_job r /\ in_operation x = in_operation r)) (a_intents d)))
    (set_a_intents (<[id:=r]> (a_intents d)) d).

(** [UPDATE ... WHERE id=? AND ...], with the rows affected *)
Definition update_intent (id : string) (cond : intent_row -> bool) (f : intent_row -> intent_row) : Stmt ADB Z := fun d =>
  match a_intents d !! id with
  | None => inr (0, d)
  | Some r =>
      if cond r then
        if intent_ok (f r) then inr (1, set_a_intents (<[id:=f r]> (a_intents d)) d) else inl SqlConstraint
      else inr (0, d)
  end.

(** The same over every row that satisfies the condition. *)
Definition update_intents (cond : intent_row -> bool) (f : intent_row -> intent_row) : Stmt ADB unit := fun d =>
  acheck (bool_decide (map_Forall (fun _ r => cond r = true -> intent_ok (f r) = true) (a_intents d)))
    (set_a_intents ((fun r => if cond r then f r else r) <$> a_intents d) d).

(** [SET state=?,attempts=?,next_attempt_at=?,lease_owner=?,lease_expires_at=?,last_error_code=?,applied_at=?,updated_at=?] *)
Definition intent_with (state : string) (attempts : Z) (next : option Z) (owner : string) (expires : option Z)
    (error : string) (applied : option Z) (t : Z) (r : intent_row) : intent_row :=
  {| in_job := in_job r; in_operation := in_operation r; in_digest := in_digest r; in_payload := in_payload r;
     in_state := state; in_attempts := attempts; in_next := next; in_owner := owner; in_expires := expires;
     in_error := error; in_applied := applied; in_created := in_created r; in_updated := t |}.

Definition intent_by_operation (jobID operation : string) : ADB -> SqlErr + (string * intent_row) := fun d =>
  match filter (fun e => in_job e.2 = jobID /\ in_operation e.2 = operation) (map_to_list (a_intents d)) with
  | e :: _ => inr e
  | [] => inl SqlNoRows
  end.

(** [ORDER BY next_attempt_at,created_at,id], and by [lease_expires_at] *)
Definition intent_before (key : intent_row -> option Z) (a b : string * intent_row) : Prop :=
  let ka := default 0 (key a.2) in
  let kb := default 0 (key b.2) in
  ka < kb \/ ka = kb /\ (in_created a.2 < in_created b.2 \/ in_created a.2 = in_created b.2 /\ sle a.1 b.1).

#[export] Instance intent_before_dec key : RelDecision (intent_before key).
Proof. intros a b. unfold intent_before. apply _. Defined.

(** [column IS NOT NULL AND column<=?] *)
Definition at_or_before (x : option Z) (t : Z) : bool := match x with Some y => y <=? t | None => false end.

Definition expired (t : Z) (r : intent_row) : bool := seqb (in_state r) "leased" && at_or_before (in_expires r) t.
Definition due (t : Z) (r : intent_row) : bool :=
  seqb (in_state r) "pending" && (in_attempts r <? archaeologyPersistenceMaxAttempts) && at_or_before (in_next r) t.
Definition exhausted (t : Z) (r : intent_row) : bool :=
  seqb (in_state r) "pending" && (archaeologyPersistenceMaxAttempts <=? in_attempts r) && at_or_before (in_next r) t.

(** ** Backoff *)

(** [for i := 1; i < attempt && delay < max; i++ { delay *= 2 }], with the
    iterations that are left *)
Fixpoint retry_loop (left : nat) (delay : Z) : Z :=
  match left with
  | O => delay
  | S left' => if delay <? archaeologyPersistenceRetryMax then retry_loop left' (2 * delay) else delay
  end.

Definition archaeologyPersistenceRetryDelay (attempt : Z) : Z :=
  let attempt := if attempt <? 1 then 1 else attempt in
  let delay := retry_loop (Z.to_nat (attempt - 1)) archaeologyPersistenceRetryBase in
  if archaeologyPersistenceRetryMax <? delay then archaeologyPersistenceRetryMax else delay.

(** ** Readback *)

Inductive persistenceReadbackOutcome :=
  | persistenceReadbackRetry | persistenceReadbackApplied | persistenceReadbackSuperseded | persistenceReadbackBlocked.

Definition persistenceIdentityCompatible (current desired : string) : bool :=
  seqb current "" || seqb desired "" || seqb current desired.
Definition persistenceIdentityExact (current desired : string) : bool :=
  negb (seqb desired "") && seqb current desired.

(** What the job row says about an intent whose mutation conflicted. *)
Definition classify (i : ArchaeologyNativePersistenceIntent) (r : job_row) : persistenceReadbackOutcome :=
  let exact_turn := persistenceIdentityExact (jo_thread r) (pi_ThreadID i)
                    && persistenceIdentityExact (jo_turn r) (pi_TurnID i) in
  if negb (persistenceIdentityCompatible (jo_thread r) (pi_ThreadID i))
     || negb (persistenceIdentityCompatible (jo_turn r) (pi_TurnID i))
     || (negb (seqb (pi_CodexSessionID i) "")
         && negb (persistenceIdentityCompatible (jo_codex r) (pi_CodexSessionID i)))
  then persistenceReadbackBlocked
  else if seqb (pi_Operation i) "bind_identity" then
    if persistenceIdentityExact (jo_thread r) (pi_ThreadID i) && persistenceIdentityExact (jo_codex r) (pi_CodexSessionID i)
       && persistenceIdentityExact (jo_turn r) (pi_TurnID i)
    then persistenceReadbackApplied
    else if isin (jo_state r) ["starting"; "uncertain"] then persistenceReadbackRetry
    else persistenceReadbackSuperseded
  else if seqb (pi_Operation i) "activate" then
    if seqb (jo_state r) "active" && exact_turn then persistenceReadbackApplied
    else if seqb (jo_state r) "starting" then persistenceReadbackRetry
    else persistenceReadbackSuperseded
  else if seqb (pi_Operation i) "fail_start" then
    let l := pi_Launch i in
    let wantUncertain := pi_Uncertain i || negb (seqb (la_ThreadID l) "") || negb (seqb (la_CodexSessionID l) "")
                         || negb (seqb (la_TurnID l) "") in
    let holds current desired := persistenceIdentityCompatible current desired
                                 && (seqb desired "" || persistenceIdentityExact current desired) in
    if seqb (jo_state r) "uncertain" && wantUncertain then
      if holds (jo_thread r) (la_ThreadID l) && holds (jo_codex r) (la_CodexSessionID l) && holds (jo_turn r) (la_TurnID l)
      then persistenceReadbackApplied else persistenceReadbackRetry
    else if seqb (jo_state r) "failed" && negb wantUncertain && seqb (jo_error r) "codex_start_failed"
    then persistenceReadbackApplied
    else if seqb (jo_state r) "starting" then persistenceReadbackRetry
    else persistenceReadbackSuperseded
  else if seqb (pi_Operation i) "lose_turn" then
    if seqb (jo_state r) "uncertain" && seqb (jo_error r) "codex_process_unavailable" && exact_turn
    then persistenceReadbackApplied
    else if seqb (jo_state r) "uncertain" && seqb (jo_error r) "server_restarted_during_active_task" && exact_turn
    then persistenceReadbackRetry
    else if isin (jo_state r) ["active"; "report_ready"; "cancel_requested"] then persistenceReadbackRetry
    else persistenceReadbackSuperseded
  else if seqb (pi_Operation i) "complete_turn" then
    if seqb (jo_state r) "uncertain" then persistenceReadbackRetry
    else
      let wantState := if seqb (pi_Status i) "completed" && negb (bool_decide (is_Some (jo_report r)))
                       then "attention"%string else pi_Status i in
      if seqb (jo_state r) wantState && bool_decide (pi_DurationMS i = jo_duration r) then persistenceReadbackApplied
      else if isin (jo_state r) ["starting"; "active"; "report_ready"; "cancel_requested"] then persistenceReadbackRetry
      else persistenceReadbackSuperseded
  else persistenceReadbackBlocked.

Definition classifyArchaeologyPersistenceReadback (i : ArchaeologyNativePersistenceIntent)
    : M ADB Err persistenceReadbackOutcome :=
  found <-- attempt (autocommit (query (aselect a_jobs (pi_JobID i)))) ;;
  match found with
  | inl SqlNoRows => ret persistenceReadbackBlocked
  | inl e => throw (mapErr (ErrSql e))
  | inr r => ret (classify i r)
  end.

Definition applyArchaeologyPersistenceMutation (i : ArchaeologyNativePersistenceIntent) : M ADB Err unit :=
  if seqb (pi_Operation i) "fail_start" then FailArchaeologyNativeStart (pi_JobID i) (pi_Launch i) (pi_Uncertain i)
  else if seqb (pi_Operation i) "bind_identity" then
    BindArchaeologyNativeIdentity (pi_JobID i) (pi_ThreadID i) (pi_CodexSessionID i) (pi_TurnID i)
  else if seqb (pi_Operation i) "activate" then ActivateArchaeologyNativeJob (pi_JobID i) (pi_ThreadID i) (pi_TurnID i)
  else if seqb (pi_Operation i) "lose_turn" then LoseArchaeologyNativeTurn (pi_JobID i) (pi_ThreadID i) (pi_TurnID i)
  else if seqb (pi_Operation i) "complete_turn" then
    CompleteArchaeologyNativeTurn {| tm_JobID := pi_JobID i; tm_ThreadID := pi_ThreadID i; tm_TurnID := pi_TurnID i;
      tm_Status := pi_Status i; tm_DurationMS := pi_DurationMS i |}
  else throw ErrInvalid.

(** ** Settling an intent *)

Definition intent_state (id : string) : ADB -> SqlErr + string := fun d =>
  match a_intents d !! id with Some r => inr (in_state r) | None => inl SqlNoRows end.

Definition held (owner : string) (r : intent_row) : bool := seqb (in_state r) "leased" && seqb (in_owner r) owner.

Definition markArchaeologyPersistenceApplied (id owner : string) (t : Z) : M ADB Err unit :=
  changed <-- direct (update_intent id (held owner) (fun r => intent_with "applied" (in_attempts r) None "" None "" (Some t) t r)) ;;
  if changed =? 1 then ret tt
  else
    state <-- direct (query (intent_state id)) ;;
    require (seqb state "applied") ErrConflict.

Definition markArchaeologyPersistenceTerminal (id owner state code : string) (t : Z) : M ADB Err unit :=
  require (seqb state "superseded" || seqb state "blocked") ErrInvalid ;;;
  changed <-- direct (update_intent id (held owner) (fun r => intent_with state (in_attempts r) None "" None code None t r)) ;;
  if changed =? 1 then ret tt
  else
    current <-- direct (query (intent_state id)) ;;
    require (seqb current state) ErrConflict.

Definition markArchaeologyPersistenceRetry (id owner code : string) (attempts t : Z) : M ADB Err unit :=
  let attempts := if attempts <? 1 then 1 else attempts in
  let expectedAttempts := attempts - 1 in
  if archaeologyPersistenceMaxAttempts <=? attempts then
    changed <-- direct (update_intent id
      (fun r => held owner r && (in_attempts r =? expectedAttempts)
                && (archaeologyPersistenceMaxAttempts <=? in_attempts r + 1)
                && (in_attempts r <? archaeologyPersistenceMaxAttempts))
      (fun r => intent_with "blocked" (in_attempts r + 1) None "" None "max_attempts" None t r)) ;;
    require (changed =? 1) ErrConflict
  else
    let next := t + archaeologyPersistenceRetryDelay attempts in
    let code := if 200 <? len code then String.substring 0 200 code else code in
    changed <-- direct (update_intent id
      (fun r => held owner r && (in_attempts r =? expectedAttempts)
                && (in_attempts r + 1 <? archaeologyPersistenceMaxAttempts))
      (fun r => intent_with "pending" (in_attempts r + 1) (Some next) "" None code None t r)) ;;
    require (changed =? 1) ErrConflict.

Definition persistenceErrorCode (e : Err) : string :=
  match e with
  | ErrUnavailable => "unavailable"
  | ErrConflict => "conflict"
  | ErrInvalid => "invalid"
  | ErrNotFound => "not_found"
  | _ => "repository_error"
  end.

Definition context_done (e : Err) : bool :=
  bool_decide (e = ErrSql (SqlFault FCanceled)) || bool_decide (e = ErrSql (SqlFault FDeadlineExceeded)).

(** ** The operations *)

Section Operations.
Context `{Codec}.


Definition canonicalArchaeologyNativePersistence (i : ArchaeologyNativePersistenceIntent)
    : Err + (string * string * string) :=
  if boundedCoreText (pi_JobID i) 120 true then
    match intent_payload i with
    | Some p => inr (pi_Operation i, json_payload p, sha256_Sum256 (json_payload p))
    | None => inl ErrInvalid
    end
  else inl ErrInvalid.

Definition decodeArchaeologyPersistenceIntent (r : intent_row) : Err + ArchaeologyNativePersistenceIntent :=
  let intent launch uncertain thread codex turn status duration :=
    {| pi_JobID := in_job r; pi_Operation := in_operation r; pi_Launch := launch; pi_Uncertain := uncertain;
       pi_ThreadID := thread; pi_CodexSessionID := codex; pi_TurnID := turn; pi_Status := status;
       pi_DurationMS := duration |} in
  if seqb (in_operation r) "fail_start" then
    match json_fail_start (in_payload r) with
    | Some (l, u) => inr (intent l u "" "" "" "" None)
    | _ => inl ErrInvalid
    end
  else if seqb (in_operation r) "bind_identity" then
    match json_identity (in_payload r) with
    | Some (a, b, c) => inr (intent emptyLaunch false a b c "" None)
    | _ => inl ErrInvalid
    end
  else if seqb (in_operation r) "activate" || seqb (in_operation r) "lose_turn" then
    match json_turn (in_payload r) with
    | Some (a, c) => inr (intent emptyLaunch false a "" c "" None)
    | _ => inl ErrInvalid
    end
  else if seqb (in_operation r) "complete_turn" then
    match json_complete (in_payload r) with
    | Some (a, c, s, x) => inr (intent emptyLaunch false a "" c s x)
    | _ => inl ErrInvalid
    end
  else inl ErrInvalid.

(** *** Ensuring an intent *)

Definition same_payload (digest text : string) (r : intent_row) : bool :=
  seqb (in_digest r) digest && seqb (in_payload r) text.

Definition pending_intent (jobID operation digest text : string) (t : Z) : intent_row :=
  {| in_job := jobID; in_operation := operation; in_digest := digest; in_payload := text; in_state := "pending";
     in_attempts := 0; in_next := Some t; in_owner := ""; in_expires := None; in_error := ""; in_applied := None;
     in_created := t; in_updated := t |}.

Definition ensureTx (jobID operation text digest : string) (t : Z) : M ADB TxFail (TxOut (string * intent_row)) :=
  found <-- attempt (exec (query (intent_by_operation jobID operation))) ;;
  match found with
  | inr e =>
      require (same_payload digest text e.2) (FBody ErrConflict) ;;;
      ret (TxCommit e)
  | inl SqlNoRows =>
      let id := deterministicHistoricalID "ARPI-" [jobID; operation] in
      let row := pending_intent jobID operation digest text t in
      mapE (fun e => if bool_decide (mapErr (ErrSql e) = ErrConflict) then FReplay (mapErr (ErrSql e))
                     else FBody (mapErr (ErrSql e))) (exec (insert_intent id row)) ;;;
      ret (TxCommit (id, row))
  | inl e => throw (FBody (mapErr (ErrSql e)))
  end.

Definition EnsureArchaeologyNativePersistenceIntent (i : ArchaeologyNativePersistenceIntent)
    : M ADB Err (string * intent_row) :=
  match canonicalArchaeologyNativePersistence i with
  | inl e => throw e
  | inr (operation, text, digest) =>
      t <-- now ;;
      result <-- attempt (withTx (ensureTx (pi_JobID i) operation text digest t)) ;;
      match result with
      | inr e => ret e
      | inl (FReplay e) =>
          let id := deterministicHistoricalID "ARPI-" [pi_JobID i; operation] in
          prior <-- attempt (E := SqlErr) (autocommit (query (aselect a_intents id))) ;;
          match prior with
          | inr r => if same_payload digest text r then ret (id, r) else throw e
          | inl _ => throw e
          end
      | inl (FBegin e) | inl (FBody e) | inl (FCommit e) => throw e
      end
  end.

Definition ArchaeologyNativePersistenceIntentByID (id : string) : M ADB Err (string * intent_row) :=
  require (boundedCoreText id 200 true) ErrInvalid ;;;
  r <-- direct (query (aselect a_intents id)) ;;
  ret (id, r).

(** *** Leases *)

Definition expired_leases (t : Z) (d : ADB) : list (string * intent_row) :=
  merge_sort (intent_before in_expires) (filter (fun e => expired t e.2 = true) (map_to_list (a_intents d))).

Definition recover_lease (t : Z) (e : string * intent_row) : M ADB TxFail unit :=
  let attempts := in_attempts e.2 + 1 in
  mapped (exec
    (if archaeologyPersistenceMaxAttempts <=? attempts
     then update_intent e.1 (expired t)
            (fun r => intent_with "blocked" archaeologyPersistenceMaxAttempts None "" None "lease_expired" (in_applied r) t r)
     else update_intent e.1 (expired t)
            (fun r => intent_with "pending" attempts (Some (t + archaeologyPersistenceRetryDelay attempts)) "" None
                        "lease_expired" (in_applied r) t r))) ;;;
  ret tt.

Definition recoverExpiredArchaeologyPersistenceLeases (t : Z) : M ADB Err unit :=
  runTx
    (leases <-- mapped (exec (query (fun d => inr (expired_leases t d)))) ;;
     forM_ leases (recover_lease t) ;;;
     ret (TxCommit tt)).

Definition due_intents (t limit : Z) (d : ADB) : list (string * intent_row) :=
  take (Z.to_nat limit)
    (merge_sort (intent_before in_next) (filter (fun e => due t e.2 = true) (map_to_list (a_intents d)))).

Definition intent_leased (owner : string) (t : Z) (r : intent_row) : intent_row :=
  intent_with "leased" (in_attempts r) (in_next r) owner (Some (t + archaeologyPersistenceLease)) (in_error r)
    (in_applied r) t r.

Fixpoint lease_each (owner : string) (t : Z) (l : list (string * intent_row))
    : M ADB TxFail (list (string * intent_row)) :=
  match l with
  | [] => ret []
  | e :: l' =>
      changed <-- mapped (exec (update_intent e.1 (due t) (intent_leased owner t))) ;;
      rest <-- lease_each owner t l' ;;
      ret (if changed =? 1 then (e.1, intent_leased owner t e.2) :: rest else rest)
  end.

Definition leaseDueArchaeologyPersistence (t limit : Z) : M ADB Err (list (string * intent_row)) :=
  if limit <? 1 then ret []
  else
    runTx
      (mapped (exec (update_intents (exhausted t)
         (fun r => intent_with "blocked" (in_attempts r) None "" None "max_attempts" (in_applied r) t r))) ;;;
       candidates <-- mapped (exec (query (fun d => inr (due_intents t limit d)))) ;;
       match candidates with
       | [] => ret (TxCommit [])
       | _ =>
           owner <-- newID "ARPI-" ;;
           leased <-- lease_each owner t candidates ;;
           ret (TxCommit leased)
       end).

(** The row and its owner; an empty owner when nothing was leased.  Two
    refusals are decided after the transaction is committed. *)
Definition leaseOneArchaeologyPersistenceIntent (id : string) (t : Z) : M ADB Err (string * intent_row * string) :=
  result <-- runTx
    (r <-- mapped (exec (query (aselect a_intents id))) ;;
     if negb (seqb (in_state r) "pending") then
       require (negb (seqb (in_state r) "leased")) (FBody ErrUnavailable) ;;;
       ret (TxCommit (inr (id, r, ""%string)))
     else if archaeologyPersistenceMaxAttempts <=? in_attempts r then ret (TxCommit (inl ErrConflict))
     else if negb (at_or_before (in_next r) t) then ret (TxCommit (inl ErrUnavailable))
     else
       owner <-- newID "ARPI-" ;;
       changed <-- mapped (exec (update_intent id (fun x => due t x && (in_attempts x =? in_attempts r))
         (intent_leased owner t))) ;;
       require (changed =? 1) (FBody ErrUnavailable) ;;;
       ret (TxCommit (inr (id, intent_leased owner t r, owner)))) ;;
  match result with inl e => throw e | inr x => ret x end.

(** *** Processing *)

(** The error of a mutation that was not settled by a readback. *)
Definition settle_error (id owner : string) (attempts t : Z) (e : Err) : M ADB Err persistenceReadbackOutcome :=
  if context_done e then throw e
  else if bool_decide (e = ErrInvalid) || bool_decide (e = ErrNotFound) then
    markArchaeologyPersistenceTerminal id owner "blocked" (persistenceErrorCode e) t ;;;
    ret persistenceReadbackBlocked
  else
    markArchaeologyPersistenceRetry id owner (persistenceErrorCode e) (attempts + 1) t ;;;
    ret persistenceReadbackRetry.

Definition processArchaeologyPersistenceRow (e : string * intent_row) (owner : string) (t : Z)
    : M ADB Err persistenceReadbackOutcome :=
  match decodeArchaeologyPersistenceIntent e.2 with
  | inl _ =>
      markArchaeologyPersistenceTerminal e.1 owner "blocked" "invalid_payload" t ;;;
      ret persistenceReadbackBlocked
  | inr intent =>
      applied <-- attempt (E := Err) (applyArchaeologyPersistenceMutation intent) ;;
      match applied with
      | inr _ => markArchaeologyPersistenceApplied e.1 owner t ;;; ret persistenceReadbackApplied
      | inl ErrConflict =>
          outcome <-- classifyArchaeologyPersistenceReadback intent ;;
          match outcome with
          | persistenceReadbackApplied =>
              markArchaeologyPersistenceApplied e.1 owner t ;;; ret persistenceReadbackApplied
          | persistenceReadbackSuperseded =>
              markArchaeologyPersistenceTerminal e.1 owner "superseded" "stale_state" t ;;;
              ret persistenceReadbackSuperseded
          | persistenceReadbackBlocked =>
              markArchaeologyPersistenceTerminal e.1 owner "blocked" "identity_mismatch" t ;;;
              ret persistenceReadbackBlocked
          | persistenceReadbackRetry => settle_error e.1 owner (in_attempts e.2) t ErrConflict
          end
      | inl err => settle_error e.1 owner (in_attempts e.2) t err
      end
  end.

Record ArchaeologyNativePersistenceRetryReport := {
  rr_Leased : Z; rr_Processed : Z; rr_Applied : Z; rr_Superseded : Z; rr_Retried : Z; rr_Blocked : Z }.

Definition counted (o : persistenceReadbackOutcome) (r : ArchaeologyNativePersistenceRetryReport)
    : ArchaeologyNativePersistenceRetryReport :=
  let one (x : bool) := if x then 1 else 0 in
  {| rr_Leased := rr_Leased r; rr_Processed := rr_Processed r + 1;
     rr_Applied := rr_Applied r + one (match o with persistenceReadbackApplied => true | _ => false end);
     rr_Superseded := rr_Superseded r + one (match o with persistenceReadbackSuperseded => true | _ => false end);
     rr_Retried := rr_Retried r + one (match o with persistenceReadbackRetry => true | _ => false end);
     rr_Blocked := rr_Blocked r + one (match o with persistenceReadbackBlocked => true | _ => false end) |}.

(** An error is returned with the report so far. *)
Fixpoint process_rows (t : Z) (rows : list (string * intent_row)) (report : ArchaeologyNativePersistenceRetryReport)
    : M ADB (ArchaeologyNativePersistenceRetryReport * Err) ArchaeologyNativePersistenceRetryReport :=
  match rows with
  | [] => ret report
  | e :: rows' =>
      outcome <-- mapE (fun err => (report, err)) (processArchaeologyPersistenceRow e (in_owner e.2) t) ;;
      process_rows t rows' (counted outcome report)
  end.

Definition retry_limit (limits : list Z) : Z :=
  let limit := match limits with [] => archaeologyPersistenceMaxRows | l :: _ => l end in
  let limit := if limit <=? 0 then archaeologyPersistenceMaxRows else limit in
  if archaeologyPersistenceMaxRows <? limit then archaeologyPersistenceMaxRows else limit.

Definition empty_report (leased : Z) : ArchaeologyNativePersistenceRetryReport :=
  {| rr_Leased := leased; rr_Processed := 0; rr_Applied := 0; rr_Superseded := 0; rr_Retried := 0; rr_Blocked := 0 |}.

Definition RetryArchaeologyNativePersistence (limits : list Z)
    : M ADB (ArchaeologyNativePersistenceRetryReport * Err) ArchaeologyNativePersistenceRetryReport :=
  t <-- now ;;
  mapE (fun e => (empty_report 0, e)) (recoverExpiredArchaeologyPersistenceLeases t) ;;;
  rows <-- mapE (fun e => (empty_report 0, e)) (leaseDueArchaeologyPersistence t (retry_limit limits)) ;;
  process_rows t rows (empty_report (Z.of_nat (length rows))).

Definition ApplyArchaeologyNativePersistenceIntent (id : string) : M ADB Err unit :=
  require (boundedCoreText id 200 true) ErrInvalid ;;;
  t <-- now ;;
  leased <-- leaseOneArchaeologyPersistenceIntent id t ;;
  let '(i, r, owner) := leased in
  if seqb (in_state r) "applied" || seqb (in_state r) "superseded" then ret tt
  else if seqb (in_state r) "blocked" then throw ErrConflict
  else
    t2 <-- now ;;
    processArchaeologyPersistenceRow (i, r) owner t2 ;;;
    ret tt.

Definition EnsureAndApplyArchaeologyNativePersistence (i : ArchaeologyNativePersistenceIntent)
    : M ADB Err (string * intent_row) :=
  record <-- EnsureArchaeologyNativePersistenceIntent i ;;
  ApplyArchaeologyNativePersistenceIntent record.1 ;;;
  ArchaeologyNativePersistenceIntentByID record.1.

(** *** Health *)

Record ArchaeologyNativePersistenceStatus := {
  st_Pending : Z; st_Leased : Z; st_Blocked : Z; st_Applied : Z; st_Superseded : Z; st_NextAttemptAt : option Z }.

Definition Healthy (s : ArchaeologyNativePersistenceStatus) : bool :=
  (st_Pending s =? 0) && (st_Leased s =? 0) && (st_Blocked s =? 0).

Definition count_intents (state : string) (d : ADB) : Z :=
  Z.of_nat (length (filter (fun e => in_state e.2 = state) (map_to_list (a_intents d)))).

Definition first_pending (d : ADB) : SqlErr + option Z :=
  match merge_sort (intent_before in_next) (filter (fun e => in_state e.2 = "pending"%string) (map_to_list (a_intents d))) with
  | e :: _ => inr (in_next e.2)
  | [] => inl SqlNoRows
  end.

Definition PersistenceStatus : M ADB Err ArchaeologyNativePersistenceStatus :=
  counts <-- direct (query (fun d => inr (count_intents "pending" d, count_intents "leased" d,
    count_intents "blocked" d, count_intents "applied" d, count_intents "superseded" d))) ;;
  next <-- attempt (E := SqlErr) (autocommit (query first_pending)) ;;
  let '(pending, leased, blocked, applied, superseded) := counts in
  let status next := {| st_Pending := pending; st_Leased := leased; st_Blocked := blocked; st_Applied := applied;
                        st_Superseded := superseded; st_NextAttemptAt := next |} in
  match next with
  | inr x => ret (status x)
  | inl SqlNoRows => ret (status None)
  | inl e => throw (mapErr (ErrSql e))
  end.

Fixpoint reconcile_loop (left : nat) : M ADB Err unit :=
  match left with
  | O => throw ErrUnavailable
  | S left' =>
      mapE snd (RetryArchaeologyNativePersistence [archaeologyPersistenceMaxRows]) ;;;
      status <-- PersistenceStatus ;;
      if Healthy status then ret tt
      else if (st_Pending status =? 0) && (0 <? st_Leased status) then throw ErrUnavailable
      else if 0 <? st_Blocked status then throw ErrUnavailable
      else if (0 <? st_Pending status) then
        match st_NextAttemptAt status with
        | Some x => t <-- now ;; if t <? x then throw ErrUnavailable else reconcile_loop left'
        | None => reconcile_loop left'
        end
      else reconcile_loop left'
  end.

Definition ReconcileArchaeologyNativePersistence : M ADB Err unit :=
  reconcile_loop (Z.to_nat (archaeologyPersistenceMaxAttempts + 1)).
End Operations.
