(* ===== verification/LedgerSpec.v ===== *)
(** * What a committed write does to the ledger

    Every operation moves an intent along its life (pending, leased, settled)
    without losing what it promises: identity and payload are fixed, a settled
    intent is final, and a lease that ends without settling costs an attempt.
    The ledger's operations also keep the order of job states. *)

From S2P Require Import Prelude GoText Framing CoreDB ProjectCore ArchDB ArchPolicy NativeJobs NativeSpec Ledger.
From stdpp Require Import base gmap strings list sets sorting relations.
From Stdlib Require Import ZArith Lia.

Local Open Scope Z_scope.
Local Open Scope prog_scope.

#[local] Set Default Proof Using "Type*".

Definition settled (r : intent_row) : Prop := in_state r ∈ ["applied"; "superseded"; "blocked"]%string.

Record intent_step (r r' : intent_row) : Prop := {
  it_fixed : in_job r' = in_job r /\ in_operation r' = in_operation r /\ in_digest r' = in_digest r /\
             in_payload r' = in_payload r /\ in_created r' = in_created r;
  it_settled : settled r -> r' = r;
  it_attempts : in_attempts r <= archaeologyPersistenceMaxAttempts ->
                in_attempts r <= in_attempts r' <= archaeologyPersistenceMaxAttempts;
  it_lease : in_attempts r <= archaeologyPersistenceMaxAttempts -> in_state r = "leased"%string ->
             r' = r \/ settled r' \/ in_attempts r < in_attempts r';
}.

Lemma intent_step_refl r : intent_step r r.
Proof. split; auto; intros; lia. Qed.

Lemma intent_step_trans r1 r2 r3 : intent_step r1 r2 -> intent_step r2 r3 -> intent_step r1 r3.
Proof.
  intros [F1 S1 A1 L1] [F2 S2 A2 L2]. split.
  - naive_solver congruence.
  - intros H. pose proof (S1 H). subst. auto.
  - intros H. specialize (A1 H). specialize (A2 (proj2 A1)). lia.
  - intros H Hl. specialize (A1 H). pose proof (A2 (proj2 A1)). destruct (L1 H Hl) as [->|[Hs|Hlt]]; [by auto|..].
    + rewrite (S2 Hs). auto.
    + right; right. lia.
Qed.

Definition fresh_intent (r : intent_row) : Prop := in_state r = "pending"%string /\ in_attempts r = 0.

Definition intent_rel (o o' : option intent_row) : Prop :=
  match o, o' with
  | Some r, Some r' => intent_step r r'
  | None, Some r' => exists r0, fresh_intent r0 /\ intent_step r0 r'
  | Some _, None => False
  | None, None => True
  end.

(** Every row passes the table's checks, within its attempts, and a job has
    one intent per operation. *)
Record ledger_inv (d : ADB) : Prop := {
  li_ok : forall id r, a_intents d !! id = Some r ->
    intent_ok r = true /\ in_attempts r <= archaeologyPersistenceMaxAttempts;
  li_unique : forall i j ri rj, a_intents d !! i = Some ri -> a_intents d !! j = Some rj ->
    in_job ri = in_job rj -> in_operation ri = in_operation rj -> i = j;
}.

Record intents_step (d d' : ADB) : Prop := {
  ls_rows : forall id, intent_rel (a_intents d !! id) (a_intents d' !! id);
  ls_inv : ledger_inv d -> ledger_inv d';
}.

Lemma intent_rel_refl o : intent_rel o o.
Proof. destruct o; simpl; [apply intent_step_refl|done]. Qed.

Lemma intent_rel_trans o1 o2 o3 : intent_rel o1 o2 -> intent_rel o2 o3 -> intent_rel o1 o3.
Proof.
  destruct o1, o2, o3; simpl; try done; eauto using intent_step_trans.
  intros (r0 & ? & ?) ?. exists r0. eauto using intent_step_trans.
Qed.

#[export] Instance intents_step_refl : Reflexive intents_step.
Proof. intros d. split; [intros; apply intent_rel_refl|done]. Qed.

#[export] Instance intents_step_trans : Transitive intents_step.
Proof. intros d1 d2 d3 [H1 U1] [H2 U2]. split; [intros id; by eapply intent_rel_trans|auto]. Qed.

(** ** Statements *)

Lemma intents_step_frame d d' : a_intents d' = a_intents d -> intents_step d d'.
Proof.
  intros E. split; [intros id; rewrite E; apply intent_rel_refl|].
  intros [H1 H2]. split; rewrite E; done.
Qed.

Lemma update_intent_inv id cond f d n d' :
  update_intent id cond f d = inr (n, d') ->
  n = 0 /\ d' = d \/
  exists r, n = 1 /\ a_intents d !! id = Some r /\ cond r = true /\ intent_ok (f r) = true /\
    d' = set_a_intents (<[id:=f r]> (a_intents d)) d.
Proof.
  unfold update_intent. destruct (a_intents d !! id) as [r|]; [|naive_solver].
  destruct (cond r) eqn:Hc; [|naive_solver]. destruct (intent_ok (f r)) eqn:Hi; [|done].
  intros [= <- <-]. right. eauto 10.
Qed.

Lemma ledger_inv_rows d m :
  ledger_inv d ->
  (forall id r', m !! id = Some r' -> exists r, a_intents d !! id = Some r /\ intent_step r r' /\ (r' = r \/ intent_ok r' = true)) ->
  ledger_inv (set_a_intents m d).
Proof.
  intros [Hok Hu] Hm. split; simpl.
  - intros id r' Hr'. destruct (Hm _ _ Hr') as (r & Hr & Hs & Hor). destruct (Hok _ _ Hr) as [? Ha].
    split; [|apply Hs, Ha]. destruct Hor as [->|?]; done.
  - intros i j ri rj Hi Hj. destruct (Hm _ _ Hi) as (xi & Hxi & [(J1 & O1 & _) _ _ _] & _).
    destruct (Hm _ _ Hj) as (xj & Hxj & [(J2 & O2 & _) _ _ _] & _). rewrite J1, J2, O1, O2. by eapply Hu.
Qed.

Lemma intents_step_update id cond f d n d' :
  update_intent id cond f d = inr (n, d') ->
  (forall r, a_intents d !! id = Some r -> cond r = true -> intent_step r (f r)) -> intents_step d d'.
Proof.
  intros [[_ ->]|(r & _ & Hr & Hc & Hok & ->)]%update_intent_inv Hstep; [reflexivity|].
  specialize (Hstep r Hr Hc). split.
  - intros i. simpl. destruct (decide (i = id)) as [->|Hne].
    + by rewrite lookup_insert_eq, Hr.
    + rewrite lookup_insert_ne by done. apply intent_rel_refl.
  - intros Hinv. apply ledger_inv_rows; [done|]. intros i r' [[<- <-]|[Hi Hr']]%lookup_insert_Some; eauto.
    exists r'. eauto using intent_step_refl.
Qed.

Lemma intents_step_bulk cond f d u d' :
  update_intents cond f d = inr (u, d') -> (forall r, cond r = true -> intent_step r (f r)) -> intents_step d d'.
Proof.
  unfold update_intents, acheck. destruct (bool_decide _) eqn:Hok; [|done]. intros [= <- <-] Hf.
  apply bool_decide_eq_true in Hok. split.
  - intros i. simpl. rewrite lookup_fmap. destruct (a_intents d !! i) as [r|]; simpl; [|done].
    destruct (cond r) eqn:E; [by apply Hf|apply intent_step_refl].
  - intros Hinv. apply ledger_inv_rows; [done|]. intros i r'. rewrite lookup_fmap, fmap_Some. intros (r & Hr & ->).
    exists r. split; [done|]. destruct (cond r) eqn:E; [|eauto using intent_step_refl].
    split; [by apply Hf|]. right. by eapply Hok.
Qed.

Lemma intents_step_insert id r d u d' :
  insert_intent id r d = inr (u, d') -> fresh_intent r -> intents_step d d'.
Proof.
  unfold insert_intent, acheck. destruct (_ && _) eqn:Hok; [|done]. intros [= <- <-] Hf.
  rewrite !andb_true_iff in Hok. destruct Hok as [[[Ha _] Hrow] Hfree].
  apply bool_decide_eq_true in Ha, Hfree. split.
  - intros i. simpl. destruct (decide (i = id)) as [->|Hne].
    + rewrite lookup_insert_eq, Ha. simpl. eauto using intent_step_refl.
    + rewrite lookup_insert_ne by done. apply intent_rel_refl.
  - intros [Hi Hu]. split; simpl.
    + intros i x [[<- <-]|[? Hx]]%lookup_insert_Some; [|eauto]. destruct Hf as [_ ->]. by vm_compute.
    + intros i j ri rj. rewrite !lookup_insert_Some. intros [[<- <-]|[? H1]] [[<- <-]|[? H2]] Hj Ho; [done|..|by eapply Hu];
        exfalso; [by apply (Hfree _ _ H2)|by apply (Hfree _ _ H1)].
Qed.

(** ** Rows *)

Lemma unsettled r : in_state r = "pending"%string \/ in_state r = "leased"%string -> ~ settled r.
Proof. unfold settled. intros [->| ->]; apply (bool_decide_unpack _); by vm_compute. Qed.

(** The three moves of an intent. *)
Lemma intent_step_settle state n code applied t r :
  in_state r = "pending"%string \/ in_state r = "leased"%string -> state ∈ ["applied"; "superseded"; "blocked"]%string ->
  (in_attempts r <= archaeologyPersistenceMaxAttempts -> in_attempts r <= n <= archaeologyPersistenceMaxAttempts) ->
  intent_step r (intent_with state n None "" None code applied t r).
Proof. intros Hs%unsettled Hst Hn. split; simpl; auto; done. Qed.

Lemma intent_step_return n next code applied t r :
  in_state r = "leased"%string ->
  (in_attempts r <= archaeologyPersistenceMaxAttempts -> in_attempts r < n <= archaeologyPersistenceMaxAttempts) ->
  intent_step r (intent_with "pending" n next "" None code applied t r).
Proof.
  intros Hl Hn. split; simpl; auto; [|lia|intros H _; right; right; apply Hn, H].
  intros []%unsettled. auto.
Qed.

Lemma intent_step_leased owner t r : in_state r = "pending"%string -> intent_step r (intent_leased owner t r).
Proof.
  intros Hp. split; simpl; auto; [|lia|by rewrite Hp]. intros []%unsettled. auto.
Qed.

Lemma held_inv owner r : held owner r = true -> in_state r = "leased"%string /\ in_owner r = owner.
Proof. unfold held. by rewrite andb_true_iff, !seqb_true. Qed.

Lemma expired_inv t r : expired t r = true -> in_state r = "leased"%string /\ exists x, in_expires r = Some x /\ x <= t.
Proof.
  unfold expired, at_or_before. rewrite andb_true_iff, seqb_true. intros [? ?]. split; [done|].
  destruct (in_expires r); [|done]. eexists. split; [done|lia].
Qed.

Lemma due_inv t r :
  due t r = true ->
  in_state r = "pending"%string /\ in_attempts r < archaeologyPersistenceMaxAttempts /\ exists x, in_next r = Some x /\ x <= t.
Proof.
  unfold due, at_or_before. rewrite !andb_true_iff, seqb_true, Z.ltb_lt. intros [[? ?] ?]. split_and!; [done..|].
  destruct (in_next r); [|done]. eexists. split; [done|lia].
Qed.

(** ** The native operations leave the ledger alone *)

Definition iframes {A} (st : Stmt ADB A) : Prop := forall d a d1, st d = inr (a, d1) -> a_intents d1 = a_intents d.

Definition same_intents (d d' : ADB) : Prop := a_intents d' = a_intents d.

#[export] Instance same_intents_refl : Reflexive same_intents.
Proof. done. Qed.
#[export] Instance same_intents_trans : Transitive same_intents.
Proof. intros d1 d2 d3. unfold same_intents. congruence. Qed.

Lemma keeps_ledger_step {E A} (m : M ADB E A) : guarantees same_intents m -> guarantees intents_step m.
Proof. apply guarantees_mono. intros d d'. apply intents_step_frame. Qed.

Lemma sf_iframe {A} d (st : Stmt ADB A) g : iframes st -> takes same_intents d (mapE g (exec st)).
Proof. intros Hst. apply sf_exec. unfold same_intents. eauto. Qed.

Lemma sf_icoreP {A} d (m : M DB TxFail A) : takes same_intents d (coreP m).
Proof.
  intros env w r w1 <-. unfold coreP. destruct (m _ _) as [x w']. by intros [= _ <-].
Qed.

Ltac iframe_tac :=
  repeat match goal with H : ?P |- _ => match type of P with Prop => clear H end end;
  let d := fresh in let a := fresh in let d1 := fresh in intros d a d1;
  unfold update_job, update_jobs, insert_job, insert_batch, insert_mapping, insert_outcome, insert_provenance,
    insert_contributor, insert_resolution, insert_arch_request, set_batch_state, update_batches, bump_session,
    on_core, acheck; repeat case_match; intros; simplify_eq/=; done.
#[export] Hint Extern 1 (iframes _) => iframe_tac : txn.
#[export] Hint Resolve sf_iframe sf_icoreP : txn.

Lemma guarantees_idirect {A} (st : Stmt ADB A) : iframes st -> guarantees same_intents (direct st).
Proof. intros H. apply guarantees_direct. unfold same_intents. eauto. Qed.

(** Walk an operation whose statements are all allowed. *)
Ltac walk direct_tac :=
  repeat first
    [ progress cbv zeta
    | match goal with
      | |- guarantees _ (bind _ _) => apply guarantees_bind; [|intros ?]
      | |- guarantees _ (if ?b then _ else _) => destruct b
      | |- guarantees _ (runTx _) => apply guarantees_runTx; intros ?
      | |- guarantees _ (direct (query _)) => apply guarantees_direct_query
      | |- guarantees _ (direct _) => direct_tac
      | |- guarantees _ (ret _) => apply guarantees_ret
      | |- guarantees _ (require _ _) => apply guarantees_require
      | |- guarantees _ now => apply guarantees_now
      | |- takes _ _ (bind (mapE _ (exec (query _))) _) => apply sf_query; intros ? ?
      | |- takes _ _ (match ?x with inl _ => _ | inr _ => _ end) => destruct x as [[]|?]
      | |- takes _ _ (match ?x with Some _ => _ | None => _ end) => destruct x
      end
    | sf1 ].
Ltac quiet_walk := walk ltac:(apply guarantees_idirect; iframe_tac).

Lemma keeps_ledger_ClaimJob : guarantees same_intents ClaimArchaeologyNativeJob.
Proof. unfold ClaimArchaeologyNativeJob, claimTx. quiet_walk. Qed.

Lemma keeps_ledger_BindIdentity j a b c : guarantees same_intents (BindArchaeologyNativeIdentity j a b c).
Proof. unfold BindArchaeologyNativeIdentity. quiet_walk. Qed.

Lemma keeps_ledger_Activate j a c : guarantees same_intents (ActivateArchaeologyNativeJob j a c).
Proof. unfold ActivateArchaeologyNativeJob. quiet_walk. Qed.

Lemma keeps_ledger_BindJob j a b c : guarantees same_intents (BindArchaeologyNativeJob j a b c).
Proof. apply guarantees_bind; [apply keeps_ledger_BindIdentity|intros _; apply keeps_ledger_Activate]. Qed.

Lemma keeps_ledger_FailStart j l u : guarantees same_intents (FailArchaeologyNativeStart j l u).
Proof. unfold FailArchaeologyNativeStart, failStartWrites. quiet_walk. Qed.

Lemma keeps_ledger_BindUncertainty j l : guarantees same_intents (BindArchaeologyNativeUncertainty j l).
Proof. unfold BindArchaeologyNativeUncertainty. quiet_walk. Qed.

Lemma keeps_ledger_Progress p : guarantees same_intents (UpdateArchaeologyNativeProgress p).
Proof. unfold UpdateArchaeologyNativeProgress. quiet_walk. Qed.

Lemma keeps_ledger_Report `{Sha256, ProposalJSON} c : guarantees same_intents (ReportArchaeologyNativeJob c).
Proof. unfold ReportArchaeologyNativeJob, insertOutcome. quiet_walk. Qed.

Lemma keeps_ledger_Complete tm : guarantees same_intents (CompleteArchaeologyNativeTurn tm).
Proof. unfold CompleteArchaeologyNativeTurn, completeWrites. quiet_walk. Qed.

Lemma keeps_ledger_Lose j a c : guarantees same_intents (LoseArchaeologyNativeTurn j a c).
Proof. unfold LoseArchaeologyNativeTurn. quiet_walk. Qed.

Lemma keeps_ledger_Cancel `{Sha256, DigestJSON} p q b : guarantees same_intents (CancelArchaeologyNativeBatch p q b).
Proof. unfold CancelArchaeologyNativeBatch, claimArchaeologyRequest, cancelWrites. quiet_walk. Qed.

Lemma keeps_ledger_Resolve `{Sha256, DigestJSON} c : guarantees same_intents (ResolveArchaeologyNativeUncertainty c).
Proof. unfold ResolveArchaeologyNativeUncertainty, resolveWrites. quiet_walk. Qed.

Lemma keeps_ledger_Queue `{Sha256, DigestJSON} c :
  guarantees same_intents (QueueArchaeologyNativeBatch c).
Proof. unfold QueueArchaeologyNativeBatch, queue_candidate, create_candidate_project. quiet_walk. Qed.

(** ** The ledger's own operations

    Both relations allow the ledger's moves; the operations are walked once,
    against what a relation must allow. *)

Class AllowsLedger (R : relation ADB) : Prop := {
  al_refl :: Reflexive R;
  al_trans :: Transitive R;
  al_update id cond f d n d' :
    update_intent id cond f d = inr (n, d') ->
    (forall r, a_intents d !! id = Some r -> cond r = true -> intent_step r (f r)) -> R d d';
  al_bulk cond f d u d' :
    update_intents cond f d = inr (u, d') -> (forall r, cond r = true -> intent_step r (f r)) -> R d d';
  al_insert id r d u d' : insert_intent id r d = inr (u, d') -> fresh_intent r -> R d d';
  al_mutation i : guarantees R (applyArchaeologyPersistenceMutation i);
}.

Lemma mutation_cases (R : relation ADB) i :
  (forall j l u, guarantees R (FailArchaeologyNativeStart j l u)) ->
  (forall j a b c, guarantees R (BindArchaeologyNativeIdentity j a b c)) ->
  (forall j a c, guarantees R (ActivateArchaeologyNativeJob j a c)) ->
  (forall j a c, guarantees R (LoseArchaeologyNativeTurn j a c)) ->
  (forall tm, guarantees R (CompleteArchaeologyNativeTurn tm)) ->
  guarantees R (applyArchaeologyPersistenceMutation i).
Proof. intros. unfold applyArchaeologyPersistenceMutation. repeat case_match; auto using guarantees_throw. Qed.

Lemma frames_ledger_update id cond f : frames (update_intent id cond f).
Proof. intros d a d1 [[_ ->]|(r & _ & _ & _ & _ & ->)]%update_intent_inv; done. Qed.

#[export] Instance jobs_allow_ledger : AllowsLedger jobs_step.
Proof.
  split; try apply _.
  - intros. apply jobs_step_frame. by eapply frames_ledger_update.
  - unfold update_intents, acheck. intros. case_match; simplify_eq. by apply jobs_step_frame.
  - unfold insert_intent, acheck. intros. case_match; simplify_eq. by apply jobs_step_frame.
  - intros i. apply mutation_cases; intros.
    + apply guarantees_FailStart.
    + apply guarantees_BindIdentity.
    + apply guarantees_Activate.
    + apply guarantees_Lose.
    + apply guarantees_Complete.
Qed.

Lemma keeps_ledger_mutation i : guarantees same_intents (applyArchaeologyPersistenceMutation i).
Proof.
  apply mutation_cases; auto using keeps_ledger_FailStart, keeps_ledger_BindIdentity, keeps_ledger_Activate,
    keeps_ledger_Lose, keeps_ledger_Complete.
Qed.

#[export] Instance intents_allow_ledger : AllowsLedger intents_step.
Proof.
  split; try apply _.
  - intros. by eapply intents_step_update.
  - intros. by eapply intents_step_bulk.
  - intros. by eapply intents_step_insert.
  - intros i. apply keeps_ledger_step, keeps_ledger_mutation.
Qed.

Section LedgerOperations.
Context `{Codec}.
Context (R : relation ADB) `{!AllowsLedger R}.

Lemma guar_direct_update id cond f :
  (forall r, cond r = true -> intent_step r (f r)) -> guarantees R (direct (update_intent id cond f)).
Proof. intros Hf. apply guarantees_direct. intros d a d' H1. eapply al_update; eauto. Qed.

Lemma guar_markApplied id owner t : guarantees R (markArchaeologyPersistenceApplied id owner t).
Proof.
  apply guarantees_bind; [|intros n].
  - apply guar_direct_update. intros r [Hl _]%held_inv.
    apply intent_step_settle; [by right|apply (bool_decide_unpack _); by vm_compute|lia].
  - case_match; [auto with guar|]. apply guarantees_bind; [apply guarantees_direct_query|auto with guar].
Qed.

Lemma guar_markTerminal id owner state code t : guarantees R (markArchaeologyPersistenceTerminal id owner state code t).
Proof.
  unfold markArchaeologyPersistenceTerminal. destruct (seqb state "superseded" || seqb state "blocked") eqn:Hst.
  - apply guarantees_bind; [auto with guar|intros _]. apply guarantees_bind; [|intros n].
    + apply guar_direct_update. intros r [Hl _]%held_inv. apply intent_step_settle; [by right| |lia].
      apply orb_true_iff in Hst. rewrite !seqb_true in Hst.
      destruct Hst as [->| ->]; apply (bool_decide_unpack _); by vm_compute.
    + case_match; [auto with guar|]. apply guarantees_bind; [apply guarantees_direct_query|auto with guar].
  - intros env w r w' [= <- <-]. reflexivity.
Qed.

Lemma guar_markRetry id owner code n t : guarantees R (markArchaeologyPersistenceRetry id owner code n t).
Proof.
  unfold markArchaeologyPersistenceRetry. cbv zeta. case_match; (apply guarantees_bind; [|auto with guar]);
    apply guar_direct_update; intros r; rewrite !andb_true_iff, ?Z.ltb_lt.
  - intros [[[[Hl _]%held_inv _] _] Hlt]. apply intent_step_settle; [by right| |lia].
    apply (bool_decide_unpack _); by vm_compute.
  - intros [[[Hl _]%held_inv _] Hlt]. apply intent_step_return; [done|]. lia.
Qed.
Hint Resolve guar_markApplied guar_markTerminal guar_markRetry : guar.

Lemma guar_settle id owner n t e : guarantees R (settle_error id owner n t e).
Proof.
  unfold settle_error. repeat case_match; auto with guar;
    (apply guarantees_bind; [auto with guar|intros _; apply guarantees_ret]).
Qed.
Hint Resolve guar_settle : guar.

Lemma guar_classify i : guarantees R (classifyArchaeologyPersistenceReadback i).
Proof.
  apply guarantees_bind; [auto with guar|intros [[]|r]]; auto with guar.
Qed.

Lemma guar_process e owner t : guarantees R (processArchaeologyPersistenceRow e owner t).
Proof.
  unfold processArchaeologyPersistenceRow. destruct (decodeArchaeologyPersistenceIntent e.2) as [|i]; [auto with guar|].
  apply guarantees_bind; [apply guarantees_attempt, al_mutation|intros [[]|]]; auto with guar.
  apply guarantees_bind; [apply guar_classify|intros []]; auto with guar.
Qed.

(** *** Expired leases *)

Lemma NoDup_filter_keys (P : string * intent_row -> Prop) `{!forall e, Decision (P e)} (m : gmap string intent_row) :
  NoDup (filter P (map_to_list m)).*1.
Proof.
  eapply sublist_NoDup; [apply (NoDup_fst_map_to_list m)|]. apply fmap_sublist, sublist_filter.
Qed.

Lemma expired_leases_spec t d :
  NoDup (expired_leases t d).*1 /\ Forall (fun e => a_intents d !! e.1 = Some e.2) (expired_leases t d).
Proof.
  unfold expired_leases. set (l := filter _ _). pose proof (merge_sort_Permutation (intent_before in_expires) l) as Hp.
  rewrite Hp. split; [apply NoDup_filter_keys|]. apply Forall_forall. intros [i r] [_ Hin]%list_elem_of_filter.
  by apply elem_of_map_to_list in Hin.
Qed.

(** One recovery, on the row that was read. *)
Lemma recover_update t e cond d n d' :
  (cond = if archaeologyPersistenceMaxAttempts <=? in_attempts e.2 + 1
     then update_intent e.1 (expired t)
            (fun r => intent_with "blocked" archaeologyPersistenceMaxAttempts None "" None "lease_expired" (in_applied r) t r)
     else update_intent e.1 (expired t)
            (fun r => intent_with "pending" (in_attempts e.2 + 1)
                        (Some (t + archaeologyPersistenceRetryDelay (in_attempts e.2 + 1))) "" None
                        "lease_expired" (in_applied r) t r)) ->
  a_intents d !! e.1 = Some e.2 -> cond d = inr (n, d') ->
  R d d' /\ forall i, i <> e.1 -> a_intents d' !! i = a_intents d !! i.
Proof.
  intros -> He Hst. split.
  - destruct (_ <=? _) eqn:Hmax; (eapply al_update; [done|]; intros r Hr [Hl _]%expired_inv); simplify_eq.
    + apply intent_step_settle; [by right|apply (bool_decide_unpack _); by vm_compute|lia].
    + apply intent_step_return; [done|]. lia.
  - intros i Hi. destruct (_ <=? _); apply update_intent_inv in Hst as [[_ ->]|(r & _ & _ & _ & _ & ->)];
      simpl; rewrite ?lookup_insert_ne; done.
Qed.

Lemma takes_recover t l d :
  NoDup l.*1 -> Forall (fun e => a_intents d !! e.1 = Some e.2) l -> takes R d (forM_ l (recover_lease t)).
Proof.
  revert d. induction l as [|e l IH]; intros d Hnd Hall; simpl; [sf1|].
  apply NoDup_cons in Hnd as [Hni Hnd]. apply Forall_cons in Hall as [He Hall].
  intros env w r w1 <- Hrun. m_inv1. unfold recover_lease in Hrun0. m_inv1. m_inv.
  destruct (recover_update t e _ _ _ _ eq_refl He Hst) as [HR Hsame].
  etrans; [exact HR|]. eapply IH; [done| |done|exact Hrun].
  rewrite Forall_forall in *. intros x Hx. rewrite Hsame; [by apply Hall|].
  intros E. apply Hni. rewrite <- E. by apply list_elem_of_fmap_2.
Qed.

Lemma guar_recoverExpired t : guarantees R (recoverExpiredArchaeologyPersistenceLeases t).
Proof.
  apply guarantees_runTx. intros d. apply sf_query. intros l [= <-].
  destruct (expired_leases_spec t d) as [Hnd Hall]. sf1; [by apply takes_recover|sf1].
Qed.

(** *** New leases *)

Lemma takes_lease id cond owner t d :
  (forall r, cond r = true -> due t r = true) ->
  takes R d (mapped (exec (update_intent id cond (intent_leased owner t)))).
Proof.
  intros Hc. apply sf_exec. intros n d1 Hst. eapply al_update; [done|].
  intros r _ [Hp _]%Hc%due_inv. by apply intent_step_leased.
Qed.

Lemma takes_lease_each owner t l d : takes R d (lease_each owner t l).
Proof.
  revert d. induction l as [|e l IH]; intros d; simpl; [sf1|].
  sf1; [by apply takes_lease|]. sf1; [apply IH|sf1].
Qed.

Lemma guar_leaseDue t limit : guarantees R (leaseDueArchaeologyPersistence t limit).
Proof.
  unfold leaseDueArchaeologyPersistence. case_match; [auto with guar|]. apply guarantees_runTx. intros d. sf1.
  - apply sf_exec. intros u d1 Hst. eapply al_bulk; [done|]. intros r Hr. unfold exhausted in Hr. bool_inv.
    apply intent_step_settle; [by left|apply (bool_decide_unpack _); by vm_compute|lia].
  - sf1. destruct a0; [sf1|]. sf1. sf1; [apply takes_lease_each|sf1].
Qed.

Lemma guar_leaseOne id t : guarantees R (leaseOneArchaeologyPersistenceIntent id t).
Proof.
  apply guarantees_bind; [|intros []; auto with guar]. apply guarantees_runTx. intros d. repeat sf1.
  apply takes_lease. by intros r [? _]%andb_true_iff.
Qed.

(** *** The operations *)

Lemma takes_ensure job op text digest t d : takes R d (ensureTx job op text digest t).
Proof.
  unfold ensureTx. sf1. destruct a as [[]|e]; repeat sf1. apply sf_exec. intros u d1 Hst. by eapply al_insert.
Qed.

Lemma guar_Ensure i : guarantees R (EnsureArchaeologyNativePersistenceIntent i).
Proof.
  unfold EnsureArchaeologyNativePersistenceIntent.
  destruct (canonicalArchaeologyNativePersistence i) as [|[[op text] digest]]; [auto with guar|].
  apply guarantees_bind; [auto with guar|intros t]. apply guarantees_bind.
  - apply guarantees_attempt, guarantees_withTx. intros env w a w1 Hrun. right.
    by eapply takes_ensure.
  - intros [[]|]; auto with guar. apply guarantees_bind; [auto with guar|intros [|r]; [auto with guar|]].
    case_match; auto with guar.
Qed.

Lemma guar_Apply id : guarantees R (ApplyArchaeologyNativePersistenceIntent id).
Proof.
  apply guarantees_bind; [auto with guar|intros _]. apply guarantees_bind; [auto with guar|intros t].
  apply guarantees_bind; [apply guar_leaseOne|intros [[i r] owner]]. case_match; [auto with guar|].
  case_match; [auto with guar|]. apply guarantees_bind; [auto with guar|intros t2].
  apply guarantees_bind; [apply guar_process|auto with guar].
Qed.

Lemma guar_EnsureAndApply i : guarantees R (EnsureAndApplyArchaeologyNativePersistence i).
Proof.
  apply guarantees_bind; [apply guar_Ensure|intros e]. apply guarantees_bind; [apply guar_Apply|intros _].
  apply guarantees_bind; [auto with guar|intros _]. apply guarantees_bind; auto with guar.
Qed.

Lemma guar_process_rows t rows report : guarantees R (process_rows t rows report).
Proof.
  revert report. induction rows as [|e rows IH]; intros report; simpl; [auto with guar|].
  apply guarantees_bind; [apply guarantees_mapE, guar_process|intros o; apply IH].
Qed.

Lemma guar_Retry limits : guarantees R (RetryArchaeologyNativePersistence limits).
Proof.
  apply guarantees_bind; [auto with guar|intros t].
  apply guarantees_bind; [apply guarantees_mapE, guar_recoverExpired|intros _].
  apply guarantees_bind; [apply guarantees_mapE, guar_leaseDue|intros rows]. apply guar_process_rows.
Qed.

Lemma guar_Status : guarantees R PersistenceStatus.
Proof.
  apply guarantees_bind; [auto with guar|intros [[[[p l] b] a] s]].
  apply guarantees_bind; [auto with guar|intros [[]|x]]; auto with guar.
Qed.

Lemma guar_Reconcile : guarantees R ReconcileArchaeologyNativePersistence.
Proof.
  unfold ReconcileArchaeologyNativePersistence. induction (Z.to_nat _) as [|n IH]; simpl; [auto with guar|].
  apply guarantees_bind; [apply guarantees_mapE, guar_Retry|intros _].
  apply guarantees_bind; [apply guar_Status|intros s]. repeat (case_match; [by auto with guar|]).
  repeat case_match; auto with guar. apply guarantees_bind; [auto with guar|intros t]. case_match; auto with guar.
Qed.
End LedgerOperations.
