(* ===== verification/ArchSafety.v ===== *)
(** * Safety of the archaeology plane

    Any sequence of job callbacks, human commands and ledger work, with other
    processes writing in between, keeps what earlier writes recorded. *)

From S2P Require Import Prelude GoText Framing CoreDB ProjectCore ArchDB ArchPolicy NativeJobs NativeSpec Ledger LedgerSpec.
From stdpp Require Import base gmap strings list sets sorting relations pretty.
From Stdlib Require Import ZArith Lia Ascii String.

Local Open Scope Z_scope.
Local Open Scope prog_scope.

#[local] Set Default Proof Using "Type*".

Inductive ArchOp :=
  | OpQueueBatch (c : ArchaeologyNativeBatchRequest)
  | OpClaimJob
  | OpBindJob (jobID threadID sessionID turnID : string)
  | OpBindIdentity (jobID threadID sessionID turnID : string)
  | OpActivate (jobID threadID turnID : string)
  | OpFailStart (jobID : string) (launch : ArchaeologyLaunchResult) (uncertain : bool)
  | OpBindUncertainty (jobID : string) (launch : ArchaeologyLaunchResult)
  | OpProgress (p : ArchaeologyNativeProgress)
  | OpReport (c : ArchaeologyNativeReport)
  | OpComplete (tm : ArchaeologyNativeTerminal)
  | OpLose (jobID threadID turnID : string)
  | OpResolve (c : ArchaeologyNativeResolution)
  | OpCancel (principal requestID : string) (baseRevision : Z)
  | OpEnsure (i : ArchaeologyNativePersistenceIntent)
  | OpEnsureAndApply (i : ArchaeologyNativePersistenceIntent)
  | OpApply (id : string)
  | OpRetry (limits : list Z)
  | OpReconcileLedger.

(** Other processes run the same program. *)
Definition others_run_arch (env : Env ADB) : Prop :=
  forall n d, jobs_step d (tk_others (env n) d) /\ intents_step d (tk_others (env n) d).

(** The code the operations call and the model leaves open. *)
Class Externals := {
  ex_codec :: Codec;
  ex_digest :: DigestJSON;
  ex_proposal :: ProposalJSON;
}.

Section ArchRuns.
Context `{Externals}.

Definition run_arch (op : ArchOp) : M ADB Err unit :=
  match op with
  | OpQueueBatch c => QueueArchaeologyNativeBatch c
  | OpClaimJob => ClaimArchaeologyNativeJob ;;; ret tt
  | OpBindJob j a b c => BindArchaeologyNativeJob j a b c
  | OpBindIdentity j a b c => BindArchaeologyNativeIdentity j a b c
  | OpActivate j a c => ActivateArchaeologyNativeJob j a c
  | OpFailStart j l u => FailArchaeologyNativeStart j l u
  | OpBindUncertainty j l => BindArchaeologyNativeUncertainty j l
  | OpProgress p => UpdateArchaeologyNativeProgress p
  | OpReport c => ReportArchaeologyNativeJob c
  | OpComplete tm => CompleteArchaeologyNativeTurn tm
  | OpLose j a c => LoseArchaeologyNativeTurn j a c
  | OpResolve c => ResolveArchaeologyNativeUncertainty c
  | OpCancel p q b => CancelArchaeologyNativeBatch p q b ;;; ret tt
  | OpEnsure i => EnsureArchaeologyNativePersistenceIntent i ;;; ret tt
  | OpEnsureAndApply i => EnsureAndApplyArchaeologyNativePersistence i ;;; ret tt
  | OpApply id => ApplyArchaeologyNativePersistenceIntent id
  | OpRetry limits => mapE snd (RetryArchaeologyNativePersistence limits) ;;; ret tt
  | OpReconcileLedger => ReconcileArchaeologyNativePersistence
  end.

Fixpoint run_archs (ops : list ArchOp) : M ADB Err unit :=
  match ops with
  | [] => ret tt
  | op :: ops' => attempt (E := Err) (run_arch op) ;;; run_archs ops'
  end.

Definition arch_after (ops : list ArchOp) (env : Env ADB) (d : ADB) : ADB :=
  w_db (run_archs ops env (mkWorld d 0)).2.

Lemma guarantees_run_arch op : guarantees jobs_step (run_arch op) /\ guarantees intents_step (run_arch op).
Proof.
  split; destruct op; simpl;
    repeat match goal with
           | |- guarantees _ (bind _ (fun _ => ret tt)) => apply guarantees_bind; [|intros; apply guarantees_ret]
           | |- guarantees _ (mapE _ _) => apply guarantees_mapE
           end;
    first [ apply guarantees_Queue | apply guarantees_ClaimJob | apply guarantees_BindJob | apply guarantees_BindIdentity
          | apply guarantees_Activate | apply guarantees_FailStart | apply guarantees_BindUncertainty
          | apply guarantees_Progress | apply guarantees_Report | apply guarantees_Complete | apply guarantees_Lose
          | apply guarantees_Resolve | apply guarantees_Cancel
          | apply keeps_ledger_step; first [ apply keeps_ledger_Queue | apply keeps_ledger_ClaimJob | apply keeps_ledger_BindJob | apply keeps_ledger_BindIdentity
            | apply keeps_ledger_Activate | apply keeps_ledger_FailStart | apply keeps_ledger_BindUncertainty | apply keeps_ledger_Progress
            | apply keeps_ledger_Report | apply keeps_ledger_Complete | apply keeps_ledger_Lose | apply keeps_ledger_Resolve
            | apply keeps_ledger_Cancel ]
          | apply guar_Ensure | apply guar_EnsureAndApply | apply (guar_Apply _) | apply (guar_Retry _)
          | apply (guar_Reconcile _) ]; apply _.
Qed.

(** A run of preserved steps is one step of the preorder. *)
Lemma run_archs_step (R : relation ADB) `{!Reflexive R, !Transitive R} ops env d :
  (forall op, guarantees R (run_arch op)) -> (forall n x, R x (tk_others (env n) x)) -> R d (arch_after ops env d).
Proof.
  intros Hop Hoth. assert (guarantees R (run_archs ops)) as Hall.
  { clear d. induction ops as [|op ops IH]; [apply guarantees_ret|].
    apply guarantees_bind; [by apply guarantees_attempt|done]. }
  unfold arch_after. destruct (run_archs ops env (mkWorld d 0)) as [r w] eqn:E. specialize (Hall _ _ _ _ E). simpl in *. clear E.
  induction Hall as [|x y z [[n ->]|HR] _ IH]; [reflexivity|..]; (etrans; [|exact IH]); auto.
Qed.

Lemma arch_after_steps ops env d :
  others_run_arch env -> jobs_step d (arch_after ops env d) /\ intents_step d (arch_after ops env d).
Proof.
  intros Hoth. split; (apply run_archs_step; [apply _|apply _|intros op; apply guarantees_run_arch|intros; apply Hoth]).
Qed.
End ArchRuns.

(** ** A concrete run *)

(** A text encoding of the payload structs that round-trips: the payload's
    number, in binary. *)
Module ArchDemo.
#[local] Instance launch_countable : Countable ArchaeologyLaunchResult.
Proof.
  refine (inj_countable' (fun l => (la_LaunchID l, la_ProjectID l, la_State l, la_ThreadID l, la_CodexSessionID l,
                                    la_TurnID l, la_Error l))
    (fun '(a, b, c, e, f, g, h) => Build_ArchaeologyLaunchResult a b c e f g h) _).
  by intros [].
Defined.

Fixpoint bits (p : positive) : string :=
  match p with xH => "" | xO p' => String "0"%char (bits p') | xI p' => String "1"%char (bits p') end.
Fixpoint unbits (s : string) : positive :=
  match s with
  | EmptyString => xH
  | String a s' => if Ascii.eqb a "0"%char then xO (unbits s') else xI (unbits s')
  end.
Lemma unbits_bits p : unbits (bits p) = p.
Proof. induction p as [p IH|p IH|]; simpl; rewrite ?IH; done. Qed.

Definition text {A} `{Countable A} (x : A) : string := bits (encode x).
Definition untext {A} `{Countable A} (s : string) : option A := decode (unbits s).
Lemma untext_text {A} `{Countable A} (x : A) : untext (text x) = Some x.
Proof. unfold untext, text. rewrite unbits_bits. apply decode_encode. Qed.

#[export] Instance codec : Codec := {|
  json_payload := fun p =>
    match p with
    | archaeologyNativeFailStartPayload l u => text (l, u)
    | archaeologyNativeIdentityPayload a b c => text (a, b, c)
    | archaeologyNativeTurnPayload a c => text (a, c)
    | archaeologyNativeCompletePayload a c s x => text (a, c, s, x)
    end;
  json_fail_start := untext;
  json_identity := untext;
  json_turn := untext;
  json_complete := untext;
  codec_sha256 := Sample.checksum;
|}.

#[export] Instance codec_laws : CodecLaws.
Proof. split; intros; apply untext_text. Qed.

Definition demo_digest : string := "sha256:0123456789abcdef0123456789abcdef0123456789abcdef0123456789abcdef".
Definition evidence : source :=
  {| s_Kind := "git"; s_StableID := "commit:0123456789abcdef0123456789abcdef01234567"; s_Digest := demo_digest;
     s_OccurredAt := 0 |}.
Definition proposal : nativeProposal :=
  {| np_SchemaVersion := 1; np_BatchID := "batch-1"; np_SourceDigest := demo_digest; np_CollisionPolicy := "current_wins";
     np_ProjectThreadAliases := [];
     np_Tasks := [ {| k_Key := "task-1"; k_Source := evidence;
                      k_Attributions := [ {| at_Session := "co"; at_Role := "implementer"; at_Confidence := "verified";
                                             at_Source := evidence |} ];
                      k_Events := [] |} ] |}.

#[export] Instance externals : Externals := {|
  ex_digest := fun op v =>
    match v with
    | nativeStart r _ _ _ | nativeStartLegacy r | nativeCancel r => op +:+ pretty (Z.to_N r)
    | nativeResolve r j _ _ _ => op +:+ pretty (Z.to_N r) +:+ j
    end;
  ex_proposal := {| json_Valid := fun _ => true; json_proposal := fun _ => Some proposal |};
|}.

(** Another process creates the session and two candidates before the first call. *)
Definition seeds (d : ADB) : ADB :=
  mkADB (core d)
    {["S" := {| se_principal := "p"; se_state := "draft";
                se_policy := {| Depth := "quick"; Sources := {| Git := true; Docs := false; CodexHistory := false |} |};
                se_max := 1; se_revision := 0; se_updated := 0 |}]}
    {[("S", "c") := {| ca_project := "demo"; ca_name := "Demo"; ca_from_root := false; ca_selected := true |};
      ("S", "c2") := {| ca_project := "demo2"; ca_name := "Demo 2"; ca_from_root := false; ca_selected := true |}]}%string
    (a_mappings d) (a_batches d) (a_jobs d) (a_outcomes d) (a_provenance d) (a_contributors d) (a_resolutions d)
    (a_requests d) (a_intents d).

Definition env : Env ADB := fun n =>
  mkTick None false (Z.of_nat n) (pretty n) (if Nat.eqb n 0 then seeds else id).

Lemma env_others : others_run_arch env.
Proof.
  intros n d. unfold env. simpl. destruct (Nat.eqb n 0); split; try reflexivity.
  - by apply jobs_step_frame.
  - by apply intents_step_frame.
Qed.

(** A process that runs alone. *)
Definition calm : Env ADB := fun _ => mkTick None false 5 "w" id.

Lemma calm_others : others_run_arch calm.
Proof. intros n d. split; reflexivity. Qed.

Definition batch : string := Eval vm_compute in deterministicHistoricalID "ARB-" ["S"; "r1"].
Definition job : string := Eval vm_compute in deterministicHistoricalID "ARJ-" [batch; "c"].
Definition activation : string := Eval vm_compute in deterministicHistoricalID "ARPI-" [job; "activate"].
Definition loss : string := Eval vm_compute in deterministicHistoricalID "ARPI-" [job; "lose_turn"].
Definition job2 : string := Eval vm_compute in deterministicHistoricalID "ARJ-" [batch; "c2"].
Definition intent (op thread codex turn status : string) : ArchaeologyNativePersistenceIntent :=
  {| pi_JobID := job; pi_Operation := op; pi_Launch := emptyLaunch; pi_Uncertain := false; pi_ThreadID := thread;
     pi_CodexSessionID := codex; pi_TurnID := turn; pi_Status := status; pi_DurationMS := None |}.
Definition queue : ArchOp :=
  OpQueueBatch {| br_Principal := "p"; br_RequestID := "r1"; br_BaseRevision := 0; br_AcknowledgeLargeBatch := false |}.
Definition report : ArchOp :=
  OpReport {| rp_JobID := job; rp_ThreadID := "th"; rp_TurnID := "tu"; rp_Digest := "d1";
              rp_Outcomes := [ {| ao_ID := ""; ao_ProjectID := "demo"; ao_Title := "t"; ao_Summary := "s";
                                  ao_SourceCount := 1; ao_ProposalJSON := "{}"; ao_Provenance := [evidence];
                                  ao_Contributors := [ {| ac_SessionID := "co"; ac_Contribution := "wrote it";
                                    ac_DemonstratedStrength := ""; ac_Uncertainty := "";
                                    ac_Confidence := "verified" |} ] |} ] |}.

Definition start : list ArchOp :=
  [queue; OpClaimJob; OpEnsureAndApply (intent "bind_identity" "th" "co" "tu" "");
   OpEnsureAndApply (intent "activate" "th" "" "tu" "")].
Definition finish : list ArchOp := [report; OpEnsureAndApply (intent "complete_turn" "th" "" "tu" "completed")].
Definition late : list ArchOp := [OpLose job "th" "tu"; OpBindIdentity job "x" "y" "z"; OpRetry []].
(** The second job is offered the first one's thread, then its own. *)
Definition second : list ArchOp := [OpClaimJob; OpBindJob job2 "th" "co2" "tu2"; OpBindJob job2 "th2" "co2" "tu2"].
Definition lost : ArchaeologyNativePersistenceIntent := intent "lose_turn" "th" "" "tu" "".
Definition run (ops : list ArchOp) : ADB := arch_after ops env adb_empty.
(** A lost turn is on the ledger but not yet applied. *)
Definition waiting : ADB := arch_after [OpEnsure lost] calm (run start).
Definition state_of (d : ADB) (id : string) : option string := jo_state <$> (a_jobs d !! id).
End ArchDemo.
#[local] Existing Instance ArchDemo.externals.

Lemma no_jobs id : a_jobs adb_empty !! id = None.
Proof. apply lookup_empty. Qed.

Lemma no_intents id : a_intents adb_empty !! id = None.
Proof. apply lookup_empty. Qed.

(** What a run did to a row that was there. *)
Lemma arch_after_job `{Externals} ops env d id r :
  others_run_arch env -> a_jobs d !! id = Some r ->
  exists r', a_jobs (arch_after ops env d) !! id = Some r' /\ row_step r r'.
Proof.
  intros Hoth Hr. destruct (arch_after_steps ops env d Hoth) as [[Hrows _] _]. specialize (Hrows id).
  rewrite Hr in Hrows. destruct (a_jobs (arch_after ops env d) !! id); simpl in Hrows; eauto; done.
Qed.

Lemma arch_after_intent `{Externals} ops env d id r :
  others_run_arch env -> a_intents d !! id = Some r ->
  exists r', a_intents (arch_after ops env d) !! id = Some r' /\ intent_step r r'.
Proof.
  intros Hoth Hr. destruct (arch_after_steps ops env d Hoth) as [_ [Hrows _]]. specialize (Hrows id).
  rewrite Hr in Hrows. destruct (a_intents (arch_after ops env d) !! id); simpl in Hrows; eauto; done.
Qed.

Lemma ledger_inv_empty : ledger_inv adb_empty.
Proof. split; intros ?; [intros r Hr|intros j ri rj Hr]; by rewrite no_intents in Hr. Qed.

Lemma ledger_inv_after `{Externals} ops env d :
  others_run_arch env -> ledger_inv d -> ledger_inv (arch_after ops env d).
Proof. intros Hoth. apply (arch_after_steps ops env d Hoth). Qed.

(** C21: along any run of the archaeology operations, in any interleaving with
    other processes, a job's state only moves forward in the order queued,
    starting, active, report ready, cancel requested, uncertain, finished; and
    a finished job never changes again. *)
Theorem job_states_advance `{Externals} ops env d id r :
  others_run_arch env -> a_jobs d !! id = Some r ->
  exists r', a_jobs (arch_after ops env d) !! id = Some r' /\
    rank (jo_state r) <= rank (jo_state r') /\
    (rank (jo_state r) = rank (jo_state r') -> jo_state r' = jo_state r) /\
    (jo_state r ∈ terminal_states -> r' = r).
Proof.
  intros Hoth Hr. destruct (arch_after_job ops env d id r Hoth Hr) as (r' & Hr' & Hs).
  exists r'. split_and!; [done|apply Hs..].
Qed.

Lemma job_states_advance_witness : exists r,
  a_jobs (ArchDemo.run (ArchDemo.start ++ ArchDemo.finish)) !! ArchDemo.job = Some r /\
  jo_state r = "completed"%string /\
  a_jobs (arch_after ArchDemo.late ArchDemo.env (ArchDemo.run (ArchDemo.start ++ ArchDemo.finish))) !! ArchDemo.job = Some r.
Proof.
  assert (ArchDemo.state_of (ArchDemo.run (ArchDemo.start ++ ArchDemo.finish)) ArchDemo.job = Some "completed"%string) as Hs
    by (vm_compute; reflexivity).
  unfold ArchDemo.state_of in Hs.
  destruct (a_jobs (ArchDemo.run (ArchDemo.start ++ ArchDemo.finish)) !! ArchDemo.job) as [r|] eqn:E; [|discriminate Hs].
  injection Hs as Hs.
  destruct (job_states_advance ArchDemo.late ArchDemo.env _ _ r ArchDemo.env_others E) as (r' & Hr' & _ & _ & Heq).
  exists r. split; [reflexivity|]. split; [exact Hs|]. rewrite <- (Heq ltac:(rewrite Hs; left)). rewrite Hr'.
  reflexivity.
Defined.

(** What a callback recorded about a job stays: its Codex thread, session
    and turn and its report are written once, and its owners are fixed. *)
Theorem job_evidence_write_once `{Externals} ops env d id r :
  others_run_arch env -> a_jobs d !! id = Some r ->
  exists r', a_jobs (arch_after ops env d) !! id = Some r' /\
    (jo_thread r <> ""%string -> jo_thread r' = jo_thread r) /\
    (jo_codex r <> ""%string -> jo_codex r' = jo_codex r) /\
    (jo_turn r <> ""%string -> jo_turn r' = jo_turn r) /\
    (forall x, jo_report r = Some x -> jo_report r' = Some x) /\
    jo_batch r' = jo_batch r /\ jo_session r' = jo_session r /\ jo_project r' = jo_project r.
Proof.
  intros Hoth Hr. destruct (arch_after_job ops env d id r Hoth Hr) as (r' & Hr' & Hs).
  exists r'. split_and!; [done|apply Hs..].
Qed.

Lemma job_evidence_write_once_witness : exists r r',
  a_jobs (ArchDemo.run ArchDemo.start) !! ArchDemo.job = Some r /\ jo_thread r = "th"%string /\
  a_jobs (arch_after ArchDemo.late ArchDemo.env (ArchDemo.run ArchDemo.start)) !! ArchDemo.job = Some r' /\
  jo_thread r' = "th"%string.
Proof.
  assert (jo_thread <$> a_jobs (ArchDemo.run ArchDemo.start) !! ArchDemo.job = Some "th"%string) as Hs
    by (vm_compute; reflexivity).
  destruct (a_jobs (ArchDemo.run ArchDemo.start) !! ArchDemo.job) as [r|] eqn:E; [|discriminate Hs]. injection Hs as Hs.
  destruct (job_evidence_write_once ArchDemo.late ArchDemo.env _ _ r ArchDemo.env_others E) as (r' & Hr' & Ht & _).
  exists r, r'. split; [reflexivity|]. split; [exact Hs|]. split; [exact Hr'|]. rewrite Ht; rewrite Hs; [reflexivity|discriminate].
Defined.

(** No two jobs ever share a Codex thread or a turn. *)
Theorem job_identities_unique `{Externals} ops env i j ri rj :
  others_run_arch env -> let d := arch_after ops env adb_empty in
  a_jobs d !! i = Some ri -> a_jobs d !! j = Some rj -> i <> j ->
  (jo_thread ri <> ""%string -> jo_thread rj <> jo_thread ri) /\ (jo_turn ri <> ""%string -> jo_turn rj <> jo_turn ri).
Proof.
  intros Hoth d. destruct (arch_after_steps ops env adb_empty Hoth) as [[_ Hu] _].
  apply Hu. intros x y rx ry Hx. by rewrite no_jobs in Hx.
Qed.

Lemma job_identities_unique_witness : exists r r2,
  a_jobs (ArchDemo.run (ArchDemo.start ++ ArchDemo.second)) !! ArchDemo.job = Some r /\
  a_jobs (ArchDemo.run (ArchDemo.start ++ ArchDemo.second)) !! ArchDemo.job2 = Some r2 /\
  jo_thread r = "th"%string /\ jo_thread r2 = "th2"%string /\ jo_thread r2 <> jo_thread r.
Proof.
  assert (jo_thread <$> a_jobs (ArchDemo.run (ArchDemo.start ++ ArchDemo.second)) !! ArchDemo.job = Some "th"%string /\
          jo_thread <$> a_jobs (ArchDemo.run (ArchDemo.start ++ ArchDemo.second)) !! ArchDemo.job2 = Some "th2"%string)
    as [H1 H2] by (vm_compute; split; reflexivity).
  destruct (a_jobs (ArchDemo.run (ArchDemo.start ++ ArchDemo.second)) !! ArchDemo.job) as [r|] eqn:E1; [|discriminate H1].
  destruct (a_jobs (ArchDemo.run (ArchDemo.start ++ ArchDemo.second)) !! ArchDemo.job2) as [r2|] eqn:E2; [|discriminate H2].
  injection H1 as H1. injection H2 as H2. exists r, r2. repeat (split; [first [reflexivity|exact H1|exact H2]|]).
  apply (job_identities_unique _ ArchDemo.env _ _ r r2 ArchDemo.env_others E1 E2); [discriminate|].
  rewrite H1. discriminate.
Defined.

(** A job is marked completed only with a report on record; a turn that
    completes without one needs attention instead. *)
Theorem completed_jobs_reported `{Externals} ops env id r :
  others_run_arch env -> a_jobs (arch_after ops env adb_empty) !! id = Some r -> jo_state r = "completed"%string ->
  is_Some (jo_report r).
Proof.
  intros Hoth Hr Hc. destruct (arch_after_steps ops env adb_empty Hoth) as [[Hrows _] _]. specialize (Hrows id).
  rewrite Hr, no_jobs in Hrows. destruct Hrows as (r0 & (Hq & _) & Hs).
  destruct (rw_completed _ _ Hs Hc) as [->|]; [congruence|done].
Qed.

Lemma completed_jobs_reported_witness : exists r,
  a_jobs (ArchDemo.run (ArchDemo.start ++ ArchDemo.finish)) !! ArchDemo.job = Some r /\
  jo_state r = "completed"%string /\ is_Some (jo_report r).
Proof.
  assert (ArchDemo.state_of (ArchDemo.run (ArchDemo.start ++ ArchDemo.finish)) ArchDemo.job = Some "completed"%string) as Hs
    by (vm_compute; reflexivity).
  unfold ArchDemo.state_of in Hs.
  destruct (a_jobs (ArchDemo.run (ArchDemo.start ++ ArchDemo.finish)) !! ArchDemo.job) as [r|] eqn:E; [|discriminate Hs].
  injection Hs as Hs. exists r. split; [reflexivity|]. split; [exact Hs|].
  exact (completed_jobs_reported _ ArchDemo.env _ r ArchDemo.env_others E Hs).
Defined.

(** C22: an intent keeps what was committed: its job, operation and payload
    never change, a settled intent (applied, superseded or blocked) is final,
    its attempts grow to at most eight, and a lease that ends without settling
    the intent costs an attempt. *)
Theorem intents_keep_promises `{Externals} ops env d id r :
  others_run_arch env -> a_intents d !! id = Some r -> in_attempts r <= 8 ->
  exists r', a_intents (arch_after ops env d) !! id = Some r' /\
    in_job r' = in_job r /\ in_operation r' = in_operation r /\ in_payload r' = in_payload r /\
    in_digest r' = in_digest r /\ (settled r -> r' = r) /\ in_attempts r <= in_attempts r' <= 8 /\
    (in_state r = "leased"%string -> r' = r \/ settled r' \/ in_attempts r < in_attempts r').
Proof.
  intros Hoth Hr Ha. destruct (arch_after_intent ops env d id r Hoth Hr) as (r' & Hr' & [(F1 & F2 & F3 & F4 & _) Hs Hat Hl]).
  exists r'. split_and!; auto; by apply Hat.
Qed.

Lemma intents_keep_promises_witness : exists r,
  a_intents (ArchDemo.run ArchDemo.start) !! ArchDemo.activation = Some r /\
  in_state r = "applied"%string /\
  a_intents (arch_after ArchDemo.late ArchDemo.env (ArchDemo.run ArchDemo.start))
    !! ArchDemo.activation = Some r.
Proof.
  assert ((fun r => (in_state r, in_attempts r)) <$>
          a_intents (ArchDemo.run ArchDemo.start) !! ArchDemo.activation = Some ("applied"%string, 0))
    as Hs by (vm_compute; reflexivity).
  destruct (a_intents (ArchDemo.run ArchDemo.start) !! _) as [r|] eqn:E; [|discriminate Hs]. injection Hs as Hs Ha.
  destruct (intents_keep_promises ArchDemo.late ArchDemo.env _ _ r ArchDemo.env_others E ltac:(rewrite Ha; lia))
    as (r' & Hr' & _ & _ & _ & _ & Heq & _).
  exists r. split; [reflexivity|]. split; [exact Hs|]. rewrite <- (Heq ltac:(unfold settled; rewrite Hs; left)). rewrite Hr'.
  reflexivity.
Defined.
