(* ===== verification/Evidence.v ===== *)
(** * Evidence stays within the attested policy

    What a report adds to the database is of the kinds of source that the
    human attested for the batch, names only opaque identifiers, belongs to
    the job's own project and stays within the limits of the batch's depth;
    and an outcome on record never gains or loses evidence, whatever runs
    before, after or in between. *)

From S2P Require Import Prelude GoText Framing CoreDB ProjectCore ArchDB ArchPolicy NativeJobs NativeSpec Ledger LedgerSpec ArchSafety.
From stdpp Require Import base gmap strings list sets sorting relations.
From Stdlib Require Import ZArith Lia.

Local Open Scope Z_scope.
Local Open Scope prog_scope.

(** ** What a committed write does to the evidence *)

(** The rows of a table that belong to an outcome. *)
Definition rows_of {K A} `{Countable K} (id : string) (m : gmap (string * K) A) : gmap (string * K) A :=
  filter (fun kr => kr.1.1 = id) m.

Lemma rows_of_within {K A} `{Countable K} (id : string) (m : gmap (string * K) A) (l : list K) :
  (forall k r, m !! (id, k) = Some r -> k ∈ l) -> (size (rows_of id m) <= length l)%nat.
Proof.
  intros Hl. assert (size (rows_of id m) = length (map_to_list (rows_of id m)).*1.*2) as -> by (by rewrite !length_fmap, length_map_to_list).
  apply submseteq_length, NoDup_submseteq.
  - apply NoDup_fmap_2_strong; [|apply NoDup_fst_map_to_list].
    intros [i k] [i' k'] Hk Hk' Heq. simpl in Heq. subst k'.
    apply list_elem_of_fmap in Hk as ([[? ?] ?] & [= -> ->] & [_ Hi]%elem_of_map_to_list%map_lookup_filter_Some).
    apply list_elem_of_fmap in Hk' as ([[? ?] ?] & [= -> ->] & [_ Hi']%elem_of_map_to_list%map_lookup_filter_Some).
    simpl in *. congruence.
  - intros k ([i k'] & -> & ([[? ?] r] & [= -> ->] & [Hk Hi]%elem_of_map_to_list%map_lookup_filter_Some)%list_elem_of_fmap)%list_elem_of_fmap.
    simpl in *. subst. by eapply Hl.
Qed.

(** A piece of provenance that a policy allows. *)
Definition admissible (policy : ArchaeologyExecutionPolicy) (r : provenance_row) : Prop :=
  Allows policy (pv_kind r) = true /\ validNativeStableID (pv_kind r) (pv_stable r) = true.

(** An outcome that is about its job's project, with evidence that the job's
    attested batch allows, in amounts within the limits of its depth. *)
Definition outcome_ok (d : ADB) (id : string) (o : outcome_row) : Prop :=
  exists j b limits, a_jobs d !! oc_job o = Some j /\ oc_project o = jo_project j /\
    a_batches d !! jo_batch j = Some b /\ ba_attested b = true /\ Limits (ba_policy b) = Some limits /\
    oc_sources o <= MaxSourcesExamined limits /\
    Z.of_nat (size (rows_of id (a_provenance d))) <= MaxProvenancePerOutcome limits /\
    Z.of_nat (size (rows_of id (a_contributors d))) <= MaxContributorsPerOutcome limits /\
    forall position r, a_provenance d !! (id, position) = Some r -> admissible (ba_policy b) r.

(** Evidence belongs to an outcome that is on record. *)
Definition owned (d : ADB) : Prop :=
  (forall k r, a_provenance d !! k = Some r -> is_Some (a_outcomes d !! k.1)) /\
  (forall k r, a_contributors d !! k = Some r -> is_Some (a_outcomes d !! k.1)).

Record evidence_step (d d' : ADB) : Prop := {
  es_jobs id j : a_jobs d !! id = Some j ->
    exists j', a_jobs d' !! id = Some j' /\ jo_batch j' = jo_batch j /\ jo_project j' = jo_project j;
  es_batches id b : a_batches d !! id = Some b ->
    exists b', a_batches d' !! id = Some b' /\ ba_policy b' = ba_policy b /\ ba_attested b' = ba_attested b;
  es_outcomes id o : a_outcomes d !! id = Some o -> a_outcomes d' !! id = Some o;
  es_provenance k : is_Some (a_outcomes d !! k.1) -> a_provenance d' !! k = a_provenance d !! k;
  es_contributors k : is_Some (a_outcomes d !! k.1) -> a_contributors d' !! k = a_contributors d !! k;
  es_owned : owned d -> owned d';
  es_new_outcome : owned d -> forall id o, a_outcomes d' !! id = Some o -> a_outcomes d !! id = Some o \/ outcome_ok d' id o;
}.

(** Only the five tables matter, and the first two may grow and change their
    other columns. *)
Lemma evidence_step_tables d d' :
  (forall id j, a_jobs d !! id = Some j ->
     exists j', a_jobs d' !! id = Some j' /\ jo_batch j' = jo_batch j /\ jo_project j' = jo_project j) ->
  (forall id b, a_batches d !! id = Some b ->
     exists b', a_batches d' !! id = Some b' /\ ba_policy b' = ba_policy b /\ ba_attested b' = ba_attested b) ->
  a_outcomes d' = a_outcomes d -> a_provenance d' = a_provenance d -> a_contributors d' = a_contributors d ->
  evidence_step d d'.
Proof. intros Hj Hb Ho Hp Hc. split; unfold owned; rewrite ?Ho, ?Hp, ?Hc; auto. Qed.

Lemma rows_of_same {K A} `{Countable K} (id : string) (m m' : gmap (string * K) A) :
  (forall k, k.1 = id -> m' !! k = m !! k) -> rows_of id m' = rows_of id m.
Proof.
  intros Hm. apply map_eq. intros k. apply option_eq. intros r. unfold rows_of. rewrite !map_lookup_filter_Some. simpl.
  split; intros [Hk Hi]; [rewrite <-Hm|rewrite Hm]; auto.
Qed.

Lemma outcome_ok_step d d' id o :
  evidence_step d d' -> a_outcomes d !! id = Some o -> outcome_ok d id o -> outcome_ok d' id o.
Proof.
  intros Hs Ho (j & b & limits & Hj & Hp & Hb & Ha & Hl & Hsrc & Hnp & Hnc & Hall).
  destruct (es_jobs _ _ Hs _ _ Hj) as (j' & Hj' & Hbj & Hpj).
  destruct (es_batches _ _ Hs _ _ Hb) as (b' & Hb' & Hpb & Hab).
  assert (forall k, k.1 = id -> a_provenance d' !! k = a_provenance d !! k) as Hpr by (intros k <-; apply (es_provenance _ _ Hs); eauto).
  assert (forall k, k.1 = id -> a_contributors d' !! k = a_contributors d !! k) as Hcr by (intros k <-; apply (es_contributors _ _ Hs); eauto).
  exists j', b', limits. rewrite Hbj, Hpb, (rows_of_same _ _ _ Hpr), (rows_of_same _ _ _ Hcr).
  split_and!; try done; [congruence..|]. intros pos r. rewrite Hpr by done. apply Hall.
Qed.

#[export] Instance evidence_step_refl : Reflexive evidence_step.
Proof. intros d. apply evidence_step_tables; eauto. Qed.

#[export] Instance evidence_step_trans : Transitive evidence_step.
Proof.
  intros d1 d2 d3 H1 H2. assert (forall id, is_Some (a_outcomes d1 !! id) -> is_Some (a_outcomes d2 !! id)) as Hmono.
  { intros id [o Ho]. exists o. by apply (es_outcomes _ _ H1). }
  split.
  - intros id j Hj. destruct (es_jobs _ _ H1 _ _ Hj) as (j' & Hj' & ? & ?).
    destruct (es_jobs _ _ H2 _ _ Hj') as (j'' & ? & ? & ?). exists j''. split_and!; congruence.
  - intros id b Hb. destruct (es_batches _ _ H1 _ _ Hb) as (b' & Hb' & ? & ?).
    destruct (es_batches _ _ H2 _ _ Hb') as (b'' & ? & ? & ?). exists b''. split_and!; congruence.
  - intros. by apply (es_outcomes _ _ H2), (es_outcomes _ _ H1).
  - intros k Hk. rewrite (es_provenance _ _ H2) by auto. by apply (es_provenance _ _ H1).
  - intros k Hk. rewrite (es_contributors _ _ H2) by auto. by apply (es_contributors _ _ H1).
  - intros Hw. by apply (es_owned _ _ H2), (es_owned _ _ H1).
  - intros Hw id o Ho. destruct (es_new_outcome _ _ H2 (es_owned _ _ H1 Hw) _ _ Ho) as [Ho2|]; [|by right].
    destruct (es_new_outcome _ _ H1 Hw _ _ Ho2); [by left|right]. by eapply outcome_ok_step.
Qed.

(** ** Statements *)

Definition keeps {A} (st : Stmt ADB A) : Prop := forall d a d', st d = inr (a, d') -> evidence_step d d'.

Lemma keeps_tables {A} (st : Stmt ADB A) :
  (forall d a d', st d = inr (a, d') -> a_jobs d' = a_jobs d /\ a_batches d' = a_batches d /\
     a_outcomes d' = a_outcomes d /\ a_provenance d' = a_provenance d /\ a_contributors d' = a_contributors d) -> keeps st.
Proof.
  intros Hst d a d' H. destruct (Hst _ _ _ H) as (Hj & Hb & ? & ? & ?). apply evidence_step_tables; rewrite ?Hj, ?Hb; eauto.
Qed.

(** An update of jobs that keeps their owners. *)
Definition keeps_owner (f : job_row -> job_row) : Prop :=
  forall r, jo_batch (f r) = jo_batch r /\ jo_project (f r) = jo_project r.

Lemma keeps_update_job id cond f : keeps_owner f -> keeps (update_job id cond f).
Proof.
  intros Hf d a d' [[_ ->]|(r & _ & Hr & _ & _ & ->)]%update_job_inv; [done|].
  apply evidence_step_tables; try done; [|eauto]. intros i j Hj. simpl. destruct (decide (i = id)) as [->|Hne].
  - rewrite lookup_insert_eq. assert (r = j) as -> by congruence. exists (f j). split; [done|apply Hf].
  - rewrite lookup_insert_ne by done. eauto.
Qed.

Lemma keeps_update_jobs cond f : keeps_owner f -> keeps (update_jobs cond f).
Proof.
  intros Hf d a d' [= <- <-]. apply evidence_step_tables; try done; [|eauto]. intros i j Hj. simpl.
  rewrite lookup_fmap, Hj. simpl. eexists. split; [done|]. destruct (cond j); [apply Hf|done].
Qed.

Lemma keeps_update_batches cond f :
  (forall b, ba_policy (f b) = ba_policy b /\ ba_attested (f b) = ba_attested b) -> keeps (update_batches cond f).
Proof.
  intros Hf d a d' [= <- <-]. apply evidence_step_tables; try done; [eauto|]. intros i b Hb. simpl.
  rewrite map_lookup_imap, Hb. simpl. eexists. split; [done|]. destruct (cond i b); [apply Hf|done].
Qed.

Lemma absent_keeps {A} (m : gmap string A) id x : absent m id = true -> forall i y, m !! i = Some y -> <[id:=x]> m !! i = Some y.
Proof.
  intros Ha%bool_decide_eq_true i y Hy. rewrite lookup_insert_ne; [done|congruence].
Qed.

Lemma keeps_insert_job id r : keeps (insert_job id r).
Proof.
  intros d a d'. unfold insert_job, acheck. case_match eqn:E; [|done]. intros [= <- <-]. bool_inv.
  apply evidence_step_tables; try done; [|eauto]. intros i j Hj. exists j. split; [|done]. by apply absent_keeps.
Qed.

Lemma keeps_insert_batch id r : keeps (insert_batch id r).
Proof.
  intros d a d'. unfold insert_batch, acheck. case_match eqn:E; [|done]. intros [= <- <-]. bool_inv.
  apply evidence_step_tables; try done; [eauto|]. intros i j Hj. exists j. split; [|done]. by apply absent_keeps.
Qed.

Lemma sf_keeps {A} d (st : Stmt ADB A) g : keeps st -> takes evidence_step d (mapE g (exec st)).
Proof. intros Hst. apply sf_exec. eauto. Qed.

Lemma sf_ecoreP {A} d (m : M DB TxFail A) : takes evidence_step d (coreP m).
Proof.
  intros env w r w1 <-. unfold coreP. destruct (m _ _) as [x w']. intros [= _ <-]. apply evidence_step_tables; eauto.
Qed.

Ltac keeps_tac :=
  lazymatch goal with
  | |- keeps (if ?c then _ else _) => destruct c; keeps_tac
  | |- keeps (update_job _ _ _) => apply keeps_update_job; intros ?; split; reflexivity
  | |- keeps (update_jobs _ _) => apply keeps_update_jobs; intros ?; split; reflexivity
  | |- keeps (update_batches _ _) => apply keeps_update_batches; intros ?; split; reflexivity
  | |- keeps (set_batch_state _ _ _) => apply keeps_update_batches; intros ?; split; reflexivity
  | |- keeps (insert_job _ _) => apply keeps_insert_job
  | |- keeps (insert_batch _ _) => apply keeps_insert_batch
  | |- keeps _ =>
      repeat match goal with H : ?P |- _ => match type of P with Prop => clear H end end;
      apply keeps_tables; unfold insert_mapping, insert_resolution, insert_arch_request,
        bump_session, on_core, acheck; intros; repeat case_match; simplify_eq/=; split_and!; reflexivity
  end.
#[export] Hint Extern 1 (keeps _) => keeps_tac : txn.
#[export] Hint Resolve sf_keeps sf_ecoreP : txn.

Lemma guarantees_keeps {A} (st : Stmt ADB A) : keeps st -> guarantees evidence_step (direct st).
Proof. intros Hst. apply guarantees_direct. exact Hst. Qed.

Ltac keep_walk := walk ltac:(apply guarantees_keeps; keeps_tac).

(** ** Operations *)

Lemma evidence_ClaimJob : guarantees evidence_step ClaimArchaeologyNativeJob.
Proof. unfold ClaimArchaeologyNativeJob, claimTx. keep_walk. Qed.

Lemma evidence_BindIdentity j a b c : guarantees evidence_step (BindArchaeologyNativeIdentity j a b c).
Proof. unfold BindArchaeologyNativeIdentity. keep_walk. Qed.

Lemma evidence_Activate j a c : guarantees evidence_step (ActivateArchaeologyNativeJob j a c).
Proof. unfold ActivateArchaeologyNativeJob. keep_walk. Qed.

Lemma evidence_BindJob j a b c : guarantees evidence_step (BindArchaeologyNativeJob j a b c).
Proof. apply guarantees_bind; [apply evidence_BindIdentity|intros _; apply evidence_Activate]. Qed.

Lemma evidence_FailStart j l u : guarantees evidence_step (FailArchaeologyNativeStart j l u).
Proof. unfold FailArchaeologyNativeStart, failStartWrites. keep_walk. Qed.

Lemma evidence_BindUncertainty j l : guarantees evidence_step (BindArchaeologyNativeUncertainty j l).
Proof. unfold BindArchaeologyNativeUncertainty. keep_walk. Qed.

Lemma evidence_Progress p : guarantees evidence_step (UpdateArchaeologyNativeProgress p).
Proof. unfold UpdateArchaeologyNativeProgress. keep_walk. Qed.

Lemma evidence_Complete tm : guarantees evidence_step (CompleteArchaeologyNativeTurn tm).
Proof. unfold CompleteArchaeologyNativeTurn, completeWrites. keep_walk. Qed.

Lemma evidence_Lose j a c : guarantees evidence_step (LoseArchaeologyNativeTurn j a c).
Proof. unfold LoseArchaeologyNativeTurn. keep_walk. Qed.

Lemma evidence_Cancel `{Sha256, DigestJSON} p q b : guarantees evidence_step (CancelArchaeologyNativeBatch p q b).
Proof. unfold CancelArchaeologyNativeBatch, claimArchaeologyRequest, cancelWrites. keep_walk. Qed.

Lemma evidence_Resolve `{Sha256, DigestJSON} c : guarantees evidence_step (ResolveArchaeologyNativeUncertainty c).
Proof. unfold ResolveArchaeologyNativeUncertainty, resolveWrites. keep_walk. Qed.

Lemma evidence_Queue `{Sha256, DigestJSON} c : guarantees evidence_step (QueueArchaeologyNativeBatch c).
Proof. unfold QueueArchaeologyNativeBatch, queue_candidate, create_candidate_project. keep_walk. Qed.

#[export] Instance evidence_allows_ledger : AllowsLedger evidence_step.
Proof.
  split; try apply _.
  - intros id cond f d n d' [[_ ->]|(r & _ & _ & _ & _ & ->)]%update_intent_inv _; [done|apply evidence_step_tables; eauto].
  - unfold update_intents, acheck. intros. case_match; simplify_eq. apply evidence_step_tables; eauto.
  - unfold insert_intent, acheck. intros. case_match; simplify_eq. apply evidence_step_tables; eauto.
  - intros i. apply mutation_cases; intros.
    + apply evidence_FailStart.
    + apply evidence_BindIdentity.
    + apply evidence_Activate.
    + apply evidence_Lose.
    + apply evidence_Complete.
Qed.

(** ** Reporting *)

(** The job of a report, as the report's transaction found it. *)
Definition reporting (d : ADB) (job project : string) (policy : ArchaeologyExecutionPolicy) : Prop :=
  exists j b, a_jobs d !! job = Some j /\ jo_project j = project /\ a_batches d !! jo_batch j = Some b /\
    ba_attested b = true /\ ba_policy b = policy.

Lemma reporting_step d d' job project policy :
  evidence_step d d' -> reporting d job project policy -> reporting d' job project policy.
Proof.
  intros Hs (j & b & Hj & <- & Hb & Ha & <-). destruct (es_jobs _ _ Hs _ _ Hj) as (j' & Hj' & Hbj & Hp).
  destruct (es_batches _ _ Hs _ _ Hb) as (b' & Hb' & Hpb & Hab).
  exists j', b'. split_and!; [done..|by rewrite Hbj|congruence|done].
Qed.

(** What the loops over the evidence of one outcome write. *)
Record evidence_added (id : string) (source : Z -> provenance_row -> Prop) (member : string -> Prop) (d d' : ADB) : Prop := {
  ea_jobs : a_jobs d' = a_jobs d; ea_batches : a_batches d' = a_batches d; ea_outcomes : a_outcomes d' = a_outcomes d;
  ea_provenance k r : a_provenance d' !! k = Some r -> a_provenance d !! k = Some r \/ k.1 = id /\ source k.2 r;
  ea_contributors k r : a_contributors d' !! k = Some r -> a_contributors d !! k = Some r \/ k.1 = id /\ member k.2;
  ea_provenance_kept k : k.1 <> id -> a_provenance d' !! k = a_provenance d !! k;
  ea_contributors_kept k : k.1 <> id -> a_contributors d' !! k = a_contributors d !! k;
}.

#[local] Instance evidence_added_refl id source member : Reflexive (evidence_added id source member).
Proof. split; auto. Qed.
#[local] Instance evidence_added_trans id source member : Transitive (evidence_added id source member).
Proof.
  intros d1 d2 d3 [] []. split; try congruence.
  - intros k r Hk. edestruct ea_provenance1; eauto.
  - intros k r Hk. edestruct ea_contributors1; eauto.
  - intros k Hk. rewrite ea_provenance_kept1 by done. auto.
  - intros k Hk. rewrite ea_contributors_kept1 by done. auto.
Qed.

Lemma added_provenance id (source : Z -> provenance_row -> Prop) member pos r d u d' :
  source pos r -> insert_provenance id pos r d = inr (u, d') -> evidence_added id source member d d'.
Proof.
  unfold insert_provenance, acheck. intros Hok H. case_match; [|done]. injection H as _ <-. split; simpl; auto.
  - intros k x. destruct (decide (k = (id, pos))) as [->|]; [rewrite lookup_insert_eq; intros [= <-]; auto|rewrite lookup_insert_ne by done; auto].
  - intros k Hk. rewrite lookup_insert_ne; [done|]. by intros <-.
Qed.

Lemma added_contributor id source (member : string -> Prop) session r d u d' :
  member session -> insert_contributor id session r d = inr (u, d') -> evidence_added id source member d d'.
Proof.
  unfold insert_contributor, acheck. intros Hok H. case_match; [|done]. injection H as _ <-. split; simpl; auto.
  - intros k x. destruct (decide (k = (id, session))) as [->|]; [rewrite lookup_insert_eq; intros [= <-]; auto|rewrite lookup_insert_ne by done; auto].
  - intros k Hk. rewrite lookup_insert_ne; [done|]. by intros <-.
Qed.

(** What the report's transaction has checked about an outcome. *)
Record outcome_checked (project : string) (policy : ArchaeologyExecutionPolicy) (limits : ArchaeologyExecutionLimits)
    (o : ArchaeologyOutcome) : Prop := {
  ck_project : ao_ProjectID o = project;
  ck_sources : ao_SourceCount o <= MaxSourcesExamined limits;
  ck_provenance : Z.of_nat (length (ao_Provenance o)) <= MaxProvenancePerOutcome limits;
  ck_contributors : Z.of_nat (length (ao_Contributors o)) <= MaxContributorsPerOutcome limits;
  ck_allowed : Forall (fun s => Allows policy (s_Kind s) = true /\ validNativeStableID (s_Kind s) (s_StableID s) = true) (ao_Provenance o);
}.

Lemma validNativeOutcome_checked `{ProposalJSON} o project policy limits now :
  validNativeOutcome o policy limits now = true -> ao_ProjectID o = project -> outcome_checked project policy limits o.
Proof.
  intros Hv Hp. pose proof (validNativeOutcome_provenance _ _ _ _ Hv) as Hall. unfold validNativeOutcome in Hv.
  rewrite !andb_true_iff, !Z.leb_le in Hv. destruct Hv as [[[[_ ?] ?] ?] _]. by split.
Qed.

(** A new outcome with its evidence. *)
Lemma outcome_added id o d d1 d2 u policy limits (positions : list Z) (sessions : list string) :
  reporting d (oc_job o) (oc_project o) policy -> Limits policy = Some limits -> oc_sources o <= MaxSourcesExamined limits ->
  Z.of_nat (length positions) <= MaxProvenancePerOutcome limits -> Z.of_nat (length sessions) <= MaxContributorsPerOutcome limits ->
  insert_outcome id o d = inr (u, d1) ->
  evidence_added id (fun pos r => pos ∈ positions /\ admissible policy r) (fun s => s ∈ sessions) d1 d2 -> evidence_step d d2.
Proof.
  intros (j & b & Hj & Hp & Hb & Ha & <-) Hl Hsrc Hnp Hnc. unfold insert_outcome, acheck. intros H [E1 E2 E3 E4 E5 E6 E7].
  case_match eqn:Hc; [|done]. injection H as _ <-. simpl in *. bool_inv.
  match goal with H : absent (a_outcomes d) _ = true |- _ => apply bool_decide_eq_true in H as Habs end.
  assert (forall k, is_Some (a_outcomes d !! k) -> k <> id) as Hne by (intros k [x Hx] ->; congruence).
  assert (forall k, is_Some (a_outcomes d !! k) -> is_Some (a_outcomes d2 !! k)) as Hmono.
  { intros k Hk. rewrite E3, lookup_insert_ne; [done|]. intros <-. by eapply Hne. }
  assert (a_outcomes d2 !! id = Some o) as Ho by (by rewrite E3, lookup_insert_eq).
  split.
  - rewrite E1. eauto.
  - rewrite E2. eauto.
  - intros i x Hx. rewrite E3, lookup_insert_ne; [done|congruence].
  - auto.
  - auto.
  - intros [Hw1 Hw2]. split.
    + intros k r [Hk|[-> _]]%E4; [|by rewrite Ho]. eauto.
    + intros k r [Hk|[-> _]]%E5; [|by rewrite Ho]. eauto.
  - intros [Hw1 Hw2] i x Hx. rewrite E3 in Hx. destruct (decide (i = id)) as [->|Hi]; [|rewrite lookup_insert_ne in Hx by done; by left].
    rewrite lookup_insert_eq in Hx. injection Hx as <-. right.
    assert (forall pos r, a_provenance d2 !! (id, pos) = Some r -> pos ∈ positions /\ admissible (ba_policy b) r) as Hprov.
    { intros pos r [Hk%Hw1|[_ ?]]%E4; [|done]. by destruct (Hne _ Hk). }
    assert (forall s r, a_contributors d2 !! (id, s) = Some r -> s ∈ sessions) as Hmem.
    { intros s r [Hk%Hw2|[_ ?]]%E5; [|done]. by destruct (Hne _ Hk). }
    exists j, b, limits. rewrite E1, E2. split_and!; try done.
    + pose proof (rows_of_within id (a_provenance d2) positions ltac:(intros; by eapply Hprov)). lia.
    + pose proof (rows_of_within id (a_contributors d2) sessions Hmem). lia.
    + intros pos r Hr. by eapply Hprov.
Qed.

Lemma takes_insertOutcome `{Sha256} d job digest t i o project policy limits :
  reporting d job project policy -> Limits policy = Some limits -> outcome_checked project policy limits o ->
  takes evidence_step d (insertOutcome job digest t i o).
Proof.
  intros Hrep Hl [<- Hsrc Hnp Hnc Hall] env w r w1 <- Hrun. unfold insertOutcome in Hrun. cbv zeta in Hrun. do 4 m_inv1. m_inv1.
  set (id := deterministicHistoricalID _ _) in *.
  eapply (outcome_added _ _ _ _ _ _ _ limits (Z.of_nat <$> seq 0 (length (ao_Provenance o))) (ac_SessionID <$> ao_Contributors o));
    [|done| | | |exact Hst|]; [exact Hrep|exact Hsrc|..].
  - by rewrite length_fmap, length_seq.
  - by rewrite length_fmap.
  - etrans.
    + refine (sf_forM_in _ _ _ _ _ env w0 _ _ eq_refl Hrun1). intros d2 [pos s] _ Hin. apply sf_exec. intros v d3 H3.
      apply elem_of_lookup_imap in Hin as (n & s' & [= -> ->] & Hlk). eapply added_provenance, H3.
      rewrite Forall_lookup in Hall. split; [|by apply (Hall n)]. apply list_elem_of_fmap. exists n. split; [done|].
      apply elem_of_seq. apply lookup_lt_Some in Hlk. lia.
    + refine (sf_forM_in _ _ _ _ _ env _ _ _ eq_refl Hrun). intros d2 m _ Hin. apply sf_exec. intros v d3 H3.
      eapply added_contributor, H3. by apply list_elem_of_fmap_2.
Qed.

Lemma evidence_Report `{Sha256, ProposalJSON} c : guarantees evidence_step (ReportArchaeologyNativeJob c).
Proof.
  apply guarantees_bind; [auto with guar|intros _]. apply guarantees_bind; [auto with guar|intros t].
  apply guarantees_runTx. intros d. apply sf_query. intros [r b] Hjob. sf1.
  destruct (jo_report r); [repeat sf1|]. sf1. refine (sf_bind _ _ _ _ _ _); [|intros d1 _ _; repeat sf1].
  assert (reporting d (rp_JobID c) (jo_project r) (ba_policy b)) as Hrep.
  { destruct (job_of_turn _ _ _ d) as [|[r' b']] eqn:E; [done|]. destruct (ba_attested b') eqn:Hb; [|done]. simplify_eq.
    unfold job_of_turn in E. repeat case_match; simplify_eq. by exists r, b. }
  destruct (Limits (ba_policy b)) as [limits|] eqn:Hlim; [|done].
  assert (Forall (outcome_checked (jo_project r) (ba_policy b) limits) (rp_Outcomes c)) as Hout.
  { apply List.Forall_forall. intros o Ho.
    match goal with H : _ && _ = true |- _ => apply andb_true_iff in H as [_ Hall] end. rewrite forallb_forall in Hall.
    apply Hall, andb_true_iff in Ho as [Hv Hp]. eapply validNativeOutcome_checked; [done|by apply seqb_true]. }
  refine (sf_forM_in _ _ _ _ _). intros d2 [i o] Hs2 Hin. apply elem_of_lookup_imap in Hin as (n & o' & [= -> ->] & Hlk).
  rewrite Forall_lookup in Hout. eapply takes_insertOutcome; [by eapply reporting_step|done|by eapply Hout].
Qed.

Lemma evidence_run_arch `{Externals} op : guarantees evidence_step (run_arch op).
Proof.
  destruct op; simpl;
    repeat match goal with
           | |- guarantees _ (bind _ (fun _ => ret tt)) => apply guarantees_bind; [|intros; apply guarantees_ret]
           | |- guarantees _ (mapE _ _) => apply guarantees_mapE
           end;
    first [ apply evidence_Queue | apply evidence_ClaimJob | apply evidence_BindJob | apply evidence_BindIdentity
          | apply evidence_Activate | apply evidence_FailStart | apply evidence_BindUncertainty
          | apply evidence_Progress | apply evidence_Report | apply evidence_Complete | apply evidence_Lose
          | apply evidence_Resolve | apply evidence_Cancel | apply guar_Ensure | apply guar_EnsureAndApply
          | apply (guar_Apply _) | apply (guar_Retry _) | apply (guar_Reconcile _) ]; apply _.
Qed.

(** C37: after any run from the empty database, in any interleaving with
    processes that run the same program, every outcome is about the project of
    its job; the job's batch attests every kind of source in its provenance,
    each under an identifier of the opaque form of its kind; the sources it
    counts, its pieces of provenance and its contributors are within the
    [MaxSourcesExamined], [MaxProvenancePerOutcome] and
    [MaxContributorsPerOutcome] of the batch's depth; and there is no evidence
    without its outcome. *)
Theorem evidence_within_policy `{Externals} ops env :
  (forall n d, evidence_step d (tk_others (env n) d)) -> let d := arch_after ops env adb_empty in
  (forall id o, a_outcomes d !! id = Some o -> outcome_ok d id o) /\ owned d.
Proof.
  intros Hoth d. assert (evidence_step adb_empty d) as Hs by (apply run_archs_step; auto using evidence_run_arch; apply _).
  assert (owned adb_empty) as Hw by (split; intros k r Hk; simpl in Hk; by rewrite lookup_empty in Hk).
  split; [|by apply (es_owned _ _ Hs)]. intros id o Ho.
  destruct (es_new_outcome _ _ Hs Hw _ _ Ho) as [He|]; [|done]. simpl in He. by rewrite lookup_empty in He.
Qed.

#[local] Existing Instance ArchDemo.externals.

Lemma demo_others n d : evidence_step d (tk_others (ArchDemo.env n) d).
Proof. simpl. destruct (Nat.eqb n 0); [apply evidence_step_tables; eauto|done]. Qed.

Lemma evidence_within_policy_witness :
  let d := ArchDemo.run (ArchDemo.start ++ ArchDemo.finish) in
  exists id o, a_outcomes d !! id = Some o /\ size (rows_of id (a_provenance d)) = 1%nat /\ outcome_ok d id o.
Proof.
  cbv zeta. set (d := ArchDemo.run (ArchDemo.start ++ ArchDemo.finish)).
  assert (length (map_to_list (a_outcomes d)) = 1%nat) as Hlen by (vm_compute; reflexivity).
  assert (forallb (fun e => Nat.eqb (size (rows_of e.1 (a_provenance d))) 1) (map_to_list (a_outcomes d)) = true) as Hk by (vm_compute; reflexivity).
  destruct (map_to_list (a_outcomes d)) as [|[id o] [|]] eqn:E; [discriminate Hlen| |discriminate Hlen].
  apply andb_prop in Hk as [Hk%Nat.eqb_eq _].
  assert (a_outcomes d !! id = Some o) as Ho by (apply elem_of_map_to_list; rewrite E; left).
  exists id, o. split; [exact Ho|]. split; [exact Hk|].
  exact (proj1 (evidence_within_policy _ ArchDemo.env demo_others) id o Ho).
Defined.
