(* ===== verification/LedgerOutcome.v ===== *)
(** * What the ledger's operations achieve

    Backoff, the round trip of a stored payload, exclusivity of a live lease,
    the accounting of a retry pass, and what a successful reconciliation means. *)

From S2P Require Import Prelude GoText Framing CoreDB ProjectCore ArchDB ArchPolicy NativeJobs NativeSpec Ledger LedgerSpec ArchSafety.
From stdpp Require Import base gmap strings list sets sorting relations.
From Stdlib Require Import ZArith Lia.

Local Open Scope Z_scope.
Local Open Scope prog_scope.

#[local] Set Default Proof Using "Type*".

(** ** Backoff *)

Lemma retry_loop_min n delay :
  0 < delay ->
  Z.min archaeologyPersistenceRetryMax (retry_loop n delay) =
  Z.min archaeologyPersistenceRetryMax (delay * 2 ^ Z.of_nat n).
Proof.
  revert delay. induction n as [|n IH]; intros delay Hd; cbn [retry_loop]; [f_equal; simpl; lia|].
  replace (2 ^ Z.of_nat (S n)) with (2 * 2 ^ Z.of_nat n) by (rewrite Nat2Z.inj_succ, Z.pow_succ_r; lia).
  pose proof (Z.pow_pos_nonneg 2 (Z.of_nat n) ltac:(lia) ltac:(lia)).
  destruct (Z.ltb_spec delay archaeologyPersistenceRetryMax).
  - rewrite IH by lia. f_equal. lia.
  - rewrite !Z.min_l; nia.
Qed.

Lemma retry_loop_bound n delay :
  0 < delay < 2 * archaeologyPersistenceRetryMax -> 0 < retry_loop n delay < 2 * archaeologyPersistenceRetryMax.
Proof.
  revert delay. induction n as [|n IH]; intros delay Hd; cbn [retry_loop]; [done|].
  destruct (Z.ltb_spec delay archaeologyPersistenceRetryMax); [apply IH; lia|done].
Qed.

(** The delay before the n-th retry doubles from 100ms and is capped at
    30s; the doubling stays far from overflowing a 64-bit duration, whatever
    the attempt number. *)
Theorem retry_delay_exact attempt :
  archaeologyPersistenceRetryDelay attempt = Z.min 30000000000 (100000000 * 2 ^ (Z.max attempt 1 - 1)) /\
  retry_loop (Z.to_nat (attempt - 1)) archaeologyPersistenceRetryBase < 2 ^ 63.
Proof.
  split.
  - unfold archaeologyPersistenceRetryDelay.
    replace (if attempt <? 1 then 1 else attempt) with (Z.max attempt 1) by (destruct (Z.ltb_spec attempt 1); lia).
    pose proof (retry_loop_min (Z.to_nat (Z.max attempt 1 - 1)) archaeologyPersistenceRetryBase ltac:(reflexivity)) as Hm.
    rewrite Z2Nat.id in Hm by lia. change archaeologyPersistenceRetryMax with 30000000000 in *.
    change archaeologyPersistenceRetryBase with 100000000 in *. rewrite <- Hm. cbv zeta. case_match; lia.
  - pose proof (retry_loop_bound (Z.to_nat (attempt - 1)) archaeologyPersistenceRetryBase ltac:(split; reflexivity)).
    change archaeologyPersistenceRetryMax with 30000000000 in *. lia.
Qed.

(** ** Payloads *)

Notation mk_intent := Build_ArchaeologyNativePersistenceIntent.

Lemma bounded_nonempty v n : boundedCoreText v n true = true -> v <> ""%string.
Proof. intros Hb ->. unfold boundedCoreText in Hb. by destruct (_ || _). Qed.

Lemma bounded_utf8 v n b : boundedCoreText v n b = true -> utf8_ValidString v = true.
Proof. unfold boundedCoreText. by destruct (utf8_ValidString v). Qed.

(** The four shapes of an accepted intent. *)
Inductive accepted : ArchaeologyNativePersistenceIntent -> payload -> Prop :=
  | acc_fail_start job l u :
      accepted (mk_intent job "fail_start" l u "" "" "" "" None) (archaeologyNativeFailStartPayload l u)
  | acc_identity job a b c :
      a <> ""%string -> b <> ""%string -> c <> ""%string ->
      accepted (mk_intent job "bind_identity" emptyLaunch false a b c "" None) (archaeologyNativeIdentityPayload a b c)
  | acc_turn job op a c :
      op = "activate"%string \/ op = "lose_turn"%string -> a <> ""%string -> c <> ""%string ->
      accepted (mk_intent job op emptyLaunch false a "" c "" None) (archaeologyNativeTurnPayload a c)
  | acc_complete job a c s x :
      a <> ""%string -> c <> ""%string -> isin s ["completed"; "interrupted"; "failed"] = true ->
      accepted (mk_intent job "complete_turn" emptyLaunch false a "" c s x) (archaeologyNativeCompletePayload a c s x).

(** Use the guards of an accepted intent. *)
Ltac guards :=
  intros [= <-]; bool_inv; subst;
  repeat match goal with
  | H : boundedCoreText ?v _ true = true |- _ => pose proof (bounded_nonempty _ _ H); apply bounded_utf8 in H
  | H : boundedCoreText ?v _ false = true |- _ => apply bounded_utf8 in H
  end.

Lemma intent_payload_accepted i p : intent_payload i = Some p -> accepted i p /\ payload_plain p = true.
Proof.
  destruct i as [job op launch unc thread codex turn status dur].
  unfold intent_payload, no_duration, emptyPersistenceLaunch, validatePersistenceLaunch.
  cbn [pi_Operation pi_Launch pi_Uncertain pi_ThreadID pi_CodexSessionID pi_TurnID pi_Status pi_DurationMS].
  destruct (seqb op "fail_start") eqn:E1.
  { destruct (_ && _) eqn:E; [|done]. guards. split; [apply acc_fail_start|]. simpl. rewrite !andb_true_iff. done. }
  destruct (seqb op "bind_identity") eqn:E2.
  { destruct (_ && _) eqn:E; [|done]. guards. split; [by apply acc_identity|]. simpl. by rewrite !andb_true_iff. }
  destruct (seqb op "activate" || seqb op "lose_turn") eqn:E3.
  { destruct (_ && _) eqn:E; [|done]. apply orb_true_iff in E3. rewrite !seqb_true in E3. guards.
    split; [by apply acc_turn|]. simpl. by rewrite !andb_true_iff. }
  destruct (seqb op "complete_turn") eqn:E4; [|done].
  destruct (_ && _) eqn:E; [|done]. guards. split; [by apply acc_complete|]. cbn [payload_plain forallb].
  rewrite !andb_true_iff. split_and!; [done..|]. destruct dur as [n|]; [|done].
  unfold validPersistenceDuration, maxInt64 in *. bool_inv. rewrite andb_true_iff, !Z.leb_le. lia.
Qed.

(** An accepted intent is stored without loss: decoding the row that
    [Ensure] writes gives back the very intent. *)
Theorem intent_round_trip `{CodecLaws} i operation text digest t :
  canonicalArchaeologyNativePersistence i = inr (operation, text, digest) ->
  decodeArchaeologyPersistenceIntent (pending_intent (pi_JobID i) operation digest text t) = inr i.
Proof.
  unfold canonicalArchaeologyNativePersistence. case_match; [|done].
  destruct (intent_payload i) as [p|] eqn:Hp; [|done]. intros [= <- <- <-]. unfold decodeArchaeologyPersistenceIntent.
  destruct (intent_payload_accepted _ _ Hp) as [[job l u|job a b c|job op a c [-> | ->]|job a c s x] Hplain]; simpl;
    first [by rewrite (fail_start_round _ _ Hplain)|by rewrite (identity_round _ _ _ Hplain)
          |by rewrite (turn_round _ _ Hplain)|by rewrite (complete_round _ _ _ _ Hplain)].
Qed.

(** ** Live leases *)

Lemma holds_quiet (env : Env ADB) (P : ADB -> Prop) {E A} (m : M ADB E A) :
  stable P env -> guarantees same_intents m -> (forall d d', P d -> a_intents d' = a_intents d -> P d') -> holds env P m (fun _ => True).
Proof.
  intros Hstable Hm Hsame w r w' HP Hrun. split; [|by destruct r].
  eapply (guarantees_inv same_intents); [exact Hm| |exact Hstable|exact Hrun|exact HP].
  intros d d' Heq Hd. by eapply Hsame.
Qed.

(** A worker's lease, while it runs. *)
Section LiveLease.
Context `{Codec}.
Context (env : Env ADB) (id : string) (r : intent_row) (until : Z).
Context (Hstate : in_state r = "leased"%string) (Huntil : in_expires r = Some until).
Context (Hnamed : in_owner r <> ""%string).
(** the clock has not reached the lease's end *)
Context (Hclock : forall n, tk_now (env n) < until).
(** random owner names do not collide with the holder's *)
Context (Howner : forall n, "ARPI-" +:+ tk_id (env n) <> in_owner r).

Definition leased_row (d : ADB) : Prop := a_intents d !! id = Some r.

Context (Hstable : stable leased_row env).

Lemma stmt_update i cond f : cond r = false -> stmt_holds leased_row (update_intent i cond f) (fun _ => True).
Proof.
  intros Hc d n d' Hd Hst. split; [|done].
  apply update_intent_inv in Hst as [[_ ->]|(x & _ & Hx & Hcx & _ & ->)]; [done|].
  unfold leased_row in *. simpl. rewrite lookup_insert_ne; [done|]. intros ->. congruence.
Qed.

Lemma stmt_bulk cond f : cond r = false -> stmt_holds leased_row (update_intents cond f) (fun _ => True).
Proof.
  intros Hc d n d' Hd. unfold update_intents, acheck. case_match; [|done]. intros [= <- <-]. split; [|done].
  unfold leased_row in *. simpl. rewrite lookup_fmap, Hd. simpl. by rewrite Hc.
Qed.

Lemma not_held owner : owner <> in_owner r -> held owner r = false.
Proof. intros Hne. unfold held. rewrite andb_false_iff, !seqb_false. right. congruence. Qed.

Lemma not_due t : due t r = false.
Proof. unfold due. by rewrite Hstate. Qed.

Lemma not_exhausted t : exhausted t r = false.
Proof. unfold exhausted. by rewrite Hstate. Qed.

Lemma not_expired t : t < until -> expired t r = false.
Proof. intros Ht. unfold expired. rewrite Huntil. simpl. rewrite andb_false_iff, Z.leb_gt. by right. Qed.

Lemma lease_quiet {E A} (m : M ADB E A) : guarantees same_intents m -> holds env leased_row m (fun _ => True).
Proof. intros Hm. apply (holds_quiet _ _ _ Hstable Hm). unfold leased_row. by intros d d' Hd ->. Qed.

Lemma lease_markApplied i owner t :
  owner <> in_owner r -> holds env leased_row (markArchaeologyPersistenceApplied i owner t) (fun _ => True).
Proof.
  intros Ho. eapply holds_bind; [apply (holds_direct _ _ Hstable), stmt_update, not_held, Ho|intros n _].
  case_match; [by apply holds_ret|].
  eapply holds_bind; [apply (holds_direct _ _ Hstable), stmt_query|intros; apply holds_require].
Qed.

Lemma lease_markTerminal i owner state code t :
  owner <> in_owner r -> holds env leased_row (markArchaeologyPersistenceTerminal i owner state code t) (fun _ => True).
Proof.
  intros Ho. eapply holds_bind; [apply holds_require|intros _ _].
  eapply holds_bind; [apply (holds_direct _ _ Hstable), stmt_update, not_held, Ho|intros n _].
  case_match; [by apply holds_ret|].
  eapply holds_bind; [apply (holds_direct _ _ Hstable), stmt_query|intros; apply holds_require].
Qed.

Lemma lease_markRetry i owner code k t :
  owner <> in_owner r -> holds env leased_row (markArchaeologyPersistenceRetry i owner code k t) (fun _ => True).
Proof.
  intros Ho%not_held. unfold markArchaeologyPersistenceRetry. cbv zeta.
  case_match; (eapply holds_bind; [apply (holds_direct _ _ Hstable), stmt_update; by rewrite Ho|
    intros; apply holds_require]).
Qed.

Lemma lease_settle i owner k t e :
  owner <> in_owner r -> holds env leased_row (settle_error i owner k t e) (fun _ => True).
Proof.
  intros Ho. unfold settle_error. case_match; [apply holds_throw|].
  case_match; (eapply holds_bind; [by first [apply lease_markTerminal|apply lease_markRetry]|intros; by apply holds_ret]).
Qed.

Lemma lease_process e owner t :
  owner <> in_owner r -> holds env leased_row (processArchaeologyPersistenceRow e owner t) (fun _ => True).
Proof.
  intros Ho. unfold processArchaeologyPersistenceRow.
  assert (forall o, holds env leased_row (ret (E := Err) o) (fun _ : persistenceReadbackOutcome => True)) as Hret
    by (intros; by apply holds_ret).
  destruct (decodeArchaeologyPersistenceIntent e.2) as [|i].
  { eapply holds_bind; [by apply lease_markTerminal|done]. }
  eapply holds_bind; [apply holds_attempt, lease_quiet, keeps_ledger_mutation|intros [err|]].
  - intros _. destruct err; try by apply lease_settle.
    eapply (holds_bind _ _ _ _ (fun _ => True)).
    + eapply holds_bind; [apply holds_attempt, (holds_autocommit _ _ Hstable), stmt_query|].
      intros [[]|x] _; [by apply holds_ret|apply holds_throw|apply holds_throw|by apply holds_ret].
    + intros [] _; [by apply lease_settle|eapply holds_bind; [|done]..];
        [by apply lease_markApplied|by apply lease_markTerminal..].
  - intros _. eapply holds_bind; [by apply lease_markApplied|done].
Qed.

Lemma lease_recover t : t < until -> holds env leased_row (recoverExpiredArchaeologyPersistenceLeases t) (fun _ => True).
Proof.
  intros Ht%not_expired. apply (holds_runTx _ _ Hstable).
  eapply holds_bind; [apply holds_mapE, holds_exec, stmt_query|intros l _].
  eapply (holds_bind _ _ _ _ (fun _ => True)); [|intros; by apply holds_ret].
  induction l as [|e l IH]; simpl; [by apply holds_ret|]. eapply (holds_bind _ _ _ _ (fun _ => True)); [|done].
  eapply holds_bind; [|intros; by apply holds_ret].
  apply holds_mapE, holds_exec. case_match; by apply stmt_update.
Qed.

(** New leases carry the worker's own name. *)
Lemma lease_leaseEach owner t l :
  owner <> in_owner r ->
  holds env leased_row (lease_each owner t l) (Forall (fun e : string * intent_row => in_owner e.2 <> in_owner r)).
Proof.
  intros Ho. induction l as [|e l IH]; simpl; [by apply holds_ret|].
  eapply holds_bind; [apply holds_mapE, holds_exec, stmt_update, not_due|intros n _].
  eapply holds_bind; [exact IH|intros rest Hrest]. apply holds_ret. case_match; [by constructor|done].
Qed.

Lemma lease_leaseDue t limit :
  holds env leased_row (leaseDueArchaeologyPersistence t limit)
    (Forall (fun e : string * intent_row => in_owner e.2 <> in_owner r)).
Proof.
  unfold leaseDueArchaeologyPersistence. case_match; [by apply holds_ret|]. apply (holds_runTx _ _ Hstable).
  eapply holds_bind; [apply holds_mapE, holds_exec, stmt_bulk, not_exhausted|intros _ _].
  eapply holds_bind; [apply holds_mapE, holds_exec, stmt_query|intros l _].
  destruct l as [|e l]; [by apply holds_ret|].
  eapply holds_bind; [apply (holds_newID _ _ _ (fun o => o <> in_owner r)); apply Howner|intros owner Ho].
  eapply holds_bind; [by apply lease_leaseEach|]. intros leased Hl. by apply holds_ret.
Qed.

Lemma lease_processRows t rows report :
  Forall (fun e : string * intent_row => in_owner e.2 <> in_owner r) rows ->
  holds env leased_row (process_rows t rows report) (fun _ => True).
Proof.
  intros Hall. revert report. induction Hall as [|e rows He _ IH]; intros report; simpl; [by apply holds_ret|].
  eapply holds_bind; [by apply holds_mapE, lease_process|intros o _; apply IH].
Qed.

Lemma lease_now {E} : holds (E := E) env leased_row now (fun t => t < until).
Proof. by apply holds_now. Qed.

Lemma lease_Retry limits : holds env leased_row (RetryArchaeologyNativePersistence limits) (fun _ => True).
Proof.
  eapply holds_bind; [apply lease_now|intros t Ht].
  eapply holds_bind; [by apply holds_mapE, lease_recover|intros _ _].
  eapply holds_bind; [apply holds_mapE, lease_leaseDue|intros rows Hrows]. by apply lease_processRows.
Qed.

Lemma lease_leaseOne i t :
  holds env leased_row (leaseOneArchaeologyPersistenceIntent i t) (fun x => x.2 <> in_owner r).
Proof.
  eapply (holds_bind _ _ _ _ (fun x => match x with inl _ => True | inr x => x.2 <> in_owner r end));
    [|intros [e|x] Hx; [apply holds_throw|by apply holds_ret]].
  apply (holds_runTx _ _ Hstable).
  eapply holds_bind; [apply holds_mapE, holds_exec, stmt_query|intros x _].
  case_match. { eapply holds_bind; [apply holds_require|intros _ _]. apply holds_ret. simpl. congruence. }
  case_match; [by apply holds_ret|]. case_match; [by apply holds_ret|].
  eapply holds_bind; [apply (holds_newID _ _ _ (fun o => o <> in_owner r)); apply Howner|intros owner Ho].
  eapply holds_bind; [apply holds_mapE, holds_exec, stmt_update; by rewrite not_due|intros n _].
  eapply holds_bind; [apply holds_require|intros _ _]. by apply holds_ret.
Qed.

Lemma lease_Apply i : holds env leased_row (ApplyArchaeologyNativePersistenceIntent i) (fun _ => True).
Proof.
  eapply holds_bind; [apply holds_require|intros _ _]. eapply holds_bind; [apply lease_now|intros t _].
  eapply holds_bind; [apply lease_leaseOne|intros [[j x] owner] Ho]. case_match; [by apply holds_ret|].
  case_match; [apply holds_throw|]. eapply holds_bind; [apply lease_now|intros t2 _].
  eapply holds_bind; [by apply lease_process|intros; by apply holds_ret].
Qed.

Lemma lease_insert i x : stmt_holds leased_row (insert_intent i x) (fun _ => True).
Proof.
  intros d a d' Hd. unfold insert_intent, acheck. case_match; [|done]. intros [= <- <-]. split; [|done].
  bool_inv. unfold leased_row, absent in *. simpl. bool_inv. rewrite lookup_insert_ne; [done|]. intros ->. congruence.
Qed.

Lemma lease_Ensure i :
  holds env leased_row (EnsureArchaeologyNativePersistenceIntent i) (fun _ => True).
Proof.
  unfold EnsureArchaeologyNativePersistenceIntent.
  destruct (canonicalArchaeologyNativePersistence i) as [|[[op text] digest]]; [apply holds_throw|].
  eapply holds_bind; [apply lease_now|intros t _]. eapply (holds_bind _ _ _ _ (fun _ => True)).
  - apply holds_attempt, (holds_withTx _ _ Hstable).
    eapply holds_bind; [apply holds_attempt, holds_exec, stmt_query|].
    intros [[]|e] _; [|apply holds_throw..|].
    + eapply holds_bind; [apply holds_mapE, holds_exec, lease_insert|intros; by apply holds_ret].
    + eapply holds_bind; [apply holds_require|intros; by apply holds_ret].
  - intros [[]|e] _; [apply holds_throw|apply holds_throw| |apply holds_throw|by apply holds_ret].
    eapply holds_bind; [apply holds_attempt, (holds_autocommit _ _ Hstable), stmt_query|].
    intros [|x] _; [apply holds_throw|]. case_match; [by apply holds_ret|apply holds_throw].
Qed.

Lemma lease_EnsureAndApply i :
  holds env leased_row (EnsureAndApplyArchaeologyNativePersistence i) (fun _ => True).
Proof.
  eapply holds_bind; [apply lease_Ensure|intros e _]. eapply holds_bind; [apply lease_Apply|intros _ _].
  eapply holds_bind; [apply holds_require|intros _ _].
  eapply holds_bind; [apply (holds_direct _ _ Hstable), stmt_query|intros; by apply holds_ret].
Qed.

Lemma lease_Status : holds env leased_row PersistenceStatus (fun _ => True).
Proof.
  eapply holds_bind; [apply (holds_direct _ _ Hstable), stmt_query|intros [[[[p l] b] a] s] _].
  eapply holds_bind; [apply holds_attempt, (holds_autocommit _ _ Hstable), stmt_query|].
  intros [[]|x] _; first [by apply holds_ret|apply holds_throw].
Qed.

Lemma lease_Reconcile : holds env leased_row ReconcileArchaeologyNativePersistence (fun _ => True).
Proof.
  unfold ReconcileArchaeologyNativePersistence. induction (Z.to_nat _) as [|n IH]; simpl; [apply holds_throw|].
  eapply holds_bind; [apply holds_mapE, lease_Retry|intros _ _]. eapply holds_bind; [apply lease_Status|intros s _].
  case_match; [by apply holds_ret|]. case_match; [apply holds_throw|]. case_match; [apply holds_throw|].
  case_match; [|exact IH]. case_match; [|exact IH].
  eapply holds_bind; [apply lease_now|intros t _]. case_match; [apply holds_throw|exact IH].
Qed.
End LiveLease.

(** Every operation of the plane respects the lease. *)
Lemma lease_run_arch `{Externals} env id r until op :
  in_state r = "leased"%string -> in_expires r = Some until -> in_owner r <> ""%string ->
  (forall n, tk_now (env n) < until) -> (forall n, "ARPI-" +:+ tk_id (env n) <> in_owner r) ->
  stable (leased_row id r) env -> holds env (leased_row id r) (run_arch op) (fun _ => True).
Proof.
  intros Hs Hu Hn Hc Ho Hst.
  assert (forall E A (m : M ADB E A), holds env (leased_row id r) m (fun _ => True) ->
          holds env (leased_row id r) (bind m (fun _ => ret tt)) (fun _ => True)) as Hdrop.
  { intros E A m Hm. eapply holds_bind; [exact Hm|intros; by apply holds_ret]. }
  destruct op; simpl; try apply Hdrop;
    first [ by eapply lease_Ensure | by eapply lease_EnsureAndApply | by eapply lease_Apply
          | eapply holds_mapE; by eapply lease_Retry | by eapply lease_Reconcile | eapply (lease_quiet env id r until); [done..|] ].
  all: first [ apply keeps_ledger_Queue | apply keeps_ledger_ClaimJob | apply keeps_ledger_BindJob
             | apply keeps_ledger_BindIdentity | apply keeps_ledger_Activate | apply keeps_ledger_FailStart
             | apply keeps_ledger_BindUncertainty | apply keeps_ledger_Progress | apply keeps_ledger_Report
             | apply keeps_ledger_Complete | apply keeps_ledger_Lose | apply keeps_ledger_Resolve
             | apply keeps_ledger_Cancel ].
Qed.

(** A live lease is never stolen: until it expires, whatever operations
    this process runs, the leased intent stays exactly as its holder left it. *)
Theorem live_lease_exclusive `{Externals} ops env d id r until :
  a_intents d !! id = Some r -> in_state r = "leased"%string -> in_expires r = Some until -> in_owner r <> ""%string ->
  (forall n, tk_now (env n) < until) -> (forall n, "ARPI-" +:+ tk_id (env n) <> in_owner r) ->
  stable (leased_row id r) env ->
  a_intents (arch_after ops env d) !! id = Some r.
Proof.
  intros Hd Hs Hu Hn Hc Ho Hst. unfold arch_after.
  destruct (run_archs ops env (mkWorld d 0)) as [x w'] eqn:Hrun.
  assert (holds env (leased_row id r) (run_archs ops) (fun _ => True)) as Hall.
  { clear Hrun. induction ops as [|op ops IH]; simpl; [by apply holds_ret|].
    eapply holds_bind; [by eapply holds_attempt, lease_run_arch|intros _ _; exact IH]. }
  exact (proj1 (Hall (mkWorld d 0) _ _ Hd Hrun)).
Qed.

(** ** A retry pass *)

Definition outcomes (r : ArchaeologyNativePersistenceRetryReport) : Z :=
  rr_Applied r + rr_Superseded r + rr_Retried r + rr_Blocked r.

Lemma process_rows_count `{Codec} t rows report env w report' w' :
  process_rows t rows report env w = (inr report', w') ->
  rr_Leased report' = rr_Leased report /\ rr_Processed report' = rr_Processed report + Z.of_nat (length rows) /\
  outcomes report' = outcomes report + Z.of_nat (length rows).
Proof.
  revert report w. induction rows as [|e rows IH]; intros report w Hrun; simpl in Hrun.
  { m_inv. simpl. lia. }
  m_inv1. destruct (IH _ _ Hrun) as (-> & -> & Ho). unfold outcomes in *.
  rewrite Ho. destruct r; simpl; lia.
Qed.

Lemma lease_each_length owner t l env w rows w' :
  lease_each owner t l env w = (inr rows, w') -> (length rows <= length l)%nat.
Proof.
  revert rows w. induction l as [|e l IH]; intros rows w Hrun; simpl in Hrun; m_inv.
  { simpl. lia. }
  match goal with H : lease_each _ _ _ _ _ = _ |- _ => apply IH in H end. case_match; simpl; lia.
Qed.

Lemma leaseDue_length t limit env w rows w' :
  leaseDueArchaeologyPersistence t limit env w = (inr rows, w') -> Z.of_nat (length rows) <= Z.max 0 limit.
Proof.
  unfold leaseDueArchaeologyPersistence. case_match; intros Hrun. { m_inv. simpl. lia. }
  apply runTx_inr_inv in Hrun as (w1 & o & Hrun & Ho). m_inv1. m_inv1.
  assert (length r0 <= Z.to_nat limit)%nat.
  { m_inv. simplify_eq/=. unfold due_intents. rewrite length_take. lia. }
  destruct r0 as [|e l].
  - m_inv. destruct Ho as [[Ho _]|[Ho _]]; simplify_eq/=. lia.
  - m_inv1. m_inv1. m_inv1. apply lease_each_length in Hrun3.
    m_inv. destruct Ho as [[Ho _]|[Ho _]]; simplify_eq/=. lia.
Qed.

Lemma retry_limit_bounds limits : 1 <= retry_limit limits <= archaeologyPersistenceMaxRows.
Proof.
  unfold retry_limit, archaeologyPersistenceMaxRows. destruct limits as [|x]; [by vm_compute|].
  cbv zeta. destruct (Z.leb_spec x 0); [by vm_compute|]. destruct (Z.ltb_spec 32 x); lia.
Qed.

(** A retry pass that succeeds leases at most 32 intents, settles or
    reschedules every one of them, and its report accounts for each. *)
Theorem retry_report_balances `{Codec} limits env w report w' :
  RetryArchaeologyNativePersistence limits env w = (inr report, w') ->
  0 <= rr_Leased report <= 32 /\ rr_Processed report = rr_Leased report /\
  rr_Applied report + rr_Superseded report + rr_Retried report + rr_Blocked report = rr_Leased report.
Proof.
  unfold RetryArchaeologyNativePersistence. intros Hrun. m_inv1. m_inv1. m_inv1. m_inv1. m_inv1.
  match goal with H : leaseDueArchaeologyPersistence _ _ _ _ = _ |- _ => apply leaseDue_length in H as Hlen end.
  apply process_rows_count in Hrun as (Hl & Hp & Ho). unfold outcomes in Ho. simpl in *.
  pose proof (retry_limit_bounds limits). unfold archaeologyPersistenceMaxRows in *. lia.
Qed.

(** ** Reconciliation *)

Lemma count_intents_zero state d id r :
  count_intents state d = 0 -> a_intents d !! id = Some r -> in_state r <> state.
Proof.
  unfold count_intents. intros Hz Hr Hs. assert ((id, r) ∈ filter (fun e => in_state e.2 = state) (map_to_list (a_intents d))) as Hin.
  { apply list_elem_of_filter. split; [done|]. by apply elem_of_map_to_list. }
  destruct (filter _ _); [by apply elem_of_nil in Hin|]. simpl in Hz. lia.
Qed.

(** A healthy status means every intent is applied or superseded. *)
Lemma status_healthy env w s w' :
  alone env -> PersistenceStatus env w = (inr s, w') -> Healthy s = true ->
  w_db w' = w_db w /\ forall id r, a_intents (w_db w) !! id = Some r ->
    in_state r <> "pending"%string /\ in_state r <> "leased"%string /\ in_state r <> "blocked"%string.
Proof.
  intros Ha Hrun Hh. unfold PersistenceStatus in Hrun. m_inv1. apply direct_inr_inv in Hrun0; [|done].
  unfold query in Hrun0. simplify_eq/=. m_inv1. unfold attempt, autocommit, exec in Hrun0. rewrite Ha in Hrun0.
  assert (w_db w1 = w_db w0) as Hdb.
  { simpl in Hrun0. destruct (tk_fault _); [by simplify_eq/=|]. unfold query in Hrun0. destruct (first_pending _); by simplify_eq/=. }
  assert (w_db w' = w_db w1 /\ Healthy s = (count_intents "pending" (w_db w) =? 0) && (count_intents "leased" (w_db w) =? 0)
            && (count_intents "blocked" (w_db w) =? 0)) as [Hdb' Hs].
  { destruct r as [[]|x]; m_inv; done. }
  rewrite Hs in Hh. bool_inv. split; [congruence|]. intros id x Hx. split_and!; by eapply count_intents_zero.
Qed.

(** Reconciliation reports success only when the ledger has no work left:
    every intent is applied or superseded, so none waits, is held or is blocked. *)
Theorem reconcile_settles `{Codec} env w w' id r :
  alone env -> ledger_inv (w_db w) -> ReconcileArchaeologyNativePersistence env w = (inr tt, w') ->
  a_intents (w_db w') !! id = Some r -> in_state r = "applied"%string \/ in_state r = "superseded"%string.
Proof.
  intros Ha Hinv Hrun Hr.
  assert (ledger_inv (w_db w')) as Hinv'.
  { eapply (guarantees_inv intents_step); [apply guar_Reconcile, _| | |exact Hrun|exact Hinv].
    - intros d d' Hs. apply Hs.
    - intros n d Hd. by rewrite Ha. }
  assert (forall w, reconcile_loop (Z.to_nat (archaeologyPersistenceMaxAttempts + 1)) env w = (inr tt, w') ->
    in_state r <> "pending"%string /\ in_state r <> "leased"%string /\ in_state r <> "blocked"%string) as Hloop.
  { clear w Hinv Hrun. induction (Z.to_nat _) as [|n IH]; intros w Hrun; simpl in Hrun; [by m_inv|].
    m_inv1. m_inv1. destruct (Healthy r1) eqn:Hh.
    - m_inv. destruct (status_healthy _ _ _ _ Ha Hrun1 Hh) as [Hdb Hall]. rewrite Hdb in Hr. by eapply Hall.
    - repeat (case_match; m_inv; eauto). }
  destruct (Hloop _ Hrun) as (H1 & H2 & H3). destruct (li_ok _ Hinv' _ _ Hr) as [Hok _].
  unfold intent_ok in Hok. bool_inv. match goal with H : isin (in_state r) intent_states = true |- _ => rename H into Hst end.
  apply isin_inv in Hst. unfold intent_states in Hst. rewrite !elem_of_cons, elem_of_nil in Hst.
  destruct Hst as [?|[?|[?|[?|[?|[]]]]]]; auto; done.
Qed.

(** ** Concrete runs *)

#[local] Existing Instance ArchDemo.codec.
#[local] Existing Instance ArchDemo.codec_laws.
#[local] Existing Instance ArchDemo.externals.

Lemma intent_round_trip_witness : exists text digest,
  canonicalArchaeologyNativePersistence (ArchDemo.intent "activate" "th" "" "tu" "") = inr ("activate"%string, text, digest) /\
  decodeArchaeologyPersistenceIntent (pending_intent ArchDemo.job "activate" digest text 7)
  = inr (ArchDemo.intent "activate" "th" "" "tu" "").
Proof.
  eexists _, _. split; [reflexivity|].
  exact (intent_round_trip (ArchDemo.intent "activate" "th" "" "tu" "") "activate" _ _ 7 eq_refl).
Defined.

Definition leased_elsewhere : intent_row :=
  intent_with "leased" 0 (Some 1) "ARPI-other" (Some 1000) "" None 1 (pending_intent ArchDemo.job "lose_turn" "t" "t" 1).

Lemma live_lease_exclusive_witness :
  a_intents (arch_after [OpRetry []; OpApply "ARPI-x"; OpReconcileLedger] ArchDemo.calm
    (set_a_intents {["ARPI-x"%string := leased_elsewhere]} (ArchDemo.run ArchDemo.start))) !! "ARPI-x"%string
  = Some leased_elsewhere.
Proof.
  refine (live_lease_exclusive _ ArchDemo.calm _ "ARPI-x"%string leased_elsewhere 1000 _ eq_refl eq_refl _ _ _ _).
  - apply (lookup_insert_eq (M := gmap string)).
  - discriminate.
  - intros n. reflexivity.
  - intros n. discriminate.
  - intros n d Hd. exact Hd.
Defined.

(** The result of a run, when it succeeds. *)
Definition result {E A} (x : (E + A) * World ADB) : option A := match x.1 with inr a => Some a | inl _ => None end.

Lemma retry_report_balances_witness : exists report w',
  RetryArchaeologyNativePersistence [] ArchDemo.calm (mkWorld ArchDemo.waiting 0) = (inr report, w') /\
  rr_Applied report = 1 /\ rr_Processed report = rr_Leased report.
Proof.
  assert (rr_Applied <$> result (RetryArchaeologyNativePersistence [] ArchDemo.calm (mkWorld ArchDemo.waiting 0)) = Some 1)
    as Hs by (vm_compute; reflexivity).
  destruct (RetryArchaeologyNativePersistence [] ArchDemo.calm (mkWorld ArchDemo.waiting 0)) as [[e|report] w'] eqn:E;
    [discriminate Hs|]. injection Hs as Hs. exists report, w'. split; [reflexivity|]. split; [exact Hs|].
  exact (proj1 (proj2 (retry_report_balances _ _ _ _ _ E))).
Defined.

Lemma reconcile_settles_witness : exists w' r,
  ReconcileArchaeologyNativePersistence ArchDemo.calm (mkWorld ArchDemo.waiting 0) = (inr tt, w') /\
  a_intents (w_db w') !! ArchDemo.loss = Some r /\
  (in_state r = "applied"%string \/ in_state r = "superseded"%string).
Proof.
  assert (result (ReconcileArchaeologyNativePersistence ArchDemo.calm (mkWorld ArchDemo.waiting 0)) = Some tt /\
          is_Some (a_intents (w_db (ReconcileArchaeologyNativePersistence ArchDemo.calm (mkWorld ArchDemo.waiting 0)).2)
            !! ArchDemo.loss)) as [Hs [r Hr]] by (vm_compute; split; [reflexivity|eexists; reflexivity]).
  destruct (ReconcileArchaeologyNativePersistence ArchDemo.calm (mkWorld ArchDemo.waiting 0)) as [[e|[]] w'] eqn:E;
    [discriminate Hs|]. exists w', r. split; [reflexivity|]. split; [exact Hr|].
  refine (reconcile_settles ArchDemo.calm (mkWorld ArchDemo.waiting 0) w' _ r _ _ E Hr).
  - intros n d. reflexivity.
  - exact (ledger_inv_after _ _ _ ArchDemo.calm_others (ledger_inv_after _ _ _ ArchDemo.env_others ledger_inv_empty)).
Defined.
