(* ===== verification/Scheduler.v ===== *)
(** * The archaeology scheduler

    [internal/application/project_archaeology_scheduler.go]: the loop that
    claims native jobs and launches them, the callbacks of the launched tasks,
    and the requests of humans, which share a few fields behind four mutexes.

    A thread is a program over [act]: a lock section of the scheduler, or a
    call of the repository, the launcher or the service, whose answer the
    environment chooses.  [perform] runs one act; a section whose mutex is held
    cannot run.  Only [terminalMu] is held across other acts (around a claim),
    so it has a flag of its own; the other sections are single acts.  The
    system of [sys_step] interleaves the loop with any number of threads.  The
    calls made so far are kept in [w_trace].

    [durable] tells whether the repository owns the persistence ledger, as the
    store does.  The nil checks of receivers and of the fields that the
    constructor sets are left out, and so are the hooks of tests. *)

From S2P Require Import Prelude GoText Framing CoreDB ProjectCore ArchDB ArchPolicy NativeJobs Ledger.
From stdpp Require Import base gmap strings list pretty.
From Stdlib Require Import ZArith Lia.

Local Open Scope Z_scope.

(** ** Data *)

Definition ErrArchaeologySchedulerPersistenceFault : Err := ErrOther "archaeology scheduler persistence fault".

Record ArchaeologyNativeJob := {
  nj_ID : string; nj_CandidateID : string; nj_ProjectID : string; nj_ThreadID : string; nj_CodexSessionID : string;
  nj_TurnID : string; nj_Policy : ArchaeologyExecutionPolicy }.

(** The candidate's identity; the launcher gets the rest with it. *)
Record ArchaeologyCandidate := { cd_ID : string; cd_Name : string }.

Record ArchaeologyNativeToolCall := { tc_ThreadID : string; tc_TurnID : string; tc_Tool : string; tc_Arguments : string }.
Record ArchaeologyNativeToolResponse := { tr_Success : bool; tr_Message : string }.

(** One outcome of a report, with the fields of its import that the scheduler
    does not look at in [oq_Rest]. *)
Record ArchaeologyOutcomeReportRequest := {
  oq_Title : string; oq_Summary : string; oq_ProjectID : string; oq_BatchID : string; oq_Rest : string }.

(** What the decoders of [encoding/json] make of the arguments of a tool. *)
Class ToolJSON := {
  json_progress : string -> option (string * Z * string);
  json_envelope : string -> option (list string);
  json_fields : string -> option (list string);
  json_outcomes : string -> option (list ArchaeologyOutcomeReportRequest) }.

Definition archaeologySchedulerPersistenceRetryLimit : Z := 32.
Definition archaeologySchedulerPendingTerminalDrainLimit : nat := 8.

(** ** The shared state, a record per mutex *)

(** [stateMu] *)
Record latch := { l_fault : option Err; l_seq : Z; l_backlog : bool; l_manual : bool }.

(** [callbackMu], with the count of [callbackWG] *)
Record gate := { g_closing : bool; g_callbacks : Z }.

(** [terminalMu] *)
Record terminals := { t_callbacks : Z; t_flights : Z; t_held : bool }.

(** [persistenceMu] *)
Record queue := { q_pending : list ArchaeologyNativePersistenceIntent; q_keys : gset string }.

(** The variables of one call of [launch]. *)
Record launching := { lc_job : ArchaeologyNativeJob; lc_bound : bool; lc_bindErr : option Err }.

(** ** Acts *)

Inductive act :=
  | SBlocked | SRecord (e : Err) (durable : bool) | SMarkBacklog | SSeq | SManualOrChanged (sequence : Z) | SLatched
  | SState
  | SWake | SCtxErr | SClosing | SSetClosing | SCancel | SWaitLoop | SWaitCallbacks
  | SBeginCallback | SEndCallback | SBeginTerminal | SEndTerminal | SBeginFlight | SEndFlight
  | SAcquireTerminal | SReleaseTerminal
  | SPendingLen | SPop | SPushBack (i : ArchaeologyNativePersistenceIntent) | SForget (i : ArchaeologyNativePersistenceIntent)
  | SEnqueue (i : ArchaeologyNativePersistenceIntent)
  | SClear (sequence : Z) | SClearIdle
  | SMarkInterrupt (key : string)
  | SNewLaunch (job : ArchaeologyNativeJob) | SSetBindErr (n : nat) (e : option Err) | SGetBindErr (n : nat)
  | SCloseBound (n : nat) | SWaitBound (n : nat) | SWaitBoundOrDone (n : nat)
  | CEnsure (i : ArchaeologyNativePersistenceIntent) | CApply (id : string) | CRead (id : string)
  | CRetryDue (limit : Z) | CStatus | CVerify | CCtx
  | CClaim | CSession | CAvailable
  | CLaunch (n : nat) (job : ArchaeologyNativeJob) (c : ArchaeologyCandidate)
  | CFinalize (job : ArchaeologyNativeJob) (c : ArchaeologyCandidate) (r : ArchaeologyLaunchResult)
  | CInterrupt (job : ArchaeologyNativeJob)
  | CFailStart (job : string) (r : ArchaeologyLaunchResult) (uncertain : bool)
  | CBind (job thread session turn : string) | CActivate (job thread turn : string)
  | CLose (job thread turn : string) | CComplete (t : ArchaeologyNativeTerminal)
  | CProgress (p : ArchaeologyNativeProgress) | CReport (r : ArchaeologyNativeReport)
  | COutcomes (l : list ArchaeologyOutcomeReportRequest)
  | CQueue | CCancelBatch.

(** What an act returns.  An intent's record is its id and state. *)
Definition result (a : act) : Type :=
  match a with
  | SBlocked | SManualOrChanged _ | SLatched | SCtxErr | SClosing | SBeginCallback | SBeginTerminal | SAcquireTerminal
  | SMarkInterrupt _ | SWaitBoundOrDone _ => bool
  | SState => bool * bool
  | SSeq => Z
  | SPendingLen | SNewLaunch _ => nat
  | SPop => option ArchaeologyNativePersistenceIntent
  | SClear _ | SGetBindErr _ => option Err
  | CEnsure _ => Err + (string * string)
  | CRead _ => Err + string
  | CStatus => Err + bool
  | CClaim => Err + ArchaeologyNativeJob
  | CSession => Err + list ArchaeologyCandidate
  | CLaunch _ _ _ => ArchaeologyLaunchResult * option Err
  | COutcomes _ => Err + list ArchaeologyOutcome
  | CCancelBatch => Err + list ArchaeologyNativeJob
  | CApply _ | CRetryDue _ | CVerify | CCtx | CAvailable | CFinalize _ _ _ | CInterrupt _ | CFailStart _ _ _ | CBind _ _ _ _
  | CActivate _ _ _ | CLose _ _ _ | CComplete _ | CProgress _ | CReport _ | CQueue => option Err
  | _ => unit
  end.

Inductive event := Ev (a : act) (r : result a).

Record sched := {
  s_latch : latch; s_gate : gate; s_term : terminals; s_queue : queue; s_interrupted : gset string; s_wake : bool;
  s_cancelled : bool; s_loopDone : bool; s_launches : list launching; w_trace : list event }.

Definition set_latch (l : latch) (s : sched) : sched :=
  {| s_latch := l; s_gate := s_gate s; s_term := s_term s; s_queue := s_queue s; s_interrupted := s_interrupted s;
     s_wake := s_wake s; s_cancelled := s_cancelled s; s_loopDone := s_loopDone s; s_launches := s_launches s;
     w_trace := w_trace s |}.
Definition set_gate (g : gate) (s : sched) : sched :=
  {| s_latch := s_latch s; s_gate := g; s_term := s_term s; s_queue := s_queue s; s_interrupted := s_interrupted s;
     s_wake := s_wake s; s_cancelled := s_cancelled s; s_loopDone := s_loopDone s; s_launches := s_launches s;
     w_trace := w_trace s |}.
Definition set_term (t : terminals) (s : sched) : sched :=
  {| s_latch := s_latch s; s_gate := s_gate s; s_term := t; s_queue := s_queue s; s_interrupted := s_interrupted s;
     s_wake := s_wake s; s_cancelled := s_cancelled s; s_loopDone := s_loopDone s; s_launches := s_launches s;
     w_trace := w_trace s |}.
Definition set_queue (q : queue) (s : sched) : sched :=
  {| s_latch := s_latch s; s_gate := s_gate s; s_term := s_term s; s_queue := q; s_interrupted := s_interrupted s;
     s_wake := s_wake s; s_cancelled := s_cancelled s; s_loopDone := s_loopDone s; s_launches := s_launches s;
     w_trace := w_trace s |}.
Definition set_interrupted (m : gset string) (s : sched) : sched :=
  {| s_latch := s_latch s; s_gate := s_gate s; s_term := s_term s; s_queue := s_queue s; s_interrupted := m;
     s_wake := s_wake s; s_cancelled := s_cancelled s; s_loopDone := s_loopDone s; s_launches := s_launches s;
     w_trace := w_trace s |}.
Definition set_signals (wake cancelled loopDone : bool) (s : sched) : sched :=
  {| s_latch := s_latch s; s_gate := s_gate s; s_term := s_term s; s_queue := s_queue s; s_interrupted := s_interrupted s;
     s_wake := wake; s_cancelled := cancelled; s_loopDone := loopDone; s_launches := s_launches s; w_trace := w_trace s |}.
Definition set_launches (l : list launching) (s : sched) : sched :=
  {| s_latch := s_latch s; s_gate := s_gate s; s_term := s_term s; s_queue := s_queue s; s_interrupted := s_interrupted s;
     s_wake := s_wake s; s_cancelled := s_cancelled s; s_loopDone := s_loopDone s; s_launches := l; w_trace := w_trace s |}.
Definition log (e : event) (s : sched) : sched :=
  {| s_latch := s_latch s; s_gate := s_gate s; s_term := s_term s; s_queue := s_queue s; s_interrupted := s_interrupted s;
     s_wake := s_wake s; s_cancelled := s_cancelled s; s_loopDone := s_loopDone s; s_launches := s_launches s;
     w_trace := w_trace s ++ [e] |}.

(** [newArchaeologySchedulerWithTicker] *)
Definition newArchaeologyScheduler : sched :=
  {| s_latch := {| l_fault := None; l_seq := 0; l_backlog := false; l_manual := false |};
     s_gate := {| g_closing := false; g_callbacks := 0 |};
     s_term := {| t_callbacks := 0; t_flights := 0; t_held := false |};
     s_queue := {| q_pending := []; q_keys := ∅ |}; s_interrupted := ∅; s_wake := false; s_cancelled := false;
     s_loopDone := false; s_launches := []; w_trace := [] |}.

(** ** Lock sections *)

(** [persistenceIntentKey] *)
Definition nul : string := String Ascii.zero EmptyString.
Definition show_bool (b : bool) : string := if b then "true" else "false".
Definition intent_fields (i : ArchaeologyNativePersistenceIntent) : list string :=
  [pi_JobID i; pi_Operation i; pi_ThreadID i; pi_CodexSessionID i; pi_TurnID i; pi_Status i;
   match pi_DurationMS i with Some d => pretty d | None => "<nil>" end; show_bool (pi_Uncertain i);
   la_LaunchID (pi_Launch i); la_ProjectID (pi_Launch i); la_State (pi_Launch i); la_ThreadID (pi_Launch i);
   la_CodexSessionID (pi_Launch i); la_TurnID (pi_Launch i); la_Error (pi_Launch i)].
Definition persistenceIntentKey (i : ArchaeologyNativePersistenceIntent) : string := String.concat nul (intent_fields i).

Definition is_some {A} (o : option A) : bool := match o with Some _ => true | None => false end.

(** [stateMu] of [recordPersistenceFailureSource] *)
Definition record_failure (e : Err) (durable : bool) (l : latch) : latch :=
  {| l_fault := match l_fault l with None => Some e | f => f end; l_seq := (l_seq l + 1) mod 2 ^ 64; l_backlog := l_backlog l;
     l_manual := if durable then l_manual l else true |}.

Definition mark_backlog (l : latch) : latch :=
  {| l_fault := l_fault l; l_seq := (l_seq l + 1) mod 2 ^ 64; l_backlog := true; l_manual := l_manual l |}.

(** [Wake]: nothing once the context is done; the channel holds one signal. *)
Definition wake (s : sched) : sched :=
  if s_cancelled s then s else set_signals true (s_cancelled s) (s_loopDone s) s.

Definition enqueuePendingIntentLocked (i : ArchaeologyNativePersistenceIntent) (q : queue) : queue :=
  let key := persistenceIntentKey i in
  if decide (key ∈ q_keys q) then q
  else {| q_pending := q_pending q ++ [i]; q_keys := {[key]} ∪ q_keys q |}.

Definition idle (s : sched) : bool := (t_callbacks (s_term s) =? 0) && (t_flights (s_term s) =? 0).

(** The last section of [ClearPersistenceFault], which holds three mutexes. *)
Definition clear_fault (sequence : Z) (s : sched) : sched * option Err :=
  if negb (idle s) then (s, Some ErrArchaeologySchedulerPersistenceFault)
  else match q_pending (s_queue s) with
       | _ :: _ => (s, Some ErrArchaeologySchedulerPersistenceFault)
       | [] =>
           if negb (l_seq (s_latch s) =? sequence) then (s, Some ErrArchaeologySchedulerPersistenceFault)
           else (wake (set_latch {| l_fault := None; l_seq := l_seq (s_latch s); l_backlog := false; l_manual := false |} s), None)
       end.

Definition clearAutomaticPersistenceLatchIfIdle (s : sched) : sched :=
  if negb (idle s) then s
  else match q_pending (s_queue s) with
       | _ :: _ => s
       | [] =>
           if l_manual (s_latch s) then s
           else set_latch {| l_fault := None; l_seq := l_seq (s_latch s); l_backlog := false; l_manual := l_manual (s_latch s) |} s
       end.

Definition update_launch (n : nat) (f : launching -> launching) (s : sched) : sched :=
  set_launches (alter f n (s_launches s)) s.

Definition set_counts (callbacks flights : Z) (s : sched) : sched :=
  set_term {| t_callbacks := callbacks; t_flights := flights; t_held := t_held (s_term s) |} s.

(** A section that takes [terminalMu] waits while a claim holds it. *)
Definition when_free {A} (s : sched) (r : A) : option A := if t_held (s_term s) then None else Some r.

(** One act: [None] when it has to wait.  [answer] is what the environment
    returns from a call; a section computes its own result.  The one section
    that looks at it is [SWaitBoundOrDone], a [select] on the caller's context
    (answer true: it is done) and on [bound]. *)
Definition perform (a : act) : result a -> sched -> option (sched * result a) :=
  match a return result a -> sched -> option (sched * result a) with
  | SBlocked => fun _ s => Some (s, is_some (l_fault (s_latch s)))
  | SRecord e durable => fun _ s => Some (set_latch (record_failure e durable (s_latch s)) s, tt)
  | SMarkBacklog => fun _ s => Some (set_latch (mark_backlog (s_latch s)) s, tt)
  | SSeq => fun _ s => Some (s, l_seq (s_latch s))
  | SManualOrChanged sequence => fun _ s => Some (s, l_manual (s_latch s) || negb (l_seq (s_latch s) =? sequence))
  | SLatched => fun _ s => Some (s, is_some (l_fault (s_latch s)) || l_backlog (s_latch s))
  | SState => fun _ s => Some (s, (is_some (l_fault (s_latch s)), l_backlog (s_latch s)))
  | SWake => fun _ s => Some (wake s, tt)
  | SCtxErr => fun _ s => Some (s, s_cancelled s)
  | SClosing => fun _ s => Some (s, g_closing (s_gate s))
  | SSetClosing => fun _ s => Some (set_gate {| g_closing := true; g_callbacks := g_callbacks (s_gate s) |} s, tt)
  | SCancel => fun _ s => Some (set_signals (s_wake s) true (s_loopDone s) s, tt)
  | SWaitLoop => fun _ s => if s_loopDone s then Some (s, tt) else None
  | SWaitCallbacks => fun _ s => if g_callbacks (s_gate s) =? 0 then Some (s, tt) else None
  | SBeginCallback => fun _ s =>
      if g_closing (s_gate s) then Some (s, false)
      else Some (set_gate {| g_closing := false; g_callbacks := g_callbacks (s_gate s) + 1 |} s, true)
  | SEndCallback => fun _ s =>
      Some (set_gate {| g_closing := g_closing (s_gate s); g_callbacks := g_callbacks (s_gate s) - 1 |} s, tt)
  | SBeginTerminal => fun _ s =>
      when_free s
        (if g_closing (s_gate s) then (s, false)
         else (set_counts (t_callbacks (s_term s) + 1) (t_flights (s_term s))
                 (set_gate {| g_closing := false; g_callbacks := g_callbacks (s_gate s) + 1 |} s), true))
  | SEndTerminal => fun _ s => when_free s (set_counts (t_callbacks (s_term s) - 1) (t_flights (s_term s)) s, tt)
  | SBeginFlight => fun _ s => when_free s (set_counts (t_callbacks (s_term s)) (t_flights (s_term s) + 1) s, tt)
  | SEndFlight => fun _ s =>
      when_free s (set_counts (t_callbacks (s_term s))
                     (if 0 <? t_flights (s_term s) then t_flights (s_term s) - 1 else t_flights (s_term s)) s, tt)
  | SAcquireTerminal => fun _ s =>
      when_free s
        (if idle s
         then (set_term {| t_callbacks := t_callbacks (s_term s); t_flights := t_flights (s_term s); t_held := true |} s, false)
         else (s, true))
  | SReleaseTerminal => fun _ s =>
      Some (set_term {| t_callbacks := t_callbacks (s_term s); t_flights := t_flights (s_term s); t_held := false |} s, tt)
  | SPendingLen => fun _ s => Some (s, length (q_pending (s_queue s)))
  | SPop => fun _ s =>
      match q_pending (s_queue s) with
      | [] => Some (s, None)
      | i :: rest => Some (set_queue {| q_pending := rest; q_keys := q_keys (s_queue s) |} s, Some i)
      end
  | SPushBack i => fun _ s =>
      Some (set_queue {| q_pending := q_pending (s_queue s) ++ [i]; q_keys := q_keys (s_queue s) |} s, tt)
  | SForget i => fun _ s =>
      Some (set_queue {| q_pending := q_pending (s_queue s); q_keys := q_keys (s_queue s) ∖ {[persistenceIntentKey i]} |} s, tt)
  | SEnqueue i => fun _ s => Some (set_queue (enqueuePendingIntentLocked i (s_queue s)) s, tt)
  | SClear sequence => fun _ s => when_free s (clear_fault sequence s)
  | SClearIdle => fun _ s => when_free s (clearAutomaticPersistenceLatchIfIdle s, tt)
  | SMarkInterrupt key => fun _ s =>
      if decide (key ∈ s_interrupted s) then Some (s, true) else Some (set_interrupted ({[key]} ∪ s_interrupted s) s, false)
  | SNewLaunch job => fun _ s =>
      Some (set_launches (s_launches s ++ [{| lc_job := job; lc_bound := false; lc_bindErr := None |}]) s, length (s_launches s))
  | SSetBindErr n e => fun _ s =>
      Some (update_launch n (fun l => {| lc_job := lc_job l; lc_bound := lc_bound l; lc_bindErr := e |}) s, tt)
  | SGetBindErr n => fun _ s => Some (s, match s_launches s !! n with Some l => lc_bindErr l | None => None end)
  | SCloseBound n => fun _ s =>
      Some (update_launch n (fun l => {| lc_job := lc_job l; lc_bound := true; lc_bindErr := lc_bindErr l |}) s, tt)
  | SWaitBound n => fun _ s =>
      match s_launches s !! n with Some l => if lc_bound l then Some (s, tt) else None | None => None end
  | SWaitBoundOrDone n => fun answer s =>
      if answer then Some (s, true)
      else match s_launches s !! n with Some l => if lc_bound l then Some (s, false) else None | None => None end
  | a => fun answer s => Some (log (Ev a answer) s, answer)
  end.

(** ** Programs *)

Inductive proc (A : Type) : Type :=
  | Ret (x : A)
  | Act (a : act) (k : result a -> proc A).
Arguments Ret {A} x.
Arguments Act {A} a k.

Fixpoint proc_bind {A B} (f : A -> proc B) (p : proc A) : proc B :=
  match p with
  | Ret x => f x
  | Act a k => Act a (fun r => proc_bind f (k r))
  end.

#[export] Instance proc_mret : MRet proc := fun A x => Ret x.
#[export] Instance proc_mbind : MBind proc := fun A B f p => proc_bind f p.

Definition do_ (a : act) : proc (result a) := Act a Ret.
Definition when_ (b : bool) (p : proc unit) : proc unit := if b then p else mret tt.

Section Programs.
Context `{ToolJSON} `{Sha256} (durable : bool).

Definition Wake : proc unit := do_ SWake.

(** *** Persistence failures *)

Definition recordPersistenceFailureSource (e : option Err) (wakes durably : bool) : proc (option Err) :=
  match e with
  | None => mret None
  | Some e => do_ (SRecord e durably) ;; when_ wakes Wake ;; mret (Some e)
  end.

Definition recordPersistenceFailure (e : option Err) : proc (option Err) := recordPersistenceFailureSource e true false.
Definition recordPersistenceFailureMode (e : option Err) (wakes : bool) : proc (option Err) :=
  recordPersistenceFailureSource e wakes true.

Definition markPersistenceBacklog (wakes : bool) : proc unit := do_ SMarkBacklog ;; when_ wakes Wake.

Definition Status : proc (bool * bool) :=
  state ← do_ SState ;
  pending ← do_ SPendingLen ;
  mret (state.1, state.2 || negb (pending =? 0)%nat).

Definition ClearPersistenceFault : proc (option Err) :=
  sequence ← do_ SSeq ;
  e ← do_ CVerify ;
  match e with
  | Some e => mret (Some e)
  | None =>
      e ← do_ CCtx ;
      match e with Some e => mret (Some e) | None => do_ (SClear sequence) end
  end.

(** [Available] *)
Definition Available : proc (option Err) :=
  blocked ← do_ SBlocked ;
  if (blocked : bool) then mret (Some ErrArchaeologySchedulerPersistenceFault) else do_ CAvailable.

(** *** Durable intents *)

(** [applyPersistenceIntentDetailed]: whether the ledger has the intent, and
    the error. *)
Definition applyPersistenceIntentDetailed (i : ArchaeologyNativePersistenceIntent) (wakes : bool) : proc (bool * option Err) :=
  if negb durable then mret (false, Some ErrUnavailable)
  else
    ensured ← do_ (CEnsure i) ;
    match ensured with
    | inl e => e ← recordPersistenceFailureMode (Some e) wakes ; mret (false, e)
    | inr (id, state) =>
        if seqb id "" then e ← recordPersistenceFailureMode (Some ErrInvalid) wakes ; mret (false, e)
        else if seqb state "applied" then mret (true, None)
        else if seqb state "blocked" || seqb state "superseded" then markPersistenceBacklog wakes ;; mret (true, Some ErrConflict)
        else if seqb state "leased" then markPersistenceBacklog wakes ;; mret (true, Some ErrUnavailable)
        else if negb (seqb state "pending") then markPersistenceBacklog wakes ;; mret (true, Some ErrInvalid)
        else
          applyErr ← do_ (CApply id) ;
          readback ← do_ (CRead id) ;
          match readback with
          | inl readErr =>
              markPersistenceBacklog wakes ;;
              mret (true, Some (match applyErr with Some e => e | None => readErr end))
          | inr state =>
              if seqb state "applied" then mret (true, None)
              else if seqb state "superseded" || seqb state "blocked" then markPersistenceBacklog wakes ;; mret (true, Some ErrConflict)
              else if seqb state "pending" || seqb state "leased" then
                markPersistenceBacklog wakes ;; mret (true, Some (match applyErr with Some e => e | None => ErrUnavailable end))
              else markPersistenceBacklog wakes ;; mret (true, Some ErrInvalid)
          end
    end.

Definition applyPersistenceIntent (i : ArchaeologyNativePersistenceIntent) : proc (option Err) :=
  do_ SBeginFlight ;;
  r ← applyPersistenceIntentDetailed i true ;
  when_ (is_some r.2 && negb r.1) (do_ (SEnqueue i)) ;;
  do_ SEndFlight ;;
  mret r.2.

Definition applyQueuedPersistenceIntent (i : ArchaeologyNativePersistenceIntent) : proc unit :=
  do_ SBeginFlight ;;
  r ← applyPersistenceIntentDetailed i true ;
  when_ (is_some r.2 && negb r.1) (do_ (SEnqueue i)) ;;
  do_ SEndFlight.

(** The loop of [drainPendingIntents], with what is left of its budget. *)
Fixpoint drain_pending (budget : nat) : proc unit :=
  match budget with
  | O => mret tt
  | S budget =>
      do_ SBeginFlight ;;
      popped ← do_ SPop ;
      match popped with
      | None => do_ SEndFlight
      | Some i =>
          r ← applyPersistenceIntentDetailed i false ;
          (if negb (is_some r.2) || r.1 then do_ (SForget i) else do_ (SPushBack i)) ;;
          do_ SEndFlight ;;
          drain_pending budget
      end
  end.

Definition drainPendingIntents : proc bool :=
  budget ← do_ SPendingLen ;
  if (budget =? 0)%nat then mret true
  else if negb durable then mret false
  else
    drain_pending (Nat.min budget archaeologySchedulerPendingTerminalDrainLimit) ;;
    n ← do_ SPendingLen ;
    mret (n =? 0)%nat.

Definition drainPersistence : proc bool :=
  if negb durable then blocked ← do_ SBlocked ; mret (negb blocked)
  else
    do_ SBeginFlight ;;
    ready ←
      (cancelled ← do_ SCtxErr ;
       if (cancelled : bool) then mret false
       else
         e ← do_ (CRetryDue archaeologySchedulerPersistenceRetryLimit) ;
         match e with
         | Some e => recordPersistenceFailureMode (Some e) false ;; mret false
         | None =>
             sequence ← do_ SSeq ;
             status ← do_ CStatus ;
             match status with
             | inl e => recordPersistenceFailureMode (Some e) false ;; mret false
             | inr false => do_ SMarkBacklog ;; mret false
             | inr true => changed ← do_ (SManualOrChanged sequence) ; mret (negb changed)
             end
         end) ;
    do_ SEndFlight ;;
    mret ready.

(** *** Interrupts *)

Definition interrupt_key (job : ArchaeologyNativeJob) : string :=
  if seqb (nj_ID job) "" then nj_ThreadID job +:+ nul +:+ nj_TurnID job else nj_ID job.

Definition interruptNativeOnce (job : ArchaeologyNativeJob) : proc (option Err) :=
  if seqb (nj_ThreadID job) "" || seqb (nj_TurnID job) "" then mret None
  else
    attempted ← do_ (SMarkInterrupt (interrupt_key job)) ;
    if (attempted : bool) then mret None else do_ (CInterrupt job).

(** *** Launching *)

Definition emptyLaunch : ArchaeologyLaunchResult :=
  {| la_LaunchID := ""; la_ProjectID := ""; la_State := ""; la_ThreadID := ""; la_CodexSessionID := ""; la_TurnID := ""; la_Error := "" |}.

Definition fail_intent (job : string) (r : ArchaeologyLaunchResult) (uncertain : bool) : ArchaeologyNativePersistenceIntent :=
  {| pi_JobID := job; pi_Operation := "fail_start"; pi_Launch := r; pi_Uncertain := uncertain; pi_ThreadID := "";
     pi_CodexSessionID := ""; pi_TurnID := ""; pi_Status := ""; pi_DurationMS := None |}.
Definition turn_intent (operation job thread session turn : string) : ArchaeologyNativePersistenceIntent :=
  {| pi_JobID := job; pi_Operation := operation; pi_Launch := emptyLaunch; pi_Uncertain := false; pi_ThreadID := thread;
     pi_CodexSessionID := session; pi_TurnID := turn; pi_Status := ""; pi_DurationMS := None |}.
Definition complete_intent (job : string) (t : ArchaeologyNativeTerminal) : ArchaeologyNativePersistenceIntent :=
  {| pi_JobID := job; pi_Operation := "complete_turn"; pi_Launch := emptyLaunch; pi_Uncertain := false;
     pi_ThreadID := tm_ThreadID t; pi_CodexSessionID := ""; pi_TurnID := tm_TurnID t; pi_Status := tm_Status t;
     pi_DurationMS := tm_DurationMS t |}.

Definition failStart (job : string) (r : ArchaeologyLaunchResult) (uncertain : bool) : proc (option Err) :=
  if durable then applyPersistenceIntent (fail_intent job r uncertain)
  else e ← do_ (CFailStart job r uncertain) ; recordPersistenceFailure e.

Definition set_identity (job : ArchaeologyNativeJob) (r : ArchaeologyLaunchResult) : ArchaeologyNativeJob :=
  {| nj_ID := nj_ID job; nj_CandidateID := ""; nj_ProjectID := ""; nj_ThreadID := la_ThreadID r;
     nj_CodexSessionID := la_CodexSessionID r; nj_TurnID := la_TurnID r;
     nj_Policy := {| Depth := ""; Sources := {| Git := false; Docs := false; CodexHistory := false |} |} |}.

Definition exact_turn (r : ArchaeologyLaunchResult) : bool := negb (seqb (la_ThreadID r) "") && negb (seqb (la_TurnID r) "").

(** The one interrupt of a turn that was accepted and cannot be used. *)
Definition interrupt_accepted (job : ArchaeologyNativeJob) (r : ArchaeologyLaunchResult) : proc unit :=
  when_ (exact_turn r) (interruptNativeOnce (set_identity job r) ;; mret tt).

(** The end of a launch whose turn was accepted but not activated. *)
Definition abandon (n : nat) (job : ArchaeologyNativeJob) (r : ArchaeologyLaunchResult) : proc unit :=
  do_ (SCloseBound n) ;;
  failStart (nj_ID job) r true ;;
  interrupt_accepted job r.

Definition some_identity (r : ArchaeologyLaunchResult) : bool :=
  seqb (la_State r) "uncertain" || negb (seqb (la_ThreadID r) "") || negb (seqb (la_CodexSessionID r) "")
  || negb (seqb (la_TurnID r) "").

Definition partial_identity (r : ArchaeologyLaunchResult) : bool :=
  seqb (la_State r) "uncertain" || seqb (la_ThreadID r) "" || seqb (la_CodexSessionID r) "" || seqb (la_TurnID r) "".

Definition bindIdentity (job : ArchaeologyNativeJob) (r : ArchaeologyLaunchResult) : proc (option Err) :=
  if durable then
    applyPersistenceIntent (turn_intent "bind_identity" (nj_ID job) (la_ThreadID r) (la_CodexSessionID r) (la_TurnID r))
  else e ← do_ (CBind (nj_ID job) (la_ThreadID r) (la_CodexSessionID r) (la_TurnID r)) ; recordPersistenceFailure e.

Definition activate (job : ArchaeologyNativeJob) (r : ArchaeologyLaunchResult) : proc (option Err) :=
  if durable then applyPersistenceIntent (turn_intent "activate" (nj_ID job) (la_ThreadID r) "" (la_TurnID r))
  else e ← do_ (CActivate (nj_ID job) (la_ThreadID r) (la_TurnID r)) ; recordPersistenceFailure e.

(** [launch], once LaunchNative has answered *)
Definition launched (n : nat) (job : ArchaeologyNativeJob) (candidate : ArchaeologyCandidate)
    (result : ArchaeologyLaunchResult) (launchErr : option Err) : proc unit :=
  if is_some launchErr then
    do_ (SSetBindErr n launchErr) ;;
    failStart (nj_ID job) result (some_identity result) ;;
    do_ (SCloseBound n) ;;
    interrupt_accepted job result
  else if partial_identity result then
    do_ (SSetBindErr n (Some ErrInvalid)) ;;
    abandon n job result
  else
    e ← bindIdentity job result ;
    do_ (SSetBindErr n e) ;;
    if is_some e then abandon n job result
    else
      e ← do_ (CFinalize job candidate result) ;
      do_ (SSetBindErr n e) ;;
      if is_some e then abandon n job result
      else
        e ← activate job result ;
        do_ (SSetBindErr n e) ;;
        if is_some e then abandon n job result
        else do_ (SCloseBound n).

Definition launch (job : ArchaeologyNativeJob) : proc unit :=
  session ← do_ CSession ;
  match session with
  | inl _ => failStart (nj_ID job) emptyLaunch false ;; mret tt
  | inr candidates =>
      match List.find (fun c => seqb (cd_ID c) (nj_CandidateID job)) candidates with
      | None => failStart (nj_ID job) emptyLaunch false ;; mret tt
      | Some candidate =>
          n ← do_ (SNewLaunch job) ;
          r ← do_ (CLaunch n job candidate) ;
          launched n job candidate r.1 r.2
      end
  end.

(** *** The callbacks of a launch *)

Definition with_job (job : string) (t : ArchaeologyNativeTerminal) : ArchaeologyNativeTerminal :=
  {| tm_JobID := job; tm_ThreadID := tm_ThreadID t; tm_TurnID := tm_TurnID t; tm_Status := tm_Status t; tm_DurationMS := tm_DurationMS t |}.

Definition settle_terminal (job : ArchaeologyNativeJob) (t : ArchaeologyNativeTerminal) : proc unit :=
  if seqb (tm_Status t) "unavailable" then
    if durable then applyQueuedPersistenceIntent (turn_intent "lose_turn" (nj_ID job) (tm_ThreadID t) "" (tm_TurnID t))
    else e ← do_ (CLose (nj_ID job) (tm_ThreadID t) (tm_TurnID t)) ; recordPersistenceFailure e ;; mret tt
  else if durable then applyQueuedPersistenceIntent (complete_intent (nj_ID job) t)
  else e ← do_ (CComplete (with_job (nj_ID job) t)) ; recordPersistenceFailure e ;; mret tt.

Definition onTerminal (n : nat) (job : ArchaeologyNativeJob) (t : ArchaeologyNativeTerminal) : proc unit :=
  admitted ← do_ SBeginTerminal ;
  if negb admitted then mret tt
  else
    do_ (SWaitBound n) ;;
    e ← do_ (SGetBindErr n) ;
    (if is_some e then mret tt else settle_terminal job t ;; Wake) ;;
    do_ SEndTerminal ;;
    do_ SEndCallback ;;
    Wake.

(** [decodeStrictOneLimit], around the decoder *)
Definition decodeStrictOneLimit {A} (decode : string -> option A) (limit : Z) (body : string) : option A :=
  if (len body =? 0) || (limit <? len body) then None else decode body.

Definition quoted (s : string) : string :=
  String (Ascii.ascii_of_nat 34) EmptyString +:+ s +:+ String (Ascii.ascii_of_nat 34) EmptyString.
Definition json_accepted : string := "{" +:+ quoted "accepted" +:+ ":true".
Definition refused : ArchaeologyNativeToolResponse := {| tr_Success := false; tr_Message := "" |}.

Definition progressLabel (phase : string) : string :=
  if seqb phase "inspecting_sources" then "Inspecting selected sources"
  else if seqb phase "building_proposals" then "Building history proposals"
  else if seqb phase "ready_to_report" then "Preparing review report"
  else "".

Definition nativeHistoricalImportBatchID (jobID : string) (index : nat) : string :=
  "native-" +:+ hex_EncodeToString (String.substring 0 12 (sha256_Sum256 (jobID +:+ nul +:+ pretty index))).

Definition bind_outcome (job : ArchaeologyNativeJob) (index : nat) (o : ArchaeologyOutcomeReportRequest) : ArchaeologyOutcomeReportRequest :=
  {| oq_Title := oq_Title o; oq_Summary := oq_Summary o; oq_ProjectID := nj_ProjectID job;
     oq_BatchID := nativeHistoricalImportBatchID (nj_ID job) index; oq_Rest := oq_Rest o |}.

Definition handleProgress (job : ArchaeologyNativeJob) (call : ArchaeologyNativeToolCall) : proc ArchaeologyNativeToolResponse :=
  match decodeStrictOneLimit json_progress 65536 (tc_Arguments call), Limits (nj_Policy job) with
  | Some (phase, sources, note), Some limits =>
      if (500 <? len note) || (sources <? 0) || (MaxSourcesExamined limits <? sources) then mret refused
      else if seqb (progressLabel phase) "" then mret refused
      else
        e ← do_ (CProgress {| pg_JobID := nj_ID job; pg_ThreadID := tc_ThreadID call; pg_TurnID := tc_TurnID call;
                              pg_PhaseLabel := progressLabel phase; pg_SourcesExamined := sources |}) ;
        e ← recordPersistenceFailure e ;
        mret (if is_some e then refused else {| tr_Success := true; tr_Message := json_accepted +:+ "}" |})
  | _, _ => mret refused
  end.

(** The outcomes of a report that are well formed, bound to the job. *)
Definition report_outcomes (job : ArchaeologyNativeJob) (arguments : string) : option (list ArchaeologyOutcomeReportRequest) :=
  match decodeStrictOneLimit json_envelope 61440 arguments, Limits (nj_Policy job) with
  | Some raw, Some limits =>
      if (length raw =? 0)%nat || (MaxOutcomes limits <? Z.of_nat (length raw)) then None
      else if negb (forallb (fun o => match decodeStrictOneLimit json_fields 49152 o with
                                      | Some fields => negb (isin "project_id" fields)
                                      | None => false
                                      end) raw) then None
      else match decodeStrictOneLimit json_outcomes 61440 arguments with
           | Some outcomes => if negb (forallb (fun o => seqb (oq_BatchID o) "") outcomes) then None
                              else Some (imap (bind_outcome job) outcomes)
           | None => None
           end
  | _, _ => None
  end.

Definition handleReport (job : ArchaeologyNativeJob) (call : ArchaeologyNativeToolCall) : proc ArchaeologyNativeToolResponse :=
  match report_outcomes job (tc_Arguments call) with
  | None => mret refused
  | Some input =>
      checked ← do_ (COutcomes input) ;
      match checked with
      | inl _ => mret refused
      | inr outcomes =>
          if negb (forallb (fun o => seqb (ao_ProjectID o) (nj_ProjectID job)) outcomes) then mret refused
          else
            e ← do_ (CReport {| rp_JobID := nj_ID job; rp_ThreadID := tc_ThreadID call; rp_TurnID := tc_TurnID call;
                                rp_Digest := sha256_Sum256 (tc_Arguments call); rp_Outcomes := outcomes |}) ;
            e ← recordPersistenceFailure e ;
            mret (if is_some e then refused else {| tr_Success := true; tr_Message := json_accepted +:+ "," +:+ quoted "canonical_apply" +:+ ":false}" |})
      end
  end.

Definition handleTool (job : ArchaeologyNativeJob) (call : ArchaeologyNativeToolCall) : proc ArchaeologyNativeToolResponse :=
  if seqb (tc_ThreadID call) "" || seqb (tc_TurnID call) "" then mret refused
  else if seqb (tc_Tool call) "commons_project_history_progress" then handleProgress job call
  else if seqb (tc_Tool call) "commons_project_history_report" then handleReport job call
  else mret refused.

Definition onTool (n : nat) (job : ArchaeologyNativeJob) (call : ArchaeologyNativeToolCall) : proc ArchaeologyNativeToolResponse :=
  done ← do_ (SWaitBoundOrDone n) ;
  if (done : bool) then mret refused
  else
    e ← do_ (SGetBindErr n) ;
    if is_some e then mret refused
    else
      admitted ← do_ SBeginCallback ;
      if negb admitted then mret refused
      else
        response ← handleTool job call ;
        do_ SEndCallback ;;
        mret response.

(** *** The loop *)

(** [drain], up to its claims: whether to go on to them *)
Definition drain : proc bool :=
  closing ← do_ SClosing ;
  if (closing : bool) then mret false
  else
    closing ← do_ SClosing ;
    if (closing : bool) then mret false
    else
      durableReady ← drainPersistence ;
      pendingReady ← drainPendingIntents ;
      when_ (durableReady && pendingReady) (do_ SClearIdle) ;;
      mret (durableReady && pendingReady).

(** One round of the claims of [drain]: whether there is another *)
Definition claim_round : proc bool :=
  cancelled ← do_ SCtxErr ;
  if (cancelled : bool) then mret false
  else
    blocked ← (if durable then mret false else do_ SBlocked) ;
    if (blocked : bool) then mret false
    else
      e ← Available ;
      if is_some e then mret false
      else
        busy ← do_ SAcquireTerminal ;
        if (busy : bool) then mret false
        else
          pending ← do_ SPendingLen ;
          if negb (pending =? 0)%nat then do_ SReleaseTerminal ;; mret false
          else
            latched ← do_ SLatched ;
            if (latched : bool) then do_ SReleaseTerminal ;; mret false
            else
              claimed ← do_ CClaim ;
              do_ SReleaseTerminal ;;
              match claimed with
              | inl _ => mret false
              | inr job => launch job ;; mret true
              end.

(** *** Requests *)

Definition expectedArchaeologyCancelError (e : Err) : bool :=
  bool_decide (e ∈ [ErrConflict; ErrInvalid; ErrNotFound; ErrSql (SqlFault FCanceled); ErrSql (SqlFault FDeadlineExceeded)]).

(** A failed read or write of [Cancel] that was not to be expected latches. *)
Definition record_unexpected (e : Err) : proc unit :=
  if expectedArchaeologyCancelError e then mret tt else recordPersistenceFailure (Some e) ;; mret tt.

Fixpoint interrupt_jobs (jobs : list ArchaeologyNativeJob) : proc unit :=
  match jobs with
  | [] => mret tt
  | job :: jobs =>
      (if seqb (nj_ThreadID job) "" || seqb (nj_TurnID job) "" then mret tt
       else
         e ← interruptNativeOnce job ;
         if negb (is_some e) then mret tt
         else if durable then
           applyPersistenceIntent (turn_intent "lose_turn" (nj_ID job) (nj_ThreadID job) "" (nj_TurnID job)) ;; mret tt
         else e ← do_ (CLose (nj_ID job) (nj_ThreadID job) (nj_TurnID job)) ; recordPersistenceFailure e ;; mret tt) ;;
      interrupt_jobs jobs
  end.

Definition Cancel : proc (option Err) :=
  blocked ← do_ SBlocked ;
  if (blocked : bool) then mret (Some ErrArchaeologySchedulerPersistenceFault)
  else
    r ← do_ CCancelBatch ;
    match r with
    | inl e => record_unexpected e ;; mret (Some e)
    | inr jobs =>
        interrupt_jobs jobs ;;
        Wake ;;
        session ← do_ CSession ;
        match session with
        | inl e => record_unexpected e ;; mret (Some e)
        | inr _ => mret None
        end
    end.

(** [queueNativeProjectArchaeology] *)
Definition queueNativeProjectArchaeology : proc (option Err) :=
  e ← Available ;
  if is_some e then mret (Some ErrUnavailable)
  else
    e ← do_ CQueue ;
    (if is_some e then mret tt else Wake) ;;
    mret e.

Definition Close : proc unit := do_ SSetClosing ;; do_ SCancel ;; do_ SWaitLoop ;; do_ SWaitCallbacks.

(** ** Running one program alone

    [env] answers the calls; it may look at what has happened so far. *)
Definition answers := forall a, sched -> result a.

Fixpoint run {A} (env : answers) (p : proc A) (s : sched) : option (sched * A) :=
  match p with
  | Ret x => Some (s, x)
  | Act a k => match perform a (env a s) s with Some (s, r) => run env (k r) s | None => None end
  end.

(** ** The system *)

Inductive request :=
  | RTerminal (n : nat) (t : ArchaeologyNativeTerminal) | RTool (n : nat) (call : ArchaeologyNativeToolCall)
  | RCancel | RQueue | RReconcile | RWake | RClose.

(** What a request runs; a callback belongs to a launch. *)
Definition program (r : request) (s : sched) : option (proc unit) :=
  match r with
  | RTerminal n t => (fun l => onTerminal n (lc_job l) t) <$> s_launches s !! n
  | RTool n call => (fun l => onTool n (lc_job l) call ;; mret tt) <$> s_launches s !! n
  | RCancel => Some (Cancel ;; mret tt)
  | RQueue => Some (queueNativeProjectArchaeology ;; mret tt)
  | RReconcile => Some (ClearPersistenceFault ;; mret tt)
  | RWake => Some Wake
  | RClose => Some Close
  end.

Inductive loop_state := LWait | LRun (p : proc bool) | LExited.

Record system := { y_sched : sched; y_loop : loop_state; y_threads : list (proc unit) }.

Definition advance {A} (p : proc A) (s : sched) (p' : proc A) (s' : sched) : Prop :=
  match p with
  | Ret _ => False
  | Act a k => exists answer r, perform a answer s = Some (s', r) /\ p' = k r
  end.

Inductive loop_step : sched -> loop_state -> sched -> loop_state -> Prop :=
  | loop_exits s : s_cancelled s = true ->
      loop_step s LWait (set_signals (s_wake s) (s_cancelled s) true s) LExited
  | loop_wakes s : s_wake s = true -> loop_step s LWait (set_signals false (s_cancelled s) (s_loopDone s) s) (LRun drain)
  | loop_ticks s : loop_step s LWait s (LRun drain)
  | loop_runs s p s' p' : advance p s p' s' -> loop_step s (LRun p) s' (LRun p')
  | loop_again s : loop_step s (LRun (Ret true)) s (LRun claim_round)
  | loop_waits s : loop_step s (LRun (Ret false)) s LWait.

Inductive sys_step : system -> system -> Prop :=
  | sys_loop s l ts s' l' : loop_step s l s' l' ->
      sys_step {| y_sched := s; y_loop := l; y_threads := ts |} {| y_sched := s'; y_loop := l'; y_threads := ts |}
  | sys_thread s l ts i p p' s' : ts !! i = Some p -> advance p s p' s' ->
      sys_step {| y_sched := s; y_loop := l; y_threads := ts |} {| y_sched := s'; y_loop := l; y_threads := <[i := p']> ts |}
  | sys_request s l ts r p : program r s = Some p ->
      sys_step {| y_sched := s; y_loop := l; y_threads := ts |} {| y_sched := s; y_loop := l; y_threads := ts ++ [p] |}.

(** The loop starts waiting for its first signal. *)
Definition started : system := {| y_sched := newArchaeologyScheduler; y_loop := LWait; y_threads := [] |}.
Definition reachable (y : system) : Prop := rtc sys_step started y.
End Programs.
