(* ===== verification/SchedulerSpec.v ===== *)
(** * The scheduler's guarantees in every interleaving

    A logic for programs over [act] ([wp]: a program keeps a protocol, given
    as a rule per act on a ghost state), the invariant of the system that the
    protocol of every thread maintains, and the theorems that follow: what
    holds when a job is claimed, that no intent is lost, that the latch covers
    what is only in memory, and that a turn is interrupted once. *)

From S2P Require Import Prelude GoText Framing CoreDB ProjectCore ArchDB ArchPolicy NativeJobs Ledger Scheduler.
From stdpp Require Import base gmap strings list pretty relations.
From Stdlib Require Import ZArith Lia.

Local Open Scope Z_scope.

(** ** The logic *)

Section Logic.
Context {G : Type} (rule : forall a, G -> (result a -> G -> Prop) -> Prop).

Fixpoint wp {A} (p : proc A) (g : G) (Q : A -> G -> Prop) : Prop :=
  match p with
  | Ret x => Q x g
  | Act a k => rule a g (fun r g => wp (k r) g Q)
  end.

Hypothesis rule_mono : forall a g (K K' : result a -> G -> Prop),
  (forall r g, K r g -> K' r g) -> rule a g K -> rule a g K'.

Lemma wp_mono {A} (p : proc A) g (Q Q' : A -> G -> Prop) : (forall x g, Q x g -> Q' x g) -> wp p g Q -> wp p g Q'.
Proof. intros HQ. revert g. induction p as [x|a k IH]; intros g; simpl; [auto|]. apply rule_mono. intros r g'. apply IH. Qed.

Lemma wp_bind {A B} (p : proc A) (f : A -> proc B) g Q : wp p g (fun x g => wp (f x) g Q) -> wp (p ≫= f) g Q.
Proof.
  revert g. induction p as [x|a k IH]; intros g; simpl; [done|]. apply rule_mono. intros r g'. apply IH.
Qed.
End Logic.

(** ** The protocol of a thread *)

(** What a thread holds: a flight, a terminal callback, a callback, the
    terminal mutex; whether it has seen the queue empty under the mutex;
    whether it has latched a failure in this flight; the key it must still
    queue, the key the ledger has taken, the intent it took off the queue, the
    job it has marked and not yet interrupted. *)
Record ghost := {
  h_loop : bool; h_flight : bool; h_term : bool; h_cb : bool; h_lock : bool; h_empty : bool; h_failed : bool;
  h_owed : option string; h_ensured : option string; h_popped : option ArchaeologyNativePersistenceIntent;
  h_token : option string }.

Definition rest (loop : bool) : ghost :=
  {| h_loop := loop; h_flight := false; h_term := false; h_cb := false; h_lock := false; h_empty := false; h_failed := false;
     h_owed := None; h_ensured := None; h_popped := None; h_token := None |}.

Definition in_flight (b : bool) (g : ghost) : ghost :=
  {| h_loop := h_loop g; h_flight := b; h_term := h_term g; h_cb := h_cb g; h_lock := h_lock g; h_empty := h_empty g;
     h_failed := false; h_owed := None; h_ensured := None; h_popped := None; h_token := h_token g |}.
Definition with_callback (term cb : bool) (g : ghost) : ghost :=
  {| h_loop := h_loop g; h_flight := h_flight g; h_term := term; h_cb := cb; h_lock := h_lock g; h_empty := h_empty g;
     h_failed := h_failed g; h_owed := h_owed g; h_ensured := h_ensured g; h_popped := h_popped g; h_token := h_token g |}.
Definition with_lock (lock empty : bool) (g : ghost) : ghost :=
  {| h_loop := h_loop g; h_flight := h_flight g; h_term := h_term g; h_cb := h_cb g; h_lock := lock; h_empty := empty;
     h_failed := h_failed g; h_owed := h_owed g; h_ensured := h_ensured g; h_popped := h_popped g; h_token := h_token g |}.
Definition with_failed (g : ghost) : ghost :=
  {| h_loop := h_loop g; h_flight := h_flight g; h_term := h_term g; h_cb := h_cb g; h_lock := h_lock g; h_empty := h_empty g;
     h_failed := h_flight g; h_owed := h_owed g; h_ensured := h_ensured g; h_popped := h_popped g; h_token := h_token g |}.
Definition with_intent (owed ensured : option string) (popped : option ArchaeologyNativePersistenceIntent) (g : ghost) : ghost :=
  {| h_loop := h_loop g; h_flight := h_flight g; h_term := h_term g; h_cb := h_cb g; h_lock := h_lock g; h_empty := h_empty g;
     h_failed := h_failed g; h_owed := owed; h_ensured := ensured; h_popped := popped; h_token := h_token g |}.
Definition with_token (token : option string) (g : ghost) : ghost :=
  {| h_loop := h_loop g; h_flight := h_flight g; h_term := h_term g; h_cb := h_cb g; h_lock := h_lock g; h_empty := h_empty g;
     h_failed := h_failed g; h_owed := h_owed g; h_ensured := h_ensured g; h_popped := h_popped g; h_token := token |}.

(** The ledger has taken the intent: [ensured] of [applyPersistenceIntentDetailed]. *)
Definition taken (r : Err + string * string) : bool := match r with inl _ => false | inr (id, _) => negb (seqb id "") end.

Definition protocol (a : act) (g : ghost) : (result a -> ghost -> Prop) -> Prop :=
  match a return (result a -> ghost -> Prop) -> Prop with
  | SBeginFlight => fun K => h_flight g = false /\ h_lock g = false /\ K tt (in_flight true g)
  | SEndFlight => fun K => h_flight g = true /\ h_owed g = None /\ h_popped g = None /\ K tt (in_flight false g)
  | SRecord _ _ => fun K => K tt (with_failed g)
  | CEnsure i => fun K => h_flight g = true /\ h_owed g = None /\ forall r,
      K r (if taken r then with_intent None (Some (persistenceIntentKey i)) (h_popped g) g
           else with_intent (Some (persistenceIntentKey i)) (h_ensured g) (h_popped g) g)
  | SEnqueue i => fun K => h_failed g = true /\ h_owed g = Some (persistenceIntentKey i) /\ K tt (with_intent None (h_ensured g) (h_popped g) g)
  | SPop => fun K => h_flight g = true /\ h_loop g = true /\ h_popped g = None /\ h_owed g = None /\
      forall r, K r (with_intent None (h_ensured g) r g)
  | SPushBack i => fun K => h_failed g = true /\ h_popped g = Some i /\ h_owed g = Some (persistenceIntentKey i) /\
      K tt (with_intent None (h_ensured g) None g)
  | SForget i => fun K => h_popped g = Some i /\ h_owed g = None /\ h_ensured g = Some (persistenceIntentKey i) /\
      K tt (with_intent None (h_ensured g) None g)
  | SBeginTerminal => fun K => h_term g = false /\ h_cb g = false /\ h_lock g = false /\ forall b : bool, K b (with_callback b b g)
  | SEndTerminal => fun K => h_term g = true /\ h_lock g = false /\ K tt (with_callback false (h_cb g) g)
  | SBeginCallback => fun K => h_term g = false /\ h_cb g = false /\ forall b : bool, K b (with_callback false b g)
  | SEndCallback => fun K => h_term g = false /\ h_cb g = true /\ K tt (with_callback false false g)
  | SAcquireTerminal => fun K => h_loop g = true /\ h_lock g = false /\ forall busy : bool, K busy (with_lock (negb busy) false g)
  | SReleaseTerminal => fun K => h_lock g = true /\ K tt (with_lock false false g)
  | SPendingLen => fun K => forall n, K n (with_lock (h_lock g) (h_lock g && (n =? 0)%nat) g)
  | CClaim => fun K => h_lock g = true /\ h_empty g = true /\ forall r, K r g
  | SMarkInterrupt key => fun K => h_token g = None /\ K true g /\ K false (with_token (Some key) g)
  | CInterrupt job => fun K => h_token g = Some (interrupt_key job) /\ forall r, K r (with_token None g)
  | _ => fun K => forall r, K r g
  end.

Lemma protocol_mono a g (K K' : result a -> ghost -> Prop) : (forall r g, K r g -> K' r g) -> protocol a g K -> protocol a g K'.
Proof. intros HK. destruct a; simpl; intros Hp; destruct_and?; split_and?; auto. Qed.

Notation keeps := (wp protocol).

Lemma keeps_seq {A B} (p : proc A) (f : A -> proc B) g Q : keeps p g (fun x g => keeps (f x) g Q) -> keeps (p ≫= f) g Q.
Proof. apply wp_bind, protocol_mono. Qed.

Lemma keeps_mono {A} (p : proc A) g (Q Q' : A -> ghost -> Prop) : (forall x g, Q x g -> Q' x g) -> keeps p g Q -> keeps p g Q'.
Proof. apply wp_mono, protocol_mono. Qed.

(** ** The programs keep the protocol *)

(** A thread between two flights. *)
Definition calm (loop term cb : bool) : ghost :=
  {| h_loop := loop; h_flight := false; h_term := term; h_cb := cb; h_lock := false; h_empty := false; h_failed := false;
     h_owed := None; h_ensured := None; h_popped := None; h_token := None |}.

(** A thread in flight, with the intent it took off the queue. *)
Definition flying (loop term cb failed : bool) (owed ensured : option string) (popped : option ArchaeologyNativePersistenceIntent)
    : ghost :=
  {| h_loop := loop; h_flight := true; h_term := term; h_cb := cb; h_lock := false; h_empty := false; h_failed := failed;
     h_owed := owed; h_ensured := ensured; h_popped := popped; h_token := None |}.

(** Runs a program symbolically: its acts by their rules, its branches by
    cases. *)
Ltac walk :=
  repeat first
    [ progress cbn [wp protocol proc_bind mbind proc_mbind mret proc_mret do_ when_ fst snd is_some negb andb orb taken]
    | match goal with
      | |- _ /\ _ => split
      | |- forall _, _ => intro
      | x : result _ |- _ => change unit in (type of x); destruct x
      | |- wp protocol ?p _ _ => match p with context [match negb ?x with _ => _ end] => destruct x eqn:? end
      | |- wp protocol ?p _ _ => match p with context [match ?x with _ => _ end] => destruct x eqn:? end
      end
    | progress unfold when_
    | reflexivity ].

Section Keeps.
Context `{ToolJSON} `{Sha256} (l t c : bool).

Lemma detailed_keeps i wakes failed popped Q :
  (forall e, Q (false, Some e) (flying l t c true (Some (persistenceIntentKey i)) None popped)) ->
  (forall e, Q (true, e) (flying l t c failed None (Some (persistenceIntentKey i)) popped)) ->
  keeps (applyPersistenceIntentDetailed true i wakes) (flying l t c failed None None popped) Q.
Proof.
  intros H1 H2. unfold applyPersistenceIntentDetailed, recordPersistenceFailureMode, recordPersistenceFailureSource, markPersistenceBacklog, Wake.
  walk. all: first [apply H1|apply H2].
Qed.

Lemma apply_keeps i Q : (forall e, Q e (calm l t c)) -> keeps (applyPersistenceIntent true i) (calm l t c) Q.
Proof.
  intros HQ. unfold applyPersistenceIntent. walk. apply keeps_seq, detailed_keeps; intros e; [|destruct e]; walk; apply HQ.
Qed.

Lemma queued_keeps i Q : Q tt (calm l t c) -> keeps (applyQueuedPersistenceIntent true i) (calm l t c) Q.
Proof.
  intros HQ. unfold applyQueuedPersistenceIntent. walk. apply keeps_seq, detailed_keeps; intros e; [|destruct e]; walk; apply HQ.
Qed.

Lemma record_keeps e d w Q : Q e (calm l t c) -> keeps (recordPersistenceFailureSource e d w) (calm l t c) Q.
Proof. intros HQ. unfold recordPersistenceFailureSource, Wake. destruct e; walk; exact HQ. Qed.

Lemma Available_keeps Q : (forall e, Q e (calm l t c)) -> keeps Available (calm l t c) Q.
Proof. intros HQ. unfold Available. walk; apply HQ. Qed.

Lemma interrupt_keeps job Q : (forall e, Q e (calm l t c)) -> keeps (interruptNativeOnce job) (calm l t c) Q.
Proof. intros HQ. unfold interruptNativeOnce. walk; apply HQ. Qed.

Context (durable : bool).

(** A write that goes through the ledger when there is one. *)
Lemma written_keeps (a : act) (f : result a -> option Err) i Q :
  (forall g (K : result a -> ghost -> Prop), (forall r, K r g) -> protocol a g K) -> (forall e, Q e (calm l t c)) ->
  keeps (if durable then applyPersistenceIntent durable i else e ← do_ a ; recordPersistenceFailure (f e)) (calm l t c) Q.
Proof. intros Ha HQ. destruct durable; [by apply apply_keeps|]. walk. apply Ha. intros r. apply record_keeps, HQ. Qed.

Lemma failStart_keeps job r u Q : (forall e, Q e (calm l t c)) -> keeps (failStart durable job r u) (calm l t c) Q.
Proof. unfold failStart. apply (written_keeps (CFailStart job r u) id). by intros g K HK. Qed.

Lemma bindIdentity_keeps job r Q : (forall e, Q e (calm l t c)) -> keeps (bindIdentity durable job r) (calm l t c) Q.
Proof. unfold bindIdentity. apply (written_keeps (CBind _ _ _ _) id). by intros g K HK. Qed.

Lemma activate_keeps job r Q : (forall e, Q e (calm l t c)) -> keeps (activate durable job r) (calm l t c) Q.
Proof. unfold activate. apply (written_keeps (CActivate _ _ _) id). by intros g K HK. Qed.

Lemma interrupt_accepted_keeps job r Q : Q tt (calm l t c) -> keeps (interrupt_accepted job r) (calm l t c) Q.
Proof. intros HQ. unfold interrupt_accepted. destruct (exact_turn r); walk; [|done]. by apply keeps_seq, interrupt_keeps. Qed.

Lemma abandon_keeps n job r Q : Q tt (calm l t c) -> keeps (abandon durable n job r) (calm l t c) Q.
Proof. intros HQ. unfold abandon. walk. apply keeps_seq, failStart_keeps. intros e. by apply interrupt_accepted_keeps. Qed.

Lemma launched_keeps n job cand r e Q : Q tt (calm l t c) -> keeps (launched durable n job cand r e) (calm l t c) Q.
Proof.
  intros HQ. unfold launched. walk.
  - apply keeps_seq, failStart_keeps. intros ?. walk. by apply interrupt_accepted_keeps.
  - by apply abandon_keeps.
  - apply keeps_seq, bindIdentity_keeps. intros e1. walk; [by apply abandon_keeps..|].
    apply keeps_seq, activate_keeps. intros e2. walk; [by apply abandon_keeps|done].
Qed.

Lemma launch_keeps job Q : Q tt (calm l t c) -> keeps (launch durable job) (calm l t c) Q.
Proof.
  intros HQ. unfold launch. walk; [by apply keeps_seq, failStart_keeps|by apply launched_keeps|by apply keeps_seq, failStart_keeps].
Qed.

Lemma settle_terminal_keeps job tm Q : Q tt (calm l t c) -> keeps (settle_terminal durable job tm) (calm l t c) Q.
Proof. intros HQ. unfold settle_terminal. destruct durable; walk; try (by apply queued_keeps); by apply keeps_seq, record_keeps. Qed.

Lemma handleTool_keeps job call Q : (forall r, Q r (calm l t c)) -> keeps (handleTool job call) (calm l t c) Q.
Proof.
  intros HQ. unfold handleTool, handleProgress, handleReport. walk; try apply HQ; apply keeps_seq, record_keeps; walk; apply HQ.
Qed.

Lemma record_unexpected_keeps e Q : Q tt (calm l t c) -> keeps (record_unexpected e) (calm l t c) Q.
Proof. intros HQ. unfold record_unexpected. walk; [done|]. by apply keeps_seq, record_keeps. Qed.

Lemma interrupt_jobs_keeps jobs Q : Q tt (calm l t c) -> keeps (interrupt_jobs durable jobs) (calm l t c) Q.
Proof.
  intros HQ. induction jobs as [|job jobs IH]; [done|]. cbn [interrupt_jobs]. apply keeps_seq.
  destruct (seqb (nj_ThreadID job) "" || seqb (nj_TurnID job) ""); [by walk|]. apply keeps_seq, interrupt_keeps. intros [e|]; [|by walk].
  cbn [is_some negb]. destruct durable; [by apply keeps_seq, apply_keeps|]. walk. by apply keeps_seq, record_keeps.
Qed.

Lemma Cancel_keeps Q : (forall e, Q e (calm l t c)) -> keeps (Scheduler.Cancel durable) (calm l t c) Q.
Proof.
  intros HQ. unfold Scheduler.Cancel, Wake. walk; [apply HQ| |].
  - apply keeps_seq, record_unexpected_keeps. walk. apply HQ.
  - apply keeps_seq, interrupt_jobs_keeps. walk; [|apply HQ]. apply keeps_seq, record_unexpected_keeps. walk. apply HQ.
Qed.
End Keeps.

Section Threads.
Context `{ToolJSON} `{Sha256} (durable : bool).

Definition finished {A} (loop : bool) (_ : A) (g : ghost) : Prop := g = rest loop.

Lemma onTerminal_keeps n job tm : keeps (onTerminal durable n job tm) (rest false) (finished false).
Proof.
  unfold onTerminal, Wake. walk. apply keeps_seq, keeps_seq. apply (settle_terminal_keeps false true true). walk.
Qed.

Lemma onTool_keeps n job call : keeps (onTool n job call ;; mret tt) (rest false) (finished false).
Proof.
  apply keeps_seq. unfold onTool. walk; try done. apply keeps_seq, (handleTool_keeps false false true). by walk.
Qed.

Lemma program_keeps r s p : program durable r s = Some p -> keeps p (rest false) (finished false).
Proof.
  intros Hp. destruct r; unfold program in Hp; first [apply fmap_Some in Hp as (x & _ & ->)|apply (inj Some) in Hp as <-].
  - apply onTerminal_keeps.
  - apply onTool_keeps.
  - by apply keeps_seq, (Cancel_keeps false false false).
  - apply keeps_seq. unfold queueNativeProjectArchaeology, Wake. apply keeps_seq, (Available_keeps false false false). by walk.
  - unfold ClearPersistenceFault. by walk.
  - by walk.
  - unfold Close. by walk.
Qed.

Lemma drain_pending_keeps budget Q : Q tt (rest true) -> keeps (drain_pending true budget) (rest true) Q.
Proof.
  intros HQ. induction budget as [|b IH]; [done|]. cbn [drain_pending]. walk; [|done].
  apply keeps_seq, (detailed_keeps true false false); intros e; [|destruct e]; by walk.
Qed.

Lemma drainPendingIntents_keeps d Q : (forall r, Q r (rest true)) -> keeps (drainPendingIntents d) (rest true) Q.
Proof. intros HQ. unfold drainPendingIntents. walk; try apply HQ. apply keeps_seq, drain_pending_keeps. walk. apply HQ. Qed.

Lemma drain_keeps : keeps (drain durable) (rest true) (finished true).
Proof.
  unfold drain. walk; try done. apply keeps_seq.
  unfold drainPersistence, recordPersistenceFailureMode, recordPersistenceFailureSource, Wake.
  walk; apply keeps_seq, drainPendingIntents_keeps; by walk.
Qed.

Lemma claim_round_keeps : keeps (claim_round durable) (rest true) (finished true).
Proof.
  unfold claim_round. walk; try done. all: apply keeps_seq, (Available_keeps true false false); walk; try done.
  all: apply keeps_seq, (launch_keeps true false false); by walk.
Qed.
End Threads.

(** ** The invariant *)

Definition ev_act (e : event) : act := match e with Ev a _ => a end.

Definition keys (s : sched) : list string := persistenceIntentKey <$> q_pending (s_queue s).

(** The intent was handed to the ledger, and the ledger has one of this key. *)
Definition submitted (s : sched) (i : ArchaeologyNativePersistenceIntent) : Prop := CEnsure i ∈ ev_act <$> w_trace s.
Definition recorded (s : sched) (key : string) : Prop :=
  exists i r, persistenceIntentKey i = key /\ taken r = true /\ Ev (CEnsure i) r ∈ w_trace s.

(** The turns interrupted so far. *)
Definition interrupts (s : sched) : list string :=
  omap (fun e => match ev_act e with CInterrupt job => Some (interrupt_key job) | _ => None end) (w_trace s).

Definition popped_key (g : ghost) : option string := persistenceIntentKey <$> h_popped g.
Definition cares (key : string) (g : ghost) : Prop := h_owed g = Some key \/ popped_key g = Some key.

(** What one thread's ghost state says about the scheduler. *)
Record fits (s : sched) (g : ghost) : Prop := {
  f_loop : if h_loop g then h_lock g = t_held (s_term s) else h_lock g = false /\ h_popped g = None;
  f_empty : h_empty g = true -> h_lock g = true /\ q_pending (s_queue s) = [];
  f_failed : h_failed g = true -> h_flight g = true /\ l_fault (s_latch s) <> None;
  f_hands : h_owed g <> None \/ h_popped g <> None -> h_flight g = true;
  f_ensured : forall k, h_ensured g = Some k -> recorded s k;
  f_popped : forall k, popped_key g = Some k -> k ∈ q_keys (s_queue s) /\ k ∉ keys s;
  f_token : forall k, h_token g = Some k -> k ∈ s_interrupted s /\ k ∉ interrupts s }.

Record consistent (s : sched) (G : list ghost) : Prop := {
  k_flights : t_flights (s_term s) = Z.of_nat (count h_flight G);
  k_terms : t_callbacks (s_term s) = Z.of_nat (count h_term G);
  k_cbs : g_callbacks (s_gate s) = Z.of_nat (count h_cb G);
  k_quiet : t_held (s_term s) = true -> t_flights (s_term s) = 0 /\ t_callbacks (s_term s) = 0;
  k_roles : forall j g, G !! j = Some g -> h_loop g = bool_decide (j = 0%nat);
  k_fits : Forall (fits s) G;
  k_latched : q_pending (s_queue s) <> [] -> l_fault (s_latch s) <> None;
  k_nodup : NoDup (keys s);
  k_known : forall k, k ∈ keys s -> k ∈ q_keys (s_queue s);
  k_keys : forall k, k ∈ q_keys (s_queue s) -> k ∈ keys s \/ Exists (fun g => popped_key g = Some k) G;
  k_kept : forall i, submitted s i ->
    recorded s (persistenceIntentKey i) \/ persistenceIntentKey i ∈ keys s \/ Exists (cares (persistenceIntentKey i)) G;
  k_tokens : forall i j g h k, G !! i = Some g -> G !! j = Some h -> h_token g = Some k -> h_token h = Some k -> i = j;
  k_once : NoDup (interrupts s); k_marked : forall k, k ∈ interrupts s -> k ∈ s_interrupted s }.

(** The parts of the scheduler the invariant looks at. *)
Record same_view (s s' : sched) : Prop := {
  v_term : s_term s' = s_term s; v_queue : s_queue s' = s_queue s; v_cbs : g_callbacks (s_gate s') = g_callbacks (s_gate s);
  v_fault : l_fault (s_latch s) <> None -> l_fault (s_latch s') <> None;
  v_submitted : forall i, submitted s' i -> submitted s i; v_recorded : forall k, recorded s k -> recorded s' k;
  v_interrupts : interrupts s' = interrupts s; v_marked : s_interrupted s' = s_interrupted s }.

Lemma fits_view s s' g : same_view s s' -> fits s g -> fits s' g.
Proof.
  intros [V1 V2 V3 V4 V5 V6 V7 V8] [F1 F2 F3 F4 F5 F6 F7]. constructor; rewrite ?V1, ?V2, ?V7, ?V8; auto.
  - intros Hf. destruct (F3 Hf). auto.
  - unfold keys. rewrite V2. auto.
Qed.

Lemma consistent_view s s' G : same_view s s' -> consistent s G -> consistent s' G.
Proof.
  intros Hv [K1 K2 K3 K4 K5 K6 K7 K8 K9 K10 K11 K12 K13 K14]. pose proof Hv as [V1 V2 V3 V4 V5 V6 V7 V8].
  constructor; unfold keys in *; rewrite ?V1, ?V2, ?V3, ?V7, ?V8; auto.
  - eapply Forall_impl; [exact K6|]. intros g. by apply fits_view.
  - intros i Hi. destruct (K11 i (V5 i Hi)) as [?|[?|?]]; auto.
Qed.

Lemma Exists_insert_cases {A} (P : A -> Prop) l j (x y : A) : l !! j = Some x -> Exists P l -> P x \/ Exists P (<[j := y]> l).
Proof.
  intros Hj (z & Hz & HP)%Exists_exists. apply list_elem_of_lookup in Hz as [i Hi]. destruct (decide (j = i)) as [<-|Hne].
  - left. by simplify_eq.
  - right. apply Exists_exists. exists z. split; [|done]. apply list_elem_of_lookup. exists i. by rewrite list_lookup_insert_ne.
Qed.

Lemma Exists_insert_new {A} (P : A -> Prop) l j (x y : A) : l !! j = Some x -> P y -> Exists P (<[j := y]> l).
Proof.
  intros Hj Hy. apply Exists_exists. exists y. split; [|done]. apply list_elem_of_lookup. exists j.
  apply list_lookup_insert_eq. by eapply lookup_lt_Some.
Qed.

Lemma Forall_insert_others {A} (P Q : A -> Prop) l j y :
  Forall P l -> Q y -> (forall i x, i <> j -> l !! i = Some x -> P x -> Q x) -> Forall Q (<[j := y]> l).
Proof.
  intros HP Hy Hx. apply Forall_lookup. intros i x Hi. apply list_lookup_insert_Some in Hi as [(<- & <- & _)|[Hne Hi]]; [done|].
  eapply Hx; [done..|]. by eapply Forall_lookup.
Qed.

Lemma tokens_insert (G : list ghost) (j : nat) g g' : G !! j = Some g -> h_token g' = h_token g ->
  (forall (i j : nat) g h k, G !! i = Some g -> G !! j = Some h -> h_token g = Some k -> h_token h = Some k -> i = j) ->
  forall (i m : nat) x y k, <[j := g']> G !! i = Some x -> <[j := g']> G !! m = Some y -> h_token x = Some k -> h_token y = Some k -> i = m.
Proof.
  intros Hj Ht Hu i m x y k Hi Hm Hx Hy. apply list_lookup_insert_Some in Hi as [(<- & <- & _)|[Hne Hi]];
    apply list_lookup_insert_Some in Hm as [(<- & <- & _)|[Hne' Hm]]; rewrite ?Ht in *; eauto.
Qed.

Definition b2z (b : bool) : Z := if b then 1 else 0.

(** One thread acts: what there is to show about the new state. *)
Lemma consistent_update s s' G j g g' :
  consistent s G -> G !! j = Some g -> h_loop g' = h_loop g -> h_token g' = h_token g ->
  interrupts s' = interrupts s -> s_interrupted s' = s_interrupted s ->
  t_flights (s_term s') = t_flights (s_term s) + b2z (h_flight g') - b2z (h_flight g) ->
  t_callbacks (s_term s') = t_callbacks (s_term s) + b2z (h_term g') - b2z (h_term g) ->
  g_callbacks (s_gate s') = g_callbacks (s_gate s) + b2z (h_cb g') - b2z (h_cb g) ->
  (t_held (s_term s') = true -> t_flights (s_term s') = 0 /\ t_callbacks (s_term s') = 0) ->
  fits s' g' -> (forall i x, i <> j -> G !! i = Some x -> fits s x -> fits s' x) ->
  (q_pending (s_queue s') <> [] -> l_fault (s_latch s') <> None) ->
  NoDup (keys s') -> (forall k, k ∈ keys s' -> k ∈ q_keys (s_queue s')) ->
  (forall k, k ∈ q_keys (s_queue s') -> k ∈ keys s' \/ popped_key g' = Some k \/
     (k ∈ q_keys (s_queue s) /\ k ∉ keys s /\ popped_key g <> Some k)) ->
  (forall i, submitted s' i -> let k := persistenceIntentKey i in recorded s' k \/ k ∈ keys s' \/ cares k g' \/
     (submitted s i /\ (recorded s k -> recorded s' k) /\ (k ∈ keys s -> k ∈ keys s' \/ cares k g') /\
      (cares k g -> recorded s' k \/ k ∈ q_keys (s_queue s') \/ cares k g'))) ->
  consistent s' (<[j := g']> G).
Proof.
  intros [K1 K2 K3 K4 K5 K6 K7 K8 K9 K10 K11 K12 K13 K14] Hj Hl Htok Hint Hmark U1 U2 U3 U4 U5 U6 U7 U8 U9 U10 U11.
  pose proof (count_list_insert h_flight G j g g' Hj) as C1. pose proof (count_list_insert h_term G j g g' Hj) as C2.
  pose proof (count_list_insert h_cb G j g g' Hj) as C3. unfold b2z in *.
  assert (forall k, k ∈ q_keys (s_queue s') -> k ∈ keys s' \/ Exists (fun g => popped_key g = Some k) (<[j := g']> G)) as Hkeys.
  { intros k Hk. destruct (U10 k Hk) as [?|[Hp|(Hq & Hn & Hp)]]; [by left|right; by eapply Exists_insert_new|].
    destruct (K10 k Hq) as [?|Hx]; [done|]. right. by apply (Exists_insert_cases _ _ _ _ g' Hj) in Hx as [?|?]. }
  constructor; try done.
  1-3: repeat case_match; lia.
  - intros i x Hi. apply list_lookup_insert_Some in Hi as [(<- & <- & _)|[_ Hi]]; [rewrite Hl|]; by apply K5.
  - by eapply Forall_insert_others.
  - intros i Hi. assert (cares (persistenceIntentKey i) g' -> Exists (cares (persistenceIntentKey i)) (<[j := g']> G)) as Hnew
      by (intros; by eapply Exists_insert_new).
    destruct (U11 i Hi) as [?|[?|[?|(Hs & Ha & Hb & Hc)]]]; [tauto..|]. destruct (K11 i Hs) as [Hr|[Hk|Hx]]; [tauto..|].
    apply (Exists_insert_cases _ _ _ _ g' Hj) in Hx as [Hx|Hx]; [|tauto]. destruct (Hc Hx) as [?|[Hq|?]]; [tauto| |tauto].
    right. destruct (Hkeys _ Hq) as [?|He]; [by left|right]. eapply Exists_impl; [exact He|]. intros x ?. by right.
  - intros i m x y k Hi Hm Hx Hy. by apply (tokens_insert G j g g' Hj Htok K12 i m x y k).
  - by rewrite Hint.
  - by rewrite Hint, Hmark.
Qed.

Lemma fits_ext s s' g :
  (h_loop g = true -> t_held (s_term s') = t_held (s_term s)) -> s_queue s' = s_queue s ->
  (l_fault (s_latch s) <> None -> l_fault (s_latch s') <> None) -> (forall k, recorded s k -> recorded s' k) ->
  interrupts s' = interrupts s -> s_interrupted s' = s_interrupted s ->
  fits s g -> fits s' g.
Proof.
  intros Ht Hq Hf Hr Hi Hm [F1 F2 F3 F4 F5 F6 F7]. constructor; rewrite ?Hq, ?Hi, ?Hm; auto.
  - destruct (h_loop g); [|done]. by rewrite Ht.
  - intros Hx. destruct (F3 Hx). auto.
  - unfold keys. rewrite Hq. auto.
Qed.

(** The loop is one thread. *)
Lemma only_loop s G j g i x : consistent s G -> G !! j = Some g -> h_loop g = true -> i <> j -> G !! i = Some x -> h_loop x = false.
Proof.
  intros K Hj Hg Hne Hi. rewrite (k_roles _ _ K _ _ Hi). rewrite (k_roles _ _ K _ _ Hj) in Hg.
  apply bool_decide_eq_true in Hg. apply bool_decide_eq_false. congruence.
Qed.

Lemma fits_at s G j g : consistent s G -> G !! j = Some g -> fits s g.
Proof. intros K Hj. eapply Forall_lookup; [apply (k_fits _ _ K)|done]. Qed.

(** A thread takes or returns a flight, a callback or the mutex. *)
Lemma consistent_hold s s' G j g g' :
  consistent s G -> G !! j = Some g -> h_loop g' = h_loop g -> h_owed g' = h_owed g -> h_popped g' = h_popped g ->
  h_token g' = h_token g -> s_interrupted s' = s_interrupted s -> s_queue s' = s_queue s -> s_latch s' = s_latch s -> w_trace s' = w_trace s ->
  (t_held (s_term s') = t_held (s_term s) \/ h_loop g = true) ->
  t_flights (s_term s') = t_flights (s_term s) + b2z (h_flight g') - b2z (h_flight g) ->
  t_callbacks (s_term s') = t_callbacks (s_term s) + b2z (h_term g') - b2z (h_term g) ->
  g_callbacks (s_gate s') = g_callbacks (s_gate s) + b2z (h_cb g') - b2z (h_cb g) ->
  (t_held (s_term s') = true -> t_flights (s_term s') = 0 /\ t_callbacks (s_term s') = 0) ->
  fits s' g' -> consistent s' (<[j := g']> G).
Proof.
  intros K Hj Hl Ho Hp Hto Hma Hq Hla Htr Hh U1 U2 U3 U4 U5. pose proof K as [K1 K2 K3 K4 K5 K6 K7 K8 K9 K10 K11 K12 K13 K14].
  assert (forall k, recorded s' k <-> recorded s k) as Hr by (intros k; unfold recorded; by rewrite Htr).
  assert (keys s' = keys s) as Hk by (unfold keys; by rewrite Hq).
  assert (interrupts s' = interrupts s) as Hint by (unfold interrupts; by rewrite Htr).
  eapply consistent_update; eauto; rewrite ?Hk, ?Hq, ?Hla; auto.
  - intros i x Hne Hi. apply fits_ext; [|done|by rewrite Hla|intros; by apply Hr|done..].
    destruct Hh as [?|Hh]; [done|]. by rewrite (only_loop s G j g i x K Hj Hh Hne Hi).
  - intros k Hk'. unfold popped_key. rewrite Hp. fold (popped_key g). destruct (decide (k ∈ keys s)); [by left|right].
    destruct (decide (popped_key g = Some k)); auto.
  - intros i Hi k. right. right. right. split_and!; [unfold submitted in *; by rewrite <- Htr|by rewrite Hr|by left|].
    unfold cares, popped_key. rewrite Ho, Hp. auto.
Qed.

Lemma count_zero {A} (f : A -> bool) l x : count f l = 0%nat -> x ∈ l -> f x = false.
Proof.
  intros Hc Hx. apply Is_true_false. intros Hf%Is_true_true. revert Hc.
  induction l as [|y l IH]; [by apply not_elem_of_nil in Hx|]. apply elem_of_cons in Hx as [<-|Hx]; simpl; [rewrite Hf; lia|].
  specialize (IH Hx). lia.
Qed.

Lemma set_latch_view l s : (l_fault (s_latch s) <> None -> l_fault l <> None) -> same_view s (set_latch l s).
Proof. by constructor. Qed.

Lemma wake_view s : same_view s (wake s).
Proof. unfold wake. destruct (s_cancelled s); by constructor. Qed.

Lemma same_view_trans s1 s2 s3 : same_view s1 s2 -> same_view s2 s3 -> same_view s1 s3.
Proof. intros [] []; constructor; eauto; congruence. Qed.

Lemma log_view a (r : result a) s : (forall i, a <> CEnsure i) -> (forall job, a <> CInterrupt job) -> same_view s (log (Ev a r) s).
Proof.
  intros Ha Hb. constructor; try done.
  - unfold submitted. intros i. cbn [w_trace log]. rewrite fmap_app, elem_of_app. intros [?|Hi]; [done|].
    apply list_elem_of_singleton in Hi. by destruct (Ha i).
  - intros k (i & r' & Hk & Ht & Hi). exists i, r'. split_and!; [done..|]. cbn [w_trace log]. apply elem_of_app. by left.
  - unfold interrupts. cbn [w_trace log]. rewrite omap_app. simpl. destruct a; try (by rewrite app_nil_r). by destruct (Hb job).
Qed.

(** The latch may be cleared when nothing is in flight and nothing queued. *)
Lemma cleared_consistent s G l :
  consistent s G -> t_flights (s_term s) = 0 -> q_pending (s_queue s) = [] -> consistent (set_latch l s) G.
Proof.
  intros [K1 K2 K3 K4 K5 K6 K7 K8 K9 K10 K11 K12 K13 K14] Hf Hq. constructor; try done.
  assert (count h_flight G = 0%nat) as Hc by lia. apply Forall_forall. intros g Hg.
  pose proof (count_zero _ _ _ Hc Hg) as Hfl. rewrite Forall_forall in K6. destruct (K6 g Hg) as [F1 F2 F3 F4 F5 F6 F7].
  constructor; auto. intros Hx. destruct (F3 Hx). congruence.
Qed.

Lemma idle_inv s : idle s = true -> t_callbacks (s_term s) = 0 /\ t_flights (s_term s) = 0.
Proof. unfold idle. intros [H1%Z.eqb_eq H2%Z.eqb_eq]%andb_true_iff. done. Qed.

Lemma clear_fault_ok s G n s' r : consistent s G -> clear_fault n s = (s', r) -> consistent s' G.
Proof.
  intros K. unfold clear_fault. destruct (idle s) eqn:Hi; simpl; [|intros; by simplify_eq].
  destruct (q_pending (s_queue s)) eqn:Hq; [|intros; by simplify_eq].
  destruct (l_seq (s_latch s) =? n); simpl; [|intros; by simplify_eq]. intros Hs. injection Hs as <- _.
  eapply consistent_view; [apply wake_view|]. apply idle_inv in Hi as [_ Hi]. by apply cleared_consistent.
Qed.

Lemma clear_idle_ok s G : consistent s G -> consistent (clearAutomaticPersistenceLatchIfIdle s) G.
Proof.
  intros K. unfold clearAutomaticPersistenceLatchIfIdle. destruct (idle s) eqn:Hi; simpl; [|done].
  destruct (q_pending (s_queue s)) eqn:Hq; [|done]. destruct (l_manual (s_latch s)); [done|].
  apply idle_inv in Hi as [_ Hi]. by apply cleared_consistent.
Qed.

(** ** Every act keeps the invariant *)

Section Acts.
Context (s : sched) (G : list ghost) (j : nat) (g : ghost) (K : consistent s G) (Hj : G !! j = Some g).

Lemma stays s' : same_view s s' -> consistent s' (<[j := g]> G).
Proof. intros Hv. rewrite list_insert_id by done. by eapply consistent_view. Qed.

Lemma no_hands : h_flight g = false -> h_owed g = None /\ h_popped g = None /\ h_failed g = false.
Proof.
  intros Hf. destruct (fits_at _ _ _ _ K Hj) as [F1 F2 F3 F4 F5 F6 F7].
  destruct (h_owed g) eqn:E1; [by rewrite F4 in Hf by (left; done)|]. destruct (h_popped g) eqn:E2; [by rewrite F4 in Hf by (right; done)|].
  destruct (h_failed g) eqn:E3; [|done]. destruct (F3 eq_refl). congruence.
Qed.

Lemma free_lock : h_lock g = false -> h_loop g = true -> t_held (s_term s) = false.
Proof. intros Hl Hg. pose proof (f_loop _ _ (fits_at _ _ _ _ K Hj)) as F. rewrite Hg in F. congruence. Qed.

Lemma begin_flight_ok :
  h_flight g = false -> t_held (s_term s) = false ->
  consistent (set_counts (t_callbacks (s_term s)) (t_flights (s_term s) + 1) s) (<[j := in_flight true g]> G).
Proof.
  intros Hf Hh. destruct (no_hands Hf) as (Ho & Hp & Hfa). destruct (fits_at _ _ _ _ K Hj) as [F1 F2 F3 F4 F5 F6 F7].
  eapply consistent_hold; eauto; simpl; rewrite ?Hf, ?Ho, ?Hp; simpl; try lia; auto; [by rewrite Hh|].
  constructor; simpl; auto; try done. by rewrite Hp in F1.
Qed.

Lemma end_flight_ok :
  h_flight g = true -> h_owed g = None -> h_popped g = None -> t_held (s_term s) = false ->
  consistent (set_counts (t_callbacks (s_term s)) (if 0 <? t_flights (s_term s) then t_flights (s_term s) - 1 else t_flights (s_term s)) s)
    (<[j := in_flight false g]> G).
Proof.
  intros Hf Ho Hp Hh. destruct (fits_at _ _ _ _ K Hj) as [F1 F2 F3 F4 F5 F6 F7].
  assert (0 < t_flights (s_term s)) as Hpos.
  { rewrite (k_flights _ _ K). destruct (count h_flight G) eqn:E; [|lia].
    rewrite (count_zero _ _ g E) in Hf; [done|]. by eapply list_elem_of_lookup_2. }
  rewrite (proj2 (Z.ltb_lt _ _) Hpos). eapply consistent_hold; eauto; simpl; rewrite ?Hf, ?Ho, ?Hp; simpl; try lia; auto; [by rewrite Hh|].
  constructor; simpl; auto; try done; [by rewrite Hp in F1|by intros [?|?]].
Qed.

(** A callback begins or ends. *)
Lemma callback_ok s' term cb :
  s_queue s' = s_queue s -> s_latch s' = s_latch s -> w_trace s' = w_trace s -> s_interrupted s' = s_interrupted s ->
  t_held (s_term s') = t_held (s_term s) -> t_flights (s_term s') = t_flights (s_term s) ->
  t_callbacks (s_term s') = t_callbacks (s_term s) + b2z term - b2z (h_term g) ->
  g_callbacks (s_gate s') = g_callbacks (s_gate s) + b2z cb - b2z (h_cb g) ->
  (t_held (s_term s) = true -> t_callbacks (s_term s') = t_callbacks (s_term s)) ->
  consistent s' (<[j := with_callback term cb g]> G).
Proof.
  intros Hq Hl Ht Hm Hh U1 U2 U3 U4. pose proof (k_quiet _ _ K) as Hquiet. destruct (fits_at _ _ _ _ K Hj) as [F1 F2 F3 F4 F5 F6 F7].
  eapply consistent_hold; eauto; simpl; try lia.
  - rewrite Hh. intros Hx. rewrite U1, U4 by done. auto.
  - constructor; simpl; rewrite ?Hq, ?Hl, ?Hh, ?Hm; auto; unfold keys, recorded, interrupts; rewrite ?Hq, ?Ht; auto.
Qed.

Lemma acquire_ok busy s' :
  h_loop g = true -> h_lock g = false ->
  (if idle s then (set_term {| t_callbacks := t_callbacks (s_term s); t_flights := t_flights (s_term s); t_held := true |} s, false)
   else (s, true)) = (s', busy) ->
  consistent s' (<[j := with_lock (negb busy) false g]> G).
Proof.
  intros Hg Hl Hs. pose proof (free_lock Hl Hg) as Hh. destruct (fits_at _ _ _ _ K Hj) as [F1 F2 F3 F4 F5 F6 F7].
  destruct (idle s) eqn:Hi; injection Hs as <- <-.
  - apply idle_inv in Hi as [Hi1 Hi2]. eapply consistent_hold; eauto; simpl; try lia; auto. constructor; simpl; auto; try done. by rewrite Hg.
  - eapply consistent_hold; eauto; simpl; try lia; [by rewrite Hh|]. constructor; simpl; auto; try done. by rewrite Hg.
Qed.

Lemma release_ok :
  h_lock g = true ->
  consistent (set_term {| t_callbacks := t_callbacks (s_term s); t_flights := t_flights (s_term s); t_held := false |} s)
    (<[j := with_lock false false g]> G).
Proof.
  intros Hl. destruct (fits_at _ _ _ _ K Hj) as [F1 F2 F3 F4 F5 F6 F7].
  destruct (h_loop g) eqn:Hg; [|destruct F1; congruence].
  eapply consistent_hold; eauto; simpl; try lia. constructor; simpl; auto; try done. by rewrite Hg.
Qed.

Lemma pending_len_ok :
  consistent s (<[j := with_lock (h_lock g) (h_lock g && (length (q_pending (s_queue s)) =? 0)%nat) g]> G).
Proof.
  destruct (fits_at _ _ _ _ K Hj) as [F1 F2 F3 F4 F5 F6 F7]. eapply consistent_hold; eauto; simpl; try lia; [apply (k_quiet _ _ K)|].
  constructor; simpl; auto. intros [Hl Hn%Nat.eqb_eq]%andb_true_iff. split; [done|]. by apply nil_length_inv.
Qed.

Lemma record_latches e d : l_fault (record_failure e d (s_latch s)) <> None.
Proof. simpl. by destruct (l_fault (s_latch s)). Qed.

Lemma record_ok e d : consistent (set_latch (record_failure e d (s_latch s)) s) (<[j := with_failed g]> G).
Proof.
  pose proof (record_latches e d) as Hn.
  assert (consistent (set_latch (record_failure e d (s_latch s)) s) G) as K'.
  { eapply consistent_view; [by apply set_latch_view|done]. }
  destruct (fits_at _ _ _ _ K' Hj) as [F1 F2 F3 F4 F5 F6 F7]. eapply consistent_hold; eauto; simpl; try lia; [apply (k_quiet _ _ K)|].
  by constructor.
Qed.

(** A thread puts an intent back, or lets go of it: the rest is as before. *)
Lemma queue_ok q g' :
  h_loop g' = h_loop g -> h_flight g' = h_flight g -> h_term g' = h_term g -> h_cb g' = h_cb g ->
  h_token g' = h_token g -> let s' := set_queue q s in
  fits s' g' -> (forall i x, i <> j -> G !! i = Some x -> fits s x -> fits s' x) ->
  (q_pending q <> [] -> l_fault (s_latch s) <> None) -> NoDup (keys s') -> (forall k, k ∈ keys s' -> k ∈ q_keys q) ->
  (forall k, k ∈ q_keys q -> k ∈ keys s' \/ popped_key g' = Some k \/
     (k ∈ q_keys (s_queue s) /\ k ∉ keys s /\ popped_key g <> Some k)) ->
  (forall k, k ∈ keys s -> k ∈ keys s' \/ cares k g') -> (forall k, cares k g -> recorded s k \/ k ∈ q_keys q \/ cares k g') ->
  consistent s' (<[j := g']> G).
Proof.
  intros H1 H2 H3 H4 H5 s' U1 U2 U3 U4 U5 U6 U7 U8. eapply consistent_update; eauto; rewrite ?H2, ?H3, ?H4; simpl; try lia.
  - apply (k_quiet _ _ K).
  - intros i Hi. right. right. right. split_and!; auto. exact (U8 _).
Qed.

(** Another thread still fits when intents are added to the queue and no key
    it holds is among them. *)
Lemma fits_queue q x :
  fits s x -> (h_empty x = true -> q_pending q = []) ->
  (forall k, popped_key x = Some k -> k ∈ q_keys q /\ k ∉ persistenceIntentKey <$> q_pending q) -> fits (set_queue q s) x.
Proof. intros [F1 F2 F3 F4 F5 F6 F7] H1 H2. constructor; auto. intros Hx. destruct (F2 Hx). auto. Qed.

(** While a thread is in flight, nobody holds the mutex. *)
Lemma flight_unlocked i x : h_flight g = true -> G !! i = Some x -> h_empty x = false.
Proof.
  intros Hf Hi. destruct (fits_at _ _ _ _ K Hi) as [F1 F2 F3 F4 F5 F6 F7]. destruct (h_empty x) eqn:E; [|done].
  destruct (F2 eq_refl) as [Hl _]. destruct (h_loop x); [|destruct F1; congruence].
  destruct (k_quiet _ _ K) as [Hz _]; [congruence|]. rewrite (k_flights _ _ K) in Hz.
  rewrite (count_zero h_flight G g) in Hf; [done|lia|by eapply list_elem_of_lookup_2].
Qed.

Lemma plain_popped i x k : h_loop g = true -> i <> j -> G !! i = Some x -> popped_key x <> Some k.
Proof.
  intros Hg Hne Hi. pose proof (f_loop _ _ (fits_at _ _ _ _ K Hi)) as F. rewrite (only_loop _ _ _ _ _ _ K Hj Hg Hne Hi) in F.
  destruct F as [_ F]. unfold popped_key. by rewrite F.
Qed.

Lemma keys_app q i : q_pending q = q_pending (s_queue s) ++ [i] -> keys (set_queue q s) = keys s ++ [persistenceIntentKey i].
Proof. intros Hq. unfold keys. simpl. by rewrite Hq, fmap_app. Qed.

Lemma nodup_snoc i : persistenceIntentKey i ∉ keys s -> NoDup (keys s ++ [persistenceIntentKey i]).
Proof.
  intros Hn. apply NoDup_app. split_and!; [apply (k_nodup _ _ K)| |apply NoDup_singleton].
  intros k Hk Hx%list_elem_of_singleton. congruence.
Qed.

Lemma enqueue_ok i :
  h_failed g = true -> h_owed g = Some (persistenceIntentKey i) ->
  consistent (set_queue (enqueuePendingIntentLocked i (s_queue s)) s) (<[j := with_intent None (h_ensured g) (h_popped g) g]> G).
Proof.
  intros Hfa Ho. pose proof (fits_at _ _ _ _ K Hj) as [F1 F2 F3 F4 F5 F6 F7]. destruct (F3 Hfa) as [Hf Hfault].
  pose proof (flight_unlocked j g Hf Hj) as He. unfold enqueuePendingIntentLocked. case_decide as Hin.
  - apply queue_ok; try done.
    + intros m x _ _ Fx. apply fits_queue; [done|intros Hx; by apply Fx|apply Fx].
    + apply (k_nodup _ _ K).
    + apply (k_known _ _ K).
    + intros k Hk. destruct (decide (k ∈ keys s)); [by left|right]. destruct (decide (popped_key g = Some k)); auto.
    + intros k Hk. by left.
    + intros k [Hk|Hk]; [|by right; right; right]. right. left. congruence.
  - set (q := {| q_pending := _; q_keys := _ |}). pose proof (keys_app q i eq_refl) as Hk'.
    assert (persistenceIntentKey i ∉ keys s) as Hn by (intros Hx; by apply Hin, (k_known _ _ K)).
    assert (forall k, k ≠ persistenceIntentKey i -> k ∈ q_keys (s_queue s) /\ k ∉ keys s -> k ∈ q_keys q /\ k ∉ keys (set_queue q s)) as Hold.
    { intros k Hne [H1 H2]. rewrite Hk'. simpl. set_solver. }
    assert (forall x k, fits s x -> popped_key x = Some k -> k ≠ persistenceIntentKey i) as Hpk.
    { intros x k Fx Hx ->. destruct (f_popped _ _ Fx _ Hx) as [? _]. done. }
    apply queue_ok; try done.
    + constructor; simpl; auto; [congruence|]. intros k Hk. apply Hold; [|by apply F6]. by eapply (Hpk g).
    + intros m x _ Hm Fx. apply fits_queue; [done|by rewrite (flight_unlocked m x Hf Hm)|]. intros k Hk. apply Hold; [by eapply Hpk|]. by apply Fx.
    + rewrite Hk'. by apply nodup_snoc.
    + intros k. rewrite Hk'. simpl. pose proof (k_known _ _ K k). set_solver.
    + intros k Hk. rewrite Hk'. simpl in Hk. destruct (decide (k ∈ keys s)); [left; set_solver|].
      destruct (decide (k = persistenceIntentKey i)); [left; set_solver|right]. destruct (decide (popped_key g = Some k)); [by left|right]. set_solver.
    + intros k Hk. left. rewrite Hk'. set_solver.
    + intros k [Hk|Hk]; [|by right; right; right]. right. left. simpl. set_solver.
Qed.

Lemma pop_ok i rest_ :
  h_flight g = true -> h_loop g = true -> h_popped g = None -> h_owed g = None -> q_pending (s_queue s) = i :: rest_ ->
  consistent (set_queue {| q_pending := rest_; q_keys := q_keys (s_queue s) |} s) (<[j := with_intent None (h_ensured g) (Some i) g]> G).
Proof.
  intros Hf Hg Hp Ho Hq. pose proof (fits_at _ _ _ _ K Hj) as [F1 F2 F3 F4 F5 F6 F7].
  assert (keys s = persistenceIntentKey i :: (persistenceIntentKey <$> rest_)) as Hk by (unfold keys; by rewrite Hq).
  pose proof (k_nodup _ _ K) as Hnd. rewrite Hk in Hnd. apply NoDup_cons in Hnd as [Hn Hnd].
  apply queue_ok; try done.
  - constructor; simpl; auto.
    + rewrite Hg in *. done.
    + by rewrite (flight_unlocked j g Hf Hj).
    + intros k [= <-]. split; [|done]. apply (k_known _ _ K). rewrite Hk. set_solver.
  - intros m x Hne Hm Fx. apply fits_queue; [done|by rewrite (flight_unlocked m x Hf Hm)|]. intros k Hx. by apply (plain_popped m x k) in Hx.
  - simpl. intros _. apply (k_latched _ _ K). by rewrite Hq.
  - intros k Hx. apply (k_known _ _ K). rewrite Hk. unfold keys in Hx. simpl in Hx. set_solver.
  - intros k Hx. destruct (decide (k ∈ keys s)) as [Hin|]; [|right; right; split_and!; [done..|unfold popped_key; by rewrite Hp]].
    rewrite Hk in Hin. apply elem_of_cons in Hin as [->|Hin]; [by right; left|by left].
  - intros k Hin. rewrite Hk in Hin. apply elem_of_cons in Hin as [->|Hin]; [by right; right|by left].
  - intros k [Hx|Hx]; [congruence|]. unfold popped_key in Hx. by rewrite Hp in Hx.
Qed.

Lemma pushback_ok i :
  h_failed g = true -> h_popped g = Some i -> h_owed g = Some (persistenceIntentKey i) ->
  consistent (set_queue {| q_pending := q_pending (s_queue s) ++ [i]; q_keys := q_keys (s_queue s) |} s)
    (<[j := with_intent None (h_ensured g) None g]> G).
Proof.
  intros Hfa Hp Ho. pose proof (fits_at _ _ _ _ K Hj) as [F1 F2 F3 F4 F5 F6 F7]. destruct (F3 Hfa) as [Hf Hfault].
  assert (h_loop g = true) as Hg by (destruct (h_loop g); [done|destruct F1; congruence]). rewrite Hg in F1.
  assert (popped_key g = Some (persistenceIntentKey i)) as Hpk by (unfold popped_key; by rewrite Hp). destruct (F6 _ Hpk) as [Hq Hn].
  set (q := {| q_pending := _; q_keys := _ |}). pose proof (keys_app q i eq_refl) as Hk'. apply queue_ok; try done.
  - constructor; simpl; auto; [by rewrite Hg|by rewrite (flight_unlocked j g Hf Hj)|done].
  - intros m x Hne Hm Fx. apply fits_queue; [done|by rewrite (flight_unlocked m x Hf Hm)|]. intros k Hx. by apply (plain_popped m x k) in Hx.
  - rewrite Hk'. by apply nodup_snoc.
  - intros k. rewrite Hk'. simpl. pose proof (k_known _ _ K k). set_solver.
  - intros k Hx. simpl in Hx. rewrite Hk'. destruct (decide (k ∈ keys s)); [left; set_solver|].
    destruct (decide (k = persistenceIntentKey i)) as [->|Hne]; [left; set_solver|right; right]. split_and!; [done..|]. rewrite Hpk. congruence.
  - intros k Hx. left. rewrite Hk'. set_solver.
  - intros k Hx. right. left. destruct Hx as [Hx|Hx]; rewrite ?Ho, ?Hpk in Hx; by simplify_eq.
Qed.

Lemma forget_ok i :
  h_popped g = Some i -> h_owed g = None -> h_ensured g = Some (persistenceIntentKey i) ->
  consistent (set_queue {| q_pending := q_pending (s_queue s); q_keys := q_keys (s_queue s) ∖ {[persistenceIntentKey i]} |} s)
    (<[j := with_intent None (h_ensured g) None g]> G).
Proof.
  intros Hp Ho He. pose proof (fits_at _ _ _ _ K Hj) as [F1 F2 F3 F4 F5 F6 F7]. assert (h_flight g = true) as Hf by (apply F4; right; by rewrite Hp).
  assert (h_loop g = true) as Hg by (destruct (h_loop g); [done|destruct F1; congruence]). rewrite Hg in F1.
  assert (popped_key g = Some (persistenceIntentKey i)) as Hpk by (unfold popped_key; by rewrite Hp). destruct (F6 _ Hpk) as [Hq Hn].
  apply queue_ok; try done.
  - constructor; simpl; auto; [by rewrite Hg|done].
  - intros m x Hne Hm Fx. apply fits_queue; [done|by rewrite (flight_unlocked m x Hf Hm)|]. intros k Hx. by apply (plain_popped m x k) in Hx.
  - apply (k_latched _ _ K).
  - apply (k_nodup _ _ K).
  - intros k Hk. simpl. assert (k ≠ persistenceIntentKey i) by (intros ->; done). pose proof (k_known _ _ K k Hk). set_solver.
  - intros k Hx. simpl in Hx. destruct (decide (k ∈ keys s)); [by left|right; right]. split_and!; [set_solver|done|]. rewrite Hpk. set_solver.
  - intros k Hx. by left.
  - intros k [Hx|Hx]; [congruence|]. left. rewrite Hpk in Hx. simplify_eq. by apply F5.
Qed.

Lemma ensure_ok i (r : Err + string * string) :
  h_flight g = true -> h_owed g = None ->
  consistent (log (Ev (CEnsure i) r) s)
    (<[j := if taken r then with_intent None (Some (persistenceIntentKey i)) (h_popped g) g
            else with_intent (Some (persistenceIntentKey i)) (h_ensured g) (h_popped g) g]> G).
Proof.
  intros Hf Ho. pose proof (fits_at _ _ _ _ K Hj) as F. set (s' := log _ s).
  assert (forall k, recorded s k -> recorded s' k) as Hr.
  { intros k (i' & r' & Hk & Ht & Hi). exists i', r'. split_and!; [done..|]. unfold s'. cbn [w_trace log]. apply elem_of_app. by left. }
  assert (taken r = true -> recorded s' (persistenceIntentKey i)) as Hnew.
  { intros Ht. exists i, r. split_and!; [done..|]. unfold s'. cbn [w_trace log]. set_solver. }
  assert (interrupts s' = interrupts s) as Hint.
  { unfold interrupts, s'. cbn [w_trace log]. rewrite omap_app. simpl. by rewrite app_nil_r. }
  assert (forall x, fits s x -> fits s' x) as Hfit by (intros x; by apply fits_ext).
  assert (forall i', submitted s' i' -> i' = i \/ submitted s i') as Hsub.
  { intros i'. unfold submitted, s'. cbn [w_trace log]. rewrite fmap_app, elem_of_app. intros [?|Hi]; [by right|left].
    apply list_elem_of_singleton in Hi. simpl in Hi. congruence. }
  eapply consistent_update; eauto; try (destruct (taken r); simpl; lia); try apply K.
  - by destruct (taken r).
  - by destruct (taken r).
  - destruct (Hfit g F) as [F1 F2 F3 F4 F5 F6 F7]. destruct (taken r); constructor; simpl; auto. intros k [= <-]. auto.
  - intros k Hk. destruct (decide (k ∈ keys s)); [by left|right]. destruct (decide (popped_key g = Some k)); [left|by right].
    by destruct (taken r).
  - intros i' Hi k. destruct (Hsub i' Hi) as [->|Hs].
    + destruct (taken r) eqn:Ht; [left; auto|right; right; left; by left].
    + right. right. right. split_and!; [done|auto|by left|]. intros [Hc|Hc]; [congruence|]. right. right. right. by destruct (taken r).
Qed.

(** A turn is marked, or interrupted: only the token changes. *)
Lemma token_ok s' token :
  s_term s' = s_term s -> s_queue s' = s_queue s -> s_gate s' = s_gate s -> s_latch s' = s_latch s ->
  (forall i, submitted s' i -> submitted s i) -> (forall k, recorded s k -> recorded s' k) ->
  (forall i x k, i <> j -> G !! i = Some x -> h_token x = Some k -> k ∈ s_interrupted s' /\ k ∉ interrupts s' /\ token <> Some k) ->
  (forall k, token = Some k -> k ∈ s_interrupted s' /\ k ∉ interrupts s') ->
  NoDup (interrupts s') -> (forall k, k ∈ interrupts s' -> k ∈ s_interrupted s') ->
  consistent s' (<[j := with_token token g]> G).
Proof.
  intros E1 E2 E3 E4 Hs Hr Hothers Htok Hnd Hmark. pose proof K as [K1 K2 K3 K4 K5 K6 K7 K8 K9 K10 K11 K12 K13 K14].
  assert (forall x t, fits s x -> (forall k, t = Some k -> k ∈ s_interrupted s' /\ k ∉ interrupts s') -> fits s' (with_token t x)) as Hfit.
  { intros x t [F1 F2 F3 F4 F5 F6 F7] Ht. constructor; simpl; unfold keys; rewrite ?E1, ?E2, ?E4; auto. }
  pose proof (count_list_insert h_flight G j g (with_token token g) Hj) as C1. pose proof (count_list_insert h_term G j g (with_token token g) Hj) as C2.
  pose proof (count_list_insert h_cb G j g (with_token token g) Hj) as C3. simpl in C1, C2, C3.
  constructor; unfold keys in *; rewrite ?E1, ?E2, ?E3, ?E4; auto; try lia.
  - intros i x Hi. apply list_lookup_insert_Some in Hi as [(<- & <- & _)|[_ Hi]]; [simpl|]; by apply K5.
  - eapply Forall_insert_others; [exact K6|apply Hfit; [by eapply fits_at|done]|]. intros i x Hne Hi Fx.
    assert (with_token (h_token x) x = x) as Ex by (by destruct x). rewrite <- Ex. apply Hfit; [done|]. intros k Hk.
    by destruct (Hothers i x k Hne Hi Hk) as (? & ? & _).
  - intros k Hk. destruct (K10 k Hk); [by left|right]. by eapply Exists_insert.
  - intros i Hi. destruct (K11 i (Hs i Hi)) as [?|[?|?]]; [auto..|right; right]. by eapply Exists_insert.
  - intros i m x y k Hi Hm Hx Hy. apply list_lookup_insert_Some in Hi as [(<- & <- & _)|[Hne Hi]];
      apply list_lookup_insert_Some in Hm as [(<- & <- & _)|[Hne' Hm]]; simpl in *; eauto.
    + by destruct (Hothers m y k (not_eq_sym Hne') Hm Hy) as (_ & _ & ?).
    + by destruct (Hothers i x k (not_eq_sym Hne) Hi Hx) as (_ & _ & ?).
Qed.

Lemma mark_ok key :
  key ∉ s_interrupted s -> consistent (set_interrupted ({[key]} ∪ s_interrupted s) s) (<[j := with_token (Some key) g]> G).
Proof.
  intros Hn. apply token_ok; try done.
  - intros i x k Hne Hi Hk. destruct (f_token _ _ (fits_at _ _ _ _ K Hi) k Hk) as [H1 H2]. simpl. split_and!; [set_solver|done|congruence].
  - intros k [= <-]. simpl. split; [set_solver|]. intros Hx. by apply Hn, (k_marked _ _ K).
  - apply (k_once _ _ K).
  - intros k Hk. simpl. pose proof (k_marked _ _ K k Hk). set_solver.
Qed.

Lemma interrupted_ok job r :
  h_token g = Some (interrupt_key job) -> consistent (log (Ev (CInterrupt job) r) s) (<[j := with_token None g]> G).
Proof.
  intros Hg. destruct (f_token _ _ (fits_at _ _ _ _ K Hj) _ Hg) as [Hm Hn].
  assert (interrupts (log (Ev (CInterrupt job) r) s) = interrupts s ++ [interrupt_key job]) as Hi.
  { unfold interrupts. cbn [w_trace log]. by rewrite omap_app. }
  apply token_ok; rewrite ?Hi; try done.
  - intros i. unfold submitted. cbn [w_trace log]. rewrite fmap_app, elem_of_app. intros [?|Hx]; [done|]. by apply list_elem_of_singleton in Hx.
  - intros k (i & r' & Hk & Ht & Hx). exists i, r'. split_and!; [done..|]. cbn [w_trace log]. apply elem_of_app. by left.
  - intros i x k Hne Hx Hk. destruct (f_token _ _ (fits_at _ _ _ _ K Hx) k Hk) as [H1 H2]. split_and!; [done| |done].
    intros [?|Hy%list_elem_of_singleton]%elem_of_app; [done|subst k]. by apply Hne, (k_tokens _ _ K _ _ _ _ _ Hx Hj Hk Hg).
  - apply NoDup_app. split_and!; [apply (k_once _ _ K)| |apply NoDup_singleton]. intros k Hk Hx%list_elem_of_singleton. congruence.
  - intros k [Hk|Hx%list_elem_of_singleton]%elem_of_app; [by apply (k_marked _ _ K)|by subst k].
Qed.
End Acts.

Lemma when_free_inv {A} s (r r' : A) : when_free s r = Some r' -> t_held (s_term s) = false /\ r' = r.
Proof. unfold when_free. destruct (t_held (s_term s)); intros; by simplify_eq. Qed.

Lemma gate_view b s : same_view s (set_gate {| g_closing := b; g_callbacks := g_callbacks (s_gate s) |} s).
Proof. by constructor. Qed.

Lemma same_view_refl s : same_view s s.
Proof. by constructor. Qed.

(** Acts that the invariant does not look at. *)
Lemma frame_ok a answer s s' r G j g (Q : result a -> ghost -> Prop) :
  consistent s G -> G !! j = Some g -> (forall r, Q r g) -> perform a answer s = Some (s', r) -> same_view s s' ->
  exists g', Q r g' /\ consistent s' (<[j := g']> G).
Proof. intros K Hj HQ Hp Hv. exists g. split; [done|]. by eapply stays. Qed.

Lemma perform_ok a answer s s' r G j g (Q : result a -> ghost -> Prop) :
  consistent s G -> G !! j = Some g -> protocol a g Q -> perform a answer s = Some (s', r) ->
  exists g', Q r g' /\ consistent s' (<[j := g']> G).
Proof.
  intros K Hj HQ Hp. destruct a; try (eapply frame_ok; [done..|]; simpl in Hp; repeat case_match; simplify_eq;
    first [apply same_view_refl|apply wake_view|by apply set_latch_view|by apply log_view|by constructor]); simpl in HQ, Hp.
  - simplify_eq. eexists. split; [exact HQ|]. by apply record_ok.
  - destruct HQ as (Ht & Hc & HQ). destruct (g_closing (s_gate s)); simplify_eq; eexists; (split; [apply HQ|]);
      (eapply callback_ok; try done); simpl; rewrite ?Ht, ?Hc; simpl; lia.
  - destruct HQ as (Ht & Hc & HQ). simplify_eq. eexists. split; [apply HQ|].
    (eapply callback_ok; try done); simpl; rewrite ?Ht, ?Hc; simpl; lia.
  - destruct HQ as (Ht & Hc & Hl & HQ). apply when_free_inv in Hp as [Hh Hp].
    destruct (g_closing (s_gate s)); simplify_eq; eexists; (split; [apply HQ|]);
      (eapply callback_ok; try done); simpl; rewrite ?Ht, ?Hc, ?Hh; simpl; lia || done.
  - destruct HQ as (Ht & Hl & HQ). apply when_free_inv in Hp as [Hh Hp]. simplify_eq. eexists. split; [apply HQ|].
    (eapply callback_ok; try done); simpl; rewrite ?Ht, ?Hh; simpl; lia || done.
  - destruct HQ as (Hf & Hl & HQ). apply when_free_inv in Hp as [Hh Hp]. simplify_eq. eexists. split; [apply HQ|]. by apply begin_flight_ok.
  - destruct HQ as (Hf & Ho & Hpo & HQ). apply when_free_inv in Hp as [Hh Hp]. simplify_eq. eexists. split; [apply HQ|]. by apply end_flight_ok.
  - destruct HQ as (Hg & Hl & HQ). apply when_free_inv in Hp as [Hh Hp]. eexists. split; [apply HQ|]. by eapply acquire_ok.
  - destruct HQ as (Hl & HQ). simplify_eq. eexists. split; [apply HQ|]. by apply release_ok.
  - simplify_eq. eexists. split; [apply HQ|]. by apply pending_len_ok.
  - destruct HQ as (Hf & Hg & Hpo & Ho & HQ). destruct (q_pending (s_queue s)) eqn:Hq; simplify_eq; eexists; (split; [apply HQ|]).
    + assert (with_intent None (h_ensured g) None g = g) as -> by (unfold with_intent; destruct g; simpl in *; congruence). by rewrite list_insert_id.
    + by apply pop_ok.
  - destruct HQ as (Hf & Hpo & Ho & HQ). simplify_eq. eexists. split; [apply HQ|]. by apply pushback_ok.
  - destruct HQ as (Hpo & Ho & He & HQ). simplify_eq. eexists. split; [apply HQ|]. by apply forget_ok.
  - destruct HQ as (Hf & Ho & HQ). simplify_eq. eexists. split; [apply HQ|]. by apply enqueue_ok.
  - apply when_free_inv in Hp as [_ Hp]. eexists. split; [apply HQ|]. rewrite list_insert_id by done. by eapply clear_fault_ok.
  - apply when_free_inv in Hp as [_ Hp]. simplify_eq. eexists. split; [apply HQ|]. rewrite list_insert_id by done. by apply clear_idle_ok.
  - destruct HQ as (Ht & HQt & HQf). case_decide as Hd; simplify_eq; eexists; (split; [done|]); [|by apply mark_ok].
    by rewrite list_insert_id.
  - destruct HQ as (Hf & Ho & HQ). simplify_eq. eexists. split; [apply HQ|]. by apply ensure_ok.
  - destruct HQ as (_ & _ & HQ). simplify_eq. eexists. split; [apply HQ|]. eapply stays; [done..|]. by apply log_view.
  - destruct HQ as (Ht & HQ). simplify_eq. eexists. split; [apply HQ|]. by apply interrupted_ok.
Qed.

(** ** The system *)

Section System.
Context `{ToolJSON} `{Sha256} (durable : bool).

Definition loop_ok (g : ghost) (l : loop_state) : Prop :=
  match l with LRun p => keeps p g (finished true) | _ => g = rest true end.

Definition thread_ok (g : ghost) (p : proc unit) : Prop := keeps p g (finished false).

Definition inv (y : system) : Prop :=
  exists gl gs, loop_ok gl (y_loop y) /\ Forall2 thread_ok gs (y_threads y) /\ consistent (y_sched y) (gl :: gs).

Lemma advance_ok {A} (p p' : proc A) s s' G j g Q :
  consistent s G -> G !! j = Some g -> keeps p g Q -> advance p s p' s' ->
  exists g', keeps p' g' Q /\ consistent s' (<[j := g']> G).
Proof.
  intros K Hj Hk Ha. destruct p as [x|a k]; [done|]. destruct Ha as (answer & r & Hp & ->).
  by apply (perform_ok a answer s s' r G j g _ K Hj Hk Hp).
Qed.

Lemma inv_started : inv started.
Proof.
  exists (rest true), []. split_and!; [done|by constructor|]. constructor; simpl; try done.
  - intros [|j] g Hg; simpl in Hg; by simplify_eq.
  - repeat constructor; try done. by intros [?|?].
  - apply NoDup_nil_2.
  - by intros k Hk%not_elem_of_nil.
  - by intros i Hi%not_elem_of_nil.
  - intros [|i] [|j] g h k Hi Hj; by simplify_eq/=.
  - apply NoDup_nil_2.
  - intros k Hk. by apply not_elem_of_nil in Hk.
Qed.

Lemma loop_step_ok s l s' l' gl gs :
  loop_ok gl l -> consistent s (gl :: gs) -> loop_step durable s l s' l' ->
  exists gl', loop_ok gl' l' /\ consistent s' (gl' :: gs).
Proof.
  intros Hl K Hs. destruct Hs; simpl in Hl.
  - exists gl. split; [done|]. eapply consistent_view; [|done]. by constructor.
  - subst gl. exists (rest true). split; [apply drain_keeps|]. eapply consistent_view; [|done]. by constructor.
  - subst gl. exists (rest true). split; [apply drain_keeps|done].
  - by apply (advance_ok p p' s s' (gl :: gs) 0%nat gl _ K eq_refl Hl).
  - unfold finished in Hl. subst gl. exists (rest true). split; [apply claim_round_keeps|done].
  - by exists gl.
Qed.

Lemma consistent_request s G : G <> [] -> consistent s G -> consistent s (G ++ [rest false]).
Proof.
  intros HG [K1 K2 K3 K4 K5 K6 K7 K8 K9 K10 K11 K12 K13 K14]. constructor; rewrite ?count_app; simpl; rewrite ?Nat.add_0_r; auto.
  - intros j g Hg. apply lookup_app_Some in Hg as [Hg|[Hlen Hg]]; [by apply K5|]. destruct (j - length G)%nat eqn:E; [|done].
    simpl in Hg. simplify_eq. symmetry. apply bool_decide_eq_false. destruct G; [done|]. simpl in *. lia.
  - apply Forall_app. split; [done|]. repeat constructor; try done. by intros [?|?].
  - intros k Hk. destruct (K10 k Hk); [by left|right]. apply Exists_app. by left.
  - intros i Hi. destruct (K11 i Hi) as [?|[?|?]]; [by left|by right; left|right; right]. apply Exists_app. by left.
  - assert (forall i g k, (G ++ [rest false]) !! i = Some g -> h_token g = Some k -> G !! i = Some g) as Hold.
    { intros i g k Hg Hk. apply lookup_app_Some in Hg as [Hg|[Hlen Hg]]; [done|]. destruct (i - length G)%nat; simpl in Hg; by simplify_eq. }
    intros i j g h k Hi Hj Hg Hh. eauto.
Qed.

Lemma inv_step y y' : inv y -> sys_step durable y y' -> inv y'.
Proof.
  intros (gl & gs & Hl & Ht & K) Hs. destruct Hs as [s l ts s' l' Hs|s l ts i p p' s' Hi Ha|s l ts r p Hp]; simpl in *.
  - apply (loop_step_ok _ _ _ _ _ gs Hl K) in Hs as (gl' & Hl' & K'). by exists gl', gs.
  - destruct (Forall2_lookup_r _ _ _ _ _ Ht Hi) as (g & Hg & Hk).
    destruct (advance_ok p p' s s' (gl :: gs) (S i) g _ K Hg Hk Ha) as (g' & Hk' & K').
    exists gl, (<[i := g']> gs). split_and!; [done|by apply Forall2_insert|done].
  - exists gl, (gs ++ [rest false]). split_and!; [done| |by apply (consistent_request s (gl :: gs))].
    apply Forall2_app; [done|]. repeat constructor. by eapply program_keeps.
Qed.

Lemma sched_inv_reachable y : reachable durable y -> inv y.
Proof. intros Hy. unfold reachable in Hy. pattern y. eapply rtc_ind_r; [apply inv_started| |exact Hy]. intros ? ? _ Hs Hi. by eapply inv_step. Qed.

(** C26: A job is claimed only while nothing about earlier jobs is in the air.
    Whenever the scheduler's loop is about to ask the repository for a job, in
    any interleaving of callbacks, cancellations and reconciliations, no
    terminal callback is outstanding, no persistence operation is in flight and
    the queue of intents that the ledger has not taken is empty, and the mutex
    that keeps it so is held; no other thread ever claims. *)
Theorem claims_wait_for_persistence y :
  reachable durable y ->
  (forall k, y_loop y = LRun (Act CClaim k) ->
     t_callbacks (s_term (y_sched y)) = 0 /\ t_flights (s_term (y_sched y)) = 0 /\ q_pending (s_queue (y_sched y)) = [] /\
     t_held (s_term (y_sched y)) = true) /\
  (forall i k, y_threads y !! i <> Some (Act CClaim k)).
Proof.
  intros (gl & gs & Hl & Ht & K)%sched_inv_reachable. split.
  - intros k Hy. rewrite Hy in Hl. destruct Hl as (Hlock & Hempty & _). destruct (fits_at _ _ 0 gl K eq_refl) as [F1 F2 F3 F4 F5 F6 F7].
    destruct (F2 Hempty) as [_ Hq]. destruct (h_loop gl); [|destruct F1; congruence]. rewrite Hlock in F1. symmetry in F1.
    by destruct (k_quiet _ _ K F1).
  - intros i k Hi. destruct (Forall2_lookup_r _ _ _ _ _ Ht Hi) as (g & Hg & Hk). destruct Hk as (Hlock & _).
    pose proof (f_loop _ _ (fits_at _ _ (S i) g K Hg)) as F. rewrite (k_roles _ _ K (S i) g Hg) in F. simpl in F. destruct F. congruence.
Qed.

(** C27: No intent is lost on the way to the ledger.  In every state, an intent
    that was ever handed to the ledger was taken by it, or waits in the
    scheduler's queue, or is held by a persistence operation still in flight;
    the queue never holds two intents of one key; and while it holds any, the
    persistence fault is latched, so that [Available], [Cancel] and the claim
    gate refuse. *)
Theorem no_intent_lost y :
  reachable durable y ->
  let s := y_sched y in
  (forall i, submitted s i -> recorded s (persistenceIntentKey i) \/ persistenceIntentKey i ∈ keys s \/ 0 < t_flights (s_term s)) /\
  NoDup (keys s) /\ (q_pending (s_queue s) <> [] -> l_fault (s_latch s) <> None).
Proof.
  intros (gl & gs & Hl & Ht & K)%sched_inv_reachable s. split_and!; [|apply (k_nodup _ _ K)|apply (k_latched _ _ K)].
  intros i Hi. destruct (k_kept _ _ K i Hi) as [?|[?|(g & Hg & Hc)%Exists_exists]]; [tauto..|right; right].
  pose proof (k_fits _ _ K) as F. rewrite Forall_forall in F. destruct (F g Hg) as [F1 F2 F3 F4 F5 F6 F7].
  assert (h_flight g = true) as Hf. { apply F4. destruct Hc as [Hc|Hc]; [left; congruence|right; intros E; unfold popped_key in Hc; by rewrite E in Hc]. }
  unfold s. rewrite (k_flights _ _ K). destruct (count h_flight (gl :: gs)) eqn:E; [|lia]. by rewrite (count_zero _ _ _ E Hg) in Hf.
Qed.

(** A turn is interrupted at most once.  In every state, however many
    cancellations and failed launches asked for it, no two interrupts were sent
    for one job, and every job that was interrupted is marked. *)
Theorem interrupted_once y :
  reachable durable y -> NoDup (interrupts (y_sched y)) /\ forall k, k ∈ interrupts (y_sched y) -> k ∈ s_interrupted (y_sched y).
Proof. intros (gl & gs & Hl & Ht & K)%sched_inv_reachable. split; [apply (k_once _ _ K)|apply (k_marked _ _ K)]. Qed.
End System.
