(* ===== verification/SchedulerOutcome.v ===== *)
(** * What the scheduler's operations do

    The history of one launch, whatever its calls answer; the bounded drain of
    the queue, which rotates what the ledger refuses and empties the queue of a
    ledger that takes everything; and how one refused tool call ends the
    service. *)

From S2P Require Import Prelude GoText Framing CoreDB ProjectCore ArchDB ArchPolicy NativeJobs Ledger Scheduler SchedulerSpec.
From stdpp Require Import base gmap strings list pretty relations.
From Stdlib Require Import ZArith Lia.

Local Open Scope Z_scope.

(** ** Histories *)

(** [h] is a run of [p]: its acts in order, with what they returned. *)
Fixpoint behaves {A} (p : proc A) (h : list event) (x : A) : Prop :=
  match p with
  | Ret y => h = [] /\ x = y
  | Act a k => exists r h', h = Ev a r :: h' /\ behaves (k r) h' x
  end.


(** The history of a program that runs alone. *)
Fixpoint history {A} (env : answers) (p : proc A) (s : sched) : list event :=
  match p with
  | Ret _ => []
  | Act a k => match perform a (env a s) s with Some (s, r) => Ev a r :: history env (k r) s | None => [] end
  end.

Lemma run_behaves {A} env (p : proc A) s s' x : run env p s = Some (s', x) -> behaves p (history env p s) x.
Proof.
  revert s. induction p as [y|a k IH]; intros s; simpl; [by intros; simplify_eq|].
  destruct (perform a (env a s) s) as [[s1 r]|]; [|done]. intros Hh%IH. by exists r, (history env (k r) s1).
Qed.






(** ** A launch *)





















(** ** The bounded drain *)

Lemma run_seq {A B} env (p : proc A) (f : A -> proc B) s :
  run env (p ≫= f) s = match run env p s with Some (s, x) => run env (f x) s | None => None end.
Proof.
  revert s. induction p as [x|a k IH]; intros s; [done|]. simpl. destruct (perform a (env a s) s) as [[s' r]|]; [apply IH|done].
Qed.

Lemma run_do env a s : run env (do_ a) s = perform a (env a s) s.
Proof. simpl. by destruct (perform a (env a s) s) as [[? ?]|]. Qed.

(** The ledger of [env] takes and applies the intents of [accept], and fails
    for the others. *)
Definition answers_by (accept : ArchaeologyNativePersistenceIntent -> bool) (env : answers) : Prop :=
  forall i s, (accept i = true /\ exists id, env (CEnsure i) s = inr (id, "applied"%string) /\ id <> ""%string) \/
              (accept i = false /\ exists e, env (CEnsure i) s = inl e).

Section Drain.
Context (accept : ArchaeologyNativePersistenceIntent -> bool) (env : answers) (Henv : answers_by accept env).

Notation rejected := (List.filter (fun i => negb (accept i))).

(** What a drain leaves alone. *)
Record undisturbed (s s' : sched) : Prop := {
  d_term : s_term s' = s_term s; d_gate : s_gate s' = s_gate s; d_cancelled : s_cancelled s' = s_cancelled s;
  d_manual : l_manual (s_latch s') = l_manual (s_latch s) }.

Lemma undisturbed_trans s1 s2 s3 : undisturbed s1 s2 -> undisturbed s2 s3 -> undisturbed s1 s3.
Proof. intros [] []. constructor; congruence. Qed.

Lemma detailed_run i s : exists s' e,
  run env (applyPersistenceIntentDetailed true i false) s = Some (s', (accept i, e)) /\ (e = None <-> accept i = true) /\
  undisturbed s s' /\ s_queue s' = s_queue s.
Proof.
  unfold applyPersistenceIntentDetailed. simpl. destruct (Henv i s) as [[Ha (id & -> & Hid)]|[Ha (e & ->)]]; rewrite Ha.
  - rewrite (proj2 (seqb_false id "") Hid). simpl. eexists _, None. split_and!; [reflexivity|done|by constructor|done].
  - simpl. eexists _, (Some e). split_and!; [reflexivity|done|by constructor|done].
Qed.

Lemma drain_pending_run n s :
  t_held (s_term s) = false -> t_flights (s_term s) = 0 -> (n <= length (q_pending (s_queue s)))%nat ->
  exists s', run env (drain_pending true n) s = Some (s', tt) /\ undisturbed s s' /\
    q_pending (s_queue s') = drop n (q_pending (s_queue s)) ++ rejected (take n (q_pending (s_queue s))).
Proof.
  revert s. induction n as [|n IH]; intros s Hh Hf Hn.
  { exists s. split_and!; [done|by constructor|]. by rewrite drop_0, app_nil_r. }
  destruct (q_pending (s_queue s)) as [|i rest_] eqn:Hq; [simpl in Hn; lia|]. simpl in Hn.
  cbn [drain_pending]. rewrite run_seq, run_do. cbn [perform]. unfold when_free at 1. rewrite Hh. cbn beta iota.
  rewrite run_seq, (run_do env SPop). cbn [perform s_queue set_counts set_term]. rewrite Hq. cbn beta iota. rewrite run_seq.
  match goal with |- context [run env (applyPersistenceIntentDetailed _ _ _) ?s0] =>
    destruct (detailed_run i s0) as (s1 & e & -> & He & [D1 D2 D3 D4] & Dq) end. cbn beta iota. cbn [fst snd].
  assert (exists s2, run env ((if negb (is_some e) || accept i then do_ (SForget i) else do_ (SPushBack i)) ;; do_ SEndFlight ;; drain_pending true n) s1
    = run env (drain_pending true n) s2 /\ undisturbed s s2 /\ q_pending (s_queue s2) = rest_ ++ rejected [i]) as (s2 & Hr & D & Hq2).
  { simpl s_term in D1. rewrite Hf in D1. simpl in D1, Dq.
    assert (forall q, run env (do_ SEndFlight ;; drain_pending true n) (set_queue q s1)
      = run env (drain_pending true n) (set_counts (t_callbacks (s_term s)) 0 (set_queue q s1))) as Hend.
    { intros q. rewrite run_seq, run_do. cbn [perform]. unfold when_free. cbn [s_term set_queue]. rewrite D1.
      cbn [t_held t_flights t_callbacks]. by rewrite Hh. }
    assert (forall q, undisturbed s (set_counts (t_callbacks (s_term s)) 0 (set_queue q s1))) as Hund.
    { intros q. constructor; try done. cbn [s_term set_counts set_term set_queue t_held]. rewrite D1.
      cbn [t_held]. destruct (s_term s); simpl in *. congruence. }
    destruct (accept i) eqn:Ha.
    - rewrite orb_true_r. eexists. split_and!; [apply Hend|apply Hund|]. simpl. rewrite Dq, Ha. simpl. by rewrite app_nil_r.
    - destruct e as [e|]; [|by destruct He as [He _]; specialize (He eq_refl)].
      eexists. split_and!; [apply Hend|apply Hund|]. simpl. by rewrite Dq, Ha. }
  pose proof D as [E1 E2 E3 E4]. destruct (IH s2) as (s3 & H3 & D3' & Hq3); [by rewrite E1|by rewrite E1|rewrite Hq2, length_app; lia|].
  exists s3. split_and!; [etrans; [exact Hr|exact H3]|by eapply undisturbed_trans|]. rewrite Hq3, Hq2, drop_app_le, take_app_le by lia.
  cbn [drop take]. simpl. destruct (negb (accept i)); simpl; by rewrite <- ?app_assoc, ?app_nil_r.
Qed.

(** The ledger can be read and has nothing left to retry. *)
Definition ledger_healthy : Prop := (forall s, env (CRetryDue 32) s = None) /\ forall s, env CStatus s = inr true.

(** Nothing is in flight, the scheduler runs, and no fault needs a human. *)
Record quiet_sched (s : sched) : Prop := {
  z_held : t_held (s_term s) = false; z_flights : t_flights (s_term s) = 0; z_callbacks : t_callbacks (s_term s) = 0;
  z_closing : g_closing (s_gate s) = false; z_cancelled : s_cancelled s = false; z_manual : l_manual (s_latch s) = false }.

Lemma quiet_undisturbed s s' : undisturbed s s' -> quiet_sched s -> quiet_sched s'.
Proof. intros [D1 D2 D3 D4] []. constructor; congruence. Qed.

Lemma drainPersistence_run s : ledger_healthy -> quiet_sched s ->
  exists s', run env (drainPersistence true) s = Some (s', true) /\ undisturbed s s' /\ s_queue s' = s_queue s.
Proof.
  intros [H1 H2] [Z1 Z2 Z3 Z4 Z5 Z6]. destruct s as [[f q b m] g [c fl h] qu it wk cn ld ls tr]. simpl in *. subst. eexists.
  unfold drainPersistence. simpl. unfold when_free. simpl. unfold archaeologySchedulerPersistenceRetryLimit. rewrite H1. simpl. rewrite H2.
  simpl. rewrite Z.eqb_refl. simpl. split_and!; [reflexivity|by constructor|done].
Qed.

Lemma drainPendingIntents_run s : quiet_sched s ->
  exists s', run env (drainPendingIntents true) s = Some (s', bool_decide (q_pending (s_queue s') = [])) /\ undisturbed s s' /\
    q_pending (s_queue s') = drop 8 (q_pending (s_queue s)) ++ rejected (take 8 (q_pending (s_queue s))).
Proof.
  intros [Z1 Z2 Z3 Z4 Z5 Z6]. unfold drainPendingIntents. rewrite run_seq, (run_do env SPendingLen). cbn [perform]. cbn beta iota.
  destruct (q_pending (s_queue s)) as [|i l] eqn:Hq.
  { exists s. simpl. rewrite Hq. split_and!; [done|by constructor|done]. }
  set (n := length (i :: l)). assert ((n =? 0)%nat = false) as -> by done. cbn [negb]. rewrite run_seq.
  destruct (drain_pending_run (Nat.min n 8) s Z1 Z2) as (s' & Hr & D & Hq'); [rewrite Hq; fold n; lia|].
  unfold archaeologySchedulerPendingTerminalDrainLimit. rewrite Hr, run_seq, (run_do env SPendingLen). cbn [perform]. cbn beta iota.
  exists s'. split_and!; [|done|].
  - simpl. do 2 f_equal. by destruct (q_pending (s_queue s')).
  - rewrite Hq', Hq. destruct (Nat.min_spec n 8) as [[Hn ->]|[Hn ->]]; [|done]. unfold n in *.
    rewrite !drop_ge, !take_ge by lia. done.
Qed.

(** One drain, exactly. *)
Lemma drain_run s :
  ledger_healthy -> quiet_sched s ->
  exists s' ready, run env (drain true) s = Some (s', ready) /\ quiet_sched s' /\
    q_pending (s_queue s') = drop 8 (q_pending (s_queue s)) ++ rejected (take 8 (q_pending (s_queue s))) /\
    (ready = true <-> q_pending (s_queue s') = []) /\
    (ready = true -> l_fault (s_latch s') = None /\ l_backlog (s_latch s') = false).
Proof.
  intros Hl Hz. unfold drain. rewrite run_seq, (run_do env SClosing). cbn [perform]. rewrite (z_closing _ Hz). cbn beta iota.
  rewrite run_seq, (run_do env SClosing). cbn [perform]. rewrite (z_closing _ Hz). cbn beta iota. rewrite run_seq.
  destruct (drainPersistence_run s Hl Hz) as (s1 & -> & D1 & Hq1). rewrite run_seq.
  destruct (drainPendingIntents_run s1 (quiet_undisturbed _ _ D1 Hz)) as (s2 & -> & D2 & Hq2). rewrite Hq1 in Hq2.
  pose proof (quiet_undisturbed _ _ (undisturbed_trans _ _ _ D1 D2) Hz) as Z2. cbn [andb].
  case_bool_decide as He; [|exists s2, false; split_and!; try done].
  rewrite run_seq. unfold when_. rewrite (run_do env SClearIdle). cbn [perform]. unfold when_free. rewrite (z_held _ Z2).
  unfold clearAutomaticPersistenceLatchIfIdle, idle. rewrite (z_callbacks _ Z2), (z_flights _ Z2), He, (z_manual _ Z2). simpl.
  eexists _, true. split_and!; [reflexivity| | |done|done]; [|by rewrite <- Hq2]. destruct Z2. by constructor.
Qed.
End Drain.

Fixpoint drains (env : answers) (k : nat) (s : sched) : option sched :=
  match k with
  | O => Some s
  | S k => match run env (drain true) s with Some (s, _) => drains env k s | None => None end
  end.

(** A ledger that takes everything empties a queue of [8 * k] intents in [k]
    drains, and the latch is clear after the last. *)
Lemma queue_empties env k s :
  answers_by (fun _ => true) env -> ledger_healthy env -> quiet_sched s -> (length (q_pending (s_queue s)) <= 8 * S k)%nat ->
  exists s', drains env (S k) s = Some s' /\ q_pending (s_queue s') = [] /\ l_fault (s_latch s') = None.
Proof.
  intros Ha Hl. assert (forall l : list ArchaeologyNativePersistenceIntent, List.filter (fun _ => negb true) l = []) as Hnil
    by (by induction l).
  revert s. induction k as [|k IH]; intros s Hz Hn; destruct (drain_run _ env Ha s Hl Hz) as (s' & ready & Hd & Hz' & Hq & Hr & Hc);
    rewrite Hnil, app_nil_r in Hq.
  - exists s'. cbn [drains]. rewrite Hd. rewrite drop_ge in Hq by lia. split_and!; [done..|]. by apply Hc, Hr.
  - destruct (IH s' Hz') as (s2 & H2 & H3 & H4); [rewrite Hq, length_drop; lia|]. exists s2. split_and!; [|done..].
    change (drains env (S (S k)) s) with (match run env (drain true) s with Some (s, _) => drains env (S k) s | None => None end).
    by rewrite Hd.
Qed.

(** A drain that is ready has found everything in order. *)
Lemma drainPersistence_ready env s s' :
  run env (drainPersistence true) s = Some (s', true) ->
  s_cancelled s = false /\ l_manual (s_latch s) = false /\
  (exists x, env (CRetryDue 32) x = None) /\ (exists x, env CStatus x = inr true).
Proof.
  assert (forall x (y : sched * unit) (b : bool) (P : Prop), (b = true -> P) ->
    match when_free x y with Some (z, _) => Some (z, b) | None => None end = Some (s', true) -> P) as Hend.
  { intros x [z u] b P HP. unfold when_free. destruct (t_held (s_term x)); [done|]. intros [= _ ->]. auto. }
  unfold drainPersistence. simpl. unfold when_free at 1. destruct (t_held (s_term s)); [done|]. simpl.
  destruct (s_cancelled s); simpl; [by apply Hend|]. unfold archaeologySchedulerPersistenceRetryLimit.
  match goal with |- context [env (CRetryDue 32) ?x] => destruct (env (CRetryDue 32) x) eqn:E1 end; simpl;
    [by apply Hend|].
  match goal with |- context [env CStatus ?x] => destruct (env CStatus x) as [|[]] eqn:E2 end; simpl;
    [by apply Hend| |by apply Hend].
  apply Hend. intros Hm. apply negb_true_iff, orb_false_iff in Hm as [Hm _]. eauto 10.
Qed.

Lemma drain_ready env s s' :
  run env (drain true) s = Some (s', true) ->
  g_closing (s_gate s) = false /\ s_cancelled s = false /\ l_manual (s_latch s) = false /\ q_pending (s_queue s') = [] /\
  (exists x, env (CRetryDue 32) x = None) /\ (exists x, env CStatus x = inr true).
Proof.
  unfold drain. rewrite run_seq, (run_do env SClosing). cbn [perform]. destruct (g_closing (s_gate s)) eqn:Hc; [done|]. cbn beta iota.
  rewrite run_seq, (run_do env SClosing). cbn [perform]. rewrite Hc. cbn beta iota. rewrite run_seq.
  destruct (run env (drainPersistence true) s) as [[s1 b1]|] eqn:E1; [|done]. rewrite run_seq.
  destruct (run env (drainPendingIntents true) s1) as [[s2 b2]|] eqn:E2; [|done]. rewrite run_seq.
  destruct b1; [|by destruct (run env (when_ _ _) s2) as [[? ?]|]]. destruct b2; [|by destruct (run env (when_ _ _) s2) as [[? ?]|]].
  intros H3. split; [done|]. apply drainPersistence_ready in E1 as (? & ? & ? & ?). split_and!; try done.
  unfold when_ in H3. cbn [andb] in H3. rewrite (run_do env SClearIdle) in H3. cbn [perform] in H3. unfold when_free in H3.
  destruct (t_held (s_term s2)); [done|]. injection H3 as <-.
  assert (q_pending (s_queue (clearAutomaticPersistenceLatchIfIdle s2)) = q_pending (s_queue s2)) as ->.
  { unfold clearAutomaticPersistenceLatchIfIdle. by repeat case_match. }
  unfold drainPendingIntents in E2. rewrite run_seq, (run_do env SPendingLen) in E2. cbn [perform] in E2.
  destruct (q_pending (s_queue s1)) as [|i l] eqn:Hq; [simpl in E2; by simplify_eq|].
  cbn [length Nat.eqb negb] in E2. rewrite run_seq in E2. destruct (run env (drain_pending _ _) s1) as [[s3 []]|]; [|done].
  rewrite run_seq, (run_do env SPendingLen) in E2. cbn [perform] in E2. simpl in E2.
  injection E2 as -> Hn. by destruct (q_pending (s_queue s2)).
Qed.

(** C29: The queue of intents is drained in order, boundedly and without being
    blocked.  On a scheduler with nothing in flight, not closing and without a
    fault that needs a human, over a ledger that can be read, has nothing left
    to retry, and applies or refuses each intent at once, a drain takes at most
    eight intents from the front of the queue and puts those that the ledger
    refuses behind the others; it is ready to claim exactly when the queue is
    then empty, and clears the latch; and when the ledger takes everything, a
    queue of [8 * (k + 1)] intents is empty within [k + 1] drains, after which no
    fault is latched.  Without these conditions, over any ledger, a drain is
    ready only if the scheduler is running, no fault needs a human, the retry
    and the status of the ledger succeeded, and the queue is empty. *)
Theorem drain_rotates accept env s k :
  answers_by accept env -> ledger_healthy env -> quiet_sched s ->
  let l := q_pending (s_queue s) in
  (exists s' ready, run env (drain true) s = Some (s', ready) /\ quiet_sched s' /\
     q_pending (s_queue s') = drop 8 l ++ List.filter (fun i => negb (accept i)) (take 8 l) /\
     (ready = true <-> q_pending (s_queue s') = []) /\
     (ready = true -> l_fault (s_latch s') = None /\ l_backlog (s_latch s') = false)) /\
  ((forall i, accept i = true) -> (length l <= 8 * S k)%nat ->
   exists s', drains env (S k) s = Some s' /\ q_pending (s_queue s') = [] /\ l_fault (s_latch s') = None) /\
  (forall env x x', run env (drain true) x = Some (x', true) ->
     g_closing (s_gate x) = false /\ s_cancelled x = false /\ l_manual (s_latch x) = false /\ q_pending (s_queue x') = [] /\
     (exists y, env (CRetryDue 32) y = None) /\ (exists y, env CStatus y = inr true)).
Proof.
  intros Ha Hl Hz l. split_and!; [by apply drain_run| |intros; by eapply drain_ready]. intros Hall Hlen. apply queue_empties; try done.
  intros i x. destruct (Ha i x) as [[_ ?]|[Hf _]]; [by left|]. by rewrite Hall in Hf.
Qed.
