(* ===== verification/SchedulerFault.v ===== *)
(** * The scheduler's latch and the service

    A fault that a human must clear survives everything but a completed
    reconciliation; the store refuses progress for a job that is not active;
    and the two together with the health monitor and the notifier. *)

From S2P Require Import Prelude GoText Framing CoreDB ArchDB ArchPolicy NativeJobs RuntimeHealth Notifier NotifierSpec HealthMonitor HealthSpec Scheduler SchedulerSpec SchedulerOutcome.
From stdpp Require Import base gmap strings list relations.
From Stdlib Require Import ZArith Lia.

Local Open Scope Z_scope.

(** ** The manual latch *)

Definition manual_fault (s : sched) : Prop := l_manual (s_latch s) = true /\ l_fault (s_latch s) <> None.

Lemma perform_manual a answer s s' r :
  (forall n, a <> SClear n) -> perform a answer s = Some (s', r) -> manual_fault s -> manual_fault s'.
Proof.
  intros Ha Hp [Hm Hf].
  assert (forall x, s_latch x = s_latch s -> manual_fault x) as Hsame by (intros x Hx; unfold manual_fault; by rewrite Hx).
  assert (s_latch (wake s) = s_latch s) as Hw by (unfold wake; by destruct (s_cancelled s)).
  destruct a; simpl in Hp; try (by destruct (Ha sequence)); unfold when_free in Hp;
    repeat case_match; simplify_eq/=; try (by apply Hsame).
  - split; simpl; [by destruct durable|by destruct (l_fault (s_latch s))].
  - done.
  - unfold clearAutomaticPersistenceLatchIfIdle. rewrite Hm. apply Hsame. by repeat case_match.
Qed.

Section Fault.
Context `{ToolJSON} `{Sha256} (durable : bool).

(** No thread is about to end a reconciliation. *)
Definition unreconciled (y : system) : Prop :=
  (forall n k, y_loop y <> LRun (Act (SClear n) k)) /\ forall i n k, y_threads y !! i <> Some (Act (SClear n) k).

Definition step_unreconciled (y y' : system) : Prop := unreconciled y /\ sys_step durable y y'.

Lemma advance_manual {A} (p p' : proc A) s s' :
  (forall n k, p <> Act (SClear n) k) -> Scheduler.advance p s p' s' -> manual_fault s -> manual_fault s'.
Proof.
  intros Hp. destruct p as [x|a k]; [done|]. intros (answer & r & Ha & ->). apply (perform_manual a answer s s' r); [|done].
  intros n ->. by apply (Hp n k).
Qed.

Lemma manual_step y y' : step_unreconciled y y' -> manual_fault (y_sched y) -> manual_fault (y_sched y').
Proof.
  intros [[Hl Ht] Hs]. destruct Hs as [s l ts s' l' Hs|s l ts i p p' s' Hi Ha|s l ts r p Hp]; simpl in *; [| |done].
  - destruct Hs as [| | |s p s' p' Ha| |]; try done. apply (advance_manual p p'); [|done]. intros n k ->. by apply (Hl n k).
  - apply (advance_manual p p'); [|done]. intros n k ->. by apply (Ht i n k).
Qed.

Lemma manual_persists y y' : rtc step_unreconciled y y' -> manual_fault (y_sched y) -> manual_fault (y_sched y').
Proof. induction 1; [done|]. intros. eauto using manual_step. Qed.

(** What the scheduler answers while it holds. *)
Lemma manual_refuses (env : answers) s : manual_fault s ->
  run env Available s = Some (s, Some ErrArchaeologySchedulerPersistenceFault) /\
  run env (Scheduler.Cancel durable) s = Some (s, Some ErrArchaeologySchedulerPersistenceFault) /\
  exists attention, run env Status s = Some (s, (true, attention)).
Proof.
  intros [_ Hf]. destruct (l_fault (s_latch s)) eqn:E; [|done]. simpl. rewrite E. simpl. split_and!; [done..|]. eauto.
Qed.

(** ** A refused tool call *)

(** The progress a call reports, when its arguments are in order. *)
Definition progress_of (job : ArchaeologyNativeJob) (call : ArchaeologyNativeToolCall) (phase : string) (sources : Z) : ArchaeologyNativeProgress :=
  {| pg_JobID := nj_ID job; pg_ThreadID := tc_ThreadID call; pg_TurnID := tc_TurnID call;
     pg_PhaseLabel := progressLabel phase; pg_SourcesExamined := sources |}.

Definition progress_call (job : ArchaeologyNativeJob) (call : ArchaeologyNativeToolCall) (phase : string) (sources : Z) : Prop :=
  exists note limits, tc_ThreadID call <> ""%string /\ tc_TurnID call <> ""%string /\
    tc_Tool call = "commons_project_history_progress"%string /\
    decodeStrictOneLimit json_progress 65536 (tc_Arguments call) = Some (phase, sources, note) /\
    Limits (nj_Policy job) = Some limits /\ len note <= 500 /\ 0 <= sources <= MaxSourcesExamined limits /\ progressLabel phase <> ""%string.

Lemma refused_call_latches (env : answers) n job call phase sources s l e :
  progress_call job call phase sources -> s_launches s !! n = Some l -> lc_bound l = true -> lc_bindErr l = None ->
  g_closing (s_gate s) = false -> (forall s, env (SWaitBoundOrDone n) s = false) ->
  (forall s, env (CProgress (progress_of job call phase sources)) s = Some e) ->
  exists s', run env (onTool n job call) s = Some (s', refused) /\ manual_fault s'.
Proof.
  intros (note & limits & H1 & H2 & H3 & H4 & H5 & H6 & H7 & H8) Hl Hb He Hc Hw Hp. unfold onTool.
  assert (run env (handleTool job call) (set_gate {| g_closing := false; g_callbacks := g_callbacks (s_gate s) + 1 |} s) =
    run env (e ← do_ (CProgress (progress_of job call phase sources)) ; e ← recordPersistenceFailure e ;
             mret (if is_some e then refused else {| tr_Success := true; tr_Message := json_accepted +:+ "}" |}))
      (set_gate {| g_closing := false; g_callbacks := g_callbacks (s_gate s) + 1 |} s)) as Hh.
  { unfold handleTool, handleProgress. rewrite (proj2 (seqb_false _ _) H1), (proj2 (seqb_false _ _) H2), H3, H4, H5. simpl seqb.
    cbn [orb]. rewrite (proj2 (Z.ltb_ge _ _) H6), (proj2 (Z.ltb_ge sources 0)), (proj2 (Z.ltb_ge _ sources)), (proj2 (seqb_false _ _) H8) by lia.
    done. }
  rewrite run_seq, (run_do env (SWaitBoundOrDone n)). cbn [perform]. rewrite Hw, Hl, Hb. cbn beta iota.
  rewrite run_seq, (run_do env (SGetBindErr n)). cbn [perform]. rewrite Hl, He. cbn beta iota. cbn [is_some].
  rewrite run_seq, (run_do env SBeginCallback). cbn [perform]. rewrite Hc. cbn beta iota. cbn [negb]. rewrite run_seq, Hh.
  simpl. rewrite Hp. simpl. eexists. split; [reflexivity|]. unfold manual_fault, wake. case_match; simpl; split; try done; by destruct (l_fault (s_latch s)).
Qed.

(** The store's side: a job that is not active takes no progress. *)
Record late (p : ArchaeologyNativeProgress) (d : ADB) : Prop := {
  la_text : boundedCoreText (pg_JobID p) 120 true && boundedCoreText (pg_ThreadID p) 120 true
            && boundedCoreText (pg_TurnID p) 120 true && boundedCoreText (pg_PhaseLabel p) 120 true
            && (0 <=? pg_SourcesExamined p) && (pg_SourcesExamined p <=? 10000) = true;
  la_row : exists r b, job_of_turn (pg_JobID p) (pg_ThreadID p) (pg_TurnID p) d = inr (r, b) /\ jo_state r <> "active"%string }.

Lemma late_progress_conflicts p (env : Env ADB) w :
  quiet env -> late p (w_db w) -> fst (UpdateArchaeologyNativeProgress p env w) = inl ErrConflict.
Proof.
  intros Hq [Ht (r & b & Hr & Hs)]. destruct (Hq (w_tick w)) as [Hf Ho].
  unfold UpdateArchaeologyNativeProgress. rewrite Ht.
  cbv [require Prelude.bind ret throw direct mapE autocommit exec query w_db w_tick]. destruct w as [d tick]. cbn [w_db w_tick] in *.
  rewrite Hf, Ho, Hr. cbn [fst snd]. by rewrite (proj2 (seqb_false _ _) Hs).
Qed.

(** A scheduler with such a fault ends the service: the monitor reads the
    fault, and the notifier fails on the snapshot it publishes. *)
Lemma manual_ends_service options cfg p base env s s' status now m t ping n :
  manual_fault s -> run env Status s = Some (s', status) -> now <> zeroTime ->
  p_Persistence p = Some (serverPersistence status.1 status.2 base) ->
  let '(n', r) := observeAt cfg t ping (watchdogSnapshot options (probeAndPublish options p now m)) n in
  is_Some r /\ count is_watchdog (n_sent n') = count is_watchdog (n_sent n).
Proof.
  intros Hm Hst Hn Hp. destruct (manual_refuses env s Hm) as (_ & _ & attention & Hr). rewrite Hr in Hst. injection Hst as <- <-. simpl in Hp.
  pose proof (view_observed options cfg p now m t ping n Hn) as Hv. destruct (observeAt cfg t ping _ n) as [n' r]. destruct Hv as (Hv & _).
  destruct Hv as (? & _ & ?); [|done]. destruct (core_ready _) eqn:E; [|done].
  apply cycle_core_ready in E as [[_ (v & Hv & Hx & _)] _]. rewrite Hp in Hv. destruct base as [w|]; simpl in Hv; by simplify_eq.
Qed.

(** C30: One late progress call ends the service.  The store answers a progress
    call for a job that is not active any more with a conflict; the scheduler
    takes that answer for a persistence fault that only a reconciliation
    clears, and until one completes, whatever else happens, it refuses to be
    used and to cancel, and every cycle of the health monitor that reads its
    status makes the notifier fail the service and withhold the watchdog. *)
Theorem late_tool_call_ends_service (dbenv : Env ADB) w (env : answers) n job call phase sources s l :
  quiet dbenv -> late (progress_of job call phase sources) (w_db w) ->
  (forall s, env (CProgress (progress_of job call phase sources)) s =
     match fst (UpdateArchaeologyNativeProgress (progress_of job call phase sources) dbenv w) with inl e => Some e | inr _ => None end) ->
  progress_call job call phase sources -> s_launches s !! n = Some l -> lc_bound l = true -> lc_bindErr l = None ->
  g_closing (s_gate s) = false -> (forall s, env (SWaitBoundOrDone n) s = false) ->
  exists s', run env (onTool n job call) s = Some (s', refused) /\
    forall y y', y_sched y = s' -> rtc step_unreconciled y y' ->
      (forall env', run env' Available (y_sched y') = Some (y_sched y', Some ErrArchaeologySchedulerPersistenceFault) /\
                    run env' (Scheduler.Cancel durable) (y_sched y') = Some (y_sched y', Some ErrArchaeologySchedulerPersistenceFault)) /\
      forall options cfg p base env' s2 status now m t ping n,
        run env' Status (y_sched y') = Some (s2, status) -> now <> zeroTime ->
        p_Persistence p = Some (serverPersistence status.1 status.2 base) ->
        let '(n', r) := observeAt cfg t ping (watchdogSnapshot options (probeAndPublish options p now m)) n in
        is_Some r /\ count is_watchdog (n_sent n') = count is_watchdog (n_sent n).
Proof.
  intros Hq Hlate Hans Hcall Hl Hb He Hc Hw. rewrite (late_progress_conflicts _ _ _ Hq Hlate) in Hans.
  destruct (refused_call_latches env n job call phase sources s l ErrConflict) as (s' & Hr & Hm); [done..|].
  exists s'. split; [done|]. intros y y' <- Hy. pose proof (manual_persists _ _ Hy Hm) as Hm'. split.
  - intros env'. by destruct (manual_refuses env' _ Hm') as (? & ? & _).
  - intros. by eapply manual_ends_service.
Qed.
End Fault.
