(* ===== verification/SchedulerDemo.v ===== *)
(** * Runs of the scheduler

    Concrete runs at which the hypotheses of the scheduler's theorems hold. *)

From S2P Require Import Prelude GoText Framing CoreDB ArchDB ArchPolicy NativeJobs Ledger RuntimeHealth Notifier NotifierSpec HealthMonitor HealthSpec Scheduler SchedulerSpec SchedulerOutcome SchedulerFault.
From stdpp Require Import base gmap strings list relations.
From Stdlib Require Import ZArith Lia.

Local Open Scope Z_scope.

(** ** Following one thread *)

(** [n] acts of a program that runs alone. *)
Fixpoint follow {A} (env : answers) (n : nat) (p : proc A) (s : sched) : option (sched * proc A) :=
  match n, p with
  | S n, Act a k => match perform a (env a s) s with Some (s, r) => follow env n (k r) s | None => None end
  | _, _ => Some (s, p)
  end.

Section Follow.
Context `{ToolJSON} `{Sha256}.

Lemma follow_loop env n p s ts p' s' : follow env n p s = Some (s', p') ->
  rtc (sys_step true) {| y_sched := s; y_loop := LRun p; y_threads := ts |} {| y_sched := s'; y_loop := LRun p'; y_threads := ts |}.
Proof.
  revert p s. induction n as [|n IH]; intros p s; simpl; [intros; by simplify_eq|]. destruct p as [x|a k]; [intros; by simplify_eq|].
  destruct (perform a (env a s) s) as [[s1 r]|] eqn:E; [|done]. intros Hf. eapply rtc_l; [|by apply IH].
  apply sys_loop, loop_runs. by exists (env a s), r.
Qed.

Lemma started_drain : rtc (sys_step true) started {| y_sched := newArchaeologyScheduler; y_loop := LRun (drain true); y_threads := [] |}.
Proof. apply rtc_once, sys_loop, loop_ticks. Qed.

(** A drain that is ready, followed by [n] acts of the first claim. *)
Lemma drain_then_claim env n s s' p' :
  follow env 40 (drain true) newArchaeologyScheduler = Some (s, Ret true) -> follow env n (claim_round true) s = Some (s', p') ->
  reachable true {| y_sched := s'; y_loop := LRun p'; y_threads := [] |}.
Proof.
  intros H1 H2. unfold reachable. etrans; [apply started_drain|]. etrans; [by apply (follow_loop env 40)|].
  eapply rtc_l; [apply sys_loop, loop_again|]. by apply (follow_loop env n).
Qed.
End Follow.

Module SchedulerDemo.

#[local] Instance json : ToolJSON := {|
  json_progress := fun _ => Some ("inspecting_sources"%string, 1, ""%string); json_envelope := fun _ => None;
  json_fields := fun _ => None; json_outcomes := fun _ => None |}.
#[local] Instance sha : Sha256 := fun s => s.

Definition policy : ArchaeologyExecutionPolicy :=
  {| Depth := "quick"; Sources := {| Git := true; Docs := false; CodexHistory := false |} |}.
Definition job : ArchaeologyNativeJob :=
  {| nj_ID := "job"; nj_CandidateID := "c"; nj_ProjectID := "p"; nj_ThreadID := ""; nj_CodexSessionID := ""; nj_TurnID := "";
     nj_Policy := policy |}.
Definition accepted : ArchaeologyLaunchResult :=
  {| la_LaunchID := "l"; la_ProjectID := "p"; la_State := "accepted"; la_ThreadID := "thread"; la_CodexSessionID := "codex";
     la_TurnID := "turn"; la_Error := "" |}.

(** A ledger that takes the intents of [takes], a launcher that answers with
    [launchErr], and a store that answers a progress call with [progress]. *)
Definition env (takes : ArchaeologyNativePersistenceIntent -> bool) (launchErr progress : option Err) : answers := fun a s =>
  match a return result a with
  | CEnsure i => if takes i then inr ("id"%string, "applied"%string) else inl ErrUnavailable
  | CRead _ => inr "applied"%string
  | CStatus => inr true
  | CClaim => inr job
  | CSession => inr [{| cd_ID := "c"; cd_Name := "C" |}]
  | CLaunch _ _ _ => (accepted, launchErr)
  | COutcomes _ => inl ErrInvalid
  | CCancelBatch => inr []
  | CProgress _ => progress
  | SState => (false, false)
  | SSeq => 0
  | SBlocked | SManualOrChanged _ | SLatched | SCtxErr | SClosing | SBeginCallback | SBeginTerminal | SAcquireTerminal
  | SMarkInterrupt _ | SWaitBoundOrDone _ => false
  | SPendingLen | SNewLaunch _ => 0%nat
  | SPop => None
  | SClear _ | SGetBindErr _ => None
  | CApply _ | CRetryDue _ | CVerify | CCtx | CAvailable | CFinalize _ _ _ | CInterrupt _ | CFailStart _ _ _ | CBind _ _ _ _
  | CActivate _ _ _ | CLose _ _ _ | CComplete _ | CReport _ | CQueue => None
  | SRecord _ _ | SMarkBacklog | SWake | SSetClosing | SCancel | SWaitLoop | SWaitCallbacks | SEndCallback | SEndTerminal
  | SBeginFlight | SEndFlight | SReleaseTerminal | SPushBack _ | SForget _ | SEnqueue _ | SClearIdle | SSetBindErr _ _
  | SCloseBound _ | SWaitBound _ => tt
  end.

Definition good : answers := env (fun _ => true) None None.

(** The state after a drain, and the program and state after [n] acts more. *)
Definition drained (e : answers) : sched := match follow e 40 (drain true) newArchaeologyScheduler with Some (s, _) => s | None => newArchaeologyScheduler end.
Definition claiming (e : answers) (n : nat) : system :=
  match follow e n (claim_round true) (drained e) with
  | Some (s, p) => {| y_sched := s; y_loop := LRun p; y_threads := [] |}
  | None => started
  end.

Lemma claiming_reachable takes launchErr n :
  is_some (follow (env takes launchErr None) n (claim_round true) (drained (env takes launchErr None))) = true ->
  reachable true (claiming (env takes launchErr None) n).
Proof.
  intros Hn. unfold claiming. destruct (follow _ n _ _) as [[s p]|] eqn:E; [|done].
  eapply drain_then_claim; [|exact E]. reflexivity.
Qed.

Lemma claims_wait_for_persistence_witness :
  exists k, y_loop (claiming good 6) = LRun (Act CClaim k) /\ t_held (s_term (y_sched (claiming good 6))) = true.
Proof.
  eexists. split; [reflexivity|].
  assert (reachable true (claiming good 6)) as Hr by (apply (claiming_reachable (fun _ => true) None 6); vm_compute; reflexivity).
  destruct (claims_wait_for_persistence true _ Hr) as [Hc _]. eapply Hc. reflexivity.
Defined.

(** The ledger takes nothing: the launch leaves its intents in the queue. *)
Definition broken : system := claiming (env (fun _ => false) None None) 60.

Lemma no_intent_lost_witness :
  reachable true broken /\ length (q_pending (s_queue (y_sched broken))) = 2%nat /\ l_fault (s_latch (y_sched broken)) <> None.
Proof.
  assert (reachable true broken) as Hr by (apply (claiming_reachable (fun _ => false) None 60); vm_compute; reflexivity).
  assert (length (q_pending (s_queue (y_sched broken))) = 2%nat) as Hlen by (vm_compute; reflexivity).
  split_and!; [exact Hr|exact Hlen|]. destruct (no_intent_lost true broken Hr) as (_ & _ & Hl). apply Hl. intros Hx. rewrite Hx in Hlen.
  discriminate Hlen.
Defined.

(** The launcher fails after the turn was accepted. *)
Definition failing : system := claiming (env (fun _ => true) (Some ErrUnavailable) None) 60.

Lemma interrupted_once_witness : interrupts (y_sched failing) = ["job"%string] /\ NoDup (interrupts (y_sched failing)).
Proof.
  assert (reachable true failing) as Hr by (apply (claiming_reachable (fun _ => true) (Some ErrUnavailable) 60); vm_compute; reflexivity).
  split; [vm_compute; reflexivity|]. destruct (interrupted_once true failing Hr) as [Hn _]. exact Hn.
Defined.


(** Two intents are queued, and the ledger takes only the second. *)
Definition first : ArchaeologyNativePersistenceIntent := turn_intent "lose_turn" "a" "t" "" "u".
Definition second_ : ArchaeologyNativePersistenceIntent := turn_intent "lose_turn" "b" "t" "" "u".
Definition takes_b (i : ArchaeologyNativePersistenceIntent) : bool := seqb (pi_JobID i) "b".
Definition queued : sched :=
  set_queue {| q_pending := [first; second_]; q_keys := {[persistenceIntentKey first; persistenceIntentKey second_]} |}
    newArchaeologyScheduler.

Lemma drain_rotates_witness : exists s ready,
  run (env takes_b None None) (drain true) queued = Some (s, ready) /\ q_pending (s_queue s) = [first] /\ ready = false.
Proof.
  assert (answers_by takes_b (env takes_b None None)) as Ha.
  { intros i s. simpl. destruct (takes_b i); [left|right]; (split; [done|]); [by exists "id"%string|by exists ErrUnavailable]. }
  assert (ledger_healthy (env takes_b None None)) as Hl by (by split). assert (quiet_sched queued) as Hz by (by constructor).
  destruct (drain_rotates takes_b (env takes_b None None) queued 0 Ha Hl Hz) as [(s & ready & Hr & _ & Hq & Hready & _) _].
  exists s, ready. split_and!; [done|exact Hq|]. destruct ready; [|done]. rewrite (proj1 Hready eq_refl) in Hq. discriminate.
Defined.

(** A job that was reported, and a progress call that comes late. *)
Definition row : job_row :=
  {| jo_batch := "batch"; jo_session := "s"; jo_candidate := "c"; jo_project := "p"; jo_name := "P"; jo_state := "report_ready";
     jo_thread := "thread"; jo_codex := "codex"; jo_turn := "turn"; jo_phase := ""; jo_sources := 0; jo_duration := None;
     jo_report := None; jo_error := ""; jo_created := 0; jo_started := None; jo_reported := None; jo_terminal := None; jo_updated := 0 |}.
Definition batch : batch_row :=
  {| ba_session := "s"; ba_request := "r"; ba_digest := ""; ba_state := "running"; ba_max := 1; ba_policy := policy;
     ba_attested := true; ba_ack := None; ba_ack_by := ""; ba_created := 0; ba_updated := 0 |}.
Definition reported : World ADB := mkWorld (set_a_jobs {[ "job"%string := row ]} (set_a_batches {[ "batch"%string := batch ]} adb_empty)) 0.
Definition calm_db : Env ADB := fun _ => mkTick None false 5 "w" id.
Definition call : ArchaeologyNativeToolCall :=
  {| tc_ThreadID := "thread"; tc_TurnID := "turn"; tc_Tool := "commons_project_history_progress"; tc_Arguments := "{}" |}.
Definition running : sched :=
  set_launches [{| lc_job := job; lc_bound := true; lc_bindErr := None |}] newArchaeologyScheduler.

Lemma late_tool_call_ends_service_witness :
  exists s, run (env (fun _ => true) None (Some ErrConflict)) (onTool 0 job call) running = Some (s, refused) /\
    run good Available s = Some (s, Some ErrArchaeologySchedulerPersistenceFault).
Proof.
  destruct (late_tool_call_ends_service true calm_db reported (env (fun _ => true) None (Some ErrConflict)) 0 job call
    "inspecting_sources" 1 running {| lc_job := job; lc_bound := true; lc_bindErr := None |}) as (s & Hr & Hs); try done.
  - constructor; [reflexivity|]. by exists row, batch.
  - by eexists _, _.
  - exists s. split; [done|]. destruct (Hs {| y_sched := s; y_loop := LWait; y_threads := [] |} _ eq_refl (rtc_refl _ _)) as [Ha _].
    by destruct (Ha good) as [? _].
Defined.
End SchedulerDemo.
