(* ===== verification/SessionDB.v ===== *)
(** * Tables of the archaeology sessions, runs, handoffs and launches

    [migrations/010_project_archaeology.sql], [011_archaeology_handoffs.sql] and
    [012_codex_archaeology_launch.sql].  The tables of the native plane
    ([ArchDB]) are a part of the database.  [archaeology_sessions] and
    [archaeology_candidates] are shared by both planes: the columns that the
    native plane reads are in [ArchDB], the others here, and one statement
    writes both. *)

From Stdlib Require Import ZArith Lia.
From stdpp Require Import base gmap strings list sets sorting.
From S2P Require Import Prelude GoText CoreDB ArchDB NativeJobs.

Local Open Scope Z_scope.

Record session_info := {
  si_discovery : string; si_error : string; si_roots : Z; si_tasks : Z; si_projects : Z; si_truncated : bool; si_app : string;
  si_discovered : option Z; si_created : Z }.
Record candidate_info := {
  cf_path : string; cf_repository : string; cf_last : option Z; cf_git : bool; cf_docs : bool; cf_history : bool;
  cf_min : Z; cf_max : Z; cf_cost : string; cf_note : string; cf_codex : bool; cf_threads : Z }.
Record run_row := {
  ru_session : string; ru_candidate : string; ru_state : string; ru_phase : string; ru_completed : Z; ru_total : option Z;
  ru_outcomes : Z; ru_sources : Z; ru_error : string; ru_runner : string; ru_created : Z; ru_updated : Z }.
Record report_row := {
  ot_run : string; ot_project : string; ot_title : string; ot_summary : string; ot_sources : Z; ot_proposal : string; ot_created : Z }.
Record handoff_row := {
  hf_session : string; hf_state : string; hf_pack : string; hf_claimed_by : string; hf_claimed : option Z; hf_failure : string;
  hf_created : Z; hf_updated : Z }.
Record handoff_request_row := { hq_operation : string; hq_session : string; hq_digest : string; hq_recorded : Z }.
Record launch_row := {
  ln_session : string; ln_candidate : string; ln_state : string; ln_thread : string; ln_codex : string; ln_turn : string;
  ln_client : string; ln_request : string; ln_grant : string; ln_grant_expires : Z; ln_grant_consumed : option Z;
  ln_report : option string; ln_report_expires : option Z; ln_report_consumed : option Z; ln_report_request : option string;
  ln_error : string; ln_created : Z; ln_updated : Z }.

Record LDB := mkLDB {
  l_arch : ADB;
  l_sessions : gmap string session_info;
  l_candidates : gmap (string * string) candidate_info;
  l_runs : gmap string run_row;
  l_outcomes : gmap string report_row;
  l_provenance : gmap (string * Z) provenance_row;
  l_contributors : gmap (string * string) contributor_row;
  l_handoffs : gmap string handoff_row;
  l_handoff_requests : gmap (string * string) handoff_request_row;
  l_launches : gmap string launch_row;
}.

Definition set_l_arch (v : ADB) (d : LDB) : LDB :=
  mkLDB v (l_sessions d) (l_candidates d) (l_runs d) (l_outcomes d) (l_provenance d) (l_contributors d) (l_handoffs d) (l_handoff_requests d) (l_launches d).
Definition set_l_sessions (v : gmap string session_info) (d : LDB) : LDB :=
  mkLDB (l_arch d) v (l_candidates d) (l_runs d) (l_outcomes d) (l_provenance d) (l_contributors d) (l_handoffs d) (l_handoff_requests d) (l_launches d).
Definition set_l_candidates (v : gmap (string * string) candidate_info) (d : LDB) : LDB :=
  mkLDB (l_arch d) (l_sessions d) v (l_runs d) (l_outcomes d) (l_provenance d) (l_contributors d) (l_handoffs d) (l_handoff_requests d) (l_launches d).
Definition set_l_runs (v : gmap string run_row) (d : LDB) : LDB :=
  mkLDB (l_arch d) (l_sessions d) (l_candidates d) v (l_outcomes d) (l_provenance d) (l_contributors d) (l_handoffs d) (l_handoff_requests d) (l_launches d).
Definition set_l_outcomes (v : gmap string report_row) (d : LDB) : LDB :=
  mkLDB (l_arch d) (l_sessions d) (l_candidates d) (l_runs d) v (l_provenance d) (l_contributors d) (l_handoffs d) (l_handoff_requests d) (l_launches d).
Definition set_l_provenance (v : gmap (string * Z) provenance_row) (d : LDB) : LDB :=
  mkLDB (l_arch d) (l_sessions d) (l_candidates d) (l_runs d) (l_outcomes d) v (l_contributors d) (l_handoffs d) (l_handoff_requests d) (l_launches d).
Definition set_l_contributors (v : gmap (string * string) contributor_row) (d : LDB) : LDB :=
  mkLDB (l_arch d) (l_sessions d) (l_candidates d) (l_runs d) (l_outcomes d) (l_provenance d) v (l_handoffs d) (l_handoff_requests d) (l_launches d).
Definition set_l_handoffs (v : gmap string handoff_row) (d : LDB) : LDB :=
  mkLDB (l_arch d) (l_sessions d) (l_candidates d) (l_runs d) (l_outcomes d) (l_provenance d) (l_contributors d) v (l_handoff_requests d) (l_launches d).
Definition set_l_handoff_requests (v : gmap (string * string) handoff_request_row) (d : LDB) : LDB :=
  mkLDB (l_arch d) (l_sessions d) (l_candidates d) (l_runs d) (l_outcomes d) (l_provenance d) (l_contributors d) (l_handoffs d) v (l_launches d).
Definition set_l_launches (v : gmap string launch_row) (d : LDB) : LDB :=
  mkLDB (l_arch d) (l_sessions d) (l_candidates d) (l_runs d) (l_outcomes d) (l_provenance d) (l_contributors d) (l_handoffs d) (l_handoff_requests d) v.

Definition set_a_candidates (x : gmap (string * string) candidate_row) (d : ADB) : ADB :=
  mkADB (core d) (a_sessions d) x (a_mappings d) (a_batches d) (a_jobs d) (a_outcomes d) (a_provenance d) (a_contributors d) (a_resolutions d) (a_requests d) (a_intents d).

Definition ldb_empty : LDB := mkLDB adb_empty ∅ ∅ ∅ ∅ ∅ ∅ ∅ ∅ ∅.

(** A statement and a piece of a transaction of the native plane's tables. *)
Definition on_arch {A} (st : Stmt ADB A) : Stmt LDB A := fun d =>
  match st (l_arch d) with inl e => inl e | inr (a, x) => inr (a, set_l_arch x d) end.
Definition in_arch {A} (m : M ADB TxFail A) : M LDB TxFail A := zoom l_arch set_l_arch m.

Definition lcheck {A} (ok : bool) (a : A) (d : LDB) : SqlErr + A * LDB := if ok then inr (a, d) else inl SqlConstraint.

Definition session_of (d : LDB) (principal : string) : option string :=
  match session_by_principal principal (l_arch d) with inr e => Some e.1 | inl _ => None end.

(** ** Sessions *)

(** [INSERT INTO archaeology_sessions(id,principal,state,discovery_state,created_at,updated_at) VALUES(?,?,'draft','idle',?,?)
    ON CONFLICT(principal) DO NOTHING], with the defaults of the other columns *)
Definition new_session (principal : string) (t : Z) : session_row :=
  {| se_principal := principal; se_state := "draft";
     se_policy := {| Depth := "standard"; Sources := {| Git := true; Docs := true; CodexHistory := false |} |};
     se_max := 2; se_revision := 1; se_updated := t |}.
Definition new_session_info (t : Z) : session_info :=
  {| si_discovery := "idle"; si_error := ""; si_roots := 0; si_tasks := 0; si_projects := 0; si_truncated := false; si_app := "";
     si_discovered := None; si_created := t |}.
Definition insert_session (id principal : string) (t : Z) : Stmt LDB unit := fun d =>
  match session_of d principal with
  | Some _ => inr (tt, d)
  | None =>
      lcheck (absent (a_sessions (l_arch d)) id) tt
        (set_l_sessions (<[id:=new_session_info t]> (l_sessions d))
           (set_l_arch (set_a_sessions (<[id:=new_session principal t]> (a_sessions (l_arch d))) (l_arch d)) d))
  end.

(** [UPDATE archaeology_sessions SET ...,revision=revision+1,updated_at=? WHERE ...] *)
Definition session_with (state : string) (policy : ArchaeologyExecutionPolicy) (max t : Z) (s : session_row) : session_row :=
  {| se_principal := se_principal s; se_state := state; se_policy := policy; se_max := max; se_revision := se_revision s + 1; se_updated := t |}.
Definition moved (state : string) (t : Z) (s : session_row) : session_row := session_with state (se_policy s) (se_max s) t s.

Definition update_sessions (cond : string -> session_row -> bool) (f : session_row -> session_row) : Stmt LDB unit := fun d =>
  lcheck (bool_decide (map_Forall (fun id s => cond id s = true -> se_revision (f s) <= maxInt64) (a_sessions (l_arch d)))) tt
    (set_l_arch (set_a_sessions (map_imap (fun id s => Some (if cond id s then f s else s)) (a_sessions (l_arch d))) (l_arch d)) d).
Definition set_info (id : string) (i : session_info -> session_info) : Stmt LDB unit := fun d =>
  inr (tt, set_l_sessions (alter i id (l_sessions d)) d).

(** ** Candidates *)

Definition candidate_checks (i : candidate_info) : bool :=
  (0 <=? cf_min i) && (cf_min i <=? cf_max i) && isin (cf_cost i) ["low"; "medium"; "high"]
  && (0 <=? cf_threads i) && (cf_threads i <=? 1000000).
Definition put_candidate (key : string * string) (r : candidate_row) (i : candidate_info) (d : LDB) : LDB :=
  set_l_candidates (<[key:=i]> (l_candidates d))
    (set_l_arch (set_a_candidates (<[key:=r]> (a_candidates (l_arch d))) (l_arch d)) d).
Definition insert_candidate (key : string * string) (r : candidate_row) (i : candidate_info) : Stmt LDB unit := fun d =>
  lcheck (absent (a_candidates (l_arch d)) key && present (a_sessions (l_arch d)) key.1 && candidate_checks i) tt (put_candidate key r i d).
(** [... ON CONFLICT(session_id,id) DO UPDATE SET] every other column *)
Definition upsert_candidate (key : string * string) (r : candidate_row) (i : candidate_info) : Stmt LDB unit := fun d =>
  lcheck (present (a_sessions (l_arch d)) key.1 && candidate_checks i) tt (put_candidate key r i d).

Definition update_candidates (cond : string * string -> bool) (f : candidate_row -> candidate_row) (g : candidate_info -> candidate_info) :
    Stmt LDB unit := fun d =>
  inr (tt, set_l_candidates (map_imap (fun k i => Some (if cond k then g i else i)) (l_candidates d))
             (set_l_arch (set_a_candidates (map_imap (fun k r => Some (if cond k then f r else r)) (a_candidates (l_arch d))) (l_arch d)) d)).

(** The rows that refer to a session's candidates *)
Definition count_where {A} `{Countable K} (p : K -> A -> bool) (m : gmap K A) : Z :=
  Z.of_nat (length (List.filter (fun e => p e.1 e.2) (map_to_list m))).
Definition references (sid : string) (d : LDB) : Z :=
  count_where (fun _ r => seqb (ru_session r) sid) (l_runs d) + count_where (fun _ r => seqb (ln_session r) sid) (l_launches d)
  + count_where (fun k _ => seqb k.1 sid) (a_mappings (l_arch d)) + count_where (fun _ r => seqb (jo_session r) sid) (a_jobs (l_arch d)).
(** A foreign key of one of these rows stops the deletion. *)
Definition delete_candidates (sid : string) : Stmt LDB unit := fun d =>
  lcheck (references sid d =? 0) tt
    (set_l_candidates (filter (fun e => e.1.1 <> sid) (l_candidates d))
       (set_l_arch (set_a_candidates (filter (fun e => e.1.1 <> sid) (a_candidates (l_arch d))) (l_arch d)) d)).

(** ** Runs and what they report *)

Definition run_states : list string :=
  ["queued"; "running"; "pause_requested"; "paused"; "cancel_requested"; "canceled"; "completed"; "failed"].
Definition run_ok (r : run_row) : bool :=
  isin (ru_state r) run_states && (0 <=? ru_completed r) && match ru_total r with Some n => ru_completed r <=? n | None => true end
  && (0 <=? ru_outcomes r) && (0 <=? ru_sources r).
Definition insert_run (id : string) (r : run_row) : Stmt LDB unit := fun d =>
  lcheck (absent (l_runs d) id && present (a_sessions (l_arch d)) (ru_session r)
          && present (a_candidates (l_arch d)) (ru_session r, ru_candidate r) && run_ok r
          && bool_decide (map_Forall (fun _ o => ~ (ru_session o = ru_session r /\ ru_candidate o = ru_candidate r)) (l_runs d)))
    tt (set_l_runs (<[id:=r]> (l_runs d)) d).
Definition update_runs (cond : string -> run_row -> bool) (f : run_row -> run_row) : Stmt LDB Z := fun d =>
  lcheck (bool_decide (map_Forall (fun id r => cond id r = true -> run_ok (f r) = true) (l_runs d)))
    (count_where cond (l_runs d)) (set_l_runs (map_imap (fun id r => Some (if cond id r then f r else r)) (l_runs d)) d).

Definition insert_report (id : string) (r : report_row) : Stmt LDB unit := fun d =>
  lcheck (absent (l_outcomes d) id && present (l_runs d) (ot_run r) && (1 <=? ot_sources r) && (ot_sources r <=? 1000))
    tt (set_l_outcomes (<[id:=r]> (l_outcomes d)) d).
Definition insert_report_source (outcome : string) (position : Z) (r : provenance_row) : Stmt LDB unit := fun d =>
  lcheck (absent (l_provenance d) (outcome, position) && present (l_outcomes d) outcome && (0 <=? position) && (position <=? 99)
          && isin (pv_kind r) ["git"; "docs"; "codex_history"])
    tt (set_l_provenance (<[(outcome, position):=r]> (l_provenance d)) d).
Definition insert_report_member (outcome session : string) (r : contributor_row) : Stmt LDB unit := fun d =>
  lcheck (absent (l_contributors d) (outcome, session) && present (l_outcomes d) outcome
          && isin (co_confidence r) ["verified"; "supported"; "uncertain"])
    tt (set_l_contributors (<[(outcome, session):=r]> (l_contributors d)) d).

(** ** Handoffs *)

Definition handoff_states : list string := ["ready_to_claim"; "claimed"; "completed"; "failed"].
Definition insert_handoff (id : string) (r : handoff_row) : Stmt LDB unit := fun d =>
  lcheck (absent (l_handoffs d) id && present (a_sessions (l_arch d)) (hf_session r) && isin (hf_state r) handoff_states
          && bool_decide (map_Forall (fun _ o => hf_session o <> hf_session r) (l_handoffs d)))
    tt (set_l_handoffs (<[id:=r]> (l_handoffs d)) d).
Definition update_handoffs (cond : string -> handoff_row -> bool) (f : handoff_row -> handoff_row) : Stmt LDB unit := fun d =>
  inr (tt, set_l_handoffs (map_imap (fun id r => Some (if cond id r then f r else r)) (l_handoffs d)) d).
Definition insert_handoff_request (handoff key : string) (r : handoff_request_row) : Stmt LDB unit := fun d =>
  lcheck (absent (l_handoff_requests d) (handoff, key) && present (l_handoffs d) handoff && isin (hq_operation r) ["claim"; "report"])
    tt (set_l_handoff_requests (<[(handoff, key):=r]> (l_handoff_requests d)) d).

(** ** Launches *)

Definition launch_states : list string :=
  ["preparing"; "starting_codex"; "task_created"; "claimed"; "running"; "report_ready"; "completed"; "failed"; "uncertain"].

(** The partial unique index on [thread_id] *)
Definition thread_free (d : LDB) (id thread : string) : bool :=
  seqb thread "" || bool_decide (map_Forall (fun i o => i <> id -> ln_thread o <> thread) (l_launches d)).
Definition insert_launch (id : string) (r : launch_row) : Stmt LDB unit := fun d =>
  lcheck (absent (l_launches d) id && present (a_sessions (l_arch d)) (ln_session r)
          && present (a_candidates (l_arch d)) (ln_session r, ln_candidate r) && isin (ln_state r) launch_states && thread_free d id (ln_thread r)
          && bool_decide (map_Forall (fun _ o => ~ (ln_session o = ln_session r /\ ln_candidate o = ln_candidate r)) (l_launches d)))
    tt (set_l_launches (<[id:=r]> (l_launches d)) d).
(** One row by its key, with the rows affected *)
Definition update_launch (id : string) (cond : launch_row -> bool) (f : launch_row -> launch_row) : Stmt LDB Z := fun d =>
  match l_launches d !! id with
  | None => inr (0, d)
  | Some r =>
      if cond r then
        lcheck (isin (ln_state (f r)) launch_states && thread_free d id (ln_thread (f r))) 1 (set_l_launches (<[id:=f r]> (l_launches d)) d)
      else inr (0, d)
  end.
(** All rows in a state, for an update that keeps the thread *)
Definition update_launches (cond : launch_row -> bool) (f : launch_row -> launch_row) : Stmt LDB unit := fun d =>
  inr (tt, set_l_launches ((fun r => if cond r then f r else r) <$> l_launches d) d).

(** Two writes of one statement. *)
Definition and_then {A} (st : Stmt LDB unit) (st' : Stmt LDB A) : Stmt LDB A := fun d =>
  match st d with inl e => inl e | inr (_, d1) => st' d1 end.
