(* ===== verification/Sessions.v ===== *)
(** * Archaeology sessions, runs, handoffs and task launches

    [internal/store/project_archaeology.go], [project_archaeology_runner.go],
    [project_archaeology_handoff.go], [project_archaeology_launch.go] and
    [project_archaeology_task_grant.go]: the discovery catalog of a principal,
    the configuration and the transitions of the session, the reconciliation
    after a restart, and the three ways in which a historian reports.

    A command that ends by reading the session back for its caller is
    modelled up to that read, which changes nothing.  The process-local
    [archaeologyLaunchMu] is not modelled: every transaction is atomic, and
    other processes may write between calls. *)

From Stdlib Require Import ZArith Lia.
From stdpp Require Import base gmap strings list sets sorting.
From S2P Require Import Prelude GoText Stamp Framing CoreDB ArchDB ArchPolicy NativeJobs SessionDB.

Local Open Scope Z_scope.
Local Open Scope prog_scope.

(** ** Commands, [internal/domain/project_archaeology.go] *)

Record ArchaeologyConfig := {
  cg_SelectedProjectIDs : list string; cg_Depth : string; cg_Sources : ArchaeologySources; cg_MaxConcurrency : Z }.
Record ArchaeologyCandidate := {
  cd_ID : string; cd_CanonicalProjectID : string; cd_Name : string; cd_PathLabel : string; cd_RepositoryLabel : string;
  cd_RelativeCost : string; cd_PrivacyNote : string; cd_LastActivityAt : Z; cd_HasGit : bool; cd_HasDocs : bool;
  cd_HasCodexHistory : bool; cd_FromCodexMetadata : bool; cd_FromConfiguredRoot : bool; cd_DurationMinSeconds : Z;
  cd_DurationMaxSeconds : Z; cd_CodexThreadCount : Z }.
Record ArchaeologyDiscovery := {
  dy_Candidates : list ArchaeologyCandidate; dy_SourceRootsScanned : Z; dy_TasksExamined : Z; dy_ProjectsGrouped : Z;
  dy_Truncated : bool; dy_AppServerIdentity : string }.
Record ArchaeologyMutation := { mu_Principal : string; mu_RequestID : string; mu_BaseRevision : Z; mu_Config : ArchaeologyConfig }.
Record ArchaeologyRun := {
  rn_ID : string; rn_ProjectID : string; rn_State : string; rn_PhaseLabel : string; rn_Error : string; rn_RunnerKey : string;
  rn_CompletedUnits : Z; rn_TotalUnits : option Z; rn_OutcomesFound : Z; rn_SourcesExamined : Z; rn_UpdatedAt : Z }.
Record ArchaeologyRunUpdate := {
  up_Principal : string; up_RunID : string; up_RunnerKey : string; up_State : string; up_PhaseLabel : string; up_Error : string;
  up_CompletedUnits : Z; up_TotalUnits : option Z; up_SourcesExamined : Z; up_Outcomes : list ArchaeologyOutcome }.
Record ArchaeologyHandoffClaim := { hc_HandoffID : string; hc_RequestID : string; hc_SessionID : string }.
Record ArchaeologyHandoffReport := {
  hr_HandoffID : string; hr_RequestID : string; hr_SessionID : string; hr_Outcomes : list ArchaeologyOutcome }.
(** an empty digest is the zero array *)
Record ArchaeologyTaskClaim := {
  tc_LaunchID : string; tc_ProjectID : string; tc_ThreadID : string; tc_CodexSessionID : string; tc_GrantDigest : string;
  tc_ReportDigest : string; tc_ReportExpiresAt : Z }.
Record ArchaeologyTaskClaimResult := {
  tr_LaunchID : string; tr_ProjectID : string; tr_ThreadID : string; tr_CodexSessionID : string; tr_ReportExpiresAt : Z }.
Record ArchaeologyTaskReport := {
  tp_LaunchID : string; tp_ProjectID : string; tp_ThreadID : string; tp_CodexSessionID : string; tp_RequestID : string;
  tp_ReportDigest : string; tp_Outcomes : list ArchaeologyOutcome }.

(** The values that [archaeologyDigest] is called with here, and
    [json.Marshal] of an operation and such a value *)
Inductive sessionValue :=
  | discoverValue
  | configureValue (BaseRevision : Z) (Config : ArchaeologyConfig)
  | transitionValue (BaseRevision : Z)
  | launchValue (Principal ProjectID RequestID : string)
  | claimValue (SessionID : string)
  | reportValue (Outcomes : list ArchaeologyOutcome)
  | taskReportValue (RequestID : string) (Outcomes : list ArchaeologyOutcome).
Class SessionJSON := json_session : string -> sessionValue -> string.

Definition sessionDigest `{Sha256, SessionJSON} (operation : string) (value : sessionValue) : string :=
  sha256_Sum256 (json_session operation value).

Section Commands.
Context `{Sha256, SessionJSON}.

Definition archaeologySessionID (principal : string) : string := deterministicHistoricalID "AR-" [principal].

Definition ensureArchaeologySession (principal : string) (t : Z) : M LDB TxFail string :=
  let id := archaeologySessionID principal in
  mapped (exec (insert_session id principal t)) ;;;
  ret id.

(** ** Discovery *)

Definition validArchaeologyCandidate (c : ArchaeologyCandidate) : bool :=
  boundedCoreText (cd_ID c) 120 true && projectIDPattern (cd_CanonicalProjectID c)
  && negb (seqb (cd_CanonicalProjectID c) "general") && boundedCoreText (cd_Name c) 200 true
  && boundedCoreText (cd_PathLabel c) 300 true && boundedCoreText (cd_RepositoryLabel c) 300 false
  && isin (cd_RelativeCost c) ["low"; "medium"; "high"] && (0 <=? cd_DurationMinSeconds c)
  && (cd_DurationMinSeconds c <=? cd_DurationMaxSeconds c) && (cd_DurationMaxSeconds c <=? 86400)
  && boundedCoreText (cd_PrivacyNote c) 500 false.

(** [if c.CanonicalProjectID == "" { c.CanonicalProjectID = c.ID }] *)
Definition canonical (c : ArchaeologyCandidate) : ArchaeologyCandidate :=
  {| cd_ID := cd_ID c; cd_CanonicalProjectID := if seqb (cd_CanonicalProjectID c) "" then cd_ID c else cd_CanonicalProjectID c;
     cd_Name := cd_Name c; cd_PathLabel := cd_PathLabel c; cd_RepositoryLabel := cd_RepositoryLabel c;
     cd_RelativeCost := cd_RelativeCost c; cd_PrivacyNote := cd_PrivacyNote c; cd_LastActivityAt := cd_LastActivityAt c;
     cd_HasGit := cd_HasGit c; cd_HasDocs := cd_HasDocs c; cd_HasCodexHistory := cd_HasCodexHistory c;
     cd_FromCodexMetadata := cd_FromCodexMetadata c; cd_FromConfiguredRoot := cd_FromConfiguredRoot c;
     cd_DurationMinSeconds := cd_DurationMinSeconds c; cd_DurationMaxSeconds := cd_DurationMaxSeconds c;
     cd_CodexThreadCount := cd_CodexThreadCount c |}.

Definition check_candidate (seen : gset string) (c : ArchaeologyCandidate) : option (gset string) :=
  if validArchaeologyCandidate c && negb (has (cd_ID c) seen) then Some ({[cd_ID c]} ∪ seen) else None.

#[local] Instance by_id_dec : RelDecision (fun a b : ArchaeologyCandidate => sle (cd_ID a) (cd_ID b)).
Proof. intros a b. simpl. apply _. Defined.

Definition candidate_columns (c : ArchaeologyCandidate) : candidate_row :=
  {| ca_project := cd_CanonicalProjectID c; ca_name := cd_Name c; ca_from_root := cd_FromConfiguredRoot c; ca_selected := false |}.
Definition candidate_details (c : ArchaeologyCandidate) : candidate_info :=
  {| cf_path := cd_PathLabel c; cf_repository := cd_RepositoryLabel c;
     cf_last := if IsZero (cd_LastActivityAt c) then None else Some (cd_LastActivityAt c);
     cf_git := cd_HasGit c; cf_docs := cd_HasDocs c; cf_history := cd_HasCodexHistory c; cf_min := cd_DurationMinSeconds c;
     cf_max := cd_DurationMaxSeconds c; cf_cost := cd_RelativeCost c; cf_note := cd_PrivacyNote c;
     cf_codex := cd_FromCodexMetadata c; cf_threads := cd_CodexThreadCount c |}.

(** [SET selected=0,from_codex_metadata=0,from_configured_root=0,codex_thread_count=0,privacy_note=...] *)
Definition retired (r : candidate_row) : candidate_row :=
  {| ca_project := ca_project r; ca_name := ca_name r; ca_from_root := false; ca_selected := false |}.
Definition retired_info (i : candidate_info) : candidate_info :=
  {| cf_path := cf_path i; cf_repository := cf_repository i; cf_last := cf_last i; cf_git := cf_git i; cf_docs := cf_docs i;
     cf_history := cf_history i; cf_min := cf_min i; cf_max := cf_max i; cf_cost := cf_cost i;
     cf_note := "Retained for historical audit; refresh metadata before selecting."; cf_codex := false; cf_threads := 0 |}.

Definition refresh_candidate (sid : string) (c : ArchaeologyCandidate) : M LDB TxFail unit :=
  prior <-- attempt (exec (query (fun d => aselect a_candidates (sid, cd_ID c) (l_arch d)))) ;;
  match prior with
  | inr r =>
      require (seqb (ca_project r) "" || seqb (ca_project r) (cd_CanonicalProjectID c)) (FBody ErrConflict)
  | inl SqlNoRows => ret tt
  | inl e => throw (FBody (ErrSql e))
  end ;;;
  mapped (exec (upsert_candidate (sid, cd_ID c) (candidate_columns c) (candidate_details c))).

(** [SET discovery_state='ready',source_roots_scanned=?,tasks_examined=?,projects_grouped=?,catalog_truncated=?,
    app_server_identity=?,discovered_at=?] *)
Definition discovered (dy : ArchaeologyDiscovery) (t : Z) (i : session_info) : session_info :=
  {| si_discovery := "ready"; si_error := si_error i; si_roots := dy_SourceRootsScanned dy; si_tasks := dy_TasksExamined dy;
     si_projects := dy_ProjectsGrouped dy; si_truncated := dy_Truncated dy; si_app := dy_AppServerIdentity dy;
     si_discovered := Some t; si_created := si_created i |}.

Definition discoverWrites (sid : string) (dy : ArchaeologyDiscovery) (candidates : list ArchaeologyCandidate) (t : Z) : M LDB TxFail unit :=
  n <-- plain (exec (query (fun d => inr (references sid d)))) ;;
  (if 0 <? n then
     mapped (exec (update_candidates (fun k => seqb k.1 sid) retired retired_info)) ;;;
     forM_ candidates (refresh_candidate sid)
   else
     mapped (exec (delete_candidates sid)) ;;;
     forM_ candidates (fun c => mapped (exec (insert_candidate (sid, cd_ID c) (candidate_columns c) (candidate_details c))))) ;;;
  mapped (exec (and_then (update_sessions (fun i _ => seqb i sid) (fun s => moved (se_state s) t s)) (set_info sid (discovered dy t)))).

Definition ReplaceArchaeologyDiscovery (m : ArchaeologyMutation) (dy : ArchaeologyDiscovery) : M LDB Err unit :=
  require (negb (seqb (mu_Principal m) "") && negb (seqb (mu_RequestID m) "")
           && (Z.of_nat (length (dy_Candidates dy)) <=? 10000)
           && (0 <=? dy_SourceRootsScanned dy) && (dy_SourceRootsScanned dy <=? 100)
           && (0 <=? dy_TasksExamined dy) && (dy_TasksExamined dy <=? 10000)
           && (0 <=? dy_ProjectsGrouped dy) && (dy_ProjectsGrouped dy <=? 10000)
           && (len (dy_AppServerIdentity dy) <=? 200)) ErrInvalid ;;;
  let candidates := map canonical (dy_Candidates dy) in
  require (bool_decide (is_Some (foldM check_candidate ∅ candidates))) ErrInvalid ;;;
  runTx
    (t <-- now ;;
     sid <-- ensureArchaeologySession (mu_Principal m) t ;;
     replay <-- in_arch (claimArchaeologyRequest (mu_Principal m) (mu_RequestID m) "discover" sid
                           (sessionDigest "discover" discoverValue) t) ;;
     (if replay then ret tt
      else discoverWrites sid dy (merge_sort (fun a b => sle (cd_ID a) (cd_ID b)) candidates) t) ;;;
     ret (TxCommit tt)).

(** ** Configuration *)

Definition validArchaeologyConfig (c : ArchaeologyConfig) : bool :=
  isin (cg_Depth c) ["quick"; "standard"; "deep"] && (1 <=? cg_MaxConcurrency c) && (cg_MaxConcurrency c <=? 2)
  && (Git (cg_Sources c) || Docs (cg_Sources c) || CodexHistory (cg_Sources c)).

(** [ids[i-1] == id] for some position of the sorted slice *)
Fixpoint repeats (ids : list string) : bool :=
  match ids with
  | a :: ((b :: _) as rest) => seqb a b || repeats rest
  | _ => false
  end.

Definition select_candidate (selected : bool) (r : candidate_row) : candidate_row :=
  {| ca_project := ca_project r; ca_name := ca_name r; ca_from_root := ca_from_root r; ca_selected := selected |}.

Definition configureWrites (sid : string) (base : Z) (c : ArchaeologyConfig) (t : Z) : M LDB TxFail unit :=
  s <-- mapped (exec (query (fun d => aselect a_sessions sid (l_arch d)))) ;;
  require ((se_revision s =? base) && seqb (se_state s) "draft") (FBody ErrConflict) ;;;
  forM_ (cg_SelectedProjectIDs c) (fun id =>
    i <-- mapE (fun _ => FBody ErrInvalid) (exec (query (fun d =>
            match l_candidates d !! (sid, id) with Some i => inr i | None => inl SqlNoRows end))) ;;
    require (Git (cg_Sources c) && cf_git i || Docs (cg_Sources c) && cf_docs i || CodexHistory (cg_Sources c) && cf_history i)
      (FBody ErrInvalid)) ;;;
  plain (exec (update_candidates (fun k => seqb k.1 sid) (select_candidate false) id)) ;;;
  forM_ (cg_SelectedProjectIDs c) (fun id =>
    plain (exec (update_candidates (fun k => seqb k.1 sid && seqb k.2 id) (select_candidate true) (fun i => i)))) ;;;
  mapped (exec (update_sessions (fun i _ => seqb i sid)
    (fun s => session_with (se_state s) {| Depth := cg_Depth c; Sources := cg_Sources c |} (cg_MaxConcurrency c) t s))).

Definition ConfigureArchaeology (m : ArchaeologyMutation) : M LDB Err unit :=
  let c := mu_Config m in
  require (negb (seqb (mu_Principal m) "") && negb (seqb (mu_RequestID m) "") && validArchaeologyConfig c
           && (Z.of_nat (length (cg_SelectedProjectIDs c)) <=? ArchaeologyNativeMaxProjects)) ErrInvalid ;;;
  let ids := merge_sort sle (cg_SelectedProjectIDs c) in
  require (forallb (fun id => boundedCoreText id 120 true) ids && negb (repeats ids)) ErrInvalid ;;;
  let c := {| cg_SelectedProjectIDs := ids; cg_Depth := cg_Depth c; cg_Sources := cg_Sources c; cg_MaxConcurrency := cg_MaxConcurrency c |} in
  runTx
    (t <-- now ;;
     sid <-- ensureArchaeologySession (mu_Principal m) t ;;
     replay <-- in_arch (claimArchaeologyRequest (mu_Principal m) (mu_RequestID m) "configure" sid
                           (sessionDigest "configure" (configureValue (mu_BaseRevision m) c)) t) ;;
     (if replay then ret tt else configureWrites sid (mu_BaseRevision m) c t) ;;;
     ret (TxCommit tt)).

(** ** Transitions *)

Inductive transition := Start | Pause | Resume | Cancel.
Definition transition_name (op : transition) : string :=
  match op with Start => "start" | Pause => "pause" | Resume => "resume" | Cancel => "cancel" end.

(** [UPDATE archaeology_runs SET state=?,updated_at=?] *)
Definition run_moved (state : string) (t : Z) (r : run_row) : run_row :=
  {| ru_session := ru_session r; ru_candidate := ru_candidate r; ru_state := state; ru_phase := ru_phase r;
     ru_completed := ru_completed r; ru_total := ru_total r; ru_outcomes := ru_outcomes r; ru_sources := ru_sources r;
     ru_error := ru_error r; ru_runner := ru_runner r; ru_created := ru_created r; ru_updated := t |}.

Definition fresh_handoff (sid : string) (t : Z) : handoff_row :=
  {| hf_session := sid; hf_state := "ready_to_claim"; hf_pack := "{}"; hf_claimed_by := ""; hf_claimed := None; hf_failure := "";
     hf_created := t; hf_updated := t |}.

(** [SELECT ... FROM archaeology_handoffs WHERE id=? AND session_id=?] *)
Definition handoff_of (id sid : string) (d : LDB) : SqlErr + handoff_row :=
  match l_handoffs d !! id with
  | Some h => if seqb (hf_session h) sid then inr h else inl SqlNoRows
  | None => inl SqlNoRows
  end.
Definition session_launches (sid : string) (d : LDB) : Z := count_where (fun _ l => seqb (ln_session l) sid) (l_launches d).
Definition session_outcomes (sid : string) (d : LDB) : Z :=
  count_where (fun _ o => match l_runs d !! ot_run o with Some r => seqb (ru_session r) sid | None => false end) (l_outcomes d).

(** The export of a handoff: a retained one is reused while nobody claimed it. *)
Definition startWrites (sid : string) (t : Z) : M LDB TxFail unit :=
  selected <-- plain (exec (query (fun d =>
    inr (count_where (fun k c => seqb k.1 sid && ca_selected c) (a_candidates (l_arch d)))))) ;;
  require (negb (selected =? 0)) (FBody ErrInvalid) ;;;
  let handoffID := deterministicHistoricalID "ARH-" [sid] in
  handoff <-- attempt (exec (query (handoff_of handoffID sid))) ;;
  match handoff with
  | inl SqlNoRows => mapped (exec (insert_handoff handoffID (fresh_handoff sid t)))
  | inl e => throw (FBody (ErrSql e))
  | inr h =>
      launches <-- plain (exec (query (fun d => inr (session_launches sid d)))) ;;
      outcomes <-- plain (exec (query (fun d => inr (session_outcomes sid d)))) ;;
      handoffRequests <-- plain (exec (query (fun d =>
        inr (count_where (fun k _ => seqb k.1 handoffID) (l_handoff_requests d))))) ;;
      require (seqb (hf_state h) "ready_to_claim" && seqb (hf_claimed_by h) "" && negb (bool_decide (is_Some (hf_claimed h)))
               && (handoffRequests =? 0) && (launches =? 0) && (outcomes =? 0)) (FBody ErrConflict)
  end.

(** The guard, the next state and the other writes of a transition *)
Definition transitionWrites (sid : string) (op : transition) (state : string) (t : Z) : M LDB TxFail string :=
  match op with
  | Start =>
      require (seqb state "draft") (FBody ErrConflict) ;;;
      startWrites sid t ;;;
      ret "draft"%string
  | Pause =>
      require (seqb state "running") (FBody ErrConflict) ;;;
      mapped (exec (update_runs (fun _ r => seqb (ru_session r) sid && isin (ru_state r) ["queued"; "running"])
        (run_moved "pause_requested" t))) ;;;
      ret "pause_requested"%string
  | Resume =>
      require (seqb state "paused" || seqb state "pause_requested") (FBody ErrConflict) ;;;
      mapped (exec (update_runs (fun _ r => seqb (ru_session r) sid && isin (ru_state r) ["paused"; "pause_requested"])
        (run_moved "queued" t))) ;;;
      ret "running"%string
  | Cancel =>
      require (negb (seqb state "completed" || seqb state "canceled")) (FBody ErrConflict) ;;;
      mapped (exec (update_runs (fun _ r => seqb (ru_session r) sid && negb (isin (ru_state r) ["completed"; "failed"; "canceled"]))
        (run_moved "cancel_requested" t))) ;;;
      ret "cancel_requested"%string
  end.

Definition transitionTx (m : ArchaeologyMutation) (op : transition) (sid : string) (t : Z) : M LDB TxFail unit :=
  s <-- mapped (exec (query (fun d => aselect a_sessions sid (l_arch d)))) ;;
  require (se_revision s =? mu_BaseRevision m) (FBody ErrConflict) ;;;
  nativeBatches <-- plain (exec (query (fun d => inr (count_where (fun _ b => seqb (ba_session b) sid) (a_batches (l_arch d)))))) ;;
  require (nativeBatches =? 0) (FBody ErrUnavailable) ;;;
  match op with
  | Start => ret tt
  | _ =>
      exported <-- plain (exec (query (fun d => inr (count_where (fun _ h => seqb (hf_session h) sid) (l_handoffs d))))) ;;
      require (negb (0 <? exported)) (FBody ErrUnavailable)
  end ;;;
  next <-- transitionWrites sid op (se_state s) t ;;
  mapped (exec (update_sessions (fun i _ => seqb i sid) (moved next t))).

Definition transitionArchaeology (m : ArchaeologyMutation) (op : transition) : M LDB Err unit :=
  require (negb (seqb (mu_Principal m) "") && negb (seqb (mu_RequestID m) "")) ErrInvalid ;;;
  runTx
    (t <-- now ;;
     sid <-- ensureArchaeologySession (mu_Principal m) t ;;
     replay <-- in_arch (claimArchaeologyRequest (mu_Principal m) (mu_RequestID m) (transition_name op) sid
                           (sessionDigest (transition_name op) (transitionValue (mu_BaseRevision m))) t) ;;
     (if replay then ret tt else transitionTx m op sid t) ;;;
     ret (TxCommit tt)).

Definition StartArchaeology (m : ArchaeologyMutation) : M LDB Err unit := transitionArchaeology m Start.
Definition PauseArchaeology (m : ArchaeologyMutation) : M LDB Err unit := transitionArchaeology m Pause.
Definition ResumeArchaeology (m : ArchaeologyMutation) : M LDB Err unit := transitionArchaeology m Resume.
Definition CancelArchaeology (m : ArchaeologyMutation) : M LDB Err unit := transitionArchaeology m Cancel.
End Commands.

(** ** After a restart *)

(** state, phase label and [updated_at] *)
Definition run_phase (state phase : string) (t : Z) (r : run_row) : run_row :=
  {| ru_session := ru_session r; ru_candidate := ru_candidate r; ru_state := state; ru_phase := phase;
     ru_completed := ru_completed r; ru_total := ru_total r; ru_outcomes := ru_outcomes r; ru_sources := ru_sources r;
     ru_error := ru_error r; ru_runner := ru_runner r; ru_created := ru_created r; ru_updated := t |}.

(** the state, the Codex identity and the error *)
Definition launch_result (state thread codex turn error : string) (t : Z) (l : launch_row) : launch_row :=
  {| ln_session := ln_session l; ln_candidate := ln_candidate l; ln_state := state; ln_thread := thread; ln_codex := codex;
     ln_turn := turn; ln_client := ln_client l; ln_request := ln_request l; ln_grant := ln_grant l;
     ln_grant_expires := ln_grant_expires l; ln_grant_consumed := ln_grant_consumed l; ln_report := ln_report l;
     ln_report_expires := ln_report_expires l; ln_report_consumed := ln_report_consumed l;
     ln_report_request := ln_report_request l; ln_error := error; ln_created := ln_created l; ln_updated := t |}.

Definition has_job (d : LDB) (batch : string) (p : job_row -> bool) : bool :=
  existsb (fun e => seqb (jo_batch e.2) batch && p e.2) (map_to_list (a_jobs (l_arch d))).
Definition has_batch (d : LDB) (sid : string) (p : batch_row -> bool) : bool :=
  existsb (fun e => seqb (ba_session e.2) sid && p e.2) (map_to_list (a_batches (l_arch d))).

(** [WHERE state='cancel_requested' AND NOT EXISTS ...], for batches and for
    sessions with and without a canceled batch *)
Definition batch_settled (d : LDB) (id : string) (b : batch_row) : bool :=
  seqb (ba_state b) "cancel_requested"
  && negb (has_job d id (fun r => isin (jo_state r) ["queued"; "starting"; "active"; "report_ready"; "cancel_requested"; "uncertain"])).
Definition session_drafted (d : LDB) (id : string) (s : session_row) : bool :=
  seqb (se_state s) "cancel_requested" && has_batch d id (fun b => seqb (ba_state b) "canceled")
  && negb (has_batch d id (fun b => isin (ba_state b) ["queued"; "running"; "cancel_requested"; "attention"])).
Definition session_canceled (d : LDB) (id : string) (s : session_row) : bool :=
  seqb (se_state s) "cancel_requested" && negb (has_batch d id (fun _ => true)).

Definition reconcileRuns (t : Z) : M LDB TxFail unit :=
  mapped (exec (update_runs (fun _ r => isin (ru_state r) ["running"; "pause_requested"])
    (run_phase "paused" "Paused after server restart" t))) ;;;
  mapped (exec (update_runs (fun _ r => seqb (ru_state r) "cancel_requested") (run_phase "canceled" "Canceled" t))) ;;;
  mapped (exec (update_sessions (fun _ s => isin (se_state s) ["running"; "pause_requested"]) (moved "paused" t))) ;;;
  mapped (exec (update_launches (fun l => seqb (ln_state l) "starting_codex") (fun l =>
    launch_result "uncertain" (ln_thread l) (ln_codex l) (ln_turn l)
      "Server restarted before Codex task creation was confirmed." t l))).

Definition reconcileJobs (t : Z) : M LDB TxFail unit :=
  mapped (exec (on_arch (update_jobs (fun r => seqb (jo_state r) "cancel_requested") (fun r =>
    job_ended "interrupted" "server_restarted_after_cancel_request" (coalesce_terminal t r) t r)))) ;;;
  mapped (exec (on_arch (update_jobs (fun r => isin (jo_state r) ["starting"; "active"; "report_ready"])
    (job_ended "uncertain" "server_restarted_during_active_task" (Some t) t)))).

Definition reconcileBatches (t : Z) : M LDB TxFail unit :=
  mapped (exec (fun d => on_arch (update_batches (batch_settled d) (batch_with "canceled" t)) d)) ;;;
  mapped (exec (fun d => update_sessions (session_drafted d) (moved "draft" t) d)) ;;;
  mapped (exec (fun d => update_sessions (session_canceled d) (moved "canceled" t) d)) ;;;
  mapped (exec (fun d => on_arch (update_batches (fun id _ => has_job d id (fun r => seqb (jo_state r) "uncertain"))
    (batch_with "attention" t)) d)).

Definition ReconcileArchaeology : M LDB Err unit :=
  t <-- now ;;
  runTx (reconcileRuns t ;;; reconcileJobs t ;;; reconcileBatches t ;;; ret (TxCommit tt)).

(** ** Reports *)

(** The rows of one reported outcome *)
Definition report_outcome (id runID projectID : string) (o : ArchaeologyOutcome) (t : Z) : M LDB TxFail unit :=
  mapped (exec (insert_report id
    {| ot_run := runID; ot_project := projectID; ot_title := ao_Title o; ot_summary := ao_Summary o;
       ot_sources := ao_SourceCount o; ot_proposal := ao_ProposalJSON o; ot_created := t |})) ;;;
  forM_ (imap pair (ao_Provenance o)) (fun ps =>
    mapped (exec (insert_report_source id (Z.of_nat ps.1)
      {| pv_kind := s_Kind ps.2; pv_stable := s_StableID ps.2; pv_digest := s_Digest ps.2; pv_occurred := s_OccurredAt ps.2 |}))) ;;;
  forM_ (ao_Contributors o) (fun m =>
    mapped (exec (insert_report_member id (ac_SessionID m)
      {| co_contribution := ac_Contribution m; co_strength := ac_DemonstratedStrength m;
         co_uncertainty := ac_Uncertainty m; co_confidence := ac_Confidence m |}))).

Definition total_sources (os : list ArchaeologyOutcome) : Z := fold_right (fun o n => ao_SourceCount o + n) 0 os.

(** The run of a finished report *)
Definition reported_run (sid candidate : string) (outcomes sources : Z) (runner : string) (t : Z) : run_row :=
  {| ru_session := sid; ru_candidate := candidate; ru_state := "completed"; ru_phase := "Historian report received";
     ru_completed := sources; ru_total := Some sources; ru_outcomes := outcomes; ru_sources := sources; ru_error := "";
     ru_runner := runner; ru_created := t; ru_updated := t |}.

(** ** Runs *)

(** [ORDER BY created_at,id], by the texts of the stamps *)
Definition run_order (a b : string * run_row) : Prop :=
  if seqb (stamp (ru_created a.2)) (stamp (ru_created b.2)) then sle a.1 b.1
  else sle (stamp (ru_created a.2)) (stamp (ru_created b.2)).
#[local] Instance run_order_dec : RelDecision run_order.
Proof. intros a b. unfold run_order. destruct (seqb _ _); apply _. Defined.

Definition next_run (sid : string) (d : LDB) : SqlErr + (string * run_row) :=
  match merge_sort run_order (filter (fun e => ru_session e.2 = sid /\ ru_state e.2 = "queued"%string) (map_to_list (l_runs d))) with
  | e :: _ => inr e
  | [] => inl SqlNoRows
  end.

Definition active_runs (sid : string) (d : LDB) : Z :=
  count_where (fun _ r => seqb (ru_session r) sid && seqb (ru_state r) "running") (l_runs d).

Definition claimed_run (runner : string) (t : Z) (r : run_row) : run_row :=
  {| ru_session := ru_session r; ru_candidate := ru_candidate r; ru_state := "running"; ru_phase := "Historian examining selected sources";
     ru_completed := ru_completed r; ru_total := ru_total r; ru_outcomes := ru_outcomes r; ru_sources := ru_sources r;
     ru_error := ru_error r; ru_runner := runner; ru_created := ru_created r; ru_updated := t |}.

Definition ClaimArchaeologyRun (principal runnerKey : string) : M LDB Err ArchaeologyRun :=
  require (boundedCoreText principal 200 true && boundedCoreText runnerKey 200 true) ErrInvalid ;;;
  runTx
    (s <-- mapped (exec (query (fun d => session_by_principal principal (l_arch d)))) ;;
     let '(sid, srow) := s in
     require (seqb (se_state srow) "running") (FBody ErrConflict) ;;;
     active <-- plain (exec (query (fun d => inr (active_runs sid d)))) ;;
     require (active <? se_max srow) (FBody ErrConflict) ;;;
     e <-- mapped (exec (query (next_run sid))) ;;
     let '(id, r) := e in
     t <-- now ;;
     changed <-- mapped (exec (update_runs (fun i x => seqb i id && seqb (ru_state x) "queued") (claimed_run runnerKey t))) ;;
     require (changed =? 1) (FBody ErrConflict) ;;;
     ret (TxCommit {| rn_ID := id; rn_ProjectID := ru_candidate r; rn_State := "running";
                      rn_PhaseLabel := "Historian examining selected sources"; rn_Error := ru_error r; rn_RunnerKey := runnerKey;
                      rn_CompletedUnits := ru_completed r; rn_TotalUnits := ru_total r; rn_OutcomesFound := ru_outcomes r;
                      rn_SourcesExamined := ru_sources r; rn_UpdatedAt := t |})).

Section Reporting.
Context `{Sha256, SessionJSON, ProposalJSON}.

Definition updated_run (u : ArchaeologyRunUpdate) (t : Z) (r : run_row) : run_row :=
  {| ru_session := ru_session r; ru_candidate := ru_candidate r; ru_state := up_State u; ru_phase := up_PhaseLabel u;
     ru_completed := up_CompletedUnits u; ru_total := up_TotalUnits u; ru_outcomes := Z.of_nat (length (up_Outcomes u));
     ru_sources := up_SourcesExamined u; ru_error := up_Error u; ru_runner := ru_runner r; ru_created := ru_created r; ru_updated := t |}.

Definition session_runs (sid : string) (p : string -> bool) (d : LDB) : Z :=
  count_where (fun _ r => seqb (ru_session r) sid && p (ru_state r)) (l_runs d).

(** The state of a session, from the states of its runs *)
Definition runs_state (unfinished failed paused canceled : Z) : string :=
  if unfinished =? 0 then
    if 0 <? failed then "failed" else if 0 <? canceled then "canceled" else "completed"
  else if paused =? unfinished then "paused" else "running".

(** Which answers of a runner a run in a given state accepts *)
Definition answer_allowed (current state : string) : bool :=
  isin current ["running"; "pause_requested"; "cancel_requested"]
  && negb (seqb current "pause_requested" && negb (isin state ["paused"; "canceled"; "failed"]))
  && negb (seqb current "cancel_requested" && negb (isin state ["canceled"; "failed"])).

Definition updateRunTx (u : ArchaeologyRunUpdate) (t : Z) : M LDB TxFail (TxOut unit) :=
  r <-- mapped (exec (query (fun d =>
    match l_runs d !! up_RunID u with
    | Some r =>
        match a_sessions (l_arch d) !! ru_session r with
        | Some s => if seqb (se_principal s) (up_Principal u) then inr r else inl SqlNoRows
        | None => inl SqlNoRows
        end
    | None => inl SqlNoRows
    end))) ;;
  require (seqb (ru_runner r) (up_RunnerKey u) && answer_allowed (ru_state r) (up_State u)) (FBody ErrConflict) ;;;
  (if seqb (up_State u) "completed" then
     forM_ (up_Outcomes u) (fun o =>
       require (seqb (ao_ProjectID o) (ru_candidate r)) (FBody ErrInvalid) ;;;
       let id := if seqb (ao_ID o) "" then deterministicHistoricalID "ARO-" [up_RunID u; ao_Title o] else ao_ID o in
       report_outcome id (up_RunID u) (ao_ProjectID o) o t)
   else ret tt) ;;;
  mapped (exec (update_runs (fun i _ => seqb i (up_RunID u)) (updated_run u t))) ;;;
  counts <-- plain (exec (query (fun d => let sid := ru_session r in
    inr (session_runs sid (fun st => negb (isin st ["completed"; "failed"; "canceled"])) d, session_runs sid (fun st => seqb st "failed") d,
         session_runs sid (fun st => seqb st "paused") d, session_runs sid (fun st => seqb st "canceled") d)))) ;;
  let '(unfinished, failed, paused, canceled) := counts in
  mapped (exec (update_sessions (fun i _ => seqb i (ru_session r)) (moved (runs_state unfinished failed paused canceled) t))) ;;;
  ret (TxCommit tt).

Definition UpdateArchaeologyRun (u : ArchaeologyRunUpdate) : M LDB Err unit :=
  require (boundedCoreText (up_Principal u) 200 true && boundedCoreText (up_RunID u) 120 true
           && boundedCoreText (up_RunnerKey u) 200 true && boundedCoreText (up_PhaseLabel u) 120 false
           && boundedCoreText (up_Error u) 500 false && (0 <=? up_CompletedUnits u) && (0 <=? up_SourcesExamined u)) ErrInvalid ;;;
  require (match up_TotalUnits u with Some n => up_CompletedUnits u <=? n | None => true end) ErrInvalid ;;;
  require (isin (up_State u) ["running"; "paused"; "canceled"; "completed"; "failed"]) ErrInvalid ;;;
  require (seqb (up_State u) "completed" || Nat.eqb (length (up_Outcomes u)) 0) ErrInvalid ;;;
  t <-- now ;;
  require (forallb (fun o => validArchaeologyOutcome o t) (up_Outcomes u)) ErrInvalid ;;;
  runTx (updateRunTx u t).

(** ** Handoffs *)

Definition claimHandoffRequest (handoffID key operation sessionID digest : string) (t : Z) : M LDB TxFail bool :=
  found <-- attempt (exec (query (fun d =>
    match l_handoff_requests d !! (handoffID, key) with Some r => inr r | None => inl SqlNoRows end))) ;;
  match found with
  | inr r =>
      require (seqb (hq_operation r) operation && seqb (hq_session r) sessionID && seqb (hq_digest r) digest) (FBody ErrConflict) ;;;
      ret true
  | inl SqlNoRows =>
      mapped (exec (insert_handoff_request handoffID key
        {| hq_operation := operation; hq_session := sessionID; hq_digest := digest; hq_recorded := t |})) ;;;
      ret false
  | inl e => throw (FBody (ErrSql e))
  end.

(** [archaeology_handoffs h JOIN archaeology_sessions s ON s.id=h.session_id WHERE h.id=?] *)
Definition handoff_join (id : string) (d : LDB) : SqlErr + (handoff_row * session_row) :=
  match l_handoffs d !! id with
  | Some h => match a_sessions (l_arch d) !! hf_session h with Some s => inr (h, s) | None => inl SqlNoRows end
  | None => inl SqlNoRows
  end.

Definition handoff_moved (state by_ : string) (claimed : option Z) (t : Z) (h : handoff_row) : handoff_row :=
  {| hf_session := hf_session h; hf_state := state; hf_pack := hf_pack h; hf_claimed_by := by_; hf_claimed := claimed;
     hf_failure := hf_failure h; hf_created := hf_created h; hf_updated := t |}.

Definition ClaimArchaeologyHandoff (c : ArchaeologyHandoffClaim) : M LDB Err unit :=
  require (boundedCoreText (hc_HandoffID c) 120 true && boundedCoreText (hc_RequestID c) 200 true
           && boundedCoreText (hc_SessionID c) 200 true) ErrInvalid ;;;
  runTx
    (t <-- now ;;
     replay <-- claimHandoffRequest (hc_HandoffID c) (hc_RequestID c) "claim" (hc_SessionID c)
                  (sessionDigest "claim" (claimValue (hc_SessionID c))) t ;;
     hs <-- mapped (exec (query (handoff_join (hc_HandoffID c)))) ;;
     (if replay then require (seqb (hf_claimed_by hs.1) (hc_SessionID c)) (FBody ErrConflict)
      else
        require (seqb (hf_state hs.1) "ready_to_claim") (FBody ErrConflict) ;;;
        mapped (exec (update_handoffs (fun i _ => seqb i (hc_HandoffID c)) (handoff_moved "claimed" (hc_SessionID c) (Some t) t))) ;;;
        mapped (exec (update_sessions (fun _ s => seqb (se_principal s) (se_principal hs.2)) (moved "running" t)))) ;;;
     ret (TxCommit tt)).

(** [SELECT id FROM archaeology_candidates WHERE session_id=? AND selected=1 ORDER BY id] *)
Definition selected_ids (sid : string) (d : LDB) : list string :=
  merge_sort sle (map (fun e => e.1.2) (filter (fun e => e.1.1 = sid /\ ca_selected e.2 = true) (map_to_list (a_candidates (l_arch d))))).

Definition handoffWrites (c : ArchaeologyHandoffReport) (sid : string) (t : Z) : M LDB TxFail unit :=
  selected <-- plain (exec (query (fun d => inr (selected_ids sid d)))) ;;
  require (forallb (fun o => isin (ao_ProjectID o) selected) (hr_Outcomes c)) (FBody ErrInvalid) ;;;
  forM_ selected (fun candidate =>
    let own := List.filter (fun o => seqb (ao_ProjectID o) candidate) (hr_Outcomes c) in
    mapped (exec (insert_run (deterministicHistoricalID "ARR-" [sid; candidate])
      (reported_run sid candidate (Z.of_nat (length own)) (total_sources own) (hr_SessionID c) t)))) ;;;
  forM_ (hr_Outcomes c) (fun o =>
    let id := if seqb (ao_ID o) "" then deterministicHistoricalID "ARO-" [hr_HandoffID c; ao_ProjectID o; ao_Title o] else ao_ID o in
    report_outcome id (deterministicHistoricalID "ARR-" [sid; ao_ProjectID o]) (ao_ProjectID o) o t) ;;;
  mapped (exec (update_handoffs (fun i _ => seqb i (hr_HandoffID c))
    (fun h => handoff_moved "completed" (hf_claimed_by h) (hf_claimed h) t h))) ;;;
  mapped (exec (update_sessions (fun i _ => seqb i sid) (moved "completed" t))).

Definition ReportArchaeologyHandoff (c : ArchaeologyHandoffReport) : M LDB Err unit :=
  require (boundedCoreText (hr_HandoffID c) 120 true && boundedCoreText (hr_RequestID c) 200 true
           && boundedCoreText (hr_SessionID c) 200 true && (1 <=? Z.of_nat (length (hr_Outcomes c)))
           && (Z.of_nat (length (hr_Outcomes c)) <=? 25)) ErrInvalid ;;;
  t <-- now ;;
  require (forallb (fun o => validArchaeologyOutcome o t) (hr_Outcomes c)) ErrInvalid ;;;
  runTx
    (replay <-- claimHandoffRequest (hr_HandoffID c) (hr_RequestID c) "report" (hr_SessionID c)
                  (sessionDigest "report" (reportValue (hr_Outcomes c))) t ;;
     hs <-- mapped (exec (query (handoff_join (hr_HandoffID c)))) ;;
     (if replay then ret tt
      else
        require (seqb (hf_state hs.1) "claimed" && seqb (hf_claimed_by hs.1) (hr_SessionID c)) (FBody ErrConflict) ;;;
        handoffWrites c (hf_session hs.1) t) ;;;
     ret (TxCommit tt)).

(** ** Task launches *)

Definition new_launch (sid candidate client request grant : string) (expires t : Z) : launch_row :=
  {| ln_session := sid; ln_candidate := candidate; ln_state := "starting_codex"; ln_thread := ""; ln_codex := ""; ln_turn := "";
     ln_client := client; ln_request := request; ln_grant := grant; ln_grant_expires := expires; ln_grant_consumed := None;
     ln_report := None; ln_report_expires := None; ln_report_consumed := None; ln_report_request := None; ln_error := "";
     ln_created := t; ln_updated := t |}.

(** [FROM archaeology_sessions s JOIN archaeology_candidates c ON c.session_id=s.id WHERE s.principal=? AND c.id=? AND c.selected=1] *)
Definition selected_session (principal candidate : string) (d : LDB) : SqlErr + string :=
  match session_by_principal principal (l_arch d) with
  | inl e => inl e
  | inr (sid, _) =>
      match a_candidates (l_arch d) !! (sid, candidate) with
      | Some c => if ca_selected c then inr sid else inl SqlNoRows
      | None => inl SqlNoRows
      end
  end.

Definition launch_by_id (id : string) (d : LDB) : SqlErr + launch_row :=
  match l_launches d !! id with Some l => inr l | None => inl SqlNoRows end.

(** The launch, and whether this call reserved it *)
Definition PrepareArchaeologyTaskLaunch (principal projectID requestID clientMessageID grantDigest : string) (expiresAt : Z)
    : M LDB Err (launch_row * bool) :=
  require (negb (seqb principal "") && boundedCoreText projectID 120 true && boundedCoreText requestID 200 true
           && boundedCoreText clientMessageID 200 true && negb (seqb grantDigest "")) ErrInvalid ;;;
  t0 <-- now ;;
  require (t0 <? expiresAt) ErrInvalid ;;;
  prepared <-- runTx
    (sid <-- mapped (exec (query (selected_session principal projectID))) ;;
     let id := deterministicHistoricalID "ARL-" [sid; projectID] in
     let requestDigest := sessionDigest "launch" (launchValue principal projectID requestID) in
     t <-- now ;;
     prior <-- attempt (exec (query (launch_by_id id))) ;;
     reserved <-- match prior with
                  | inr l =>
                      require (seqb (ln_request l) requestDigest && seqb (ln_client l) clientMessageID) (FBody ErrConflict) ;;;
                      ret false
                  | inl SqlNoRows =>
                      mapped (exec (insert_launch id (new_launch sid projectID clientMessageID requestDigest grantDigest expiresAt t))) ;;;
                      ret true
                  | inl e => throw (FBody (ErrSql e))
                  end ;;
     ret (TxCommit (id, reserved))) ;;
  launch <-- direct (query (launch_by_id prepared.1)) ;;
  ret (launch, prepared.2).

Definition CompleteArchaeologyTaskLaunch (launch : ArchaeologyLaunchResult) : M LDB Err launch_row :=
  require (boundedCoreText (la_LaunchID launch) 120 true && boundedCoreText (la_ProjectID launch) 120 true
           && boundedCoreText (la_State launch) 40 true && boundedCoreText (la_ThreadID launch) 120 false
           && boundedCoreText (la_CodexSessionID launch) 120 false && boundedCoreText (la_TurnID launch) 120 false
           && boundedCoreText (la_Error launch) 500 false) ErrInvalid ;;;
  require (if seqb (la_State launch) "task_created"
           then negb (seqb (la_ThreadID launch) "" || seqb (la_CodexSessionID launch) "" || seqb (la_TurnID launch) "")
           else isin (la_State launch) ["failed"; "uncertain"]) ErrInvalid ;;;
  t <-- now ;;
  changed <-- direct (update_launch (la_LaunchID launch)
    (fun l => seqb (ln_candidate l) (la_ProjectID launch) && seqb (ln_state l) "starting_codex")
    (launch_result (la_State launch) (la_ThreadID launch) (la_CodexSessionID launch) (la_TurnID launch) (la_Error launch) t)) ;;
  require (changed =? 1) ErrConflict ;;;
  direct (query (launch_by_id (la_LaunchID launch))).

Definition launch_claimed (digest : string) (expires t : Z) (l : launch_row) : launch_row :=
  {| ln_session := ln_session l; ln_candidate := ln_candidate l; ln_state := "claimed"; ln_thread := ln_thread l; ln_codex := ln_codex l;
     ln_turn := ln_turn l; ln_client := ln_client l; ln_request := ln_request l; ln_grant := ln_grant l;
     ln_grant_expires := ln_grant_expires l;
     ln_grant_consumed := match ln_grant_consumed l with Some x => Some x | None => Some t end;
     ln_report := Some digest; ln_report_expires := Some expires; ln_report_consumed := None; ln_report_request := None;
     ln_error := ln_error l; ln_created := ln_created l; ln_updated := t |}.

Definition ClaimArchaeologyTaskLaunch (c : ArchaeologyTaskClaim) : M LDB Err ArchaeologyTaskClaimResult :=
  require (boundedCoreText (tc_LaunchID c) 120 true && boundedCoreText (tc_ProjectID c) 120 true
           && boundedCoreText (tc_ThreadID c) 120 true && boundedCoreText (tc_CodexSessionID c) 120 true
           && negb (seqb (tc_GrantDigest c) "") && negb (seqb (tc_ReportDigest c) "")) ErrInvalid ;;;
  t0 <-- now ;;
  require (t0 <? tc_ReportExpiresAt c) ErrInvalid ;;;
  runTx
    (l <-- mapped (exec (query (launch_by_id (tc_LaunchID c)))) ;;
     require (seqb (ln_candidate l) (tc_ProjectID c) && seqb (ln_thread l) (tc_ThreadID c)
              && seqb (ln_codex l) (tc_CodexSessionID c) && seqb (ln_grant l) (tc_GrantDigest c)) (FBody ErrForbidden) ;;;
     t1 <-- now ;;
     require (t1 <? ln_grant_expires l) (FBody ErrForbidden) ;;;
     require (seqb (ln_state l) "task_created" && negb (bool_decide (is_Some (ln_grant_consumed l)))) (FBody ErrConflict) ;;;
     t <-- now ;;
     mapped (exec (update_launch (tc_LaunchID c) (fun _ => true) (launch_claimed (tc_ReportDigest c) (tc_ReportExpiresAt c) t))) ;;;
     ret (TxCommit {| tr_LaunchID := tc_LaunchID c; tr_ProjectID := ln_candidate l; tr_ThreadID := ln_thread l;
                      tr_CodexSessionID := ln_codex l; tr_ReportExpiresAt := tc_ReportExpiresAt c |})).

Definition launch_completed (request : string) (t : Z) (l : launch_row) : launch_row :=
  {| ln_session := ln_session l; ln_candidate := ln_candidate l; ln_state := "completed"; ln_thread := ln_thread l; ln_codex := ln_codex l;
     ln_turn := ln_turn l; ln_client := ln_client l; ln_request := ln_request l; ln_grant := ln_grant l;
     ln_grant_expires := ln_grant_expires l; ln_grant_consumed := ln_grant_consumed l; ln_report := ln_report l;
     ln_report_expires := ln_report_expires l; ln_report_consumed := Some t; ln_report_request := Some request;
     ln_error := ln_error l; ln_created := ln_created l; ln_updated := t |}.

Definition taskReportWrites (c : ArchaeologyTaskReport) (l : launch_row) (requestDigest : string) (t : Z) : M LDB TxFail unit :=
  let sid := ln_session l in
  let runID := deterministicHistoricalID "ARR-" [sid; ln_candidate l] in
  mapped (exec (insert_run runID (reported_run sid (ln_candidate l) (Z.of_nat (length (tp_Outcomes c))) (total_sources (tp_Outcomes c))
    (tp_CodexSessionID c) t))) ;;;
  forM_ (tp_Outcomes c) (fun o =>
    let id := if seqb (ao_ID o) "" then deterministicHistoricalID "ARO-" [tp_LaunchID c; ln_candidate l; ao_Title o] else ao_ID o in
    report_outcome id runID (ln_candidate l) o t) ;;;
  mapped (exec (update_launch (tp_LaunchID c) (fun _ => true) (launch_completed requestDigest t))) ;;;
  remaining <-- plain (exec (query (fun d =>
    inr (count_where (fun _ x => seqb (ln_session x) sid && negb (seqb (ln_state x) "completed")) (l_launches d))))) ;;
  if remaining =? 0 then
    mapped (exec (update_sessions (fun i _ => seqb i sid) (moved "completed" t))) ;;;
    mapped (exec (update_handoffs (fun _ h => seqb (hf_session h) sid)
      (fun h => handoff_moved "completed" (hf_claimed_by h) (hf_claimed h) t h)))
  else mapped (exec (update_sessions (fun i _ => seqb i sid) (moved "running" t))).

Definition ReportArchaeologyTaskLaunch (c : ArchaeologyTaskReport) : M LDB Err unit :=
  require (boundedCoreText (tp_LaunchID c) 120 true && boundedCoreText (tp_ProjectID c) 120 true
           && boundedCoreText (tp_ThreadID c) 120 true && boundedCoreText (tp_CodexSessionID c) 120 true
           && boundedCoreText (tp_RequestID c) 200 true && negb (seqb (tp_ReportDigest c) "")
           && (1 <=? Z.of_nat (length (tp_Outcomes c))) && (Z.of_nat (length (tp_Outcomes c)) <=? 25)) ErrInvalid ;;;
  t <-- now ;;
  require (forallb (fun o => seqb (ao_ProjectID o) (tp_ProjectID c) && validArchaeologyOutcome o t) (tp_Outcomes c)) ErrInvalid ;;;
  let requestDigest := sessionDigest "task-report" (taskReportValue (tp_RequestID c) (tp_Outcomes c)) in
  runTx
    (l <-- mapped (exec (query (fun d =>
       match l_launches d !! tp_LaunchID c with
       | Some l => if bool_decide (is_Some (a_sessions (l_arch d) !! ln_session l)) then inr l else inl SqlNoRows
       | None => inl SqlNoRows
       end))) ;;
     require (seqb (ln_candidate l) (tp_ProjectID c) && seqb (ln_thread l) (tp_ThreadID c) && seqb (ln_codex l) (tp_CodexSessionID c)
              && seqb (default ""%string (ln_report l)) (tp_ReportDigest c)) (FBody ErrForbidden) ;;;
     if seqb (ln_state l) "completed" then
       require (bool_decide (ln_report_request l = Some requestDigest)) (FBody ErrConflict) ;;;
       ret (TxCommit tt)
     else
       require (isin (ln_state l) ["claimed"; "running"]
                && match ln_report_expires l with Some x => t <? x | None => false end) (FBody ErrForbidden) ;;;
       taskReportWrites c l requestDigest t ;;;
       ret (TxCommit tt)).
End Reporting.
