(* ===== verification/SessionSpec.v ===== *)
(** * What a committed write does to sessions, runs, handoffs and launches

    Every operation of [Sessions] moves runs along one state machine, moves a
    launch forward and never lets its grant be used again, appends to the
    reports, and leaves the native jobs and the persistence ledger in the
    orders that [NativeSpec] and [LedgerSpec] state. *)

From Stdlib Require Import ZArith Lia.
From stdpp Require Import base gmap strings list sets sorting relations.
From S2P Require Import Prelude GoText Framing CoreDB ArchDB ArchPolicy NativeJobs NativeSpec Ledger LedgerSpec SessionDB Sessions.

Local Open Scope Z_scope.
Local Open Scope prog_scope.

#[local] Set Default Proof Using "Type*".

(** ** The state machine of a run *)

Definition run_final : list string := ["completed"; "failed"; "canceled"].

(** The answers of a runner: the state its run is in, and the state it reports *)
Definition answer_edges : list (string * string) :=
  [("running", "running"); ("running", "paused"); ("running", "canceled"); ("running", "completed"); ("running", "failed");
   ("pause_requested", "paused"); ("pause_requested", "canceled"); ("pause_requested", "failed");
   ("cancel_requested", "canceled"); ("cancel_requested", "failed")]%string.

Inductive run_move : string -> string -> Prop :=
  | rm_claim : run_move "queued" "running"
  | rm_pause s : s ∈ ["queued"; "running"]%string -> run_move s "pause_requested"
  | rm_resume s : s ∈ ["paused"; "pause_requested"]%string -> run_move s "queued"
  | rm_cancel s : s ∉ run_final -> run_move s "cancel_requested"
  | rm_restart s : s ∈ ["running"; "pause_requested"]%string -> run_move s "paused"
  | rm_restart_canceled : run_move "cancel_requested" "canceled"
  | rm_answer s s' : (s, s') ∈ answer_edges -> run_move s s'.

Lemma isin_elem s l : isin s l = true <-> s ∈ l.
Proof. apply bool_decide_eq_true. Qed.

Ltac in_cases H := rewrite ?elem_of_cons, elem_of_nil in H; repeat destruct H as [H|H]; try done.

(** The guard of the update lets through no answer beyond these edges. *)
Lemma answer_edge s s' :
  answer_allowed s s' = true -> isin s' ["running"; "paused"; "canceled"; "completed"; "failed"] = true -> (s, s') ∈ answer_edges.
Proof.
  unfold answer_allowed. rewrite !andb_true_iff, !negb_true_iff. intros [[Hs%isin_elem Hp] Hc] Ht%isin_elem.
  in_cases Hs; subst; in_cases Ht; subst; try discriminate Hp; try discriminate Hc; unfold answer_edges; set_solver.
Qed.

Lemma run_move_live s s' : run_move s s' -> s ∉ run_final.
Proof.
  unfold run_final. destruct 1 as [|s Hs|s Hs|s Hs|s Hs| |s s' Hs]; try exact Hs;
    intros Hf; in_cases Hf; subst; unfold answer_edges in *; try in_cases Hs.
Qed.

(** ** Rows *)

(** Every row of a table is still there, a step further. *)
Definition rows {A} `{Countable K} (step : relation A) (m m' : gmap K A) : Prop :=
  forall k x, m !! k = Some x -> exists x', m' !! k = Some x' /\ step x x'.

#[export] Instance rows_refl {A} `{Countable K} (step : relation A) `{!Reflexive step} : Reflexive (rows (K := K) step).
Proof. intros m k x Hx. exists x. by split. Qed.
#[export] Instance rows_trans {A} `{Countable K} (step : relation A) `{!Transitive step} : Transitive (rows (K := K) step).
Proof.
  intros m1 m2 m3 H1 H2 k x Hx. destruct (H1 k x Hx) as (y & Hy & Hs). destruct (H2 k y Hy) as (z & Hz & Hs').
  exists z. split; [done|by etrans].
Qed.

Section Rows.
Context {A} `{Countable K} (step : relation A) `{!Reflexive step}.
Implicit Types (m : gmap K A).

Lemma rows_insert m k x : m !! k = None -> rows step m (<[k:=x]> m).
Proof. intros Hk i y Hy. exists y. rewrite lookup_insert_ne by congruence. by split. Qed.

Lemma rows_replace m k x x' : m !! k = Some x -> step x x' -> rows step m (<[k:=x']> m).
Proof.
  intros Hk Hs i y Hy. destruct (decide (k = i)) as [->|Hne].
  - exists x'. rewrite lookup_insert_eq. split; [done|]. by simplify_eq.
  - exists y. rewrite lookup_insert_ne by done. by split.
Qed.

Lemma rows_imap m (cond : K -> A -> bool) f :
  (forall k x, m !! k = Some x -> cond k x = true -> step x (f x)) ->
  rows step m (map_imap (fun k x => Some (if cond k x then f x else x)) m).
Proof.
  intros Hf k x Hx. exists (if cond k x then f x else x). rewrite map_lookup_imap, Hx. simpl. split; [done|].
  destruct (cond k x) eqn:E; [by eapply Hf|reflexivity].
Qed.

Lemma rows_fmap m (cond : A -> bool) f :
  (forall x, cond x = true -> step x (f x)) -> rows step m ((fun x => if cond x then f x else x) <$> m).
Proof.
  intros Hf k x Hx. exists (if cond x then f x else x). rewrite lookup_fmap, Hx. simpl. split; [done|].
  destruct (cond x) eqn:E; [by apply Hf|reflexivity].
Qed.
End Rows.

(** A run stays with its project, follows the machine, and never changes
    once it is over. *)
Record run_step (r r' : run_row) : Prop := {
  rs_owner : ru_session r' = ru_session r /\ ru_candidate r' = ru_candidate r /\ ru_created r' = ru_created r;
  rs_moves : rtc run_move (ru_state r) (ru_state r');
  rs_final : ru_state r ∈ run_final -> r' = r;
}.

#[export] Instance run_step_refl : Reflexive run_step.
Proof. intros r. by split. Qed.
#[export] Instance run_step_trans : Transitive run_step.
Proof.
  intros r1 r2 r3 [(O1 & O1' & O1'') M1 F1] [(O2 & O2' & O2'') M2 F2]. split.
  - split_and!; congruence.
  - by etrans.
  - intros Hf. pose proof (F1 Hf) as ->. auto.
Qed.

Lemma run_step_move r r' :
  ru_session r' = ru_session r -> ru_candidate r' = ru_candidate r -> ru_created r' = ru_created r ->
  run_move (ru_state r) (ru_state r') -> run_step r r'.
Proof.
  intros ? ? ? Hm. split; [done|by apply rtc_once|]. intros Hf. by apply run_move_live in Hm.
Qed.

(** *** Launches *)

Definition launch_final : list string := ["completed"; "failed"; "uncertain"].
Definition launch_rank (state : string) : Z :=
  if isin state launch_final then 4
  else if isin state ["claimed"; "running"; "report_ready"] then 3
  else if seqb state "task_created" then 2
  else if seqb state "starting_codex" then 1 else 0.

(** A launch stays with its project, its request and its grant; the identity
    of its task is written once, and so is the use of its grant; it moves
    forward, and never changes once it is over. *)
Record launch_step (l l' : launch_row) : Prop := {
  lr_owner : ln_session l' = ln_session l /\ ln_candidate l' = ln_candidate l;
  lr_request : ln_request l' = ln_request l /\ ln_client l' = ln_client l /\ ln_grant l' = ln_grant l /\
               ln_grant_expires l' = ln_grant_expires l;
  lr_rank : launch_rank (ln_state l) <= launch_rank (ln_state l');
  lr_identity : 2 <= launch_rank (ln_state l) ->
    ln_thread l' = ln_thread l /\ ln_codex l' = ln_codex l /\ ln_turn l' = ln_turn l;
  lr_consumed : forall x, ln_grant_consumed l = Some x -> ln_grant_consumed l' = Some x;
  lr_report : 3 <= launch_rank (ln_state l) -> ln_report l' = ln_report l /\ ln_report_expires l' = ln_report_expires l;
  lr_final : ln_state l ∈ launch_final -> l' = l;
}.

#[export] Instance launch_step_refl : Reflexive launch_step.
Proof. intros l. by split. Qed.
#[export] Instance launch_step_trans : Transitive launch_step.
Proof.
  intros l1 l2 l3 [O1 Q1 R1 I1 C1 P1 F1] [O2 Q2 R2 I2 C2 P2 F2]. split; auto.
  - destruct O1, O2. split; congruence.
  - destruct Q1 as (?&?&?&?), Q2 as (?&?&?&?). split_and!; congruence.
  - lia.
  - intros Hr. destruct (I1 Hr) as (?&?&?), (I2 ltac:(lia)) as (?&?&?). split_and!; congruence.
  - intros Hr. destruct (P1 Hr), (P2 ltac:(lia)). split; congruence.
  - intros Hf. pose proof (F1 Hf) as ->. auto.
Qed.

Lemma launch_rank_final s s' : launch_rank s < launch_rank s' -> s ∉ launch_final.
Proof.
  intros Hr Hf%isin_elem. revert Hr. unfold launch_rank at 1. rewrite Hf.
  unfold launch_rank. repeat case_match; lia.
Qed.

Definition threads_unique (d : LDB) : Prop :=
  forall i j li lj, l_launches d !! i = Some li -> l_launches d !! j = Some lj -> i <> j ->
    ln_thread li <> ""%string -> ln_thread lj <> ln_thread li.

(** *** Handoffs *)

(** Whoever claimed a handoff keeps it, and a completed one stays so. *)
Record handoff_step (h h' : handoff_row) : Prop := {
  hs_session : hf_session h' = hf_session h;
  hs_claimed : hf_state h <> "ready_to_claim"%string ->
    hf_state h' <> "ready_to_claim"%string /\ hf_claimed_by h' = hf_claimed_by h /\ hf_claimed h' = hf_claimed h;
  hs_completed : hf_state h = "completed"%string -> hf_state h' = "completed"%string;
}.

#[export] Instance handoff_step_refl : Reflexive handoff_step.
Proof. intros h. by split. Qed.
#[export] Instance handoff_step_trans : Transitive handoff_step.
Proof.
  intros h1 h2 h3 [S1 C1 D1] [S2 C2 D2]. split; auto.
  - congruence.
  - intros Hs. destruct (C1 Hs) as (Hs2 & ? & ?), (C2 Hs2) as (? & ? & ?). split_and!; congruence.
Qed.

(** ** The databases *)

Record session_step (d d' : LDB) : Prop := {
  ss_jobs : jobs_step (l_arch d) (l_arch d');
  ss_intents : intents_step (l_arch d) (l_arch d');
  ss_runs : rows run_step (l_runs d) (l_runs d');
  ss_launches : rows launch_step (l_launches d) (l_launches d');
  ss_threads : threads_unique d -> threads_unique d';
  ss_handoffs : rows handoff_step (l_handoffs d) (l_handoffs d');
  ss_reports : l_outcomes d ⊆ l_outcomes d' /\ l_provenance d ⊆ l_provenance d' /\ l_contributors d ⊆ l_contributors d';
}.

#[export] Instance session_step_refl : Reflexive session_step.
Proof. intros d. by split. Qed.
#[export] Instance session_step_trans : Transitive session_step.
Proof.
  intros d1 d2 d3 [J1 I1 R1 L1 T1 H1 (O1 & P1 & C1)] [J2 I2 R2 L2 T2 H2 (O2 & P2 & C2)]. split; try by etrans.
  - auto.
  - split_and!; by etrans.
Qed.

(** ** Statements *)

Definition steps {A} (R : relation LDB) (st : Stmt LDB A) : Prop := forall d a d', st d = inr (a, d') -> R d d'.

Lemma sf_steps {A} R d (st : Stmt LDB A) g : steps R st -> takes R d (mapE g (exec st)).
Proof. intros Hst. apply sf_exec. eauto. Qed.

(** What a piece of a transaction leaves alone is known after it. *)
Lemma sf_keeping {A B} (K : relation LDB) d (m : M LDB TxFail A) (f : A -> M LDB TxFail B) :
  takes K d m -> takes session_step d m -> (forall d1 a, K d d1 -> takes session_step d1 (f a)) -> takes session_step d (bind m f).
Proof.
  intros HK Hm Hf env w r w1 <- Hrun. m_inv1. pose proof (Hm _ _ _ _ eq_refl Hrun0) as Hs.
  pose proof (HK _ _ _ _ eq_refl Hrun0) as Hk. etrans; [done|]. by eapply (Hf _ _ Hk).
Qed.

Definition same_launches (d d' : LDB) : Prop := l_launches d' = l_launches d.
Definition same_runs (d d' : LDB) : Prop := l_runs d' = l_runs d.
#[export] Instance same_launches_refl : Reflexive same_launches.
Proof. by intros d. Qed.
#[export] Instance same_launches_trans : Transitive same_launches.
Proof. unfold same_launches. intros d1 d2 d3; congruence. Qed.
#[export] Instance same_runs_refl : Reflexive same_runs.
Proof. by intros d. Qed.
#[export] Instance same_runs_trans : Transitive same_runs.
Proof. unfold same_runs. intros d1 d2 d3; congruence. Qed.

Lemma rows_eq {A} `{Countable K} (step : relation A) `{!Reflexive step} (m m' : gmap K A) : m' = m -> rows step m m'.
Proof. intros ->. reflexivity. Qed.

(** The tables of sessions, candidates and requests are not part of the order. *)
Lemma step_frame d d' :
  a_jobs (l_arch d') = a_jobs (l_arch d) -> a_intents (l_arch d') = a_intents (l_arch d) -> l_runs d' = l_runs d ->
  l_launches d' = l_launches d -> l_handoffs d' = l_handoffs d -> l_outcomes d' = l_outcomes d ->
  l_provenance d' = l_provenance d -> l_contributors d' = l_contributors d -> session_step d d'.
Proof.
  intros HJ HI HR HL HH HO HP HC. split; try (by apply rows_eq).
  - by apply jobs_step_frame.
  - by apply intents_step_frame.
  - unfold threads_unique. by rewrite HL.
  - by rewrite HO, HP, HC.
Qed.

Lemma step_arch d x : jobs_step (l_arch d) x -> intents_step (l_arch d) x -> session_step d (set_l_arch x d).
Proof. intros HJ HI. by split. Qed.

Lemma step_runs d m : rows run_step (l_runs d) m -> session_step d (set_l_runs m d).
Proof. intros Hm. by split. Qed.

Lemma step_handoffs d m : rows handoff_step (l_handoffs d) m -> session_step d (set_l_handoffs m d).
Proof. intros Hm. by split. Qed.

(** The tactic for a statement that checks and writes. *)
Ltac stmt_cases :=
  intros d ? d'; unfold lcheck;
  repeat match goal with |- context [if ?b then _ else _] => destruct b eqn:? end; try done; intros [= <- <-].

Lemma steps_insert_session id p t : steps session_step (insert_session id p t).
Proof. unfold insert_session. intros d a d'. destruct (session_of d p); [by intros [= <- <-]|]. revert d a d'. stmt_cases. by apply step_frame. Qed.
Lemma steps_update_sessions cond f : steps session_step (update_sessions cond f).
Proof. unfold update_sessions. stmt_cases. by apply step_frame. Qed.
Lemma steps_set_info id f : steps session_step (set_info id f).
Proof. unfold set_info. stmt_cases. by apply step_frame. Qed.
Lemma steps_and_then {A} (st : Stmt LDB unit) (st' : Stmt LDB A) :
  steps session_step st -> steps session_step st' -> steps session_step (and_then st st').
Proof. intros H1 H2 d a d'. unfold and_then. destruct (st d) as [|[[] d1]] eqn:E; [done|]. intros E'. etrans; eauto. Qed.
Lemma steps_insert_candidate k r i : steps session_step (insert_candidate k r i).
Proof. unfold insert_candidate. stmt_cases. by apply step_frame. Qed.
Lemma steps_upsert_candidate k r i : steps session_step (upsert_candidate k r i).
Proof. unfold upsert_candidate. stmt_cases. by apply step_frame. Qed.
Lemma steps_update_candidates cond f g : steps session_step (update_candidates cond f g).
Proof. unfold update_candidates. stmt_cases. by apply step_frame. Qed.
Lemma steps_delete_candidates s : steps session_step (delete_candidates s).
Proof. unfold delete_candidates. stmt_cases. by apply step_frame. Qed.
Lemma steps_insert_handoff_request h k r : steps session_step (insert_handoff_request h k r).
Proof. unfold insert_handoff_request. stmt_cases. by apply step_frame. Qed.

Lemma steps_insert_run id r : steps session_step (insert_run id r).
Proof. unfold insert_run. stmt_cases. bool_inv. apply step_runs, rows_insert; [apply _|by apply absent_inv]. Qed.

Lemma update_runs_inv cond f d n d' :
  update_runs cond f d = inr (n, d') ->
  n = count_where cond (l_runs d) /\
  d' = set_l_runs (map_imap (fun id r => Some (if cond id r then f r else r)) (l_runs d)) d.
Proof. unfold update_runs, lcheck. destruct (bool_decide _); [|done]. by intros [= <- <-]. Qed.

Lemma step_update_runs cond f d n d' :
  update_runs cond f d = inr (n, d') ->
  (forall id r, l_runs d !! id = Some r -> cond id r = true -> run_step r (f r)) -> session_step d d'.
Proof. intros [_ ->]%update_runs_inv Hf. by apply step_runs, rows_imap; [apply _|]. Qed.

Lemma steps_insert_report id r : steps session_step (insert_report id r).
Proof. unfold insert_report. stmt_cases. bool_inv. split; try done. split_and!; [|done..]. by apply insert_subseteq, absent_inv. Qed.
Lemma steps_insert_report_source o p r : steps session_step (insert_report_source o p r).
Proof. unfold insert_report_source. stmt_cases. bool_inv. split; try done. split_and!; [done| |done]. by apply insert_subseteq, absent_inv. Qed.
Lemma steps_insert_report_member o s r : steps session_step (insert_report_member o s r).
Proof. unfold insert_report_member. stmt_cases. bool_inv. split; try done. split_and!; [done..|]. by apply insert_subseteq, absent_inv. Qed.

Lemma steps_insert_handoff id r : steps session_step (insert_handoff id r).
Proof. unfold insert_handoff. stmt_cases. bool_inv. apply step_handoffs, rows_insert; [apply _|by apply absent_inv]. Qed.
Lemma step_update_handoffs cond f d u d' :
  update_handoffs cond f d = inr (u, d') ->
  (forall id h, l_handoffs d !! id = Some h -> cond id h = true -> handoff_step h (f h)) -> session_step d d'.
Proof. intros [= <- <-] Hf. by apply step_handoffs, rows_imap; [apply _|]. Qed.

(** *** Launches *)

Lemma thread_free_inv d id th : thread_free d id th = true ->
  th <> ""%string -> forall i l, l_launches d !! i = Some l -> i <> id -> ln_thread l <> th.
Proof. unfold thread_free. rewrite orb_true_iff, seqb_true, bool_decide_eq_true. intros [?|Hf] Hne; [done|]. intros. by eapply Hf. Qed.

Lemma step_put_launch d id l :
  thread_free d id (ln_thread l) = true ->
  match l_launches d !! id with Some l0 => launch_step l0 l | None => True end ->
  session_step d (set_l_launches (<[id:=l]> (l_launches d)) d).
Proof.
  intros Hfree Hl. split; try done.
  - simpl. destruct (l_launches d !! id) as [l0|] eqn:E; [by eapply rows_replace; [apply _|..]|by apply rows_insert; [apply _|]].
  - intros Hu i j li lj. simpl. rewrite !lookup_insert_Some.
    intros [[<- <-]|[Hi Hli]] [[<- <-]|[Hj Hlj]] Hne Hth; [done|..|by eapply Hu].
    + by apply (thread_free_inv d id _ Hfree Hth j lj Hlj).
    + intros Heq. rewrite <-Heq in Hth. apply (thread_free_inv d id _ Hfree Hth i li Hli Hne). done.
Qed.

Lemma steps_insert_launch id l : steps session_step (insert_launch id l).
Proof.
  unfold insert_launch. stmt_cases. bool_inv. apply step_put_launch; [done|].
  by rewrite (absent_inv (l_launches d) id).
Qed.

Lemma update_launch_inv id cond f d n d' :
  update_launch id cond f d = inr (n, d') ->
  n = 0 /\ d' = d \/
  exists l, n = 1 /\ l_launches d !! id = Some l /\ cond l = true /\ thread_free d id (ln_thread (f l)) = true /\
    d' = set_l_launches (<[id:=f l]> (l_launches d)) d.
Proof.
  unfold update_launch, lcheck. destruct (l_launches d !! id) as [l|]; [|naive_solver].
  destruct (cond l) eqn:Hc; [|naive_solver]. destruct (isin _ _ && _) eqn:Hi; [|done].
  intros [= <- <-]. right. bool_inv. eauto 10.
Qed.

Lemma step_update_launch id cond f d n d' :
  update_launch id cond f d = inr (n, d') ->
  (forall l, l_launches d !! id = Some l -> cond l = true -> launch_step l (f l)) -> session_step d d'.
Proof.
  intros [[_ ->]|(l & _ & Hl & Hc & Hf & ->)]%update_launch_inv Hs; [reflexivity|].
  apply step_put_launch; [done|]. rewrite Hl. auto.
Qed.

Lemma step_update_launches cond f d u d' :
  update_launches cond f d = inr (u, d') ->
  (forall l, cond l = true -> launch_step l (f l) /\ ln_thread (f l) = ln_thread l) -> session_step d d'.
Proof.
  intros [= <- <-] Hf. split; try done.
  - apply rows_fmap; [apply _|]. intros l Hl. by apply Hf.
  - intros Hu i j li lj. simpl. rewrite !lookup_fmap, !fmap_Some. intros (l1 & H1 & ->) (l2 & H2 & ->) Hne.
    assert (forall l, ln_thread (if cond l then f l else l) = ln_thread l) as Hth.
    { intros l. destruct (cond l) eqn:E; [by apply Hf|done]. }
    rewrite !Hth. by eapply Hu.
Qed.

#[export] Hint Resolve sf_steps steps_insert_session steps_update_sessions steps_set_info steps_and_then steps_insert_candidate
  steps_upsert_candidate steps_update_candidates steps_delete_candidates steps_insert_handoff_request steps_insert_run
  steps_insert_report steps_insert_report_source steps_insert_report_member steps_insert_handoff steps_insert_launch : txn.

(** ** Every operation *)

(** A piece of the native plane's text, in a transaction of this one. *)
Lemma sf_in_arch {A} d (m : M ADB TxFail A) :
  takes jobs_step (l_arch d) m -> takes same_intents (l_arch d) m -> takes session_step d (in_arch m).
Proof.
  intros HJ HI env w r w1 <- Hrun. apply zoom_inr_inv in Hrun as (env1 & w2 & Hm & ->).
  apply step_arch; [|apply intents_step_frame]; [eapply HJ|eapply HI]; [|exact Hm| |exact Hm]; done.
Qed.

Lemma sf_claimArch d p k op s dg t : takes session_step d (in_arch (claimArchaeologyRequest p k op s dg t)).
Proof. apply sf_in_arch; [apply sf_claimRequest|]. unfold claimArchaeologyRequest. quiet_walk. Qed.
#[export] Hint Resolve sf_claimArch : txn.

Lemma sf_on_jobs d cond f g :
  (forall r, cond r = true -> row_step r (f r) /\ jo_thread (f r) = jo_thread r /\ jo_turn (f r) = jo_turn r) ->
  takes session_step d (mapE g (exec (on_arch (update_jobs cond f)))).
Proof.
  intros Hf. apply sf_exec. intros a d1 [= <- <-]. apply step_arch; [|by apply intents_step_frame].
  eapply (jobs_step_bulk cond f); done.
Qed.

Lemma steps_on_batches cond f : steps session_step (fun d => on_arch (update_batches (cond d) f) d).
Proof. intros d a d' [= <- <-]. by apply step_frame. Qed.
Lemma steps_any_sessions cond f : steps session_step (fun d => update_sessions (cond d) f d).
Proof. intros d. apply steps_update_sessions. Qed.
#[export] Hint Resolve steps_on_batches steps_any_sessions : txn.

Lemma sf_guard d ok e : takes session_step d (require ok e).
Proof. destruct ok; [exact (sf_ret _ _ _)|exact (sf_throw _ _ _)]. Qed.
#[export] Hint Resolve sf_guard : txn.

Lemma sf_update_runs d cond f g :
  (forall id r, l_runs d !! id = Some r -> cond id r = true -> run_step r (f r)) -> takes session_step d (mapE g (exec (update_runs cond f))).
Proof. intros Hf. apply sf_exec. intros n d1 Hu. by eapply step_update_runs. Qed.

(** Which statements leave the runs and the launches alone *)
Ltac keep_tac := intros ? ? ?; unfold insert_run, insert_report, insert_report_source, insert_report_member, lcheck;
  repeat case_match; intros; simplify_eq/=; done.
#[export] Hint Extern 1 (steps same_launches _) => keep_tac : txn.
#[export] Hint Extern 1 (steps same_runs _) => keep_tac : txn.

Section Operations.
Context `{Sha256, SessionJSON, ProposalJSON}.

Ltac swalk := walk fail.

Lemma guarantees_Discover m dy : guarantees session_step (ReplaceArchaeologyDiscovery m dy).
Proof. unfold ReplaceArchaeologyDiscovery, ensureArchaeologySession, discoverWrites, refresh_candidate. swalk. Qed.

Lemma guarantees_Configure m : guarantees session_step (ConfigureArchaeology m).
Proof. unfold ConfigureArchaeology, ensureArchaeologySession, configureWrites. swalk. Qed.

Lemma guarantees_transition m op : guarantees session_step (transitionArchaeology m op).
Proof.
  unfold transitionArchaeology, ensureArchaeologySession, transitionTx, transitionWrites, startWrites.
  destruct op; swalk; (apply sf_update_runs; intros id r _ Hc; bool_inv; apply run_step_move; try done; simpl).
  - by apply rm_pause, isin_elem.
  - by apply rm_resume, isin_elem.
  - apply rm_cancel. rewrite <-isin_elem. unfold run_final. congruence.
Qed.

Lemma guarantees_Reconcile_sessions : guarantees session_step ReconcileArchaeology.
Proof.
  unfold ReconcileArchaeology, reconcileRuns, reconcileJobs, reconcileBatches. swalk.
  - apply sf_update_runs. intros id r _ Hc%isin_elem. apply run_step_move; try done. by apply rm_restart.
  - apply sf_update_runs. intros id r _ Hc. bool_inv. apply run_step_move; try done. simpl. rewrite Hc. apply rm_restart_canceled.
  - apply sf_exec. intros u d9 Hu. eapply step_update_launches; [done|]. intros l Hl. apply seqb_true in Hl. split; [|done].
    split; simpl; rewrite ?Hl; try done. intros Hf. by apply (launch_rank_final "starting_codex" "uncertain") in Hf.
  - apply sf_on_jobs. intros r Hr. (split; [|done]). end_tac.
  - apply sf_on_jobs. intros r Hr. (split; [|done]). end_tac.
Qed.

Lemma guarantees_ClaimRun p k : guarantees session_step (ClaimArchaeologyRun p k).
Proof.
  unfold ClaimArchaeologyRun. swalk. apply sf_update_runs. intros id x _ Hc. bool_inv. apply run_step_move; try done. simpl.
  match goal with E : ru_state x = _ |- _ => rewrite E end. apply rm_claim.
Qed.

Lemma takes_outcome (K : relation LDB) `{!Reflexive K, !Transitive K} d id run project o t :
  (forall i r, steps K (insert_report i r)) -> (forall i n r, steps K (insert_report_source i n r)) ->
  (forall i m r, steps K (insert_report_member i m r)) -> takes K d (report_outcome id run project o t).
Proof. intros. unfold report_outcome. repeat sf1. Qed.

Lemma sf_outcome d id run project o t : takes session_step d (report_outcome id run project o t).
Proof. apply takes_outcome; auto with txn; apply _. Qed.
Lemma sf_outcome_runs d id run project o t : takes same_runs d (report_outcome id run project o t).
Proof. apply takes_outcome; auto with txn; apply _. Qed.
Lemma sf_outcome_launches d id run project o t : takes same_launches d (report_outcome id run project o t).
Proof. apply takes_outcome; auto with txn; apply _. Qed.

Lemma updateRun_step u t r x :
  answer_allowed (ru_state r) (up_State u) = true -> isin (up_State u) ["running"; "paused"; "canceled"; "completed"; "failed"] = true ->
  x = r -> run_step x (updated_run u t x).
Proof. intros Ha Hs ->. apply run_step_move; try done. by apply rm_answer, answer_edge. Qed.

(** The outcomes of a report leave the run they belong to alone. *)
Lemma sf_reports_runs {A} d (l : list A) (f : A -> M LDB TxFail unit) b :
  (forall d x, takes same_runs d (f x)) -> takes same_runs d (if b : bool then forM_ l f else ret tt).
Proof. intros Hf. destruct b; [by apply (sf_forM _)|exact (sf_ret _ _ _)]. Qed.

Lemma guarantees_UpdateRun u : guarantees session_step (UpdateArchaeologyRun u).
Proof.
  unfold UpdateArchaeologyRun. do 2 (apply guarantees_guard; intros _). apply guarantees_guard. intros Hst.
  apply guarantees_guard. intros _. apply guarantees_bind; [auto with guar|intros t]. apply guarantees_guard. intros _.
  apply guarantees_runTx. intros d. unfold updateRunTx. sf1. rename a into r. sf1. bool_inv.
  apply (sf_keeping same_runs).
  - apply sf_reports_runs. intros d1 o. sf1. cbv zeta. apply sf_outcome_runs.
  - destruct (seqb (up_State u) "completed"); repeat sf1. apply sf_outcome.
  - intros d1 _ Hk. sf1; [|repeat sf1]. apply sf_update_runs. intros id x Hx Hc. apply seqb_true in Hc as ->.
    eapply updateRun_step; [done..|]. rewrite Hk in Hx. rewrite Hx in *. repeat case_match; congruence.
Qed.

Lemma sf_handoffRequest d h k op s dg t : takes session_step d (claimHandoffRequest h k op s dg t).
Proof. unfold claimHandoffRequest. swalk. Qed.

Lemma handoff_claimed by_ t h : hf_state h = "ready_to_claim"%string -> handoff_step h (handoff_moved "claimed" by_ (Some t) t h).
Proof. intros Hs. split; simpl; try done; rewrite Hs; done. Qed.
Lemma handoff_completed t h : handoff_step h (handoff_moved "completed" (hf_claimed_by h) (hf_claimed h) t h).
Proof. by split. Qed.

(** The handoff that a claim read is there when it writes. *)
Lemma handoff_join_inv id d h s : handoff_join id d = inr (h, s) -> l_handoffs d !! id = Some h.
Proof. unfold handoff_join. repeat case_match; naive_solver. Qed.

Lemma guarantees_ClaimHandoff c : guarantees session_step (ClaimArchaeologyHandoff c).
Proof.
  unfold ClaimArchaeologyHandoff. apply guarantees_guard. intros _. apply guarantees_runTx. intros d. sf1.
  sf1; [apply sf_handoffRequest|]. sf1. destruct a0 as [h s]. sf1; [|sf1]. sf1; [sf1|]. sf1. simpl in *. bool_inv.
  sf1; [|repeat sf1]. apply sf_exec. intros u d9 Hu. eapply step_update_handoffs; [done|]. intros id x Hx Hc.
  apply seqb_true in Hc as ->. apply handoff_claimed. apply handoff_join_inv in H3. congruence.
Qed.

Lemma sf_complete_handoffs d cond t g :
  takes session_step d (mapE g (exec (update_handoffs cond (fun h => handoff_moved "completed" (hf_claimed_by h) (hf_claimed h) t h)))).
Proof. apply sf_exec. intros u d9 Hu. eapply step_update_handoffs; [done|]. intros. apply handoff_completed. Qed.
#[local] Hint Resolve sf_complete_handoffs sf_outcome sf_handoffRequest : txn.

Lemma guarantees_ReportHandoff c : guarantees session_step (ReportArchaeologyHandoff c).
Proof. unfold ReportArchaeologyHandoff, handoffWrites. swalk. Qed.

Lemma guarantees_PrepareLaunch p j r c g e : guarantees session_step (PrepareArchaeologyTaskLaunch p j r c g e).
Proof. unfold PrepareArchaeologyTaskLaunch. swalk. Qed.

Lemma launch_created launch t l :
  ln_state l = "starting_codex"%string -> isin (la_State launch) ["task_created"; "failed"; "uncertain"] = true ->
  launch_step l (launch_result (la_State launch) (la_ThreadID launch) (la_CodexSessionID launch) (la_TurnID launch) (la_Error launch) t l).
Proof.
  intros Hl Hs%isin_elem. assert (launch_rank "starting_codex" < launch_rank (la_State launch)) as Hr.
  { in_cases Hs; rewrite Hs; vm_compute; done. }
  split; simpl; rewrite ?Hl; try done; [lia|]. intros Hf. by apply launch_rank_final in Hr.
Qed.

Lemma guarantees_CompleteLaunch launch : guarantees session_step (CompleteArchaeologyTaskLaunch launch).
Proof.
  unfold CompleteArchaeologyTaskLaunch. apply guarantees_guard. intros _. apply guarantees_guard. intros Hs. swalk.
  apply guarantees_direct. intros d n d' Hu. eapply step_update_launch; [done|]. intros l _ [_ Hc%seqb_true]%andb_true_iff. apply launch_created; [done|].
  destruct (seqb (la_State launch) "task_created") eqn:E; [apply seqb_true in E as ->; done|].
  apply isin_elem in Hs. apply isin_elem. set_solver.
Qed.

Lemma launch_claim dg e t l : ln_state l = "task_created"%string -> launch_step l (launch_claimed dg e t l).
Proof. intros Hl. split; simpl; rewrite ?Hl; try done; [by intros x ->|]. intros Hf. by apply (launch_rank_final "task_created" "claimed") in Hf. Qed.
Lemma launch_complete rq t l : isin (ln_state l) ["claimed"; "running"] = true -> launch_step l (launch_completed rq t l).
Proof.
  intros Hl%isin_elem. assert (launch_rank (ln_state l) < launch_rank "completed") as Hr.
  { in_cases Hl; rewrite Hl; vm_compute; done. }
  split; simpl; try done; [lia|]. intros Hf. by apply launch_rank_final in Hr.
Qed.

Lemma guarantees_ClaimLaunch c : guarantees session_step (ClaimArchaeologyTaskLaunch c).
Proof.
  unfold ClaimArchaeologyTaskLaunch. swalk. apply sf_exec. intros n d9 Hu. eapply step_update_launch; [done|]. intros l Hl _.
  bool_inv. apply launch_claim. unfold launch_by_id in *. rewrite Hl in *. congruence.
Qed.

Lemma guarantees_ReportLaunch c : guarantees session_step (ReportArchaeologyTaskLaunch c).
Proof.
  unfold ReportArchaeologyTaskLaunch. apply guarantees_guard. intros _. apply guarantees_bind; [auto with guar|intros t].
  apply guarantees_guard. intros _. apply guarantees_runTx. intros d. sf1. rename a into l. sf1. cbv zeta.
  destruct (seqb (ln_state l) "completed"); [repeat sf1|]. sf1. sf1; [|sf1]. unfold taskReportWrites. cbv zeta.
  apply (sf_keeping same_launches); [apply sf_steps; auto with txn|sf1|]. intros d1 _ K1.
  apply (sf_keeping same_launches); [sf1; apply sf_outcome_launches|repeat sf1|]. intros d2 _ K2. sf1; [|repeat sf1].
  apply sf_exec. intros n d9 Hu. eapply step_update_launch; [done|]. intros x Hx _. bool_inv. apply launch_complete.
  rewrite K2, K1 in Hx. rewrite Hx in *. repeat case_match; simplify_eq; done.
Qed.
End Operations.
