(* ===== verification/SessionOutcome.v ===== *)
(** * Restarts, grants and reports of archaeology sessions

    Any sequence of session commands, runner answers, launches and restarts,
    with other processes writing in between, keeps what earlier writes
    recorded; a restart leaves no work in a state that only the previous
    process could advance; a grant is used once. *)

From Stdlib Require Import ZArith Lia.
From stdpp Require Import base gmap strings list sets sorting relations pretty.
From S2P Require Import Prelude GoText Framing CoreDB ArchDB ArchPolicy NativeJobs NativeSpec Ledger LedgerSpec ArchSafety SessionDB Sessions SessionSpec.

Local Open Scope Z_scope.
Local Open Scope prog_scope.

#[local] Set Default Proof Using "Type*".

(** ** Runs of the plane *)

Inductive SessionOp :=
  | OpDiscover (m : ArchaeologyMutation) (dy : ArchaeologyDiscovery)
  | OpConfigure (m : ArchaeologyMutation)
  | OpTransition (m : ArchaeologyMutation) (op : transition)
  | OpRestart
  | OpClaimRun (principal runnerKey : string)
  | OpUpdateRun (u : ArchaeologyRunUpdate)
  | OpClaimHandoff (c : ArchaeologyHandoffClaim)
  | OpReportHandoff (c : ArchaeologyHandoffReport)
  | OpPrepareLaunch (principal projectID requestID clientMessageID grantDigest : string) (expiresAt : Z)
  | OpCompleteLaunch (launch : ArchaeologyLaunchResult)
  | OpClaimLaunch (c : ArchaeologyTaskClaim)
  | OpReportLaunch (c : ArchaeologyTaskReport).

(** Other processes run the same program. *)
Definition others_run_sessions (env : Env LDB) : Prop := forall n d, session_step d (tk_others (env n) d).

Section SessionRuns.
Context `{Sha256, SessionJSON, ProposalJSON}.

Definition run_session (op : SessionOp) : M LDB Err unit :=
  match op with
  | OpDiscover m dy => ReplaceArchaeologyDiscovery m dy
  | OpConfigure m => ConfigureArchaeology m
  | OpTransition m op => transitionArchaeology m op
  | OpRestart => ReconcileArchaeology
  | OpClaimRun p k => ClaimArchaeologyRun p k ;;; ret tt
  | OpUpdateRun u => UpdateArchaeologyRun u
  | OpClaimHandoff c => ClaimArchaeologyHandoff c
  | OpReportHandoff c => ReportArchaeologyHandoff c
  | OpPrepareLaunch p j r c g e => PrepareArchaeologyTaskLaunch p j r c g e ;;; ret tt
  | OpCompleteLaunch l => CompleteArchaeologyTaskLaunch l ;;; ret tt
  | OpClaimLaunch c => ClaimArchaeologyTaskLaunch c ;;; ret tt
  | OpReportLaunch c => ReportArchaeologyTaskLaunch c
  end.

(** The world after a list of operations, whatever each returns *)
Definition sessions_after (ops : list SessionOp) (env : Env LDB) (w : World LDB) : World LDB :=
  (run_all (map run_session ops) env w).2.

Lemma guarantees_run_session op : guarantees session_step (run_session op).
Proof.
  destruct op; simpl;
    repeat match goal with |- guarantees _ (bind _ (fun _ => ret tt)) => apply guarantees_bind; [|intros; apply guarantees_ret] end;
    auto using guarantees_Discover, guarantees_Configure, guarantees_transition, guarantees_Reconcile_sessions, guarantees_ClaimRun,
      guarantees_UpdateRun, guarantees_ClaimHandoff, guarantees_ReportHandoff, guarantees_PrepareLaunch, guarantees_CompleteLaunch,
      guarantees_ClaimLaunch, guarantees_ReportLaunch.
Qed.

Lemma sessions_after_step ops env w : others_run_sessions env -> session_step (w_db w) (w_db (sessions_after ops env w)).
Proof.
  intros Hoth. unfold sessions_after. apply run_all_step; [apply _..| |exact Hoth]. intros m (op & -> & _)%list_elem_of_fmap. apply guarantees_run_session.
Qed.

(** The operations of the native plane, run by another process, are steps. *)
Lemma native_run_step `{Externals} ops env d :
  others_run_arch env -> session_step d (set_l_arch (arch_after ops env (l_arch d)) d).
Proof. intros Hoth. destruct (arch_after_steps ops env (l_arch d) Hoth). by apply step_arch. Qed.
End SessionRuns.

(** ** What a restart leaves behind *)

Definition runs_idle (d : LDB) : Prop :=
  map_Forall (fun _ r => ru_state r ∉ ["running"; "pause_requested"; "cancel_requested"]%string) (l_runs d).
Definition launches_idle (d : LDB) : Prop := map_Forall (fun _ l => ln_state l <> "starting_codex"%string) (l_launches d).
Definition sessions_idle (d : LDB) : Prop :=
  map_Forall (fun _ s => se_state s ∉ ["running"; "pause_requested"]%string) (a_sessions (l_arch d)).
Definition jobs_idle (d : LDB) : Prop :=
  map_Forall (fun _ r => jo_state r ∉ ["starting"; "active"; "report_ready"; "cancel_requested"]%string) (a_jobs (l_arch d)).
Definition in_batch (d : LDB) (batch state : string) : Prop :=
  exists id r, a_jobs (l_arch d) !! id = Some r /\ jo_batch r = batch /\ jo_state r = state.
(** A batch with an uncertain job waits for a human; one that still waits for
    its cancellation has a job that was never started. *)
Definition batches_flagged (d : LDB) : Prop :=
  map_Forall (fun id b => (in_batch d id "uncertain" -> ba_state b = "attention"%string) /\
                          (ba_state b = "cancel_requested"%string -> in_batch d id "queued")) (a_batches (l_arch d)).

Lemma update_sessions_inv cond f d u d' :
  update_sessions cond f d = inr (u, d') ->
  d' = set_l_arch (set_a_sessions (map_imap (fun id s => Some (if cond id s then f s else s)) (a_sessions (l_arch d))) (l_arch d)) d.
Proof. unfold update_sessions, lcheck. destruct (bool_decide _); [|done]. by intros [= _ <-]. Qed.

Lemma has_job_true d batch p :
  has_job d batch p = true <-> exists id r, a_jobs (l_arch d) !! id = Some r /\ jo_batch r = batch /\ p r = true.
Proof.
  unfold has_job. rewrite existsb_exists. split.
  - intros ([id r] & Hin & Hc). apply list_elem_of_In, elem_of_map_to_list in Hin. simpl in *.
    apply andb_true_iff in Hc as [?%seqb_true ?]. eauto.
  - intros (id & r & Hr & Hb & Hp). exists (id, r). split; [by apply list_elem_of_In, elem_of_map_to_list|].
    simpl. by rewrite andb_true_iff, seqb_true.
Qed.

(** A row after an update of the rows that satisfy a condition *)
Lemma imap_row {A} `{Countable K} (cond : K -> A -> bool) f (m : gmap K A) k y :
  map_imap (fun k x => Some (if cond k x then f x else x)) m !! k = Some y ->
  exists x, m !! k = Some x /\ y = (if cond k x then f x else x).
Proof. rewrite map_lookup_imap. destruct (m !! k) as [x|]; simpl; [|done]. intros [= <-]. eauto. Qed.
Lemma fmap_row {A} `{Countable K} (cond : A -> bool) f (m : gmap K A) k y :
  ((fun x => if cond x then f x else x) <$> m) !! k = Some y -> exists x, m !! k = Some x /\ y = (if cond x then f x else x).
Proof. rewrite lookup_fmap. destruct (m !! k) as [x|]; simpl; [|done]. intros [= <-]. eauto. Qed.

(** The effects of the statements that ran, as equations *)
Ltac effects :=
  repeat match goal with
  | E : update_runs _ _ _ = inr _ |- _ => apply update_runs_inv in E as [_ E]
  | E : update_sessions _ _ _ = inr _ |- _ => apply update_sessions_inv in E
  | E : update_launches _ _ _ = inr _ |- _ => injection E as _ E
  | E : on_arch _ _ = inr _ |- _ => injection E as _ E
  | E : (fun d => _) _ = inr _ |- _ => cbv beta in E
  end.

Section Restart.
Context (t : Z) (env : Env LDB).

Lemma reconcileRuns_inv w u w' :
  reconcileRuns t env w = (inr u, w') ->
  runs_idle (w_db w') /\ launches_idle (w_db w') /\ sessions_idle (w_db w') /\
  a_jobs (l_arch (w_db w')) = a_jobs (l_arch (w_db w)) /\ a_batches (l_arch (w_db w')) = a_batches (l_arch (w_db w)).
Proof.
  unfold reconcileRuns. intros Hrun. m_inv. effects. rewrite <-Hst, Hst0, Hst1, Hst2. simpl. split_and!; [..|done|done].
  - intros id y Hy. simpl in Hy. apply imap_row in Hy as (x1 & (x & _ & ->)%imap_row & ->).
    destruct (isin (ru_state x) _) eqn:E1; simpl; [set_solver|]. destruct (seqb (ru_state x) _) eqn:E2; simpl; [set_solver|].
    rewrite <-isin_elem in *. intros Hin. apply isin_elem in Hin. in_cases Hin; rewrite Hin in *; done.
  - intros id y Hy. simpl in Hy. apply fmap_row in Hy as (x & _ & ->). destruct (seqb (ln_state x) _) eqn:E; [done|].
    intros E'. by rewrite E' in E.
  - intros id y Hy. simpl in Hy. apply imap_row in Hy as (x & _ & ->). destruct (isin (se_state x) _) eqn:E; simpl; [set_solver|].
    intros Hin%isin_elem. congruence.
Qed.

Lemma reconcileJobs_inv w u w' :
  reconcileJobs t env w = (inr u, w') ->
  jobs_idle (w_db w') /\ l_runs (w_db w') = l_runs (w_db w) /\ l_launches (w_db w') = l_launches (w_db w) /\
  a_sessions (l_arch (w_db w')) = a_sessions (l_arch (w_db w)).
Proof.
  unfold reconcileJobs. intros Hrun. m_inv. effects. rewrite <-Hst, <-Hst0. simpl. split_and!; [|done..].
  intros id y Hy. simpl in Hy. apply fmap_row in Hy as (x1 & (x & _ & ->)%fmap_row & ->).
  destruct (seqb (jo_state x) _) eqn:E1; simpl; [set_solver|]. destruct (isin (jo_state x) _) eqn:E2; simpl; [set_solver|].
  intros Hin. in_cases Hin; rewrite Hin in *; done.
Qed.

(** Settling the cancellations, then flagging the batches with uncertain jobs *)
Lemma batch_flags d d2 b0 b id :
  a_jobs (l_arch d2) = a_jobs (l_arch d) -> jobs_idle d ->
  (let b1 := if batch_settled d id b0 then batch_with "canceled" t b0 else b0 in
   b = if has_job d2 id (fun r => seqb (jo_state r) "uncertain") then batch_with "attention" t b1 else b1) ->
  (in_batch d id "uncertain" -> ba_state b = "attention"%string) /\ (ba_state b = "cancel_requested"%string -> in_batch d id "queued").
Proof.
  intros HJ Hidle Hb. cbv zeta in Hb. split.
  - intros (j & r & Hr & Hbt & Hst). assert (has_job d2 id (fun r => seqb (jo_state r) "uncertain") = true) as Hu.
    { apply has_job_true. rewrite HJ. exists j, r. by rewrite seqb_true. }
    rewrite Hu in Hb. by subst.
  - destruct (has_job d2 id _) eqn:Hu; [by subst b|]. unfold batch_settled in Hb.
    destruct (seqb (ba_state b0) "cancel_requested") eqn:Hc; simpl in Hb; [|by subst b; intros E; rewrite E in Hc].
    destruct (has_job d id _) eqn:Hl; simpl in Hb; [|by subst b]. intros _.
    apply has_job_true in Hl as (j & r & Hr & Hbt & Hst%isin_elem). specialize (Hidle j r Hr). simpl in Hidle.
    assert (jo_state r = "queued"%string \/ jo_state r = "uncertain"%string) as [Hq|Hq] by set_solver; [by exists j, r|].
    exfalso. apply not_true_iff_false in Hu. apply Hu, has_job_true. rewrite HJ. exists j, r. by rewrite seqb_true.
Qed.

Lemma reconcileBatches_inv w u w' :
  reconcileBatches t env w = (inr u, w') -> jobs_idle (w_db w) -> sessions_idle (w_db w) ->
  batches_flagged (w_db w') /\ jobs_idle (w_db w') /\ sessions_idle (w_db w') /\ l_runs (w_db w') = l_runs (w_db w) /\
  l_launches (w_db w') = l_launches (w_db w).
Proof.
  unfold reconcileBatches. intros Hrun HJ HS. m_inv. effects.
  assert (a_jobs (l_arch (w_db w2)) = a_jobs (l_arch (w_db w)) /\ a_jobs (l_arch (w_db w')) = a_jobs (l_arch (w_db w))) as [HJ2 HJ'].
  { rewrite <-Hst, Hst0, Hst1, <-Hst2. done. }
  assert (a_batches (l_arch (w_db w2)) = map_imap (fun i b => Some (if batch_settled (w_db w) i b then batch_with "canceled" t b else b))
    (a_batches (l_arch (w_db w)))) as HB by (rewrite Hst0, Hst1, <-Hst2; done).
  split_and!.
  - intros id b Hb. rewrite <-Hst in Hb. simpl in Hb. apply imap_row in Hb as (b1 & Hb1 & Hb). rewrite HB in Hb1.
    apply imap_row in Hb1 as (b0 & _ & ->). unfold in_batch. rewrite HJ'. exact (batch_flags (w_db w) (w_db w2) b0 b id HJ2 HJ Hb).
  - unfold jobs_idle. by rewrite HJ'.
  - intros id s Hs. assert (a_sessions (l_arch (w_db w')) = a_sessions (l_arch (w_db w2))) as E by by rewrite <-Hst.
    rewrite E, Hst0 in Hs. simpl in Hs. apply imap_row in Hs as (s1 & Hs1 & ->). rewrite Hst1 in Hs1. simpl in Hs1.
    apply imap_row in Hs1 as (s0 & Hs0 & ->). rewrite <-Hst2 in Hs0. simpl in Hs0. specialize (HS id s0 Hs0). simpl in HS.
    repeat case_match; simpl; try set_solver.
  - rewrite <-Hst, Hst0, Hst1, <-Hst2. done.
  - rewrite <-Hst, Hst0, Hst1, <-Hst2. done.
Qed.
End Restart.

Lemma restart_idle env w w' :
  ReconcileArchaeology env w = (inr tt, w') ->
  runs_idle (w_db w') /\ launches_idle (w_db w') /\ sessions_idle (w_db w') /\ jobs_idle (w_db w') /\ batches_flagged (w_db w').
Proof.
  unfold ReconcileArchaeology. intros Hrun. m_inv1. apply runTx_inr_inv in Hrun as (w1 & o & Hbody & Hw). m_inv.
  destruct Hw as [[_ ->]|[[=] _]].
  apply reconcileRuns_inv in Hrun as (HR & HL & HS & _ & _). apply reconcileJobs_inv in Hrun1 as (HJ & ER & EL & ES).
  assert (sessions_idle (w_db w3)) as HS3 by (unfold sessions_idle; by rewrite ES).
  apply reconcileBatches_inv in Hrun2 as (HB & HJ' & HS' & ER' & EL'); [|done|done].
  unfold runs_idle, launches_idle. rewrite ER', ER, EL', EL. done.
Qed.

(** After a restart has committed its reconciliation, nothing is left in a
    state that only the previous process could have advanced: no run is
    running or waiting for its runner to pause or cancel, no launch is waiting
    for Codex, no session is running, and no native job is being started,
    active, reported or waiting for its cancellation.  A batch with a job of
    unknown outcome asks for a human, and a batch still waiting for its
    cancellation has a job that was never started. *)
Theorem restart_reconciles env w w' :
  ReconcileArchaeology env w = (inr tt, w') ->
  runs_idle (w_db w') /\ launches_idle (w_db w') /\ sessions_idle (w_db w') /\ jobs_idle (w_db w') /\ batches_flagged (w_db w').
Proof. apply restart_idle. Qed.

Lemma update_runs_row cond f d n d' id r :
  update_runs cond f d = inr (n, d') -> l_runs d !! id = Some r -> cond id r = true -> l_runs d' !! id = Some (f r).
Proof.
  unfold update_runs, lcheck. intros Hu Hr Hc. destruct (bool_decide _); [|done]. injection Hu as _ <-. simpl.
  rewrite map_lookup_imap, Hr. simpl. by rewrite Hc.
Qed.
Lemma update_sessions_runs cond f d n d' : update_sessions cond f d = inr (n, d') -> l_runs d' = l_runs d.
Proof. unfold update_sessions, lcheck. intros Hu. destruct (bool_decide _); [|done]. by injection Hu as _ <-. Qed.

(** What an accepted answer of a runner read and wrote *)
Lemma answer_inv `{Sha256, SessionJSON, ProposalJSON} u env w w' :
  UpdateArchaeologyRun u env w = (inr tt, w') ->
  exists n r t, l_runs (tk_others (env n) (w_db w)) !! up_RunID u = Some r /\ ru_runner r = up_RunnerKey u /\
    (ru_state r, up_State u) ∈ answer_edges /\ l_runs (w_db w') !! up_RunID u = Some (updated_run u t r).
Proof.
  unfold UpdateArchaeologyRun. intros Hrun. do 4 (m_inv1; m_inv1). do 4 m_inv1.
  apply runTx_inr_inv in Hrun as (wb & o & Hb & Hw). unfold updateRunTx in Hb.
  do 9 m_inv1. assert (same_runs (w_db w1) (w_db w2)) as Hk.
  { refine (sf_reports_runs _ _ _ _ _ env w1 _ w2 eq_refl Hrun1). intros d1 x. sf1. cbv zeta. apply sf_outcome_runs. }
  clear Hrun1. destruct r9 as [[[c1 c2] c3] c4]. m_inv. bool_inv. destruct Hw as [[_ ->]|[[=] _]].
  assert (l_runs (w_db w0) !! up_RunID u = Some r5) as Hr by (rewrite H9; simpl in *; repeat case_match; congruence).
  assert (w_db w4 = w_db w) as Hw4 by congruence.
  exists (w_tick w4), r5, (tk_now (env (w_tick w))). rewrite <-Hw4. split_and!; [by rewrite H9 in Hr|done|by apply answer_edge|].
  rewrite (update_sessions_runs _ _ _ _ _ Hst), H8. eapply update_runs_row; [exact Hst1| |apply seqb_refl]. by rewrite Hk.
Qed.

(** C25: along any run of session commands, runner answers, handoffs, launches
    and restarts, in any interleaving with other processes, an archaeology run
    stays with its session and project, its state only takes transitions of
    the run state machine, and a run that is completed, failed or canceled
    never changes again.  An answer is accepted only from the runner that holds
    the run, and moves it along one of the ten edges [answer_edges] in a single
    step: a run asked to pause cannot complete, and a run asked to cancel can
    only end canceled or failed. *)
Theorem runs_follow_machine `{Sha256, SessionJSON, ProposalJSON} ops env w id r :
  others_run_sessions env -> l_runs (w_db w) !! id = Some r ->
  (exists r', l_runs (w_db (sessions_after ops env w)) !! id = Some r' /\
    ru_session r' = ru_session r /\ ru_candidate r' = ru_candidate r /\
    rtc run_move (ru_state r) (ru_state r') /\ (ru_state r ∈ run_final -> r' = r)) /\
  (forall u w1 w2, UpdateArchaeologyRun u env w1 = (inr tt, w2) ->
    exists n x x', l_runs (tk_others (env n) (w_db w1)) !! up_RunID u = Some x /\ l_runs (w_db w2) !! up_RunID u = Some x' /\
      ru_runner x = up_RunnerKey u /\ ru_state x' = up_State u /\ (ru_state x, ru_state x') ∈ answer_edges).
Proof.
  intros Hoth Hr. split.
  - destruct (sessions_after_step ops env w Hoth) as [_ _ HR _ _ _ _].
    destruct (HR id r Hr) as (r' & Hr' & [(? & ? & _) Hm Hf]). eauto 10.
  - intros u w1 w2 (n & x & t & Hx & Hk & He & Hx')%answer_inv. eauto 10.
Qed.

(** No session operation, and no restart, loses evidence: a native job keeps
    its Codex identity and its report and its state does not move backwards, a
    settled persistence intent does not change, and reported outcomes, their
    provenance and their contributors are never altered or removed. *)
Theorem restarts_keep_evidence `{Sha256, SessionJSON, ProposalJSON} ops env w :
  others_run_sessions env ->
  let d := w_db w in let d' := w_db (sessions_after ops env w) in
  (forall id r, a_jobs (l_arch d) !! id = Some r -> exists r', a_jobs (l_arch d') !! id = Some r' /\ row_step r r') /\
  (forall id r, a_intents (l_arch d) !! id = Some r -> settled r -> a_intents (l_arch d') !! id = Some r) /\
  l_outcomes d ⊆ l_outcomes d' /\ l_provenance d ⊆ l_provenance d' /\ l_contributors d ⊆ l_contributors d'.
Proof.
  intros Hoth. cbv zeta. destruct (sessions_after_step ops env w Hoth) as [[HJ _] [HI _] _ _ _ _ Hrep]. split_and!; try apply Hrep.
  - intros id r Hr. specialize (HJ id). rewrite Hr in HJ. destruct (a_jobs _ !! id) as [r'|]; [eauto|done].
  - intros id r Hr Hs. specialize (HI id). rewrite Hr in HI. destruct (a_intents _ !! id) as [r'|]; [|done].
    f_equal. by apply HI.
Qed.

(** ** Grants *)

(** A database whose launch has been claimed *)
Definition grant_used (d : LDB) (id : string) : Prop :=
  exists l, l_launches d !! id = Some l /\ 3 <= launch_rank (ln_state l).

Lemma grant_used_step d d' id : session_step d d' -> grant_used d id -> grant_used d' id.
Proof.
  intros [_ _ _ HL _ _ _] (l & Hl & Hr). destruct (HL id l Hl) as (l' & Hl' & Hs). exists l'. split; [done|].
  pose proof (lr_rank _ _ Hs). lia.
Qed.

Lemma launch_by_id_inv id d l : launch_by_id id d = inr l -> l_launches d !! id = Some l.
Proof. unfold launch_by_id. destruct (l_launches d !! id); naive_solver. Qed.

Lemma update_launch_row id cond f d n d' l :
  update_launch id cond f d = inr (n, d') -> l_launches d !! id = Some l -> cond l = true ->
  l_launches d' = <[id:=f l]> (l_launches d).
Proof.
  intros Hu Hl Hc. unfold update_launch, lcheck in Hu. rewrite Hl, Hc in Hu. destruct (_ && _); [|done]. by injection Hu as _ <-.
Qed.

(** What a claim that succeeded read and wrote *)
Lemma claim_inv c env w a w' :
  ClaimArchaeologyTaskLaunch c env w = (inr a, w') ->
  exists n t1 t l, let d := tk_others (env n) (w_db w) in
    l_launches d !! tc_LaunchID c = Some l /\
    ln_candidate l = tc_ProjectID c /\ ln_thread l = tc_ThreadID c /\ ln_codex l = tc_CodexSessionID c /\
    ln_grant l = tc_GrantDigest c /\ t1 < ln_grant_expires l /\ ln_state l = "task_created"%string /\ ln_grant_consumed l = None /\
    l_launches (w_db w') !! tc_LaunchID c = Some (launch_claimed (tc_ReportDigest c) (tc_ReportExpiresAt c) t l) /\
    (exists m, t1 = tk_now (env m)).
Proof.
  unfold ClaimArchaeologyTaskLaunch. intros Hrun. m_inv1. m_inv1. m_inv1. m_inv1. m_inv1. m_inv1.
  apply runTx_inr_inv in Hrun as (wb & o & Hb & Hw). m_inv. apply launch_by_id_inv in Hq. bool_inv.
  destruct Hw as [[_ ->]|[[=] _]]. rewrite H5, H8 in Hst. simplify_eq/=.
  exists (w_tick w1), (tk_now (env (w_tick w0))), (tk_now (env (w_tick w3))), r2. rewrite <-H3 in Hq.
  rewrite (update_launch_row _ _ _ _ _ _ _ Hst Hq eq_refl), lookup_insert_eq. rewrite H3, H0 in Hq.
  split_and!; eauto. destruct (ln_grant_consumed r2); [|done]. exfalso. eauto.
Qed.

(** C23: a launch's grant opens its task once.  A claim succeeds only against a
    launch whose task was created, for the project, thread and Codex session it
    names, with the digest of the grant, before the grant expires and while it
    is unused; and after it no claim of that launch succeeds again, whatever
    runs in between and whoever presents the grant. *)
Theorem grant_opens_once `{Sha256, SessionJSON, ProposalJSON} c env w a w' ops c' a' w'' :
  others_run_sessions env -> ClaimArchaeologyTaskLaunch c env w = (inr a, w') -> tc_LaunchID c' = tc_LaunchID c ->
  (exists n m l, l_launches (tk_others (env n) (w_db w)) !! tc_LaunchID c = Some l /\ ln_state l = "task_created"%string /\
     ln_candidate l = tc_ProjectID c /\ ln_thread l = tc_ThreadID c /\ ln_codex l = tc_CodexSessionID c /\
     ln_grant l = tc_GrantDigest c /\ tk_now (env m) < ln_grant_expires l /\ ln_grant_consumed l = None) /\
  ClaimArchaeologyTaskLaunch c' env (sessions_after ops env w') <> (inr a', w'').
Proof.
  intros Hoth Hc Hid. apply claim_inv in Hc as (n & t1 & t & l & Hl & ? & ? & ? & ? & ? & ? & ? & Hw' & m & ->).
  split; [by eexists n, m, l|]. intros Hc'. apply claim_inv in Hc' as (n' & ? & ? & l' & Hl' & _ & _ & _ & _ & _ & Hst & _).
  assert (grant_used (tk_others (env n') (w_db (sessions_after ops env w'))) (tc_LaunchID c')) as (y & Hy & Hr).
  { eapply grant_used_step; [apply Hoth|]. eapply grant_used_step; [by apply sessions_after_step|].
    rewrite Hid. eexists. split; [exact Hw'|]. by vm_compute. }
  simplify_eq. rewrite Hst in Hr. by vm_compute in Hr.
Qed.

(** ** Reports of a task *)

Lemma other_writes_launches d cond f u d' : update_sessions cond f d = inr (u, d') -> l_launches d' = l_launches d /\ l_runs d' = l_runs d.
Proof. by intros ->%update_sessions_inv. Qed.

Lemma insert_run_inv id r d u d' :
  insert_run id r d = inr (u, d') -> l_runs d !! id = None /\ d' = set_l_runs (<[id:=r]> (l_runs d)) d.
Proof.
  unfold insert_run, lcheck. match goal with |- context [if ?b then _ else _] => destruct b eqn:E end; [|done].
  intros [= _ <-]. bool_inv. split; [by apply absent_inv|done].
Qed.

(** What the writes of a report leave in the launch and in the run *)
Lemma taskReportWrites_inv `{Sha256, SessionJSON} c l rd t env w u w' :
  taskReportWrites c l rd t env w = (inr u, w') -> l_launches (w_db w) !! tp_LaunchID c = Some l ->
  let run := deterministicHistoricalID "ARR-" [ln_session l; ln_candidate l] in
  l_launches (w_db w') !! tp_LaunchID c = Some (launch_completed rd t l) /\ l_runs (w_db w) !! run = None /\
  l_runs (w_db w') !! run = Some (reported_run (ln_session l) (ln_candidate l) (Z.of_nat (length (tp_Outcomes c)))
    (total_sources (tp_Outcomes c)) (tp_CodexSessionID c) t).
Proof.
  unfold taskReportWrites. cbv zeta. intros Hrun Hl.
  set (run := deterministicHistoricalID "ARR-" [ln_session l; ln_candidate l]) in *. m_inv.
  assert (l_launches (w_db w') = l_launches (w_db w2) /\ l_runs (w_db w') = l_runs (w_db w2)) as [-> ->].
  { rewrite <-H4. destruct (r2 =? 0); m_inv;
      match goal with E : update_sessions _ _ _ = inr _ |- _ => apply other_writes_launches in E as [<- <-] end; [|done].
    match goal with E : update_handoffs _ _ _ = inr _ |- _ => by injection E as _ <- end. }
  assert (takes same_launches (w_db w0) (forM_ (tp_Outcomes c) (fun o => report_outcome
    (if seqb (ao_ID o) "" then deterministicHistoricalID "ARO-" [tp_LaunchID c; ln_candidate l; ao_Title o] else ao_ID o)
    run (ln_candidate l) o t))) as Kl by (apply (sf_forM _); intros; apply sf_outcome_launches).
  assert (takes same_runs (w_db w0) (forM_ (tp_Outcomes c) (fun o => report_outcome
    (if seqb (ao_ID o) "" then deterministicHistoricalID "ARO-" [tp_LaunchID c; ln_candidate l; ao_Title o] else ao_ID o)
    run (ln_candidate l) o t))) as Kr by (apply (sf_forM _); intros; apply sf_outcome_runs).
  specialize (Kl _ _ _ _ eq_refl Hrun1). specialize (Kr _ _ _ _ eq_refl Hrun1). unfold same_launches, same_runs in *.
  assert (l_launches (w_db w0) = l_launches (w_db w) /\ l_runs (w_db w) !! run = None /\
    l_runs (w_db w0) !! run = Some (reported_run (ln_session l) (ln_candidate l) (Z.of_nat (length (tp_Outcomes c)))
      (total_sources (tp_Outcomes c)) (tp_CodexSessionID c) t)) as (E0 & Hnone & Hrun0).
  { match goal with E : insert_run _ _ _ = inr _ |- _ => apply insert_run_inv in E as [? ->] end.
    simpl. by rewrite lookup_insert_eq. }
  match goal with E : update_launch _ _ _ _ = inr _ |- _ => rename E into Hup end.
  rewrite <-E0, <-Kl in Hl. rewrite (update_launch_row _ _ _ _ _ _ _ Hup Hl eq_refl), lookup_insert_eq.
  split_and!; [done..|]. apply update_launch_inv in Hup as [[_ ->]|(x & _ & _ & _ & _ & ->)]; simpl; by rewrite Kr.
Qed.

(** C24: a task's report is accepted only from the bearer of the report digest
    that its claim registered, for the project, thread and Codex session of the
    launch.  Either the launch is complete and this is the same report again,
    and nothing changes; or the launch is claimed, the report comes before its
    deadline, and it completes the launch and records its one run. *)
Theorem task_report_authorized `{Sha256, SessionJSON, ProposalJSON} c env w w' :
  ReportArchaeologyTaskLaunch c env w = (inr tt, w') ->
  let rd := sessionDigest "task-report" (taskReportValue (tp_RequestID c) (tp_Outcomes c)) in
  let t := tk_now (env (w_tick w)) in
  exists n l, let d := tk_others (env n) (w_db w) in
    l_launches d !! tp_LaunchID c = Some l /\ ln_report l = Some (tp_ReportDigest c) /\
    ln_candidate l = tp_ProjectID c /\ ln_thread l = tp_ThreadID c /\ ln_codex l = tp_CodexSessionID c /\
    (ln_state l = "completed"%string /\ ln_report_request l = Some rd /\ w_db w' = d \/
     ln_state l ∈ ["claimed"; "running"]%string /\ (exists x, ln_report_expires l = Some x /\ t < x) /\
     l_launches (w_db w') !! tp_LaunchID c = Some (launch_completed rd t l) /\
     let run := deterministicHistoricalID "ARR-" [ln_session l; ln_candidate l] in
     l_runs d !! run = None /\ (ru_state <$> l_runs (w_db w') !! run) = Some "completed"%string).
Proof.
  unfold ReportArchaeologyTaskLaunch. cbv zeta. intros Hrun. m_inv1. m_inv1. m_inv1. m_inv1. m_inv1. m_inv1. subst.
  apply runTx_inr_inv in Hrun as (wb & o & Hb & Hw). m_inv1. m_inv1. m_inv1. m_inv1. m_inv1. m_inv1. m_inv1.
  bool_inv. exists (w_tick w1), r0.
  match goal with E : w_db w1 = w_db w |- _ => rewrite E in * end.
  assert (l_launches (tk_others (env (w_tick w1)) (w_db w)) !! tp_LaunchID c = Some r0) as Hl by (repeat case_match; naive_solver).
  assert (ln_report r0 = Some (tp_ReportDigest c)) as Hrep.
  { destruct (ln_report r0); simpl in *; congruence. }
  split_and!; [done..|]. destruct (seqb (ln_state r0) "completed") eqn:Hst; m_inv; bool_inv.
  - left. destruct Hw as [[_ ->]|[[=] _]]. by rewrite H5.
  - right. destruct (ln_report_expires r0) as [x|]; [|done]. bool_inv. destruct Hw as [[_ ->]|[[=] _]].
    match goal with E : taskReportWrites _ _ _ _ _ _ = _ |- _ => apply taskReportWrites_inv in E; [destruct E as (E1 & E2 & E3)|by rewrite H5] end.
    rewrite H5 in E2. rewrite E1, E3. split_and!; [by apply isin_elem|eauto|done..].
Qed.

(** ** Capacity *)

Lemma count_insert {A} `{Countable K} (p : K -> A -> bool) (m : gmap K A) k x :
  m !! k = None -> count_where p (<[k:=x]> m) = (if p k x then 1 else 0) + count_where p m.
Proof.
  intros Hk. unfold count_where. assert (map_to_list (<[k:=x]> m) ≡ₚ (k, x) :: map_to_list m) as Hp by by apply map_to_list_insert.
  assert (forall l l' : list (K * A), l ≡ₚ l' -> length (List.filter (fun e => p e.1 e.2) l) = length (List.filter (fun e => p e.1 e.2) l'))
    as Hlen.
  { induction 1 as [|a l l' _ IH|a b l|l1 l2 l3 _ IH1 _ IH2]; simpl; [done| | |congruence]; repeat case_match; simpl; congruence. }
  rewrite (Hlen _ _ Hp). simpl. destruct (p k x); simpl; lia.
Qed.

(** An update of the rows that satisfy a condition adds at most these rows to
    a count. *)
Lemma count_update {A} `{Countable K} (p cond : K -> A -> bool) f (m : gmap K A) :
  count_where p (map_imap (fun k x => Some (if cond k x then f x else x)) m) <= count_where p m + count_where cond m.
Proof.
  induction m as [|k x m Hk IH] using map_ind.
  - rewrite map_imap_empty. unfold count_where. rewrite map_to_list_empty. simpl. lia.
  - rewrite map_imap_insert_Some with (y := if cond k x then f x else x) by done.
    rewrite !count_insert by (rewrite ?map_lookup_imap, ?Hk; done). repeat case_match; lia.
Qed.

Lemma next_run_inv sid d id r :
  next_run sid d = inr (id, r) -> l_runs d !! id = Some r /\ ru_session r = sid /\ ru_state r = "queued"%string.
Proof.
  unfold next_run. destruct (merge_sort _ _) as [|e l] eqn:E; [done|]. intros [= ->].
  assert ((id, r) ∈ merge_sort run_order (filter (fun e : string * run_row => ru_session e.2 = sid /\ ru_state e.2 = "queued"%string)
    (map_to_list (l_runs d)))) as Hin by (rewrite E; left).
  rewrite merge_sort_Permutation, list_elem_of_filter, elem_of_map_to_list in Hin. simpl in Hin. naive_solver.
Qed.

(** A run is claimed only while the session has capacity: after a claim
    that succeeds, the session is running, the claimed run is running under
    the claimer's key, and no more runs of the session are running than its
    concurrency limit allows. *)
Theorem claim_respects_capacity principal runner env w a w' :
  ClaimArchaeologyRun principal runner env w = (inr a, w') ->
  exists sid s r, session_by_principal principal (l_arch (w_db w')) = inr (sid, s) /\ se_state s = "running"%string /\
    active_runs sid (w_db w') <= se_max s /\
    l_runs (w_db w') !! rn_ID a = Some r /\ ru_session r = sid /\ ru_state r = "running"%string /\ ru_runner r = runner.
Proof.
  unfold ClaimArchaeologyRun. intros Hrun. m_inv1. m_inv1. apply runTx_inr_inv in Hrun as (wb & o & Hb & Hw).
  m_inv1. m_inv1. m_inv1. m_inv1. destruct r0 as [sid s].
  m_inv. destruct r3 as [id r3]. m_inv. bool_inv. apply update_runs_inv in Hst as [-> Hd].
  match goal with E : next_run _ _ = _ |- _ => apply next_run_inv in E as (Hr & Hs & Hq) end.
  destruct Hw as [[[= <-] ->]|[[=] _]]. assert (w_db w1 = w_db w2) as E by congruence. rewrite E, H3 in Hd, Hguard2. rewrite H3 in Hr.
  exists sid, s, (claimed_run runner r4 r3). rewrite Hd. simpl in *. rewrite H4. split_and!; try done.
  - unfold active_runs. simpl. rewrite <-H4.
    pose proof (count_update (fun _ r => seqb (ru_session r) sid && seqb (ru_state r) "running")
      (fun i x => seqb i id && seqb (ru_state x) "queued") (claimed_run runner r4) (l_runs (w_db w0))). unfold active_runs in *. lia.
  - rewrite <-H4, map_lookup_imap, Hr. simpl. rewrite (proj2 (seqb_true id id) eq_refl), (proj2 (seqb_true _ _) Hq). done.
Qed.

(** ** A restart and the cancellation of a native batch *)

Lemma session_by_principal_inv p d sid s : session_by_principal p d = inr (sid, s) -> a_sessions d !! sid = Some s.
Proof.
  unfold session_by_principal. destruct (filter _ _) as [|e l] eqn:E; [done|]. intros [= ->].
  assert ((sid, s) ∈ filter (fun e : string * session_row => se_principal e.2 = p) (map_to_list (a_sessions d))) as Hin
    by (rewrite E; left).
  rewrite list_elem_of_filter, elem_of_map_to_list in Hin. naive_solver.
Qed.

(** After a restart the owner of a session cannot cancel a native batch, not
    even one whose jobs all still wait in the queue: the reconciliation moves every running session to [paused], and
    the cancellation requires [running]. *)
Theorem restart_blocks_cancel `{Sha256, DigestJSON} env w w' principal request base envA n jobs w'' :
  ReconcileArchaeology env w = (inr tt, w') -> alone envA ->
  a_requests (l_arch (w_db w')) !! (principal, request) = None ->
  CancelArchaeologyNativeBatch principal request base envA (mkWorld (l_arch (w_db w')) n) <> (inr jobs, w'').
Proof.
  intros (_ & _ & Hidle & _ & _)%restart_idle Hal Hfree. unfold CancelArchaeologyNativeBatch. intros Hrun. m_inv1. m_inv1.
  apply runTx_inr_inv in Hrun as (wb & o & Hb & _). rewrite Hal in Hb.
  m_inv1. m_inv1. m_inv1. m_inv1. destruct r0 as [sid s]. m_inv1. m_inv1. apply query_inr_inv in Hst as [Hs Hd]. simpl in Hs, Hd.
  apply session_by_principal_inv in Hs. specialize (Hidle sid s Hs). simpl in Hidle.
  m_inv1.
  assert (r1 = false) as ->.
  { unfold claimArchaeologyRequest in Hrun0. m_inv1. m_inv1. unfold aselect in Hq. rewrite H3, Hd, Hfree in Hq.
    destruct r2 as [[]|x]; m_inv; try done. destruct Hq as [Hq|[? Hq]]; done. }
  m_inv. bool_inv. set_solver.
Qed.

(** ** A concrete history *)

Module SessionDemo.
#[export] Instance session_json : SessionJSON := fun op v =>
  match v with
  | discoverValue => op
  | configureValue r _ | transitionValue r => op +:+ pretty (Z.to_N r)
  | launchValue p j r => op +:+ p +:+ j +:+ r
  | claimValue s => op +:+ s
  | reportValue _ => op
  | taskReportValue r _ => op +:+ r
  end.
#[export] Existing Instance ArchDemo.externals.

Definition sid : string := Eval vm_compute in archaeologySessionID "p".
Definition launch : string := Eval vm_compute in deterministicHistoricalID "ARL-" [sid; "demo"%string].
Definition runid : string := Eval vm_compute in deterministicHistoricalID "ARR-" [sid; "demo"%string].

Definition candidate (id : string) : ArchaeologyCandidate :=
  {| cd_ID := id; cd_CanonicalProjectID := id; cd_Name := id; cd_PathLabel := "~/"; cd_RepositoryLabel := ""; cd_RelativeCost := "low";
     cd_PrivacyNote := ""; cd_LastActivityAt := 1; cd_HasGit := true; cd_HasDocs := false; cd_HasCodexHistory := false;
     cd_FromCodexMetadata := true; cd_FromConfiguredRoot := true; cd_DurationMinSeconds := 1; cd_DurationMaxSeconds := 2;
     cd_CodexThreadCount := 1 |}.
Definition discovery : ArchaeologyDiscovery :=
  {| dy_Candidates := [candidate "demo"; candidate "demo2"]; dy_SourceRootsScanned := 1; dy_TasksExamined := 1; dy_ProjectsGrouped := 2;
     dy_Truncated := false; dy_AppServerIdentity := "app" |}.
Definition config (ids : list string) : ArchaeologyConfig :=
  {| cg_SelectedProjectIDs := ids; cg_Depth := "quick"; cg_Sources := {| Git := true; Docs := false; CodexHistory := false |};
     cg_MaxConcurrency := 1 |}.
Definition command (request : string) (base : Z) (ids : list string) : ArchaeologyMutation :=
  {| mu_Principal := "p"; mu_RequestID := request; mu_BaseRevision := base; mu_Config := config ids |}.
Definition created : ArchaeologyLaunchResult :=
  {| la_LaunchID := launch; la_ProjectID := "demo"; la_State := "task_created"; la_ThreadID := "th"; la_CodexSessionID := "co";
     la_TurnID := "tu"; la_Error := "" |}.
Definition claim : ArchaeologyTaskClaim :=
  {| tc_LaunchID := launch; tc_ProjectID := "demo"; tc_ThreadID := "th"; tc_CodexSessionID := "co"; tc_GrantDigest := "grant";
     tc_ReportDigest := "rdig"; tc_ReportExpiresAt := 100 |}.
Definition outcome : ArchaeologyOutcome :=
  {| ao_ID := ""; ao_ProjectID := "demo"; ao_Title := "t"; ao_Summary := "s"; ao_SourceCount := 1; ao_ProposalJSON := "{}";
     ao_Provenance := [ArchDemo.evidence]; ao_Contributors := [] |}.
Definition report : ArchaeologyTaskReport :=
  {| tp_LaunchID := launch; tp_ProjectID := "demo"; tp_ThreadID := "th"; tp_CodexSessionID := "co"; tp_RequestID := "rr";
     tp_ReportDigest := "rdig"; tp_Outcomes := [outcome] |}.

Definition alone_env : Env LDB := fun _ => mkTick None false 5 "x" id.
Lemma alone_steps : others_run_sessions alone_env.
Proof. intros n d. reflexivity. Qed.
Definition native (ops : list ArchOp) (d : LDB) : LDB := set_l_arch (arch_after ops ArchDemo.calm (l_arch d)) d.
Definition queue : ArchOp :=
  OpQueueBatch {| br_Principal := "p"; br_RequestID := "r1"; br_BaseRevision := 3; br_AcknowledgeLargeBatch := false |}.
Definition batch : string := Eval vm_compute in deterministicHistoricalID "ARB-" [sid; "r1"%string].
Definition job : string := Eval vm_compute in deterministicHistoricalID "ARJ-" [batch; "demo"%string].
(** Another process records a report while the server restarts. *)
Definition reporting : ArchOp :=
  OpReport {| rp_JobID := job; rp_ThreadID := "nth"; rp_TurnID := "ntu"; rp_Digest := "d1";
              rp_Outcomes := [ {| ao_ID := ""; ao_ProjectID := "demo"; ao_Title := "t"; ao_Summary := "s"; ao_SourceCount := 1;
                                  ao_ProposalJSON := "{}"; ao_Provenance := [ArchDemo.evidence]; ao_Contributors := [] |} ] |}.
Definition busy_env : Env LDB := fun n => mkTick None false 5 "x" (match n with 1%nat => native [reporting] | _ => id end).
Lemma busy_steps : others_run_sessions busy_env.
Proof. intros n d. destruct n as [|[|n]]; simpl; [reflexivity| |reflexivity]. apply native_run_step, ArchDemo.calm_others. Qed.

Definition setup : list SessionOp := [OpDiscover (command "a" 0 []) discovery; OpConfigure (command "b" 2 ["demo"%string])].
Definition launching : list SessionOp :=
  setup ++ [OpTransition (command "c" 3 []) Start; OpPrepareLaunch "p" "demo" "rq" "cm" "grant" 50; OpCompleteLaunch created].
Definition after (ops : list SessionOp) : World LDB := sessions_after ops alone_env (mkWorld ldb_empty 0).

(** A session whose batch is queued, and one whose first job is active *)
Definition queued : World LDB := mkWorld (native [queue] (w_db (after setup))) 0.
Definition working : World LDB :=
  mkWorld (native [queue; OpClaimJob; OpBindJob job "nth" "nco" "ntu"] (w_db (after setup))) 0.

Definition state_of_batch (d : LDB) : option string := ba_state <$> a_batches (l_arch d) !! batch.

(** A session with a queued run *)
Definition legacy : LDB :=
  mkLDB (set_a_candidates {[(sid, "demo") := candidate_columns (candidate "demo")]}%string
           (set_a_sessions {[sid := {| se_principal := "p"; se_state := "running";
              se_policy := {| Depth := "quick"; Sources := {| Git := true; Docs := false; CodexHistory := false |} |};
              se_max := 1; se_revision := 1; se_updated := 0 |}]} adb_empty))
    ∅ ∅
    {["run" := {| ru_session := sid; ru_candidate := "demo"; ru_state := "queued"; ru_phase := ""; ru_completed := 0; ru_total := None;
        ru_outcomes := 0; ru_sources := 0; ru_error := ""; ru_runner := ""; ru_created := 0; ru_updated := 0 |}]}
    ∅ ∅ ∅ ∅ ∅ ∅.
Definition answer : ArchaeologyRunUpdate :=
  {| up_Principal := "p"; up_RunID := "run"; up_RunnerKey := "k"; up_State := "completed"; up_PhaseLabel := ""; up_Error := "";
     up_CompletedUnits := 1; up_TotalUnits := Some 1; up_SourcesExamined := 1; up_Outcomes := [outcome] |}.
End SessionDemo.
Import SessionDemo.

Lemma run_pair {A B} (x : A * B) a : x.1 = a -> x = (a, x.2).
Proof. destruct x. simpl. congruence. Qed.

Lemma restart_reconciles_witness : let w' := (ReconcileArchaeology busy_env working).2 in
  ReconcileArchaeology busy_env working = (inr tt, w') /\
  (exists r, a_jobs (l_arch (w_db w')) !! job = Some r /\ jo_state r = "uncertain"%string) /\ jobs_idle (w_db w') /\ batches_flagged (w_db w').
Proof.
  cbv zeta. assert (ReconcileArchaeology busy_env working = (inr tt, (ReconcileArchaeology busy_env working).2)) as Hrun.
  { apply run_pair. vm_compute. reflexivity. }
  split; [exact Hrun|]. split.
  - assert (jo_state <$> a_jobs (l_arch (w_db (ReconcileArchaeology busy_env working).2)) !! job = Some "uncertain"%string) as Hs
      by (vm_compute; reflexivity).
    destruct (a_jobs _ !! job) as [r|]; [|discriminate Hs]. injection Hs as Hs. exists r. split; [reflexivity|exact Hs].
  - apply (restart_reconciles _ _ _ Hrun).
Defined.

Lemma runs_follow_machine_witness : exists r',
  l_runs (w_db (sessions_after [OpClaimRun "p" "k"; OpUpdateRun answer; OpRestart] alone_env (mkWorld legacy 0))) !! "run"%string = Some r' /\
  ru_state r' = "completed"%string /\ rtc run_move "queued" (ru_state r').
Proof.
  assert (ru_state <$> l_runs (w_db (sessions_after [OpClaimRun "p" "k"; OpUpdateRun answer; OpRestart] alone_env (mkWorld legacy 0))) !! "run"%string
    = Some "completed"%string) as Hs by (vm_compute; reflexivity).
  destruct (runs_follow_machine [OpClaimRun "p" "k"; OpUpdateRun answer; OpRestart] alone_env (mkWorld legacy 0) "run" _ alone_steps
    (lookup_singleton_eq _ _)) as [(r' & Hr' & _ & _ & Hm & _) _].
  exists r'. split; [exact Hr'|]. rewrite Hr' in Hs. injection Hs as Hs. split; [exact Hs|exact Hm].
Defined.

Lemma restarts_keep_evidence_witness : exists r r',
  a_jobs (l_arch (w_db working)) !! job = Some r /\ jo_thread r = "nth"%string /\
  a_jobs (l_arch (w_db (sessions_after [OpRestart] busy_env working))) !! job = Some r' /\ jo_thread r' = "nth"%string.
Proof.
  assert (jo_thread <$> a_jobs (l_arch (w_db working)) !! job = Some "nth"%string) as Hs by (vm_compute; reflexivity).
  destruct (a_jobs (l_arch (w_db working)) !! job) as [r|] eqn:E; [|discriminate Hs]. injection Hs as Hs.
  destruct (restarts_keep_evidence [OpRestart] busy_env working busy_steps) as (HJ & _).
  destruct (HJ job r E) as (r' & Hr' & Hstep). exists r, r'. split; [reflexivity|]. split; [exact Hs|]. split; [exact Hr'|].
  rewrite (rw_thread _ _ Hstep); rewrite Hs; [reflexivity|discriminate].
Defined.

Lemma grant_opens_once_witness : let w' := (ClaimArchaeologyTaskLaunch claim alone_env (after launching)).2 in
  (exists a, ClaimArchaeologyTaskLaunch claim alone_env (after launching) = (inr a, w')) /\
  forall a' w'', ClaimArchaeologyTaskLaunch claim alone_env (sessions_after [OpReportLaunch report; OpRestart] alone_env w') <> (inr a', w'').
Proof.
  cbv zeta. assert (exists a, ClaimArchaeologyTaskLaunch claim alone_env (after launching)
    = (inr a, (ClaimArchaeologyTaskLaunch claim alone_env (after launching)).2)) as [a Ha].
  { eexists. apply run_pair. vm_compute. reflexivity. }
  split; [exists a; exact Ha|]. intros a' w''.
  apply (grant_opens_once claim alone_env (after launching) a _ [OpReportLaunch report; OpRestart] claim a' w'' alone_steps Ha eq_refl).
Defined.

Lemma task_report_authorized_witness : let w := after (launching ++ [OpClaimLaunch claim]) in
  let w' := (ReportArchaeologyTaskLaunch report alone_env w).2 in
  ReportArchaeologyTaskLaunch report alone_env w = (inr tt, w') /\
  exists l, l_launches (w_db w) !! launch = Some l /\ ln_report l = Some "rdig"%string.
Proof.
  cbv zeta. set (w := after (launching ++ [OpClaimLaunch claim])).
  assert (ReportArchaeologyTaskLaunch report alone_env w = (inr tt, (ReportArchaeologyTaskLaunch report alone_env w).2)) as Hrun.
  { apply run_pair. vm_compute. reflexivity. }
  split; [exact Hrun|]. destruct (task_report_authorized _ _ _ _ Hrun) as (n & l & Hl & Hrep & _). exists l. split; [exact Hl|exact Hrep].
Defined.

Lemma claim_respects_capacity_witness : let w' := (ClaimArchaeologyRun "p" "k" alone_env (mkWorld legacy 0)).2 in
  exists a s, ClaimArchaeologyRun "p" "k" alone_env (mkWorld legacy 0) = (inr a, w') /\
    session_by_principal "p" (l_arch (w_db w')) = inr s /\ active_runs s.1 (w_db w') <= se_max s.2.
Proof.
  cbv zeta. assert (exists a, ClaimArchaeologyRun "p" "k" alone_env (mkWorld legacy 0)
    = (inr a, (ClaimArchaeologyRun "p" "k" alone_env (mkWorld legacy 0)).2)) as [a Ha].
  { eexists. apply run_pair. vm_compute. reflexivity. }
  destruct (claim_respects_capacity _ _ _ _ _ _ Ha) as (sid & s & r & Hs & _ & Hcap & _).
  exists a, (sid, s). split; [exact Ha|]. split; [exact Hs|exact Hcap].
Defined.

Lemma restart_blocks_cancel_witness : let w' := (ReconcileArchaeology alone_env queued).2 in
  state_of_batch (w_db w') = Some "queued"%string /\
  forall jobs w'', CancelArchaeologyNativeBatch "p" "stop" 5 ArchDemo.calm (mkWorld (l_arch (w_db w')) 0) <> (inr jobs, w'').
Proof.
  cbv zeta. split; [vm_compute; reflexivity|]. intros jobs w''.
  apply (restart_blocks_cancel alone_env queued); [apply run_pair; vm_compute; reflexivity|intros n d; reflexivity|vm_compute; reflexivity].
Defined.
