(* ===== verification/NativeOutcome.v ===== *)
(** * What the job operations achieve

    Which job a claim takes and when it may, that the readback of a settled
    callback agrees with the callback, and a case in which a resolved
    cancellation leaves its batch behind. *)

From S2P Require Import Prelude GoText Stamp Framing CoreDB ProjectCore ArchDB ArchPolicy NativeJobs NativeSpec Ledger LedgerSpec ArchSafety LedgerOutcome.
From stdpp Require Import base gmap strings list sets sorting relations.
From Stdlib Require Import ZArith Lia.

Local Open Scope Z_scope.
Local Open Scope prog_scope.

#[local] Set Default Proof Using "Type*".

(** ** Claiming *)

Section Claiming.
#[local] Existing Instance job_order_dec.

Lemma job_order_spec ia ja ba ib jb bb :
  job_order (ia, (ja, ba)) (ib, (jb, bb)) <->
  let sa := stamp (ba_created ba) in let sb := stamp (ba_created bb) in
  let ta := stamp (jo_created ja) in let tb := stamp (jo_created jb) in
  sle sa sb /\ (sa = sb -> sle ta tb /\ (ta = tb -> sle ia ib)).
Proof.
  unfold job_order. cbv zeta. destruct (seqb (stamp (ba_created ba)) _) eqn:E1; bool_inv.
  - rewrite E1. destruct (seqb (stamp (jo_created ja)) _) eqn:E2; bool_inv.
    + rewrite E2. split; [intros; split_and!; [reflexivity|split; [reflexivity|done]]|]. intros [_ H]. by apply H.
    + split; [|intros [_ H]; by apply H]. intros. split; [reflexivity|]. by intros.
  - split; [by intros|]. by intros [? _].
Qed.

#[export] Instance job_order_total : Total (job_order).
Proof.
  intros [ia [ja ba]] [ib [jb bb]]. rewrite !job_order_spec. cbv zeta.
  destruct (decide (stamp (ba_created ba) = stamp (ba_created bb))) as [->|Hs].
  - destruct (decide (stamp (jo_created ja) = stamp (jo_created jb))) as [->|Ht].
    + destruct (total sle ia ib); [left|right]; (split; [reflexivity|]; split; [reflexivity|done]).
    + destruct (total sle (stamp (jo_created ja)) (stamp (jo_created jb))); [left|right];
        (split; [reflexivity|]; split; [done|congruence]).
  - destruct (total sle (stamp (ba_created ba)) (stamp (ba_created bb))); [left|right]; (split; [done|congruence]).
Qed.

#[export] Instance job_order_trans : Transitive (job_order).
Proof.
  intros [ia [ja ba]] [ib [jb bb]] [ic [jc bc]]. rewrite !job_order_spec. cbv zeta.
  intros [S1 R1] [S2 R2]. split; [by etrans|]. intros E.
  assert (stamp (ba_created ba) = stamp (ba_created bb)) as E1 by (apply (anti_symm sle); [done|by rewrite E]).
  destruct (R1 E1) as [T1 I1], (R2 ltac:(congruence)) as [T2 I2]. split; [by etrans|]. intros F.
  assert (stamp (jo_created ja) = stamp (jo_created jb)) as F1 by (apply (anti_symm sle); [done|by rewrite F]).
  etrans; [by apply I1|apply I2; congruence].
Qed.

Lemma next_job_inv d e :
  next_job d = inr e ->
  map_Forall (fun _ r => jo_state r <> "uncertain"%string) (a_jobs d) /\
  map_Forall (fun _ r => intent_unsettled r = false) (a_intents d) /\
  e ∈ claimable d /\ forall x, x ∈ claimable d -> job_order e x.
Proof.
  unfold next_job. destruct (_ && _) eqn:Hg; [|done]. bool_inv.
  destruct (merge_sort (job_order) (claimable d)) as [|y l] eqn:Hsort; [done|]. intros [= ->].
  pose proof (merge_sort_Permutation (job_order) (claimable d)) as Hp. rewrite Hsort in Hp.
  pose proof (StronglySorted_merge_sort (job_order) (claimable d)) as Hss. rewrite Hsort in Hss.
  apply StronglySorted_inv in Hss as [_ Hall]. split_and!; [done..| |].
  - rewrite <- Hp. left.
  - intros x Hx. rewrite <- Hp in Hx. apply elem_of_cons in Hx as [->|Hx]; [|by eapply Forall_forall].
    destruct (total (job_order) e e); done.
Qed.

Lemma claimable_inv d id r b :
  (id, (r, b)) ∈ claimable d ->
  a_jobs d !! id = Some r /\ a_batches d !! jo_batch r = Some b /\ jo_state r = "queued"%string /\
  isin (ba_state b) ["queued"; "running"] = true /\ ba_attested b = true.
Proof.
  unfold claimable. rewrite list_elem_of_omap. intros ([i x] & Hin & Hx). simpl in Hx.
  apply elem_of_map_to_list in Hin. destruct (a_batches d !! jo_batch x) as [y|] eqn:Hb; [|done].
  destruct (_ && _) eqn:Hg; [|done]. simplify_eq/=. by bool_inv.
Qed.
End Claiming.

(** A claim takes the first waiting job of an open, attested batch, in the
    order of the stored creation stamps and then of the ids, and only while no job is uncertain and the ledger has nothing unsettled; it
    starts that job and touches no other. *)
Theorem claim_takes_next env w c w' :
  ClaimArchaeologyNativeJob env w = (inr c, w') ->
  let d := tk_others (env (w_tick w)) (w_db w) in
  (forall i r, a_jobs d !! i = Some r -> jo_state r <> "uncertain"%string) /\
  (forall i r, a_intents d !! i = Some r -> isin (in_state r) ["pending"; "leased"; "blocked"] = false) /\
  exists r b, a_jobs d !! cj_ID c = Some r /\ jo_state r = "queued"%string /\
    a_batches d !! jo_batch r = Some b /\ isin (ba_state b) ["queued"; "running"] = true /\ ba_attested b = true /\
    cj_Policy c = ba_policy b /\ (forall e, e ∈ claimable d -> job_order (cj_ID c, (r, b)) e) /\
    a_jobs (w_db w') = <[cj_ID c := job_started (cj_StartedAt c) r]> (a_jobs d).
Proof.
  intros Hrun d. apply runTx_inr_inv in Hrun as (w1 & o & Hrun & Ho). fold d in Hrun, Ho. unfold claimTx in Hrun.
  m_inv1. m_inv1. simpl in *. destruct r as [[]|[id [r b]]]; [by m_inv..|].
  destruct Hq as [Hq|[f ?]]; [|done]. symmetry in Hq. apply next_job_inv in Hq as (Hu & Hi & Hin & Hmin).
  destruct (claimable_inv _ _ _ _ Hin) as (Hr & Hb & Hs & Hbs & Hatt).
  m_inv. simplify_eq/=. destruct Ho as [[Ho Hdb]|[Ho _]]; [|done]. simplify_eq/=.
  split; [intros; by eapply Hu|]. split; [intros; by eapply Hi|]. exists r, b. split_and!; try done.
  rewrite Hdb. unfold set_batch_state, update_batches in *. simplify_eq/=.
  match goal with H : update_job _ _ _ _ = _ |- _ => apply update_job_inv in H as [[? _]|(x & _ & Hx & _ & _ & Hd)] end; [lia|].
  rewrite <- H5, Hd. simpl. rewrite H3, H in *. by simplify_eq.
Qed.

(** The queue is first in, first out only across seconds: of two batches
    created within one second, the one created on the second itself has the
    larger stamp, and its jobs wait for those of the later batch. *)
Theorem queue_order_missorts i0 i1 j0 j1 b0 b1 :
  ba_created b0 = 1767225600 * 1000000000 -> ba_created b1 = ba_created b0 + 500000000 ->
  job_order (i1, (j1, b1)) (i0, (j0, b0)) /\ ~ job_order (i0, (j0, b0)) (i1, (j1, b1)).
Proof.
  intros H0 H1. rewrite !job_order_spec. cbv zeta. rewrite H1, H0.
  destruct stamps_missort as (-> & -> & Hn & Hle). split; [split; [done|discriminate]|]. by intros [? _].
Qed.

(** ** Readback

    A callback that was applied reads back as applied, so a worker that lost
    the acknowledgement settles the intent instead of applying it again. *)

Lemma aselect_inv {A} `{Countable K} (tbl : ADB -> gmap K A) k d a : aselect tbl k d = inr a -> tbl d !! k = Some a.
Proof. unfold aselect. case_match; naive_solver. Qed.

Lemma runTx_alone {A} (body : M ADB TxFail (TxOut A)) env w a w' :
  alone env -> runTx body env w = (inr a, w') ->
  exists w1 o, body env (mkWorld (w_db w) (S (w_tick w))) = (inr o, w1) /\
    (o = TxCommit a /\ w_db w' = w_db w1 \/ o = TxRollback a /\ w_db w' = w_db w).
Proof. intros Ha (w1 & o & Hrun & Ho)%runTx_inr_inv. rewrite Ha in Hrun, Ho. eauto. Qed.

Lemma exact_refl s : s <> ""%string -> persistenceIdentityExact s s = true.
Proof. unfold persistenceIdentityExact. intros Hs. rewrite seqb_refl, andb_true_r, negb_true_iff. by apply seqb_false. Qed.

Lemma compatible_refl s : persistenceIdentityCompatible s s = true.
Proof. unfold persistenceIdentityCompatible. by rewrite seqb_refl, !orb_true_r. Qed.

Definition reads_back (i : ArchaeologyNativePersistenceIntent) (d : ADB) : Prop :=
  exists r, a_jobs d !! pi_JobID i = Some r /\ classify i r = persistenceReadbackApplied.

(** Invert a successful run of a process that runs alone, and the updates of
    jobs that changed a row. *)
Ltac alone_inv :=
  repeat first
    [ match goal with
      | Ha : alone ?env, H : direct _ ?env _ = (inr _, _) |- _ => apply (direct_inr_inv _ _ _ _ _ Ha) in H
      | H : query _ _ = inr (_, _) |- _ => apply query_inr_inv in H as [H ?]
      | H : aselect _ _ _ = inr _ |- _ => apply aselect_inv in H
      | H : w_db ?x = w_db ?y |- _ => rewrite H in *; clear H
      | H : update_job _ _ _ _ = inr (?n, _), Hn : (?n =? 1) = true |- _ =>
          let x := fresh "row" in let Hx := fresh "Hrow" in let Hc := fresh "Hcond" in let Hd := fresh "Hdb" in
          apply update_job_inv in H as [[-> _]|(x & -> & Hx & Hc & _ & Hd)]; [discriminate Hn|clear Hn]
      | H : set_batch_state _ _ _ _ = inr (_, _) |- _ => apply frames_batches in H
      | H : bump_session _ _ _ _ = inr (_, _) |- _ => apply frames_session in H
      | Ha : alone ?env, H : runTx _ ?env _ = (inr _, _) |- _ =>
          let w := fresh "w" in let Ho := fresh "Hout" in
          apply (runTx_alone _ _ _ _ _ Ha) in H as (w & o & H & Ho)
      | H : TxCommit _ = TxCommit _ /\ _ \/ _ |- _ => destruct H as [[_ H]|[H _]]; [|discriminate H]
      end
    | m_inv1 ].

Lemma bind_reads_back env w w' job a b c :
  alone env -> a <> ""%string -> b <> ""%string -> c <> ""%string ->
  BindArchaeologyNativeIdentity job a b c env w = (inr tt, w') ->
  reads_back (mk_intent job "bind_identity" emptyLaunch false a b c "" None) (w_db w').
Proof.
  intros Ha Hna Hnb Hnc Hrun. unfold BindArchaeologyNativeIdentity in Hrun. alone_inv.
  assert (exists x, a_jobs (w_db w') !! job = Some x /\ jo_thread x = a /\ jo_codex x = b /\ jo_turn x = c)
    as (x & Hx & Ht & Hc & Hu).
  { case_match; alone_inv; [bool_inv; by eauto|]. rewrite Hdb. eexists. simpl. by rewrite lookup_insert_eq. }
  exists x. split; [done|]. unfold classify. simpl. rewrite Ht, Hc, Hu.
  by rewrite !compatible_refl, !exact_refl, andb_false_r.
Qed.

Lemma turn_reads_back op a c (x : job_row) :
  a <> ""%string -> c <> ""%string -> jo_thread x = a -> jo_turn x = c ->
  (op = "activate"%string /\ jo_state x = "active"%string) \/
  (op = "lose_turn"%string /\ jo_state x = "uncertain"%string /\ jo_error x = "codex_process_unavailable"%string) ->
  forall job, classify (mk_intent job op emptyLaunch false a "" c "" None) x = persistenceReadbackApplied.
Proof.
  intros Hna Hnc Ht Hu Hop job. unfold classify. simpl. rewrite Ht, Hu, !compatible_refl, !exact_refl by done.
  destruct Hop as [[-> ->]|(-> & -> & ->)]; done.
Qed.

Lemma activate_reads_back env w w' job a c :
  alone env -> a <> ""%string -> c <> ""%string -> ActivateArchaeologyNativeJob job a c env w = (inr tt, w') ->
  reads_back (mk_intent job "activate" emptyLaunch false a "" c "" None) (w_db w').
Proof.
  intros Ha Hna Hnc Hrun. unfold ActivateArchaeologyNativeJob in Hrun. alone_inv.
  assert (exists x, a_jobs (w_db w') !! job = Some x /\ jo_thread x = a /\ jo_turn x = c /\ jo_state x = "active"%string)
    as (x & Hx & Ht & Hu & Hs).
  { unfold has_turn in *. case_match; alone_inv; bool_inv; [by eauto 10|].
    rewrite Hdb. eexists. simpl. rewrite lookup_insert_eq. done. }
  exists x. split; [done|]. apply turn_reads_back; auto.
Qed.

Lemma lose_reads_back env w w' job a c :
  alone env -> a <> ""%string -> c <> ""%string -> LoseArchaeologyNativeTurn job a c env w = (inr tt, w') ->
  reads_back (mk_intent job "lose_turn" emptyLaunch false a "" c "" None) (w_db w').
Proof.
  intros Ha Hna Hnc Hrun. unfold LoseArchaeologyNativeTurn in Hrun. alone_inv.
  assert (exists x, a_jobs (w_db w') !! job = Some x /\ jo_thread x = a /\ jo_turn x = c /\
            jo_state x = "uncertain"%string /\ jo_error x = "codex_process_unavailable"%string)
    as (x & Hx & Ht & Hu & Hs & He).
  { unfold has_turn in *. case_match; alone_inv; bool_inv; [simpl in *; by eauto 10|]. subst. rewrite Hst0.
    case_match; (apply update_job_inv in Hst2 as [[? _]|(x & _ & Hx & Hc & _ & ->)]; [done|]);
      bool_inv; (eexists; simpl; rewrite lookup_insert_eq; done). }
  exists x. split; [done|]. apply turn_reads_back; auto.
Qed.

Lemma job_of_turn_spec job a c d r b :
  job_of_turn job a c d = inr (r, b) -> a_jobs d !! job = Some r /\ jo_thread r = a /\ jo_turn r = c.
Proof. unfold job_of_turn, has_turn. repeat case_match; intros; simplify_eq; by bool_inv. Qed.

Definition wanted (status : string) (report : option string) : string :=
  if seqb status "completed" && negb (bool_decide (is_Some report)) then "attention" else status.

Lemma completion_wanted status report :
  isin status ["completed"; "interrupted"; "failed"] = true -> (completion status report).1 = wanted status report.
Proof.
  intros Hs%isin_inv. rewrite !elem_of_cons, elem_of_nil in Hs. unfold completion, wanted.
  destruct Hs as [->|[->|[->|[]]]]; simpl; repeat case_match; done.
Qed.

Lemma complete_classify job a c s x (r : job_row) :
  a <> ""%string -> c <> ""%string -> isin s ["completed"; "interrupted"; "failed"] = true ->
  jo_thread r = a -> jo_turn r = c -> jo_state r = wanted s (jo_report r) -> jo_duration r = x ->
  classify (mk_intent job "complete_turn" emptyLaunch false a "" c s x) r = persistenceReadbackApplied.
Proof.
  intros Hna Hnc Hs%isin_inv Ht Hu Hst Hx. unfold classify. simpl. rewrite Ht, Hu, !compatible_refl. simpl.
  assert (seqb (jo_state r) "uncertain" = false) as ->.
  { rewrite Hst. rewrite !elem_of_cons, elem_of_nil in Hs. unfold wanted. destruct Hs as [->|[->|[->|[]]]]; by repeat case_match. }
  fold (wanted s (jo_report r)). rewrite Hst, seqb_refl. by rewrite bool_decide_eq_true_2.
Qed.

Lemma complete_reads_back env w w' job a c s x :
  alone env -> a <> ""%string -> c <> ""%string -> isin s ["completed"; "interrupted"; "failed"] = true ->
  CompleteArchaeologyNativeTurn {| tm_JobID := job; tm_ThreadID := a; tm_TurnID := c; tm_Status := s; tm_DurationMS := x |}
    env w = (inr tt, w') ->
  reads_back (mk_intent job "complete_turn" emptyLaunch false a "" c s x) (w_db w').
Proof.
  intros Ha Hna Hnc Hs Hrun. unfold CompleteArchaeologyNativeTurn in Hrun. alone_inv.
  match goal with H : job_of_turn _ _ _ _ = inr ?p |- _ => destruct p as [row b]; apply job_of_turn_spec in H as (Hr & Ht & Hu) end.
  simpl in *. destruct (isin (jo_state row) terminal_states).
  - alone_inv. simpl in *. bool_inv. exists row. split; [done|]. by apply complete_classify.
  - unfold completeWrites in *. pose proof (completion_wanted s (jo_report row) Hs) as Hw.
    simpl in *. destruct (completion s (jo_report row)) as [next code]. alone_inv.
    assert (a_jobs (w_db w') = a_jobs (w_db w0)) as Hjobs.
    { match goal with H : context [let '(_, _) := ?t in _] |- _ => destruct t as [[? ?] ?] end. alone_inv.
      match goal with H : (if ?t then _ else _) _ _ = _ |- _ => destruct t end; alone_inv; congruence. }
    simplify_eq/=. rewrite Hdb in Hjobs. eexists. simpl. rewrite Hjobs. simpl. rewrite lookup_insert_eq.
    split; [reflexivity|]. by apply complete_classify.
Qed.

Definition wants_uncertain (l : ArchaeologyLaunchResult) (u : bool) : bool :=
  u || negb (seqb (la_ThreadID l) "") || negb (seqb (la_CodexSessionID l) "") || negb (seqb (la_TurnID l) "").

(** The row carries every identity the launch offered. *)
Definition covers (r : job_row) (l : ArchaeologyLaunchResult) : Prop :=
  (la_ThreadID l = ""%string \/ jo_thread r = la_ThreadID l) /\
  (la_CodexSessionID l = ""%string \/ jo_codex r = la_CodexSessionID l) /\
  (la_TurnID l = ""%string \/ jo_turn r = la_TurnID l).

Lemma covered_holds current offered :
  offered = ""%string \/ current = offered ->
  persistenceIdentityCompatible current offered && (seqb offered "" || persistenceIdentityExact current offered) = true.
Proof.
  destruct (decide (offered = ""%string)) as [->|Hne].
  - intros _. unfold persistenceIdentityCompatible. by rewrite seqb_refl, orb_true_r.
  - intros [?| ->]; [done|]. by rewrite compatible_refl, exact_refl, orb_true_r.
Qed.

Lemma fail_classify job l u r :
  (wants_uncertain l u = true /\ jo_state r = "uncertain"%string /\ covers r l) \/
  (wants_uncertain l u = false /\ jo_state r = "failed"%string /\ jo_error r = "codex_start_failed"%string) ->
  classify (mk_intent job "fail_start" l u "" "" "" "" None) r = persistenceReadbackApplied.
Proof.
  intros Hr. unfold classify. simpl. fold (wants_uncertain l u).
  assert (forall s, persistenceIdentityCompatible s "" = true) as Hc.
  { intros s. unfold persistenceIdentityCompatible. by rewrite seqb_refl, orb_true_r. }
  rewrite !Hc. simpl. destruct Hr as [(-> & -> & H1 & H2 & H3)|(-> & -> & ->)]; [|done]. simpl.
  by rewrite !covered_holds.
Qed.

Lemma fill_covers current offered :
  clash current offered = false -> offered = ""%string \/ fill current offered = offered.
Proof.
  unfold clash, fill. destruct (decide (offered = ""%string)); [by left|]. right.
  destruct (seqb current "") eqn:E; [done|]. simpl in *. destruct (seqb offered "") eqn:E2; bool_inv; [done|].
  simpl in *. destruct (seqb current offered) eqn:E3; [by bool_inv|done].
Qed.

Lemma kept_covers current offered :
  clash current offered = false -> missing current offered = false -> offered = ""%string \/ current = offered.
Proof.
  intros Hc Hm. destruct (fill_covers _ _ Hc) as [?|Hf]; [by left|]. unfold fill, missing in *.
  destruct (seqb current "") eqn:E; [|by right]. left. rewrite andb_true_r in Hm. by bool_inv.
Qed.

Lemma fail_reads_back env w w' job l u :
  alone env -> FailArchaeologyNativeStart job l u env w = (inr tt, w') ->
  reads_back (mk_intent job "fail_start" l u "" "" "" "" None) (w_db w').
Proof.
  intros Ha Hrun. unfold FailArchaeologyNativeStart in Hrun. fold (wants_uncertain l u) in Hrun. cbv zeta in Hrun. alone_inv.
  match goal with H : a_jobs _ !! job = Some ?x |- _ => rename x into row; rename H into Hr end. simpl in *. bool_inv.
  set (needs := missing (jo_thread row) _ || _ || _) in *.
  destruct (seqb (jo_state row) "uncertain" && negb (wants_uncertain l u)) eqn:E1; [by alone_inv|].
  destruct (seqb (jo_state row) "uncertain" && negb needs) eqn:E2.
  - alone_inv. exists row. split; [done|]. apply fail_classify. left. unfold needs in *. bool_inv.
    destruct (wants_uncertain l u); [|by rewrite andb_true_r in E1; bool_inv].
    split_and!; [done..|]. split_and!; by apply kept_covers.
  - destruct (seqb (jo_state row) "failed" && negb (wants_uncertain l u) && _) eqn:E3.
    { alone_inv. bool_inv. exists row. split; [done|]. apply fail_classify. by right. }
    unfold failStartWrites in *. cbv zeta in *. alone_inv.
    assert (a_jobs (w_db w') = a_jobs (w_db w4)) as Hjobs.
    { match goal with H : context [let '(_, _) := ?t in _] |- _ => destruct t as [[? ?] ?] end. alone_inv.
      match goal with H : (if ?t then mapped _ else _) _ _ = _ |- _ => destruct t end; alone_inv; congruence. }
    unfold update_job in Hst0. rewrite Hr in Hst0. destruct (identity_free _ _ _); [|done]. injection Hst0 as _ Hdb.
    rewrite <- Hdb in Hjobs. eexists. simpl. rewrite Hjobs. simpl. rewrite lookup_insert_eq. split; [reflexivity|].
    apply fail_classify. simpl. destruct (wants_uncertain l u).
    + left. split_and!; [done..|]. split_and!; by apply fill_covers.
    + right. rewrite andb_true_r in E1. by rewrite E1.
Qed.

(** A callback that was applied reads back as applied, for every operation
    of the ledger: a worker that crashed before the acknowledgement settles the
    intent on its next attempt instead of losing or repeating the write. *)
Theorem applied_reads_back env w w' i p :
  alone env -> intent_payload i = Some p -> applyArchaeologyPersistenceMutation i env w = (inr tt, w') ->
  exists r, a_jobs (w_db w') !! pi_JobID i = Some r /\ classify i r = persistenceReadbackApplied.
Proof.
  intros Ha Hp Hrun. destruct (intent_payload_accepted _ _ Hp) as [Hacc _].
  destruct Hacc as [job l u|job a b c|job op a c [-> | ->]|job a c s x];
    [eapply fail_reads_back|eapply bind_reads_back|eapply activate_reads_back|eapply lose_reads_back
    |eapply complete_reads_back]; try exact Hrun; done.
Qed.

(** ** Concrete runs *)

#[local] Existing Instance ArchDemo.externals.

Lemma claim_takes_next_witness : exists c w',
  ClaimArchaeologyNativeJob ArchDemo.calm (mkWorld (ArchDemo.run [ArchDemo.queue]) 0) = (inr c, w') /\
  cj_ID c = ArchDemo.job /\
  exists r, a_jobs (ArchDemo.run [ArchDemo.queue]) !! ArchDemo.job = Some r /\
    a_jobs (w_db w') = <[ArchDemo.job := job_started (cj_StartedAt c) r]> (a_jobs (ArchDemo.run [ArchDemo.queue])).
Proof.
  assert (cj_ID <$> result (ClaimArchaeologyNativeJob ArchDemo.calm (mkWorld (ArchDemo.run [ArchDemo.queue]) 0))
          = Some ArchDemo.job) as Hs by (vm_compute; reflexivity).
  destruct (ClaimArchaeologyNativeJob ArchDemo.calm (mkWorld (ArchDemo.run [ArchDemo.queue]) 0)) as [[e|c] w'] eqn:E;
    [discriminate Hs|]. injection Hs as Hs. exists c, w'. split; [reflexivity|]. split; [exact Hs|].
  destruct (claim_takes_next _ _ _ _ E) as (_ & _ & r & b & Hr & _ & _ & _ & _ & _ & _ & Hd).
  rewrite Hs in Hr, Hd. exists r. split; [exact Hr|exact Hd].
Defined.

Lemma applied_reads_back_witness : exists w' r,
  applyArchaeologyPersistenceMutation ArchDemo.lost ArchDemo.calm (mkWorld (ArchDemo.run ArchDemo.start) 0) = (inr tt, w') /\
  a_jobs (w_db w') !! ArchDemo.job = Some r /\ classify ArchDemo.lost r = persistenceReadbackApplied.
Proof.
  assert (result (applyArchaeologyPersistenceMutation ArchDemo.lost ArchDemo.calm (mkWorld (ArchDemo.run ArchDemo.start) 0))
          = Some tt) as Hs by (vm_compute; reflexivity).
  destruct (applyArchaeologyPersistenceMutation ArchDemo.lost ArchDemo.calm (mkWorld (ArchDemo.run ArchDemo.start) 0))
    as [[e|[]] w'] eqn:E; [discriminate Hs|].
  destruct (applied_reads_back ArchDemo.calm _ w' ArchDemo.lost _ (fun n d => eq_refl) eq_refl E) as (r & Hr & Hc).
  exists w', r. split; [reflexivity|]. split; [exact Hr|exact Hc].
Defined.

(** A job canceled while it starts is latched as uncertain and its batch waits
    for the cancellation. *)
Definition canceled_start : list ArchOp :=
  [ArchDemo.queue; OpClaimJob; OpCancel "p" "r2" 1; OpBindIdentity ArchDemo.job "th" "co" "tu";
   OpResolve {| rs_Principal := "p"; rs_RequestID := "r3"; rs_JobID := ArchDemo.job; rs_ThreadID := "th"; rs_TurnID := "tu";
                rs_Resolution := "confirmed_stopped"; rs_BaseRevision := 2 |}].

(** When the human resolves such a job, the session returns to draft and
    the job is interrupted, but the batch stays in [cancel_requested], because
    the resolution only closes batches in [attention]. *)
Theorem resolved_cancel_strands_batch :
  let d := ArchDemo.run canceled_start in
  se_state <$> (a_sessions d !! "S"%string) = Some "draft"%string /\
  jo_state <$> (a_jobs d !! ArchDemo.job) = Some "interrupted"%string /\
  jo_state <$> (a_jobs d !! ArchDemo.job2) = Some "interrupted"%string /\
  ba_state <$> (a_batches d !! ArchDemo.batch) = Some "cancel_requested"%string.
Proof. vm_compute. repeat split. Qed.

Lemma queue_order_missorts_witness :
  let t := 1767225600 * 1000000000 in
  exists j b0 b1, ba_created b0 = t /\ ba_created b1 = t + 500000000 /\ job_order ("j1", (j, b1)) ("j0", (j, b0)).
Proof.
  pose (b at_ := {| ba_session := "s"; ba_request := "r"; ba_digest := "d"; ba_state := "queued"; ba_max := 1;
    ba_policy := {| Depth := "standard"; Sources := {| Git := true; Docs := true; CodexHistory := false |} |};
    ba_attested := true; ba_ack := None; ba_ack_by := ""; ba_created := at_; ba_updated := at_ |}).
  pose (j := {| jo_batch := "b"; jo_session := "s"; jo_candidate := "c"; jo_project := "p"; jo_name := "n"; jo_state := "queued";
    jo_thread := ""; jo_codex := ""; jo_turn := ""; jo_phase := ""; jo_sources := 0; jo_duration := None; jo_report := None;
    jo_error := ""; jo_created := 0; jo_started := None; jo_reported := None; jo_terminal := None; jo_updated := 0 |}).
  intros t. exists j, (b t), (b (t + 500000000)). split_and!; [reflexivity..|].
  by apply (queue_order_missorts "j0" "j1" j j (b t) (b (t + 500000000))).
Defined.
