(* ===== verification/HumanStore.v ===== *)
(** * Human accounts and browser sessions: the store

    [internal/store/human_auth.go] and [human_sessions.go], over the tables
    of [migrations/009_codex_human_auth.sql] and [015_continuous_dogfood.sql].
    One installation has at most one account binding, whose public profile
    changes revision by revision, an append-only list of security outcomes,
    and the browser sessions.

    The state also carries what the HTTP process keeps in memory
    ([internal/httpapi/auth.go]), because logins and revocations go through
    both.  Stamps are stored and compared as texts. *)

From Stdlib Require Import ZArith Lia Ascii.
From stdpp Require Import base gmap strings list sets sorting.
From S2P Require Import Prelude GoText Stamp Framing CoreDB OpsFs ArchDB ArchPolicy.

Local Open Scope Z_scope.
Local Open Scope prog_scope.

(** ** Tables and process memory *)

Record binding_row := {
  hb_provider : string; hb_subject : string; hb_name : string; hb_handle : string; hb_revision : Z;
  hb_created : string; hb_updated : string }.

Record auth_event_row := {
  he_principal : string; he_type : string; he_revision : Z; he_key : string; he_digest : string; he_recorded : string }.

(** keyed by the digest of the cookie's token *)
Record browser_row := {
  bs_csrf : string; bs_principal : string; bs_method : string; bs_revision : Z;
  bs_created : string; bs_expires : string; bs_revoked : option string }.

Record humanSession := {
  hs_csrf : string; hs_createdAt : Z; hs_expiresAt : Z; hs_authMethod : string; hs_bindingRevision : Z }.

(** The fields of [humanAuth] that change; the others are its configuration. *)
Record authMem := {
  am_displayName : string; am_handle : string; am_sessions : gmap string humanSession; am_failures : list Z }.

Record HDB := mkHDB {
  h_bindings : gmap string binding_row;
  h_events : gmap string auth_event_row;
  h_browser : gmap string browser_row;
  h_pending : option bool;  (** [codex_session_revocation_pending] of the row of [installation_status] *)
  h_mem : authMem;
  h_failed : bool           (** [handler.codexRevocationFailed] *)
}.

Definition set_bindings x d := mkHDB x (h_events d) (h_browser d) (h_pending d) (h_mem d) (h_failed d).
Definition set_events x d := mkHDB (h_bindings d) x (h_browser d) (h_pending d) (h_mem d) (h_failed d).
Definition set_browser x d := mkHDB (h_bindings d) (h_events d) x (h_pending d) (h_mem d) (h_failed d).
Definition set_pending x d := mkHDB (h_bindings d) (h_events d) (h_browser d) x (h_mem d) (h_failed d).
Definition set_mem x d := mkHDB (h_bindings d) (h_events d) (h_browser d) (h_pending d) x (h_failed d).
Definition set_failed x d := mkHDB (h_bindings d) (h_events d) (h_browser d) (h_pending d) (h_mem d) x.

Definition HumanLocalPrincipal : string := "human:local-admin".

Record HumanAccountBinding := {
  ab_Principal : string; ab_Provider : string; ab_ProviderSubjectDigest : string; ab_DisplayName : string;
  ab_Handle : string; ab_Revision : Z; ab_CreatedAt : Z; ab_UpdatedAt : Z }.
Record BindHumanAccountRequest := { bq_ProviderSubjectDigest : string; bq_DisplayName : string; bq_Handle : string }.
Record UpdateHumanProfileRequest := {
  uq_Principal : string; uq_DisplayName : string; uq_Handle : string; uq_BaseRevision : Z; uq_IdempotencyKey : string }.
Record HumanAuthEventRequest := {
  eq_Principal : string; eq_EventType : string; eq_BindingRevision : Z; eq_IdempotencyKey : string }.
Record HumanBrowserSession := {
  bv_TokenDigest : string; bv_CSRFDigest : string; bv_Principal : string; bv_AuthMethod : string;
  bv_BindingRevision : Z; bv_CreatedAt : Z; bv_ExpiresAt : Z }.

(** ** Statements *)

Definition hcheck (ok : bool) (d : HDB) : SqlErr + unit * HDB := if ok then inr (tt, d) else inl SqlConstraint.

Definition hselect {A} (tbl : HDB -> gmap string A) (k : string) : HDB -> SqlErr + A := fun d =>
  match tbl d !! k with Some r => inr r | None => inl SqlNoRows end.

Definition insert_binding (principal : string) (r : binding_row) : Stmt HDB unit := fun d =>
  hcheck (absent (h_bindings d) principal && seqb principal HumanLocalPrincipal && seqb (hb_provider r) "chatgpt"
          && (len (hb_subject r) =? 32) && (1 <=? hb_revision r)
          && bool_decide (map_Forall (fun _ x => ToLower (bytes_of (hb_handle x)) <> ToLower (bytes_of (hb_handle r))) (h_bindings d)))
    (set_bindings (<[principal:=r]> (h_bindings d)) d).

(** [human_auth_events_request_key]: unique where the key is not empty *)
Definition event_key_free (d : HDB) (r : auth_event_row) : bool :=
  seqb (he_key r) "" ||
  bool_decide (map_Forall (fun _ x => ~ (he_principal x = he_principal r /\ he_type x = he_type r /\ he_key x = he_key r))
                 (h_events d)).

Definition insert_auth_event (id : string) (r : auth_event_row) : Stmt HDB unit := fun d =>
  hcheck (absent (h_events d) id && seqb (he_principal r) HumanLocalPrincipal
          && isin (he_type r) ["account_bound"; "profile_updated"; "recovery_login"] && (0 <=? he_revision r)
          && ((len (he_digest r) =? 0) || (len (he_digest r) =? 32)) && event_key_free d r)
    (set_events (<[id:=r]> (h_events d)) d).

(** The events of one type under one key; the unique index leaves at most one. *)
Definition events_by_key (principal type key : string) (d : HDB) : list auth_event_row :=
  filter (fun r => he_principal r = principal /\ he_type r = type /\ he_key r = key) (map_to_list (h_events d)).*2.

Definition event_by_key (principal type key : string) : HDB -> SqlErr + auth_event_row := fun d =>
  match events_by_key principal type key d with r :: _ => inr r | [] => inl SqlNoRows end.

Definition count_events (principal type key : string) : HDB -> SqlErr + Z := fun d =>
  inr (Z.of_nat (length (events_by_key principal type key d))).

(** [UPDATE human_account_bindings SET ... WHERE principal=? AND revision=?] *)
Definition profile_changed (name handle at_ : string) (r : binding_row) : binding_row :=
  {| hb_provider := hb_provider r; hb_subject := hb_subject r; hb_name := name; hb_handle := handle;
     hb_revision := hb_revision r + 1; hb_created := hb_created r; hb_updated := at_ |}.

Definition update_binding (principal : string) (base : Z) (f : binding_row -> binding_row) : Stmt HDB Z := fun d =>
  match h_bindings d !! principal with
  | Some r =>
      if hb_revision r =? base then
        if bool_decide (map_Forall (fun k x => k <> principal ->
             ToLower (bytes_of (hb_handle x)) <> ToLower (bytes_of (hb_handle (f r)))) (h_bindings d))
           && (hb_revision (f r) <=? maxInt64)
        then inr (1, set_bindings (<[principal:=f r]> (h_bindings d)) d) else inl SqlConstraint
      else inr (0, d)
  | None => inr (0, d)
  end.

(** ** The account binding *)

(** [^[a-z0-9](?:[a-z0-9-]{1,62}[a-z0-9])?$] *)
Definition humanHandlePattern (s : string) : bool :=
  match bytes_of s with
  | [] => false
  | a :: rest =>
      slug_first a &&
      match reverse rest with
      | [] => true
      | z :: middle => slug_first z && forallb slug_rest middle && bool_decide (1 <= length middle <= 62)%nat
      end
  end.

Definition validHumanProfile (displayName handle : string) : bool :=
  (1 <=? len displayName) && (len displayName <=? 200) && seqb displayName (TrimSpace displayName)
  && (3 <=? len handle) && (len handle <=? 64) && bool_decide (bytes_of handle = ToLower (bytes_of handle))
  && humanHandlePattern handle.

(** What [humanProfileRequestDigest] hashes. *)
Definition profile_preimage (r : UpdateHumanProfileRequest) : string :=
  framed (uq_Principal r) +:+ PutUint 8 (uq_BaseRevision r) +:+ framed (uq_DisplayName r) +:+ framed (uq_Handle r).

Section HumanAccounts.
Context `{Sha256}.

Definition humanProfileRequestDigest (r : UpdateHumanProfileRequest) : string := sha256_Sum256 (profile_preimage r).

(** [scanHumanBinding] on a row or on the error of reading it *)
Definition scanHumanBinding (row : SqlErr + binding_row) : Err + HumanAccountBinding :=
  match row with
  | inl e => inl (mapErr (ErrSql e))
  | inr r =>
      if len (hb_subject r) =? 32 then
        inr {| ab_Principal := HumanLocalPrincipal; ab_Provider := hb_provider r; ab_ProviderSubjectDigest := hb_subject r;
               ab_DisplayName := hb_name r; ab_Handle := hb_handle r; ab_Revision := hb_revision r;
               ab_CreatedAt := parseStamp (hb_created r); ab_UpdatedAt := parseStamp (hb_updated r) |}
      else inl (ErrOther "stored human account digest has invalid length")
  end.

Definition lift {E A} (r : E + A) : M HDB E A := match r with inl e => throw e | inr a => ret a end.

Definition getHumanBindingTx : M HDB TxFail (Err + HumanAccountBinding) :=
  row <-- attempt (exec (query (hselect h_bindings HumanLocalPrincipal))) ;;
  ret (scanHumanBinding row).

Definition GetHumanAccountBinding : M HDB Err HumanAccountBinding :=
  row <-- attempt (autocommit (query (hselect h_bindings HumanLocalPrincipal))) ;;
  lift (scanHumanBinding row).

Definition bindTx (request : BindHumanAccountRequest) : M HDB TxFail (TxOut (option HumanAccountBinding)) :=
  lookup <-- getHumanBindingTx ;;
  match lookup with
  | inr current =>
      if seqb (ab_ProviderSubjectDigest current) (bq_ProviderSubjectDigest request) then ret (TxRollback (Some current))
      else throw (FBody ErrConflict)
  | inl ErrNotFound =>
      t <-- now ;;
      mapped (exec (insert_binding HumanLocalPrincipal
        {| hb_provider := "chatgpt"; hb_subject := bq_ProviderSubjectDigest request; hb_name := bq_DisplayName request;
           hb_handle := bq_Handle request; hb_revision := 1; hb_created := stamp t; hb_updated := stamp t |})) ;;;
      id <-- newID "HAE-" ;;
      mapped (exec (insert_auth_event id
        {| he_principal := HumanLocalPrincipal; he_type := "account_bound"; he_revision := 1; he_key := ""; he_digest := "";
           he_recorded := stamp t |})) ;;;
      ret (TxCommit None)
  | inl e => throw (FBody e)
  end.

(** [s != nil && s.db != nil] holds of any store that was opened. *)
Definition BindHumanAccount (request : BindHumanAccountRequest) : M HDB Err HumanAccountBinding :=
  require ((len (bq_ProviderSubjectDigest request) =? 32) && validHumanProfile (bq_DisplayName request) (bq_Handle request)) ErrInvalid ;;;
  out <-- mapE mapErr (runTx (bindTx request)) ;;
  match out with Some current => ret current | None => GetHumanAccountBinding end.

Definition valid_key (key : string) : bool :=
  negb (seqb key "") && (len key <=? 200) && seqb (TrimSpace key) key.

Definition profile_update (request : UpdateHumanProfileRequest) (current : HumanAccountBinding)
    : M HDB TxFail (TxOut (option HumanAccountBinding)) :=
  require (ab_Revision current =? uq_BaseRevision request) (FBody ErrConflict) ;;;
  t <-- now ;;
  affected <-- mapped (exec (update_binding HumanLocalPrincipal (uq_BaseRevision request)
    (profile_changed (uq_DisplayName request) (uq_Handle request) (stamp t)))) ;;
  require (affected =? 1) (FBody ErrConflict) ;;;
  id <-- newID "HAE-" ;;
  mapped (exec (insert_auth_event id
    {| he_principal := HumanLocalPrincipal; he_type := "profile_updated"; he_revision := uq_BaseRevision request + 1;
       he_key := uq_IdempotencyKey request; he_digest := humanProfileRequestDigest request; he_recorded := stamp t |})) ;;;
  ret (TxCommit None).

Definition profileTx (request : UpdateHumanProfileRequest) : M HDB TxFail (TxOut (option HumanAccountBinding)) :=
  prior <-- attempt (exec (query (event_by_key HumanLocalPrincipal "profile_updated" (uq_IdempotencyKey request)))) ;;
  match prior with
  | inr event =>
      require ((len (he_digest event) =? 32) && seqb (he_digest event) (humanProfileRequestDigest request)) (FBody ErrConflict) ;;;
      binding <-- getHumanBindingTx ;;
      match binding with inr b => ret (TxRollback (Some b)) | inl e => throw (FBody e) end
  | inl SqlNoRows =>
      current <-- getHumanBindingTx ;;
      match current with inl e => throw (FBody e) | inr current => profile_update request current end
  | inl e => throw (FBody (mapErr (ErrSql e)))
  end.

Definition UpdateHumanProfile (request : UpdateHumanProfileRequest) : M HDB Err HumanAccountBinding :=
  require (seqb (uq_Principal request) HumanLocalPrincipal && (1 <=? uq_BaseRevision request)
           && validHumanProfile (uq_DisplayName request) (uq_Handle request) && valid_key (uq_IdempotencyKey request)) ErrInvalid ;;;
  out <-- mapE mapErr (runTx (profileTx request)) ;;
  match out with Some b => ret b | None => GetHumanAccountBinding end.

Definition RecordHumanAuthEvent (request : HumanAuthEventRequest) : M HDB Err unit :=
  require (seqb (eq_Principal request) HumanLocalPrincipal && seqb (eq_EventType request) "recovery_login"
           && (0 <=? eq_BindingRevision request) && valid_key (eq_IdempotencyKey request)) ErrInvalid ;;;
  exists_ <-- direct (query (count_events (eq_Principal request) (eq_EventType request) (eq_IdempotencyKey request))) ;;
  if negb (exists_ =? 0) then ret tt
  else
    id <-- newID "HAE-" ;;
    t <-- now ;;
    direct (insert_auth_event id
      {| he_principal := eq_Principal request; he_type := eq_EventType request; he_revision := eq_BindingRevision request;
         he_key := eq_IdempotencyKey request; he_digest := ""; he_recorded := stamp t |}).
End HumanAccounts.

(** ** Browser sessions *)

(** [ORDER BY created_at DESC,hex(token_digest) DESC] *)
Definition newer_first (a b : string * browser_row) : Prop :=
  if seqb (bs_created a.2) (bs_created b.2) then sle (hex_EncodeToString b.1) (hex_EncodeToString a.1)
  else sle (bs_created b.2) (bs_created a.2).

#[export] Instance newer_first_dec : RelDecision newer_first.
Proof. intros a b. unfold newer_first. destruct (seqb _ _); apply _. Defined.

Definition sessions_of (principal : string) (d : HDB) : list (string * browser_row) :=
  filter (fun e => bs_principal e.2 = principal) (map_to_list (h_browser d)).

(** [LIMIT -1 OFFSET 8] *)
Definition overflowing (principal : string) (d : HDB) : list string :=
  (drop 8 (merge_sort newer_first (sessions_of principal d))).*1.

Definition delete_stale (at_ : string) : Stmt HDB unit := fun d =>
  inr (tt, set_browser (filter (fun e => bs_revoked e.2 = None /\ ~ sle (bs_expires e.2) at_) (h_browser d)) d).

Definition insert_browser (digest : string) (r : browser_row) : Stmt HDB unit := fun d =>
  hcheck (absent (h_browser d) digest) (set_browser (<[digest:=r]> (h_browser d)) d).

Definition delete_overflowing (principal : string) : Stmt HDB unit := fun d =>
  inr (tt, set_browser (filter (fun e => e.1 ∉ overflowing principal d) (h_browser d)) d).

(** [UPDATE human_browser_sessions SET ... WHERE ... AND revoked_at IS NULL], with the rows affected *)
Definition update_browser (cond : string -> browser_row -> bool) (f : browser_row -> browser_row) : Stmt HDB Z := fun d =>
  inr (Z.of_nat (length (filter (fun e => cond e.1 e.2 && bool_decide (bs_revoked e.2 = None)) (map_to_list (h_browser d)))),
       set_browser (map_imap (fun k r => Some (if cond k r && bool_decide (bs_revoked r = None) then f r else r)) (h_browser d)) d).

Definition revoked_at (at_ : string) (r : browser_row) : browser_row :=
  {| bs_csrf := bs_csrf r; bs_principal := bs_principal r; bs_method := bs_method r; bs_revision := bs_revision r;
     bs_created := bs_created r; bs_expires := bs_expires r; bs_revoked := Some at_ |}.
Definition with_csrf (csrf : string) (r : browser_row) : browser_row :=
  {| bs_csrf := csrf; bs_principal := bs_principal r; bs_method := bs_method r; bs_revision := bs_revision r;
     bs_created := bs_created r; bs_expires := bs_expires r; bs_revoked := bs_revoked r |}.
Definition with_revision (revision : Z) (r : browser_row) : browser_row :=
  {| bs_csrf := bs_csrf r; bs_principal := bs_principal r; bs_method := bs_method r; bs_revision := revision;
     bs_created := bs_created r; bs_expires := bs_expires r; bs_revoked := bs_revoked r |}.

(** A statement whose driver error is returned as it is. *)
Definition raw {A} (st : Stmt HDB A) : M HDB Err A := mapE ErrSql (autocommit st).

Definition SaveHumanBrowserSession (v : HumanBrowserSession) : M HDB Err unit :=
  require ((len (bv_TokenDigest v) =? 32) && (len (bv_CSRFDigest v) =? 32) && negb (seqb (bv_Principal v) "")
           && isin (bv_AuthMethod v) ["codex"; "recovery"] && (0 <=? bv_BindingRevision v)
           && (bv_CreatedAt v <? bv_ExpiresAt v)) ErrInvalid ;;;
  runTx (
    plain (exec (delete_stale (stamp (bv_CreatedAt v)))) ;;;
    mapped (exec (insert_browser (bv_TokenDigest v)
      {| bs_csrf := bv_CSRFDigest v; bs_principal := bv_Principal v; bs_method := bv_AuthMethod v;
         bs_revision := bv_BindingRevision v; bs_created := stamp (bv_CreatedAt v); bs_expires := stamp (bv_ExpiresAt v);
         bs_revoked := None |})) ;;;
    plain (exec (delete_overflowing (bv_Principal v))) ;;;
    ret (TxCommit tt)).

(** The row of a live session: not revoked, and with the larger expiry text. *)
Definition live_session (digest at_ : string) : HDB -> SqlErr + browser_row := fun d =>
  match h_browser d !! digest with
  | Some r => if bool_decide (bs_revoked r = None) && negb (bool_decide (sle (bs_expires r) at_)) then inr r else inl SqlNoRows
  | None => inl SqlNoRows
  end.

(** The session [HumanBrowserSession] returns for such a row. *)
Definition read_session (digest : string) (row : SqlErr + browser_row) : Err + HumanBrowserSession :=
  match row with
  | inl SqlNoRows => inl ErrNotFound
  | inl e => inl (ErrSql e)
  | inr r =>
      if IsZero (parseStamp (bs_created r)) || IsZero (parseStamp (bs_expires r)) then inl ErrConflict
      else inr {| bv_TokenDigest := digest; bv_CSRFDigest := bs_csrf r; bv_Principal := bs_principal r;
                  bv_AuthMethod := bs_method r; bv_BindingRevision := bs_revision r;
                  bv_CreatedAt := parseStamp (bs_created r); bv_ExpiresAt := parseStamp (bs_expires r) |}
  end.

Definition RevokeHumanBrowserSession (digest : string) (t : Z) : M HDB Err unit :=
  raw (update_browser (fun k _ => seqb k digest) (revoked_at (stamp t))) ;;; ret tt.

Definition RevokeHumanBrowserSessionsByMethod (method : string) (t : Z) : M HDB Err unit :=
  raw (update_browser (fun _ r => seqb (bs_method r) method) (revoked_at (stamp t))) ;;; ret tt.

Definition UpdateHumanBrowserSessionCSRF (digest csrf : string) : M HDB Err unit :=
  n <-- raw (update_browser (fun k _ => seqb k digest) (with_csrf csrf)) ;;
  require (n =? 1) ErrNotFound.

Definition UpdateHumanBrowserSessionRevisions (principal : string) (revision : Z) : M HDB Err unit :=
  require (negb (seqb principal "") && (0 <=? revision)) ErrInvalid ;;;
  raw (update_browser (fun _ r => seqb (bs_principal r) principal) (with_revision revision)) ;;; ret tt.

Definition SetCodexSessionRevocationPending (pending : bool) : M HDB Err unit :=
  n <-- raw (fun d => match h_pending d with Some _ => inr (1, set_pending (Some pending) d) | None => inr (0, d) end) ;;
  require (n =? 1) ErrNotFound.

Definition CodexSessionRevocationPending : M HDB Err bool :=
  raw (query (fun d => match h_pending d with Some b => inr b | None => inl SqlNoRows end)).
