(* ===== verification/HumanProfile.v ===== *)
(** * The account binding over time

    Theorems about [HumanStore]: what any run of the store's operations, in
    any interleaving with other processes that run them, with faults and
    ambiguous commits, keeps of the account binding and its history; and what
    a profile update promises its caller. *)

From Stdlib Require Import ZArith Lia.
From stdpp Require Import base gmap strings list sets relations pretty.
From S2P Require Import Prelude GoText Stamp Framing CoreDB OpsFs ArchDB ArchPolicy HumanStore.

Local Open Scope Z_scope.
Local Open Scope prog_scope.

(** ** What is recorded *)

(** The current profile revision; 0 before an account is bound. *)
Definition profile_revision (d : HDB) : Z :=
  match h_bindings d !! HumanLocalPrincipal with Some r => hb_revision r | None => 0 end.

Definition is_change (e : auth_event_row) : Prop := he_type e <> "recovery_login"%string.

(** Event [id] records the change that made revision [k]. *)
Definition records (d : HDB) (k : Z) (id : string) : Prop :=
  exists e, h_events d !! id = Some e /\ is_change e /\ he_revision e = k.

Definition change_type (k : Z) : string := if k =? 1 then "account_bound" else "profile_updated".

(** The unique index of the event keys. *)
Definition same_key (e e' : auth_event_row) : Prop :=
  he_key e <> ""%string /\ he_principal e = he_principal e' /\ he_type e = he_type e' /\ he_key e = he_key e'.

Record history_inv (d : HDB) : Prop := {
  hi_bindings : forall p r, h_bindings d !! p = Some r -> p = HumanLocalPrincipal /\ 1 <= hb_revision r /\ len (hb_subject r) = 32;
  hi_keys : forall id id' e e', h_events d !! id = Some e -> h_events d !! id' = Some e' -> same_key e e' -> id = id';
  hi_events : forall id e, h_events d !! id = Some e -> is_change e ->
    1 <= he_revision e <= profile_revision d /\ he_type e = change_type (he_revision e);
  hi_complete : forall k, 1 <= k <= profile_revision d -> exists id, records d k id;
  hi_unique : forall k id id', records d k id -> records d k id' -> id = id' }.

(** A later row of the binding: only the profile may have changed. *)
Definition same_account (r r' : binding_row) : Prop :=
  hb_provider r' = hb_provider r /\ hb_subject r' = hb_subject r /\ hb_created r' = hb_created r /\
  hb_revision r <= hb_revision r' /\ (hb_revision r' = hb_revision r -> r' = r).

Record human_step (d d' : HDB) : Prop := {
  hu_events : forall id e, h_events d !! id = Some e -> h_events d' !! id = Some e;
  hu_binding : forall p r, h_bindings d !! p = Some r -> exists r', h_bindings d' !! p = Some r' /\ same_account r r';
  hu_inv : history_inv d -> history_inv d' }.

Lemma same_account_refl r : same_account r r.
Proof. unfold same_account. split_and!; done || lia. Qed.

#[export] Instance human_step_refl : Reflexive human_step.
Proof. intros d. split; [done| |done]. intros p r Hr. exists r. split; [done|apply same_account_refl]. Qed.

Lemma same_account_trans r1 r2 r3 : same_account r1 r2 -> same_account r2 r3 -> same_account r1 r3.
Proof.
  unfold same_account. intros (?&?&?&?&Hr1) (?&?&?&?&Hr2). split_and!; [congruence..|lia|].
  intros Heq. rewrite Hr2 by lia. apply Hr1. lia.
Qed.

#[export] Instance human_step_trans : Transitive human_step.
Proof.
  intros d1 d2 d3 [E1 B1 I1] [E2 B2 I2]. split; [auto| |auto].
  intros p r Hr. destruct (B1 _ _ Hr) as (r2 & H2 & S1). destruct (B2 _ _ H2) as (r3 & H3 & S2).
  exists r3. split; [done|]. by eapply same_account_trans.
Qed.

(** ** Statements and transactions make such steps *)

Lemma human_step_frame d d' : h_bindings d' = h_bindings d -> h_events d' = h_events d -> human_step d d'.
Proof.
  intros Hb He. split; [by rewrite He| |].
  - intros p r Hr. exists r. rewrite Hb. split; [done|]. apply same_account_refl.
  - intros [A B C D E]. split; unfold records, profile_revision in *; rewrite ?Hb, ?He; auto.
Qed.

Lemma hcheck_inv ok d a d' : hcheck ok d = inr (a, d') -> ok = true /\ d' = d.
Proof. unfold hcheck. destruct ok; naive_solver. Qed.

Lemma insert_auth_event_inv id r d a d' :
  insert_auth_event id r d = inr (a, d') ->
  h_events d !! id = None /\ event_key_free d r = true /\ d' = set_events (<[id:=r]> (h_events d)) d.
Proof. intros [Hok ->]%hcheck_inv. rewrite !andb_true_iff in Hok. destruct Hok as [[[[[Ha%absent_inv _] _] _] _] ?]. done. Qed.

Lemma hi_keys_insert d id e :
  (forall i i' x x', h_events d !! i = Some x -> h_events d !! i' = Some x' -> same_key x x' -> i = i') ->
  h_events d !! id = None -> event_key_free d e = true ->
  forall i i' x x', <[id:=e]> (h_events d) !! i = Some x -> <[id:=e]> (h_events d) !! i' = Some x' -> same_key x x' -> i = i'.
Proof.
  intros Hkeys Hid Hfree.
  assert (forall i x, h_events d !! i = Some x -> same_key x e \/ same_key e x -> False) as Hno.
  { intros i x Hx Hs. unfold event_key_free in Hfree. apply orb_true_iff in Hfree as [Hk%seqb_true|Hf%bool_decide_eq_true].
    - unfold same_key in Hs. destruct Hs as [(? & ? & ? & ?)|(? & ? & ? & ?)]; congruence.
    - specialize (Hf _ _ Hx). unfold same_key in Hs. naive_solver. }
  intros i i' x x' Hx Hx' Hs.
  destruct (decide (i = id)) as [->|Hi], (decide (i' = id)) as [->|Hi']; [done|..];
    rewrite ?lookup_insert_eq, ?lookup_insert_ne in Hx by done; rewrite ?lookup_insert_eq, ?lookup_insert_ne in Hx' by done;
    simplify_eq; [exfalso; eauto..|eauto].
Qed.

(** The change that takes the profile to revision [k], with its event. *)
Lemma human_step_change d id e r :
  h_events d !! id = None -> event_key_free d e = true -> (history_inv d -> len (hb_subject r) = 32) -> he_type e = change_type (profile_revision d + 1) -> he_revision e = profile_revision d + 1 ->
  hb_revision r = profile_revision d + 1 ->
  (forall r0, h_bindings d !! HumanLocalPrincipal = Some r0 -> same_account r0 r) ->
  human_step d (set_events (<[id:=e]> (h_events d)) (set_bindings (<[HumanLocalPrincipal:=r]> (h_bindings d)) d)).
Proof.
  intros Hid Hfree Hlen Ht Hk Hr Hsame. set (d' := set_events _ _).
  assert (profile_revision d' = profile_revision d + 1) as Hrev by (unfold profile_revision, d'; simpl; by rewrite lookup_insert_eq).
  assert (is_change e) as He by (unfold is_change; rewrite Ht; unfold change_type; by case_match).
  split; simpl.
  - intros i x Hx. rewrite lookup_insert_ne; [done|]. intros ->. congruence.
  - intros p r0 Hr0. destruct (decide (p = HumanLocalPrincipal)) as [->|Hne].
    + exists r. rewrite lookup_insert_eq. auto.
    + exists r0. rewrite lookup_insert_ne by done. split; [done|]. apply same_account_refl.
  - intros Hinv. specialize (Hlen Hinv). destruct Hinv as [Hbind Hkeys Hev Hall Huniq].
    assert (0 <= profile_revision d) as Hnn.
    { unfold profile_revision. destruct (h_bindings d !! _) as [r0|] eqn:E; [|done]. apply Hbind in E. lia. }
    split.
    + simpl. intros p r0 Hr0. destruct (decide (p = HumanLocalPrincipal)) as [->|Hne].
      * rewrite lookup_insert_eq in Hr0. simplify_eq. split_and!; [done|lia|done].
      * rewrite lookup_insert_ne in Hr0 by done. by apply Hbind in Hr0.
    + by apply hi_keys_insert.
    + simpl. intros i x Hx Hc. rewrite Hrev. destruct (decide (i = id)) as [->|Hne].
      * rewrite lookup_insert_eq in Hx. simplify_eq. rewrite Hk. split; [lia|done].
      * rewrite lookup_insert_ne in Hx by done. destruct (Hev _ _ Hx Hc). split; [lia|done].
    + rewrite Hrev. intros k Hkr. unfold records. simpl. destruct (decide (k = profile_revision d + 1)) as [->|Hne].
      * exists id, e. by rewrite lookup_insert_eq.
      * destruct (Hall k ltac:(lia)) as (i & x & Hx & Hc & Hkx). exists i, x. rewrite lookup_insert_ne; [done|]. intros ->. congruence.
    + unfold records. simpl. intros k i i' (x & Hx & Hc & Hkx) (x' & Hx' & Hc' & Hkx').
      destruct (decide (i = id)) as [->|Hi], (decide (i' = id)) as [->|Hi']; [done|..].
      * rewrite lookup_insert_eq in Hx. rewrite lookup_insert_ne in Hx' by done. destruct (Hev _ _ Hx' Hc'). simplify_eq. lia.
      * rewrite lookup_insert_eq in Hx'. rewrite lookup_insert_ne in Hx by done. destruct (Hev _ _ Hx Hc). simplify_eq. lia.
      * rewrite lookup_insert_ne in Hx, Hx' by done. apply (Huniq k); unfold records; eauto.
Qed.

(** A login event is no change. *)
Lemma human_step_login d id e :
  h_events d !! id = None -> event_key_free d e = true -> he_type e = "recovery_login"%string -> human_step d (set_events (<[id:=e]> (h_events d)) d).
Proof.
  intros Hid Hfree Ht. set (d' := set_events _ _).
  assert (forall k i, records d' k i <-> records d k i) as Hrec.
  { intros k i. unfold records, d', is_change. simpl. destruct (decide (i = id)) as [->|Hne].
    - rewrite lookup_insert_eq, Hid. split; [|naive_solver]. intros (x & [= <-] & Hc & _). congruence.
    - by rewrite lookup_insert_ne by done. }
  split; simpl.
  - intros i x Hx. rewrite lookup_insert_ne; [done|]. intros ->. congruence.
  - intros p r Hr. exists r. split; [done|]. apply same_account_refl.
  - intros [Hbind Hkeys Hev Hall Huniq]. split; [done|by apply hi_keys_insert| | |].
    + simpl. intros i x Hx Hc. destruct (decide (i = id)) as [->|Hne].
      * rewrite lookup_insert_eq in Hx. simplify_eq. unfold is_change in Hc. congruence.
      * rewrite lookup_insert_ne in Hx by done. by apply Hev in Hx.
    + intros k Hk. destruct (Hall k Hk) as [i Hi]. exists i. by apply Hrec.
    + intros k i i' Hi Hi'. apply Hrec in Hi, Hi'. by eapply Huniq.
Qed.

(** ** Operations *)

(** Identify the databases of the calls that write nothing. *)
Ltac same_db := repeat match goal with H0 : w_db ?x = w_db ?y |- _ => rewrite H0 in *; clear H0 end.


Lemma getHumanBindingTx_inv env w r w' :
  getHumanBindingTx env w = (inr r, w') ->
  w_db w' = w_db w /\
  (r = scanHumanBinding (hselect h_bindings HumanLocalPrincipal (w_db w)) \/ exists f, r = scanHumanBinding (inl (SqlFault f))).
Proof. unfold getHumanBindingTx. intros H. m_inv. destruct Hq as [->|[f ->]]; eauto. Qed.

Lemma scan_found d b :
  scanHumanBinding (hselect h_bindings HumanLocalPrincipal d) = inr b ->
  exists r, h_bindings d !! HumanLocalPrincipal = Some r /\ ab_Revision b = hb_revision r /\ ab_ProviderSubjectDigest b = hb_subject r.
Proof. unfold hselect. destruct (h_bindings d !! _) as [r|]; simpl; [case_match|]; intros; simplify_eq; eauto. Qed.

Lemma scan_absent d : scanHumanBinding (hselect h_bindings HumanLocalPrincipal d) = inl ErrNotFound -> h_bindings d !! HumanLocalPrincipal = None.
Proof. unfold hselect. destruct (h_bindings d !! _) as [r|]; simpl; [by case_match|done]. Qed.

Lemma step_bindTx request d : takes human_step d (bindTx request).
Proof.
  intros env w out w1 <- H. unfold bindTx in H. m_inv1. apply getHumanBindingTx_inv in Hrun as [Hd Hr].
  destruct r as [[]|current]; try by m_inv.
  - destruct Hr as [Hr|[f Hf]]; [|by destruct f]. symmetry in Hr. apply scan_absent in Hr. m_inv.
    match goal with H0 : insert_binding _ _ _ = _ |- _ => apply hcheck_inv in H0 as [Hok Hb] end. rewrite !andb_true_iff in Hok. destruct Hok as [[[_ Hlen%Z.eqb_eq] _] _].
    match goal with H0 : insert_auth_event _ _ _ = _ |- _ => apply insert_auth_event_inv in H0 as (Hid & Hfree & He) end.
    same_db. rewrite Hb in *. rewrite He.
    apply (human_step_change (w_db w)); unfold profile_revision; rewrite ?Hr; done.
  - case_match; m_inv. by rewrite Hd.
Qed.

Lemma update_binding_inv p base f d n d' :
  update_binding p base f d = inr (n, d') ->
  (n = 0 /\ d' = d) \/
  exists r, n = 1 /\ h_bindings d !! p = Some r /\ hb_revision r = base /\ d' = set_bindings (<[p:=f r]> (h_bindings d)) d.
Proof.
  unfold update_binding. destruct (h_bindings d !! p) as [r|] eqn:Hr; [|naive_solver].
  destruct (Z.eqb_spec (hb_revision r) base); [|naive_solver]. case_match; [|done]. intros [= <- <-]. eauto 10.
Qed.

Lemma scan_fault f b : scanHumanBinding (inl (SqlFault f)) <> inr b.
Proof. by destruct f. Qed.

Section WithHash.
Context `{Sha256}.

Lemma step_profile_update request current d : 1 <= uq_BaseRevision request -> takes human_step d (profile_update request current).
Proof.
  intros Hbase env w out w1 <- H0. unfold profile_update in H0. m_inv.
  match goal with H1 : update_binding _ _ _ _ = _ |- _ => apply update_binding_inv in H1 as [[-> _]|(row & -> & Hrow & Hrev & Hb)] end; [done|].
  match goal with H1 : insert_auth_event _ _ _ = _ |- _ => apply insert_auth_event_inv in H1 as (Hid & Hfree & He) end.
  same_db. rewrite Hb in *. rewrite He. clear He Hb.
  apply (human_step_change (w_db w)); unfold profile_revision; rewrite ?Hrow; simpl.
  - exact Hid.
  - exact Hfree.
  - intros Hinv. by apply (hi_bindings _ Hinv) in Hrow as (_ & _ & ?).
  - unfold change_type. case_match; [lia|done].
  - lia.
  - done.
  - intros before Hr0. simplify_eq. unfold same_account. simpl. split_and!; done || lia.
Qed.

Lemma step_profileTx request d : 1 <= uq_BaseRevision request -> takes human_step d (profileTx request).
Proof.
  intros Hbase env w out w1 <- H0. unfold profileTx in H0. m_inv1. apply attempt_query_inv in Hrun as [Hd _].
  destruct r as [[]|event]; try by m_inv.
  - m_inv1. apply getHumanBindingTx_inv in Hrun as [Hd' _]. case_match; [by m_inv|]. rewrite <-Hd, <-Hd'.
    by eapply (step_profile_update _ _ _ Hbase env _ _ _ eq_refl).
  - m_inv1. m_inv1. m_inv1. apply getHumanBindingTx_inv in Hrun0 as [Hd' _]. case_match; m_inv. same_db. reflexivity.
Qed.

Lemma guar_Get : guarantees human_step GetHumanAccountBinding.
Proof.
  apply guarantees_bind; [apply guarantees_attempt, guarantees_autocommit_query|]. intros row. unfold lift. case_match; auto with guar.
Qed.

Lemma guar_Bind request : guarantees human_step (BindHumanAccount request).
Proof.
  apply guarantees_bind; [auto with guar|intros _]. apply guarantees_bind.
  - apply guarantees_mapE, guarantees_runTx. intros d. apply step_bindTx.
  - intros [?|]; [auto with guar|apply guar_Get].
Qed.

Lemma guar_Update request : guarantees human_step (UpdateHumanProfile request).
Proof.
  apply guarantees_guard. rewrite !andb_true_iff. intros [[[_ Hbase%Z.leb_le] _] _]. apply guarantees_bind.
  - apply guarantees_mapE, guarantees_runTx. intros d. by apply step_profileTx.
  - intros [?|]; [auto with guar|apply guar_Get].
Qed.

Lemma guar_Record request : guarantees human_step (RecordHumanAuthEvent request).
Proof.
  apply guarantees_guard. rewrite !andb_true_iff. intros [[[_ Htype] _] _]. apply seqb_true in Htype.
  apply guarantees_bind; [apply guarantees_direct_query|]. intros n. case_match; [auto with guar|].
  apply guarantees_bind; [auto with guar|intros id]. apply guarantees_bind; [auto with guar|intros t].
  apply guarantees_direct. intros d a d' (Hid & Hfree & ->)%insert_auth_event_inv. by apply human_step_login.
Qed.
End WithHash.

(** Statements on the browser sessions and on the latch leave both tables. *)
Lemma guar_raw {A} (st : Stmt HDB A) :
  (forall d a d', st d = inr (a, d') -> h_bindings d' = h_bindings d /\ h_events d' = h_events d) -> guarantees human_step (raw st).
Proof.
  intros Hst. apply guarantees_mapE, guarantees_autocommit. intros d a d' Hs. right. destruct (Hst _ _ _ Hs).
  by apply human_step_frame.
Qed.

Lemma sf_browser {A} d (st : Stmt HDB A) g :
  (forall d a d', st d = inr (a, d') -> h_bindings d' = h_bindings d /\ h_events d' = h_events d) ->
  takes human_step d (mapE g (exec st)).
Proof. intros Hst. apply sf_exec. intros a d1 Hs. destruct (Hst _ _ _ Hs). by apply human_step_frame. Qed.

Lemma guar_Save v : guarantees human_step (SaveHumanBrowserSession v).
Proof.
  apply guarantees_bind; [auto with guar|intros _]. apply guarantees_runTx. intros d.
  refine (sf_bind _ _ _ _ _ _); [|intros d1 [] _]; [apply sf_browser; unfold delete_stale, delete_overflowing; naive_solver|].
  refine (sf_bind _ _ _ _ _ _); [|intros d2 [] _]; [apply sf_browser; intros ? ? ? [_ ->]%hcheck_inv; done|].
  refine (sf_bind _ _ _ _ _ _); [|intros d3 [] _]; [apply sf_browser; unfold delete_stale, delete_overflowing; naive_solver|]. exact (sf_ret _ _ _).
Qed.

(** ** Runs *)

Inductive HumanOp :=
  | OpGetBinding
  | OpBind (r : BindHumanAccountRequest)
  | OpUpdateProfile (r : UpdateHumanProfileRequest)
  | OpRecordEvent (r : HumanAuthEventRequest)
  | OpSaveSession (v : HumanBrowserSession)
  | OpRevokeSession (digest : string) (t : Z)
  | OpRevokeByMethod (method : string) (t : Z)
  | OpUpdateCSRF (digest csrf : string)
  | OpUpdateRevisions (principal : string) (revision : Z)
  | OpSetPending (pending : bool).

Section HumanRuns.
Context `{Sha256}.

Definition run_human (op : HumanOp) : M HDB Err unit :=
  match op with
  | OpGetBinding => GetHumanAccountBinding ;;; ret tt
  | OpBind r => BindHumanAccount r ;;; ret tt
  | OpUpdateProfile r => UpdateHumanProfile r ;;; ret tt
  | OpRecordEvent r => RecordHumanAuthEvent r
  | OpSaveSession v => SaveHumanBrowserSession v
  | OpRevokeSession k t => RevokeHumanBrowserSession k t
  | OpRevokeByMethod m t => RevokeHumanBrowserSessionsByMethod m t
  | OpUpdateCSRF k c => UpdateHumanBrowserSessionCSRF k c
  | OpUpdateRevisions p n => UpdateHumanBrowserSessionRevisions p n
  | OpSetPending b => SetCodexSessionRevocationPending b
  end.

Definition others_run_human (env : Env HDB) : Prop := forall n d, human_step d (tk_others (env n) d).

Definition human_after (ops : list HumanOp) (env : Env HDB) (d : HDB) : HDB := w_db (run_all (run_human <$> ops) env (mkWorld d 0)).2.

Lemma guar_run_human op : guarantees human_step (run_human op).
Proof.
  destruct op; simpl;
    first [ apply guar_Record | apply guar_Save
          | apply guarantees_bind; [|auto with guar];
            first [ apply guar_Get | apply guar_Bind | apply guar_Update | solve [auto with guar]
                  | apply guar_raw; unfold update_browser; intros; by repeat case_match; simplify_eq/= ]
          | idtac ].
  apply guarantees_bind; [auto with guar|intros _]. apply guarantees_bind; [|auto with guar].
  apply guar_raw. unfold update_browser. naive_solver.
Qed.

Lemma human_after_step ops env d : others_run_human env -> human_step d (human_after ops env d).
Proof.
  intros Hoth. apply (run_all_step human_step _ env (mkWorld d 0)); [|done].
  intros op (o & -> & _)%list_elem_of_fmap. apply guar_run_human.
Qed.

Lemma history_inv_empty d : h_bindings d = ∅ -> h_events d = ∅ -> history_inv d.
Proof.
  intros Hb He. split; unfold records, profile_revision; rewrite ?Hb, ?He, ?lookup_empty.
  - intros p r. by rewrite lookup_empty.
  - intros id id' e e'. by rewrite lookup_empty.
  - intros id e. by rewrite lookup_empty.
  - lia.
  - intros k id id' (e & Hx & _). by rewrite lookup_empty in Hx.
Qed.

(** The databases that runs of the operations can produce. *)
Definition human_reachable (d : HDB) : Prop :=
  exists ops env d0, h_bindings d0 = ∅ /\ h_events d0 = ∅ /\ others_run_human env /\ d = human_after ops env d0.

Lemma reachable_history d : human_reachable d -> history_inv d.
Proof.
  intros (ops & env & d0 & Hb & He & Hoth & ->). apply (hu_inv _ _ (human_after_step ops env d0 Hoth)).
  by apply history_inv_empty.
Qed.

(** In every database the operations can produce, each profile revision from
    the first to the current one was made by exactly one recorded event: the
    first by binding the account, the others by profile updates; no event
    records a revision that was never made. *)
Theorem profile_history_complete d :
  human_reachable d ->
  (forall k, (exists id, records d k id) <-> 1 <= k <= profile_revision d) /\
  (forall k id id', records d k id -> records d k id' -> id = id') /\
  (forall id e, h_events d !! id = Some e -> is_change e -> he_type e = change_type (he_revision e)).
Proof.
  intros [Hbind _ Hev Hall Huniq]%reachable_history. split_and!; [|done|].
  - intros k. split; [|apply Hall]. intros (id & e & He & Hc & <-). by apply (Hev id e).
  - intros id e He Hc. by apply (Hev id e).
Qed.

(** Once an account is bound, whatever runs later, the installation stays
    bound to the same provider account; its profile revision never goes back
    and names one profile. *)
Theorem account_binding_fixed ops env d r :
  others_run_human env -> h_bindings d !! HumanLocalPrincipal = Some r ->
  exists r', h_bindings (human_after ops env d) !! HumanLocalPrincipal = Some r' /\ same_account r r'.
Proof. intros Hoth Hr. by apply (hu_binding _ _ (human_after_step ops env d Hoth)). Qed.

(** ** Profile updates *)

Definition update_recorded (r : UpdateHumanProfileRequest) (d : HDB) : Prop :=
  exists id e, h_events d !! id = Some e /\ he_principal e = HumanLocalPrincipal /\ he_type e = "profile_updated"%string /\
    he_key e = uq_IdempotencyKey r /\ he_digest e = humanProfileRequestDigest r.

Lemma update_recorded_mono r d d' : human_step d d' -> update_recorded r d -> update_recorded r d'.
Proof. intros Hs (id & e & He & ?). exists id, e. split; [by apply (hu_events _ _ Hs)|done]. Qed.

Lemma event_by_key_inv p t k d e :
  event_by_key p t k d = inr e -> exists id, h_events d !! id = Some e /\ he_principal e = p /\ he_type e = t /\ he_key e = k.
Proof.
  unfold event_by_key, events_by_key. destruct (filter _ _) as [|x l] eqn:Hf; [done|]. intros [= ->].
  assert (e ∈ e :: l) as Hin by left. rewrite <-Hf in Hin. apply list_elem_of_filter in Hin as [? Hin].
  apply list_elem_of_fmap in Hin as ([id x] & -> & Hin). apply elem_of_map_to_list in Hin. eauto.
Qed.

Lemma event_by_key_found d id e :
  history_inv d -> h_events d !! id = Some e -> he_key e <> ""%string ->
  event_by_key (he_principal e) (he_type e) (he_key e) d = inr e.
Proof.
  intros Hinv He Hk. destruct (event_by_key (he_principal e) (he_type e) (he_key e) d) as [x|e'] eqn:Hq.
  - exfalso. unfold event_by_key, events_by_key in Hq.
    assert (e ∈ filter (fun r => he_principal r = he_principal e /\ he_type r = he_type e /\ he_key r = he_key e) (map_to_list (h_events d)).*2) as Hin.
    { apply list_elem_of_filter. split; [done|]. apply list_elem_of_fmap. exists (id, e). split; [done|]. by apply elem_of_map_to_list. }
    destruct (filter _ _); [by apply not_elem_of_nil in Hin|done].
  - apply event_by_key_inv in Hq as (id' & He' & Hp & Ht & Hk'). f_equal.
    assert (id = id') as <-; [|congruence]. apply (hi_keys _ Hinv id id' e e' He He'). unfold same_key. auto.
Qed.

Lemma profileTx_recorded r env w out w1 :
  profileTx r env w = (inr out, w1) -> update_recorded r (w_db w1) /\ (forall b, out = TxRollback b -> w_db w1 = w_db w).
Proof.
  unfold profileTx. intros Hrun. m_inv1. apply attempt_query_inv in Hrun0 as [Hd Hq].
  destruct r0 as [[]|event]; try by m_inv.
  - m_inv1. apply getHumanBindingTx_inv in Hrun0 as [_ _]. case_match; [by m_inv|]. unfold profile_update in Hrun. m_inv.
    match goal with H1 : insert_auth_event _ _ _ = _ |- _ => apply insert_auth_event_inv in H1 as (_ & _ & He) end.
    same_db. split; [|done]. rewrite He. eexists _, _. simpl. rewrite lookup_insert_eq. done.
  - destruct Hq as [Hq|[f ?]]; [|done]. symmetry in Hq. apply event_by_key_inv in Hq as (id & He & Hp & Ht & Hk).
    m_inv1. m_inv1. m_inv1. apply getHumanBindingTx_inv in Hrun1 as [Hd' _]. case_match; m_inv. same_db.
    apply andb_true_iff in Hguard as [_ Hdig%seqb_true]. split; [|done]. exists id, event. done.
Qed.

Lemma Update_recorded r env w b w' :
  others_run_human env -> UpdateHumanProfile r env w = (inr b, w') -> update_recorded r (w_db w').
Proof.
  unfold UpdateHumanProfile. intros Hoth Hrun. m_inv1. m_inv1. m_inv1. m_inv1.
  apply runTx_inr_inv in Hrun1 as (w2 & o & Hbody & Ho). apply profileTx_recorded in Hbody as [Hrec Hsame].
  assert (update_recorded r (w_db w1)) as Hrec'.
  { destruct Ho as [[_ ->]|[-> ->]]; [done|]. by rewrite (Hsame _ eq_refl) in Hrec. }
  destruct r1 as [c|]; [by m_inv|]. eapply update_recorded_mono; [|exact Hrec'].
  by eapply guarantees_run; [apply _..|apply guar_Get|exact Hoth|].
Qed.

(** A replay in a quiet environment: the recorded event decides. *)
Lemma quiet_query {A} (q : HDB -> SqlErr + A) env w :
  quiet env -> attempt (E' := TxFail) (exec (query q)) env w = (inr (q (w_db w)), mkWorld (w_db w) (S (w_tick w))).
Proof.
  intros Hq. destruct (Hq (w_tick w)) as [Hf _]. unfold attempt, exec, query. rewrite Hf. by destruct (q (w_db w)).
Qed.

Lemma quiet_getBinding env w :
  quiet env ->
  getHumanBindingTx env w = (inr (scanHumanBinding (hselect h_bindings HumanLocalPrincipal (w_db w))), mkWorld (w_db w) (S (w_tick w))).
Proof. intros Hq. unfold getHumanBindingTx, bind. by rewrite quiet_query. Qed.

Lemma quiet_runTx_fail {A} (body : M HDB TxFail (TxOut A)) env w e w1 :
  quiet env -> body env (mkWorld (w_db w) (S (w_tick w))) = (inl (FBody e), w1) ->
  runTx body env w = (inl e, mkWorld (w_db w) (w_tick w1)).
Proof.
  intros Hq Hb. destruct (Hq (w_tick w)) as [Hf Ho]. unfold runTx, mapE, withTx. by rewrite Hf, Ho, Hb.
Qed.

Lemma quiet_runTx_rollback {A} (body : M HDB TxFail (TxOut A)) env w a w1 :
  quiet env -> body env (mkWorld (w_db w) (S (w_tick w))) = (inr (TxRollback a), w1) ->
  runTx body env w = (inr a, mkWorld (w_db w) (w_tick w1)).
Proof.
  intros Hq Hb. destruct (Hq (w_tick w)) as [Hf Ho]. unfold runTx, mapE, withTx. by rewrite Hf, Ho, Hb.
Qed.

Lemma replay_run r env w e :
  quiet env -> event_by_key HumanLocalPrincipal "profile_updated" (uq_IdempotencyKey r) (w_db w) = inr e ->
  len (he_digest e) = 32 ->
  (he_digest e = humanProfileRequestDigest r -> forall b, scanHumanBinding (hselect h_bindings HumanLocalPrincipal (w_db w)) = inr b ->
     exists w', runTx (profileTx r) env w = (inr (Some b), w') /\ w_db w' = w_db w) /\
  (he_digest e <> humanProfileRequestDigest r -> exists w', runTx (profileTx r) env w = (inl ErrConflict, w') /\ w_db w' = w_db w).
Proof.
  intros Hq He Hlen. split.
  - intros Hd b Hb. eexists (mkWorld (w_db w) _). split; [|reflexivity]. eapply quiet_runTx_rollback; [done|]. unfold profileTx, bind at 1.
    rewrite quiet_query by done. cbn [w_db w_tick]. rewrite He. unfold require. rewrite (proj2 (Z.eqb_eq _ _) Hlen), Hd, seqb_refl. cbn [andb].
    unfold bind, ret at 1. rewrite quiet_getBinding by done. cbn [w_db w_tick]. by rewrite Hb.
  - intros Hd. eexists (mkWorld (w_db w) _). split; [|reflexivity]. eapply quiet_runTx_fail; [done|]. unfold profileTx, bind at 1.
    rewrite quiet_query by done. cbn [w_db w_tick]. rewrite He. unfold require. apply seqb_false in Hd. by rewrite Hd, andb_false_r.
Qed.

(** A profile update happens once.  After a successful update, in every
    later database, the same request answers with the current binding and
    writes nothing, and a request that reuses its key for another profile is
    refused. *)
Theorem profile_update_once r env w b w' d2 env2 n :
  (forall s, len (sha256_Sum256 s) = 32) -> others_run_human env -> human_reachable (w_db w) ->
  UpdateHumanProfile r env w = (inr b, w') -> human_step (w_db w') d2 -> quiet env2 ->
  (exists b2 w2, UpdateHumanProfile r env2 (mkWorld d2 n) = (inr b2, w2) /\ w_db w2 = d2 /\ ab_Revision b2 = profile_revision d2) /\
  (forall r', uq_IdempotencyKey r' = uq_IdempotencyKey r -> humanProfileRequestDigest r' <> humanProfileRequestDigest r ->
     exists e w2, UpdateHumanProfile r' env2 (mkWorld d2 n) = (inl e, w2) /\ w_db w2 = d2 /\ (e = ErrInvalid \/ e = ErrConflict)).
Proof.
  intros Hsha Hoth Hreach Hrun Hstep Hq. pose proof (Update_recorded _ _ _ _ _ Hoth Hrun) as Hrec.
  assert (human_step (w_db w) d2) as Hall by (etrans; [eapply guarantees_run; [apply _..|apply guar_Update|exact Hoth|exact Hrun]|done]).
  apply (update_recorded_mono _ _ _ Hstep) in Hrec as (id & e & He & Hp & Ht & Hk & Hd).
  pose proof (hu_inv _ _ Hall (reachable_history _ Hreach)) as Hinv.
  unfold UpdateHumanProfile in Hrun. apply bind_inr_inv in Hrun as (? & ? & Hguard & _). apply require_inr_inv in Hguard as [Hguard _].
  assert (valid_key (uq_IdempotencyKey r) = true) as Hkey by (by apply andb_true_iff in Hguard as [_ ?]).
  assert (uq_IdempotencyKey r <> ""%string) as Hne by (unfold valid_key in Hkey; intros Hz; by rewrite Hz in Hkey).
  pose proof (event_by_key_found _ _ _ Hinv He ltac:(by rewrite Hk)) as Hev. rewrite Hp, Ht, Hk in Hev.
  assert (len (he_digest e) = 32) as Hlen by (rewrite Hd; apply Hsha).
  assert (exists row, h_bindings d2 !! HumanLocalPrincipal = Some row) as [row Hrow].
  { destruct (hi_events _ Hinv _ _ He) as [Hr _]; [unfold is_change; by rewrite Ht|]. unfold profile_revision in Hr.
    destruct (h_bindings d2 !! _); [eauto|lia]. }
  split.
  - destruct (replay_run r env2 (mkWorld d2 n) e Hq Hev Hlen) as [Hok _].
    assert (exists b2, scanHumanBinding (hselect h_bindings HumanLocalPrincipal d2) = inr b2 /\ ab_Revision b2 = profile_revision d2) as (b2 & Hb2 & Hr2).
    { unfold profile_revision, hselect. rewrite Hrow. simpl. apply (hi_bindings _ Hinv) in Hrow as (_ & _ & ->). eauto. }
    destruct (Hok Hd b2 Hb2) as (w2 & Hw2 & Hdb). exists b2, w2. split; [|done].
    unfold UpdateHumanProfile, bind, require, mapE. rewrite Hguard. simpl. by rewrite Hw2.
  - intros r' Hk' Hd'. unfold UpdateHumanProfile, bind, require, mapE. match goal with |- context [if ?b then ret tt else _] => destruct b end; [|by eexists _, _; split; [|split; [|left]]].
    destruct (replay_run r' env2 (mkWorld d2 n) e Hq ltac:(by rewrite Hk') Hlen) as [_ Hno].
    destruct (Hno ltac:(congruence)) as (w2 & Hw2 & Hdb). simpl. rewrite Hw2. eexists _, _. split; [done|]. split; [done|]. by right.
Qed.
End HumanRuns.

(** What a profile update's digest is computed from determines the request:
    its principal, names and, up to 64 bits, its base revision. *)
Theorem profile_preimage_inj r r' :
  fits (uq_Principal r) -> fits (uq_Principal r') -> fits (uq_DisplayName r) -> fits (uq_DisplayName r') ->
  fits (uq_Handle r) -> fits (uq_Handle r') -> profile_preimage r = profile_preimage r' ->
  uq_Principal r = uq_Principal r' /\ uq_BaseRevision r mod 2 ^ 64 = uq_BaseRevision r' mod 2 ^ 64 /\
  uq_DisplayName r = uq_DisplayName r' /\ uq_Handle r = uq_Handle r'.
Proof.
  intros. unfold profile_preimage in *.
  match goal with H : _ = _ |- _ => apply framed_app_inj in H as [-> H]; [|done..];
    apply app_inj_length in H as [Hrev%PutUint_mod H]; [|by rewrite !PutUint_length];
    apply framed_app_inj in H as [-> H]; [|done..];
    rewrite <-(string_app_nil (framed (uq_Handle r))), <-(string_app_nil (framed (uq_Handle r'))) in H;
    apply framed_app_inj in H as [-> _]; [|done..] end.
  done.
Qed.

(** ** A concrete run *)
Module HumanDemo.
(** A function with 32-byte results: the text, padded and cut. *)
Definition pad (s : string) : string := String.substring 0 32 (s +:+ "................................").
#[export] Instance sum : Sha256 := pad.

Definition calm : Env HDB := fun n => mkTick None false (1767225600000000000 + Z.of_nat n) (pretty n) id.
Definition mem0 : authMem := {| am_displayName := "Ada"; am_handle := "ada"; am_sessions := ∅; am_failures := [] |}.
Definition db0 : HDB := mkHDB ∅ ∅ ∅ (Some false) mem0 false.
Definition subject : string := "0123456789abcdef0123456789abcdef".
Definition bind_request : BindHumanAccountRequest :=
  {| bq_ProviderSubjectDigest := subject; bq_DisplayName := "Ada"; bq_Handle := "ada" |}.
Definition update_request : UpdateHumanProfileRequest :=
  {| uq_Principal := HumanLocalPrincipal; uq_DisplayName := "Ada L."; uq_Handle := "ada-l"; uq_BaseRevision := 1; uq_IdempotencyKey := "k1" |}.
Definition bound : HDB := human_after [OpBind bind_request] calm db0.
Definition updated : HDB := human_after [OpBind bind_request; OpUpdateProfile update_request] calm db0.

Lemma calm_others_human : others_run_human calm.
Proof. intros n d. reflexivity. Qed.
Lemma calm_quiet : quiet calm.
Proof. intros n. done. Qed.
Lemma bound_reachable : human_reachable bound.
Proof. exists [OpBind bind_request], calm, db0. split_and!; [done..|apply calm_others_human|done]. Qed.
Lemma updated_reachable : human_reachable updated.
Proof. exists [OpBind bind_request; OpUpdateProfile update_request], calm, db0. split_and!; [done..|apply calm_others_human|done]. Qed.

Lemma pad_length s : len (sha256_Sum256 s) = 32.
Proof.
  unfold sha256_Sum256, sum, pad, len. enough (String.length (String.substring 0 32 (s +:+ "................................")) = 32%nat) by lia.
  assert (forall n a b, (n <= String.length b)%nat -> String.length (String.substring 0 n (a +:+ b)) = n) as Hsub; [|by apply Hsub].
  intros n a. revert n. induction a as [|c a IH]; intros n b Hn.
  - change ("" +:+ b) with b. revert n Hn. induction b as [|x b IHb]; intros [|n] Hn; simpl in *; [done|lia|done|]. f_equal. apply IHb. lia.
  - destruct n as [|n]; [done|]. change (String c a +:+ b) with (String c (a +:+ b)). simpl. f_equal. apply IH. lia.
Qed.
End HumanDemo.
#[local] Existing Instance HumanDemo.sum.

Lemma profile_history_complete_witness :
  profile_revision HumanDemo.updated = 2 /\ forall k, (exists id, records HumanDemo.updated k id) <-> 1 <= k <= 2.
Proof.
  assert (profile_revision HumanDemo.updated = 2) as H by (vm_compute; reflexivity). split; [exact H|].
  rewrite <-H. apply (profile_history_complete HumanDemo.updated HumanDemo.updated_reachable).
Defined.

Lemma account_binding_fixed_witness :
  exists r r', h_bindings HumanDemo.bound !! HumanLocalPrincipal = Some r /\
    h_bindings (human_after [OpUpdateProfile HumanDemo.update_request] HumanDemo.calm HumanDemo.bound) !! HumanLocalPrincipal = Some r' /\
    same_account r r'.
Proof.
  assert (is_Some (h_bindings HumanDemo.bound !! HumanLocalPrincipal)) as [r Hr] by (vm_compute; eauto).
  destruct (account_binding_fixed [OpUpdateProfile HumanDemo.update_request] HumanDemo.calm HumanDemo.bound r HumanDemo.calm_others_human Hr)
    as (r' & H1 & H2).
  exists r, r'. split; [exact Hr|split; [exact H1|exact H2]].
Defined.

Lemma profile_update_once_witness : exists b w b2 w2,
  UpdateHumanProfile HumanDemo.update_request HumanDemo.calm (mkWorld HumanDemo.bound 0) = (inr b, w) /\
  UpdateHumanProfile HumanDemo.update_request HumanDemo.calm (mkWorld (w_db w) 0) = (inr b2, w2) /\ w_db w2 = w_db w.
Proof.
  destruct (UpdateHumanProfile HumanDemo.update_request HumanDemo.calm (mkWorld HumanDemo.bound 0)) as [[e|b] w] eqn:E;
    [exfalso; vm_compute in E; discriminate E|].
  destruct (profile_update_once HumanDemo.update_request HumanDemo.calm (mkWorld HumanDemo.bound 0) b w (w_db w) HumanDemo.calm 0
    HumanDemo.pad_length HumanDemo.calm_others_human HumanDemo.bound_reachable E (reflexivity _) HumanDemo.calm_quiet)
    as [(b2 & w2 & H1 & H2 & _) _].
  exists b, w, b2, w2. split; [reflexivity|split; [exact H1|exact H2]].
Defined.

Lemma profile_preimage_inj_witness :
  uq_Handle HumanDemo.update_request = uq_Handle HumanDemo.update_request.
Proof. apply (profile_preimage_inj HumanDemo.update_request HumanDemo.update_request); vm_compute; reflexivity. Defined.
