(* ===== verification/HumanAuth.v ===== *)
(** * Browser login in the HTTP process

    [internal/httpapi/auth.go], the recovery login and logout of
    [auth_routes.go], and from [handler.go] the authentication of a request,
    its write guard and the revocation that follows a change of the Codex
    account.

    Sessions live in the process and in the store.  A stretch of code that
    holds [humanAuth.mu] is one [locked] section: other goroutines run before
    it, never inside.  A store call is atomic, and other goroutines run
    between calls. *)

From Stdlib Require Import ZArith Lia Ascii.
From stdpp Require Import base gmap strings list sets sorting.
From S2P Require Import Prelude GoText Stamp Framing CoreDB OpsFs ArchDB ArchPolicy HumanStore.

Local Open Scope Z_scope.
Local Open Scope prog_scope.

Definition second : Z := 1000000000.
Definition minute : Z := 60 * second.
Definition hour : Z := 60 * minute.

(** ** Configuration *)

Record HumanAuthConfig := {
  ha_AdminSecret : string; ha_DisplayName : string; ha_Handle : string; ha_Actor : string; ha_Principal : string;
  ha_Session : string; ha_Host : string; ha_SessionTTL : Z; ha_RecoveryEnabled : bool; ha_CodexEnabled : bool }.

(** The fields of [humanAuth] that never change. *)
Record humanAuth := {
  au_secretDigest : string; au_principalID : string; au_actor : string; au_session : string; au_host : string;
  au_ttl : Z; au_recoveryEnabled : bool; au_codexEnabled : bool; au_store : bool (** [store != nil] *) }.

Record authPrincipal := {
  ap_Kind : string; ap_Principal : string; ap_Actor : string; ap_Session : string; ap_Host : string;
  ap_csrfToken : string; ap_cookie : string; ap_authMethod : string; ap_bindingRevision : Z }.

(** [[sha256.Size]byte{}] *)
Definition zeroDigest : string := String.string_of_list_ascii (replicate 32 Ascii.zero).

(** ** Critical sections *)

(** A critical section: it reads the clock, and calls the store when [fault]
    allows. *)
Definition locked {E A} (f : Z -> option Fault -> HDB -> A * HDB) : M HDB E A := fun env w =>
  let t := env (w_tick w) in
  let '(x, d) := f (tk_now t) (tk_fault t) (tk_others t (w_db w)) in
  (inr x, mkWorld d (S (w_tick w))).

(** [randomAuthToken], which fails when the random source does *)
Definition randomAuthToken {E} : M HDB E (option string) := fun env w =>
  let t := env (w_tick w) in
  (inr (match tk_fault t with Some _ => None | None => Some (tk_id t) end), mkWorld (w_db w) (S (w_tick w))).

Definition set_sessions (s : gmap string humanSession) (d : HDB) : HDB :=
  set_mem {| am_displayName := am_displayName (h_mem d); am_handle := am_handle (h_mem d); am_sessions := s;
             am_failures := am_failures (h_mem d) |} d.
Definition set_failures (l : list Z) (d : HDB) : HDB :=
  set_mem {| am_displayName := am_displayName (h_mem d); am_handle := am_handle (h_mem d);
             am_sessions := am_sessions (h_mem d); am_failures := l |} d.
Definition sessions (d : HDB) : gmap string humanSession := am_sessions (h_mem d).
Definition failures (d : HDB) : list Z := am_failures (h_mem d).

(** ** The rate limit *)

Definition recent (now_ : Z) (l : list Z) : list Z := filter (fun f => now_ - minute < f) l.

(** [rateLimited]: whether to refuse, and the time to wait *)
Definition rateLimited {E} : M HDB E (bool * Z) :=
  locked (fun t _ d =>
    let kept := recent t (failures d) in
    let d := set_failures kept d in
    match kept with
    | first :: _ =>
        if (Z.of_nat (length kept) <? 5) then ((false, 0), d)
        else let retry := first + minute - t in ((true, if retry <? second then second else retry), d)
    | [] => ((false, 0), d)
    end).

Definition last_five (l : list Z) : list Z := if (5 <? Z.of_nat (length l)) then drop (length l - 5) l else l.

Definition recordFailure {E} : M HDB E unit :=
  locked (fun t _ d => (tt, set_failures (last_five (failures d ++ [t])) d)).

(** ** Sessions *)

(** One iteration of the search for the oldest session. *)
Definition older (acc : string * Z) (e : string * humanSession) : string * Z :=
  let '(oldestKey, oldest) := acc in
  if seqb oldestKey "" || (hs_createdAt e.2 <? oldest)
     || ((hs_createdAt e.2 =? oldest) && bool_decide (sle e.1 oldestKey /\ e.1 <> oldestKey))
  then (e.1, hs_createdAt e.2) else acc.

Definition evict (t : Z) (m : gmap string humanSession) : gmap string humanSession :=
  let m := filter (fun e => t < hs_expiresAt e.2) m in
  if (8 <=? Z.of_nat (size m)) then delete (fold_left older (map_to_list m) (""%string, zeroTime)).1 m else m.

(** [newHumanAuth]; [stored]: a session store was given *)
Definition newHumanAuth `{Sha256} (config : option HumanAuthConfig) (stored : bool) : option (humanAuth * authMem) :=
  match config with
  | None => None
  | Some c =>
      if negb (ha_RecoveryEnabled c) && negb (ha_CodexEnabled c) then None
      else
        Some ({| au_secretDigest := sha256_Sum256 (ha_AdminSecret c);
                 au_principalID := if seqb (ha_Principal c) "" then HumanLocalPrincipal else ha_Principal c;
                 au_actor := ha_Actor c; au_session := ha_Session c; au_host := ha_Host c;
                 au_ttl := if ha_SessionTTL c <=? 0 then 12 * hour else ha_SessionTTL c;
                 au_recoveryEnabled := ha_RecoveryEnabled c; au_codexEnabled := ha_CodexEnabled c; au_store := stored |},
              {| am_displayName := ha_DisplayName c; am_handle := if seqb (ha_Handle c) "" then "local-admin" else ha_Handle c;
                 am_sessions := ∅; am_failures := [] |})
  end.

Section Auth.
Context `{Sha256} (a : humanAuth).

Definition verifySecret (value : string) : bool :=
  au_recoveryEnabled a && negb (seqb (au_secretDigest a) zeroDigest) && seqb (sha256_Sum256 value) (au_secretDigest a).

Definition create {E} (method : string) (revision : Z) : M HDB E (option (string * humanSession)) :=
  let method := if seqb method "" then "recovery"%string else method in
  let revision := if 0 <=? revision then revision else 0 in
  token <-- randomAuthToken ;;
  match token with
  | None => ret None
  | Some token =>
      csrf <-- randomAuthToken ;;
      match csrf with
      | None => ret None
      | Some csrf =>
          t <-- now ;;
          let session := {| hs_csrf := csrf; hs_createdAt := t; hs_expiresAt := t + au_ttl a; hs_authMethod := method;
                            hs_bindingRevision := revision |} in
          saved <-- (if au_store a then
            attempt (SaveHumanBrowserSession {| bv_TokenDigest := sha256_Sum256 token; bv_CSRFDigest := sha256_Sum256 csrf;
              bv_Principal := au_principalID a; bv_AuthMethod := method; bv_BindingRevision := revision; bv_CreatedAt := t;
              bv_ExpiresAt := hs_expiresAt session |}) else ret (inr tt)) ;;
          match saved with
          | inl _ => ret None
          | inr _ =>
              locked (fun _ _ d => (Some (token, session),
                set_sessions (<[token:=session]> (evict t (sessions d))) (set_failures [] d)))
          end
      end
  end.

(** The stored session of a cookie, read under the lock. *)
Definition stored_session (token : string) (t0 : Z) (fault : option Fault) (d : HDB) : option humanSession :=
  let digest := sha256_Sum256 token in
  match fault with
  | Some _ => None
  | None =>
      match read_session digest (live_session digest (stamp t0) d) with
      | inr v =>
          if seqb (bv_Principal v) (au_principalID a) then
            Some {| hs_csrf := ""; hs_createdAt := bv_CreatedAt v; hs_expiresAt := bv_ExpiresAt v;
                    hs_authMethod := bv_AuthMethod v; hs_bindingRevision := bv_BindingRevision v |}
          else None
      | inl _ => None
      end
  end.

Definition lookup_section (token : string) (t0 t : Z) (fault : option Fault) (d : HDB) : option humanSession * HDB :=
  let found :=
    match sessions d !! token with
    | Some s => Some (s, d)
    | None =>
        if au_store a then
          match stored_session token t0 fault d with
          | Some s => Some (s, set_sessions (<[token:=s]> (sessions d)) d)
          | None => None
          end
        else None
    end in
  match found with
  | None => (None, d)
  | Some (s, d) => if t <? hs_expiresAt s then (Some s, d) else (None, set_sessions (delete token (sessions d)) d)
  end.

Definition lookup {E} (token : string) : M HDB E (option humanSession) :=
  if seqb token "" then ret None
  else t0 <-- now ;; locked (lookup_section token t0).

Definition remove (token : string) : M HDB Err unit :=
  if seqb token "" then ret tt
  else
    (if au_store a then t <-- now ;; RevokeHumanBrowserSession (sha256_Sum256 token) t else ret tt) ;;;
    locked (fun _ _ d => (tt, set_sessions (delete token (sessions d)) d)).

Definition not_codex (m : gmap string humanSession) : gmap string humanSession :=
  filter (fun e => hs_authMethod e.2 <> "codex"%string) m.

(** [for attempt := 0; attempt < n; attempt++]: the last error when all fail *)
Fixpoint revoke_attempts (n : nat) (err : Err + unit) : M HDB Err unit :=
  match n with
  | O => match err with inl e => throw e | inr _ => ret tt end
  | S n' =>
      t <-- now ;;
      r <-- attempt (RevokeHumanBrowserSessionsByMethod "codex" t) ;;
      match r with inr _ => ret tt | inl e => revoke_attempts n' (inl e) end
  end.

Definition revokeCodexSessions : M HDB Err unit :=
  locked (fun _ _ d => (tt, set_sessions (not_codex (sessions d)) d)) ;;;
  if au_store a then revoke_attempts 3 (inr tt) else ret tt.

Definition setCodexRevocationPending (pending : bool) : M HDB Err unit :=
  if au_store a then SetCodexSessionRevocationPending pending else ret tt.

Definition codexRevocationPending {E} : M HDB E bool :=
  if au_store a then
    r <-- attempt CodexSessionRevocationPending ;;
    ret (match r with inl _ => true | inr pending => pending end)
  else ret false.

Definition session_with_csrf (csrf : string) (s : humanSession) : humanSession :=
  {| hs_csrf := csrf; hs_createdAt := hs_createdAt s; hs_expiresAt := hs_expiresAt s; hs_authMethod := hs_authMethod s;
     hs_bindingRevision := hs_bindingRevision s |}.

Definition rotateCSRF {E} (token : string) : M HDB E (option humanSession) :=
  session <-- lookup token ;;
  match session with
  | None => ret None
  | Some session =>
      csrf <-- randomAuthToken ;;
      match csrf with
      | None => ret None
      | Some csrf =>
          updated <-- (if au_store a then attempt (UpdateHumanBrowserSessionCSRF (sha256_Sum256 token) (sha256_Sum256 csrf))
                       else ret (inr tt)) ;;
          match updated with
          | inl _ => ret None
          | inr _ =>
              let session := session_with_csrf csrf session in
              locked (fun _ _ d => (Some session, set_sessions (<[token:=session]> (sessions d)) d))
          end
      end
  end.

Definition session_with_revision (revision : Z) (s : humanSession) : humanSession :=
  {| hs_csrf := hs_csrf s; hs_createdAt := hs_createdAt s; hs_expiresAt := hs_expiresAt s; hs_authMethod := hs_authMethod s;
     hs_bindingRevision := revision |}.

Definition updateIdentity (displayName handle : string) (revision : Z) : M HDB Err unit :=
  require (negb (seqb (TrimSpace displayName) "") && negb (seqb handle "")) ErrInvalid ;;;
  (if au_store a then UpdateHumanBrowserSessionRevisions (au_principalID a) revision else ret tt) ;;;
  locked (fun _ _ d =>
    (tt, set_mem {| am_displayName := displayName; am_handle := handle;
                    am_sessions := (fun s => if (0 <? revision) && isin (hs_authMethod s) ["codex"; "recovery"]
                                             then session_with_revision revision s else s) <$> sessions d;
                    am_failures := failures d |} d)).

(** ** Requests *)

(** [authenticateHuman], given the value of the session cookie *)
Definition authenticateHuman {E} (cookie : option string) : M HDB E (option authPrincipal) :=
  match cookie with
  | None => ret None
  | Some token =>
      session <-- lookup token ;;
      match session with
      | None => ret None
      | Some s =>
          refused <-- (if seqb (hs_authMethod s) "codex" then
              failed <-- locked (fun _ _ d => (h_failed d, d)) ;;
              if failed : bool then ret true else codexRevocationPending
            else ret false) ;;
          if refused : bool then ret None
          else ret (Some {| ap_Kind := "human"; ap_Principal := au_principalID a; ap_Actor := au_actor a;
                            ap_Session := au_session a; ap_Host := au_host a; ap_csrfToken := hs_csrf s; ap_cookie := token;
                            ap_authMethod := hs_authMethod s; ap_bindingRevision := hs_bindingRevision s |})
      end
  end.

Definition failed_ {A} (r : Err + A) : bool := match r with inl _ => true | inr _ => false end.

(** [revokeCodexSessionsAfterAccountUpdate] *)
Definition revokeCodexSessionsAfterAccountUpdate {E} : M HDB E unit :=
  pending <-- attempt (setCodexRevocationPending true) ;;
  revoke <-- attempt revokeCodexSessions ;;
  pending <-- (if failed_ pending && failed_ revoke then attempt (setCodexRevocationPending true) else ret pending) ;;
  let mark_failed := locked (fun _ _ d => (tt, set_failed true d)) in
  if negb (failed_ pending) && negb (failed_ revoke) then
    cleared <-- attempt (setCodexRevocationPending false) ;;
    match cleared with
    | inr _ => locked (fun _ _ d => (tt, set_failed false d))
    | inl _ => mark_failed
    end
  else mark_failed.

(** [constantTimeTokenEqual] *)
Definition constantTimeTokenEqual (x y : string) : bool :=
  negb (seqb x "") && negb (seqb y "") && (len x <=? 256) && (len y <=? 256) && seqb (sha256_Sum256 x) (sha256_Sum256 y).

(** What the recovery login answers. *)
Inductive LoginReply :=
  | RecoveryDisabled | OriginForbidden | RateLimited (seconds : Z) | BadBody | Unauthorized | Unavailable
  | LoggedIn (token : string) (session : humanSession).

(** The stores of the handler's configuration that may be absent. *)
Record HandlerStores := { hc_bindings : bool; hc_events : bool }.

(** [h.binding] *)
Definition binding (c : HandlerStores) : M HDB Err HumanAccountBinding :=
  if hc_bindings c then GetHumanAccountBinding else throw ErrNotFound.

(** [login] after the secret was accepted: the audit event, then the session *)
Definition login_session {E} (c : HandlerStores) (revision : Z) : M HDB E LoginReply :=
  auditKey <-- randomAuthToken ;;
  match auditKey with
  | None => ret Unavailable
  | Some auditKey =>
      recorded <-- (if hc_events c then
          attempt (RecordHumanAuthEvent {| eq_Principal := HumanLocalPrincipal; eq_EventType := "recovery_login";
            eq_BindingRevision := revision; eq_IdempotencyKey := "recovery:" +:+ auditKey |})
        else ret (inr tt)) ;;
      match recorded with
      | inl _ => ret Unavailable
      | inr _ =>
          created <-- create "recovery" revision ;;
          match created with None => ret Unavailable | Some (token, session) => ret (LoggedIn token session) end
      end
  end.

(** [login], given whether the request is of the same origin and the secret of
    its body, if it decodes *)
Definition login {E} (c : HandlerStores) (same_origin : bool) (body : option string) : M HDB E LoginReply :=
  if negb (au_recoveryEnabled a) || seqb (au_secretDigest a) zeroDigest then ret RecoveryDisabled
  else if negb same_origin then ret OriginForbidden
  else
    limit <-- rateLimited ;;
    if (limit.1 : bool) then ret (RateLimited ((limit.2 + second - 1) / second))
    else
      match body with
      | None => ret BadBody
      | Some secret =>
          if seqb secret "" || negb (verifySecret secret) then recordFailure ;;; ret Unauthorized
          else
            b <-- attempt (binding c) ;;
            match b with
            | inl e =>
                match e with
                | ErrNotFound => login_session c 0
                | _ => ret Unavailable
                end
            | inr b => login_session c (ab_Revision b)
            end
      end.

(** [logout], with the same inputs and the header [X-Commons-CSRF] *)
Inductive LogoutReply := LogoutUnauthorized | LogoutOriginForbidden | CsrfFailed | LogoutBadBody | LogoutUnavailable | LoggedOut.

Definition logout {E} (cookie : option string) (same_origin : bool) (csrf : string) (body : bool) : M HDB E LogoutReply :=
  principal <-- authenticateHuman cookie ;;
  match principal with
  | None => ret LogoutUnauthorized
  | Some p =>
      if negb same_origin then ret LogoutOriginForbidden
      else if negb (constantTimeTokenEqual csrf (ap_csrfToken p)) then ret CsrfFailed
      else if negb body then ret LogoutBadBody
      else
        r <-- attempt (remove (ap_cookie p)) ;;
        match r with inl _ => ret LogoutUnavailable | inr _ => ret LoggedOut end
  end.
End Auth.

(** ** The write guard *)

(** [validIdempotencyKey]: a byte beyond ASCII is part of a rune beyond it *)
Definition validIdempotencyKey (value : string) : bool :=
  (len value <=? 200) && seqb (TrimSpace value) value && all_bytes (between 0x21 0x7e) value.

Definition human_write_prefixes : list string :=
  ["/v1/projects/"; "/v1/project-archaeology/"; "/v1/milestones/"; "/v1/tasks/"].
Definition human_write_paths : list string :=
  ["/v1/notification-reads"; "/v1/posts"; "/v1/comments"; "/v1/post-states"; "/v1/post-perspective-scopes"; "/v1/topic-requests"].

Definition isHumanWritePath (path : string) : bool :=
  seqb path "/v1/projects" || existsb (fun p => HasPrefix (bytes_of path) (bytes_of p)) human_write_prefixes
  || isin path human_write_paths.

Inductive GuardReply := Pass | BadIdempotencyKey | ForbiddenRoute | ForeignOrigin | BadCSRF | KeyRequired.

(** The checks of [ServeHTTP] between authentication and routing. *)
Definition guardRequest `{Sha256} (kind method path : string) (same_origin : bool) (csrf_header csrf_token key : string) : GuardReply :=
  if negb (validIdempotencyKey key) then BadIdempotencyKey
  else if seqb kind "human" && negb (seqb method "GET") && negb (seqb method "HEAD") then
    if negb (isHumanWritePath path) then ForbiddenRoute
    else if negb same_origin then ForeignOrigin
    else if negb (constantTimeTokenEqual csrf_header csrf_token) then BadCSRF
    else if seqb key "" then KeyRequired
    else Pass
  else Pass.
