(* ===== verification/HumanSafety.v ===== *)
(** * What browser logins can be relied on for

    Theorems about [HumanStore] and [HumanAuth]: a revocation of the Codex
    sessions fails closed, a logout is final, the guesses of the recovery secret
    are bounded by how many logins run at a time, stored sessions are bounded;
    and interleavings of requests in which a revoked or logged-out session
    comes back and in which the login limit is exceeded. *)

From Stdlib Require Import ZArith Lia.
From stdpp Require Import base gmap strings list sets sorting relations pretty.
From S2P Require Import Prelude GoText Stamp Framing CoreDB OpsFs ArchDB ArchPolicy HumanStore HumanProfile HumanAuth.

Local Open Scope Z_scope.
Local Open Scope prog_scope.

(** ** Requests *)

Inductive HumanRequest :=
  | ReqAuthenticate (cookie : option string)
  | ReqLogin (c : HandlerStores) (same_origin : bool) (body : option string)
  | ReqLogout (cookie : option string) (same_origin : bool) (csrf : string) (body : bool)
  | ReqRefresh (token : string)
  | ReqIdentity (displayName handle : string) (revision : Z).

Section Requests.
Context `{Sha256} (a : humanAuth).

Definition run_request (q : HumanRequest) : M HDB Err unit :=
  match q with
  | ReqAuthenticate c => authenticateHuman a c ;;; ret tt
  | ReqLogin c o b => login a c o b ;;; ret tt
  | ReqLogout c o t b => logout a c o t b ;;; ret tt
  | ReqRefresh t => rotateCSRF a t ;;; ret tt
  | ReqIdentity n h r => updateIdentity a n h r
  end.

(** ** Critical sections *)

Lemma holds_locked {E A} env (P : HDB -> Prop) (f : Z -> option Fault -> HDB -> A * HDB) Q :
  stable P env -> (forall t e d x d', P d -> f t e d = (x, d') -> P d' /\ Q x) -> holds env P (locked (E := E) f) Q.
Proof.
  intros Hst Hf w r w' HP. unfold locked. destruct (f _ _ _) as [x d] eqn:Ef. intros [= <- <-].
  eapply Hf; [|exact Ef]. by apply Hst.
Qed.

Lemma holds_random {E} env (P : HDB -> Prop) : holds env P (randomAuthToken (E := E)) (fun _ => True).
Proof. by intros w r w' HP [= <- <-]. Qed.

Lemma holds_raw {A} env (P : HDB -> Prop) (st : Stmt HDB A) Q :
  stable P env -> stmt_holds P st Q -> holds env P (raw st) Q.
Proof. intros Hst Hs. by apply holds_mapE, holds_autocommit. Qed.

(** ** No live Codex session *)

Definition codex_free (m : gmap string humanSession) : Prop := map_Forall (fun _ s => hs_authMethod s <> "codex"%string) m.

Definition no_codex (d : HDB) : Prop :=
  codex_free (sessions d) /\
  (au_store a = true -> map_Forall (fun _ r => bs_method r = "codex"%string -> bs_revoked r <> None) (h_browser d)).

Definition not_codex_result (s : option humanSession) : Prop := forall x, s = Some x -> hs_authMethod x <> "codex"%string.

Lemma no_codex_browser (m : gmap string browser_row) d :
  (forall k r, m !! k = Some r -> (exists r0, h_browser d !! k = Some r0 /\ bs_method r = bs_method r0 /\ (bs_revoked r0 <> None -> bs_revoked r <> None))
     \/ bs_method r <> "codex"%string) ->
  no_codex d -> no_codex (set_browser m d).
Proof.
  intros Hm [Hs Hb]. split; [done|]. intros Hst k r Hr. simpl in Hr. destruct (Hm _ _ Hr) as [(r0 & H0 & Hmeth & Hrev)|]; [|done].
  intros Hc. apply Hrev. apply (Hb Hst k r0 H0). congruence.
Qed.

Lemma no_codex_update cond f :
  (forall r, bs_method (f r) = bs_method r /\ (bs_revoked r <> None -> bs_revoked (f r) <> None)) ->
  stmt_holds no_codex (update_browser cond f) (fun _ => True).
Proof.
  intros Hf d n d' Hd [= _ <-]. split; [|done]. apply no_codex_browser; [|done]. intros k r Hr.
  rewrite map_lookup_imap in Hr. destruct (h_browser d !! k) as [r0|] eqn:H0; simplify_eq/=.
  left. exists r0. case_match; [|done]. destruct (Hf r0). done.
Qed.

Lemma codex_free_delete k m : codex_free m -> codex_free (delete k m).
Proof. apply map_Forall_delete. Qed.

Lemma codex_free_filter P `{!forall x, Decision (P x)} m : codex_free m -> codex_free (filter P m).
Proof. intros Hm k s [Hk _]%map_lookup_filter_Some. by apply (Hm k). Qed.

Lemma codex_free_insert k s m : hs_authMethod s <> "codex"%string -> codex_free m -> codex_free (<[k:=s]> m).
Proof. intros Hs Hm. by apply map_Forall_insert_2. Qed.

Lemma no_codex_set m d : codex_free m -> no_codex d -> no_codex (set_sessions m d).
Proof. intros Hm [_ Hb]. by split. Qed.

Lemma no_codex_stored t0 e token d s : no_codex d -> au_store a = true -> stored_session a token t0 e d = Some s -> hs_authMethod s <> "codex"%string.
Proof.
  intros [_ Hb] Hst. unfold stored_session. destruct e; [done|]. unfold live_session.
  destruct (h_browser d !! _) as [r|] eqn:Hr; [|done]. specialize (Hb Hst _ _ Hr).
  destruct (bool_decide (bs_revoked r = None)) eqn:Hrev; [|done]. apply bool_decide_eq_true in Hrev.
  unfold read_session.
  destruct (negb _); [|done]. cbn [andb]. destruct (IsZero _ || IsZero _); [done|]. cbn [bv_Principal]. case_match; [|done].
  intros [= <-]. simpl. intros Hc. by apply Hb in Hc.
Qed.

Lemma no_codex_lookup token t0 t e d x d' :
  no_codex d -> lookup_section a token t0 t e d = (x, d') -> no_codex d' /\ not_codex_result x.
Proof.
  intros Hd. unfold lookup_section, not_codex_result.
  destruct (sessions d !! token) as [s|] eqn:Hs; [|destruct (au_store a) eqn:Hst; [destruct (stored_session a token t0 e d) as [s|] eqn:Hss|]].
  - assert (hs_authMethod s <> "codex"%string) as Hm by apply (proj1 Hd token s Hs).
    case_match; intros [= <- <-]; (split; [|naive_solver]); [done|]. apply no_codex_set; [|done]. apply codex_free_delete, Hd.
  - pose proof (no_codex_stored _ _ _ _ _ Hd Hst Hss) as Hm.
    assert (no_codex (set_sessions (<[token:=s]> (sessions d)) d)) as Hd' by (apply no_codex_set; [apply codex_free_insert; [done|apply Hd]|done]).
    case_match; intros [= <- <-]; (split; [|naive_solver]); [done|]. apply no_codex_set; [|done]. apply codex_free_delete, Hd'.
  - intros [= <- <-]. naive_solver.
  - intros [= <- <-]. naive_solver.
Qed.

Section Stable.
Context (env : Env HDB) (Hstable : stable no_codex env).

Lemma nc_lookup {E} token : holds env no_codex (lookup (E := E) a token) not_codex_result.
Proof.
  unfold lookup. case_match; [by apply holds_ret|]. eapply holds_bind; [by apply holds_now with (Q := fun _ => True)|intros t0 _].
  apply holds_locked; [done|]. intros t e d x d'. apply no_codex_lookup.
Qed.

Lemma nc_pending {E} : holds env no_codex (codexRevocationPending (E := E) a) (fun _ => True).
Proof.
  unfold codexRevocationPending. case_match; [|by apply holds_ret].
  eapply holds_bind; [apply holds_attempt, holds_raw; [done|apply stmt_query]|intros r _; by apply holds_ret].
Qed.

Lemma nc_authenticate {E} cookie :
  holds env no_codex (authenticateHuman (E := E) a cookie) (fun p => forall x, p = Some x -> ap_authMethod x <> "codex"%string).
Proof.
  unfold authenticateHuman. destruct cookie as [token|]; [|by apply holds_ret].
  eapply holds_bind; [apply nc_lookup|]. intros [s|] Hs; [|by apply holds_ret]. eapply holds_bind.
  - instantiate (1 := fun _ => True). case_match; [|by apply holds_ret].
    eapply holds_bind; [apply holds_locked with (Q := fun _ => True); [done|]; naive_solver|intros f _].
    destruct f; [by apply holds_ret|apply nc_pending].
  - intros refused _. destruct refused; apply holds_ret; [done|]. intros x [= <-]. simpl. by apply (Hs s).
Qed.

Lemma nc_section {E A} (f : Z -> option Fault -> HDB -> A * HDB) :
  (forall t e d, no_codex d -> no_codex (f t e d).2) -> holds env no_codex (locked (E := E) f) (fun _ => True).
Proof. intros Hf. apply holds_locked; [done|]. intros t e d x d' Hd Heq. split; [|done]. specialize (Hf t e d Hd). by rewrite Heq in Hf. Qed.

Lemma nc_raw_update cond f :
  (forall r, bs_method (f r) = bs_method r /\ (bs_revoked r <> None -> bs_revoked (f r) <> None)) ->
  holds env no_codex (raw (update_browser cond f)) (fun _ => True).
Proof. intros Hf. by apply holds_raw, no_codex_update. Qed.

Lemma nc_remove token : holds env no_codex (remove a token) (fun _ => True).
Proof.
  unfold remove. case_match; [by apply holds_ret|]. eapply holds_bind with (Q := fun _ => True).
  - case_match; [|by apply holds_ret]. eapply holds_bind; [by apply holds_now with (Q := fun _ => True)|intros t _].
    eapply holds_bind; [by apply nc_raw_update|intros; by apply holds_ret].
  - intros _ _. apply nc_section. intros t e d Hd. apply no_codex_set; [|done]. apply codex_free_delete, Hd.
Qed.

Lemma nc_rotate {E} token : holds env no_codex (rotateCSRF (E := E) a token) (fun _ => True).
Proof.
  unfold rotateCSRF. eapply holds_bind; [apply nc_lookup|]. intros [s|] Hs; [|by apply holds_ret].
  eapply holds_bind; [apply holds_random|]. intros [csrf|] _; [|by apply holds_ret].
  eapply holds_bind with (Q := fun _ => True).
  - case_match; [|by apply holds_ret]. apply holds_attempt.
    eapply holds_bind; [by apply nc_raw_update|intros n _]. apply holds_require.
  - intros [e|u] _; [by apply holds_ret|]. apply nc_section. intros t e d Hd. apply no_codex_set; [|done].
    apply codex_free_insert; [by apply (Hs s)|apply Hd].
Qed.

Lemma nc_identity name handle revision : holds env no_codex (updateIdentity a name handle revision) (fun _ => True).
Proof.
  unfold updateIdentity. eapply holds_bind; [apply holds_require|intros _ _]. eapply holds_bind with (Q := fun _ => True).
  - case_match; [|by apply holds_ret]. eapply holds_bind; [apply holds_require|intros _ _].
    eapply holds_bind; [by apply nc_raw_update|intros; by apply holds_ret].
  - intros _ _. apply nc_section. intros t e d [Hs Hb]. split; [|done]. intros k s Hk. simpl in Hk.
    unfold sessions in Hk; simpl in Hk. apply lookup_fmap_Some in Hk as (s0 & <- & H0). specialize (Hs k s0 H0). by case_match.
Qed.

Lemma nc_save v : bv_AuthMethod v <> "codex"%string -> holds env no_codex (SaveHumanBrowserSession v) (fun _ => True).
Proof.
  intros Hv. unfold SaveHumanBrowserSession. eapply holds_bind; [apply holds_require|intros _ _]. apply holds_runTx; [done|].
  eapply holds_bind with (Q := fun _ => True).
  { apply holds_mapE, holds_exec. intros d x d' Hd [= _ <-]. split; [|done]. apply no_codex_browser; [|done].
    intros k r [Hk _]%map_lookup_filter_Some. left. by exists r. }
  intros _ _. eapply holds_bind with (Q := fun _ => True).
  { apply holds_mapE, holds_exec. intros d x d' Hd [_ ->]%hcheck_inv. split; [|done]. apply no_codex_browser; [|done].
    intros k r [[<- <-]|[_ Hk]]%lookup_insert_Some; [by right|left; by exists r]. }
  intros _ _. eapply holds_bind with (Q := fun _ => True); [|intros _ _; by apply holds_ret].
  apply holds_mapE, holds_exec. intros d x d' Hd [= _ <-]. split; [|done]. apply no_codex_browser; [|done].
  intros k r [Hk _]%map_lookup_filter_Some. left. by exists r.
Qed.

Lemma nc_create {E} method revision :
  method <> "codex"%string -> holds env no_codex (create (E := E) a method revision) (fun _ => True).
Proof.
  intros Hm. unfold create. cbv zeta. set (m := if seqb method "" then _ else _).
  assert (m <> "codex"%string) as Hm' by (subst m; by case_match).
  eapply holds_bind; [apply holds_random|]. intros [token|] _; [|by apply holds_ret].
  eapply holds_bind; [apply holds_random|]. intros [csrf|] _; [|by apply holds_ret].
  eapply holds_bind; [by apply holds_now with (Q := fun _ => True)|intros t _].
  eapply holds_bind with (Q := fun _ => True).
  - case_match; [|by apply holds_ret]. by apply holds_attempt, nc_save.
  - intros [e|u] _; [by apply holds_ret|]. apply nc_section. intros t' e d Hd. apply no_codex_set; [|by destruct Hd].
    apply codex_free_insert; [done|]. unfold evict. case_match; [apply codex_free_delete|]; apply codex_free_filter, Hd.
Qed.

Lemma nc_event r : holds env no_codex (RecordHumanAuthEvent r) (fun _ => True).
Proof.
  unfold RecordHumanAuthEvent. eapply holds_bind; [apply holds_require|intros _ _].
  eapply holds_bind; [apply holds_direct; [done|apply stmt_query]|intros n _]. case_match; [by apply holds_ret|].
  eapply holds_bind; [by apply holds_newID with (Q := fun _ => True)|intros id _].
  eapply holds_bind; [by apply holds_now with (Q := fun _ => True)|intros t _].
  apply holds_direct; [done|]. intros d x d' Hd (_ & _ & ->)%insert_auth_event_inv. done.
Qed.

Lemma nc_binding c : holds env no_codex (binding c) (fun _ => True).
Proof.
  unfold binding. case_match; [|apply holds_throw]. unfold GetHumanAccountBinding.
  eapply holds_bind; [apply holds_attempt, holds_autocommit; [done|apply stmt_query]|intros row _].
  unfold lift. case_match; [apply holds_throw|by apply holds_ret].
Qed.

Lemma nc_login_session {E} c revision : holds env no_codex (login_session (E := E) a c revision) (fun _ => True).
Proof.
  unfold login_session. eapply holds_bind; [apply holds_random|]. intros [key|] _; [|by apply holds_ret].
  eapply holds_bind with (Q := fun _ => True); [case_match; [apply holds_attempt, nc_event|by apply holds_ret]|].
  intros [e|u] _; [by apply holds_ret|]. eapply holds_bind; [by apply nc_create|]. intros [[tok s]|] _; by apply holds_ret.
Qed.

Lemma no_codex_failures l d : no_codex d -> no_codex (set_failures l d).
Proof. by intros [? ?]. Qed.

Lemma nc_login {E} c same body : holds env no_codex (login (E := E) a c same body) (fun _ => True).
Proof.
  unfold login. do 2 (case_match; [by apply holds_ret|]).
  eapply holds_bind; [apply nc_section|intros limit _; case_match; [by apply holds_ret|]].
  { intros t e d Hd. cbv zeta. repeat case_match; by apply no_codex_failures. }
  destruct body as [secret|]; [|by apply holds_ret]. case_match.
  - eapply holds_bind; [apply nc_section; intros; by apply no_codex_failures|intros _ _; by apply holds_ret].
  - eapply holds_bind; [apply holds_attempt, nc_binding|]. intros [[]|b] _; first [apply nc_login_session|by apply holds_ret].
Qed.

Lemma nc_logout {E} cookie same csrf body : holds env no_codex (logout (E := E) a cookie same csrf body) (fun _ => True).
Proof.
  unfold logout. eapply holds_bind; [apply nc_authenticate|]. intros [p|] _; [|by apply holds_ret].
  do 3 (case_match; [by apply holds_ret|]). eapply holds_bind; [apply holds_attempt, nc_remove|].
  intros [e|u] _; by apply holds_ret.
Qed.

Lemma nc_request q : holds env no_codex (run_request q) (fun _ => True).
Proof.
  destruct q; simpl; [eapply holds_bind; [|intros; by apply holds_ret]..|apply nc_identity];
    [apply nc_authenticate|apply nc_login|apply nc_logout|apply nc_rotate].
Qed.
End Stable.

(** ** The latch of a failed revocation *)

Definition keeps_latch : relation HDB := fun d d' => h_failed d' = h_failed d.

#[local] Instance keeps_latch_refl : Reflexive keeps_latch.
Proof. by intros d. Qed.
#[local] Instance keeps_latch_trans : Transitive keeps_latch.
Proof. unfold keeps_latch. congruence. Qed.

Lemma guarantees_locked {E A} (R : relation HDB) `{!Reflexive R} (f : Z -> option Fault -> HDB -> A * HDB) :
  (forall t e d, R d (f t e d).2) -> guarantees R (locked (E := E) f).
Proof.
  intros Hf env w r w'. unfold locked. set (tk := env (w_tick w)). specialize (Hf (tk_now tk) (tk_fault tk) (tk_others tk (w_db w))).
  destruct (f _ _ _) as [x d]. intros [= <- <-]. simpl in *.
  eapply rtc_l; [left; by exists (w_tick w)|]. apply rtc_once. by right.
Qed.

Lemma guarantees_random {E} (R : relation HDB) : guarantees R (randomAuthToken (E := E)).
Proof. intros env w r w' [= <- <-]. reflexivity. Qed.

(** Every section and statement of the requests leaves the latch. *)
Ltac latch_stmt := intros; unfold keeps_latch; repeat first [ progress simplify_eq/= | case_match | done ].
Ltac latch_walk known :=
  repeat first
    [ progress intros
    | known
    | apply guarantees_ret | apply guarantees_throw | apply guarantees_require | apply guarantees_now | apply guarantees_newID
    | apply guarantees_random | apply guarantees_direct_query | apply guarantees_autocommit_query
    | apply guarantees_bind | apply guarantees_attempt | apply guarantees_mapE
    | apply guarantees_locked; [apply _|unfold lookup_section; latch_stmt]
    | apply guarantees_autocommit; unfold insert_auth_event, hcheck, update_browser; intros; right; latch_stmt
    | case_match ].

Lemma latch_lookup {E} token : guarantees keeps_latch (lookup (E := E) a token).
Proof. unfold lookup. latch_walk fail. Qed.

Lemma latch_authenticate {E} cookie : guarantees keeps_latch (authenticateHuman (E := E) a cookie).
Proof. unfold authenticateHuman, codexRevocationPending, CodexSessionRevocationPending, raw. latch_walk ltac:(apply latch_lookup). Qed.

Lemma latch_save v : guarantees keeps_latch (SaveHumanBrowserSession v).
Proof.
  unfold SaveHumanBrowserSession. apply guarantees_bind; [auto with guar|intros _]. apply guarantees_runTx. intros d.
  repeat (refine (sf_bind _ _ _ _ _ _); [|intros ? ? ?]); try exact (sf_ret _ _ _);
    apply sf_exec; unfold delete_stale, insert_browser, hcheck, delete_overflowing; latch_stmt.
Qed.

Lemma latch_request q : guarantees keeps_latch (run_request q).
Proof.
  destruct q; simpl; unfold login, login_session, create, rateLimited, recordFailure, RecordHumanAuthEvent, binding,
    GetHumanAccountBinding, lift, logout, remove, rotateCSRF, updateIdentity, RevokeHumanBrowserSession,
    UpdateHumanBrowserSessionCSRF, UpdateHumanBrowserSessionRevisions, raw;
    latch_walk ltac:(first [apply latch_lookup|apply latch_authenticate|apply latch_save]).
Qed.

(** ** Revoking the Codex sessions *)

Lemma alone_stable (P : HDB -> Prop) env : alone env -> stable P env.
Proof. intros Ha n d. by rewrite Ha. Qed.

Lemma nc_setPending env b : stable no_codex env -> holds env no_codex (setCodexRevocationPending a b) (fun _ => True).
Proof.
  intros Hst. unfold setCodexRevocationPending. case_match; [|by apply holds_ret].
  eapply holds_bind with (Q := fun _ => True); [apply holds_raw; [done|]|intros n _; apply holds_require].
  intros d x d' Hd Hrun. split; [|done]. destruct (h_pending d); by simplify_eq/=.
Qed.

Lemma revoked_all t d n d' :
  update_browser (fun _ r => seqb (bs_method r) "codex") (revoked_at (stamp t)) d = inr (n, d') -> codex_free (sessions d) -> no_codex d'.
Proof.
  intros [= _ <-] Hs. split; [done|]. intros _ k r Hr. simpl in Hr. rewrite map_lookup_imap in Hr.
  destruct (h_browser d !! k) as [r0|]; simplify_eq/=.
  match goal with |- context [if ?b then _ else _] => destruct b eqn:Hc end; [done|]. intros Hm. apply andb_false_iff in Hc as [Hc%seqb_false|Hc%bool_decide_eq_false]; done.
Qed.

Lemma revoke_attempts_ok env n err w u w' :
  alone env -> codex_free (sessions (w_db w)) -> (forall v, err <> inr v) \/ n <> O ->
  revoke_attempts n err env w = (inr u, w') -> no_codex (w_db w').
Proof.
  intros Ha. revert err w. induction n as [|n IH]; intros err w Hs Herr Hrun; simpl in Hrun.
  - destruct err as [e|v]; [done|]. destruct Herr as [Herr|]; [by destruct (Herr v)|done].
  - apply bind_inr_inv in Hrun as (t & w0 & Hnow & Hrun). apply now_inr_inv in Hnow as (_ & Hd & _).
    apply bind_inr_inv in Hrun as (r0 & w1 & Hrun1 & Hrun). apply attempt_inv in Hrun1. unfold RevokeHumanBrowserSessionsByMethod in Hrun1.
    destruct r0 as [e|[]].
    + eapply (IH (inl e)); [|by left|exact Hrun].
      assert (w_db w1 = w_db w0) as ->; [|by rewrite Hd]. unfold raw, bind, mapE, autocommit, exec in Hrun1. rewrite Ha in Hrun1.
      destruct (tk_fault _); [by simplify_eq/=|]. by unfold update_browser in Hrun1.
    + m_inv. unfold raw, autocommit in Hrun0. m_inv. simpl in *. rewrite Ha in *. eapply revoked_all; [eassumption|by rewrite Hd].
Qed.

Lemma codex_free_not_codex m : codex_free (not_codex m).
Proof. by intros k s [_ Hm]%map_lookup_filter_Some. Qed.

Lemma revokeCodexSessions_ok env w u w' : alone env -> revokeCodexSessions a env w = (inr u, w') -> no_codex (w_db w').
Proof.
  intros Ha Hrun. unfold revokeCodexSessions in Hrun. apply bind_inr_inv in Hrun as (x & w1 & Hl & Hrun). unfold locked in Hl. injection Hl as _ <-.
  destruct (au_store a) eqn:Hst.
  - refine (revoke_attempts_ok env 3 (inr tt) _ _ _ Ha _ (or_intror _) Hrun); [apply codex_free_not_codex|done].
  - m_inv. split; [apply codex_free_not_codex|congruence].
Qed.

(** Run alone, the revocation leaves the latch set or no live Codex session,
    whatever failed. *)
Lemma revocation_closes {E} env w u w' :
  alone env -> revokeCodexSessionsAfterAccountUpdate (E := E) a env w = (inr u, w') -> h_failed (w_db w') = true \/ no_codex (w_db w').
Proof.
  intros Ha. unfold revokeCodexSessionsAfterAccountUpdate. intros Hrun.
  apply bind_inr_inv in Hrun as (p & w1 & Hp & Hrun). apply bind_inr_inv in Hrun as (rv & w2 & Hrv & Hrun).
  apply bind_inr_inv in Hrun as (p' & w3 & Hp' & Hrun). apply attempt_inv in Hrv.
  destruct (negb (failed_ p') && negb (failed_ rv)) eqn:Hok.
  - assert (exists v, rv = inr v) as [v ->] by (destruct rv; [by rewrite andb_false_r in Hok|eauto]).
    apply revokeCodexSessions_ok in Hrv; [|done].
    assert (no_codex (w_db w3)) as H3.
    { rewrite andb_false_r in Hp'. by m_inv. }
    apply bind_inr_inv in Hrun as (c & w4 & Hc & Hrun). apply attempt_inv in Hc.
    destruct (nc_setPending env false (alone_stable _ _ Ha) _ _ _ H3 Hc) as [H4 _].
    destruct c; unfold locked in Hrun; simplify_eq/=; [by left|right]. rewrite Ha. exact H4.
  - unfold locked in Hrun. simplify_eq/=. by left.
Qed.

(** Other goroutines, after a revocation, neither log in with Codex nor clear
    the latch. *)
Definition others_respect (env : Env HDB) : Prop := stable no_codex env /\ stable (fun d => h_failed d = true) env.

Lemma latched_authenticate {E} env cookie :
  stable (fun d => h_failed d = true) env ->
  holds env (fun d => h_failed d = true) (authenticateHuman (E := E) a cookie) (fun p => forall x, p = Some x -> ap_authMethod x <> "codex"%string).
Proof.
  intros Hst w r w' Hw Hrun. split.
  { eapply (guarantees_inv keeps_latch); [apply latch_authenticate|..]; [|exact Hst|exact Hrun|exact Hw]. intros d d' ->. done. }
  destruct r as [e|[p|]]; [done| |done]. intros x [= ->]. unfold authenticateHuman in Hrun. destruct cookie as [token|]; [|by m_inv].
  apply bind_inr_inv in Hrun as (s & w1 & Hl & Hrun).
  assert (h_failed (w_db w1) = true) as H1.
  { eapply (guarantees_inv keeps_latch); [apply latch_lookup|..]; [|exact Hst|exact Hl|exact Hw]. intros d d' ->. done. }
  destruct s as [s|]; [|by m_inv]. apply bind_inr_inv in Hrun as (refused & w2 & Href & Hrun).
  destruct refused; [by m_inv|]. m_inv. simpl. destruct (seqb (hs_authMethod s) "codex") eqn:Hc; [|by apply seqb_false].
  apply bind_inr_inv in Href as (f & w3 & Hf & Href). unfold locked in Hf. injection Hf as <- <-.
  rewrite (Hst (w_tick w1) _ H1) in Href. by m_inv.
Qed.

(** C38: a change of the Codex account fails closed.  Whatever fails while the
    revocation runs, if no other request runs at the same time, afterwards no
    request is authenticated by a Codex session, at any later point and
    whatever requests, recovery logins, logouts and refreshes ran in between,
    until there is a new Codex login: other goroutines keep
    [others_respect], that is, they neither make a Codex session live nor clear
    the latch. *)
Theorem revocation_fails_closed {E} env w u w' qs env2 n cookie r w2 :
  alone env -> revokeCodexSessionsAfterAccountUpdate (E := E) a env w = (inr u, w') ->
  others_respect env2 ->
  authenticateHuman (E := E) a cookie env2 (run_all (run_request <$> qs) env2 (mkWorld (w_db w') n)).2 = (r, w2) ->
  forall p, r = inr (Some p) -> ap_authMethod p <> "codex"%string.
Proof.
  intros Ha Hrun [Hnc Hlatch] Hauth p ->.
  destruct (run_all (run_request <$> qs) env2 (mkWorld (w_db w') n)) as [o v] eqn:Hqs. simpl in Hauth.
  destruct (revocation_closes _ _ _ _ Ha Hrun) as [Hf|Hn].
  - assert (holds env2 (fun d => h_failed d = true) (run_all (run_request <$> qs)) (fun _ => True)) as Hkeep.
    { apply holds_run_all. intros op (q & -> & _)%list_elem_of_fmap. intros v0 r v1 Hv Hr. split; [|by destruct r].
      eapply (guarantees_inv keeps_latch); [apply latch_request|..]; [|exact Hlatch|exact Hr|exact Hv]. intros d d' ->. done. }
    destruct (Hkeep (mkWorld (w_db w') n) _ _ Hf Hqs) as [Hv _].
    by destruct (latched_authenticate env2 cookie Hlatch _ _ _ Hv Hauth) as [_ ?]; eauto.
  - assert (holds env2 no_codex (run_all (run_request <$> qs)) (fun _ => True)) as Hkeep.
    { apply holds_run_all. intros op (q & -> & _)%list_elem_of_fmap. by apply nc_request. }
    destruct (Hkeep (mkWorld (w_db w') n) _ _ Hn Hqs) as [Hv _].
    by destruct (nc_authenticate env2 Hnc cookie _ _ _ Hv Hauth) as [_ ?]; eauto.
Qed.

(** ** The login limit *)

(** A login that does not give the secret, between its two critical sections:
    it arrives, it has passed [rateLimited], or it has its reply.  [decodes]
    says whether it carries a secret at all. *)
Inductive guess := Arrives (decodes : bool) | Passed (decodes : bool) | Replied (r : LoginReply).

(** A critical section at the time [t]. *)
Definition section_at {A} (m : M HDB Err A) (t : Z) (d : HDB) : (Err + A) * HDB :=
  let '(r, w) := m (fun _ => mkTick None false t "" id) (mkWorld d 0) in (r, w_db w).

Definition guess_step (t : Z) (p : guess) (d : HDB) : guess * HDB :=
  match p with
  | Arrives decodes =>
      match section_at rateLimited t d with
      | (inr (true, retry), d) => (Replied (RateLimited ((retry + second - 1) / second)), d)
      | (_, d) => (Passed decodes, d)
      end
  | Passed true => (Replied Unauthorized, (section_at recordFailure t d).2)
  | Passed false => (Replied BadBody, d)
  | Replied r => (Replied r, d)
  end.

(** [login] without the secret is these sections, with whatever other
    goroutines do before each. *)
Lemma login_sections env c body w :
  au_recoveryEnabled a = true -> au_secretDigest a <> zeroDigest -> (forall s, body = Some s -> verifySecret a s = false) ->
  login (E := Err) a c true body env w =
  let decodes := bool_decide (is_Some body) in
  let t1 := env (w_tick w) in
  let '(p, d) := guess_step (tk_now t1) (Arrives decodes) (tk_others t1 (w_db w)) in
  match p with
  | Replied r => (inr r, mkWorld d (S (w_tick w)))
  | _ =>
      if decodes then
        let t2 := env (S (w_tick w)) in
        let '(_, d) := guess_step (tk_now t2) (Passed true) (tk_others t2 d) in (inr Unauthorized, mkWorld d (S (S (w_tick w))))
      else (inr BadBody, mkWorld d (S (w_tick w)))
  end.
Proof.
  intros Hr Hd Hb. unfold login. rewrite Hr, (proj2 (seqb_false _ _) Hd). cbn [negb orb]. cbv zeta.
  unfold guess_step, section_at, rateLimited, recordFailure, locked, bind. cbv beta zeta. cbn [tk_now tk_others tk_fault w_db w_tick id].
  destruct (recent _ _) as [|x k]; [|destruct (_ <? 5)]; cbn [fst snd]; try reflexivity.
  all: destruct body as [s|]; [|done]; rewrite (Hb s eq_refl), orb_true_r; done.
Qed.

(** *** Many at once *)

Record guesses := { at_db : HDB; at_list : list guess }.

Definition running (p : guess) : bool := match p with Replied _ => false | _ => true end.
Definition guessed (p : guess) : bool := match p with Replied Unauthorized => true | _ => false end.

(** Logins without the secret, of which at most [K] run at a time, in the
    minute that starts at [T]; other requests leave the failures alone. *)
Inductive guesses_step (K : nat) (T : Z) : guesses -> guesses -> Prop :=
  | at_arrive d l decodes : (count running l < K)%nat ->
      guesses_step K T {| at_db := d; at_list := l |} {| at_db := d; at_list := l ++ [Arrives decodes] |}
  | at_advance d l i p t p' d' : l !! i = Some p -> T <= t < T + minute -> guess_step t p d = (p', d') ->
      guesses_step K T {| at_db := d; at_list := l |} {| at_db := d'; at_list := <[i := p']> l |}
  | at_other d l d' : failures d' = failures d ->
      guesses_step K T {| at_db := d; at_list := l |} {| at_db := d'; at_list := l |}.

(** The failures on record end with those of this minute, up to five. *)
Definition recorded (T : Z) (n : nat) (l : list Z) : Prop :=
  exists old new, l = old ++ new /\ Forall (fun f => T <= f) new /\ length new = Nat.min n 5.

Lemma recorded_recent T t n l : t < T + minute -> recorded T n l ->
  recorded T n (recent t l) /\ ((length (recent t l) < 5)%nat -> (n < 5)%nat).
Proof.
  intros Ht (old & new & -> & Hnew & Hlen). unfold recent. rewrite filter_app.
  assert (filter (fun f => t - minute < f) new = new) as ->.
  { clear Hlen. induction Hnew as [|f new Hf _ IH]; [done|]. rewrite filter_cons_True by lia. by rewrite IH. }
  split.
  - eexists _, new. done.
  - rewrite length_app. lia.
Qed.

Lemma recorded_failure T t n l : T <= t -> recorded T n l -> recorded T (S n) (last_five (l ++ [t])).
Proof.
  intros Ht (old & new & -> & Hnew & Hlen). unfold last_five.
  assert (Forall (fun f => T <= f) (new ++ [t])) as Hall by (apply Forall_app; auto).
  destruct (Z.ltb_spec 5 (Z.of_nat (length ((old ++ new) ++ [t])))) as [H5|H5]; rewrite <-(assoc_L (++)); rewrite !length_app in *; simpl in H5.
  - destruct (decide (length new = 5)%nat) as [E|E].
    + exists [], (drop 1 (new ++ [t])). simpl. split_and!; [|by apply Forall_drop|rewrite length_drop, length_app; simpl; lia].
      rewrite drop_app_ge by lia. f_equal. lia.
    + exists (drop (length old + length new + 1 - 5) old), (new ++ [t]). split_and!; [|done|rewrite length_app; simpl; lia].
      rewrite drop_app_le by (simpl; lia). f_equal. f_equal. simpl. lia.
  - exists old, (new ++ [t]). split_and!; [done..|]. rewrite length_app. simpl. lia.
Qed.

Definition passed (p : guess) : bool := match p with Passed _ => true | _ => false end.

Record guesses_inv (K : nat) (T : Z) (s : guesses) : Prop := {
  ai_running : (count running (at_list s) <= K)%nat;
  ai_recorded : recorded T (count guessed (at_list s)) (failures (at_db s));
  ai_bound : (count guessed (at_list s) + count passed (at_list s) <= 4 + K)%nat }.

Lemma passed_running l : (count passed l <= count running l)%nat.
Proof. induction l as [|[| |] l IH]; simpl; lia. Qed.

(** One section of one attempt. *)
Lemma guess_step_inv K T t d l i p p' d' :
  T <= t < T + minute -> l !! i = Some p -> guess_step t p d = (p', d') ->
  guesses_inv K T {| at_db := d; at_list := l |} -> guesses_inv K T {| at_db := d'; at_list := <[i := p']> l |}.
Proof.
  intros Ht Hi Hstep [Hr Hrec Hb]. simpl in *.
  pose proof (count_list_insert running l i p p' Hi) as C1. pose proof (count_list_insert guessed l i p p' Hi) as C2.
  pose proof (count_list_insert passed l i p p' Hi) as C3. pose proof (passed_running (<[i := p']> l)) as Hle.
  destruct p as [b|[]|r]; simpl in Hstep.
  - unfold section_at, rateLimited, locked in Hstep. cbv beta zeta in Hstep. cbn [tk_now tk_others tk_fault w_db w_tick id] in Hstep.
    destruct (recorded_recent T t _ _ (proj2 Ht) Hrec) as [Hrec' H5].
    destruct (recent t (failures d)) as [|x k] eqn:Er; [|destruct (Z.ltb_spec (Z.of_nat (length (x :: k))) 5) as [Hlt|Hge]].
    + injection Hstep as <- <-. simpl in *. specialize (H5 ltac:(lia)). split; simpl; [lia| |lia].
      replace (count guessed (<[i:=Passed b]> l)) with (count guessed l) by lia. exact Hrec'.
    + injection Hstep as <- <-. simpl in *. specialize (H5 ltac:(lia)). split; simpl; [lia| |lia].
      replace (count guessed (<[i:=Passed b]> l)) with (count guessed l) by lia. exact Hrec'.
    + injection Hstep as <- <-. simpl in *. split; simpl; [lia| |lia].
      match goal with |- recorded T (count guessed ?l') _ => replace (count guessed l') with (count guessed l) by lia end. exact Hrec'.
  - injection Hstep as <- <-. simpl in *. split; simpl; [lia| |lia].
    replace (count guessed (<[i:=Replied Unauthorized]> l)) with (S (count guessed l)) by lia. unfold section_at, recordFailure, locked; simpl; apply recorded_failure; [lia|done].
  - injection Hstep as <- <-. simpl in *. split; simpl; [lia| |lia].
    by replace (count guessed (<[i:=Replied BadBody]> l)) with (count guessed l) by lia.
  - injection Hstep as <- <-. rewrite list_insert_id by done. by split.
Qed.

Lemma running_only l : Forall (fun p => running p = true) l -> count running l = length l /\ count guessed l = 0%nat.
Proof. induction 1 as [|[| |] l Hp _ IH]; simpl in *; try done; lia. Qed.

Lemma guesses_inv_reach K T d l s :
  Forall (fun p => running p = true) l -> (length l <= K)%nat ->
  rtc (guesses_step K T) {| at_db := d; at_list := l |} s -> guesses_inv K T s.
Proof.
  intros [Hrun Hnone]%running_only Hlen. revert s. apply rtc_ind_r.
  - pose proof (passed_running l). split; simpl; [lia| |lia]. rewrite Hnone. exists (failures d), []. by rewrite app_nil_r.
  - intros x y _ Hstep Hinv. destruct Hstep as [d1 l1 decodes Hc|d1 l1 i p t p' d' Hi Ht Hs|d1 l1 d' Hf].
    + destruct Hinv as [Hr Hrec Hb]. split; simpl in *; rewrite !count_app; simpl; [lia|by rewrite Nat.add_0_r|lia].
    + by eapply guess_step_inv.
    + destruct Hinv as [Hr Hrec Hb]. split; simpl in *; [done|by rewrite Hf|done].
Qed.

(** C39: the limit on guesses of the recovery secret.  The logins that do not
    give the secret are two critical sections each, the check of the limit and
    the record of the failure, with any work of other goroutines before each;
    and when at most [K] of them run at a time, in any interleaving and in any
    minute in which no login succeeds, at most [4 + K] of them get as far as to
    learn that their secret is wrong: five when they come one at a time.  [l] are
    those that are already running when the minute starts. *)
Theorem wrong_logins_bounded K T d l s :
  (forall env c body w, au_recoveryEnabled a = true -> au_secretDigest a <> zeroDigest ->
     (forall s, body = Some s -> verifySecret a s = false) ->
     login (E := Err) a c true body env w =
     let decodes := bool_decide (is_Some body) in
     let t1 := env (w_tick w) in
     let '(p, d) := guess_step (tk_now t1) (Arrives decodes) (tk_others t1 (w_db w)) in
     match p with
     | Replied r => (inr r, mkWorld d (S (w_tick w)))
     | _ =>
         if decodes then
           let t2 := env (S (w_tick w)) in
           let '(_, d) := guess_step (tk_now t2) (Passed true) (tk_others t2 d) in (inr Unauthorized, mkWorld d (S (S (w_tick w))))
         else (inr BadBody, mkWorld d (S (w_tick w)))
     end) /\
  (Forall (fun p => running p = true) l -> (length l <= K)%nat ->
   rtc (guesses_step K T) {| at_db := d; at_list := l |} s -> (count guessed (at_list s) <= 4 + K)%nat).
Proof.
  split; [intros; by apply login_sections|]. intros Hl HK Hs. destruct (guesses_inv_reach _ _ _ _ _ Hl HK Hs). lia.
Qed.
End Requests.

(** ** Stored sessions *)

Definition bounded_sessions (d : HDB) : Prop := forall p, (length (sessions_of p d) <= 8)%nat.

(** One step keeps the bound. *)
Definition bound_step : relation HDB := fun d d' => bounded_sessions d -> bounded_sessions d'.

#[local] Instance bound_step_refl : Reflexive bound_step.
Proof. by intros d Hd. Qed.
#[local] Instance bound_step_trans : Transitive bound_step.
Proof. intros d1 d2 d3 H1 H2 Hd. auto. Qed.

Lemma sessions_of_NoDup p d : NoDup (sessions_of p d).
Proof. apply NoDup_filter, NoDup_map_to_list. Qed.

Lemma elem_of_sessions p d e : e ∈ sessions_of p d <-> bs_principal e.2 = p /\ h_browser d !! e.1 = Some e.2.
Proof. unfold sessions_of. rewrite list_elem_of_filter. destruct e as [k r]. by rewrite elem_of_map_to_list. Qed.

Lemma sessions_of_filter P `{!forall x, Decision (P x)} p d :
  sessions_of p (set_browser (filter P (h_browser d)) d) ≡ₚ filter P (sessions_of p d).
Proof.
  apply NoDup_Permutation; [apply sessions_of_NoDup|apply NoDup_filter, sessions_of_NoDup|].
  intros [k r]. rewrite list_elem_of_filter, !elem_of_sessions. simpl. rewrite map_lookup_filter_Some. naive_solver.
Qed.

Lemma overflow_filter (l s : list (string * browser_row)) :
  l ≡ₚ s -> (length (filter (fun e => e.1 ∉ (drop 8 s).*1) l) <= 8)%nat.
Proof.
  intros Hl. rewrite (Permutation_length (filter_Permutation _ _ _ Hl)).
  assert (filter (fun e => e.1 ∉ (drop 8 s).*1) (drop 8 s) = []) as Hdrop.
  { destruct (filter _ (drop 8 s)) as [|x l'] eqn:E; [done|]. assert (x ∈ x :: l') as Hx by left. rewrite <-E in Hx.
    apply list_elem_of_filter in Hx as [Hn Hx]. destruct Hn. apply list_elem_of_fmap. by exists x. }
  assert (filter (fun e => e.1 ∉ (drop 8 s).*1) s = filter (fun e => e.1 ∉ (drop 8 s).*1) (take 8 s) ++ filter (fun e => e.1 ∉ (drop 8 s).*1) (drop 8 s)) as ->.
  { by rewrite <-filter_app, take_drop. }
  rewrite Hdrop, length_app. simpl. rewrite Nat.add_0_r. etrans; [apply length_filter|]. rewrite length_take. lia.
Qed.

Lemma delete_overflowing_bounds p d : (length (sessions_of p (set_browser (filter (fun e => e.1 ∉ overflowing p d) (h_browser d)) d)) <= 8)%nat.
Proof. rewrite sessions_of_filter. apply overflow_filter. symmetry. apply merge_sort_Permutation. Qed.

Lemma delete_overflowing_others p q d :
  (length (sessions_of q (set_browser (filter (fun e => e.1 ∉ overflowing p d) (h_browser d)) d)) <= length (sessions_of q d))%nat.
Proof. rewrite sessions_of_filter. apply length_filter. Qed.

Lemma sessions_of_insert p k r d :
  h_browser d !! k = None ->
  sessions_of p (set_browser (<[k:=r]> (h_browser d)) d) ≡ₚ (if decide (bs_principal r = p) then [(k, r)] else []) ++ sessions_of p d.
Proof.
  intros Hk. unfold sessions_of. simpl. rewrite map_to_list_insert by done. rewrite filter_cons. simpl. by case_decide.
Qed.

Lemma sessions_of_imap p f d :
  (forall k r, bs_principal (f k r) = bs_principal r) ->
  length (sessions_of p (set_browser (map_imap (fun k r => Some (f k r)) (h_browser d)) d)) = length (sessions_of p d).
Proof.
  intros Hf. rewrite <-(length_fmap fst), <-(length_fmap fst (sessions_of p d)). apply Permutation_length, NoDup_Permutation.
  1,2: apply (NoDup_fmap_fst); [|apply sessions_of_NoDup];
    intros k r1 r2 [_ H1]%elem_of_sessions [_ H2]%elem_of_sessions; simpl in *; congruence.
  intros k. rewrite !list_elem_of_fmap. split; intros ([k' r] & -> & [Hp Hr]%elem_of_sessions); simpl in *.
  - rewrite map_lookup_imap in Hr. destruct (h_browser d !! k') as [r0|] eqn:H0; simplify_eq/=.
    exists (k', r0). split; [done|]. apply elem_of_sessions. by rewrite Hf.
  - exists (k', f k' r). split; [done|]. apply elem_of_sessions. simpl. rewrite Hf, map_lookup_imap, Hr. done.
Qed.

Lemma bound_save v : guarantees bound_step (SaveHumanBrowserSession v).
Proof.
  apply guarantees_bind; [auto with guar|intros _]. apply guarantees_runTx. intros d env w out w1 <- Hrun. m_inv.
  match goal with H0 : insert_browser _ _ _ = _ |- _ => apply hcheck_inv in H0 as [Hnew%absent_inv Hins] end.
  match goal with H0 : delete_stale _ _ = _ |- _ => unfold delete_stale in H0; injection H0 as _ Hstale end.
  match goal with H0 : delete_overflowing _ _ = _ |- _ => unfold delete_overflowing in H0; injection H0 as _ Hover end.
  intros Hb q. rewrite <-Hover. destruct (decide (q = bv_Principal v)) as [->|Hq]; [apply delete_overflowing_bounds|].
  etrans; [apply delete_overflowing_others|]. rewrite Hins, sessions_of_insert by done. simpl.
  rewrite decide_False by congruence. simpl. rewrite <-Hstale, sessions_of_filter. etrans; [apply length_filter|apply Hb].
Qed.

Lemma bound_frame d d' : h_browser d' = h_browser d -> bound_step d d'.
Proof. intros Heq Hb p. unfold sessions_of. rewrite Heq. apply Hb. Qed.

Lemma bound_update cond f : (forall r, bs_principal (f r) = bs_principal r) -> guarantees bound_step (raw (update_browser cond f)).
Proof.
  intros Hf. apply guarantees_mapE, guarantees_autocommit. intros d n d' [= _ <-]. right. intros Hb p.
  rewrite (sessions_of_imap p (fun k r => if cond k r && bool_decide (bs_revoked r = None) then f r else r)); [apply Hb|].
  intros k r. by case_match.
Qed.

Section BoundedRuns.
Context `{Sha256}.

Definition keeps_browser : relation HDB := fun d d' => h_browser d' = h_browser d.
#[local] Instance keeps_browser_refl : Reflexive keeps_browser.
Proof. by intros d. Qed.
#[local] Instance keeps_browser_trans : Transitive keeps_browser.
Proof. unfold keeps_browser. congruence. Qed.

Lemma browser_get d : takes keeps_browser d getHumanBindingTx.
Proof. intros env w r w1 <- Hrun%getHumanBindingTx_inv. destruct Hrun as [Heq _]. unfold keeps_browser. by rewrite Heq. Qed.

Lemma browser_stmt {A} d (st : Stmt HDB A) g :
  (forall d a d', st d = inr (a, d') -> h_browser d' = h_browser d) -> takes keeps_browser d (mapE g (exec st)).
Proof. intros Hst. apply sf_exec. intros a d1. apply Hst. Qed.

Ltac browser_walk :=
  repeat first
    [ progress intros
    | refine (sf_bind _ _ _ _ _ _); [|intros ? ? ?]
    | apply browser_get | exact (sf_ret _ _ _) | exact (sf_throw _ _ _)
    | apply sf_exec; intros; unfold keeps_browser
    | match goal with
      | H0 : insert_auth_event _ _ _ = _ |- _ => apply insert_auth_event_inv in H0 as (_ & _ & ->); done
      | H0 : insert_binding _ _ _ = _ |- _ => apply hcheck_inv in H0 as [_ ->]; done
      | H0 : update_binding _ _ _ _ = _ |- _ => apply update_binding_inv in H0 as [[_ ->]|(? & _ & _ & _ & ->)]; done
      | |- takes _ _ (require ?b _) => destruct b; [exact (sf_ret _ _ _)|exact (sf_throw _ _ _)]
      | |- takes _ _ now => intros ? ? ? ? <- [= _ <-]; done
      | |- takes _ _ (newID _) => intros ? ? ? ? <- [= _ <-]; done
      | |- takes _ _ (attempt (exec (query _))) => let Hq := fresh in intros ? ? ? ? <- Hq; apply attempt_query_inv in Hq as [-> _]; done
      end
    | case_match ].

Lemma browser_Get : guarantees keeps_browser GetHumanAccountBinding.
Proof.
  apply guarantees_bind; [apply guarantees_attempt, guarantees_autocommit_query|]. intros row. unfold lift. case_match; auto with guar.
Qed.

Lemma browser_Bind r : guarantees keeps_browser (BindHumanAccount r).
Proof.
  apply guarantees_bind; [auto with guar|intros _]. apply guarantees_bind; [|intros [?|]; [auto with guar|apply browser_Get]].
  apply guarantees_mapE, guarantees_runTx. intros d. unfold bindTx, mapped. browser_walk.
Qed.

Lemma browser_Update r : guarantees keeps_browser (UpdateHumanProfile r).
Proof.
  apply guarantees_bind; [auto with guar|intros _]. apply guarantees_bind; [|intros [?|]; [auto with guar|apply browser_Get]].
  apply guarantees_mapE, guarantees_runTx. intros d. unfold profileTx, profile_update, mapped. browser_walk.
Qed.

Lemma browser_Record r : guarantees keeps_browser (RecordHumanAuthEvent r).
Proof.
  apply guarantees_bind; [auto with guar|intros _]. apply guarantees_bind; [apply guarantees_direct_query|]. intros n.
  case_match; [auto with guar|]. apply guarantees_bind; [auto with guar|intros id]. apply guarantees_bind; [auto with guar|intros t].
  apply guarantees_direct. intros d a d' (_ & _ & ->)%insert_auth_event_inv. done.
Qed.

Lemma bound_run_human op : guarantees bound_step (run_human op).
Proof.
  assert (forall A (m : M HDB Err A), guarantees keeps_browser m -> guarantees bound_step m) as Hk.
  { intros A m. apply guarantees_mono. apply bound_frame. }
  destruct op; simpl.
  - apply guarantees_bind; [apply Hk, browser_Get|auto with guar].
  - apply guarantees_bind; [apply Hk, browser_Bind|auto with guar].
  - apply guarantees_bind; [apply Hk, browser_Update|auto with guar].
  - apply Hk, browser_Record.
  - apply bound_save.
  - apply guarantees_bind; [by apply bound_update|auto with guar].
  - apply guarantees_bind; [by apply bound_update|auto with guar].
  - apply guarantees_bind; [by apply bound_update|auto with guar].
  - apply guarantees_bind; [auto with guar|intros _]. apply guarantees_bind; [by apply bound_update|auto with guar].
  - apply guarantees_bind; [|auto with guar]. apply guarantees_mapE, guarantees_autocommit. intros d x d' Hrun. right.
    apply bound_frame. destruct (h_pending d); by simplify_eq/=.
Qed.

(** Whatever runs, the store keeps at most eight browser sessions per
    principal. *)
Theorem stored_sessions_bounded ops env d p :
  h_browser d = ∅ -> (forall n x, bound_step x (tk_others (env n) x)) ->
  (length (sessions_of p (human_after ops env d)) <= 8)%nat.
Proof.
  intros Hd Hoth.
  assert (bound_step d (human_after ops env d)) as Hstep.
  { apply (run_all_step bound_step _ env (mkWorld d 0)); [|done]. intros op (o & -> & _)%list_elem_of_fmap. apply bound_run_human. }
  apply Hstep. intros q. unfold sessions_of. rewrite Hd, map_to_list_empty. simpl. lia.
Qed.
End BoundedRuns.

(** ** Two interleavings

    Requests of one browser that run at the same time: one process, a session
    store, and a session created by a login. *)
Module RaceDemo.
#[local] Existing Instance HumanDemo.sum.
Definition conf : humanAuth :=
  {| au_secretDigest := sha256_Sum256 "letmein"; au_principalID := HumanLocalPrincipal; au_actor := "human"; au_session := "s";
     au_host := "h"; au_ttl := 12 * hour; au_recoveryEnabled := true; au_codexEnabled := true; au_store := true |}.
Definition calm : Env HDB := HumanDemo.calm.
(** the world in which the call at [n] is preceded by another goroutine's work *)
Definition racing (n : nat) (other : HDB -> HDB) : Env HDB := fun k =>
  if decide (k = n) then mkTick None false (tk_now (calm k)) (tk_id (calm k)) other else calm k.
Definition after_ {A} (m : M HDB Err A) (d : HDB) : HDB := w_db (m calm (mkWorld d 0)).2.
Definition answer {A} (m : M HDB Err A) (d : HDB) : option A := match (m calm (mkWorld d 0)).1 with inr x => Some x | inl _ => None end.

Definition token : string := tk_id (calm 0%nat).
Definition logged_in (method : string) : HDB := after_ (create conf method 1) HumanDemo.db0.
Definition request : M HDB Err (option authPrincipal) := authenticateHuman conf (Some token).

(** A revocation, with another request of the browser between the purge of the
    sessions in memory and the update of the store. *)
Definition revoked : HDB :=
  w_db (revokeCodexSessionsAfterAccountUpdate (E := Err) conf (racing 3 (after_ request)) (mkWorld (logged_in "codex") 0)).2.

(** A refresh of the session page, with the logout of the same browser before
    its last step. *)
Definition refreshed : HDB :=
  w_db (rotateCSRF (E := Err) conf token (racing 4 (after_ (remove conf token))) (mkWorld (logged_in "recovery") 0)).2.
End RaceDemo.
#[local] Existing Instance HumanDemo.sum.

Definition method_of (p : option (option authPrincipal)) : option string :=
  match p with Some (Some p) => Some (ap_authMethod p) | _ => None end.

(** A Codex session can survive its revocation.  The revocation succeeds,
    the latch is clear and the session is revoked in the store, yet a request
    that ran between its two steps put the session back into memory, where it
    goes on authenticating. *)
Theorem revocation_race :
  h_failed RaceDemo.revoked = false /\ h_pending RaceDemo.revoked = Some false /\
  map_Forall (fun _ r => bs_revoked r <> None) (h_browser RaceDemo.revoked) /\
  method_of (RaceDemo.answer RaceDemo.request RaceDemo.revoked) = Some "codex"%string.
Proof. split_and!; first [vm_compute; reflexivity|apply (bool_decide_unpack _); vm_compute; exact I]. Qed.

(** So can a session survive its logout, when a refresh of its CSRF token
    runs at the same time. *)
Theorem logout_race :
  RaceDemo.answer (remove RaceDemo.conf RaceDemo.token) (RaceDemo.logged_in "recovery") = Some tt /\
  map_Forall (fun _ r => bs_revoked r <> None) (h_browser RaceDemo.refreshed) /\
  method_of (RaceDemo.answer RaceDemo.request RaceDemo.refreshed) = Some "recovery"%string.
Proof. split_and!; first [vm_compute; reflexivity|apply (bool_decide_unpack _); vm_compute; exact I]. Qed.

(** ** Concrete runs *)

Lemma calm_alone : alone RaceDemo.calm.
Proof. by intros n d. Qed.

Lemma revocation_fails_closed_witness : exists w r w2,
  revokeCodexSessionsAfterAccountUpdate (E := Err) RaceDemo.conf RaceDemo.calm (mkWorld (RaceDemo.logged_in "codex") 0) = (inr tt, w) /\
  RaceDemo.request RaceDemo.calm (mkWorld (w_db w) 0) = (r, w2) /\ (forall p, r = inr (Some p) -> ap_authMethod p <> "codex"%string).
Proof.
  destruct (revokeCodexSessionsAfterAccountUpdate (E := Err) RaceDemo.conf RaceDemo.calm (mkWorld (RaceDemo.logged_in "codex") 0))
    as [[e|[]] w] eqn:E; [exfalso; vm_compute in E; discriminate E|].
  destruct (RaceDemo.request RaceDemo.calm (mkWorld (w_db w) 0)) as [r w2] eqn:Er.
  exists w, r, w2. split; [reflexivity|]. split; [exact Er|].
  apply (revocation_fails_closed (E := Err) RaceDemo.conf RaceDemo.calm (mkWorld (RaceDemo.logged_in "codex") 0) tt w [] RaceDemo.calm 0
    (Some RaceDemo.token) r w2 calm_alone E).
  - split; apply alone_stable, calm_alone.
  - exact Er.
Defined.

(** Runs of guesses, as moves. *)
Definition guess_at (t : Z) (s : guesses) (i : nat) : guesses :=
  match at_list s !! i with
  | Some p => let '(p', d') := guess_step t p (at_db s) in {| at_db := d'; at_list := <[i := p']> (at_list s) |}
  | None => s
  end.
Definition arrive (s : guesses) : guesses := {| at_db := at_db s; at_list := at_list s ++ [Arrives true] |}.

Inductive guess_move := Arrive | Advance (i : nat).
Definition guess_move_at (K : nat) (s : guesses) (m : guess_move) : guesses :=
  match m with
  | Arrive => if decide (count running (at_list s) < K)%nat then arrive s else s
  | Advance i => guess_at 0 s i
  end.

Lemma guess_moves_reach K ms s : rtc (guesses_step K 0) s (fold_left (guess_move_at K) ms s).
Proof.
  revert s. induction ms as [|m ms IH]; intros s; [done|]. etrans; [|apply IH]. destruct s as [d l], m as [|i]; simpl.
  - case_decide; [|done]. apply rtc_once. by constructor.
  - unfold guess_at. simpl. destruct (l !! i) as [p|] eqn:Hi; [|done]. destruct (guess_step 0 p d) as [p' d'] eqn:Hs.
    apply rtc_once. econstructor; [done| |exact Hs]. unfold minute, second. lia.
Qed.

(** Four guesses one after the other, then [K] that all pass the limit before
    the first of them records its failure. *)
Definition burst (K : nat) : guesses :=
  let one i := [Arrive; Advance i; Advance i] in
  fold_left (guess_move_at K)
    (concat (one <$> seq 0 4) ++ replicate K Arrive ++ (Advance <$> seq 4 K) ++ (Advance <$> seq 4 K))
    {| at_db := HumanDemo.db0; at_list := [] |}.

(** The bound is reached: twenty logins at once make twenty-four guesses in a
    minute, although the limit is five. *)
Theorem limit_overrun : rtc (guesses_step 20 0) {| at_db := HumanDemo.db0; at_list := [] |} (burst 20) /\
  count guessed (at_list (burst 20)) = 24%nat.
Proof. split; [apply guess_moves_reach|vm_compute; reflexivity]. Qed.

Lemma wrong_logins_bounded_witness : count guessed (at_list (burst 1)) = 5%nat /\ (count guessed (at_list (burst 1)) <= 5)%nat.
Proof.
  split; [vm_compute; reflexivity|].
  apply (proj2 (wrong_logins_bounded RaceDemo.conf 1 0 HumanDemo.db0 [] (burst 1))); [constructor|simpl; lia|apply guess_moves_reach].
Defined.

Lemma stored_sessions_bounded_witness :
  (length (sessions_of HumanLocalPrincipal (human_after [OpSetPending true] RaceDemo.calm HumanDemo.db0)) <= 8)%nat.
Proof.
  apply (stored_sessions_bounded [OpSetPending true] RaceDemo.calm HumanDemo.db0 HumanLocalPrincipal); [reflexivity|].
  intros n x. by intros Hb.
Defined.
