(* ===== verification/GithubSync.v ===== *)
(** * GitHub synchronisation

    [internal/githubsync/types.go] and [client.go]: one bounded, read-only
    pass over a repository with conditional requests.  The HTTP client is an
    argument: any response, or an error, may come of any call.  So is the JSON
    decoder, one function per type it is used at, which tells besides the
    value whether anything follows it. *)

From Stdlib Require Import ZArith Lia Ascii.
From stdpp Require Import base gmap strings list sets sorting pretty.
From S2P Require Import Prelude GoText CoreDB OpsFs ArchDB ArchPolicy.

Local Open Scope Z_scope.

(** ** Data *)

Record Validator := { v_ETag : string; v_LastModified : string; v_HasNext : bool }.
Definition noValidator : Validator := {| v_ETag := ""; v_LastModified := ""; v_HasNext := false |}.

Record Request := {
  q_Owner : string; q_Repository : string; q_Validators : gmap string Validator;
  q_ReferencedCommits : list string; q_CheckSHAs : list string }.

Record Receipt := { c_Unchanged : bool; c_Requests : Z; c_NotModified : Z; c_BodyBytes : Z; c_Truncated : bool }.

Record Page (T : Type) := { pg_Key : string; pg_Items : list T }.
Arguments Build_Page {T} _ _.
Arguments pg_Key {T} _.
Arguments pg_Items {T} _.

Record Repository := {
  rp_ID : Z; rp_FullName : string; rp_Description : string; rp_DefaultBranch : string; rp_Private : bool;
  rp_Archived : bool; rp_UpdatedAt : Z; rp_HTMLURL : string }.
Record Issue := {
  is_ID : Z; is_Number : Z; is_Title : string; is_State : string; is_Author : string; is_UpdatedAt : Z; is_HTMLURL : string }.
Record PullRequest := {
  pr_ID : Z; pr_Number : Z; pr_Title : string; pr_State : string; pr_Draft : bool; pr_HeadSHA : string; pr_BaseRef : string;
  pr_UpdatedAt : Z; pr_HTMLURL : string }.
Record CheckRun := {
  ck_ID : Z; ck_Name : string; ck_Status : string; ck_Conclusion : string; ck_StartedAt : Z; ck_CompletedAt : Z; ck_HTMLURL : string }.
Record Commit := {
  cm_SHA : string; cm_Message : string; cm_AuthorName : string; cm_AuthorEmail : string; cm_AuthoredAt : Z; cm_HTMLURL : string }.

Record Result := {
  r_Untrusted : bool; r_Repository : option Repository; r_Issues : list (Page Issue); r_PullRequests : list (Page PullRequest);
  r_Checks : list (Page CheckRun); r_Commits : list (Page Commit); r_Validators : gmap string Validator; r_Receipt : Receipt }.

Definition emptyReceipt : Receipt :=
  {| c_Unchanged := false; c_Requests := 0; c_NotModified := 0; c_BodyBytes := 0; c_Truncated := false |}.
Definition newResult : Result :=
  {| r_Untrusted := true; r_Repository := None; r_Issues := []; r_PullRequests := []; r_Checks := []; r_Commits := [];
     r_Validators := ∅; r_Receipt := emptyReceipt |}.

Inductive SyncErr :=
  | EInvalid | ETooLarge | EMalformed | EUnauthorized | ENotFound
  | ERateLimit (Status Remaining Reset RetryAfter : Z)
  | EHTTP (Status : Z) (Path : string)
  | ETransport.

(** ** Wire types *)

Record issueWire := {
  iw_ID : Z; iw_Number : Z; iw_Title : string; iw_State : string; iw_UpdatedAt : Z; iw_HTMLURL : string; iw_Login : string;
  iw_PullRequest : bool (** [PullRequest != nil] *) }.
Definition issue_model (w : issueWire) : Issue :=
  {| is_ID := iw_ID w; is_Number := iw_Number w; is_Title := iw_Title w; is_State := iw_State w; is_Author := iw_Login w;
     is_UpdatedAt := iw_UpdatedAt w; is_HTMLURL := iw_HTMLURL w |}.

Record pullWire := {
  pw_ID : Z; pw_Number : Z; pw_Title : string; pw_State : string; pw_Draft : bool; pw_UpdatedAt : Z; pw_HTMLURL : string;
  pw_HeadSHA : string; pw_BaseRef : string }.
Definition pull_model (w : pullWire) : PullRequest :=
  {| pr_ID := pw_ID w; pr_Number := pw_Number w; pr_Title := pw_Title w; pr_State := pw_State w; pr_Draft := pw_Draft w;
     pr_HeadSHA := pw_HeadSHA w; pr_BaseRef := pw_BaseRef w; pr_UpdatedAt := pw_UpdatedAt w; pr_HTMLURL := pw_HTMLURL w |}.

Record checkWire := {
  cw_ID : Z; cw_Name : string; cw_Status : string; cw_Conclusion : string; cw_StartedAt : Z; cw_CompletedAt : Z; cw_HTMLURL : string }.
Definition check_model (w : checkWire) : CheckRun :=
  {| ck_ID := cw_ID w; ck_Name := cw_Name w; ck_Status := cw_Status w; ck_Conclusion := cw_Conclusion w;
     ck_StartedAt := cw_StartedAt w; ck_CompletedAt := cw_CompletedAt w; ck_HTMLURL := cw_HTMLURL w |}.

Record commitWire := {
  ow_SHA : string; ow_HTMLURL : string; ow_Message : string; ow_AuthorName : string; ow_AuthorEmail : string; ow_AuthoredAt : Z }.
Definition commit_model (w : commitWire) : Commit :=
  {| cm_SHA := ow_SHA w; cm_Message := ow_Message w; cm_AuthorName := ow_AuthorName w; cm_AuthorEmail := ow_AuthorEmail w;
     cm_AuthoredAt := ow_AuthoredAt w; cm_HTMLURL := ow_HTMLURL w |}.

(** [json.Decoder.Decode] at each type: the value, and whether the input ends
    after it. *)
Class GithubJSON := {
  json_repository : string -> option (Repository * bool);
  json_issues : string -> option (list issueWire * bool);
  json_pulls : string -> option (list pullWire * bool);
  json_checks : string -> option (list checkWire * bool);
  json_commit : string -> option (commitWire * bool);
}.

(** ** HTTP *)

Record HttpRequest := {
  hq_Method : string; hq_Path : string; hq_RawQuery : string; hq_UserAgent : string; hq_Authorization : string;
  hq_IfNoneMatch : string; hq_IfModifiedSince : string }.

Record Response := {
  hr_StatusCode : Z; hr_ETag : string; hr_LastModified : string; hr_Remaining : string; hr_Reset : string; hr_RetryAfter : string;
  hr_Body : string; hr_BodyFails : bool (** reading the body fails *) }.

(** [c.http.Do], the HTTP client with the network and the server behind it:
    the outcome of the [n]-th call, a response or an error.  The redirects
    that [http.Client] follows are inside one call, and a call that never
    returns ([http.DefaultClient] has no timeout; the caller's context may
    have one) is not represented: the theorems speak of calls that do. *)
Class Server := http_Do : nat -> HttpRequest -> option Response.

(** ** The client *)

Definition defaultPerPage : Z := 50.
Definition defaultMaxPages : Z := 5.
Definition defaultMaxBodyBytes : Z := Z.shiftl 1 20.
Definition defaultMaxReferences : Z := 100.

Record Client := {
  cl_basePath : string; cl_token : string; cl_userAgent : string; cl_perPage : Z; cl_maxPages : Z; cl_maxBodyBytes : Z;
  cl_maxReferences : Z }.

(** [url.URL], as far as [New] reads it *)
Record URL := { u_Scheme : string; u_Host : string; u_Hostname : string; u_Path : string; u_RawQuery : string; u_Fragment : string }.
Record Config := { g_Token : string; g_UserAgent : string; g_PerPage : Z; g_MaxPages : Z; g_MaxBodyBytes : Z; g_MaxReferences : Z }.

(** [strings.TrimRight(s, "/")] on the reversed path *)
Fixpoint trim_slashes (l : list ascii) : list ascii :=
  match l with a :: l' => if byte a =? 47 then trim_slashes l' else l | [] => [] end.

Definition or_default (x d : Z) : Z := if x =? 0 then d else x.

(** [New], given the parsed [BaseURL] and whether its host name is
    [localhost] or a loopback address *)
Definition New (base : option URL) (loopback : bool) (config : Config) : SyncErr + Client :=
  match base with
  | None => inl EInvalid
  | Some u =>
      if seqb (u_Scheme u) "" || seqb (u_Host u) "" || negb (seqb (u_RawQuery u) "") || negb (seqb (u_Fragment u) "") then inl EInvalid
      else if negb (seqb (u_Scheme u) "https") && negb (seqb (u_Scheme u) "http" && loopback) then inl EInvalid
      else
        let perPage := or_default (g_PerPage config) defaultPerPage in
        let maxPages := or_default (g_MaxPages config) defaultMaxPages in
        let maxBodyBytes := or_default (g_MaxBodyBytes config) defaultMaxBodyBytes in
        let maxReferences := or_default (g_MaxReferences config) defaultMaxReferences in
        if (perPage <? 1) || (100 <? perPage) || (maxPages <? 1) || (20 <? maxPages) || (maxBodyBytes <? 1)
           || (maxReferences <? 1) || (1000 <? maxReferences) then inl EInvalid
        else inr {| cl_basePath := String.string_of_list_ascii (reverse (trim_slashes (reverse (bytes_of (u_Path u)))));
                    cl_token := g_Token config;
                    cl_userAgent := if seqb (g_UserAgent config) "" then "codex-commons-githubsync/1" else g_UserAgent config;
                    cl_perPage := perPage; cl_maxPages := maxPages; cl_maxBodyBytes := maxBodyBytes; cl_maxReferences := maxReferences |}
  end.

Definition name_char (a : ascii) : bool :=
  between 97 122 a || between 65 90 a || between 48 57 a || (byte a =? 45) || (byte a =? 95) || (byte a =? 46).

(** a byte beyond ASCII is part of a rune that no class contains *)
Definition validName (s : string) : bool :=
  negb (seqb s "") && (len s <=? 100) && negb (seqb s ".") && negb (seqb s "..") && all_bytes name_char s.

Definition sha_char (a : ascii) : bool := between 48 57 a || between 97 102 a.

(** [strings.ToLower(strings.TrimSpace(value))] when it is a commit name *)
Definition sha_of (value : string) : option string :=
  let v := String.string_of_list_ascii (ToLower (bytes_of (TrimSpace value))) in
  if (7 <=? len v) && (len v <=? 64) && all_bytes sha_char v then Some v else None.

Definition boundedSHAs (values : list string) (limit : Z) : SyncErr + list string :=
  if limit <? Z.of_nat (length values) then inl EInvalid
  else match mapM sha_of values with
       | Some set => inr (merge_sort sle (remove_dups set))
       | None => inl EInvalid
       end.

(** [strconv.Itoa] of a page number *)
Definition Itoa (n : Z) : string := pretty (Z.to_N n).

Definition collectionPath (c : Client) (path : string) (page : Z) (extra : string) : string :=
  (if seqb extra "" then path +:+ "?" else path +:+ "?" +:+ extra +:+ "&")
  +:+ "per_page=" +:+ Itoa (cl_perPage c) +:+ "&page=" +:+ Itoa page.

(** ** [strconv.Atoi] with its error dropped

    The value, 0 when the text is no number, and the nearest bound when it is
    too large. *)
Fixpoint digits (acc : Z) (l : list ascii) : option Z :=
  match l with
  | [] => Some acc
  | a :: l' => if digit a then digits (10 * acc + digit_val a) l' else None
  end.
Definition Atoi (s : string) : Z :=
  let number l := match l with [] => None | _ => digits 0 l end in
  let clamp (neg : bool) v := if neg then Z.max (- v) (- maxInt64 - 1) else Z.min v maxInt64 in
  match bytes_of s with
  | a :: l =>
      if byte a =? 45 then match number l with Some v => clamp true v | None => 0 end
      else if byte a =? 43 then match number l with Some v => clamp false v | None => 0 end
      else match number (a :: l) with Some v => clamp false v | None => 0 end
  | [] => 0
  end.

(** 64-bit signed wrap-around *)
Definition int64 (z : Z) : Z := (z + 2 ^ 63) mod 2 ^ 64 - 2 ^ 63.

Definition responseError (r : Response) (path : string) : option SyncErr :=
  if (hr_StatusCode r =? 429) || ((hr_StatusCode r =? 403) && (seqb (hr_Remaining r) "0" || negb (seqb (hr_RetryAfter r) ""))) then
    Some (ERateLimit (hr_StatusCode r) (Atoi (hr_Remaining r)) (Atoi (hr_Reset r) * 1000000000)
            (int64 (Atoi (hr_RetryAfter r) * 1000000000)))
  else if hr_StatusCode r =? 200 then None
  else if hr_StatusCode r =? 401 then Some EUnauthorized
  else if hr_StatusCode r =? 404 then Some ENotFound
  else Some (EHTTP (hr_StatusCode r) path).

(** ** One pass

    The state of a pass is the requests sent, in order, and the result so
    far. *)
Record Pass := { ps_sent : list HttpRequest; ps_result : Result }.
Definition G (A : Type) := Pass -> (SyncErr + A) * Pass.
Definition gret {A} (a : A) : G A := fun s => (inr a, s).
Definition gerr {A} (e : SyncErr) : G A := fun s => (inl e, s).
Definition gbind {A B} (m : G A) (f : A -> G B) : G B := fun s =>
  match m s with (inl e, s') => (inl e, s') | (inr a, s') => f a s' end.
Definition gmodify (f : Result -> Result) : G unit := fun s => (inr tt, {| ps_sent := ps_sent s; ps_result := f (ps_result s) |}).

Declare Scope sync_scope.
Delimit Scope sync_scope with sync.
Notation "x <~ m ;; k" := (gbind m (fun x => k)) (at level 100, m at next level, right associativity) : sync_scope.
Notation "m ;~ k" := (gbind m (fun _ => k)) (at level 100, right associativity) : sync_scope.
Local Open Scope sync_scope.

Definition with_receipt (f : Receipt -> Receipt) (r : Result) : Result :=
  {| r_Untrusted := r_Untrusted r; r_Repository := r_Repository r; r_Issues := r_Issues r; r_PullRequests := r_PullRequests r;
     r_Checks := r_Checks r; r_Commits := r_Commits r; r_Validators := r_Validators r; r_Receipt := f (r_Receipt r) |}.
Definition add_request (c : Receipt) : Receipt :=
  {| c_Unchanged := c_Unchanged c; c_Requests := c_Requests c + 1; c_NotModified := c_NotModified c; c_BodyBytes := c_BodyBytes c;
     c_Truncated := c_Truncated c |}.
Definition add_not_modified (c : Receipt) : Receipt :=
  {| c_Unchanged := c_Unchanged c; c_Requests := c_Requests c; c_NotModified := c_NotModified c + 1; c_BodyBytes := c_BodyBytes c;
     c_Truncated := c_Truncated c |}.
Definition add_bytes (n : Z) (c : Receipt) : Receipt :=
  {| c_Unchanged := c_Unchanged c; c_Requests := c_Requests c; c_NotModified := c_NotModified c; c_BodyBytes := c_BodyBytes c + n;
     c_Truncated := c_Truncated c |}.
Definition truncated (c : Receipt) : Receipt :=
  {| c_Unchanged := c_Unchanged c; c_Requests := c_Requests c; c_NotModified := c_NotModified c; c_BodyBytes := c_BodyBytes c;
     c_Truncated := true |}.
Definition set_unchanged (b : bool) (c : Receipt) : Receipt :=
  {| c_Unchanged := b; c_Requests := c_Requests c; c_NotModified := c_NotModified c; c_BodyBytes := c_BodyBytes c;
     c_Truncated := c_Truncated c |}.
Definition add_validator (k : string) (v : Validator) (r : Result) : Result :=
  {| r_Untrusted := r_Untrusted r; r_Repository := r_Repository r; r_Issues := r_Issues r; r_PullRequests := r_PullRequests r;
     r_Checks := r_Checks r; r_Commits := r_Commits r; r_Validators := <[k:=v]> (r_Validators r); r_Receipt := r_Receipt r |}.
Definition set_repository (x : Repository) (r : Result) : Result :=
  {| r_Untrusted := r_Untrusted r; r_Repository := Some x; r_Issues := r_Issues r; r_PullRequests := r_PullRequests r;
     r_Checks := r_Checks r; r_Commits := r_Commits r; r_Validators := r_Validators r; r_Receipt := r_Receipt r |}.
Definition add_issues (x : Page Issue) (r : Result) : Result :=
  {| r_Untrusted := r_Untrusted r; r_Repository := r_Repository r; r_Issues := r_Issues r ++ [x]; r_PullRequests := r_PullRequests r;
     r_Checks := r_Checks r; r_Commits := r_Commits r; r_Validators := r_Validators r; r_Receipt := r_Receipt r |}.
Definition add_pulls (x : Page PullRequest) (r : Result) : Result :=
  {| r_Untrusted := r_Untrusted r; r_Repository := r_Repository r; r_Issues := r_Issues r; r_PullRequests := r_PullRequests r ++ [x];
     r_Checks := r_Checks r; r_Commits := r_Commits r; r_Validators := r_Validators r; r_Receipt := r_Receipt r |}.
Definition add_checks (x : Page CheckRun) (r : Result) : Result :=
  {| r_Untrusted := r_Untrusted r; r_Repository := r_Repository r; r_Issues := r_Issues r; r_PullRequests := r_PullRequests r;
     r_Checks := r_Checks r ++ [x]; r_Commits := r_Commits r; r_Validators := r_Validators r; r_Receipt := r_Receipt r |}.
Definition add_commit (x : Page Commit) (r : Result) : Result :=
  {| r_Untrusted := r_Untrusted r; r_Repository := r_Repository r; r_Issues := r_Issues r; r_PullRequests := r_PullRequests r;
     r_Checks := r_Checks r; r_Commits := r_Commits r ++ [x]; r_Validators := r_Validators r; r_Receipt := r_Receipt r |}.

(** [strings.SplitN(path, "?", 2)] *)
Fixpoint cut_query (l : list ascii) : list ascii * list ascii :=
  match l with
  | [] => ([], [])
  | a :: l' => if byte a =? 63 then ([], l') else let '(p, q) := cut_query l' in (a :: p, q)
  end.

Definition make_request (c : Client) (path : string) (prior : Validator) : HttpRequest :=
  let '(p, q) := cut_query (bytes_of path) in
  {| hq_Method := "GET"; hq_Path := cl_basePath c +:+ String.string_of_list_ascii p; hq_RawQuery := String.string_of_list_ascii q;
     hq_UserAgent := cl_userAgent c; hq_Authorization := if seqb (cl_token c) "" then "" else "Bearer " +:+ cl_token c;
     hq_IfNoneMatch := v_ETag prior; hq_IfModifiedSince := v_LastModified prior |}.

Section Sync.
Context `{GithubJSON} `{Server} (c : Client).

(** [c.http.Do]: the request is sent whatever comes of it *)
Definition send (q : HttpRequest) : G Response := fun s =>
  let s' := {| ps_sent := ps_sent s ++ [q]; ps_result := ps_result s |} in
  match http_Do (length (ps_sent s)) q with None => (inl ETransport, s') | Some r => (inr r, s') end.

(** [get]: the decoded value when the page changed, and whether another
    follows.  [decode] and [count] are the decoder and [collectionLength] at
    the type of [dst]. *)
Definition get {T} (decode : string -> option (T * bool)) (count : T -> Z) (path key : string) (validators : gmap string Validator)
    : G (option T * bool) :=
  let prior := default noValidator (validators !! key) in
  let q := make_request c path prior in
  resp <~ send q ;;
  gmodify (with_receipt add_request) ;~
  if hr_StatusCode resp =? 304 then gmodify (with_receipt add_not_modified) ;~ gret (None, v_HasNext prior)
  else match responseError resp (hq_Path q) with
  | Some e => gerr e
  | None =>
      if hr_BodyFails resp then gerr ETransport
      else
        let payload := String.substring 0 (Z.to_nat (int64 (cl_maxBodyBytes c + 1))) (hr_Body resp) in
        gmodify (with_receipt (add_bytes (len payload))) ;~
        if cl_maxBodyBytes c <? len payload then gerr ETooLarge
        else match decode payload with
        | None => gerr EMalformed
        | Some (_, false) => gerr EMalformed
        | Some (x, true) =>
            let hasNext := cl_perPage c <=? count x in
            gmodify (add_validator key {| v_ETag := hr_ETag resp; v_LastModified := hr_LastModified resp; v_HasNext := hasNext |}) ;~
            gret (Some x, hasNext)
        end
  end.

(** The page loop of [syncIssues], [syncPulls] and [syncChecks], with [left]
    pages of the bound to go. *)
Fixpoint sync_pages {T} (decode : string -> option (list T * bool)) (path extra prefix : string) (keep : string -> list T -> Result -> Result)
    (validators : gmap string Validator) (page : Z) (left : nat) : G unit :=
  match left with
  | O => gmodify (with_receipt truncated)
  | S left' =>
      let key := prefix +:+ Itoa page in
      r <~ get decode (fun l => Z.of_nat (length l)) (collectionPath c path page extra) key validators ;;
      (match r.1 with Some wire => gmodify (keep key wire) | None => gret tt end) ;~
      if (r.2 : bool) then sync_pages decode path extra prefix keep validators (page + 1) left' else gret tt
  end.

Definition page_limit : nat := Z.to_nat (cl_maxPages c).

Definition syncIssues (path : string) (validators : gmap string Validator) : G unit :=
  sync_pages json_issues path "state=open&sort=updated&direction=desc" "issues:"
    (fun key wire => add_issues (Build_Page key (issue_model <$> filter (fun i => iw_PullRequest i = false) wire))) validators 1 page_limit.

Definition syncPulls (path : string) (validators : gmap string Validator) : G unit :=
  sync_pages json_pulls path "state=open&sort=updated&direction=desc" "pulls:"
    (fun key wire => add_pulls (Build_Page key (pull_model <$> wire))) validators 1 page_limit.

Definition syncChecks (path sha : string) (validators : gmap string Validator) : G unit :=
  sync_pages json_checks path "filter=latest" ("checks:" +:+ sha +:+ ":")
    (fun key wire => add_checks (Build_Page key (check_model <$> wire))) validators 1 page_limit.

Definition syncCommit (root sha : string) (validators : gmap string Validator) : G unit :=
  let key := "commit:" +:+ sha in
  r <~ get json_commit (fun _ => 0) (root +:+ "/commits/" +:+ sha) key validators ;;
  match r.1 with Some wire => gmodify (add_commit (Build_Page key [commit_model wire])) | None => gret tt end.

Fixpoint each (f : string -> G unit) (l : list string) : G unit :=
  match l with [] => gret tt | x :: l' => f x ;~ each f l' end.

(** The requests of [Sync], after its arguments were checked. *)
Definition sync_all (root : string) (checks commits : list string) (validators : gmap string Validator) : G unit :=
  r <~ get json_repository (fun _ => 0) root "repository" validators ;;
  (match r.1 with Some repo => gmodify (set_repository repo) | None => gret tt end) ;~
  syncIssues (root +:+ "/issues") validators ;~
  syncPulls (root +:+ "/pulls") validators ;~
  each (fun sha => syncChecks (root +:+ "/commits/" +:+ sha +:+ "/check-runs") sha validators) checks ;~
  each (fun sha => syncCommit root sha validators) commits.

(** The result that [Sync] returns after a pass that succeeded. *)
Definition finish (r : Result) : Result :=
  let unchanged := (0 <? c_Requests (r_Receipt r)) && (c_Requests (r_Receipt r) =? c_NotModified (r_Receipt r)) in
  let receipt := set_unchanged unchanged (r_Receipt r) in
  if unchanged then
    {| r_Untrusted := false; r_Repository := None; r_Issues := []; r_PullRequests := []; r_Checks := []; r_Commits := [];
       r_Validators := ∅; r_Receipt := receipt |}
  else with_receipt (fun _ => receipt) r.

(** [Sync], with the requests it sent *)
Definition Sync (q : Request) : (SyncErr + Result) * list HttpRequest :=
  if negb (validName (q_Owner q)) || negb (validName (q_Repository q)) then (inl EInvalid, [])
  else match boundedSHAs (q_ReferencedCommits q) (cl_maxReferences c) with
  | inl e => (inl e, [])
  | inr commits =>
      match boundedSHAs (q_CheckSHAs q) (cl_maxReferences c) with
      | inl e => (inl e, [])
      | inr checks =>
          let root := "/repos/" +:+ q_Owner q +:+ "/" +:+ q_Repository q in
          let '(r, s) := sync_all root checks commits (q_Validators q) {| ps_sent := []; ps_result := newResult |} in
          (match r with inl e => inl e | inr _ => inr (finish (ps_result s)) end, ps_sent s)
      end
  end.
End Sync.
