(* ===== verification/GithubSpec.v ===== *)
(** * What a synchronisation pass can be relied on for

    Theorems about [GithubSync]: the calls of a pass are within a bound
    that no server can raise; its receipt counts what happened; and
    a second pass over an unchanged repository finds nothing to report. *)

From Stdlib Require Import ZArith Lia Ascii.
From stdpp Require Import base gmap strings list sets sorting pretty.
From S2P Require Import Prelude GoText CoreDB OpsFs ArchDB ArchPolicy GithubSync.

Local Open Scope Z_scope.
Local Open Scope sync_scope.

(** ** Passes as relations on their state *)

Definition advances {A} (R : Pass -> Pass -> Prop) (m : G A) : Prop := forall s r s', m s = (r, s') -> R s s'.

Lemma advances_ret {A} R `{!Reflexive R} (a : A) : advances R (gret a).
Proof. intros s r s' [= <- <-]. reflexivity. Qed.

Lemma advances_err {A} R `{!Reflexive R} e : advances R (gerr (A := A) e).
Proof. intros s r s' [= <- <-]. reflexivity. Qed.

Lemma gbind_inv {A B} (m : G A) (f : A -> G B) s r s' :
  gbind m f s = (r, s') -> (exists e, m s = (inl e, s') /\ r = inl e) \/ exists a s1, m s = (inr a, s1) /\ f a s1 = (r, s').
Proof. unfold gbind. destruct (m s) as [[e|a] s1]; naive_solver. Qed.

(** The number of requests of a run, at most [n]. *)
Definition sends_at_most (n : nat) {A} (m : G A) : Prop :=
  forall s r s', m s = (r, s') -> exists l, ps_sent s' = ps_sent s ++ l /\ (length l <= n)%nat /\ Forall (fun q => hq_Method q = "GET"%string) l.

Lemma sends_ret {A} n (a : A) : sends_at_most n (gret a).
Proof. intros s r s' [= <- <-]. exists []. rewrite app_nil_r. split_and!; [done|simpl; lia|done]. Qed.

Lemma sends_err {A} n e : sends_at_most n (gerr (A := A) e).
Proof. intros s r s' [= <- <-]. exists []. rewrite app_nil_r. split_and!; [done|simpl; lia|done]. Qed.

Lemma sends_modify n f : sends_at_most n (gmodify f).
Proof. intros s r s' [= <- <-]. exists []. rewrite app_nil_r. split_and!; [done|simpl; lia|done]. Qed.

Lemma sends_bind {A B} n k (m : G A) (f : A -> G B) :
  sends_at_most n m -> (forall a, sends_at_most k (f a)) -> sends_at_most (n + k) (gbind m f).
Proof.
  intros Hm Hf s r s' [(e & Hrun & _)|(a & s1 & Hrun & Hrest)]%gbind_inv.
  - destruct (Hm _ _ _ Hrun) as (l & -> & Hl & HF). exists l. split_and!; [done|lia|done].
  - destruct (Hm _ _ _ Hrun) as (l & Hs1 & Hl & HF). destruct (Hf _ _ _ _ Hrest) as (l' & -> & Hl' & HF').
    exists (l ++ l'). rewrite Hs1, length_app. split_and!; [by rewrite (assoc_L (++))|lia|by apply Forall_app_2].
Qed.

Lemma sends_mono {A} n k (m : G A) : (n <= k)%nat -> sends_at_most n m -> sends_at_most k m.
Proof. intros Hnk Hm s r s' Hrun. destruct (Hm _ _ _ Hrun) as (l & ? & ? & ?). exists l. split_and!; [done|lia|done]. Qed.

Section Bounds.
Context `{GithubJSON} `{Server} (c : Client).

Lemma sends_get {T} (decode : string -> option (T * bool)) count path key vs : sends_at_most 1 (get c decode count path key vs).
Proof.
  unfold get. apply (sends_bind 1 0).
  - intros s r s' Hrun. unfold send in Hrun. exists [make_request c path (default noValidator (vs !! key))].
    split_and!; [by case_match; simplify_eq/=|done|]. constructor; [|done]. unfold make_request. by destruct (cut_query _).
  - intros resp. apply (sends_bind 0 0); [apply sends_modify|intros _].
    case_match; [apply (sends_bind 0 0); [apply sends_modify|intros _; apply sends_ret]|].
    case_match; [apply sends_err|]. case_match; [apply sends_err|]. cbv zeta.
    apply (sends_bind 0 0); [apply sends_modify|intros _].
    case_match; [apply sends_err|]. case_match; [|apply sends_err]. destruct p as [x []]; [|apply sends_err].
    apply (sends_bind 0 0); [apply sends_modify|intros _; apply sends_ret].
Qed.

Lemma sends_pages {T} (decode : string -> option (list T * bool)) path extra prefix keep vs page left_ :
  sends_at_most left_ (sync_pages c decode path extra prefix keep vs page left_).
Proof.
  revert page. induction left_ as [|left_ IH]; intros page; simpl; [apply sends_modify|].
  apply (sends_bind 1 left_); [apply sends_get|intros r].
  apply (sends_bind 0 left_); [destruct r.1; [apply sends_modify|apply sends_ret]|intros _]. destruct r.2; [apply IH|apply sends_ret].
Qed.

Lemma sends_each f l n : (forall x, sends_at_most n (f x)) -> sends_at_most (length l * n) (each f l).
Proof. intros Hf. induction l as [|x l IH]; simpl; [apply sends_ret|]. by apply sends_bind. Qed.

Definition request_bound (checks commits : nat) : nat := (1 + (page_limit c + (page_limit c + (checks * page_limit c + commits))))%nat.

Lemma sends_all root checks commits vs : sends_at_most (request_bound (length checks) (length commits)) (sync_all c root checks commits vs).
Proof.
  unfold sync_all, request_bound. apply sends_bind; [apply sends_get|intros r].
  apply (sends_bind 0); [destruct r.1; [apply sends_modify|apply sends_ret]|intros _].
  apply sends_bind; [apply sends_pages|intros _]. apply sends_bind; [apply sends_pages|intros _].
  apply sends_bind; [apply sends_each; intros; apply sends_pages|intros _].
  rewrite <-(Nat.mul_1_r (length commits)). apply sends_each. intros sha. unfold syncCommit.
  apply (sends_bind 1 0); [apply sends_get|intros x]. destruct x.1; [apply sends_modify|apply sends_ret].
Qed.

Lemma boundedSHAs_length values limit l : boundedSHAs values limit = inr l -> (length l <= length values)%nat.
Proof.
  unfold boundedSHAs. case_match; [done|]. destruct (mapM sha_of values) as [set|] eqn:Hm; [|done]. intros [= <-].
  rewrite (Permutation_length (merge_sort_Permutation sle _)). apply mapM_Some_1, Forall2_length in Hm. rewrite Hm.
  clear. induction set as [|x set IH]; simpl; [done|]. case_decide; simpl; lia.
Qed.

(** C40: whatever the server answers, a pass calls the HTTP client at most
    once for the repository, [maxPages] times for the issues, for the pull
    requests and for the checks of each commit, and once for each commit, and
    every call is a [GET].  Each call is taken to give an answer or an error;
    how long it takes, and the redirects that [http.Client] follows within it,
    are the client's. *)
Theorem sync_calls_bounded q :
  (length (Sync c q).2 <= request_bound (length (q_CheckSHAs q)) (length (q_ReferencedCommits q)))%nat /\
  Forall (fun q => hq_Method q = "GET"%string) (Sync c q).2.
Proof.
  unfold Sync. case_match; [simpl; split; [lia|done]|].
  destruct (boundedSHAs (q_ReferencedCommits q) _) as [e|commits] eqn:Hcm; [simpl; split; [lia|done]|].
  destruct (boundedSHAs (q_CheckSHAs q) _) as [e|checks] eqn:Hck; [simpl; split; [lia|done]|].
  cbv zeta. destruct (sync_all _ _ _ _ _ _) as [r s] eqn:Hrun. destruct (sends_all _ _ _ _ _ _ _ Hrun) as (l & Hl & Hb & HF).
  simpl in *. rewrite Hl. split; [|done].
  apply boundedSHAs_length in Hcm, Hck. unfold request_bound in *. etrans; [exact Hb|]. nia.
Qed.
End Bounds.

Lemma New_limits base loopback config c :
  New base loopback config = inr c -> 1 <= cl_maxPages c <= 20 /\ 1 <= cl_maxReferences c <= 1000.
Proof.
  unfold New. destruct base as [u|]; [|done]. case_match; [done|]. case_match; [done|]. cbv zeta. case_match eqn:Hc; [done|].
  intros [= <-]. simpl. rewrite !orb_false_iff, !Z.ltb_ge in Hc. lia.
Qed.

Lemma boundedSHAs_limit values limit l : boundedSHAs values limit = inr l -> Z.of_nat (length l) <= limit.
Proof.
  intros Hb. pose proof (boundedSHAs_length _ _ _ Hb). unfold boundedSHAs in Hb. case_match eqn:Hc; [done|]. apply Z.ltb_ge in Hc. lia.
Qed.

(** A client that [New] accepts never sends more than 21041 requests in a
    pass, whatever the configuration, the request and the server are. *)
Theorem client_requests_capped `{GithubJSON} `{Server} base loopback config c q :
  New base loopback config = inr c -> Z.of_nat (length (Sync c q).2) <= 21041.
Proof.
  intros [Hp Hr]%New_limits. unfold Sync. case_match; [simpl; lia|].
  destruct (boundedSHAs (q_ReferencedCommits q) _) as [e|commits] eqn:Hcm; [simpl; lia|].
  destruct (boundedSHAs (q_CheckSHAs q) _) as [e|checks] eqn:Hck; [simpl; lia|].
  cbv zeta. destruct (sync_all _ _ _ _ _ _) as [r s] eqn:Hrun. destruct (sends_all _ _ _ _ _ _ _ _ Hrun) as (l & Hl & Hb & _).
  simpl in *. rewrite Hl. apply boundedSHAs_limit in Hcm, Hck. unfold request_bound, page_limit in Hb.
  assert (Z.to_nat (cl_maxPages c) <= 20)%nat as Hpg by lia. assert (length checks <= 1000)%nat as Hcs by lia. assert (length commits <= 1000)%nat by lia.
  pose proof (Nat.mul_le_mono _ _ _ _ Hcs Hpg). lia.
Qed.

(** ** Receipts *)

(** [m] keeps [I] when it succeeds. *)
Definition keeps (I : Pass -> Prop) {A} (m : G A) : Prop := forall s a s', I s -> m s = (inr a, s') -> I s'.

Lemma keeps_ret {A} I (a : A) : keeps I (gret a).
Proof. by intros s x s' Hs [= _ <-]. Qed.

Lemma keeps_bind {A B} I (m : G A) (f : A -> G B) : keeps I m -> (forall a, keeps I (f a)) -> keeps I (gbind m f).
Proof. intros Hm Hf s b s' Hs [(e & _ & [=])|(a & s1 & Hrun & Hrest)]%gbind_inv. by eapply Hf; [eapply Hm|]. Qed.

Lemma keeps_each I f l : (forall x, keeps I (f x)) -> keeps I (each f l).
Proof. intros Hf. induction l as [|x l IH]; [apply keeps_ret|]. by apply keeps_bind. Qed.

Section Receipts.
Context `{GithubJSON} `{Server} (c : Client).

Definition is_304 (e : nat * HttpRequest) : bool :=
  match http_Do e.1 e.2 with Some r => hr_StatusCode r =? 304 | None => false end.
Definition numbered (sent : list HttpRequest) : list (nat * HttpRequest) := imap pair sent.
Definition not_modified (sent : list HttpRequest) : Z := Z.of_nat (length (List.filter is_304 (numbered sent))).

Record accounted (s : Pass) : Prop := {
  ac_requests : c_Requests (r_Receipt (ps_result s)) = Z.of_nat (length (ps_sent s));
  ac_unchanged : c_NotModified (r_Receipt (ps_result s)) = not_modified (ps_sent s);
  ac_bytes : 0 <= c_BodyBytes (r_Receipt (ps_result s))
             <= (c_Requests (r_Receipt (ps_result s)) - c_NotModified (r_Receipt (ps_result s))) * cl_maxBodyBytes c }.

Lemma not_modified_app l q : not_modified (l ++ [q]) = not_modified l + if is_304 (length l, q) then 1 else 0.
Proof.
  unfold not_modified, numbered. rewrite imap_app. simpl. rewrite Nat.add_0_r, List.filter_app, length_app. simpl.
  destruct (is_304 _); simpl; lia.
Qed.

Lemma accounted_frame f : (forall r, r_Receipt (f r) = r_Receipt r) -> keeps accounted (gmodify f).
Proof. intros Hf s [] s' [H1 H2 H3] [= <-]. split; simpl; by rewrite Hf. Qed.

Lemma accounted_truncated : keeps accounted (gmodify (with_receipt truncated)).
Proof. intros s [] s' [H1 H2 H3] [= <-]. by split. Qed.

Lemma accounted_get {T} (decode : string -> option (T * bool)) count path key vs : keeps accounted (get c decode count path key vs).
Proof.
  intros s a s' [H1 H2 H3] Hrun. unfold get in Hrun. set (q := make_request _ _ _) in Hrun. apply gbind_inv in Hrun as [(e & _ & [=])|(resp & s1 & Hs & Hrun)].
  unfold send in Hs. destruct (http_Do _ q) as [r0|] eqn:Hdo; [|done]. injection Hs as -> <-.
  assert (is_304 (length (ps_sent s), q) = (hr_StatusCode resp =? 304)) as H304 by (unfold is_304; simpl; by rewrite Hdo).
  destruct (hr_StatusCode resp =? 304) eqn:Hst.
  - unfold gbind, gmodify, gret in Hrun. injection Hrun as _ <-. split; simpl.
    + rewrite length_app. simpl. lia.
    + rewrite not_modified_app, H304. lia.
    + split; [lia|]. etrans; [apply H3|]. apply Z.eq_le_incl. f_equal. lia.
  - unfold gbind at 1, gmodify at 1 in Hrun. destruct (responseError _ _); [done|]. destruct (hr_BodyFails resp); [done|].
    unfold gbind at 1, gmodify at 1 in Hrun. cbv zeta in Hrun. set (payload := String.substring _ _ _) in Hrun.
    destruct (Z.ltb_spec (cl_maxBodyBytes c) (len payload)) as [|Hlen]; [done|].
    destruct (decode payload) as [[x []]|]; [|done..]. unfold gbind, gmodify, gret in Hrun. injection Hrun as _ <-. split; simpl.
    + rewrite length_app. simpl. lia.
    + rewrite not_modified_app, H304. lia.
    + pose proof (Nat2Z.is_nonneg (String.length payload)). unfold len in *. nia.
Qed.

(** What every request and every bookkeeping step keeps, the pass keeps. *)
Lemma pages_keep I {T} (decode : string -> option (list T * bool)) path extra prefix keep vs page left_ :
  (forall count path key, keeps I (get c decode count path key vs)) ->
  (forall f, (forall r, r_Receipt (f r) = r_Receipt r) -> keeps I (gmodify f)) -> keeps I (gmodify (with_receipt truncated)) ->
  (forall k l r, r_Receipt (keep k l r) = r_Receipt r) -> keeps I (sync_pages c decode path extra prefix keep vs page left_).
Proof.
  intros Hget Hframe Htrunc Hk. revert page. induction left_ as [|left_ IH]; intros page; simpl; [done|].
  apply keeps_bind; [apply Hget|intros r]. apply keeps_bind.
  - destruct r.1; [by apply Hframe|apply keeps_ret].
  - intros _. destruct r.2; [apply IH|apply keeps_ret].
Qed.

Lemma all_keep I root checks commits vs :
  (forall T (decode : string -> option (T * bool)) count path key, keeps I (get c decode count path key vs)) ->
  (forall f, (forall r, r_Receipt (f r) = r_Receipt r) -> keeps I (gmodify f)) -> keeps I (gmodify (with_receipt truncated)) ->
  keeps I (sync_all c root checks commits vs).
Proof.
  intros Hget Hframe Htrunc. unfold sync_all. apply keeps_bind; [apply Hget|intros r].
  apply keeps_bind; [destruct r.1; [by apply Hframe|apply keeps_ret]|intros _].
  apply keeps_bind; [by apply pages_keep|intros _]. apply keeps_bind; [by apply pages_keep|intros _].
  apply keeps_bind; [apply keeps_each; intros; by apply pages_keep|intros _].
  apply keeps_each. intros sha. apply keeps_bind; [apply Hget|intros x]. destruct x.1; [by apply Hframe|apply keeps_ret].
Qed.

Lemma filter_all {A} (f : A -> bool) l : length (List.filter f l) = length l <-> Forall (fun x => f x = true) l.
Proof.
  induction l as [|x l IH]; simpl; [done|]. destruct (f x) eqn:Hf; simpl.
  - rewrite Forall_cons, <-IH, Hf. naive_solver lia.
  - rewrite Forall_cons, Hf. pose proof (List.filter_length_le f l). split; [lia|naive_solver].
Qed.

(** At least the repository is asked for. *)
Lemma get_counts {T} (decode : string -> option (T * bool)) count path key vs s a s' :
  get c decode count path key vs s = (inr a, s') -> c_Requests (r_Receipt (ps_result s')) = c_Requests (r_Receipt (ps_result s)) + 1.
Proof.
  intros Hrun. unfold get in Hrun. apply gbind_inv in Hrun as [(e & _ & [=])|(resp & s1 & Hs & Hrun)].
  unfold send in Hs. destruct (http_Do _ _) as [r0|]; [|done]. injection Hs as -> <-.
  unfold gbind at 1, gmodify at 1 in Hrun. destruct (hr_StatusCode resp =? 304).
  - unfold gbind, gmodify, gret in Hrun. by injection Hrun as _ <-.
  - destruct (responseError _ _); [done|]. destruct (hr_BodyFails resp); [done|]. cbv zeta in Hrun.
    unfold gbind at 1, gmodify at 1 in Hrun. destruct (_ <? _); [done|].
    destruct (decode _) as [[x []]|]; [|done..]. unfold gbind, gmodify, gret in Hrun. by injection Hrun as _ <-.
Qed.

Definition asked (s : Pass) : Prop := 0 < c_Requests (r_Receipt (ps_result s)).

Lemma sync_all_asks root checks commits vs s a s' :
  sync_all c root checks commits vs s = (inr a, s') -> 0 <= c_Requests (r_Receipt (ps_result s)) -> asked s'.
Proof.
  intros Hrun Hs. unfold sync_all in Hrun. apply gbind_inv in Hrun as [(e & _ & [=])|(r & s1 & Hget & Hrun)].
  apply get_counts in Hget. assert (asked s1) as H1 by (unfold asked; lia).
  assert (forall T (decode : string -> option (T * bool)) count path key, keeps asked (get c decode count path key vs)) as Hg.
  { intros T d n p k x y z Hx Hy. apply get_counts in Hy. unfold asked in *. lia. }
  assert (forall f, (forall r, r_Receipt (f r) = r_Receipt r) -> keeps asked (gmodify f)) as Hf.
  { intros g Hg' x [] y Hx [= <-]. unfold asked in *. simpl. by rewrite Hg'. }
  assert (keeps asked (gmodify (with_receipt truncated))) as Ht by (intros x [] y Hx [= <-]; exact Hx).
  revert Hrun. apply (keeps_bind asked); [destruct r.1; [by apply Hf|apply keeps_ret]|intros _|exact H1].
  apply keeps_bind; [by apply pages_keep|intros _]. apply keeps_bind; [by apply pages_keep|intros _].
  apply keeps_bind; [apply keeps_each; intros; by apply pages_keep|intros _].
  apply keeps_each. intros sha. apply keeps_bind; [apply Hg|intros x]. destruct x.1; [by apply Hf|apply keeps_ret].
Qed.

(** The receipt of a pass tells what happened.  It counts every request and
    every "not modified" answer; the pass is reported unchanged exactly when
    all answers were such, and then reports nothing else; and what it read of
    bodies is within the limit for each other answer. *)
Theorem sync_receipt_exact q r sent :
  Sync c q = (inr r, sent) ->
  let k := r_Receipt r in
  c_Requests k = Z.of_nat (length sent) /\ c_NotModified k = not_modified sent /\
  (c_Unchanged k = true <-> Forall (fun e => is_304 e = true) (numbered sent)) /\
  0 <= c_BodyBytes k <= (c_Requests k - c_NotModified k) * cl_maxBodyBytes c /\
  (c_Unchanged k = true -> r_Repository r = None /\ r_Issues r = [] /\ r_PullRequests r = [] /\ r_Checks r = [] /\ r_Commits r = [] /\ r_Validators r = ∅).
Proof.
  unfold Sync. case_match; [done|]. destruct (boundedSHAs _ _) as [e|commits]; [done|]. destruct (boundedSHAs _ _) as [e|checks]; [done|].
  cbv zeta. destruct (sync_all _ _ _ _ _ _) as [[e|[]] s] eqn:Hrun; [done|]. intros [= <- <-].
  pose proof (sync_all_asks _ _ _ _ _ _ _ Hrun ltac:(simpl; lia)) as Hasked.
  apply (all_keep accounted) in Hrun; [|intros; apply accounted_get|apply accounted_frame|apply accounted_truncated|].
  2: { split; simpl; [done|done|lia]. }
  destruct Hrun as [Hr Hn Hb]. unfold asked in Hasked.
  assert (c_Unchanged (r_Receipt (finish (ps_result s))) = (c_Requests (r_Receipt (ps_result s)) =? c_NotModified (r_Receipt (ps_result s)))) as Hu.
  { unfold finish. rewrite (proj2 (Z.ltb_lt _ _) Hasked). cbv zeta. cbn [andb]. by destruct (_ =? _). }
  assert (forall g, g (set_unchanged true (r_Receipt (ps_result s))) = g (r_Receipt (ps_result s)) ->
                    g (set_unchanged false (r_Receipt (ps_result s))) = g (r_Receipt (ps_result s)) ->
                    g (r_Receipt (finish (ps_result s))) = g (r_Receipt (ps_result s)) :> Z) as Hg.
  { intros g Ht Hf. unfold finish. cbv zeta. destruct (_ && _); simpl; assumption. }
  rewrite (Hg c_Requests eq_refl eq_refl), (Hg c_NotModified eq_refl eq_refl), (Hg c_BodyBytes eq_refl eq_refl).
  split_and!; [done|done| |lia|lia|].
  - rewrite Hu, Z.eqb_eq, Hr, Hn. unfold not_modified. rewrite <-filter_all. unfold numbered. rewrite length_imap. lia.
  - intros Hun. rewrite Hu in Hun. unfold finish. rewrite Hun, (proj2 (Z.ltb_lt _ _) Hasked). simpl. done.
Qed.
End Receipts.

(** ** A second pass over an unchanged repository *)

Definition target (q : HttpRequest) : string * string := (hq_Path q, hq_RawQuery q).
Definition vals (s : Pass) : gmap string Validator := r_Validators (ps_result s).

(** What a second run did compared with a first: the same pages, all unchanged. *)
Definition follows (s1 s1' s2 s2' : Pass) : Prop :=
  exists l1 l2, ps_sent s1' = ps_sent s1 ++ l1 /\ ps_sent s2' = ps_sent s2 ++ l2 /\ target <$> l1 = target <$> l2 /\
    c_Requests (r_Receipt (ps_result s2')) = c_Requests (r_Receipt (ps_result s2)) + Z.of_nat (length l2) /\
    c_NotModified (r_Receipt (ps_result s2')) = c_NotModified (r_Receipt (ps_result s2)) + Z.of_nat (length l2).

Lemma follows_refl s1 s1' s2 s2' :
  ps_sent s1' = ps_sent s1 -> ps_sent s2' = ps_sent s2 ->
  c_Requests (r_Receipt (ps_result s2')) = c_Requests (r_Receipt (ps_result s2)) ->
  c_NotModified (r_Receipt (ps_result s2')) = c_NotModified (r_Receipt (ps_result s2)) -> follows s1 s1' s2 s2'.
Proof. intros. exists [], []. rewrite !app_nil_r. simpl. split_and!; done || lia. Qed.

Lemma follows_trans s1 s2 s3 t1 t2 t3 : follows s1 s2 t1 t2 -> follows s2 s3 t2 t3 -> follows s1 s3 t1 t3.
Proof.
  intros (l1 & l2 & A & B & C & D & E) (k1 & k2 & A' & B' & C' & D' & E'). exists (l1 ++ k1), (l2 ++ k2).
  rewrite A', A, B', B, !fmap_app, C, C', !length_app, !(assoc_L (++)). split_and!; done || lia.
Qed.

Section Steady.
Context `{GithubJSON}.
(** a server whose pages do not change, each under an entity tag *)
Context (page : string -> string -> Response).
Context (Hok : forall p q, hr_StatusCode (page p q) = 200) (Htag : forall p q, hr_ETag (page p q) <> ""%string).

Definition notModified : Response :=
  {| hr_StatusCode := 304; hr_ETag := ""; hr_LastModified := ""; hr_Remaining := ""; hr_Reset := ""; hr_RetryAfter := "";
     hr_Body := ""; hr_BodyFails := false |}.

Definition steady : Server := fun _ q =>
  let r := page (hq_Path q) (hq_RawQuery q) in Some (if seqb (hq_IfNoneMatch q) (hr_ETag r) then notModified else r).
#[local] Existing Instance steady.

Context (c : Client) (root : string) (checks : list string).
Context (Hchecks : Forall no_colon checks).

(** The validator that reading a page leaves. *)
Definition entry {T} (decode : string -> option (T * bool)) (count : T -> Z) (path : string) : option Validator :=
  let q := make_request c path noValidator in
  let r := page (hq_Path q) (hq_RawQuery q) in
  match decode (String.substring 0 (Z.to_nat (int64 (cl_maxBodyBytes c + 1))) (hr_Body r)) with
  | Some (x, true) => Some {| v_ETag := hr_ETag r; v_LastModified := hr_LastModified r; v_HasNext := cl_perPage c <=? count x |}
  | _ => None
  end.

Definition size_of {T} (l : list T) : Z := Z.of_nat (length l).

Definition page_path (path extra text : string) : string :=
  (if seqb extra "" then path +:+ "?" else path +:+ "?" +:+ extra +:+ "&") +:+ "per_page=" +:+ Itoa (cl_perPage c) +:+ "&page=" +:+ text.

Definition open_items : string := "state=open&sort=updated&direction=desc".
Definition checks_path (sha : string) : string := root +:+ "/commits/" +:+ sha +:+ "/check-runs".

(** The validators that belong under a key. *)
Inductive keyed : string -> Validator -> Prop :=
  | keyed_repository v : entry json_repository (fun _ => 0) root = Some v -> keyed "repository" v
  | keyed_issues n v : entry json_issues size_of (page_path (root +:+ "/issues") open_items n) = Some v -> keyed ("issues:" +:+ n) v
  | keyed_pulls n v : entry json_pulls size_of (page_path (root +:+ "/pulls") open_items n) = Some v -> keyed ("pulls:" +:+ n) v
  | keyed_checks sha n v : sha ∈ checks -> entry json_checks size_of (page_path (checks_path sha) "filter=latest" n) = Some v ->
      keyed ("checks:" +:+ sha +:+ ":" +:+ n) v
  | keyed_commit sha v : entry json_commit (fun _ => 0) (root +:+ "/commits/" +:+ sha) = Some v -> keyed ("commit:" +:+ sha) v.

Lemma keyed_fun k v v' : keyed k v -> keyed k v' -> v = v'.
Proof.
  assert (forall sha, sha ∈ checks -> no_colon sha) as Hcolon by (by apply Forall_forall).
  intros Hv Hv'. destruct Hv; inversion Hv'; simplify_eq; try congruence.
  match goal with He : ?s0 +:+ ":" +:+ _ = ?s1 +:+ ":" +:+ _ |- _ =>
    assert (s0 = s1) as -> by (apply (f_equal before_colon) in He; by rewrite !before_colon_app in He by auto);
    apply (inj (String.append _)) in He; simplify_eq end.
  congruence.
Qed.

Definition consistent (s : Pass) : Prop := forall k v, vals s !! k = Some v -> keyed k v.

Lemma target_prior path v : target (make_request c path v) = target (make_request c path noValidator).
Proof. unfold make_request, target. by destruct (cut_query _). Qed.

Lemma prior_tag path v : hq_IfNoneMatch (make_request c path v) = v_ETag v.
Proof. unfold make_request. by destruct (cut_query _). Qed.

(** The first time a page is read, its validator is noted. *)
Lemma get_first {T} (decode : string -> option (T * bool)) count path key s a s' :
  get c decode count path key ∅ s = (inr a, s') ->
  exists x v q, a = (Some x, v_HasNext v) /\ entry decode count path = Some v /\ vals s' = <[key:=v]> (vals s) /\
    ps_sent s' = ps_sent s ++ [q] /\ target q = target (make_request c path noValidator) /\
    c_NotModified (r_Receipt (ps_result s')) = c_NotModified (r_Receipt (ps_result s)).
Proof.
  unfold get. rewrite lookup_empty. simpl. intros Hrun. set (q := make_request c path noValidator) in Hrun.
  apply gbind_inv in Hrun as [(e & _ & [=])|(resp & s1 & Hs & Hrun)].
  assert (hq_IfNoneMatch q = ""%string) as Hq by apply prior_tag.
  unfold send, http_Do, steady in Hs. rewrite Hq in Hs.
  rewrite (proj2 (seqb_false _ _)) in Hs by (intros He; by apply (Htag (hq_Path q) (hq_RawQuery q))).
  injection Hs as <- <-. rewrite Hok in Hrun. simpl Z.eqb in Hrun. unfold gbind at 1, gmodify at 1 in Hrun.
  destruct (responseError _ _); [done|]. destruct (hr_BodyFails _); [done|]. unfold gbind at 1, gmodify at 1 in Hrun.
  destruct (_ <? _); [done|]. unfold entry. fold q.
  destruct (decode _) as [[x []]|] eqn:Hd; [|done..]. unfold gbind, gmodify, gret in Hrun. injection Hrun as <- <-.
  eexists x, _, q. rewrite (and_comm (_ = _)), <-(assoc and). split; [reflexivity|]. by split_and!.
Qed.

(** The second time, it is not modified. *)
Lemma get_again {T} (decode : string -> option (T * bool)) count path key V v s :
  entry decode count path = Some v -> V !! key = Some v ->
  exists q s', get c decode count path key V s = (inr (None, v_HasNext v), s') /\ ps_sent s' = ps_sent s ++ [q] /\
    target q = target (make_request c path noValidator) /\
    c_Requests (r_Receipt (ps_result s')) = c_Requests (r_Receipt (ps_result s)) + 1 /\
    c_NotModified (r_Receipt (ps_result s')) = c_NotModified (r_Receipt (ps_result s)) + 1.
Proof.
  intros He HV. unfold get. rewrite HV. simpl default. set (q := make_request c path v). exists q.
  assert (v_ETag v = hr_ETag (page (hq_Path q) (hq_RawQuery q))) as Hv.
  { pose proof (target_prior path v) as Ht. fold q in Ht. unfold target in Ht. injection Ht as -> ->.
    unfold entry in He. destruct (decode _) as [[x []]|]; by simplify_eq/=. }
  assert (hq_IfNoneMatch q = v_ETag v) as Hq by apply prior_tag.
  unfold gbind at 1, send, http_Do, steady. rewrite Hq, <-Hv, seqb_refl. eexists. split; [reflexivity|].
  split_and!; try done. apply target_prior.
Qed.

(** ** Running both passes in step *)

Section Twice.
Context (V : gmap string Validator).

Definition tracks (m1 m2 : G unit) : Prop := forall s1 s1',
  m1 s1 = (inr tt, s1') -> consistent s1 ->
  consistent s1' /\ vals s1 ⊆ vals s1' /\
  (vals s1' ⊆ V -> forall s2, exists s2', m2 s2 = (inr tt, s2') /\ follows s1 s1' s2 s2').

Lemma tracks_seq m1 m2 n1 n2 : tracks m1 m2 -> tracks n1 n2 -> tracks (m1 ;~ n1) (m2 ;~ n2).
Proof.
  intros Hm Hn s1 s1' Hrun Hc. apply gbind_inv in Hrun as [(e & _ & [=])|([] & s & Hr & Hrest)].
  destruct (Hm _ _ Hr Hc) as (Hc1 & Hsub & Hf). destruct (Hn _ _ Hrest Hc1) as (Hc2 & Hsub2 & Hf2).
  split_and!; [done|by etrans|]. intros HV s2. destruct (Hf ltac:(by etrans) s2) as (t & Ht & Hfol).
  destruct (Hf2 HV t) as (t' & Ht' & Hfol'). exists t'. split; [unfold gbind; by rewrite Ht|by eapply follows_trans].
Qed.

(** Bookkeeping that leaves the validators and the counts. *)
Definition inert (f : Result -> Result) : Prop := forall r,
  r_Validators (f r) = r_Validators r /\ c_Requests (r_Receipt (f r)) = c_Requests (r_Receipt r) /\
  c_NotModified (r_Receipt (f r)) = c_NotModified (r_Receipt r).

Lemma tracks_note f m2 : inert f -> m2 = gret tt \/ m2 = gmodify f -> tracks (gmodify f) m2.
Proof.
  intros Hf Hm s1 s1' [= <-] Hc. unfold consistent, vals. simpl. rewrite (proj1 (Hf _)). split_and!; [done|done|].
  intros _ s2. destruct Hm as [-> | ->]; eexists; (split; [reflexivity|]); apply follows_refl; try done; apply Hf.
Qed.

Lemma tracks_ret : tracks (gret tt) (gret tt).
Proof. intros s1 s1' [= <-] Hc. split_and!; [done|done|]. intros _ s2. exists s2. split; [done|]. by apply follows_refl. Qed.

Lemma tracks_get {T} (decode : string -> option (T * bool)) count path key (k1 k2 : option T * bool -> G unit) :
  (forall v, entry decode count path = Some v -> keyed key v) ->
  (forall x b, tracks (k1 (Some x, b)) (k2 (None, b))) ->
  tracks (gbind (get c decode count path key ∅) k1) (gbind (get c decode count path key V) k2).
Proof.
  intros Hkey Hk s1 s1' Hrun Hc. apply gbind_inv in Hrun as [(e & _ & [=])|(a & s & Hr & Hrest)].
  apply get_first in Hr as (x & v & q & -> & He & Hv & Hs & Ht & _). specialize (Hkey v He).
  assert (consistent s) as Hcs.
  { intros k u. rewrite Hv. intros [[<- <-]|[_ Hu]]%lookup_insert_Some; [done|by apply Hc]. }
  assert (vals s1 ⊆ vals s) as Hsub.
  { rewrite Hv. apply map_subseteq_spec. intros k u Hu. destruct (decide (k = key)) as [->|Hne].
    - rewrite lookup_insert_eq. f_equal. symmetry. by eapply keyed_fun; [apply Hc|].
    - by rewrite lookup_insert_ne. }
  destruct (Hk x (v_HasNext v) _ _ Hrest Hcs) as (Hc' & Hsub' & Hf). split_and!; [done|by etrans|]. intros HV s2.
  assert (V !! key = Some v) as HVk.
  { apply (lookup_weaken _ _ _ _ (lookup_insert_eq (vals s1) key v)). rewrite <-Hv. by etrans. }
  destruct (get_again decode count path key V v s2 He HVk) as (q' & t & Hg & Hs' & Ht' & Hrq & Hnm).
  destruct (Hf HV t) as (t' & Hr' & Hfol). exists t'. split; [unfold gbind; by rewrite Hg|].
  eapply follows_trans; [|exact Hfol]. exists [q], [q']. simpl. split_and!; [done|done|congruence|lia|lia].
Qed.

Lemma tracks_pages {T} (decode : string -> option (list T * bool)) path extra prefix keep n left_ :
  (forall text v, entry decode size_of (page_path path extra text) = Some v -> keyed (prefix +:+ text) v) ->
  (forall k l, inert (keep k l)) ->
  tracks (sync_pages c decode path extra prefix keep ∅ n left_) (sync_pages c decode path extra prefix keep V n left_).
Proof.
  intros Hkey Hkeep. revert n. induction left_ as [|left_ IH]; intros n; simpl.
  - apply tracks_note; [done|by right].
  - apply tracks_get; [intros v He; by apply Hkey|]. intros x b. simpl. apply tracks_seq.
    + apply tracks_note; [done|by left].
    + destruct b; [apply IH|apply tracks_ret].
Qed.

Lemma tracks_each f1 f2 l : (forall x, x ∈ l -> tracks (f1 x) (f2 x)) -> tracks (each f1 l) (each f2 l).
Proof.
  intros Hf. induction l as [|x l IH]; [apply tracks_ret|]. apply tracks_seq; [apply Hf; left|apply IH; intros; apply Hf; by right].
Qed.

Lemma tracks_all commits : tracks (sync_all c root checks commits ∅) (sync_all c root checks commits V).
Proof.
  unfold sync_all. apply tracks_get; [by constructor|]. intros x b. simpl.
  apply tracks_seq; [apply tracks_note; [done|by left]|].
  apply tracks_seq; [apply tracks_pages; [by constructor|done]|]. apply tracks_seq; [apply tracks_pages; [by constructor|done]|].
  apply tracks_seq.
  - apply tracks_each. intros sha Hsha. apply tracks_pages; [|done]. intros text v He. rewrite string_app_assoc, string_app_assoc. by constructor.
  - apply tracks_each. intros sha _. apply tracks_get; [by constructor|]. intros y b'. apply tracks_note; [done|by left].
Qed.
End Twice.

(** On the first pass nothing is known yet, so nothing is "not modified". *)
Definition all_new (s : Pass) : Prop := c_NotModified (r_Receipt (ps_result s)) = 0.

Lemma first_pass_new commits s s' : sync_all c root checks commits ∅ s = (inr tt, s') -> all_new s -> all_new s'.
Proof.
  intros Hrun Hs. revert Hs Hrun. apply (all_keep c all_new).
  - intros T d n p k x a y Hx (? & ? & ? & _ & _ & _ & _ & _ & He)%get_first. unfold all_new in *. lia.
  - intros f Hf x [] y Hx [= <-]. unfold all_new in *. simpl. by rewrite Hf.
  - intros x [] y Hx [= <-]. exact Hx.
Qed.

Lemma pass_twice commits s1 :
  let s0 := {| ps_sent := []; ps_result := newResult |} in
  sync_all c root checks commits ∅ s0 = (inr tt, s1) ->
  r_Validators (finish (ps_result s1)) = vals s1 /\
  exists s2, sync_all c root checks commits (vals s1) s0 = (inr tt, s2) /\
    target <$> ps_sent s2 = target <$> ps_sent s1 /\ c_Unchanged (r_Receipt (finish (ps_result s2))) = true.
Proof.
  intros s0 Hrun. pose proof (first_pass_new _ _ _ Hrun eq_refl) as Hnew. unfold all_new in Hnew.
  pose proof (sync_all_asks c _ _ _ _ _ _ _ Hrun ltac:(simpl; lia)) as Hasked. unfold asked in Hasked. split.
  { unfold finish. cbv zeta. rewrite Hnew, (proj2 (Z.eqb_neq _ _)), andb_false_r by lia. done. }
  destruct (tracks_all (vals s1) commits _ _ Hrun) as (_ & _ & Hf); [intros k v Hkv; change (vals s0) with (∅ : gmap string Validator) in Hkv; by rewrite lookup_empty in Hkv|].
  destruct (Hf ltac:(done) s0) as (s2 & Hrun2 & (l1 & l2 & A & B & C & D & E)). exists s2. split; [done|].
  simpl in A, B, D, E. rewrite A, B. split; [done|].
  pose proof (sync_all_asks c _ _ _ _ _ _ _ Hrun2 ltac:(simpl; lia)) as Hasked2. unfold asked in Hasked2.
  unfold finish. cbv zeta. rewrite (proj2 (Z.ltb_lt _ _) Hasked2), (proj2 (Z.eqb_eq _ _)) by lia. done.
Qed.
End Steady.

Lemma sha_char_no_colon s : all_bytes sha_char s = true -> no_colon s.
Proof.
  unfold no_colon. induction s as [|a s IH]; simpl; [constructor|]. intros [Ha Hs]%andb_true_iff. constructor; [|by apply IH].
  intros ->. done.
Qed.

Lemma sha_no_colon values limit l : boundedSHAs values limit = inr l -> Forall no_colon l.
Proof.
  unfold boundedSHAs. case_match; [done|]. destruct (mapM sha_of values) as [set|] eqn:Hm; [|done]. intros [= <-].
  rewrite (merge_sort_Permutation sle _). apply Forall_forall. intros s Hs. rewrite elem_of_remove_dups in Hs.
  apply mapM_Some_1 in Hm. apply list_elem_of_lookup in Hs as [i Hi].
  destruct (Forall2_lookup_r _ _ _ _ _ Hm Hi) as (v & _ & Hv). unfold sha_of in Hv. case_match eqn:Hc; [|done]. injection Hv as <-.
  apply andb_true_iff in Hc as [_ Hc]. by apply sha_char_no_colon.
Qed.

Definition with_validators (v : gmap string Validator) (q : Request) : Request :=
  {| q_Owner := q_Owner q; q_Repository := q_Repository q; q_Validators := v; q_ReferencedCommits := q_ReferencedCommits q;
     q_CheckSHAs := q_CheckSHAs q |}.

(** Against a server whose pages do not change and carry entity tags, a
    pass that starts from the validators of an earlier complete pass asks for
    the same pages in the same order, succeeds and reports the repository
    unchanged. *)
Theorem sync_again_unchanged `{GithubJSON} (page : string -> string -> Response) c q r sent :
  (forall p s, hr_StatusCode (page p s) = 200) -> (forall p s, hr_ETag (page p s) <> ""%string) ->
  let _ := steady page in
  Sync c (with_validators ∅ q) = (inr r, sent) ->
  exists r' sent', Sync c (with_validators (r_Validators r) q) = (inr r', sent') /\
    target <$> sent' = target <$> sent /\ c_Unchanged (r_Receipt r') = true.
Proof.
  intros Hok Htag S. unfold Sync. simpl q_Owner. simpl q_Repository. simpl q_ReferencedCommits. simpl q_CheckSHAs. simpl q_Validators.
  case_match; [done|]. destruct (boundedSHAs (q_ReferencedCommits q) _) as [e|commits]; [done|].
  destruct (boundedSHAs (q_CheckSHAs q) _) as [e|checks] eqn:Hck; [done|]. cbv zeta. apply sha_no_colon in Hck.
  destruct (sync_all _ _ _ _ _ _) as [[e|[]] s] eqn:Hrun; [done|]. intros [= <- <-].
  destruct (pass_twice page Hok Htag c _ _ Hck _ _ Hrun) as (-> & s2 & Hrun2 & Ht & Hu).
  subst S. rewrite Hrun2. by eexists _, _.
Qed.

(** ** A repository to run on

    One full page of two issues and a second with one; a commit with a check. *)

Module Example.
Definition repository : Repository :=
  {| rp_ID := 1; rp_FullName := "a/b"; rp_Description := ""; rp_DefaultBranch := "main"; rp_Private := false; rp_Archived := false;
     rp_UpdatedAt := 0; rp_HTMLURL := "" |}.
Definition issue (n : Z) : issueWire :=
  {| iw_ID := n; iw_Number := n; iw_Title := "t"; iw_State := "open"; iw_UpdatedAt := 0; iw_HTMLURL := ""; iw_Login := "u"; iw_PullRequest := n =? 2 |}.
Definition check : checkWire :=
  {| cw_ID := 1; cw_Name := "ci"; cw_Status := "completed"; cw_Conclusion := "success"; cw_StartedAt := 0; cw_CompletedAt := 0; cw_HTMLURL := "" |}.
Definition commit : commitWire :=
  {| ow_SHA := "abcdef0"; ow_HTMLURL := ""; ow_Message := "m"; ow_AuthorName := "n"; ow_AuthorEmail := "e"; ow_AuthoredAt := 0 |}.

(** a decoder for the bodies below: one item for each byte *)
#[local] Instance json : GithubJSON := {|
  json_repository s := if seqb s "" then None else Some (repository, true);
  json_issues s := Some (issue <$> (Z.of_nat <$> seq 1 (String.length s)), true);
  json_pulls s := Some ([], true);
  json_checks s := Some (replicate (String.length s) check, true);
  json_commit s := if seqb s "" then None else Some (commit, true);
|}.

Definition page (p q : string) : Response :=
  {| hr_StatusCode := 200; hr_ETag := "W/" +:+ p +:+ q; hr_LastModified := ""; hr_Remaining := ""; hr_Reset := ""; hr_RetryAfter := "";
     hr_Body := if seqb q "state=open&sort=updated&direction=desc&per_page=2&page=1" then "xx" else "x"; hr_BodyFails := false |}.
Definition client : Client :=
  {| cl_basePath := ""; cl_token := "t"; cl_userAgent := "u"; cl_perPage := 2; cl_maxPages := 3; cl_maxBodyBytes := 10; cl_maxReferences := 2 |}.
Definition request : Request :=
  {| q_Owner := "a"; q_Repository := "b"; q_Validators := ∅; q_ReferencedCommits := ["ABCDEF0"]; q_CheckSHAs := ["abcdef0"; " abcdef0 "] |}.
Definition server : Server := steady page.
Definition base : URL :=
  {| u_Scheme := "http"; u_Host := "localhost:1"; u_Hostname := "localhost"; u_Path := "/api/"; u_RawQuery := ""; u_Fragment := "" |}.
Definition config : Config :=
  {| g_Token := ""; g_UserAgent := ""; g_PerPage := 0; g_MaxPages := 20; g_MaxBodyBytes := 0; g_MaxReferences := 1000 |}.
End Example.
#[local] Existing Instance Example.json.

Lemma sync_receipt_exact_witness :
  exists r sent, Sync (H0 := Example.server) Example.client Example.request = (inr r, sent) /\
    c_Requests (r_Receipt r) = 6 /\ c_NotModified (r_Receipt r) = not_modified (H0 := Example.server) sent /\ length sent = 6%nat.
Proof.
  eexists _, _. split; [vm_compute; reflexivity|].
  match goal with |- c_Requests (r_Receipt ?r) = _ /\ _ /\ length ?sent = _ =>
    destruct (sync_receipt_exact (H0 := Example.server) Example.client Example.request r sent) as (_ & Hn & _); [vm_compute; reflexivity|] end.
  split_and!; [reflexivity|exact Hn|reflexivity].
Defined.

Lemma sync_again_unchanged_witness :
  exists r sent r' sent',
    Sync (H0 := Example.server) Example.client (with_validators ∅ Example.request) = (inr r, sent) /\
    Sync (H0 := Example.server) Example.client (with_validators (r_Validators r) Example.request) = (inr r', sent') /\
    target <$> sent' = target <$> sent /\ c_Unchanged (r_Receipt r') = true.
Proof.
  eexists _, _. edestruct (sync_again_unchanged Example.page Example.client Example.request) as (r' & sent' & H);
    [reflexivity|done|vm_compute; reflexivity|]. exists r', sent'. split; [vm_compute; reflexivity|exact H].
Defined.

Lemma client_requests_capped_witness :
  exists c, New (Some Example.base) true Example.config = inr c /\ cl_basePath c = "/api"%string /\
    Z.of_nat (length (Sync (H0 := Example.server) c Example.request).2) <= 21041.
Proof.
  eexists. split; [reflexivity|]. split; [reflexivity|]. by apply (client_requests_capped (H0 := Example.server) (Some Example.base) true Example.config).
Defined.
