(* ===== verification/HistoricalImport.v ===== *)
(** * Historical imports

    [internal/store/historical_import.go] and
    [internal/domain/historical_import.go]: a bounded batch of outcomes that
    were reached before the project was kept here is previewed, confirmed by
    its digest, applied in one transaction and, if need be, superseded.  The
    tables are those of [migrations/006_continuity_provenance.sql], beside the
    archaeology and Project Core tables; as there, the length checks of text
    columns are left out, since the code checks those texts first.

    The decoders and encoders of JSON, SHA-256 and the Unicode case tables are
    arguments. *)

From Stdlib Require Import ZArith Lia Ascii.
From stdpp Require Import base gmap strings list sets sorting pretty.
From S2P Require Import Prelude GoText Framing CoreDB ProjectCore OpsFs ArchDB ArchPolicy.

Local Open Scope Z_scope.
Local Open Scope prog_scope.

(** ** Commands and receipts *)

Definition maxHistoricalAliases : Z := 20.
Definition maxHistoricalTasks : Z := 25.
Definition maxHistoricalTaskEvents : Z := 25.
Definition maxHistoricalSummaryBytes : Z := 1000.
Definition maxHistoricalBatchIDBytes : Z := 64.
Definition maxHistoricalKeyBytes : Z := 64.
Definition maxHistoricalReasonBytes : Z := 1000.

Record HistoricalProjectThreadAliasInput := { ha_Alias : string; ha_SessionID : string; ha_Source : source }.
Record HistoricalAttributionInput := { hat_SessionID : string; hat_Role : string; hat_Confidence : string; hat_Source : source }.
Record HistoricalEventInput := {
  hev_Key : string; hev_Kind : string; hev_Summary : string; hev_SessionID : string; hev_Confidence : string; hev_Source : source }.
Record HistoricalTaskInput := {
  hk_Key : string; hk_Title : string; hk_Description : string; hk_Acceptance : string; hk_State : string; hk_Priority : Z;
  hk_Source : source; hk_Attributions : list HistoricalAttributionInput; hk_Events : list HistoricalEventInput }.
Record HistoricalImportCommand := {
  hc_ProjectID : string; hc_BatchID : string; hc_SourceDigest : string; hc_CollisionPolicy : string;
  hc_ConfirmSourceDigest : string; hc_ConfirmManifestDigest : string; hc_SchemaVersion : Z;
  hc_ProjectThreadAliases : list HistoricalProjectThreadAliasInput; hc_Tasks : list HistoricalTaskInput; hc_Meta : CoreWriteMeta }.

Record HistoricalImportTaskReceipt := { hr_Key : string; hr_TaskID : string; hr_Disposition : string }.
Record HistoricalImportCounts := {
  n_Aliases : Z; n_Tasks : Z; n_Attributions : Z; n_Events : Z; n_Created : Z; n_SkippedCurrent : Z; n_Replayed : Z }.
Record HistoricalImportReceipt := {
  r_ProjectID : string; r_BatchID : string; r_SourceDigest : string; r_ManifestDigest : string; r_CollisionPolicy : string;
  r_State : string; r_Applied : bool; r_RecordedAt : Z; r_Tasks : list HistoricalImportTaskReceipt;
  r_Counts : HistoricalImportCounts; r_ProjectRevision : Z }.
Record SupersedeHistoricalImportCommand := { hx_ProjectID : string; hx_BatchID : string; hx_Reason : string; hx_Meta : CoreWriteMeta }.

(** The structs that [coreFingerprint] is called with here. *)
Inductive importPayload :=
  | PayloadApply (ManifestDigest ConfirmSourceDigest ConfirmManifestDigest : string)
  | PayloadSupersede (ProjectID BatchID Reason : string).

(** [json.Marshal] of a command, which fails on a date that JSON cannot hold,
    and of those structs; SQLite's [json_extract(_,'$.batch_id')] *)
Class ImportJSON := {
  json_import : HistoricalImportCommand -> option string;
  json_payload : importPayload -> string;
  json_batch_id : string -> option string;
}.

(** [strings.ToLower], with the case tables of Unicode *)
Class CaseTables := strings_ToLower : string -> string.

Definition nul : string := String Ascii.zero "".

(** ** Tables *)

Record hbatch_row := {
  hb_project : string; hb_batch : string; hb_schema : Z; hb_source : string; hb_manifest : string; hb_policy : string; hb_request : string;
  hb_actor : string; hb_session : string; hb_recorded : Z }.
Record halias_row := {
  hl_batch : string; hl_alias : string; hl_session : string; hl_source : source; hl_actor : string; hl_recorder : string; hl_recorded : Z }.
Record hbatch_event_row := {
  be_id : string; be_batch : string; be_state : string; be_reason : string; be_request : option string; be_actor : string;
  be_session : string; be_recorded : Z }.
Record htask_row := {
  ht_batch : string; ht_key : string; ht_task : string; ht_disposition : string; ht_source : source; ht_recorded : Z }.
Record hattribution_row := {
  hn_import : string; hn_task : string; hn_session : string; hn_role : string; hn_confidence : string; hn_source : source;
  hn_actor : string; hn_recorder : string; hn_recorded : Z }.
Record htask_event_row := {
  he_import : string; he_task : string; he_key : string; he_kind : string; he_summary : string; he_session : string;
  he_confidence : string; he_source : source; he_actor : string; he_recorder : string; he_recorded : Z }.

(** [historical_import_batch_events] is kept in the order of its sequence. *)
Record XDB := mkXDB {
  x_arch : ADB;
  x_batches : gmap string hbatch_row;
  x_aliases : gmap string halias_row;
  x_batch_events : list hbatch_event_row;
  x_tasks : gmap string htask_row;
  x_attributions : gmap string hattribution_row;
  x_task_events : gmap string htask_event_row;
}.
Definition set_arch (v : ADB) (d : XDB) : XDB :=
  mkXDB v (x_batches d) (x_aliases d) (x_batch_events d) (x_tasks d) (x_attributions d) (x_task_events d).
Definition set_batches (v : gmap string hbatch_row) (d : XDB) : XDB :=
  mkXDB (x_arch d) v (x_aliases d) (x_batch_events d) (x_tasks d) (x_attributions d) (x_task_events d).
Definition set_aliases (v : gmap string halias_row) (d : XDB) : XDB :=
  mkXDB (x_arch d) (x_batches d) v (x_batch_events d) (x_tasks d) (x_attributions d) (x_task_events d).
Definition set_batch_events (v : list hbatch_event_row) (d : XDB) : XDB :=
  mkXDB (x_arch d) (x_batches d) (x_aliases d) v (x_tasks d) (x_attributions d) (x_task_events d).
Definition set_htasks (v : gmap string htask_row) (d : XDB) : XDB :=
  mkXDB (x_arch d) (x_batches d) (x_aliases d) (x_batch_events d) v (x_attributions d) (x_task_events d).
Definition set_attributions (v : gmap string hattribution_row) (d : XDB) : XDB :=
  mkXDB (x_arch d) (x_batches d) (x_aliases d) (x_batch_events d) (x_tasks d) v (x_task_events d).
Definition set_htask_events (v : gmap string htask_event_row) (d : XDB) : XDB :=
  mkXDB (x_arch d) (x_batches d) (x_aliases d) (x_batch_events d) (x_tasks d) (x_attributions d) v.

Definition x_core (d : XDB) : DB := core (x_arch d).
Definition put_core (c : DB) (d : XDB) : XDB := set_arch (set_core c (x_arch d)) d.
(** Core statements and programs in a transaction over all tables. *)
Definition on_x {E A} (m : M DB E A) : M XDB E A := zoom x_core put_core m.

Definition xcheck (ok : bool) (d : XDB) : SqlErr + unit * XDB := if ok then inr (tt, d) else inl SqlConstraint.

(** ** Statements *)

Definition insert_hbatch (id : string) (r : hbatch_row) : Stmt XDB unit := fun d =>
  xcheck (absent (x_batches d) id && present (projects (x_core d)) (hb_project r) && (hb_schema r =? 1)
          && seqb (hb_policy r) HistoricalCollisionCurrentWins
          && bool_decide (map_Forall (fun _ b => hb_request b <> hb_request r /\
               (hb_project b = hb_project r -> hb_batch b <> hb_batch r /\ hb_source b <> hb_source r)) (x_batches d)))
    (set_batches (<[id:=r]> (x_batches d)) d).

Definition insert_halias (id : string) (r : halias_row) : Stmt XDB unit := fun d =>
  xcheck (absent (x_aliases d) id && present (x_batches d) (hl_batch r)
          && bool_decide (map_Forall (fun _ a => hl_batch a = hl_batch r ->
               hl_alias a <> hl_alias r /\ hl_session a <> hl_session r) (x_aliases d)))
    (set_aliases (<[id:=r]> (x_aliases d)) d).

Definition insert_hbatch_event (r : hbatch_event_row) : Stmt XDB unit := fun d =>
  xcheck (present (x_batches d) (be_batch r) && isin (be_state r) ["applied"; "superseded"]
          && bool_decide (Forall (fun e => be_id e <> be_id r /\ (be_request r <> None -> be_request e <> be_request r)) (x_batch_events d)))
    (set_batch_events (x_batch_events d ++ [r]) d).

Definition insert_htask (id : string) (r : htask_row) : Stmt XDB unit := fun d =>
  xcheck (absent (x_tasks d) id && present (x_batches d) (ht_batch r) && isin (ht_disposition r) ["created"; "skipped_current"]
          && bool_decide (map_Forall (fun _ t =>
               (ht_batch t = ht_batch r -> ht_key t <> ht_key r) /\
               (ht_disposition t = "created"%string -> ht_disposition r = "created"%string -> ht_task t <> ht_task r)) (x_tasks d)))
    (set_htasks (<[id:=r]> (x_tasks d)) d).

Definition insert_hattribution (id : string) (r : hattribution_row) : Stmt XDB unit := fun d =>
  xcheck (absent (x_attributions d) id && present (x_tasks d) (hn_import r) && present (tasks (x_core d)) (hn_task r)
          && isin (hn_role r) HistoricalRoles && isin (hn_confidence r) HistoricalConfidences
          && bool_decide (map_Forall (fun _ a => hn_import a = hn_import r -> hn_session a = hn_session r -> hn_role a <> hn_role r)
               (x_attributions d)))
    (set_attributions (<[id:=r]> (x_attributions d)) d).

Definition insert_htask_event (id : string) (r : htask_event_row) : Stmt XDB unit := fun d =>
  xcheck (absent (x_task_events d) id && present (x_tasks d) (he_import r) && present (tasks (x_core d)) (he_task r)
          && isin (he_kind r) HistoricalEventKinds && isin (he_confidence r) HistoricalConfidences
          && bool_decide (map_Forall (fun _ e => he_import e = he_import r -> he_key e <> he_key r) (x_task_events d)))
    (set_htask_events (<[id:=r]> (x_task_events d)) d).

(** ** Queries *)

Definition batch_by_key (projectID batchID : string) : XDB -> SqlErr + (string * hbatch_row) := fun d =>
  match List.filter (fun e => seqb (hb_project e.2) projectID && seqb (hb_batch e.2) batchID) (map_to_list (x_batches d)) with
  | e :: _ => inr e
  | [] => inl SqlNoRows
  end.

(** the state of the last event of a batch *)
Definition batch_state (recordID : string) (d : XDB) : option string :=
  be_state <$> last (List.filter (fun e => seqb (be_batch e) recordID) (x_batch_events d)).
Definition latest_state (recordID : string) : XDB -> SqlErr + string := fun d =>
  match batch_state recordID d with Some s => inr s | None => inl SqlNoRows end.

(** [... WHERE batch_record_id=? ORDER BY source_key] *)
Definition key_le (a b : htask_row) : Prop := sle (ht_key a) (ht_key b).
#[export] Instance key_le_dec a b : Decision (key_le a b).
Proof. unfold key_le. apply _. Defined.
Definition tasks_of_batch (recordID : string) (d : XDB) : list htask_row :=
  merge_sort key_le (List.filter (fun r => seqb (ht_batch r) recordID) (map_to_list (x_tasks d)).*2).

(** a batch's import tasks, by their ids *)
Definition of_batch (recordID : string) (d : XDB) (importTask : string) : bool :=
  match x_tasks d !! importTask with Some t => seqb (ht_batch t) recordID | None => false end.
Definition count_if {A} (p : A -> bool) (l : list A) : Z := Z.of_nat (length (List.filter p l)).
Definition batch_counts (recordID : string) (d : XDB) : Z * Z * Z :=
  (count_if (fun a => seqb (hl_batch a) recordID) (map_to_list (x_aliases d)).*2,
   count_if (fun a => of_batch recordID d (hn_import a)) (map_to_list (x_attributions d)).*2,
   count_if (fun e => of_batch recordID d (he_import e)) (map_to_list (x_task_events d)).*2).

(** the view [active_tasks]: a task is hidden when the batch that created it
    was superseded *)
Definition hidden (d : XDB) (taskID : string) : bool :=
  existsb (fun r => seqb (ht_task r) taskID && seqb (ht_disposition r) "created"
                    && bool_decide (is_Some (x_batches d !! ht_batch r)) && bool_decide (batch_state (ht_batch r) d = Some "superseded"%string))
    (map_to_list (x_tasks d)).*2.
Definition pair_le (a b : string * string) : Prop := sle a.1 b.1 /\ (a.1 = b.1 -> sle a.2 b.2).
#[export] Instance pair_le_dec a b : Decision (pair_le a b).
Proof. unfold pair_le. apply _. Defined.
(** [SELECT id,title FROM active_tasks WHERE project_id=? ORDER BY id] *)
Definition active_titles (projectID : string) (d : XDB) : list (string * string) :=
  merge_sort pair_le ((fun e => (e.1, t_title e.2)) <$>
    List.filter (fun e => seqb (t_project e.2) projectID && negb (hidden d e.1)) (map_to_list (tasks (x_core d)))).
(** the keys and tasks of the applied imports of a project *)
Definition applied_keys (projectID : string) (d : XDB) : list (string * string) :=
  merge_sort pair_le ((fun r => (ht_key r, ht_task r)) <$>
    List.filter (fun r => seqb (ht_disposition r) "created"
      && match x_batches d !! ht_batch r with Some b => seqb (hb_project b) projectID | None => false end
      && bool_decide (batch_state (ht_batch r) d = Some "applied"%string)) (map_to_list (x_tasks d)).*2).

(** ** Normalisation *)

(** [sort.Slice] by a text.  Where it is used no two elements share theirs. *)
Definition by_text {A} (key : A -> string) : relation A := fun a b => sle (key a) (key b).
#[export] Instance by_text_dec {A} (key : A -> string) a b : Decision (by_text key a b).
Proof. unfold by_text. apply _. Defined.
Definition sort_by {A} (key : A -> string) (l : list A) : list A := merge_sort (by_text key) l.

(** The maps named [seen...] refuse a repeated text. *)
Definition distinct (l : list string) : bool := bool_decide (NoDup l).
Definition size {A} (l : list A) : Z := Z.of_nat (length l).

Definition valid_alias (now : Z) (a : HistoricalProjectThreadAliasInput) : bool :=
  historicalKeyPattern (ha_Alias a) && boundedCoreText (ha_SessionID a) maxCoreIDBytes true && validHistoricalSource (ha_Source a) now.

Definition attribution_key (a : HistoricalAttributionInput) : string := String.concat nul [hat_SessionID a; hat_Role a].
Definition attribution_order (a : HistoricalAttributionInput) : string :=
  String.concat nul [hat_SessionID a; hat_Role a; s_Kind (hat_Source a); s_StableID (hat_Source a); s_Digest (hat_Source a)].

Definition valid_attribution (now : Z) (aliasSessions : list string) (a : HistoricalAttributionInput) : bool :=
  boundedCoreText (hat_SessionID a) maxCoreIDBytes true && negb (isin (hat_SessionID a) aliasSessions)
  && isin (hat_Role a) HistoricalRoles && isin (hat_Confidence a) HistoricalConfidences && validHistoricalSource (hat_Source a) now.

Definition valid_event (now : Z) (aliasSessions attributedSessions : list string) (e : HistoricalEventInput) : bool :=
  historicalKeyPattern (hev_Key e) && (len (hev_Key e) <=? maxHistoricalKeyBytes) && isin (hev_Kind e) HistoricalEventKinds
  && boundedCoreText (hev_Summary e) maxHistoricalSummaryBytes true && boundedCoreText (hev_SessionID e) maxCoreIDBytes false
  && (seqb (hev_SessionID e) "" || negb (isin (hev_SessionID e) aliasSessions))
  && (seqb (hev_SessionID e) "" || isin (hev_SessionID e) attributedSessions)
  && isin (hev_Confidence e) HistoricalConfidences && validHistoricalSource (hev_Source e) now.

Definition valid_task (now : Z) (aliasSessions : list string) (t : HistoricalTaskInput) : bool :=
  historicalKeyPattern (hk_Key t) && (len (hk_Key t) <=? maxHistoricalKeyBytes)
  && boundedCoreText (hk_Title t) maxTaskTitleBytes true && boundedCoreText (hk_Description t) maxTaskDescriptionBytes false
  && boundedCoreText (hk_Acceptance t) maxTaskAcceptanceBytes false && seqb (hk_State t) "done"
  && (-1000 <=? hk_Priority t) && (hk_Priority t <=? 1000) && validHistoricalSource (hk_Source t) now
  && (1 <=? size (hk_Attributions t)) && (size (hk_Attributions t) <=? 20) && (size (hk_Events t) <=? maxHistoricalTaskEvents)
  && forallb (valid_attribution now aliasSessions) (hk_Attributions t) && distinct (attribution_key <$> hk_Attributions t)
  && forallb (valid_event now aliasSessions (hat_SessionID <$> hk_Attributions t)) (hk_Events t) && distinct (hev_Key <$> hk_Events t).

Definition sum_of {A} (f : A -> Z) (l : list A) : Z := foldr (fun x n => f x + n) 0 l.
Definition all_attributions (c : HistoricalImportCommand) : Z := sum_of (fun t => size (hk_Attributions t)) (hc_Tasks c).
Definition all_events (c : HistoricalImportCommand) : Z := sum_of (fun t => size (hk_Events t)) (hc_Tasks c).

(** the checks of [normalizeHistoricalImport], all of which fail alike *)
Definition valid_import (now : Z) (c : HistoricalImportCommand) : bool :=
  (hc_SchemaVersion c =? HistoricalImportSchemaVersion) && boundedCoreText (hc_ProjectID c) maxCoreIDBytes true
  && historicalKeyPattern (hc_BatchID c) && (len (hc_BatchID c) <=? maxHistoricalBatchIDBytes)
  && historicalDigestPattern (hc_SourceDigest c) && seqb (hc_CollisionPolicy c) HistoricalCollisionCurrentWins
  && (1 <=? size (hc_Tasks c)) && (size (hc_Tasks c) <=? maxHistoricalTasks)
  && (size (hc_ProjectThreadAliases c) <=? maxHistoricalAliases)
  && forallb (valid_alias now) (hc_ProjectThreadAliases c)
  && distinct (ha_Alias <$> hc_ProjectThreadAliases c) && distinct (ha_SessionID <$> hc_ProjectThreadAliases c)
  && forallb (valid_task now (ha_SessionID <$> hc_ProjectThreadAliases c)) (hc_Tasks c) && distinct (hk_Key <$> hc_Tasks c)
  && (all_attributions c <=? maxHistoricalAttributions) && (all_events c <=? maxHistoricalEvents).

Definition sorted_task (t : HistoricalTaskInput) : HistoricalTaskInput :=
  {| hk_Key := hk_Key t; hk_Title := hk_Title t; hk_Description := hk_Description t; hk_Acceptance := hk_Acceptance t;
     hk_State := hk_State t; hk_Priority := hk_Priority t; hk_Source := hk_Source t;
     hk_Attributions := sort_by attribution_order (hk_Attributions t); hk_Events := sort_by hev_Key (hk_Events t) |}.

Definition emptyMeta : CoreWriteMeta := {| ActorID := ""; SessionID := ""; RequestID := "" |}.
Definition sorted_import (c : HistoricalImportCommand) : HistoricalImportCommand :=
  {| hc_ProjectID := hc_ProjectID c; hc_BatchID := hc_BatchID c; hc_SourceDigest := hc_SourceDigest c;
     hc_CollisionPolicy := hc_CollisionPolicy c; hc_ConfirmSourceDigest := ""; hc_ConfirmManifestDigest := "";
     hc_SchemaVersion := hc_SchemaVersion c; hc_ProjectThreadAliases := sort_by ha_Alias (hc_ProjectThreadAliases c);
     hc_Tasks := sort_by hk_Key (sorted_task <$> hc_Tasks c); hc_Meta := emptyMeta |}.

Definition import_counts (c : HistoricalImportCommand) : HistoricalImportCounts :=
  {| n_Aliases := size (hc_ProjectThreadAliases c); n_Tasks := size (hc_Tasks c); n_Attributions := all_attributions c;
     n_Events := all_events c; n_Created := 0; n_SkippedCurrent := 0; n_Replayed := 0 |}.

Section Imports.
Context `{Sha256} `{ImportJSON} `{CaseTables}.

Definition sha256_text (payload : string) : string := "sha256:" +:+ hex_EncodeToString (sha256_Sum256 payload).

Definition normalizeHistoricalImport (command : HistoricalImportCommand) (now : Z)
    : Err + HistoricalImportCommand * string * HistoricalImportCounts :=
  if valid_import now command then
    let out := sorted_import command in
    match json_import out with
    | Some payload => inr (out, sha256_text payload, import_counts command)
    | None => inl (ErrOther "json: unsupported value")
    end
  else inl ErrInvalid.

Definition normalizeHistoricalTitle (value : string) : string := strings_ToLower (String.concat " " (Fields value)).
Definition historicalBatchRecordID (projectID batchID : string) : string := deterministicHistoricalID "HIB-" [projectID; batchID].
Definition historicalTaskID (projectID batchID key : string) : string := deterministicHistoricalID "T-H-" [projectID; batchID; key].
Definition importFingerprint (p : importPayload) : string := hex_EncodeToString (sha256_Sum256 (json_payload p)).

(** ** Reading

    [historicalQuerier]: a statement of a transaction or of the database. *)
Definition historicalQuerier := forall A, (XDB -> SqlErr + A) -> M XDB SqlErr A.
Definition on_tx : historicalQuerier := fun A q => exec (query q).
Definition on_db : historicalQuerier := fun A q => autocommit (query q).
Definition map_sql {DB A} (m : M DB SqlErr A) : M DB Err A := mapE (fun e => mapErr (ErrSql e)) m.
Definition raw_sql {DB A} (m : M DB SqlErr A) : M DB Err A := mapE ErrSql m.

Definition latestHistoricalBatchState (q : historicalQuerier) (recordID : string) : M XDB Err string := map_sql (q _ (latest_state recordID)).

Definition shown_task (replay : bool) (t : htask_row) : HistoricalImportTaskReceipt :=
  {| hr_Key := ht_key t; hr_TaskID := ht_task t; hr_Disposition := if replay then "replayed" else ht_disposition t |}.

Definition stored_receipt (b : hbatch_row) (revision : Z) (state : string) (rows : list htask_row) (counts : Z * Z * Z) (replay : bool)
    : HistoricalImportReceipt :=
  {| r_ProjectID := hb_project b; r_BatchID := hb_batch b; r_SourceDigest := hb_source b; r_ManifestDigest := hb_manifest b;
     r_CollisionPolicy := hb_policy b; r_State := state; r_Applied := seqb state "applied"; r_RecordedAt := hb_recorded b;
     r_Tasks := shown_task replay <$> rows;
     r_Counts := {| n_Aliases := counts.1.1; n_Tasks := size rows; n_Attributions := counts.1.2; n_Events := counts.2;
                    n_Created := if replay then 0 else count_if (fun t => seqb (ht_disposition t) "created") rows;
                    n_SkippedCurrent := if replay then 0 else count_if (fun t => negb (seqb (ht_disposition t) "created")) rows;
                    n_Replayed := if replay then size rows else 0 |};
     r_ProjectRevision := revision |}.

Definition readHistoricalImportReceipt (q : historicalQuerier) (projectID batchID : string) (replay : bool) : M XDB Err HistoricalImportReceipt :=
  b <-- map_sql (q _ (batch_by_key projectID batchID)) ;;
  p <-- map_sql (q _ (fun d => select projects projectID (x_core d))) ;;
  state <-- latestHistoricalBatchState q b.1 ;;
  rows <-- raw_sql (q _ (fun d => inr (tasks_of_batch b.1 d))) ;;
  counts <-- raw_sql (q _ (fun d => inr (batch_counts b.1 d))) ;;
  ret (stored_receipt b.2 (p_revision p) state rows counts replay).

(** the first value of each key, and the keys with several values *)
Definition index_row (m : gmap string string * gset string) (row : string * string) : gmap string string * gset string :=
  match m.1 !! row.1 with
  | None => (<[row.1:=row.2]> m.1, m.2)
  | Some previous => if seqb previous row.2 then m else (m.1, {[row.1]} ∪ m.2)
  end.
Definition index (rows : list (string * string)) : gmap string string * gset string := fold_left index_row rows (∅, ∅).

(** the task an imported one is recorded as, and whether it is there already;
    [None] when that is ambiguous *)
Definition resolve (c : HistoricalImportCommand) (titles keys : list (string * string)) (t : HistoricalTaskInput) : option (string * bool) :=
  let byKey := index keys in
  let byTitle := index ((fun e => (normalizeHistoricalTitle e.2, e.1)) <$> titles) in
  let id := historicalTaskID (hc_ProjectID c) (hc_BatchID c) (hk_Key t) in
  let exact := default "" (byKey.1 !! hk_Key t) in
  if negb (seqb exact "") then if bool_decide (hk_Key t ∈ byKey.2) then None else Some (exact, true)
  else if isin id titles.*1 then Some (id, true)
  else
    let titleKey := normalizeHistoricalTitle (hk_Title t) in
    if bool_decide (titleKey ∈ byTitle.2) then None
    else let found := default "" (byTitle.1 !! titleKey) in
         Some (if seqb found "" then (id, false) else (found, true)).

Definition previewed (t : HistoricalTaskInput) (r : string * bool) : HistoricalImportTaskReceipt :=
  {| hr_Key := hk_Key t; hr_TaskID := r.1; hr_Disposition := if r.2 then "skipped_current" else "created" |}.

Definition preview_receipt (command : HistoricalImportCommand) (manifestDigest : string) (counts : HistoricalImportCounts) (revision : Z)
    (found : list (string * bool)) : HistoricalImportReceipt :=
  {| r_ProjectID := hc_ProjectID command; r_BatchID := hc_BatchID command; r_SourceDigest := hc_SourceDigest command;
     r_ManifestDigest := manifestDigest; r_CollisionPolicy := hc_CollisionPolicy command; r_State := "preview";
     r_Applied := false; r_RecordedAt := zeroTime; r_Tasks := zip_with previewed (hc_Tasks command) found;
     r_Counts := {| n_Aliases := n_Aliases counts; n_Tasks := n_Tasks counts; n_Attributions := n_Attributions counts;
                    n_Events := n_Events counts; n_Created := n_Created counts + count_if (fun r => negb r.2) found;
                    n_SkippedCurrent := n_SkippedCurrent counts + count_if snd found; n_Replayed := n_Replayed counts |};
     r_ProjectRevision := revision |}.

(** A command that was normalised has tasks. *)
Definition previewHistoricalImport (q : historicalQuerier) (command : HistoricalImportCommand) (manifestDigest : string)
    (counts : HistoricalImportCounts) : M XDB Err HistoricalImportReceipt :=
  prior <-- attempt (q _ (batch_by_key (hc_ProjectID command) (hc_BatchID command))) ;;
  match prior with
  | inr (_, b) =>
      require (seqb (hb_manifest b) manifestDigest && seqb (hb_source b) (hc_SourceDigest command)) ErrConflict ;;;
      readHistoricalImportReceipt q (hc_ProjectID command) (hc_BatchID command) true
  | inl SqlNoRows =>
      p <-- raw_sql (q _ (fun d => select projects (hc_ProjectID command) (x_core d))) ;;
      titles <-- raw_sql (q _ (fun d => inr (active_titles (hc_ProjectID command) d))) ;;
      keys <-- raw_sql (q _ (fun d => inr (applied_keys (hc_ProjectID command) d))) ;;
      match mapM (resolve command titles keys) (hc_Tasks command) with
      | None => throw ErrConflict
      | Some found =>
          ret (preview_receipt command manifestDigest counts (p_revision p) found)
      end
  | inl e => throw (ErrSql e)
  end.

Definition nativeHistoricalProposalExists (q : historicalQuerier) (projectID batchID : string) : M XDB Err bool :=
  raw_sql (q _ (fun d => inr (existsb (fun o => seqb (oc_project o) projectID && bool_decide (json_batch_id (oc_proposal o) = Some batchID))
                                 (map_to_list (a_outcomes (x_arch d))).*2))).

Definition lift_sum {A} (r : Err + A) : M XDB Err A := match r with inl e => throw e | inr a => ret a end.

Definition PreviewHistoricalImport (command : HistoricalImportCommand) : M XDB Err HistoricalImportReceipt :=
  native <-- nativeHistoricalProposalExists on_db (hc_ProjectID command) (hc_BatchID command) ;;
  require (negb native) ErrUnavailable ;;;
  t <-- now ;;
  n <-- lift_sum (normalizeHistoricalImport command t) ;;
  previewHistoricalImport on_db n.1.1 n.1.2 n.2.

(** ** Writing *)

Definition body {A} (m : M XDB Err A) : M XDB TxFail A := mapE FBody m.

Definition zeroTask : HistoricalTaskInput :=
  {| hk_Key := ""; hk_Title := ""; hk_Description := ""; hk_Acceptance := ""; hk_State := ""; hk_Priority := 0;
     hk_Source := {| s_Kind := ""; s_StableID := ""; s_Digest := ""; s_OccurredAt := zeroTime |}; hk_Attributions := []; hk_Events := [] |}.
Definition byKey (l : list HistoricalTaskInput) (key : string) : HistoricalTaskInput :=
  default zeroTask (List.find (fun t => seqb (hk_Key t) key) l).

(** what is written for one imported task *)
Definition import_attribution (meta : CoreWriteMeta) (t : Z) (importTaskID taskID : string) (a : HistoricalAttributionInput) : M XDB TxFail unit :=
  let source := hat_Source a in
  mapped (exec (insert_hattribution
    (deterministicHistoricalID "HTA-" [importTaskID; hat_SessionID a; hat_Role a; s_Kind source; s_StableID source; s_Digest source])
    {| hn_import := importTaskID; hn_task := taskID; hn_session := hat_SessionID a; hn_role := hat_Role a;
       hn_confidence := hat_Confidence a; hn_source := source; hn_actor := ActorID meta; hn_recorder := SessionID meta; hn_recorded := t |})).

Definition import_event (meta : CoreWriteMeta) (t : Z) (importTaskID taskID : string) (e : HistoricalEventInput) : M XDB TxFail unit :=
  mapped (exec (insert_htask_event (deterministicHistoricalID "HTE-" [importTaskID; hev_Key e])
    {| he_import := importTaskID; he_task := taskID; he_key := hev_Key e; he_kind := hev_Kind e; he_summary := hev_Summary e;
       he_session := hev_SessionID e; he_confidence := hev_Confidence e; he_source := hev_Source e; he_actor := ActorID meta;
       he_recorder := SessionID meta; he_recorded := t |})).

Definition imported_row (projectID : string) (revision : Z) (task : HistoricalTaskInput) : task_row :=
  {| t_project := projectID; t_state := "done"; t_title := hk_Title task; t_priority := hk_Priority task; t_owner := None;
     t_accept := hk_Acceptance task; t_description := hk_Description task; t_milestone := None; t_revision := revision;
     t_created := s_OccurredAt (hk_Source task); t_updated := s_OccurredAt (hk_Source task) |}.

Definition import_task (command : HistoricalImportCommand) (all : list HistoricalTaskInput) (recordID : string) (revision t : Z)
    (receipt : HistoricalImportTaskReceipt) : M XDB TxFail unit :=
  let task := byKey all (hr_Key receipt) in
  let importTaskID := deterministicHistoricalID "HIT-" [recordID; hk_Key task] in
  mapped (exec (insert_htask importTaskID
    {| ht_batch := recordID; ht_key := hk_Key task; ht_task := hr_TaskID receipt; ht_disposition := hr_Disposition receipt;
       ht_source := hk_Source task; ht_recorded := t |})) ;;;
  if negb (seqb (hr_Disposition receipt) "created") then ret tt
  else
    on_x (mapped (exec (insert_task (hr_TaskID receipt) (imported_row (hc_ProjectID command) revision task)))) ;;;
    on_x (insertTaskEvent (hr_TaskID receipt) (hc_ProjectID command) revision "imported" "Historical outcome recorded" "" "done"
            (hc_Meta command) t) ;;;
    forM_ (hk_Attributions task) (import_attribution (hc_Meta command) t importTaskID (hr_TaskID receipt)) ;;;
    forM_ (hk_Events task) (import_event (hc_Meta command) t importTaskID (hr_TaskID receipt)).

Definition import_alias (meta : CoreWriteMeta) (recordID : string) (t : Z) (a : HistoricalProjectThreadAliasInput) : M XDB TxFail unit :=
  mapped (exec (insert_halias (deterministicHistoricalID "HPA-" [recordID; ha_Alias a; ha_SessionID a])
    {| hl_batch := recordID; hl_alias := ha_Alias a; hl_session := ha_SessionID a; hl_source := ha_Source a;
       hl_actor := ActorID meta; hl_recorder := SessionID meta; hl_recorded := t |})).

(** the writes of [applyHistoricalImportTx], after the preview *)
Definition import_writes (command normalized : HistoricalImportCommand) (key fingerprint manifestDigest : string) (t : Z)
    (preview : HistoricalImportReceipt) : M XDB TxFail unit :=
  let meta := hc_Meta command in
  revision <-- on_x (bumpProjectRevision (hc_ProjectID command) t) ;;
  let recordID := historicalBatchRecordID (hc_ProjectID command) (hc_BatchID command) in
  mapped (exec (insert_hbatch recordID
    {| hb_project := hc_ProjectID command; hb_batch := hc_BatchID command; hb_schema := hc_SchemaVersion command;
       hb_source := hc_SourceDigest command; hb_manifest := manifestDigest; hb_policy := hc_CollisionPolicy command; hb_request := key;
       hb_actor := ActorID meta; hb_session := SessionID meta; hb_recorded := t |})) ;;;
  forM_ (hc_ProjectThreadAliases normalized) (import_alias meta recordID t) ;;;
  mapped (exec (insert_hbatch_event
    {| be_id := deterministicHistoricalID "HBE-" [recordID; "applied"]; be_batch := recordID; be_state := "applied"; be_reason := "";
       be_request := None; be_actor := ActorID meta; be_session := SessionID meta; be_recorded := t |})) ;;;
  forM_ (r_Tasks preview) (import_task command (hc_Tasks normalized) recordID revision t) ;;;
  let created : string := pretty (Z.to_N (n_Created (r_Counts preview))) in
  on_x (insertCoreChange (hc_ProjectID command) revision "historical_import" (hc_BatchID command)
          ("Recorded " +:+ created +:+ " historical outcomes") t) ;;;
  on_x (insertCoreActivity "project_updated" (hc_ProjectID command) (ActorID meta) (hc_BatchID command) "Historical task import"
          (created +:+ " outcomes recorded") t) ;;;
  on_x (mapped (exec (recordCoreReplay key "historical_import.apply" fingerprint
          {| cr_id := hc_BatchID command; cr_revision := revision; cr_project_revision := revision; cr_now := t |}))).

Definition replay_of (key operation fingerprint : string) : XDB -> SqlErr + (Err + option WriteResult) := fun d =>
  readCoreReplay key operation fingerprint (x_core d).

Definition applyHistoricalImportTx (command : HistoricalImportCommand) : M XDB TxFail HistoricalImportReceipt :=
  require (validCoreMeta (hc_Meta command) && negb (seqb (hc_ConfirmSourceDigest command) "")
           && seqb (hc_ConfirmSourceDigest command) (hc_SourceDigest command) && negb (seqb (hc_ConfirmManifestDigest command) ""))
    (FBody ErrInvalid) ;;;
  t <-- now ;;
  n <-- body (lift_sum (normalizeHistoricalImport command t)) ;;
  let '(normalized, manifestDigest, counts) := n in
  require (seqb (hc_ConfirmManifestDigest command) manifestDigest) (FBody ErrInvalid) ;;;
  let fingerprint := importFingerprint (PayloadApply manifestDigest (hc_ConfirmSourceDigest command) (hc_ConfirmManifestDigest command)) in
  let key := coreRequestKey (hc_Meta command) in
  on_x (mapped (exec (lockCoreWriter key))) ;;;
  prior <-- plain (exec (query (replay_of key "historical_import.apply" fingerprint))) ;;
  match prior with
  | inl e => throw (FBody e)
  | inr (Some _) => body (readHistoricalImportReceipt on_tx (hc_ProjectID command) (hc_BatchID command) true)
  | inr None =>
      preview <-- body (previewHistoricalImport on_tx normalized manifestDigest counts) ;;
      if negb (seqb (r_State preview) "preview") then ret preview
      else
        import_writes command normalized key fingerprint manifestDigest t preview ;;;
        body (readHistoricalImportReceipt on_tx (hc_ProjectID command) (hc_BatchID command) false)
  end.

(** [UPDATE installation_status SET updated_at=updated_at WHERE id=1] *)
Definition reserve : Stmt XDB unit := fun d => inr (tt, d).

(** [Commit] reports a failure through [mapErr], the other calls as they are *)
Definition importTx {A} (m : M XDB TxFail (TxOut A)) : M XDB Err A :=
  mapE (fun f => match f with FBegin e | FBody e | FReplay e => e | FCommit e => mapErr e end) (withTx m).

Definition ApplyHistoricalImport (command : HistoricalImportCommand) : M XDB Err HistoricalImportReceipt :=
  receipt <-- importTx (
    plain (exec reserve) ;;;
    native <-- body (nativeHistoricalProposalExists on_tx (hc_ProjectID command) (hc_BatchID command)) ;;
    require (negb native) (FBody ErrUnavailable) ;;;
    receipt <-- applyHistoricalImportTx command ;;
    ret (TxCommit receipt)) ;;
  readHistoricalImportReceipt on_db (r_ProjectID receipt) (r_BatchID receipt) false.

(** the writes of [SupersedeHistoricalImport] *)
Definition supersede_writes (command : SupersedeHistoricalImportCommand) (recordID key fingerprint : string) : M XDB TxFail unit :=
  let meta := hx_Meta command in
  t <-- now ;;
  revision <-- on_x (bumpProjectRevision (hx_ProjectID command) t) ;;
  mapped (exec (insert_hbatch_event
    {| be_id := deterministicHistoricalID "HBE-" [recordID; "superseded"]; be_batch := recordID; be_state := "superseded";
       be_reason := hx_Reason command; be_request := Some key; be_actor := ActorID meta; be_session := SessionID meta; be_recorded := t |})) ;;;
  on_x (insertCoreChange (hx_ProjectID command) revision "historical_import_superseded" (hx_BatchID command) (hx_Reason command) t) ;;;
  on_x (insertCoreActivity "project_updated" (hx_ProjectID command) (ActorID meta) (hx_BatchID command) "Historical task import"
          "superseded" t) ;;;
  on_x (mapped (exec (recordCoreReplay key "historical_import.supersede" fingerprint
          {| cr_id := hx_BatchID command; cr_revision := revision; cr_project_revision := revision; cr_now := t |}))).

Definition SupersedeHistoricalImport (command : SupersedeHistoricalImportCommand) : M XDB Err HistoricalImportReceipt :=
  require (boundedCoreText (hx_ProjectID command) maxCoreIDBytes true && historicalKeyPattern (hx_BatchID command)
           && boundedCoreText (hx_Reason command) maxHistoricalReasonBytes true && validCoreMeta (hx_Meta command)) ErrInvalid ;;;
  let fingerprint := importFingerprint (PayloadSupersede (hx_ProjectID command) (hx_BatchID command) (hx_Reason command)) in
  let key := coreRequestKey (hx_Meta command) in
  prior <-- raw_sql (autocommit (query (replay_of key "historical_import.supersede" fingerprint))) ;;
  match prior with
  | inl e => throw e
  | inr (Some _) => readHistoricalImportReceipt on_db (hx_ProjectID command) (hx_BatchID command) true
  | inr None =>
      importTx (
        on_x (mapped (exec (lockCoreWriter key))) ;;;
        b <-- mapped (exec (query (batch_by_key (hx_ProjectID command) (hx_BatchID command)))) ;;
        state <-- body (latestHistoricalBatchState on_tx b.1) ;;
        require (seqb state "applied") (FBody ErrConflict) ;;;
        supersede_writes command b.1 key fingerprint ;;;
        ret (TxCommit tt)) ;;;
      readHistoricalImportReceipt on_db (hx_ProjectID command) (hx_BatchID command) false
  end.
End Imports.
