(* ===== verification/ImportSpec.v ===== *)
(** * What an import can be relied on for

    Theorems about [HistoricalImport]: the digest a human confirms does not
    depend on the order of the batch; an import is one committed step of
    Project Core, and never changes a task that is there; what is applied is
    what was previewed; and a superseded batch stays so. *)

From Stdlib Require Import ZArith Lia Ascii.
From stdpp Require Import base gmap strings list sets sorting pretty relations.
From S2P Require Import Prelude GoText Framing CoreDB ProjectCore Claims CoreSpec CoreRefine CoreSafety OpsFs ArchDB ArchPolicy HistoricalImport.

Local Open Scope Z_scope.
Local Open Scope prog_scope.

(** ** Sorting by a text *)

#[export] Instance by_text_total {A} (key : A -> string) : Total (by_text key).
Proof. intros x y. apply (total sle). Qed.
#[export] Instance by_text_trans {A} (key : A -> string) : Transitive (by_text key).
Proof. intros x y z. unfold by_text. apply (transitivity (R := sle)). Qed.

(** Two lists with the same elements, no two of which share their text, sort
    to the same list. *)
Lemma sort_by_canonical {A} (key : A -> string) l l' :
  (forall x y, x ∈ l -> y ∈ l -> key x = key y -> x = y) -> l ≡ₚ l' -> sort_by key l = sort_by key l'.
Proof.
  intros Hinj Hp. apply (StronglySorted_unique_strong (by_text key)).
  - intros x y Hx Hy Hxy Hyx. unfold sort_by in *.
    rewrite (merge_sort_Permutation _ l) in Hx. rewrite (merge_sort_Permutation _ l'), <-Hp in Hy.
    apply Hinj; [done..|]. by apply (anti_symm sle).
  - apply (StronglySorted_merge_sort _).
  - apply (StronglySorted_merge_sort _).
  - unfold sort_by. by rewrite !merge_sort_Permutation.
Qed.

Lemma fmap_inj_on {A B} (f : A -> B) (l : list A) : NoDup (f <$> l) -> forall x y, x ∈ l -> y ∈ l -> f x = f y -> x = y.
Proof.
  induction l as [|z l IH]; simpl; intros Hnd x y Hx Hy Heq; [by apply not_elem_of_nil in Hx|].
  apply NoDup_cons in Hnd as [Hz Hnd]. rewrite elem_of_cons in Hx, Hy.
  destruct Hx as [->|Hx], Hy as [->|Hy]; [done|..|by apply IH].
  - destruct Hz. rewrite Heq. by apply list_elem_of_fmap_2.
  - destruct Hz. rewrite <-Heq. by apply list_elem_of_fmap_2.
Qed.

(** ** The order of a batch is immaterial *)

Record task_reordered (t t' : HistoricalTaskInput) : Prop := {
  tr_key : hk_Key t' = hk_Key t; tr_title : hk_Title t' = hk_Title t; tr_description : hk_Description t' = hk_Description t;
  tr_acceptance : hk_Acceptance t' = hk_Acceptance t; tr_state : hk_State t' = hk_State t; tr_priority : hk_Priority t' = hk_Priority t;
  tr_source : hk_Source t' = hk_Source t; tr_attributions : hk_Attributions t ≡ₚ hk_Attributions t';
  tr_events : hk_Events t ≡ₚ hk_Events t' }.

(** The same batch in another order, by whomever and however confirmed. *)
Record reordered (c c' : HistoricalImportCommand) : Prop := {
  ro_project : hc_ProjectID c' = hc_ProjectID c; ro_batch : hc_BatchID c' = hc_BatchID c;
  ro_source : hc_SourceDigest c' = hc_SourceDigest c; ro_policy : hc_CollisionPolicy c' = hc_CollisionPolicy c;
  ro_schema : hc_SchemaVersion c' = hc_SchemaVersion c;
  ro_aliases : hc_ProjectThreadAliases c ≡ₚ hc_ProjectThreadAliases c';
  ro_tasks : exists l, Forall2 task_reordered (hc_Tasks c) l /\ l ≡ₚ hc_Tasks c' }.

Lemma distinct_perm l l' : l ≡ₚ l' -> distinct l = distinct l'.
Proof. intros Hp. unfold distinct. apply bool_decide_ext. by rewrite Hp. Qed.

Lemma isin_perm x l l' : l ≡ₚ l' -> isin x l = isin x l'.
Proof. intros Hp. unfold isin. apply bool_decide_ext. by rewrite Hp. Qed.

Lemma forallb_perm {A} (f g : A -> bool) l l' : (forall x, f x = g x) -> l ≡ₚ l' -> forallb f l = forallb g l'.
Proof.
  intros Hfg Hp. apply eq_bool_prop_intro. rewrite !Is_true_true, !forallb_forall. setoid_rewrite Hfg.
  split; intros Hx x Hin; apply Hx; apply list_elem_of_In in Hin; apply list_elem_of_In; [by rewrite Hp|by rewrite <-Hp].
Qed.

Lemma size_perm {A} (l l' : list A) : l ≡ₚ l' -> size l = size l'.
Proof. intros Hp. unfold size. by rewrite Hp. Qed.

Lemma valid_task_reordered now s s' t t' : s ≡ₚ s' -> task_reordered t t' -> valid_task now s t = valid_task now s' t'.
Proof.
  intros Hs [Hk Htt Hd Ha Hst Hpr Hsrc Hat Hev]. unfold valid_task. rewrite Hk, Htt, Hd, Ha, Hst, Hpr, Hsrc.
  rewrite (size_perm _ _ Hat), (size_perm _ _ Hev).
  assert (hat_SessionID <$> hk_Attributions t ≡ₚ hat_SessionID <$> hk_Attributions t') as Hses by (by rewrite Hat).
  rewrite (forallb_perm (valid_attribution now s) (valid_attribution now s') _ _) by
    (first [exact Hat | intros x; unfold valid_attribution; by rewrite (isin_perm _ _ _ Hs)]).
  rewrite (forallb_perm (valid_event now s (hat_SessionID <$> hk_Attributions t)) (valid_event now s' (hat_SessionID <$> hk_Attributions t')) _ _) by
    (first [exact Hev | intros x; unfold valid_event; by rewrite (isin_perm _ _ _ Hs), (isin_perm _ _ _ Hses)]).
  rewrite (distinct_perm (attribution_key <$> hk_Attributions t) (attribution_key <$> hk_Attributions t')) by (by rewrite Hat).
  by rewrite (distinct_perm (hev_Key <$> hk_Events t) (hev_Key <$> hk_Events t')) by (by rewrite Hev).
Qed.

Lemma sum_of_reordered {A} (R : relation A) (f : A -> Z) l l' :
  (forall x y, R x y -> f x = f y) -> Forall2 R l l' -> sum_of f l = sum_of f l'.
Proof. intros Hf. induction 1 as [|x y l l' Hxy _ IH]; simpl; [done|]. by rewrite (Hf _ _ Hxy), IH. Qed.

Lemma sum_of_perm {A} (f : A -> Z) l l' : l ≡ₚ l' -> sum_of f l = sum_of f l'.
Proof. induction 1; simpl; lia. Qed.

Lemma forallb_reordered {A} (R : relation A) (f g : A -> bool) l l' :
  (forall x y, R x y -> f x = g y) -> Forall2 R l l' -> forallb f l = forallb g l'.
Proof. intros Hf. induction 1 as [|x y l l' Hxy _ IH]; simpl; [done|]. by rewrite (Hf _ _ Hxy), IH. Qed.

Lemma fmap_reordered {A B} (R : relation A) (f : A -> B) l l' :
  (forall x y, R x y -> f x = f y) -> Forall2 R l l' -> f <$> l = f <$> l'.
Proof. intros Hf. induction 1 as [|x y l l' Hxy _ IH]; [done|]. rewrite !fmap_cons. by rewrite (Hf _ _ Hxy), IH. Qed.

Lemma counts_reordered c c' : reordered c c' -> import_counts c = import_counts c'.
Proof.
  intros [_ _ _ _ _ Ha (l & Hl & Hp)]. unfold import_counts, all_attributions, all_events.
  rewrite (size_perm _ _ Ha), (size_perm _ _ (symmetry Hp)). unfold size at 2. rewrite (Forall2_length _ _ _ Hl).
  rewrite (sum_of_reordered task_reordered (fun t => size (hk_Attributions t)) _ _) by
    (first [exact Hl | intros x y Hxy; apply size_perm, Hxy]).
  rewrite (sum_of_reordered task_reordered (fun t => size (hk_Events t)) _ _) by
    (first [exact Hl | intros x y Hxy; apply size_perm, Hxy]).
  by rewrite !(sum_of_perm _ _ _ Hp).
Qed.

Lemma valid_reordered now c c' : reordered c c' -> valid_import now c = valid_import now c'.
Proof.
  intros Hr. pose proof (counts_reordered _ _ Hr) as Hc. unfold import_counts in Hc. injection Hc as H1 H2 H3 H4.
  destruct Hr as [Hp Hb Hs Hpo Hsc Ha (l & Hl & Hperm)]. unfold valid_import. rewrite Hp, Hb, Hs, Hpo, Hsc, H1, H2, H3, H4.
  rewrite (forallb_perm (valid_alias now) (valid_alias now) _ _) by (first [exact Ha | done]).
  rewrite (distinct_perm (ha_Alias <$> hc_ProjectThreadAliases c) (ha_Alias <$> hc_ProjectThreadAliases c')) by (by rewrite Ha).
  rewrite (distinct_perm (ha_SessionID <$> hc_ProjectThreadAliases c) (ha_SessionID <$> hc_ProjectThreadAliases c')) by (by rewrite Ha).
  rewrite (forallb_reordered task_reordered _ (valid_task now (ha_SessionID <$> hc_ProjectThreadAliases c')) _ _) by
    (first [exact Hl | intros x y Hxy; apply valid_task_reordered; [by rewrite Ha|done]]).
  rewrite (forallb_perm _ (valid_task now (ha_SessionID <$> hc_ProjectThreadAliases c')) _ _) by (first [exact Hperm | done]).
  rewrite (distinct_perm (hk_Key <$> hc_Tasks c) (hk_Key <$> hc_Tasks c')); [done|].
  rewrite (fmap_reordered task_reordered hk_Key _ _) by (first [exact Hl | intros x y []; done]). by rewrite Hperm.
Qed.

(** Texts without NUL bytes are the parts of what they are joined to. *)
Definition no_nul (s : string) : Prop := contains_nul s = false.

Lemma no_nul_cons a s : no_nul (String a s) <-> byte a <> 0 /\ no_nul s.
Proof. unfold no_nul, contains_nul. simpl. rewrite negb_false_iff, andb_true_iff, negb_true_iff, Z.eqb_neq, negb_false_iff. done. Qed.

Lemma cut_nul s s' x x' : no_nul s -> no_nul s' -> s +:+ nul +:+ x = s' +:+ nul +:+ x' -> s = s' /\ x = x'.
Proof.
  revert s'. induction s as [|a s IH]; intros [|b s'] Hs Hs'; unfold nul in *; simpl.
  - intros [= Heq]. by split.
  - intros [= <- _]. by apply no_nul_cons in Hs' as [[] _].
  - intros [= -> _]. by apply no_nul_cons in Hs as [[] _].
  - intros [= -> Heq]. apply no_nul_cons in Hs as [_ Hs], Hs' as [_ Hs']. by destruct (IH s' Hs Hs' Heq) as [-> ->].
Qed.

Lemma bounded_no_nul s max required : boundedCoreText s max required = true -> no_nul s.
Proof. unfold boundedCoreText, no_nul. intros Hb. destruct (contains_nul s); [|done]. by rewrite orb_true_r in Hb. Qed.

Lemma role_no_nul r : isin r HistoricalRoles = true -> no_nul r.
Proof. unfold isin. rewrite bool_decide_eq_true. unfold HistoricalRoles. set_unfold. intros Hr. destruct_or?; by subst. Qed.

Lemma attribution_order_inj now s l :
  forallb (valid_attribution now s) l = true -> distinct (attribution_key <$> l) = true ->
  forall x y, x ∈ l -> y ∈ l -> attribution_order x = attribution_order y -> x = y.
Proof.
  intros Hv Hd x y Hx Hy Heq. unfold distinct in Hd. rewrite bool_decide_eq_true in Hd. apply (fmap_inj_on _ _ Hd); [done..|].
  rewrite forallb_forall in Hv.
  assert (forall z, z ∈ l -> no_nul (hat_SessionID z) /\ no_nul (hat_Role z)) as Hn.
  { intros z Hz%list_elem_of_In%Hv. unfold valid_attribution in Hz. rewrite !andb_true_iff in Hz.
    split; [by eapply bounded_no_nul, Hz|by apply role_no_nul, Hz]. }
  destruct (Hn _ Hx) as [Hx1 Hx2], (Hn _ Hy) as [Hy1 Hy2]. unfold attribution_order in Heq. simpl in Heq.
  apply cut_nul in Heq as [Hs Heq]; [|done..]. apply cut_nul in Heq as [Hr _]; [|done..].
  unfold attribution_key. by rewrite Hs, Hr.
Qed.

Lemma sorted_task_reordered now s t t' : valid_task now s t = true -> task_reordered t t' -> sorted_task t = sorted_task t'.
Proof.
  intros Hv [Hk Htt Hd Ha Hst Hpr Hsrc Hat Hev]. unfold valid_task in Hv. rewrite !andb_true_iff in Hv. destruct_and!.
  unfold sorted_task. rewrite Hk, Htt, Hd, Ha, Hst, Hpr, Hsrc. f_equal.
  - apply sort_by_canonical; [|done]. by eapply attribution_order_inj.
  - apply sort_by_canonical; [|done]. apply fmap_inj_on. unfold distinct in *. by rewrite bool_decide_eq_true in *.
Qed.

Lemma sorted_reordered now c c' : valid_import now c = true -> reordered c c' -> sorted_import c = sorted_import c'.
Proof.
  intros Hv Hr. pose proof Hr as [Hp Hb Hs Hpo Hsc Ha (l & Hl & Hperm)]. unfold valid_import in Hv. rewrite !andb_true_iff in Hv.
  destruct_and!. unfold sorted_import. rewrite Hp, Hb, Hs, Hpo, Hsc. f_equal.
  - apply sort_by_canonical; [|done]. apply fmap_inj_on. unfold distinct in *. by rewrite bool_decide_eq_true in *.
  - apply sort_by_canonical.
    + apply fmap_inj_on. rewrite <-list_fmap_compose. change (hk_Key ∘ sorted_task) with hk_Key. unfold distinct in *. by rewrite bool_decide_eq_true in *.
    + assert (sorted_task <$> hc_Tasks c = sorted_task <$> l) as ->; [|by rewrite Hperm].
      match goal with H : forallb (valid_task _ _) _ = true |- _ => rename H into Hvt end. clear -Hvt Hl.
      induction Hl as [|x y l0 l1 Hxy _ IH]; [done|]. simpl in Hvt. apply andb_true_iff in Hvt as [Hx Hvt]. rewrite !fmap_cons, IH by done.
      by rewrite (sorted_task_reordered _ _ _ _ Hx Hxy).
Qed.

(** C11: the normalised command, the manifest digest that a human confirms and the
    counts are the same for any order of a batch's aliases, tasks,
    attributions and events, and whoever confirms it. *)
Theorem manifest_order_free `{Sha256, ImportJSON} c c' now :
  reordered c c' -> normalizeHistoricalImport c now = normalizeHistoricalImport c' now.
Proof.
  intros Hr. unfold normalizeHistoricalImport. rewrite <-(valid_reordered now _ _ Hr). destruct (valid_import now c) eqn:Hv; [|done].
  cbv zeta. by rewrite (sorted_reordered now _ _ Hv Hr), (counts_reordered _ _ Hr).
Qed.

(** ** An import is one step of Project Core *)

(** Foreign keys, unique keys and value sets of the import tables. *)
Record import_wf (d : XDB) : Prop := {
  wf_task_batch : map_Forall (fun _ t => is_Some (x_batches d !! ht_batch t)) (x_tasks d);
  wf_task_key : forall i j a b, x_tasks d !! i = Some a -> x_tasks d !! j = Some b -> ht_batch a = ht_batch b -> ht_key a = ht_key b -> i = j;
  wf_batch_key : forall i j a b, x_batches d !! i = Some a -> x_batches d !! j = Some b ->
    hb_project a = hb_project b -> hb_batch a = hb_batch b -> i = j;
  wf_alias_batch : map_Forall (fun _ a => is_Some (x_batches d !! hl_batch a)) (x_aliases d);
  wf_states : Forall (fun e => is_Some (x_batches d !! be_batch e) /\ (be_state e = "applied"%string \/ be_state e = "superseded"%string)) (x_batch_events d);
  wf_attribution : map_Forall (fun _ a => is_Some (x_tasks d !! hn_import a)) (x_attributions d);
  wf_event : map_Forall (fun _ e => is_Some (x_tasks d !! he_import e)) (x_task_events d) }.

(** The import tables are append-only. *)
Record imports_grow (d d' : XDB) : Prop := {
  ig_batches : x_batches d ⊆ x_batches d';
  ig_aliases : x_aliases d ⊆ x_aliases d';
  ig_events : x_batch_events d `prefix_of` x_batch_events d';
  ig_tasks : x_tasks d ⊆ x_tasks d';
  ig_attributions : x_attributions d ⊆ x_attributions d';
  ig_task_events : x_task_events d ⊆ x_task_events d';
  ig_wf : import_wf d -> import_wf d';
  ig_arch : x_arch d' = set_core (x_core d') (x_arch d) }.

#[export] Instance imports_grow_preorder : PreOrder imports_grow.
Proof.
  split.
  - intros d. split; try done. by destruct d as [[] ? ? ? ? ? ?].
  - intros d1 d2 d3 [? ? ? ? ? ? ? H1] [? ? ? ? ? ? ? H2]. split; [by etrans..|by auto|]. by rewrite H2, H1.
Qed.

(** An import record says it created the task. *)
Definition recorded (d : XDB) (taskID : string) : Prop :=
  exists i t, x_tasks d !! i = Some t /\ ht_task t = taskID /\ ht_disposition t = "created"%string.

Lemma recorded_mono d d' id : x_tasks d ⊆ x_tasks d' -> recorded d id -> recorded d' id.
Proof. intros Hsub (i & t & Hi & ?). exists i, t. split; [by eapply lookup_weaken|done]. Qed.

(** What the statements between the new revision and its log entry do. *)
Record adds (pid : string) (rev : Z) (d d' : XDB) : Prop := {
  ad_imports : imports_grow d d';
  ad_projects : projects (x_core d') = projects (x_core d);
  ad_milestones : milestones (x_core d') = milestones (x_core d);
  ad_tasks : tasks (x_core d) ⊆ tasks (x_core d');
  ad_new : forall id row, tasks (x_core d') !! id = Some row ->
    tasks (x_core d) !! id = Some row \/
    t_project row = pid /\ t_revision row = rev /\ t_state row = "done"%string /\ recorded d' id;
  ad_dependencies : task_dependencies (x_core d') = task_dependencies (x_core d);
  ad_claims : task_claims (x_core d') = task_claims (x_core d);
  ad_current : task_current_claims (x_core d') = task_current_claims (x_core d);
  ad_pages : wiki_pages (x_core d') = wiki_pages (x_core d);
  ad_revisions : wiki_revisions (x_core d') = wiki_revisions (x_core d);
  ad_changes : changes (x_core d') = changes (x_core d);
  ad_task_events : task_events (x_core d) ⊆ task_events (x_core d');
  ad_activity : activity_events (x_core d) ⊆ activity_events (x_core d');
  ad_requests : project_core_requests (x_core d) ⊆ project_core_requests (x_core d');
  ad_status : status_events (x_core d') = status_events (x_core d);
  ad_redactions : redactions (x_core d') = redactions (x_core d) }.

#[export] Instance adds_preorder pid rev : PreOrder (adds pid rev).
Proof.
  split.
  - intros d. split; first [reflexivity|auto].
  - intros d1 d2 d3 [] [Hg]. split; try (by etrans); try congruence. pose proof (fun i => recorded_mono _ _ i (ig_tasks _ _ Hg)). naive_solver.
Qed.

#[export] Instance adds_refl pid rev : Reflexive (adds pid rev) := _.
#[export] Instance adds_trans pid rev : Transitive (adds pid rev) := _.

Ltac x_simpl := cbn [x_core put_core set_arch set_core core x_arch x_batches x_aliases x_batch_events x_tasks x_attributions x_task_events
  set_batches set_aliases set_batch_events set_htasks set_attributions set_htask_events] in *; db_simpl.

Lemma xcheck_inv ok d u d' : xcheck ok d = inr (u, d') -> ok = true /\ d' = d.
Proof. unfold xcheck. destruct ok; naive_solver. Qed.

(** A statement that only touches import tables. *)
Lemma adds_imports pid rev d d' : x_arch d' = x_arch d -> imports_grow d d' -> adds pid rev d d'.
Proof. intros Ha Hg. unfold x_core. split; try (by rewrite Ha); [done|..]; unfold x_core; rewrite Ha; auto. Qed.

(** One that only touches the core. *)
Lemma imports_same d c : imports_grow d (put_core c d).
Proof. split; try done. by intros []. Qed.

Lemma wf_frame d d' :
  import_wf d -> x_batches d ⊆ x_batches d' -> x_tasks d' = x_tasks d -> x_aliases d' = x_aliases d -> x_batch_events d' = x_batch_events d ->
  x_attributions d' = x_attributions d -> x_task_events d' = x_task_events d ->
  (forall i j a b, x_batches d' !! i = Some a -> x_batches d' !! j = Some b -> hb_project a = hb_project b -> hb_batch a = hb_batch b -> i = j) ->
  import_wf d'.
Proof.
  intros [H1 H2 H3 H4 H5 H6 H7] Hb Ht Ha He Hn Hv Hk. split; rewrite ?Ht, ?Ha, ?He, ?Hn, ?Hv; try done.
  - intros i t Hi. destruct (H1 _ _ Hi) as [x Hx]. exists x. by eapply lookup_weaken.
  - intros i t Hi. destruct (H4 _ _ Hi) as [x Hx]. exists x. by eapply lookup_weaken.
  - eapply Forall_impl; [done|]. intros e [[x Hx] Hs]. split; [|done]. exists x. by eapply lookup_weaken.
Qed.

Lemma grow_hbatch id r d u d' : insert_hbatch id r d = inr (u, d') -> x_arch d' = x_arch d /\ imports_grow d d'.
Proof.
  intros [Hok ->]%xcheck_inv. rewrite !andb_true_iff, absent_true, bool_decide_eq_true in Hok. destruct Hok as [[[[Hn _] _] _] Huniq].
  split; [done|]. split; x_simpl; try done; [by apply insert_subseteq| |unfold x_core; simpl; by destruct (x_arch d)].
  intros Hwf. eapply wf_frame; [exact Hwf|by apply insert_subseteq|done..|]. x_simpl.
  intros i j a b. rewrite !lookup_insert_Some. intros [[<- <-]|[_ Ha]] [[<- <-]|[_ Hb]] Hp Hbt; [done|..|by eapply (wf_batch_key _ Hwf)].
  - destruct (Huniq _ _ Hb) as [_ Hu]. by destruct (Hu (eq_sym Hp)).
  - destruct (Huniq _ _ Ha) as [_ Hu]. by destruct (Hu Hp).
Qed.

Lemma grow_halias id r d u d' : insert_halias id r d = inr (u, d') -> x_arch d' = x_arch d /\ imports_grow d d'.
Proof.
  intros [Hok ->]%xcheck_inv. rewrite !andb_true_iff, absent_true in Hok. destruct Hok as [[Hn Hp] _].
  unfold present in Hp. rewrite bool_decide_eq_true in Hp.
  split; [done|]. split; x_simpl; try done; [by apply insert_subseteq| |unfold x_core; simpl; by destruct (x_arch d)].
  intros [H1 H2 H3 H4 H5 H6 H7]. split; x_simpl; try done. by apply map_Forall_insert_2.
Qed.

Lemma grow_hbatch_event r d u d' : insert_hbatch_event r d = inr (u, d') -> x_arch d' = x_arch d /\ imports_grow d d'.
Proof.
  intros [Hok ->]%xcheck_inv. rewrite !andb_true_iff in Hok. destruct Hok as [[Hp Hs] _].
  unfold present, isin in *. rewrite bool_decide_eq_true in Hp. rewrite bool_decide_eq_true in Hs.
  split; [done|]. split; x_simpl; try done; [by apply prefix_app_r| |unfold x_core; simpl; by destruct (x_arch d)].
  intros [H1 H2 H3 H4 H5 H6 H7]. split; x_simpl; try done. apply Forall_app_2; [done|]. constructor; [|done]. split; [done|]. set_solver.
Qed.

Lemma grow_htask id r d u d' : insert_htask id r d = inr (u, d') -> x_arch d' = x_arch d /\ imports_grow d d'.
Proof.
  intros [Hok ->]%xcheck_inv. rewrite !andb_true_iff, absent_true in Hok. destruct Hok as [[[Hn Hp] _] Huniq].
  unfold present in Hp. rewrite bool_decide_eq_true in Hp. rewrite bool_decide_eq_true in Huniq.
  split; [done|]. split; x_simpl; try done; [by apply insert_subseteq| |unfold x_core; simpl; by destruct (x_arch d)].
  intros [H1 H2 H3 H4 H5 H6 H7]. split; x_simpl; try done; [by apply map_Forall_insert_2| |..].
  2-3: eapply map_Forall_impl; [done|]; intros i a [x Hx]; exists x; by apply lookup_insert_Some; right; split; [congruence|].
  intros i j a b. rewrite !lookup_insert_Some. intros [[<- <-]|[_ Ha]] [[<- <-]|[_ Hb]] Hbt Hk; [done|..|by eapply H2].
  - destruct (Huniq _ _ Hb) as [Hu _]. by destruct (Hu (eq_sym Hbt)).
  - destruct (Huniq _ _ Ha) as [Hu _]. by destruct (Hu Hbt).
Qed.

Lemma grow_hattribution id r d u d' : insert_hattribution id r d = inr (u, d') -> x_arch d' = x_arch d /\ imports_grow d d'.
Proof.
  intros [Hok ->]%xcheck_inv. rewrite !andb_true_iff, absent_true in Hok. destruct Hok as [[[[[Hn Hp] _] _] _] _].
  unfold present in Hp. rewrite bool_decide_eq_true in Hp.
  split; [done|]. split; x_simpl; try done; [by apply insert_subseteq| |unfold x_core; simpl; by destruct (x_arch d)].
  intros [H1 H2 H3 H4 H5 H6 H7]. split; x_simpl; try done. by apply map_Forall_insert_2.
Qed.

Lemma grow_htask_event id r d u d' : insert_htask_event id r d = inr (u, d') -> x_arch d' = x_arch d /\ imports_grow d d'.
Proof.
  intros [Hok ->]%xcheck_inv. rewrite !andb_true_iff, absent_true in Hok. destruct Hok as [[[[[Hn Hp] _] _] _] _].
  unfold present in Hp. rewrite bool_decide_eq_true in Hp.
  split; [done|]. split; x_simpl; try done; [by apply insert_subseteq| |unfold x_core; simpl; by destruct (x_arch d)].
  intros [H1 H2 H3 H4 H5 H6 H7]. split; x_simpl; try done. by apply map_Forall_insert_2.
Qed.

Section Adds.
Context (pid : string) (rev : Z).
Notation takes_adds := (takes (adds pid rev)).

Lemma takes_import {A} (st : Stmt XDB A) d :
  (forall d a d', st d = inr (a, d') -> x_arch d' = x_arch d /\ imports_grow d d') -> takes_adds d (mapped (exec st)).
Proof. intros Hst. apply sf_exec. intros a d1 [Ha Hg]%Hst. by apply adds_imports. Qed.

(** A core program in the transaction. *)
Lemma takes_on_x {A} (R : relation XDB) (m : M DB TxFail A) d :
  (forall env w a w1, w_db w = x_core d -> m env w = (inr a, w1) -> R d (put_core (w_db w1) d)) -> takes R d (on_x m).
Proof. intros Hm env w r w1 <- (env1 & w2 & Hrun & ->)%zoom_inr_inv. eapply Hm; [|exact Hrun]. done. Qed.

Lemma adds_core d c :
  projects c = projects (x_core d) -> milestones c = milestones (x_core d) -> tasks (x_core d) ⊆ tasks c ->
  (forall id row, tasks c !! id = Some row ->
    tasks (x_core d) !! id = Some row \/ t_project row = pid /\ t_revision row = rev /\ t_state row = "done"%string /\ recorded d id) ->
  task_dependencies c = task_dependencies (x_core d) -> task_claims c = task_claims (x_core d) ->
  task_current_claims c = task_current_claims (x_core d) -> wiki_pages c = wiki_pages (x_core d) ->
  wiki_revisions c = wiki_revisions (x_core d) -> changes c = changes (x_core d) ->
  task_events (x_core d) ⊆ task_events c -> activity_events (x_core d) ⊆ activity_events c ->
  project_core_requests (x_core d) ⊆ project_core_requests c -> status_events c = status_events (x_core d) ->
  redactions c = redactions (x_core d) -> adds pid rev d (put_core c d).
Proof. intros. split; try done. apply imports_same. Qed.

Lemma takes_task_event t p kind summary from to meta at_ d :
  takes_adds d (on_x (insertTaskEvent t p rev kind summary from to meta at_)).
Proof.
  apply takes_on_x. intros env w a w1 Hw Hrun. run_inv. apply adds_core; db_simpl; auto; by apply insert_subseteq.
Qed.

Lemma takes_activity kind p actor ref title outcome at_ d : takes_adds d (on_x (insertCoreActivity kind p actor ref title outcome at_)).
Proof.
  apply takes_on_x. intros env w a w1 Hw Hrun. run_inv. apply adds_core; db_simpl; auto; by apply insert_subseteq.
Qed.

Lemma takes_request key op fp res d : takes_adds d (on_x (mapped (exec (recordCoreReplay key op fp res)))).
Proof.
  apply takes_on_x. intros env w a w1 Hw Hrun. unfold recordCoreReplay in Hrun. run_inv. apply adds_core; db_simpl; auto; by apply insert_subseteq.
Qed.

Lemma takes_insert_task id row d :
  t_project row = pid -> t_revision row = rev -> t_state row = "done"%string -> recorded d id -> takes_adds d (on_x (mapped (exec (insert_task id row)))).
Proof.
  intros Hp Hr Hs Hi. apply takes_on_x. intros env w a w1 Hw Hrun. revert Hp Hr Hs Hi. run_inv. intros Hp Hr Hs Hi. apply adds_core; db_simpl; auto.
  - by apply insert_subseteq.
  - intros i r. rewrite lookup_insert_Some. intros [[<- <-]|[_ ?]]; auto.
Qed.

Context `{Sha256}.

Lemma takes_import_task command all recordID t receipt d :
  hc_ProjectID command = pid -> takes_adds d (import_task command all recordID rev t receipt).
Proof.
  intros Hp. unfold import_task. cbv zeta. refine (sf_effect _ _ _ _ _ _). intros a d1 Hins.
  pose proof (grow_htask _ _ _ _ _ Hins) as [Ha Hg]. split; [by apply adds_imports|].
  case_match eqn:Hc; [exact (sf_ret _ _ _)|]. apply negb_false_iff, seqb_true in Hc. refine (sf_bind _ _ _ _ _ _); [|intros d2 _ _].
  { apply takes_insert_task; [done..|]. apply xcheck_inv in Hins as [_ ->]. eexists _, _. x_simpl. rewrite lookup_insert_eq. by split. }
  refine (sf_bind _ _ _ _ _ _); [apply takes_task_event|intros d3 _ _].
  refine (sf_bind _ _ _ _ _ _); [refine (sf_forM _ _ _ _ _); intros; apply takes_import; intros ? ? ?; apply grow_hattribution|intros d4 _ _].
  refine (sf_forM _ _ _ _ _); intros; apply takes_import; intros ? ? ?; apply grow_htask_event.
Qed.
End Adds.

(** Every task that is new is a finished one with a record. *)
Definition new_recorded (d d' : XDB) : Prop :=
  forall id row, tasks (x_core d') !! id = Some row -> tasks (x_core d) !! id = Some row \/ t_state row = "done"%string /\ recorded d' id.

(** The new revision, the writes under it, and its log entry together. *)
Lemma import_core_step pid t d d1 d2 d3 d4 rev kind ref summary :
  bump_project pid t (x_core d) = inr (rev, d1) -> adds pid rev (put_core d1 d) d2 ->
  insert_change pid rev {| ch_kind := kind; ch_ref := ref; ch_summary := summary; ch_created := t |} (x_core d2) = inr (tt, d3) ->
  adds pid rev (put_core d3 d2) d4 ->
  core_step (x_core d) (x_core d4) /\ imports_grow d d4 /\ tasks (x_core d) ⊆ tasks (x_core d4) /\ new_recorded d d4.
Proof.
  intros (r & Hr & -> & Hmax & ->)%bump_project_inv A1 (Hc & ->)%insert_tables_inv_change A2.
  destruct A1 as [I1 P1 M1 T1 N1 D1 C1 U1 W1 V1 L1 E1 Y1 Q1 S1 R1], A2 as [I2 P2 M2 T2 N2 D2 C2 U2 W2 V2 L2 E2 Y2 Q2 S2 R2].
  x_simpl. assert (tasks (x_core d) ⊆ tasks (x_core d4)) as Hsub by (by etrans).
  assert (forall i row, tasks (x_core d4) !! i = Some row ->
    tasks (x_core d) !! i = Some row \/ t_project row = pid /\ t_revision row = p_revision r + 1 /\ t_state row = "done"%string /\ recorded d4 i) as Hnew.
  { intros i row [Hi|?]%N2; [|by auto]. destruct (N1 _ _ Hi) as [?|(? & ? & ? & Hrec)]; [by auto|]. right. split_and!; [done..|].
    eapply recorded_mono; [|exact Hrec]. by apply (ig_tasks _ _ I2). }
  split; [|split; [|split; [done|]]].
  - split.
    + eapply log_step_bump; [exact Hr|exact Hmax|by rewrite P2, P1|done|by rewrite <-L1|by rewrite L2, L1|].
      intros i row Hi. destruct (Hnew _ _ Hi); naive_solver.
    + apply ts_import; [done| |congruence..]. intros i row Hi Hn. destruct (Hnew _ _ Hi); naive_solver.
    + apply mst_none. congruence.
    + apply ws_none; congruence.
    + split; rewrite ?L2, ?L1, ?C2, ?C1, ?V2, ?V1, ?S2, ?S1, ?R2, ?R1; try (by etrans); try done. apply insert_subseteq. by rewrite <-L1.
  - etrans; [apply imports_same|]. etrans; [exact I1|]. etrans; [apply imports_same|exact I2].
  - intros i row Hi. destruct (Hnew _ _ Hi); naive_solver.
Qed.

(** ** The operations *)

Section Guarantees.
Context `{Sha256} `{ImportJSON} `{CaseTables}.

(** One committed import or supersession. *)
Definition import_step (d d' : XDB) : Prop :=
  (x_core d' = x_core d \/ core_step (x_core d) (x_core d')) /\ imports_grow d d' /\ tasks (x_core d) ⊆ tasks (x_core d') /\ new_recorded d d'.

(** A query of a transaction keeps the database. *)
Lemma tx_receipt_keeps pid bid replay env w r w1 :
  readHistoricalImportReceipt on_tx pid bid replay env w = (inr r, w1) -> w_db w1 = w_db w.
Proof. unfold readHistoricalImportReceipt, latestHistoricalBatchState, on_tx, map_sql, raw_sql. intros Hrun. m_inv. congruence. Qed.

Lemma tx_preview_keeps c m n env w r w1 : previewHistoricalImport on_tx c m n env w = (inr r, w1) -> w_db w1 = w_db w.
Proof.
  unfold previewHistoricalImport. intros Hrun. apply bind_inr_inv in Hrun as (p & w2 & Hp & Hrun).
  unfold on_tx in Hp. apply attempt_query_inv in Hp as [Hw _]. rewrite <-Hw. destruct p as [[]|[k b]]; try (by m_inv).
  - unfold raw_sql, on_tx in Hrun. m_inv. repeat case_match; m_inv; congruence.
  - apply bind_inr_inv in Hrun as (u & w3 & Hg & Hrun). m_inv1. by eapply tx_receipt_keeps.
Qed.

Lemma core_program_inv {A} (m : M DB TxFail A) env w a w1 :
  on_x m env w = (inr a, w1) -> exists env1 w2, m env1 (mkWorld (x_core (w_db w)) (w_tick w)) = (inr a, w2) /\ w_db w1 = put_core (w_db w2) (w_db w).
Proof. apply zoom_inr_inv. Qed.

Lemma change_inv env w pid rev kind ref summary t u w1 :
  on_x (insertCoreChange pid rev kind ref summary t) env w = (inr u, w1) ->
  exists c, insert_change pid rev {| ch_kind := kind; ch_ref := ref; ch_summary := summary; ch_created := t |} (x_core (w_db w)) = inr (tt, c) /\
    w_db w1 = put_core c (w_db w).
Proof.
  intros (env1 & w2 & Hrun & ->)%core_program_inv. unfold insertCoreChange in Hrun. m_inv. destruct u. simpl in *. eauto.
Qed.

Lemma bump_inv env w pid t rev w1 :
  on_x (bumpProjectRevision pid t) env w = (inr rev, w1) ->
  exists c, bump_project pid t (x_core (w_db w)) = inr (rev, c) /\ w_db w1 = put_core c (w_db w).
Proof. intros (env1 & w2 & Hrun & ->)%core_program_inv. unfold bumpProjectRevision in Hrun. m_inv. simpl in *. eauto. Qed.

Lemma takes_run {A} (R : relation XDB) (m : M XDB TxFail A) env w r w1 :
  takes R (w_db w) m -> m env w = (inr r, w1) -> R (w_db w) (w_db w1).
Proof. intros Hm. by apply Hm. Qed.

Lemma import_writes_step command normalized key fp manifest t preview env w u w1 :
  import_writes command normalized key fp manifest t preview env w = (inr u, w1) -> import_step (w_db w) (w_db w1).
Proof.
  unfold import_writes. cbv zeta. intros Hrun. apply bind_inr_inv in Hrun as (rev & w2 & Hb & Hrun).
  apply bump_inv in Hb as (c1 & Hb & Hw2).
  apply bind_inr_inv in Hrun as (u1 & w3 & H3 & Hrun). apply bind_inr_inv in Hrun as (u2 & w4 & H4 & Hrun).
  apply bind_inr_inv in Hrun as (u3 & w5 & H5 & Hrun). apply bind_inr_inv in Hrun as (u4 & w6 & H6 & Hrun).
  apply bind_inr_inv in Hrun as (u5 & w7 & H7 & Hrun). apply bind_inr_inv in Hrun as (u6 & w8 & H8 & Hrun).
  apply change_inv in H7 as (c2 & H7 & Hw7).
  assert (adds (hc_ProjectID command) rev (w_db w2) (w_db w6)) as A1.
  { etrans; [eapply takes_run, H3; apply takes_import; intros ? ? ?; apply grow_hbatch|].
    etrans; [eapply takes_run, H4; refine (sf_forM _ _ _ _ _); intros; apply takes_import; intros ? ? ?; apply grow_halias|].
    etrans; [eapply takes_run, H5; apply takes_import; intros ? ? ?; apply grow_hbatch_event|].
    eapply takes_run, H6. refine (sf_forM _ _ _ _ _). intros. by apply takes_import_task. }
  assert (adds (hc_ProjectID command) rev (w_db w7) (w_db w1)) as A2.
  { etrans; [eapply takes_run, H8; apply takes_activity|]. eapply takes_run, Hrun. apply takes_request. }
  rewrite Hw2 in A1. rewrite Hw7 in A2.
  destruct (import_core_step _ _ _ _ _ _ _ _ _ _ _ Hb A1 H7 A2) as (Hs & Hg & Ht & Hn). by split; [right|].
Qed.

Lemma supersede_writes_step command recordID key fp env w u w1 :
  supersede_writes command recordID key fp env w = (inr u, w1) -> import_step (w_db w) (w_db w1).
Proof.
  unfold supersede_writes. cbv zeta. intros Hrun. apply bind_inr_inv in Hrun as (t & w0 & H0' & Hrun). apply now_inr_inv in H0' as (-> & Hw0 & _).
  apply bind_inr_inv in Hrun as (rev & w2 & Hb & Hrun). apply bump_inv in Hb as (c1 & Hb & Hw2). rewrite Hw0 in Hb, Hw2.
  apply bind_inr_inv in Hrun as (u1 & w3 & H3 & Hrun). apply bind_inr_inv in Hrun as (u5 & w7 & H7 & Hrun).
  apply bind_inr_inv in Hrun as (u6 & w8 & H8 & Hrun). apply change_inv in H7 as (c2 & H7 & Hw7).
  assert (adds (hx_ProjectID command) rev (w_db w2) (w_db w3)) as A1.
  { eapply takes_run, H3. apply takes_import. intros ? ? ?. apply grow_hbatch_event. }
  assert (adds (hx_ProjectID command) rev (w_db w7) (w_db w1)) as A2.
  { etrans; [eapply takes_run, H8; apply takes_activity|]. eapply takes_run, Hrun. apply takes_request. }
  rewrite Hw2 in A1. rewrite Hw7 in A2.
  destruct (import_core_step _ _ _ _ _ _ _ _ _ _ _ Hb A1 H7 A2) as (Hs & Hg & Ht & Hn). by split; [right|].
Qed.

Lemma lift_sum_inv {A} (r : Err + A) env w a w1 : body (lift_sum r) env w = (inr a, w1) -> r = inr a /\ w1 = w.
Proof. unfold body, lift_sum. intros Hrun. m_inv. by destruct r; m_inv. Qed.

Lemma lock_keeps key env w u w1 : on_x (mapped (exec (lockCoreWriter key))) env w = (inr u, w1) -> w_db w1 = w_db w.
Proof.
  intros (env1 & w2 & Hrun & ->)%core_program_inv. unfold lockCoreWriter in Hrun. m_inv. simplify_eq/=.
  match goal with Hc : x_core _ = _ |- _ => rewrite <-Hc end. unfold put_core, set_arch, set_core, x_core. by destruct (w_db w) as [[] ? ? ? ? ? ?].
Qed.

(** What a successful run of the transaction's work went through. *)
Lemma apply_tx_inv command env w r w1 :
  applyHistoricalImportTx command env w = (inr r, w1) ->
  exists t normalized manifest counts, normalizeHistoricalImport command t = inr (normalized, manifest, counts) /\
    ((w_db w1 = w_db w /\ (exists w2, readHistoricalImportReceipt on_tx (hc_ProjectID command) (hc_BatchID command) true env w2 = (inr r, w1))) \/
     (exists w2 preview w3, w_db w2 = w_db w /\ previewHistoricalImport on_tx normalized manifest counts env w2 = (inr preview, w3) /\
       (r_State preview <> "preview"%string /\ w_db w1 = w_db w /\ r = preview \/
        r_State preview = "preview"%string /\ exists key fp u w4,
          import_writes command normalized key fp manifest t preview env w3 = (inr u, w4) /\
          readHistoricalImportReceipt on_tx (hc_ProjectID command) (hc_BatchID command) false env w4 = (inr r, w1)))).
Proof.
  unfold applyHistoricalImportTx. intros Hrun. apply bind_inr_inv in Hrun as (? & wa & Hg & Hrun). apply require_inr_inv in Hg as [_ <-].
  apply bind_inr_inv in Hrun as (t & wb & Ht & Hrun). apply now_inr_inv in Ht as (_ & Hwb & _).
  apply bind_inr_inv in Hrun as ([[normalized manifest] counts] & wc & Hn & Hrun). apply lift_sum_inv in Hn as [Hn ->].
  exists t, normalized, manifest, counts. split; [done|].
  apply bind_inr_inv in Hrun as (? & wd & Hg & Hrun). apply require_inr_inv in Hg as [_ <-]. cbv zeta in Hrun.
  apply bind_inr_inv in Hrun as (? & we & Hl & Hrun). apply lock_keeps in Hl.
  apply bind_inr_inv in Hrun as (prior & wf & Hp & Hrun). unfold plain in Hp. m_inv.
  assert (w_db wf = w_db w) as Hwf by congruence. destruct prior as [e|[p|]]; [by m_inv| |].
  - left. unfold body in Hrun. m_inv. split; [|by eauto]. rewrite <-Hwf. by eapply tx_receipt_keeps.
  - right. apply bind_inr_inv in Hrun as (preview & wg & Hpv & Hrun). unfold body in Hpv. m_inv.
    exists wf, preview, wg. split; [done|]. split; [done|]. apply tx_preview_keeps in Hpv.
    destruct (seqb (r_State preview) "preview") eqn:Hs; simpl in Hrun.
    + right. apply seqb_true in Hs. split; [done|]. apply bind_inr_inv in Hrun as (u & wh & Hw & Hrun). unfold body in Hrun. m_inv. eauto 10.
    + left. apply seqb_false in Hs. m_inv. split_and!; [done|congruence|done].
Qed.

Lemma apply_tx_step command env w r w1 :
  applyHistoricalImportTx command env w = (inr r, w1) -> w_db w1 = w_db w \/ import_step (w_db w) (w_db w1).
Proof.
  intros (t & n & m & c & Hn & [[Hw _]|(w2 & p & w3 & Hw2 & Hp & [(_ & Hw & _)|(_ & key & fp & u & w4 & Hwr & Hr)])])%apply_tx_inv; [by left|by left|].
  right. apply tx_preview_keeps in Hp. apply tx_receipt_keeps in Hr. rewrite Hr, <-Hw2, <-Hp. by eapply import_writes_step.
Qed.

Lemma guarantees_on_db_query {A} (q : XDB -> SqlErr + A) R : guarantees R (on_db A q).
Proof. apply guarantees_autocommit_query. Qed.

Lemma guarantees_receipt R p b replay : guarantees R (readHistoricalImportReceipt on_db p b replay).
Proof.
  unfold readHistoricalImportReceipt, latestHistoricalBatchState, map_sql, raw_sql.
  repeat first [apply guarantees_bind; [apply guarantees_mapE, guarantees_on_db_query|intros] | apply guarantees_ret].
Qed.

Lemma guarantees_importTx {A} (m : M XDB TxFail (TxOut A)) R :
  (forall env w a w1, m env w = (inr (TxCommit a), w1) -> w_db w1 = w_db w \/ R (w_db w) (w_db w1)) -> guarantees R (importTx m).
Proof. intros Hm. by apply guarantees_mapE, guarantees_withTx. Qed.

Lemma guarantees_ApplyHistoricalImport R command :
  (forall env w r w1, applyHistoricalImportTx command env w = (inr r, w1) -> w_db w1 = w_db w \/ R (w_db w) (w_db w1)) ->
  guarantees R (ApplyHistoricalImport command).
Proof.
  intros Htx. apply guarantees_bind; [|intros; apply guarantees_receipt]. apply guarantees_importTx. intros env w a w1 Hrun.
  m_inv. unfold body, nativeHistoricalProposalExists, raw_sql, on_tx, reserve in *. m_inv. simplify_eq.
  match goal with Ha : applyHistoricalImportTx _ _ _ = _ |- _ => apply Htx in Ha as [Hs|Hs] end; [left|right]; congruence.
Qed.

Lemma guarantees_SupersedeHistoricalImport R command :
  (forall recordID key fp env w u w1, supersede_writes command recordID key fp env w = (inr u, w1) -> R (w_db w) (w_db w1)) ->
  guarantees R (SupersedeHistoricalImport command).
Proof.
  intros Hwr. apply guarantees_guard. intros _. cbv zeta. apply guarantees_bind; [apply guarantees_mapE, guarantees_autocommit_query|intros prior].
  destruct prior as [e|[r|]]; [apply guarantees_throw|apply guarantees_receipt|].
  apply guarantees_bind; [|intros; apply guarantees_receipt]. apply guarantees_importTx. intros env w a w1 Hrun.
  apply bind_inr_inv in Hrun as (? & wa & Hl & Hrun). apply lock_keeps in Hl.
  unfold body, latestHistoricalBatchState, map_sql, on_tx in Hrun. m_inv.
  match goal with Hs : supersede_writes _ _ _ _ _ _ = _ |- _ => apply Hwr in Hs end. right. congruence.
Qed.

Lemma guarantees_PreviewHistoricalImport command R : guarantees R (PreviewHistoricalImport command).
Proof.
  apply guarantees_bind; [apply guarantees_mapE, guarantees_on_db_query|intros native]. apply guarantees_guard. intros _.
  apply guarantees_bind; [apply guarantees_now|intros t]. apply guarantees_bind; [destruct (normalizeHistoricalImport _ _); [apply guarantees_throw|apply guarantees_ret]|].
  intros [[n m] c]. apply guarantees_bind; [apply guarantees_attempt, guarantees_on_db_query|intros prior].
  destruct prior as [[]|[k b]]; try apply guarantees_throw.
  - unfold raw_sql. do 3 (apply guarantees_bind; [apply guarantees_mapE, guarantees_on_db_query|intros ?]).
    case_match; [apply guarantees_ret|apply guarantees_throw].
  - apply guarantees_guard. intros _. apply guarantees_receipt.
Qed.
End Guarantees.

(** ** Any sequence of calls *)

Inductive ImportOp :=
  | OpPreviewImport (c : HistoricalImportCommand)
  | OpApplyImport (c : HistoricalImportCommand)
  | OpSupersedeImport (c : SupersedeHistoricalImportCommand).

(** Another connection commits an import or any write of Project Core, and
    whatever it likes to the archaeology tables. *)
Definition x_step (d d' : XDB) : Prop :=
  import_step d d' \/
  (x_core d' = x_core d \/ core_step (x_core d) (x_core d')) /\ x_batches d' = x_batches d /\ x_aliases d' = x_aliases d /\
  x_batch_events d' = x_batch_events d /\ x_tasks d' = x_tasks d /\ x_attributions d' = x_attributions d /\
  x_task_events d' = x_task_events d.
Definition others_run_x (env : Env XDB) : Prop := forall n d, rtc x_step d (tk_others (env n) d).

Section Runs.
Context `{Sha256} `{ImportJSON} `{CaseTables}.

Definition run_import (op : ImportOp) : M XDB Err unit :=
  match op with
  | OpPreviewImport c => PreviewHistoricalImport c ;;; ret tt
  | OpApplyImport c => ApplyHistoricalImport c ;;; ret tt
  | OpSupersedeImport c => SupersedeHistoricalImport c ;;; ret tt
  end.
Definition import_after (ops : list ImportOp) (env : Env XDB) (d : XDB) : XDB :=
  w_db (run_all (run_import <$> ops) env (mkWorld d 0)).2.

Lemma guarantees_run_import R op :
  (forall c env w r w1, applyHistoricalImportTx c env w = (inr r, w1) -> w_db w1 = w_db w \/ R (w_db w) (w_db w1)) ->
  (forall c recordID key fp env w u w1, supersede_writes c recordID key fp env w = (inr u, w1) -> R (w_db w) (w_db w1)) ->
  guarantees R (run_import op).
Proof.
  intros Ha Hs. destruct op; apply guarantees_bind; try (intros; apply guarantees_ret);
    [apply guarantees_PreviewHistoricalImport|apply guarantees_ApplyHistoricalImport|apply guarantees_SupersedeHistoricalImport];
    intros *; [apply Ha|apply Hs].
Qed.

(** A relation that each step respects holds over a run. *)
Lemma import_run (R : relation XDB) `{!PreOrder R} ops env d :
  (forall d d', import_step d d' -> R d d') -> (forall n d, R d (tk_others (env n) d)) -> R d (import_after ops env d).
Proof.
  intros HR Hoth. apply (run_all_step R _ env (mkWorld d 0)); [|done].
  intros op (o & -> & _)%list_elem_of_fmap. eapply guarantees_mono; [exact HR|].
  apply guarantees_run_import; intros *; [apply apply_tx_step|apply supersede_writes_step].
Qed.
End Runs.

Definition core_steps (d d' : XDB) : Prop := rtc core_step (x_core d) (x_core d') /\ (import_wf d -> import_wf d').
#[export] Instance core_steps_preorder : PreOrder core_steps.
Proof.
  split.
  - intros d. by split.
  - intros d1 d2 d3 [] []. split; [by etrans|by auto].
Qed.

Lemma import_step_core d d' : import_step d d' -> core_steps d d'.
Proof. intros (Hc & Hg & _). split; [|apply Hg]. destruct Hc as [->|?]; [done|by apply rtc_once]. Qed.

Lemma x_step_core d d' : x_step d d' -> core_steps d d'.
Proof.
  intros [?%import_step_core|(Hc & Hb & Ha & He & Ht & Hn & Hv)]; [done|]. split.
  - destruct Hc as [->|?]; [done|by apply rtc_once].
  - intros Hwf. eapply wf_frame; [done|by rewrite Hb|done..|]. rewrite Hb. apply Hwf.
Qed.

Lemma others_core env : others_run_x env -> forall n d, core_steps d (tk_others (env n) d).
Proof.
  intros Ho n d. specialize (Ho n d). induction Ho as [|d1 d2 d3 Hs _ IH]; [reflexivity|]. etrans; [by apply x_step_core|done].
Qed.

Lemma import_after_core `{Sha256, ImportJSON, CaseTables} ops env d : others_run_x env -> core_steps d (import_after ops env d).
Proof. intros Ho. apply (import_run core_steps ops env d import_step_core (others_core _ Ho)). Qed.

(** Seen from Project Core, any run of previews, imports and supersessions,
    with faults, ambiguous commits and other connections' core writes and
    imports in between, is a sequence of committed core steps; so it keeps all
    its invariants, and the import tables keep their own. *)
Theorem imports_refine_core `{Sha256, ImportJSON, CaseTables} ops env d :
  others_run_x env -> core_inv (x_core d) -> import_wf d ->
  let d' := import_after ops env d in rtc core_step (x_core d) (x_core d') /\ core_inv (x_core d') /\ import_wf d'.
Proof.
  intros Ho Hinv Hwf d'. destruct (import_after_core ops env d Ho) as [Hs Hw].
  split_and!; [done|by eapply steps_inv|by apply Hw].
Qed.

(** What imports do to tasks when nobody else writes. *)
Definition keeps_tasks (d d' : XDB) : Prop := imports_grow d d' /\ tasks (x_core d) ⊆ tasks (x_core d') /\ new_recorded d d'.
#[export] Instance keeps_tasks_preorder : PreOrder keeps_tasks.
Proof.
  split.
  - intros d. split; [reflexivity|]. split; [done|]. intros i row Hi. by left.
  - intros d1 d2 d3 (G1 & T1 & N1) (G2 & T2 & N2). split; [by etrans|]. split; [by etrans|].
    intros i row [Hi|?]%N2; [|by auto]. destruct (N1 _ _ Hi) as [?|[? Hrec]]; [by auto|]. right. split; [done|].
    eapply recorded_mono; [apply G2|done].
Qed.

(** Current work wins.  No run of previews, imports and supersessions changes
    or removes a task: every task there was stays as it is, every task that is
    new is done and named by an import record, and import records, once made,
    stay. *)
Theorem current_work_wins `{Sha256, ImportJSON, CaseTables} ops env d :
  alone env ->
  let d' := import_after ops env d in
  tasks (x_core d) ⊆ tasks (x_core d') /\
  (forall id row, tasks (x_core d') !! id = Some row -> tasks (x_core d) !! id = Some row \/ t_state row = "done"%string /\ recorded d' id) /\
  imports_grow d d'.
Proof.
  intros Ha d'. destruct (import_run keeps_tasks ops env d) as (Hg & Ht & Hn); [by intros ? ? (_ & ?)|intros n x; by rewrite Ha|done].
Qed.

(** ** A concrete run *)
Module ImportDemo.
#[export] Instance sum : Sha256 := Sample.checksum.
#[export] Instance cases : CaseTables := fun s => String.string_of_list_ascii (ToLower (bytes_of s)).
Definition task_text (t : HistoricalTaskInput) : string :=
  String.concat "|" (hk_Key t :: hk_Title t :: (hat_SessionID <$> hk_Attributions t) ++ (hev_Key <$> hk_Events t)).
#[export] Instance json : ImportJSON := {|
  json_import := fun c => Some (String.concat ";" (hc_ProjectID c :: hc_BatchID c :: hc_SourceDigest c ::
                   (ha_Alias <$> hc_ProjectThreadAliases c) ++ (task_text <$> hc_Tasks c)));
  json_payload := fun p => match p with PayloadApply a b c => String.concat ";" [a; b; c] | PayloadSupersede a b c => String.concat "," [a; b; c] end;
  json_batch_id := fun _ => None |}.

Definition digest (d : string) : string := "sha256:0123456789abcdef0123456789abcdef0123456789abcdef0123456789abcde" +:+ d.
Definition at_time : Z := 1767225600000000000.
Definition from (d : string) : source :=
  {| s_Kind := "git"; s_StableID := "commit:0123456789abcdef"; s_Digest := digest d; s_OccurredAt := at_time |}.
Definition wrote (session : string) : HistoricalAttributionInput :=
  {| hat_SessionID := session; hat_Role := "implementer"; hat_Confidence := "verified"; hat_Source := from "1" |}.
Definition happened (key : string) : HistoricalEventInput :=
  {| hev_Key := key; hev_Kind := "completed"; hev_Summary := "done before"; hev_SessionID := "s1"; hev_Confidence := "verified";
     hev_Source := from "2" |}.
Definition outcome (key title : string) (people : list HistoricalAttributionInput) (events : list HistoricalEventInput) : HistoricalTaskInput :=
  {| hk_Key := key; hk_Title := title; hk_Description := ""; hk_Acceptance := ""; hk_State := "done"; hk_Priority := 0;
     hk_Source := from "3"; hk_Attributions := people; hk_Events := events |}.
(** The second outcome has the title of a task that is there. *)
Definition batch (tasks : list HistoricalTaskInput) (confirm : string) (request : string) : HistoricalImportCommand :=
  {| hc_ProjectID := "demo"; hc_BatchID := "batch-1"; hc_SourceDigest := digest "4"; hc_CollisionPolicy := "current_wins";
     hc_ConfirmSourceDigest := digest "4"; hc_ConfirmManifestDigest := confirm; hc_SchemaVersion := 1;
     hc_ProjectThreadAliases := [ {| ha_Alias := "main"; ha_SessionID := "thread"; ha_Source := from "5" |} ];
     hc_Tasks := tasks; hc_Meta := Demo.meta request |}.
Definition previewed_batch : HistoricalImportCommand :=
  batch [outcome "old" "Old work" [wrote "s1"; wrote "s2"] [happened "e1"; happened "e2"]; outcome "dup" "  FIRST " [wrote "s1"] []] "" "".
Definition applied_batch (confirm request : string) : HistoricalImportCommand :=
  batch [outcome "dup" "  FIRST " [wrote "s1"] []; outcome "old" "Old work" [wrote "s2"; wrote "s1"] [happened "e2"; happened "e1"]] confirm request.

Lemma same_batch confirm request : reordered previewed_batch (applied_batch confirm request).
Proof.
  split; try done. exists [outcome "old" "Old work" [wrote "s2"; wrote "s1"] [happened "e2"; happened "e1"]; outcome "dup" "  FIRST " [wrote "s1"] []].
  split; [|apply Permutation_swap]. repeat apply Forall2_cons_2; [| |apply Forall2_nil_2];
    (split; [reflexivity..| |]); first [apply Permutation_swap | reflexivity].
Qed.

Definition calm : Env XDB := fun n => mkTick None false (at_time + Z.of_nat n) (pretty n) id.
Lemma import_calm_alone : alone calm.
Proof. by intros n d. Defined.
Lemma import_calm_others : others_run_x calm.
Proof. intros n d. apply rtc_refl. Defined.

Definition db0 : XDB := mkXDB (set_core Demo.db adb_empty) ∅ ∅ [] ∅ ∅ ∅.
Lemma db0_wf : import_wf db0.
Proof. unfold db0. split; simpl; [apply map_Forall_empty|by intros i j a b Hi%lookup_empty_Some|by intros i j a b Hi%lookup_empty_Some|apply map_Forall_empty|constructor|apply map_Forall_empty..]. Qed.
Lemma db0_core : core_inv (x_core db0).
Proof. exact (reachable_core_inv _ _ _ Demo.db_reachable). Qed.

Definition manifest : string := Eval vm_compute in
  match normalizeHistoricalImport previewed_batch at_time with inr (_, m, _) => m | inl _ => "" end.
Definition applied : XDB := import_after [OpApplyImport (applied_batch manifest "i1")] calm db0.
Definition supersede : ImportOp :=
  OpSupersedeImport {| hx_ProjectID := "demo"; hx_BatchID := "batch-1"; hx_Reason := "wrong batch"; hx_Meta := Demo.meta "i2" |}.
Definition record : string := Eval vm_compute in historicalBatchRecordID "demo" "batch-1".
End ImportDemo.
#[export] Existing Instances ImportDemo.sum ImportDemo.cases ImportDemo.json.

Lemma manifest_order_free_witness :
  hc_Tasks ImportDemo.previewed_batch <> hc_Tasks (ImportDemo.applied_batch "" "") /\
  exists n k, normalizeHistoricalImport (ImportDemo.applied_batch "" "") ImportDemo.at_time = inr (n, ImportDemo.manifest, k).
Proof.
  split; [discriminate|]. rewrite <-(manifest_order_free _ _ ImportDemo.at_time (ImportDemo.same_batch "" "")).
  eexists _, _. vm_compute. reflexivity.
Defined.

Lemma imports_refine_core_witness :
  core_inv (x_core ImportDemo.applied) /\ p_revision <$> projects (x_core ImportDemo.applied) !! "demo"%string = Some 9.
Proof.
  split; [|vm_compute; reflexivity].
  apply (imports_refine_core _ _ _ ImportDemo.import_calm_others ImportDemo.db0_core ImportDemo.db0_wf).
Defined.

Lemma current_work_wins_witness :
  tasks (x_core ImportDemo.db0) ⊆ tasks (x_core ImportDemo.applied) /\
  recorded ImportDemo.applied "T-H-7ffb17f78f106261376e922c"%string.
Proof.
  destruct (current_work_wins [OpApplyImport (ImportDemo.applied_batch ImportDemo.manifest "i1")] _ ImportDemo.db0 ImportDemo.import_calm_alone) as (Ht & Hn & _).
  split; [exact Ht|].
  destruct (tasks (x_core ImportDemo.applied) !! "T-H-7ffb17f78f106261376e922c"%string) as [row|] eqn:E; [|vm_compute in E; discriminate E].
  destruct (Hn _ _ E) as [Hold|[_ Hrec]]; [vm_compute in Hold; discriminate Hold|exact Hrec].
Defined.
