(* ===== verification/ImportOutcome.v ===== *)
(** * What becomes of an import

    What is applied is what was previewed; a batch is imported once; and a
    superseded batch stays superseded and its tasks hidden. *)

From Stdlib Require Import ZArith Lia Ascii.
From stdpp Require Import base gmap strings list sets sorting pretty relations.
From S2P Require Import Prelude GoText Framing CoreDB ProjectCore Claims CoreSpec CoreRefine OpsFs ArchDB ArchPolicy HistoricalImport ImportSpec.

Local Open Scope Z_scope.
Local Open Scope prog_scope.

(** ** Queriers *)

(** A querier that answers from the database as it is, unless it fails. *)
Definition faithful {DB} (q : forall A, (DB -> SqlErr + A) -> M DB SqlErr A) (env : Env DB) : Prop := forall A (f : DB -> SqlErr + A) w r w1,
  q A f env w = (r, w1) -> w_db w1 = w_db w /\ (r = f (w_db w) \/ exists x, r = inl (SqlFault x)).

Lemma exec_query_inv {DB A} (f : DB -> SqlErr + A) env w r w1 :
  exec (query f) env w = (r, w1) -> w_db w1 = w_db w /\ (r = f (w_db w) \/ exists x, r = inl (SqlFault x)).
Proof. unfold exec, query. destruct (tk_fault _); [naive_solver|]. destruct (f (w_db w)); naive_solver. Qed.

Lemma faithful_exec {DB} (env : Env DB) : faithful (fun A f => exec (query f)) env.
Proof. intros A f w r w1. apply exec_query_inv. Qed.

Lemma faithful_autocommit {DB} (env : Env DB) : alone env -> faithful (fun A f => autocommit (query f)) env.
Proof. intros Ha A f w r w1. unfold autocommit. rewrite Ha. intros [Hw Hr]%exec_query_inv. by split. Qed.

Lemma faithful_tx env : faithful on_tx env.
Proof. apply faithful_exec. Qed.

Lemma faithful_db env : alone env -> faithful on_db env.
Proof. apply faithful_autocommit. Qed.

Lemma faithful_map {DB} q (env : Env DB) {A} (f : DB -> SqlErr + A) g w a w1 :
  faithful q env -> mapE (E' := Err) g (q A f) env w = (inr a, w1) -> f (w_db w) = inr a /\ w_db w1 = w_db w.
Proof. intros Hq Hrun%mapE_inr_inv. destruct (Hq _ _ _ _ _ Hrun) as [Hw [Hr|[x Hr]]]; [by split|done]. Qed.

Section Receipts.
Context `{Sha256} `{ImportJSON} `{CaseTables} (q : historicalQuerier) (env : Env XDB) (Hq : faithful q env).

Lemma receipt_inv pid bid replay w r w1 :
  readHistoricalImportReceipt q pid bid replay env w = (inr r, w1) ->
  w_db w1 = w_db w /\ exists k b p st, batch_by_key pid bid (w_db w) = inr (k, b) /\ projects (x_core (w_db w)) !! pid = Some p /\
    batch_state k (w_db w) = Some st /\
    r = stored_receipt b (p_revision p) st (tasks_of_batch k (w_db w)) (batch_counts k (w_db w)) replay.
Proof.
  unfold readHistoricalImportReceipt, latestHistoricalBatchState, map_sql, raw_sql. intros Hrun.
  apply bind_inr_inv in Hrun as ([k b] & w2 & H2 & Hrun). apply (faithful_map _ _ _ _ _ _ _ Hq) in H2 as [H2 E2].
  apply bind_inr_inv in Hrun as (p & w3 & H3 & Hrun). apply (faithful_map _ _ _ _ _ _ _ Hq) in H3 as [H3 E3].
  apply bind_inr_inv in Hrun as (st & w4 & H4 & Hrun). apply (faithful_map _ _ _ _ _ _ _ Hq) in H4 as [H4 E4].
  apply bind_inr_inv in Hrun as (rows & w5 & H5 & Hrun). apply (faithful_map _ _ _ _ _ _ _ Hq) in H5 as [[= H5] E5].
  apply bind_inr_inv in Hrun as (ns & w6 & H6 & Hrun). apply (faithful_map _ _ _ _ _ _ _ Hq) in H6 as [[= H6] E6].
  m_inv. rewrite E6, E5, E4, E3, E2 in *. split; [done|]. exists k, b, p, st. unfold latest_state in H4. simpl in *.
  split_and!; [done|by eapply select_inv|by case_match; simplify_eq|done].
Qed.

Lemma batch_state_known d k st : import_wf d -> batch_state k d = Some st -> st = "applied"%string \/ st = "superseded"%string.
Proof.
  intros Hwf Hs. unfold batch_state in Hs. destruct (last _) as [e|] eqn:Hl; [|done]. injection Hs as <-.
  apply last_Some_elem_of, list_elem_of_In, List.filter_In in Hl as [Hin _]. apply list_elem_of_In in Hin.
  by apply (proj1 (Forall_forall _ _) (wf_states _ Hwf)) in Hin as [_ ?].
Qed.

(** A preview of a batch that is not recorded, read off the database. *)
Lemma preview_inv c m n w r w1 :
  import_wf (w_db w) -> previewHistoricalImport q c m n env w = (inr r, w1) -> r_State r = "preview"%string ->
  batch_by_key (hc_ProjectID c) (hc_BatchID c) (w_db w) = inl SqlNoRows /\
  exists p found, projects (x_core (w_db w)) !! hc_ProjectID c = Some p /\
    mapM (resolve c (active_titles (hc_ProjectID c) (w_db w)) (applied_keys (hc_ProjectID c) (w_db w))) (hc_Tasks c) = Some found /\
    r = preview_receipt c m n (p_revision p) found.
Proof.
  intros Hwf Hrun Hst. unfold previewHistoricalImport in Hrun. apply bind_inr_inv in Hrun as (prior & w2 & H2 & Hrun).
  apply attempt_inv in H2. destruct (Hq _ _ _ _ _ H2) as [E2 Hp]. destruct prior as [e|[k b]].
  - destruct Hp as [Hp|[x [= ->]]]; [|by m_inv].
    assert (e = SqlNoRows) as -> by (unfold batch_by_key in Hp; case_match; by simplify_eq). split; [done|].
    unfold raw_sql in Hrun.
    apply bind_inr_inv in Hrun as (p & w3 & H3 & Hrun). apply (faithful_map _ _ _ _ _ _ _ Hq) in H3 as [H3 E3].
    apply bind_inr_inv in Hrun as (rows & w5 & H5 & Hrun). apply (faithful_map _ _ _ _ _ _ _ Hq) in H5 as [[= H5] E5].
    apply bind_inr_inv in Hrun as (ns & w6 & H6 & Hrun). apply (faithful_map _ _ _ _ _ _ _ Hq) in H6 as [[= H6] E6].
    rewrite E5, E3, E2 in *. subst rows ns. destruct (mapM _ _) as [found|]; [|by m_inv]. m_inv.
    exists p, found. split_and!; [by eapply select_inv|done|done].
  - apply bind_inr_inv in Hrun as (? & w3 & H3 & Hrun). apply require_inr_inv in H3 as [_ <-].
    apply receipt_inv in Hrun as (_ & k' & b' & p & st & _ & _ & Hs & ->). simpl in Hst. rewrite E2 in Hs.
    apply batch_state_known in Hs; [|done]. naive_solver congruence.
Qed.
End Receipts.

(** ** What the writes leave *)

(** The tables that a receipt is read from. *)
Definition shown (d : XDB) := (x_batches d, x_aliases d, x_batch_events d, x_tasks d, projects (core (x_arch d))).
Definition same_shown (d d' : XDB) : Prop := shown d' = shown d.
#[export] Instance same_shown_refl : Reflexive same_shown.
Proof. by intros d. Qed.
#[export] Instance same_shown_trans : Transitive same_shown.
Proof. intros d1 d2 d3 H1 H2. unfold same_shown in *. congruence. Qed.

Lemma same_on_x {A} (m : M DB TxFail A) d :
  (forall env w a w1, m env w = (inr a, w1) -> projects (w_db w1) = projects (w_db w)) -> takes same_shown d (on_x m).
Proof. intros Hm. apply takes_on_x. intros env w a w1 Hw Hrun. unfold same_shown, shown. simpl. by rewrite (Hm _ _ _ _ Hrun), Hw. Qed.

Section Writes.
Context `{Sha256}.

Definition task_record (all : list HistoricalTaskInput) (recordID : string) (t : Z) (receipt : HistoricalImportTaskReceipt) : htask_row :=
  {| ht_batch := recordID; ht_key := hk_Key (byKey all (hr_Key receipt)); ht_task := hr_TaskID receipt;
     ht_disposition := hr_Disposition receipt; ht_source := hk_Source (byKey all (hr_Key receipt)); ht_recorded := t |}.

Lemma import_task_shown command all recordID rev t receipt env w u w1 :
  import_task command all recordID rev t receipt env w = (inr u, w1) ->
  exists i, x_tasks (w_db w) !! i = None /\
    shown (w_db w1) = shown (set_htasks (<[i:=task_record all recordID t receipt]> (x_tasks (w_db w))) (w_db w)).
Proof.
  intros Hrun. unfold import_task in Hrun. cbv zeta in Hrun. apply bind_inr_inv in Hrun as (u1 & w2 & H2 & Hrun).
  unfold mapped in H2. m_inv1. m_inv1. apply xcheck_inv in Hst as [Hok Hd]. rewrite !andb_true_iff, absent_true in Hok.
  eexists. split; [by apply Hok|]. unfold task_record. rewrite <-Hd. change (same_shown (w_db w2) (w_db w1)).
  revert Hrun. apply takes_run. destruct (negb _); [exact (sf_ret _ _ _)|].
  refine (sf_bind _ _ _ _ _ _); [apply same_on_x; intros env' w' a w'' Hr; by run_inv|intros d2 _ _].
  refine (sf_bind _ _ _ _ _ _); [apply same_on_x; intros env' w' a w'' Hr; by run_inv|intros d3 _ _].
  refine (sf_bind _ _ _ _ _ _); [refine (sf_forM _ _ _ _ _); intros; apply sf_exec; by intros a0 d1 [_ ->]%xcheck_inv|intros d4 _ _].
  refine (sf_forM _ _ _ _ _); intros; apply sf_exec; by intros a0 d1 [_ ->]%xcheck_inv.
Qed.

Lemma import_tasks_shown command all recordID rev t receipts env w u w1 :
  forM_ receipts (import_task command all recordID rev t) env w = (inr u, w1) ->
  exists m, shown (w_db w1) = shown (set_htasks m (w_db w)) /\
    (map_to_list m).*2 ≡ₚ (task_record all recordID t <$> receipts) ++ (map_to_list (x_tasks (w_db w))).*2.
Proof.
  revert w. induction receipts as [|r receipts IH]; intros w Hrun; simpl in Hrun.
  - m_inv. exists (x_tasks (w_db w1)). split; [by destruct (w_db w1)|done].
  - apply bind_inr_inv in Hrun as (u1 & w2 & H2 & Hrun). apply import_task_shown in H2 as (i & Hi & H2).
    destruct (IH _ Hrun) as (m & Hm & Hp). exists m. split.
    + unfold shown in *. x_simpl. injection Hm as -> -> -> -> ->. by injection H2 as -> -> -> _ ->.
    + rewrite Hp. unfold shown in H2. injection H2 as _ _ _ -> _. simpl. rewrite map_to_list_insert by done. simpl.
      by rewrite Permutation_middle.
Qed.

Definition alias_record (meta : CoreWriteMeta) (recordID : string) (t : Z) (a : HistoricalProjectThreadAliasInput) : halias_row :=
  {| hl_batch := recordID; hl_alias := ha_Alias a; hl_session := ha_SessionID a; hl_source := ha_Source a;
     hl_actor := ActorID meta; hl_recorder := SessionID meta; hl_recorded := t |}.

Lemma import_aliases_shown meta recordID t aliases env w u w1 :
  forM_ aliases (import_alias meta recordID t) env w = (inr u, w1) ->
  exists m, shown (w_db w1) = shown (set_aliases m (w_db w)) /\
    (map_to_list m).*2 ≡ₚ (alias_record meta recordID t <$> aliases) ++ (map_to_list (x_aliases (w_db w))).*2.
Proof.
  revert w. induction aliases as [|r aliases IH]; intros w Hrun; simpl in Hrun.
  - m_inv. exists (x_aliases (w_db w1)). split; [by destruct (w_db w1)|done].
  - apply bind_inr_inv in Hrun as (u1 & w2 & H2 & Hrun). unfold import_alias, mapped in H2. m_inv.
    apply xcheck_inv in Hst as [Hok Hd]. rewrite !andb_true_iff, absent_true in Hok. destruct Hok as [[Hi _] _].
    destruct (IH _ Hrun) as (m & Hm & Hp). exists m. split.
    + by rewrite Hm, Hd.
    + rewrite Hp, Hd. simpl. rewrite map_to_list_insert by done. simpl. by rewrite Permutation_middle.
Qed.

Lemma same_change p rev kind ref summary t d : takes same_shown d (on_x (insertCoreChange p rev kind ref summary t)).
Proof. apply same_on_x. intros env w a w1 Hr. by run_inv. Qed.
Lemma same_activity kind p actor ref title outcome t d : takes same_shown d (on_x (insertCoreActivity kind p actor ref title outcome t)).
Proof. apply same_on_x. intros env w a w1 Hr. by run_inv. Qed.
Lemma same_request key op fp res d : takes same_shown d (on_x (mapped (exec (recordCoreReplay key op fp res)))).
Proof. apply same_on_x. intros env w a w1 Hr. unfold recordCoreReplay in Hr. by run_inv. Qed.

(** The log entry, the activity and the request at the end of a write. *)
Lemma tail_shown env w u w1 p rev kind ref summary t kind' p' actor ref' title outcome key op fp res :
  bind (on_x (insertCoreChange p rev kind ref summary t)) (fun _ =>
  bind (on_x (insertCoreActivity kind' p' actor ref' title outcome t)) (fun _ =>
    on_x (mapped (exec (recordCoreReplay key op fp res))))) env w = (inr u, w1) -> shown (w_db w1) = shown (w_db w).
Proof.
  apply (takes_run same_shown). refine (sf_bind _ _ _ _ _ _); [apply same_change|intros d1 _ _].
  refine (sf_bind _ _ _ _ _ _); [apply same_activity|intros d2 _ _]. apply same_request.
Qed.

Definition batch_record (command : HistoricalImportCommand) (manifest key : string) (t : Z) : hbatch_row :=
  {| hb_project := hc_ProjectID command; hb_batch := hc_BatchID command; hb_schema := hc_SchemaVersion command;
     hb_source := hc_SourceDigest command; hb_manifest := manifest; hb_policy := hc_CollisionPolicy command; hb_request := key;
     hb_actor := ActorID (hc_Meta command); hb_session := SessionID (hc_Meta command); hb_recorded := t |}.

Lemma import_writes_shown command normalized key fp manifest t preview env w u w1 :
  import_writes command normalized key fp manifest t preview env w = (inr u, w1) ->
  let k := historicalBatchRecordID (hc_ProjectID command) (hc_BatchID command) in
  x_batches (w_db w) !! k = None /\
  x_batches (w_db w1) = <[k:=batch_record command manifest key t]> (x_batches (w_db w)) /\
  (map_to_list (x_aliases (w_db w1))).*2 ≡ₚ
    (alias_record (hc_Meta command) k t <$> hc_ProjectThreadAliases normalized) ++ (map_to_list (x_aliases (w_db w))).*2 /\
  (exists e, x_batch_events (w_db w1) = x_batch_events (w_db w) ++ [e] /\ be_batch e = k /\ be_state e = "applied"%string) /\
  (map_to_list (x_tasks (w_db w1))).*2 ≡ₚ
    (task_record (hc_Tasks normalized) k t <$> r_Tasks preview) ++ (map_to_list (x_tasks (w_db w))).*2 /\
  exists p, projects (x_core (w_db w)) !! hc_ProjectID command = Some p /\ projects (x_core (w_db w1)) !! hc_ProjectID command = Some (bumped p t).
Proof.
  unfold import_writes. cbv zeta. intros Hrun. apply bind_inr_inv in Hrun as (rev & w2 & Hb & Hrun). apply bump_inv in Hb as (c1 & Hb & Hw2).
  apply bump_project_inv in Hb as (p & Hp & _ & _ & ->).
  apply bind_inr_inv in Hrun as (u1 & w3 & H3 & Hrun). apply mapE_inr_inv, exec_inr_inv in H3 as [[Hok Hd3]%xcheck_inv _].
  rewrite !andb_true_iff, absent_true in Hok. destruct Hok as [[[[Hnone _] _] _] _].
  apply bind_inr_inv in Hrun as (u2 & w4 & H4 & Hrun). apply import_aliases_shown in H4 as (ma & H4 & Pa).
  apply bind_inr_inv in Hrun as (u3 & w5 & H5 & Hrun). apply mapE_inr_inv, exec_inr_inv in H5 as [[_ Hd5]%xcheck_inv _].
  apply bind_inr_inv in Hrun as (u4 & w6 & H6 & Hrun). apply import_tasks_shown in H6 as (mt & H6 & Pt).
  apply tail_shown in Hrun. rewrite Hd5 in H6, Pt. rewrite Hd3 in H4, Pa. rewrite Hw2 in H4, Pa, Hnone. unfold shown in *. simpl in *.
  injection Hrun as -> -> -> -> HP. injection H6 as -> -> -> -> HP6. injection H4 as -> -> HE HT HP4. rewrite HE, HT in *.
  split_and!; [done|done|done|by eauto|done|]. exists p. split; [done|]. unfold x_core. rewrite HP, HP6, HP4. by rewrite lookup_insert_eq.
Qed.
End Writes.

(** ** Reading back what was written *)

(** The only row that satisfies a condition is the one a query returns. *)
Lemma find_unique {A} (p : A -> bool) (m : gmap string A) k x :
  m !! k = Some x -> p x = true -> (forall i y, m !! i = Some y -> p y = true -> i = k) ->
  exists l, List.filter (fun e => p e.2) (map_to_list m) = (k, x) :: l.
Proof.
  intros Hk Hp Hu. assert (In (k, x) (List.filter (fun e => p e.2) (map_to_list m))) as Hin.
  { apply List.filter_In. split; [by apply list_elem_of_In, elem_of_map_to_list|done]. }
  destruct (List.filter _ _) as [|[k' x'] l] eqn:Hl; [done|]. exists l.
  assert (In (k', x') ((k', x') :: l)) as Hin' by (by left). rewrite <-Hl in Hin'. apply List.filter_In in Hin' as [Hin' He].
  apply list_elem_of_In, elem_of_map_to_list in Hin'. pose proof (Hu _ _ Hin' He) as ->. rewrite Hk in Hin'. by injection Hin' as <-.
Qed.

Lemma batch_found d k b : import_wf d -> x_batches d !! k = Some b -> batch_by_key (hb_project b) (hb_batch b) d = inr (k, b).
Proof.
  intros Hwf Hb. unfold batch_by_key.
  destruct (find_unique (fun x => seqb (hb_project x) (hb_project b) && seqb (hb_batch x) (hb_batch b)) (x_batches d) k b) as [l ->]; [done| |..|done].
  - by rewrite !seqb_refl.
  - intros i y Hy [Hp%seqb_true Hbt%seqb_true]%andb_true_iff. by eapply (wf_batch_key _ Hwf).
Qed.

Lemma filter_none {A} (f : A -> bool) l : Forall (fun x => f x = false) l -> List.filter f l = [].
Proof. induction 1 as [|x l Hx _ IH]; simpl; [done|]. by rewrite Hx. Qed.

Lemma filter_every {A} (f : A -> bool) l : Forall (fun x => f x = true) l -> List.filter f l = l.
Proof. induction 1 as [|x l Hx _ IH]; simpl; [done|]. by rewrite Hx, IH. Qed.

Lemma filter_perm {A} (f : A -> bool) l l' : l ≡ₚ l' -> List.filter f l ≡ₚ List.filter f l'.
Proof.
  induction 1 as [|x l l' _ IH|x y l|l1 l2 l3 _ IH1 _ IH2]; simpl; [done|by destruct (f x); rewrite IH| |by etrans].
  destruct (f x), (f y); try done. apply Permutation_swap.
Qed.

Lemma values_elem {A} (m : gmap string A) x : x ∈ (map_to_list m).*2 -> exists i, m !! i = Some x.
Proof. intros ([i y] & -> & Hi)%list_elem_of_fmap. exists i. by apply elem_of_map_to_list. Qed.

(** The new records of a batch that had none are all of them. *)
Lemma new_values {A} (f : A -> bool) (new : list A) (m m' : gmap string A) :
  (map_to_list m').*2 ≡ₚ new ++ (map_to_list m).*2 -> Forall (fun x => f x = true) new -> map_Forall (fun _ x => f x = false) m ->
  List.filter f (map_to_list m').*2 ≡ₚ new.
Proof.
  intros Hp Hn Hm. rewrite (filter_perm f _ _ Hp), List.filter_app, (filter_every _ _ Hn), filter_none, app_nil_r; [done|].
  apply Forall_forall. intros x (i & Hi)%values_elem. by eapply Hm.
Qed.

(** ** Counting what is recorded for a batch *)

Lemma count_if_insert {A} (p : A -> bool) (m : gmap string A) i x :
  m !! i = None -> count_if p (map_to_list (<[i:=x]> m)).*2 = (if p x then 1 else 0) + count_if p (map_to_list m).*2.
Proof.
  intros Hi. assert ((map_to_list (<[i:=x]> m)).*2 ≡ₚ x :: (map_to_list m).*2) as Hp by (by rewrite map_to_list_insert).
  unfold count_if. rewrite (Permutation_length (filter_perm p _ _ Hp)). simpl. destruct (p x); simpl; lia.
Qed.

Lemma count_same {A} (p p' : A -> bool) (m : gmap string A) :
  map_Forall (fun _ x => p x = p' x) m -> count_if p (map_to_list m).*2 = count_if p' (map_to_list m).*2.
Proof.
  intros Hm. unfold count_if. do 2 f_equal. apply List.filter_ext_in. intros x (i & Hi)%list_elem_of_In%values_elem. by eapply Hm.
Qed.

Lemma count_none {A} (p : A -> bool) (m : gmap string A) : map_Forall (fun _ x => p x = false) m -> count_if p (map_to_list m).*2 = 0.
Proof. intros Hm. unfold count_if. rewrite filter_none; [done|]. apply Forall_forall. intros x (i & Hi)%values_elem. by eapply Hm. Qed.

(** The attributions and the events of batch [k] grow by [n] and [m]. *)
Record counted (k : string) (n m : Z) (d d' : XDB) : Prop := {
  co_wf : import_wf d';
  co_tasks : x_tasks d ⊆ x_tasks d';
  co_attributions : (batch_counts k d').1.2 = n + (batch_counts k d).1.2;
  co_events : (batch_counts k d').2 = m + (batch_counts k d).2 }.

Lemma counted_trans k n m n' m' d1 d2 d3 :
  counted k n m d1 d2 -> counted k n' m' d2 d3 -> counted k (n + n') (m + m') d1 d3.
Proof. intros [? ? Ha He] [? ? Ha' He']. split; [done|by etrans|lia|lia]. Qed.

Lemma of_batch_kept k d d' i : x_tasks d ⊆ x_tasks d' -> is_Some (x_tasks d !! i) -> of_batch k d' i = of_batch k d i.
Proof. intros Hs [t Ht]. unfold of_batch. by rewrite Ht, (lookup_weaken _ _ _ _ Ht Hs). Qed.

(** A write to other tables, new tasks included, adds nothing. *)
Lemma counted_other k d d' :
  import_wf d -> imports_grow d d' -> x_attributions d' = x_attributions d -> x_task_events d' = x_task_events d -> counted k 0 0 d d'.
Proof.
  intros Hwf Hg Ha He. pose proof (ig_tasks _ _ Hg) as Ht. split; [by apply (ig_wf _ _ Hg)|done|..]; simpl; rewrite ?Ha, ?He; apply count_same.
  - intros i a Hi. apply of_batch_kept; [done|]. by eapply (wf_attribution _ Hwf).
  - intros i a Hi. apply of_batch_kept; [done|]. by eapply (wf_event _ Hwf).
Qed.

Lemma counted_core k d c : import_wf d -> counted k 0 0 d (put_core c d).
Proof. intros Hwf. apply counted_other; [done|apply imports_same|done..]. Qed.

Lemma counted_on_x {A} k (m : M DB TxFail A) env w a w1 :
  import_wf (w_db w) -> on_x m env w = (inr a, w1) -> counted k 0 0 (w_db w) (w_db w1).
Proof. intros Hwf. apply (takes_run (counted k 0 0)), takes_on_x. intros. by apply counted_core. Qed.

(** The parts of the task of a receipt, when the task is created or when it is
    skipped. *)
Definition parts_of (f : HistoricalTaskInput -> Z) (all : list HistoricalTaskInput) (created : bool) (r : HistoricalImportTaskReceipt) : Z :=
  if Bool.eqb (seqb (hr_Disposition r) "created") created then f (byKey all (hr_Key r)) else 0.

Definition attributions_in (t : HistoricalTaskInput) : Z := size (hk_Attributions t).
Definition events_in (t : HistoricalTaskInput) : Z := size (hk_Events t).

Section Counting.
Context `{Sha256}.

Lemma counted_attributions k meta t i task l env w u w1 :
  import_wf (w_db w) -> of_batch k (w_db w) i = true ->
  forM_ l (import_attribution meta t i task) env w = (inr u, w1) -> counted k (size l) 0 (w_db w) (w_db w1).
Proof.
  revert w. induction l as [|a l IH]; intros w Hwf Hi Hrun; simpl in Hrun.
  - m_inv. by split.
  - apply bind_inr_inv in Hrun as (u1 & w2 & H2 & Hrun). apply mapE_inr_inv, exec_inr_inv in H2 as [H2 _].
    pose proof H2 as [_ Hg]%grow_hattribution. apply xcheck_inv in H2 as [Hok Hd]. rewrite !andb_true_iff, absent_true in Hok.
    destruct Hok as [[[[[Hn _] _] _] _] _].
    assert (counted k 1 0 (w_db w) (w_db w2)) as H1.
    { split; [by apply (ig_wf _ _ Hg)|apply (ig_tasks _ _ Hg)|rewrite Hd..]; simpl; [|done]. rewrite count_if_insert by done. simpl.
      change (of_batch k (set_attributions ?v ?x) ?j) with (of_batch k x j). by rewrite Hi. }
    replace (size (a :: l)) with (1 + size l) by (unfold size; simpl; lia). apply (counted_trans _ _ _ _ 0 _ _ _ H1), IH; [apply H1| |done].
    rewrite Hd. exact Hi.
Qed.

Lemma counted_events k meta t i task l env w u w1 :
  import_wf (w_db w) -> of_batch k (w_db w) i = true ->
  forM_ l (import_event meta t i task) env w = (inr u, w1) -> counted k 0 (size l) (w_db w) (w_db w1).
Proof.
  revert w. induction l as [|a l IH]; intros w Hwf Hi Hrun; simpl in Hrun.
  - m_inv. by split.
  - apply bind_inr_inv in Hrun as (u1 & w2 & H2 & Hrun). apply mapE_inr_inv, exec_inr_inv in H2 as [H2 _].
    pose proof H2 as [_ Hg]%grow_htask_event. apply xcheck_inv in H2 as [Hok Hd]. rewrite !andb_true_iff, absent_true in Hok.
    destruct Hok as [[[[[Hn _] _] _] _] _].
    assert (counted k 0 1 (w_db w) (w_db w2)) as H1.
    { split; [by apply (ig_wf _ _ Hg)|apply (ig_tasks _ _ Hg)|rewrite Hd..]; simpl; [done|]. rewrite count_if_insert by done. simpl.
      change (of_batch k (set_htask_events ?v ?x) ?j) with (of_batch k x j). by rewrite Hi. }
    replace (size (a :: l)) with (1 + size l) by (unfold size; simpl; lia). apply (counted_trans _ _ _ 0 _ _ _ _ H1), IH; [apply H1| |done].
    rewrite Hd. exact Hi.
Qed.

Lemma counted_task command all k rev t receipt env w u w1 :
  import_wf (w_db w) -> import_task command all k rev t receipt env w = (inr u, w1) ->
  counted k (parts_of attributions_in all true receipt) (parts_of events_in all true receipt) (w_db w) (w_db w1).
Proof.
  intros Hwf Hrun. unfold import_task in Hrun. cbv zeta in Hrun. apply bind_inr_inv in Hrun as (u1 & w2 & H2 & Hrun).
  apply mapE_inr_inv, exec_inr_inv in H2 as [H2 _]. pose proof H2 as [_ Hg]%grow_htask. apply xcheck_inv in H2 as [_ Hd].
  assert (counted k 0 0 (w_db w) (w_db w2)) as H1 by (apply counted_other; [done|done|by rewrite Hd..]).
  unfold parts_of, attributions_in, events_in. destruct (seqb (hr_Disposition receipt) "created"); simpl in *; [|by m_inv].
  set (i := deterministicHistoricalID _ _) in *.
  assert (of_batch k (w_db w2) i = true) as Hi by (rewrite Hd; unfold of_batch; simpl; rewrite lookup_insert_eq; apply seqb_refl).
  assert (is_Some (x_tasks (w_db w2) !! i)) as Hs by (rewrite Hd; simpl; rewrite lookup_insert_eq; eauto).
  apply bind_inr_inv in Hrun as (u3 & w3 & H3 & Hrun). apply (counted_on_x k _ _ _ _ _ (co_wf _ _ _ _ _ H1)) in H3.
  apply bind_inr_inv in Hrun as (u4 & w4 & H4 & Hrun). apply (counted_on_x k _ _ _ _ _ (co_wf _ _ _ _ _ H3)) in H4.
  pose proof (counted_trans _ _ _ _ _ _ _ _ H3 H4) as H34.
  apply bind_inr_inv in Hrun as (u5 & w5 & H5 & Hrun). apply (counted_attributions k) in H5;
    [|apply H4|by rewrite (of_batch_kept _ _ _ _ (co_tasks _ _ _ _ _ H34) Hs)].
  pose proof (counted_trans _ _ _ _ _ _ _ _ H34 H5) as H35.
  apply (counted_events k) in Hrun; [|apply H5|by rewrite (of_batch_kept _ _ _ _ (co_tasks _ _ _ _ _ H35) Hs)].
  destruct (counted_trans _ _ _ _ _ _ _ _ H1 (counted_trans _ _ _ _ _ _ _ _ H35 Hrun)). split; [done..|lia|lia].
Qed.

Lemma counted_tasks command all k rev t receipts env w u w1 :
  import_wf (w_db w) -> forM_ receipts (import_task command all k rev t) env w = (inr u, w1) ->
  counted k (sum_of (parts_of attributions_in all true) receipts) (sum_of (parts_of events_in all true) receipts) (w_db w) (w_db w1).
Proof.
  revert w. induction receipts as [|r receipts IH]; intros w Hwf Hrun; simpl in Hrun; [m_inv; by split|].
  apply bind_inr_inv in Hrun as (u1 & w2 & H2 & Hrun). apply counted_task in H2; [|done].
  eapply counted_trans; [exact H2|]. apply IH; [apply H2|done].
Qed.

Lemma counted_aliases k meta recordID t aliases env w u w1 :
  import_wf (w_db w) -> forM_ aliases (import_alias meta recordID t) env w = (inr u, w1) -> counted k 0 0 (w_db w) (w_db w1).
Proof.
  revert w. induction aliases as [|a aliases IH]; intros w Hwf Hrun; simpl in Hrun; [m_inv; by split|].
  apply bind_inr_inv in Hrun as (u1 & w2 & H2 & Hrun). apply mapE_inr_inv, exec_inr_inv in H2 as [H2 _].
  pose proof H2 as [_ Hg]%grow_halias. apply xcheck_inv in H2 as [_ Hd].
  assert (counted k 0 0 (w_db w) (w_db w2)) as H1 by (apply counted_other; [done|done|by rewrite Hd..]).
  eapply (counted_trans _ 0 0 0 0); [exact H1|]. apply IH; [apply H1|done].
Qed.

(** A batch that is not recorded has no attributions and no events. *)
Lemma counts_fresh k d : import_wf d -> x_batches d !! k = None -> (batch_counts k d).1.2 = 0 /\ (batch_counts k d).2 = 0.
Proof.
  intros Hwf Hk. assert (forall i, is_Some (x_tasks d !! i) -> of_batch k d i = false) as Hno.
  { intros i [x Hx]. unfold of_batch. rewrite Hx. apply seqb_false. intros Hb. destruct (wf_task_batch _ Hwf _ _ Hx) as [y Hy]. congruence. }
  split; apply count_none; intros i x Hi; apply Hno; [by eapply (wf_attribution _ Hwf)|by eapply (wf_event _ Hwf)].
Qed.

Lemma import_writes_counted command normalized key fp manifest t preview env w u w1 :
  import_wf (w_db w) -> import_writes command normalized key fp manifest t preview env w = (inr u, w1) ->
  let k := historicalBatchRecordID (hc_ProjectID command) (hc_BatchID command) in
  (batch_counts k (w_db w1)).1.2 = sum_of (parts_of attributions_in (hc_Tasks normalized) true) (r_Tasks preview) /\
  (batch_counts k (w_db w1)).2 = sum_of (parts_of events_in (hc_Tasks normalized) true) (r_Tasks preview).
Proof.
  intros Hwf Hrun k. pose proof Hrun as (Hnone & _)%import_writes_shown. destruct (counts_fresh _ _ Hwf Hnone) as [Ha0 He0]. fold k in Ha0, He0.
  unfold import_writes in Hrun. cbv zeta in Hrun. fold k in Hrun.
  apply bind_inr_inv in Hrun as (rev & w2 & H2 & Hrun). apply (counted_on_x k _ _ _ _ _ Hwf) in H2.
  apply bind_inr_inv in Hrun as (u3 & w3 & H3 & Hrun). apply mapE_inr_inv, exec_inr_inv in H3 as [H3 _].
  pose proof H3 as [_ Hg3]%grow_hbatch. apply xcheck_inv in H3 as [_ Hd3].
  assert (counted k 0 0 (w_db w2) (w_db w3)) as C3 by (apply counted_other; [apply H2|done|by rewrite Hd3..]).
  apply bind_inr_inv in Hrun as (u4 & w4 & H4 & Hrun). apply (counted_aliases k) in H4; [|apply C3].
  apply bind_inr_inv in Hrun as (u5 & w5 & H5 & Hrun). apply mapE_inr_inv, exec_inr_inv in H5 as [H5 _].
  pose proof H5 as [_ Hg5]%grow_hbatch_event. apply xcheck_inv in H5 as [_ Hd5].
  assert (counted k 0 0 (w_db w4) (w_db w5)) as C5 by (apply counted_other; [apply H4|done|by rewrite Hd5..]).
  apply bind_inr_inv in Hrun as (u6 & w6 & H6 & Hrun). apply counted_tasks in H6; [|apply C5].
  apply bind_inr_inv in Hrun as (u7 & w7 & H7 & Hrun). apply (counted_on_x k _ _ _ _ _ (co_wf _ _ _ _ _ H6)) in H7.
  apply bind_inr_inv in Hrun as (u8 & w8 & H8 & Hrun). apply (counted_on_x k _ _ _ _ _ (co_wf _ _ _ _ _ H7)) in H8.
  apply (counted_on_x k _ _ _ _ _ (co_wf _ _ _ _ _ H8)) in Hrun.
  destruct H2, C3, H4, C5, H6, H7, H8, Hrun. split; lia.
Qed.
End Counting.

Lemma key_le_total : Total key_le. Proof. intros x y. apply (total sle). Qed.
Lemma key_le_trans : Transitive key_le. Proof. intros x y z. unfold key_le. apply (transitivity (R := sle)). Qed.
#[local] Existing Instances key_le_total key_le_trans.

Lemma sorted_records l l' : NoDup (ht_key <$> l') -> StronglySorted key_le l' -> l ≡ₚ l' -> merge_sort key_le l = l'.
Proof.
  intros Hnd Hs Hp. apply (StronglySorted_unique_strong key_le); [|apply (StronglySorted_merge_sort _)|done|by rewrite merge_sort_Permutation].
  intros x y Hx Hy Hxy Hyx. rewrite merge_sort_Permutation, Hp in Hx. apply (fmap_inj_on _ _ Hnd); [done..|]. by apply (anti_symm sle).
Qed.

Lemma StronglySorted_keys {A B} (R : relation B) (S : relation A) (f : A -> B) l :
  (forall x y, S x y <-> R (f x) (f y)) -> StronglySorted S l <-> StronglySorted R (f <$> l).
Proof.
  intros Hf. induction l as [|x l IH]; [split; constructor|]. rewrite fmap_cons. split; inversion 1; subst; constructor; try (by apply IH).
  - apply Forall_fmap. eapply Forall_impl; [done|]. intros y. apply Hf.
  - rewrite Forall_fmap in *. eapply Forall_impl; [done|]. intros y. apply Hf.
Qed.

Lemma byKey_key all key : key ∈ hk_Key <$> all -> hk_Key (byKey all key) = key.
Proof.
  intros (t & -> & Ht)%list_elem_of_fmap. unfold byKey. destruct (List.find _ _) as [t'|] eqn:Hf; simpl.
  - apply List.find_some in Hf as [_ Hf]. by apply seqb_true in Hf.
  - apply list_elem_of_In in Ht. by apply (List.find_none _ _ Hf), seqb_false in Ht.
Qed.

Lemma preview_keys tasks found : length found = length tasks -> hr_Key <$> zip_with previewed tasks found = hk_Key <$> tasks.
Proof. revert found. induction tasks as [|t tasks IH]; intros [|f found] Hl; simplify_eq/=; [done|]. f_equal. by apply IH. Qed.

(** The receipts of a preview, recorded and read back. *)
Lemma records_shown all k t receipts :
  (hr_Key <$> receipts) ⊆ (hk_Key <$> all) -> shown_task false <$> (task_record all k t <$> receipts) = receipts.
Proof.
  intros Hsub. rewrite <-list_fmap_compose. rewrite <-(list_fmap_id receipts) at 2. apply list_fmap_ext. intros i r Hr.
  unfold shown_task, task_record. simpl. rewrite byKey_key; [by destruct r|]. apply Hsub. by eapply list_elem_of_fmap_2, list_elem_of_lookup_2.
Qed.

Lemma record_keys all k t receipts : (hr_Key <$> receipts) ⊆ (hk_Key <$> all) -> ht_key <$> (task_record all k t <$> receipts) = hr_Key <$> receipts.
Proof.
  intros Hsub. rewrite <-list_fmap_compose. apply list_fmap_ext. intros i r Hr. simpl. apply byKey_key, Hsub.
  by eapply list_elem_of_fmap_2, list_elem_of_lookup_2.
Qed.

Lemma sort_by_sorted {A} (key : A -> string) l : StronglySorted sle (key <$> sort_by key l).
Proof. apply (StronglySorted_keys _ (by_text key)); [done|]. apply (StronglySorted_merge_sort _). Qed.

Lemma count_if_fmap {A B} (f : A -> B) (p : B -> bool) l : count_if p (f <$> l) = count_if (p ∘ f) l.
Proof. unfold count_if. f_equal. induction l as [|x l IH]; [done|]. simpl. unfold compose. destruct (p (f x)); simpl; [f_equal|]; exact IH. Qed.

Lemma count_if_ext {A} (p p' : A -> bool) l : (forall x, p x = p' x) -> count_if p l = count_if p' l.
Proof. intros Hp. unfold count_if. by rewrite (List.filter_ext _ _ Hp). Qed.

(** The dispositions of a preview count what was found. *)
Lemma count_previewed (p : string -> bool) tasks found :
  length found = length tasks ->
  count_if (fun r => p (hr_Disposition r)) (zip_with previewed tasks found) =
  count_if (fun r => p (if (r : string * bool).2 then "skipped_current" else "created")%string) found.
Proof.
  unfold count_if. intros Hl. f_equal. revert found Hl. induction tasks as [|t tasks IH]; intros [|f found] Hl; simplify_eq/=; [done|].
  destruct f.2; case_match; simpl; rewrite IH by done; done.
Qed.

Lemma size_sorted_aliases c : size (hc_ProjectThreadAliases (sorted_import c)) = size (hc_ProjectThreadAliases c).
Proof. apply size_perm. simpl. unfold sort_by. by rewrite merge_sort_Permutation. Qed.
Lemma size_sorted_tasks c : size (hc_Tasks (sorted_import c)) = size (hc_Tasks c).
Proof.
  simpl. unfold sort_by. rewrite (size_perm _ _ (merge_sort_Permutation _ _)). unfold size. by rewrite length_fmap.
Qed.

(** The parts of the tasks that the preview found to be there already. *)
Definition skipped_parts (f : HistoricalTaskInput -> Z) (c : HistoricalImportCommand) (p : HistoricalImportReceipt) : Z :=
  sum_of (parts_of f (hc_Tasks c) false) (r_Tasks p).

(** The receipt [r] of a batch [c] that was applied as previewed in [p].  A
    preview counts the attributions and the events of all its tasks, an
    application those of the tasks it created. *)
Record as_previewed (c : HistoricalImportCommand) (p r : HistoricalImportReceipt) : Prop := {
  ap_state : r_State r = "applied"%string;
  ap_applied : r_Applied r = true;
  ap_project : r_ProjectID r = r_ProjectID p;
  ap_batch : r_BatchID r = r_BatchID p;
  ap_policy : r_CollisionPolicy r = r_CollisionPolicy p;
  ap_tasks : r_Tasks r = r_Tasks p;
  ap_manifest : r_ManifestDigest r = r_ManifestDigest p;
  ap_source : r_SourceDigest r = r_SourceDigest p;
  ap_aliases : n_Aliases (r_Counts r) = n_Aliases (r_Counts p);
  ap_count : n_Tasks (r_Counts r) = n_Tasks (r_Counts p);
  ap_created : n_Created (r_Counts r) = n_Created (r_Counts p);
  ap_skipped : n_SkippedCurrent (r_Counts r) = n_SkippedCurrent (r_Counts p);
  ap_replayed : n_Replayed (r_Counts r) = 0 /\ n_Replayed (r_Counts p) = 0;
  ap_attributions : n_Attributions (r_Counts r) = n_Attributions (r_Counts p) - skipped_parts attributions_in c p;
  ap_events : n_Events (r_Counts r) = n_Events (r_Counts p) - skipped_parts events_in c p;
  ap_revision : r_ProjectRevision r = r_ProjectRevision p + 1 }.

Lemma byKey_unique all t : NoDup (hk_Key <$> all) -> t ∈ all -> byKey all (hk_Key t) = t.
Proof.
  intros Hnd Ht. assert (hk_Key (byKey all (hk_Key t)) = hk_Key t) as Hk by (by apply byKey_key, list_elem_of_fmap_2).
  apply (fmap_inj_on _ _ Hnd); [|done..]. unfold byKey in *. destruct (List.find _ _) as [x|] eqn:Hf; simpl in *.
  - apply List.find_some in Hf as [Hf _]. by apply list_elem_of_In.
  - apply list_elem_of_In in Ht. apply (List.find_none _ _ Hf) in Ht. by rewrite seqb_refl in Ht.
Qed.

Lemma sum_of_ext {A} (f g : A -> Z) l : (forall x, x ∈ l -> f x = g x) -> sum_of f l = sum_of g l.
Proof. induction l as [|x l IH]; intros H; simpl; [done|]. rewrite (H x) by left. rewrite IH; [done|]. intros y Hy. apply H. by right. Qed.

Lemma sum_of_fmap {A B} (g : A -> B) (f : B -> Z) l : sum_of f (g <$> l) = sum_of (fun x => f (g x)) l.
Proof. induction l as [|x l IH]; csimpl; [done|]. simpl. by rewrite IH. Qed.

Lemma attributions_sorted t : attributions_in (sorted_task t) = attributions_in t.
Proof. apply size_perm, merge_sort_Permutation. Qed.
Lemma events_sorted t : events_in (sorted_task t) = events_in t.
Proof. apply size_perm, merge_sort_Permutation. Qed.

Lemma tasks_sorted c : hc_Tasks (sorted_import c) ≡ₚ sorted_task <$> hc_Tasks c.
Proof. apply merge_sort_Permutation. Qed.

Lemma sum_sorted f c : (forall t, f (sorted_task t) = f t) -> sum_of f (hc_Tasks (sorted_import c)) = sum_of f (hc_Tasks c).
Proof. intros Hf. rewrite (sum_of_perm _ _ _ (tasks_sorted c)), sum_of_fmap. apply sum_of_ext. by intros t _. Qed.

(** The parts of a task do not depend on the order it was sent in. *)
Lemma skipped_sorted f c p :
  NoDup (hk_Key <$> hc_Tasks c) -> (forall t, f (sorted_task t) = f t) -> (hr_Key <$> r_Tasks p) ⊆ (hk_Key <$> hc_Tasks c) ->
  skipped_parts f (sorted_import c) p = skipped_parts f c p.
Proof.
  intros Hnd Hf Hsub. apply sum_of_ext. intros r Hr. unfold parts_of. case_match; [|done].
  assert (hr_Key r ∈ hk_Key <$> hc_Tasks c) as (t & Hk & Ht)%list_elem_of_fmap by (by apply Hsub, list_elem_of_fmap_2).
  rewrite Hk, (byKey_unique (hc_Tasks c) t) by done. rewrite <-(Hf t). f_equal. change (hk_Key t) with (hk_Key (sorted_task t)).
  apply byKey_unique; rewrite tasks_sorted; [by rewrite <-list_fmap_compose|by apply list_elem_of_fmap_2].
Qed.

(** Created and skipped, the tasks of a preview have all the parts. *)
Lemma parts_split f tasks found :
  NoDup (hk_Key <$> tasks) -> length found = length tasks ->
  sum_of (parts_of f tasks true) (zip_with previewed tasks found) =
  sum_of f tasks - sum_of (parts_of f tasks false) (zip_with previewed tasks found).
Proof.
  intros Hnd Hl. assert (sum_of (fun r => f (byKey tasks (hr_Key r))) (zip_with previewed tasks found) = sum_of f tasks) as Hall.
  { rewrite <-(sum_of_fmap hr_Key (fun k => f (byKey tasks k))), preview_keys, sum_of_fmap by done.
    apply sum_of_ext. intros t Ht. by rewrite byKey_unique. }
  rewrite <-Hall. clear Hall. induction (zip_with previewed tasks found) as [|r l IH]; simpl; [done|].
  rewrite IH. unfold parts_of. destruct (seqb _ _); simpl; lia.
Qed.

Section Outcome.
Context `{Sha256} `{ImportJSON} `{CaseTables}.

Lemma normalize_inv c t n m counts :
  normalizeHistoricalImport c t = inr (n, m, counts) ->
  valid_import t c = true /\ n = sorted_import c /\ json_import (sorted_import c) = Some (default "" (json_import (sorted_import c))) /\
  m = sha256_text (default "" (json_import (sorted_import c))) /\ counts = import_counts c.
Proof. unfold normalizeHistoricalImport. case_match; [|done]. cbv zeta. destruct (json_import _); [|done]. by intros [= <- <- <-]. Qed.

Lemma valid_keys c t : valid_import t c = true -> NoDup (hk_Key <$> hc_Tasks c).
Proof.
  intros Hv. unfold valid_import in Hv. rewrite !andb_true_iff in Hv. destruct_and!. unfold distinct in *. by eapply bool_decide_eq_true_1.
Qed.

Lemma normalized_keys c t : valid_import t c = true -> NoDup (hk_Key <$> hc_Tasks (sorted_import c)).
Proof. intros Hv%valid_keys. by rewrite tasks_sorted, <-list_fmap_compose. Qed.

(** What a successful application of a new batch leaves and returns. *)
Lemma apply_fresh command normalized key fp manifest t p found env w u w4 r q env' w5 w6 counts :
  import_wf (w_db w) -> import_wf (w_db w4) -> faithful q env' -> w_db w5 = w_db w4 ->
  normalizeHistoricalImport command t = inr (normalized, manifest, counts) -> length found = length (hc_Tasks normalized) ->
  projects (x_core (w_db w)) !! hc_ProjectID command = Some p ->
  import_writes command normalized key fp manifest t (preview_receipt normalized manifest counts (p_revision p) found) env w = (inr u, w4) ->
  readHistoricalImportReceipt q (hc_ProjectID command) (hc_BatchID command) false env' w5 = (inr r, w6) ->
  as_previewed normalized (preview_receipt normalized manifest counts (p_revision p) found) r.
Proof.
  intros Hwf Hwf4 Hq Hw5 Hn Hlen Hp Hwr Hr. set (pr := preview_receipt _ _ _ _ _). apply normalize_inv in Hn as (Hv & -> & _ & _ & ->).
  destruct (import_writes_counted _ _ _ _ _ _ _ _ _ _ _ Hwf Hwr) as [Hna Hne]. pose proof (normalized_keys _ _ Hv) as Hnd.
  apply import_writes_shown in Hwr as (Hk & Hb & Ha & (e & He & Hek & Hes) & Ht & p' & Hp' & Hpn).
  set (k := historicalBatchRecordID _ _) in *. rewrite Hp in Hp'. injection Hp' as <-.
  apply (receipt_inv q env' Hq) in Hr as (_ & k' & b & p2 & st & Hkb & Hp2 & Hst & ->). rewrite Hw5 in *. rewrite Hpn in Hp2. injection Hp2 as <-.
  pose proof (batch_found (w_db w4) k (batch_record command manifest key t) Hwf4 ltac:(rewrite Hb; apply lookup_insert_eq)) as Hfound.
  simpl in Hfound. rewrite Hfound in Hkb. injection Hkb as <- <-.
  assert (st = "applied"%string) as ->.
  { unfold batch_state in Hst. rewrite He, List.filter_app in Hst. simpl in Hst. rewrite Hek, seqb_refl, last_snoc in Hst. simpl in Hst. congruence. }
  assert (hr_Key <$> r_Tasks pr = hk_Key <$> hc_Tasks (sorted_import command)) as Hkeys by (by apply preview_keys).
  assert ((hr_Key <$> r_Tasks pr) ⊆ (hk_Key <$> hc_Tasks (sorted_import command))) as Hsub by (by rewrite Hkeys).
  assert (tasks_of_batch k (w_db w4) = task_record (hc_Tasks (sorted_import command)) k t <$> r_Tasks pr) as Hrows.
  { apply sorted_records.
    - by rewrite (record_keys _ _ _ _ Hsub), Hkeys.
    - apply (StronglySorted_keys sle key_le ht_key); [done|]. rewrite (record_keys _ _ _ _ Hsub), Hkeys. apply sort_by_sorted.
    - eapply new_values; [exact Ht|by apply Forall_fmap, Forall_true; intros; apply seqb_refl|].
      intros i x Hi. apply seqb_false. intros <-. destruct (wf_task_batch _ Hwf _ _ Hi) as [y Hy]. simpl in Hy. congruence. }
  assert (Forall (fun a => seqb (hl_batch a) k = true) (alias_record (hc_Meta command) k t <$> hc_ProjectThreadAliases (sorted_import command))) as Hnew
    by (apply Forall_fmap, Forall_true; intros; apply seqb_refl).
  assert (map_Forall (fun _ a => seqb (hl_batch a) k = false) (x_aliases (w_db w))) as Hold.
  { intros i x Hi. apply seqb_false. intros <-. destruct (wf_alias_batch _ Hwf _ _ Hi) as [y Hy]. simpl in Hy. congruence. }
  split; simpl; try done.
  - rewrite Hrows. by apply records_shown.
  - unfold count_if. rewrite (Permutation_length (new_values (fun a => seqb (hl_batch a) k) _ _ _ Ha Hnew Hold)), length_fmap.
    apply size_sorted_aliases.
  - rewrite Hrows. unfold size. rewrite length_fmap. unfold pr, preview_receipt, r_Tasks. rewrite length_zip_with, Hlen, Nat.min_id.
    apply size_sorted_tasks.
  - rewrite Hrows, count_if_fmap, Z.add_0_l. etrans; [exact (count_previewed (fun s => seqb s "created") _ _ Hlen)|].
    apply count_if_ext. by intros [? []].
  - rewrite Hrows, count_if_fmap, Z.add_0_l. etrans; [exact (count_previewed (fun s => negb (seqb s "created")) _ _ Hlen)|].
    apply count_if_ext. by intros [? []].
  - etrans; [exact Hna|]. etrans; [exact (parts_split _ _ _ Hnd Hlen)|]. by rewrite (sum_sorted attributions_in _ attributions_sorted).
  - etrans; [exact Hne|]. etrans; [exact (parts_split _ _ _ Hnd Hlen)|]. by rewrite (sum_sorted events_in _ events_sorted).
Qed.

(** The receipt of the normalised batch is that of the batch. *)
Lemma normalized_previewed c t n p r :
  valid_import t c = true -> n = sorted_import c -> hr_Key <$> r_Tasks p = hk_Key <$> hc_Tasks n -> as_previewed n p r -> as_previewed c p r.
Proof.
  intros Hv -> Hk []. assert ((hr_Key <$> r_Tasks p) ⊆ (hk_Key <$> hc_Tasks c)) as Hsub.
  { rewrite Hk, tasks_sorted, <-list_fmap_compose. done. }
  apply valid_keys in Hv. split; try done.
  - by rewrite <-(skipped_sorted _ _ _ Hv attributions_sorted Hsub).
  - by rewrite <-(skipped_sorted _ _ _ Hv events_sorted Hsub).
Qed.

Lemma normalize_reordered c c' t t' n m k n' m' k' :
  reordered c c' -> normalizeHistoricalImport c t = inr (n, m, k) -> normalizeHistoricalImport c' t' = inr (n', m', k') ->
  n' = n /\ m' = m /\ k' = k.
Proof.
  intros Hr (Hv & -> & _ & -> & ->)%normalize_inv (_ & -> & _ & -> & ->)%normalize_inv.
  by rewrite (sorted_reordered t _ _ Hv Hr), (counts_reordered _ _ Hr).
Qed.

(** A batch that is not recorded is previewed afresh. *)
Lemma preview_state q env c m n w r w1 :
  faithful q env -> batch_by_key (hc_ProjectID c) (hc_BatchID c) (w_db w) = inl SqlNoRows ->
  previewHistoricalImport q c m n env w = (inr r, w1) -> r_State r = "preview"%string.
Proof.
  intros Hq Hb Hrun. unfold previewHistoricalImport in Hrun. apply bind_inr_inv in Hrun as (prior & w2 & H2 & Hrun).
  apply attempt_inv in H2. destruct (Hq _ _ _ _ _ H2) as [E2 Hp]. rewrite Hb in Hp.
  destruct prior as [e|[k b]]; [|by destruct Hp as [|[]]]. destruct Hp as [[= ->]|[x [= ->]]]; [|by m_inv].
  apply bind_inr_inv in Hrun as (p & w3 & H3 & Hrun). apply bind_inr_inv in Hrun as (rows & w5 & H5 & Hrun).
  apply bind_inr_inv in Hrun as (ks & w6 & H6 & Hrun). destruct (mapM _ _); by m_inv.
Qed.

(** A successful application, the transaction and the read after it. *)
Lemma apply_inv c env w r w1 :
  alone env -> ApplyHistoricalImport c env w = (inr r, w1) ->
  exists wa r0 wb wc, w_db wa = w_db w /\ applyHistoricalImportTx c env wa = (inr r0, wb) /\ w_db wc = w_db wb /\
    readHistoricalImportReceipt on_db (r_ProjectID r0) (r_BatchID r0) false env wc = (inr r, w1).
Proof.
  intros Ha Hrun. unfold ApplyHistoricalImport, importTx in Hrun. apply bind_inr_inv in Hrun as (r0 & wc & Htx & Hrun).
  apply mapE_inr_inv, withTx_inr_inv in Htx as (out & w2 & Hb & Hout). rewrite Ha in Hb.
  unfold body, nativeHistoricalProposalExists, raw_sql, on_tx, reserve in Hb. m_inv. simplify_eq. destruct Hout as [<- Hw].
  eexists _, _, w2, wc. split_and!; [|done..]. simpl in *. congruence.
Qed.

(** What the transaction does with a batch that is not recorded. *)
Lemma apply_tx_fresh c env w r w1 :
  import_wf (w_db w) -> batch_by_key (hc_ProjectID c) (hc_BatchID c) (w_db w) = inl SqlNoRows ->
  applyHistoricalImportTx c env w = (inr r, w1) ->
  exists t n m k p found key fp u w3 w4, normalizeHistoricalImport c t = inr (n, m, k) /\ w_db w3 = w_db w /\
    projects (x_core (w_db w)) !! hc_ProjectID c = Some p /\
    mapM (resolve n (active_titles (hc_ProjectID c) (w_db w)) (applied_keys (hc_ProjectID c) (w_db w))) (hc_Tasks n) = Some found /\
    import_writes c n key fp m t (preview_receipt n m k (p_revision p) found) env w3 = (inr u, w4) /\
    readHistoricalImportReceipt on_tx (hc_ProjectID c) (hc_BatchID c) false env w4 = (inr r, w1).
Proof.
  intros Hwf Hb (t & n & m & k & Hn & Hcase)%apply_tx_inv.
  assert (hc_ProjectID n = hc_ProjectID c /\ hc_BatchID n = hc_BatchID c) as [Ep Eb] by (by apply normalize_inv in Hn as (_ & -> & _)).
  destruct Hcase as [[Hw (w2 & Hr)]|(w2 & p & w3 & Hw2 & Hp & Hcase)].
  - pose proof (tx_receipt_keeps _ _ _ _ _ _ _ Hr) as Hk. apply (receipt_inv on_tx env (faithful_tx env)) in Hr as (_ & ? & ? & ? & ? & Hr & _).
    congruence.
  - pose proof (tx_preview_keeps _ _ _ _ _ _ _ Hp) as Hw3. rewrite <-Hw2, <-Ep, <-Eb in Hb.
    pose proof (preview_state _ _ _ _ _ _ _ _ (faithful_tx env) Hb Hp) as Hst.
    destruct Hcase as [[Hns _]|(_ & key & fp & u & w4 & Hwr & Hr)]; [done|].
    apply (preview_inv on_tx env (faithful_tx env)) in Hp as (_ & pr & found & Hpr & Hf & ->); [|by rewrite Hw2|done].
    rewrite Hw2, Ep in *. eexists t, n, m, k, pr, found, key, fp, u, w3, w4. split_and!; done.
Qed.
End Outcome.

(** C10: what is applied is what was previewed, but for two counts.  After a
    preview of a batch, the application of the same batch to the same database,
    with no other writer meanwhile, in any order of its parts and whoever
    confirms it, records exactly the previewed task receipts under the previewed
    digests, with the previewed numbers of aliases, tasks, created and skipped
    tasks, one revision later.  The receipt's numbers of attributions and events
    are the previewed ones less those of the skipped tasks, which the preview
    counts and the application does not record. *)
Theorem preview_predicts_apply `{Sha256, ImportJSON, CaseTables} c c' env w p w1 env' w' r w2 :
  import_wf (w_db w) -> alone env -> alone env' -> reordered c c' ->
  PreviewHistoricalImport c env w = (inr p, w1) -> r_State p = "preview"%string -> w_db w' = w_db w ->
  ApplyHistoricalImport c' env' w' = (inr r, w2) -> as_previewed c p r.
Proof.
  intros Hwf Ha Ha' Hro Hpre Hst Hw' Happ.
  unfold PreviewHistoricalImport, nativeHistoricalProposalExists, raw_sql in Hpre.
  apply bind_inr_inv in Hpre as (native & wa & Hnat & Hpre). apply (faithful_map _ _ _ _ _ _ _ (faithful_db env Ha)) in Hnat as [_ Ea].
  apply bind_inr_inv in Hpre as (? & wb & Hg & Hpre). apply require_inr_inv in Hg as [_ <-].
  apply bind_inr_inv in Hpre as (t & wb & Ht & Hpre). apply now_inr_inv in Ht as (_ & Eb & _).
  apply bind_inr_inv in Hpre as ([[n m] k] & wc & Hn & Hpre). destruct (normalizeHistoricalImport c t) as [e|nrm] eqn:Hnorm; simpl in Hn; m_inv.
  simplify_eq. simpl in Hpre. assert (w_db wc = w_db w) as Ec by congruence.
  assert (hc_ProjectID n = hc_ProjectID c' /\ hc_BatchID n = hc_BatchID c') as [Ep Ebt].
  { apply normalize_inv in Hnorm as (_ & -> & _). by rewrite (ro_project _ _ Hro), (ro_batch _ _ Hro). }
  apply (preview_inv on_db env (faithful_db env Ha)) in Hpre as (Hnone & pr & found & Hpr & Hf & ->); [|by rewrite Ec|done].
  rewrite Ec, Ep in *. rewrite Ebt in Hnone.
  apply apply_inv in Happ as (wd & r0 & we & wf & Ed & Htx & Ef & Hr); [|done].
  apply apply_tx_fresh in Htx as (t' & n' & m' & k' & pr' & found' & key & fp & u & w3 & w4 & Hnorm' & E3 & Hpr' & Hf' & Hwr & Hr0); [|congruence..].
  destruct (normalize_reordered _ _ _ _ _ _ _ _ _ _ Hro Hnorm Hnorm') as (-> & -> & ->).
  rewrite Ed, Hw' in *. rewrite Hpr in Hpr'. injection Hpr' as <-. rewrite Hf in Hf'. injection Hf' as <-.
  assert (length found = length (hc_Tasks n)) as Hlen by (by symmetry; eapply length_mapM).
  assert (import_wf (w_db w4)) as Hwf4 by (apply import_writes_step in Hwr as (_ & Hg & _); apply (ig_wf _ _ Hg); by rewrite E3).
  rewrite <-E3 in Hwf, Hpr. pose proof (tx_receipt_keeps _ _ _ _ _ _ _ Hr0) as E4.
  destruct (apply_fresh _ _ _ _ _ _ _ _ _ _ _ _ _ _ _ _ _ _ Hwf Hwf4 (faithful_tx env') eq_refl Hnorm' Hlen Hpr Hwr Hr0) as [_ _ Ej Eb' _ _ _ _ _ _ _ _].
  simpl in Ej, Eb'. rewrite Ej, Eb', Ep, Ebt in Hr.
  assert (w_db wf = w_db w4) as Ew by congruence.
  apply normalized_previewed with t n; [by eapply normalize_inv|by apply normalize_inv in Hnorm as (_ & -> & _)|by apply preview_keys|].
  exact (apply_fresh _ _ _ _ _ _ _ _ _ _ _ _ _ _ _ _ _ _ Hwf Hwf4 (faithful_db env' Ha') Ew Hnorm' Hlen Hpr Hwr Hr).
Qed.

(** ** Supersession is final *)

Lemma batch_state_snoc k d d' e :
  x_batch_events d' = x_batch_events d ++ [e] -> batch_state k d' = if seqb (be_batch e) k then Some (be_state e) else batch_state k d.
Proof.
  intros He. unfold batch_state. rewrite He, List.filter_app. simpl. destruct (seqb _ _); [by rewrite last_snoc|by rewrite app_nil_r].
Qed.

Lemma batch_state_present d k st : import_wf d -> batch_state k d = Some st -> is_Some (x_batches d !! k).
Proof.
  intros Hwf Hs. unfold batch_state in Hs. destruct (last _) as [e|] eqn:Hl; [|done].
  apply last_Some_elem_of, list_elem_of_In, List.filter_In in Hl as [Hin <-%seqb_true]. apply list_elem_of_In in Hin.
  by apply (proj1 (Forall_forall _ _) (wf_states _ Hwf)) in Hin as [? _].
Qed.

(** A superseded batch stays superseded. *)
Definition settles (d d' : XDB) : Prop :=
  imports_grow d d' /\ (import_wf d -> forall k, batch_state k d = Some "superseded"%string -> batch_state k d' = Some "superseded"%string).
#[export] Instance settles_preorder : PreOrder settles.
Proof.
  split.
  - intros d. by split.
  - intros d1 d2 d3 [G1 S1] [G2 S2]. split; [by etrans|]. intros Hwf k Hk. apply S2; [by apply G1|by apply S1].
Qed.

Section Settled.
Context `{Sha256} `{ImportJSON} `{CaseTables}.

Lemma import_writes_settle command normalized key fp manifest t preview env w u w1 :
  import_writes command normalized key fp manifest t preview env w = (inr u, w1) -> settles (w_db w) (w_db w1).
Proof.
  intros Hrun. split; [by apply import_writes_step in Hrun as (_ & ? & _)|]. intros Hwf k Hk.
  apply import_writes_shown in Hrun as (Hnone & _ & _ & (e & He & Hek & _) & _). rewrite (batch_state_snoc _ _ _ _ He).
  destruct (seqb _ _) eqn:Heq; [|done]. apply seqb_true in Heq. destruct (batch_state_present _ _ _ Hwf Hk). congruence.
Qed.

Lemma supersede_writes_settle command recordID key fp env w u w1 :
  supersede_writes command recordID key fp env w = (inr u, w1) -> settles (w_db w) (w_db w1).
Proof.
  intros Hrun. split; [by apply supersede_writes_step in Hrun as (_ & ? & _)|]. intros Hwf k Hk.
  unfold supersede_writes in Hrun. cbv zeta in Hrun. apply bind_inr_inv in Hrun as (t & w0 & Ht & Hrun). apply now_inr_inv in Ht as (_ & E0 & _).
  apply bind_inr_inv in Hrun as (rev & w2 & Hb & Hrun). apply bump_inv in Hb as (c & _ & E2).
  apply bind_inr_inv in Hrun as (u1 & w3 & H3 & Hrun). apply mapE_inr_inv, exec_inr_inv in H3 as [[_ E3]%xcheck_inv _].
  apply tail_shown in Hrun. unfold shown in Hrun. injection Hrun as _ _ Hev _ _. rewrite E3, E2, E0 in Hev.
  rewrite (batch_state_snoc _ _ _ _ Hev). simpl. by destruct (seqb _ _).
Qed.

Lemma apply_tx_settles command env w r w1 :
  applyHistoricalImportTx command env w = (inr r, w1) -> w_db w1 = w_db w \/ settles (w_db w) (w_db w1).
Proof.
  intros (t & n & m & c & Hn & [[Hw _]|(w2 & p & w3 & Hw2 & Hp & [(_ & Hw & _)|(_ & key & fp & u & w4 & Hwr & Hr)])])%apply_tx_inv; [by left|by left|].
  right. apply tx_preview_keeps in Hp. apply tx_receipt_keeps in Hr. rewrite Hr, <-Hw2, <-Hp. by eapply import_writes_settle.
Qed.
End Settled.

(** Supersession is final.  Over any run of previews, imports and
    supersessions a superseded batch stays superseded, and the tasks it created
    stay hidden. *)
Theorem superseded_final `{Sha256, ImportJSON, CaseTables} ops env d :
  alone env -> import_wf d ->
  let d' := import_after ops env d in
  (forall k, batch_state k d = Some "superseded"%string -> batch_state k d' = Some "superseded"%string) /\
  (forall id, hidden d id = true -> hidden d' id = true).
Proof.
  intros Ha Hwf d'.
  assert (settles d d') as [Hg Hs].
  { apply (run_all_step settles _ env (mkWorld d 0)); [|intros n x; by rewrite Ha]. intros op (o & -> & _)%list_elem_of_fmap.
    apply guarantees_run_import; intros *; [apply apply_tx_settles|apply supersede_writes_settle]. }
  specialize (Hs Hwf). split; [done|]. intros id Hid. unfold hidden in *. rewrite existsb_exists in *. destruct Hid as (t & Ht & Hb).
  rewrite !andb_true_iff, !bool_decide_eq_true in Hb. destruct Hb as [[[Hb1 Hb2] Hb3] Hb4]. exists t. split.
  - apply list_elem_of_In in Ht. apply values_elem in Ht as [i Hi]. apply list_elem_of_In, list_elem_of_fmap. exists (i, t).
    split; [done|]. apply elem_of_map_to_list. by eapply lookup_weaken, (ig_tasks _ _ Hg).
  - rewrite !andb_true_iff, !bool_decide_eq_true. split_and!; [done..| |by apply Hs].
    destruct Hb3 as [b Hbt]. exists b. by eapply lookup_weaken, (ig_batches _ _ Hg).
Qed.

(** A batch is imported once.  Whatever a command carries and however the call
    ends, applying a batch that is recorded leaves the database as it is. *)
Theorem recorded_batch_kept `{Sha256, ImportJSON, CaseTables} c env w kb :
  import_wf (w_db w) -> alone env -> batch_by_key (hc_ProjectID c) (hc_BatchID c) (w_db w) = inr kb ->
  w_db (ApplyHistoricalImport c env w).2 = w_db w.
Proof.
  intros Hwf Ha Hb. set (R := fun d d' : XDB => import_wf d -> batch_by_key (hc_ProjectID c) (hc_BatchID c) d = inr kb -> d' = d).
  assert (guarantees R (ApplyHistoricalImport c)) as Hg.
  { apply guarantees_ApplyHistoricalImport. intros env' w' r w1 Hrun.
    apply apply_tx_inv in Hrun as (t & n & m & k & Hn & [[Hw _]|(w2 & p & w3 & Hw2 & Hp & [(_ & Hw & _)|(Hst & _)])]); [by left|by left|].
    right. intros Hwf' Hb'. exfalso. apply normalize_inv in Hn as (_ & -> & _). rewrite <-Hw2 in *.
    apply (preview_inv on_tx env' (faithful_tx env')) in Hp as [Hnone _]; [|done..]. simpl in Hnone. congruence. }
  destruct (ApplyHistoricalImport c env w) as [r w1] eqn:Hrun.
  assert (Reflexive R) by (by intros d). assert (Transitive R).
  { intros d1 d2 d3 H12 H23 Hwf1 Hb1. rewrite (H12 Hwf1 Hb1) in *. by apply H23. }
  eapply (guarantees_run R) in Hrun; [by apply Hrun|done|]. intros n x. by rewrite Ha.
Qed.

(** ** Witnesses *)

Lemma demo_wf ops d : import_wf d -> import_wf (import_after ops ImportDemo.calm d).
Proof. apply (import_after_core ops _ d ImportDemo.import_calm_others). Qed.

Lemma preview_predicts_apply_witness : exists p r w1 w2,
  PreviewHistoricalImport ImportDemo.previewed_batch ImportDemo.calm (mkWorld ImportDemo.db0 0) = (inr p, w1) /\
  ApplyHistoricalImport (ImportDemo.applied_batch ImportDemo.manifest "i1") ImportDemo.calm (mkWorld ImportDemo.db0 0) = (inr r, w2) /\
  n_Created (r_Counts p) = 1 /\ n_SkippedCurrent (r_Counts p) = 1 /\ n_Attributions (r_Counts p) = 3 /\ n_Attributions (r_Counts r) = 2 /\
  as_previewed ImportDemo.previewed_batch p r.
Proof.
  assert (exists p, (PreviewHistoricalImport ImportDemo.previewed_batch ImportDemo.calm (mkWorld ImportDemo.db0 0)).1 = inr p /\
    r_State p = "preview"%string /\ n_Created (r_Counts p) = 1 /\ n_SkippedCurrent (r_Counts p) = 1 /\ n_Attributions (r_Counts p) = 3)
    as (p & Hp & Hst & Hc & Hs & Hn)
    by (eexists; split_and!; vm_compute; reflexivity).
  assert (exists r, (ApplyHistoricalImport (ImportDemo.applied_batch ImportDemo.manifest "i1") ImportDemo.calm (mkWorld ImportDemo.db0 0)).1 = inr r /\
    n_Attributions (r_Counts r) = 2) as (r & Hr & Hm) by (eexists; split; vm_compute; reflexivity).
  pose proof (surjective_pairing (PreviewHistoricalImport ImportDemo.previewed_batch ImportDemo.calm (mkWorld ImportDemo.db0 0))) as Ep.
  pose proof (surjective_pairing
    (ApplyHistoricalImport (ImportDemo.applied_batch ImportDemo.manifest "i1") ImportDemo.calm (mkWorld ImportDemo.db0 0))) as Ea.
  rewrite Hp in Ep. rewrite Hr in Ea. eexists p, r, _, _. refine (conj Ep (conj Ea (conj Hc (conj Hs (conj Hn (conj Hm _)))))).
  exact (preview_predicts_apply _ _ _ (mkWorld ImportDemo.db0 0) _ _ _ (mkWorld ImportDemo.db0 0) _ _ ImportDemo.db0_wf ImportDemo.import_calm_alone
           ImportDemo.import_calm_alone (ImportDemo.same_batch _ _) Ep Hst eq_refl Ea).
Defined.

Lemma superseded_final_witness :
  let d := import_after [ImportDemo.supersede] ImportDemo.calm ImportDemo.applied in
  hidden d "T-H-7ffb17f78f106261376e922c" = true /\
  hidden (import_after [OpApplyImport (ImportDemo.applied_batch ImportDemo.manifest "i3")] ImportDemo.calm d) "T-H-7ffb17f78f106261376e922c" = true.
Proof.
  intros d. assert (hidden d "T-H-7ffb17f78f106261376e922c" = true) as Hh by (vm_compute; reflexivity). split; [exact Hh|].
  apply superseded_final; [exact ImportDemo.import_calm_alone| |exact Hh]. repeat apply demo_wf. exact ImportDemo.db0_wf.
Defined.

Lemma recorded_batch_kept_witness :
  let c := ImportDemo.applied_batch ImportDemo.manifest "i3" in
  let w := mkWorld ImportDemo.applied 0 in
  is_Some (x_batches (w_db w) !! ImportDemo.record) /\ w_db (ApplyHistoricalImport c ImportDemo.calm w).2 = w_db w.
Proof.
  intros c w. split; [vm_compute; eexists; reflexivity|].
  destruct (batch_by_key (hc_ProjectID c) (hc_BatchID c) (w_db w)) as [e|kb] eqn:E; [vm_compute in E; discriminate E|].
  exact (recorded_batch_kept c _ w kb (demo_wf _ _ ImportDemo.db0_wf) ImportDemo.import_calm_alone E).
Defined.
