(* ===== verification/SelectedReview.v ===== *)
(** * Reviewed imports of archaeology outcomes

    [internal/store/project_archaeology_review.go],
    [project_archaeology_eligibility.go] and [project_archaeology_apply.go]:
    a human pages through the outcomes that a completed batch reported; the
    last page gives a token, and the token lets one application of exactly
    those outcomes import them.  The tables are those of
    [migrations/015_continuous_dogfood.sql]; as elsewhere the length checks of
    text and digest columns are left out, since the code makes those texts.
    Expiry times are kept as the texts that SQLite compares.

    JSON and SHA-256 are arguments; HMAC is defined over SHA-256. *)

From Stdlib Require Import ZArith Lia Ascii.
From stdpp Require Import base gmap strings list sets sorting pretty.
From S2P Require Import Prelude GoText Stamp Cursor Framing CoreDB ProjectCore OpsFs ArchDB ArchPolicy HistoricalImport.

Local Open Scope Z_scope.
Local Open Scope prog_scope.

(** ** [crypto/hmac] *)

Definition xor_bytes (c : N) (s : string) : string :=
  String.string_of_list_ascii ((fun a => ascii_of_N (N.lxor c (N_of_ascii a))) <$> bytes_of s).
Definition zero_bytes (n : nat) : string := String.string_of_list_ascii (replicate n Ascii.zero).
(** a key as one block of SHA-256 *)
Definition hmac_block `{Sha256} (key : string) : string :=
  let k := if 64 <? len key then sha256_Sum256 key else key in k +:+ zero_bytes (64 - String.length k).
Definition hmac_Sum `{Sha256} (key message : string) : string :=
  sha256_Sum256 (xor_bytes 92 (hmac_block key) +:+ sha256_Sum256 (xor_bytes 54 (hmac_block key) +:+ message)).

(** ** Commands and receipts *)

Definition ArchaeologyNativeMaxProjects : Z := 30.

Record ArchaeologyBatchEligibility := {
  el_Eligible : bool; el_State : string; el_PolicyAttested : bool; el_JobCount : Z; el_CompletedJobCount : Z; el_OutcomeCount : Z;
  el_ValidOutcomeCount : Z }.
Record ArchaeologySelectedApplyCommand := {
  sa_BatchID : string; sa_Principal : string; sa_RequestID : string; sa_SelectionDigest : string; sa_ManifestDigest : string;
  sa_ReviewCompletionToken : string; sa_OutcomeIDs : list string; sa_Imports : list HistoricalImportCommand }.
Record ArchaeologySelectedApplyReplayQuery := {
  sq_BatchID : string; sq_Principal : string; sq_RequestID : string; sq_SelectionDigest : string; sq_ManifestDigest : string;
  sq_OutcomeIDs : list string }.
Record ArchaeologySelectedReviewCommand := {
  sr_Principal : string; sr_BatchID : string; sr_SelectionDigest : string; sr_ManifestDigest : string; sr_SessionToken : string;
  sr_RequestID : string; sr_OutcomeIDs : list string; sr_Page : Z; sr_PageCount : Z }.
Record ArchaeologySelectedReviewReceipt := { rr_SessionToken : string; rr_CompletionToken : string; rr_NextPage : Z; rr_ExpiresAt : Z }.
Record ArchaeologySelectedPreviewCommand := {
  sp_BatchID : string; sp_Principal : string; sp_RequestID : string; sp_OutcomeIDs : list string; sp_Imports : list HistoricalImportCommand }.
Record ArchaeologySelectedPreviewReceipt := {
  pr_BatchID : string; pr_SelectionDigest : string; pr_ManifestDigest : string; pr_OutcomeIDs : list string;
  pr_Imports : list HistoricalImportReceipt; pr_PreparedImports : list HistoricalImportCommand }.
Record ArchaeologySelectedApplyReceipt := {
  ax_AuditID : string; ax_BatchID : string; ax_SelectionDigest : string; ax_ManifestDigest : string; ax_OutcomeIDs : list string;
  ax_Imports : list HistoricalImportReceipt }.

(** an entry of the manifest that the human confirms *)
Record manifest_item := {
  mi_ProjectID : string; mi_BatchID : string; mi_ManifestDigest : string; mi_PreRevision : Z; mi_ResultRevision : Z;
  mi_Tasks : list HistoricalImportTaskReceipt }.
(** the fields of a receipt that a simulation must predict *)
Record stable_receipt := {
  st_ProjectID : string; st_BatchID : string; st_SourceDigest : string; st_ManifestDigest : string; st_CollisionPolicy : string;
  st_State : string; st_Applied : bool; st_Tasks : list HistoricalImportTaskReceipt; st_Counts : HistoricalImportCounts;
  st_ProjectRevision : Z }.
Definition stable_of (v : HistoricalImportReceipt) : stable_receipt :=
  {| st_ProjectID := r_ProjectID v; st_BatchID := r_BatchID v; st_SourceDigest := r_SourceDigest v; st_ManifestDigest := r_ManifestDigest v;
     st_CollisionPolicy := r_CollisionPolicy v; st_State := r_State v; st_Applied := r_Applied v; st_Tasks := r_Tasks v;
     st_Counts := r_Counts v; st_ProjectRevision := r_ProjectRevision v |}.

(** [json.Marshal] and [json.Unmarshal] of the values that are hashed,
    compared or stored; [json_wire] reads [batch_id] of a proposal *)
Class SelectedJSON := {
  json_ids : list string -> string;
  json_read_ids : string -> option (list string);
  json_receipt : ArchaeologySelectedApplyReceipt -> string;
  json_read_receipt : string -> option ArchaeologySelectedApplyReceipt;
  json_selection : string -> list (string * string) -> string;
  json_manifest : string -> string -> list manifest_item -> string;
  json_stable : stable_receipt -> string;
  json_wire : string -> option string;
}.
(** what was stored reads back *)
Class SelectedJSONLaws `{SelectedJSON} := {
  json_ids_back : forall l, json_read_ids (json_ids l) = Some l;
  json_receipt_back : forall r, json_read_receipt (json_receipt r) = Some r;
}.

(** ** Tables *)

Record review_row := {
  rv_principal : string; rv_batch : string; rv_selection : string; rv_manifest : string; rv_ids : string; rv_session : string;
  rv_completion : option string; rv_page_size : Z; rv_page_count : Z; rv_next : Z; rv_completed : option string; rv_consumed : option string;
  rv_expires : string; rv_created : string }.
Record page_row := { pg_request : string; pg_response : string; pg_viewed : string }.
Record simport_row := {
  si_batch : string; si_principal : string; si_request : string; si_selection : string; si_manifest : string; si_ids : string;
  si_result : string; si_created : string }.

(** [s_secret] is [installation_status.review_secret]. *)
Record SDB := mkSDB {
  s_x : XDB;
  s_imports : gmap string simport_row;
  s_reviews : gmap string review_row;
  s_pages : gmap (string * Z) page_row;
  s_secret : option string;
}.
Definition put_x (v : XDB) (d : SDB) : SDB := mkSDB v (s_imports d) (s_reviews d) (s_pages d) (s_secret d).
Definition set_simports (v : gmap string simport_row) (d : SDB) : SDB := mkSDB (s_x d) v (s_reviews d) (s_pages d) (s_secret d).
Definition set_reviews (v : gmap string review_row) (d : SDB) : SDB := mkSDB (s_x d) (s_imports d) v (s_pages d) (s_secret d).
Definition set_pages (v : gmap (string * Z) page_row) (d : SDB) : SDB := mkSDB (s_x d) (s_imports d) (s_reviews d) v (s_secret d).
(** imports in a transaction over all tables *)
Definition on_s {E A} (m : M XDB E A) : M SDB E A := zoom s_x put_x m.

Definition s_arch (d : SDB) : ADB := x_arch (s_x d).
Definition scheck {A} (ok : bool) (a : A) (d : SDB) : SqlErr + A * SDB := if ok then inr (a, d) else inl SqlConstraint.

(** ** Statements *)

(** [DELETE ... WHERE expires_at<=?], with the pages of the deleted reviews *)
Definition expired (now : string) (r : review_row) : bool := sleb (rv_expires r) now.
Definition delete_expired (now : string) : Stmt SDB unit := fun d =>
  let kept := filter (fun e => expired now e.2 = false) (s_reviews d) in
  inr (tt, set_pages (filter (fun e => is_Some (kept !! e.1.1)) (s_pages d)) (set_reviews kept d)).

(** [INSERT OR IGNORE]: a row whose keys are taken is left out; a batch that
    is not there is an error *)
Definition insert_review (id : string) (r : review_row) : Stmt SDB unit := fun d =>
  if absent (s_reviews d) id && bool_decide (map_Forall (fun _ x => rv_session x <> rv_session r) (s_reviews d))
     && (rv_page_size r =? 5) && (1 <=? rv_page_count r) && (rv_page_count r <=? 12)
  then scheck (present (a_batches (s_arch d)) (rv_batch r)) tt (set_reviews (<[id:=r]> (s_reviews d)) d)
  else inr (tt, d).

Definition insert_page (id : string) (page : Z) (r : page_row) : Stmt SDB unit := fun d =>
  scheck (absent (s_pages d) (id, page) && present (s_reviews d) id && (0 <=? page) && (page <=? 11)
          && bool_decide (map_Forall (fun k x => k.1 = id -> pg_request x <> pg_request r) (s_pages d)))
    tt (set_pages (<[(id, page):=r]> (s_pages d)) d).

Definition with_next (n : Z) (r : review_row) : review_row :=
  {| rv_principal := rv_principal r; rv_batch := rv_batch r; rv_selection := rv_selection r; rv_manifest := rv_manifest r; rv_ids := rv_ids r;
     rv_session := rv_session r; rv_completion := rv_completion r; rv_page_size := rv_page_size r; rv_page_count := rv_page_count r;
     rv_next := n; rv_completed := rv_completed r; rv_consumed := rv_consumed r; rv_expires := rv_expires r; rv_created := rv_created r |}.
Definition with_completion (digest now : string) (r : review_row) : review_row :=
  {| rv_principal := rv_principal r; rv_batch := rv_batch r; rv_selection := rv_selection r; rv_manifest := rv_manifest r; rv_ids := rv_ids r;
     rv_session := rv_session r; rv_completion := Some (default digest (rv_completion r)); rv_page_size := rv_page_size r;
     rv_page_count := rv_page_count r; rv_next := rv_next r; rv_completed := Some (default now (rv_completed r));
     rv_consumed := rv_consumed r; rv_expires := rv_expires r; rv_created := rv_created r |}.
Definition with_consumed (now : string) (r : review_row) : review_row :=
  {| rv_principal := rv_principal r; rv_batch := rv_batch r; rv_selection := rv_selection r; rv_manifest := rv_manifest r; rv_ids := rv_ids r;
     rv_session := rv_session r; rv_completion := rv_completion r; rv_page_size := rv_page_size r; rv_page_count := rv_page_count r;
     rv_next := rv_next r; rv_completed := rv_completed r; rv_consumed := Some now; rv_expires := rv_expires r; rv_created := rv_created r |}.

(** [UPDATE archaeology_selected_reviews SET ... WHERE ...]: the rows that
    match, the columns checked, the number of rows *)
Definition review_ok (r : review_row) : bool := (0 <=? rv_next r) && (rv_next r <=? rv_page_count r).
Definition completions_unique (m : gmap string review_row) : bool :=
  bool_decide (map_Forall (fun i x => map_Forall (fun j y => rv_completion x <> None -> rv_completion x = rv_completion y -> i = j) m) m).
Definition update_reviews (cond : string -> review_row -> bool) (f : review_row -> review_row) : Stmt SDB Z := fun d =>
  let new := map_imap (fun i r => Some (if cond i r then f r else r)) (s_reviews d) in
  scheck (bool_decide (map_Forall (fun _ r => review_ok r = true) new) && completions_unique new)
    (Z.of_nat (length (List.filter (fun e => cond e.1 e.2) (map_to_list (s_reviews d))))) (set_reviews new d).

Definition insert_simport (id : string) (r : simport_row) : Stmt SDB unit := fun d =>
  scheck (absent (s_imports d) id && present (a_batches (s_arch d)) (si_batch r)
          && bool_decide (map_Forall (fun _ x => (si_principal x = si_principal r -> si_request x <> si_request r) /\
               (si_batch x = si_batch r -> si_selection x <> si_selection r)) (s_imports d)))
    tt (set_simports (<[id:=r]> (s_imports d)) d).

(** ** Queries *)

(** [rowQuerier] and [historicalQuerier] of these functions *)
Definition selectedQuerier := forall A, (SDB -> SqlErr + A) -> M SDB SqlErr A.
Definition sel_tx : selectedQuerier := fun A q => exec (query q).
Definition sel_db : selectedQuerier := fun A q => autocommit (query q).

Definition secret_of : SDB -> SqlErr + string := fun d => match s_secret d with Some s => inr s | None => inl SqlNoRows end.

(** [archaeologyEligibleOutcomePredicate], for the batch [bid] with row [b] *)
Definition archaeologyEligibleOutcome (bid : string) (b : batch_row) (j : job_row) (o : outcome_row) : bool :=
  seqb (jo_batch j) bid && seqb (jo_session j) (ba_session b) && seqb (jo_state j) "completed"
  && match jo_report j with Some digest => len digest =? 32 | None => false end && seqb (oc_project o) (jo_project j).

(** the outcomes of a batch's jobs that satisfy a predicate *)
Definition outcomes_where (p : job_row -> outcome_row -> bool) (d : ADB) : list (string * outcome_row) :=
  List.filter (fun e => match a_jobs d !! oc_job e.2 with Some j => p j e.2 | None => false end) (map_to_list (a_outcomes d)).
Definition count_jobs (p : job_row -> bool) (d : ADB) : Z := count_if p (map_to_list (a_jobs d)).*2.

Definition batch_of (principal batchID : string) : SDB -> SqlErr + batch_row := fun d =>
  match a_batches (s_arch d) !! batchID with
  | Some b =>
      match a_sessions (s_arch d) !! ba_session b with
      | Some s => if seqb (se_principal s) principal then inr b else inl SqlNoRows
      | None => inl SqlNoRows
      end
  | None => inl SqlNoRows
  end.

(** [archaeologyBatchEligibilitySQL] *)
Definition batch_eligibility (principal batchID : string) : SDB -> SqlErr + ArchaeologyBatchEligibility := fun d =>
  match batch_of principal batchID d with
  | inl e => inl e
  | inr b =>
      let a := s_arch d in
      let jobs := count_jobs (fun j => seqb (jo_batch j) batchID) a in
      let completed := count_jobs (fun j => seqb (jo_batch j) batchID && seqb (jo_session j) (ba_session b) && seqb (jo_state j) "completed") a in
      let outcomes := size (outcomes_where (fun j _ => seqb (jo_batch j) batchID) a) in
      let valid := size (outcomes_where (archaeologyEligibleOutcome batchID b) a) in
      inr {| el_Eligible := seqb (ba_state b) "completed" && ba_attested b && (0 <? jobs) && (completed =? jobs) && (0 <? outcomes) && (valid =? outcomes);
             el_State := ba_state b; el_PolicyAttested := ba_attested b; el_JobCount := jobs; el_CompletedJobCount := completed;
             el_OutcomeCount := outcomes; el_ValidOutcomeCount := valid |}
  end.

Definition shown_outcome (id : string) (o : outcome_row) : ArchaeologyOutcome :=
  {| ao_ID := id; ao_ProjectID := oc_project o; ao_Title := oc_title o; ao_Summary := oc_summary o; ao_SourceCount := oc_sources o;
     ao_ProposalJSON := oc_proposal o; ao_Provenance := []; ao_Contributors := [] |}.
(** [... AND o.id IN (...) ORDER BY o.id], where the ids are sorted and
    distinct *)
Definition eligible_outcomes (principal batchID : string) (ids : list string) : SDB -> SqlErr + list ArchaeologyOutcome := fun d =>
  inr match batch_of principal batchID d with
      | inl _ => []
      | inr b => omap (fun id =>
          match a_outcomes (s_arch d) !! id with
          | Some o => match a_jobs (s_arch d) !! oc_job o with
                      | Some j => if archaeologyEligibleOutcome batchID b j o then Some (shown_outcome id o) else None
                      | None => None
                      end
          | None => None
          end) ids
      end.

Definition review_by_id (id principal batchID session : string) : SDB -> SqlErr + review_row := fun d =>
  match s_reviews d !! id with
  | Some r => if seqb (rv_principal r) principal && seqb (rv_batch r) batchID && seqb (rv_session r) session then inr r else inl SqlNoRows
  | None => inl SqlNoRows
  end.
Definition page_request (id : string) (page : Z) : SDB -> SqlErr + string := fun d =>
  match s_pages d !! (id, page) with Some p => inr (pg_request p) | None => inl SqlNoRows end.
Definition simport_by_key (principal request : string) : SDB -> SqlErr + (string * simport_row) := fun d =>
  match List.filter (fun e => seqb (si_principal e.2) principal && seqb (si_request e.2) request) (map_to_list (s_imports d)) with
  | e :: _ => inr e
  | [] => inl SqlNoRows
  end.

(** ** Selections *)

(** [sort.Strings] *)
Definition sort_Strings (l : list string) : list string := merge_sort sle l.
Fixpoint no_repeat (l : list string) : bool :=
  match l with
  | a :: ((b :: _) as rest) => negb (seqb a b) && no_repeat rest
  | _ => true
  end.
Definition canonicalSelectedOutcomeIDs (values : list string) : Err + list string :=
  let ids := sort_Strings values in
  if (size ids <? 1) || (ArchaeologyNativeMaxProjects * 2 <? size ids) then inl ErrInvalid
  else if bool_decide (values = ids) && forallb (fun id => boundedCoreText id 120 true) ids && no_repeat ids then inr ids
  else inl ErrInvalid.

Definition validateSelectedImportSources (imports : list HistoricalImportCommand) : bool :=
  distinct ((fun item => String.concat nul [hc_ProjectID item; hc_SourceDigest item]) <$> imports).

Definition digest_text `{Sha256} (body : string) : string := "sha256:" +:+ hex_EncodeToString (sha256_Sum256 body).

(** a map from the ids of outcomes, as [proposals] and [projects] *)
Definition by_outcome (f : ArchaeologyOutcome -> string) (selected : list ArchaeologyOutcome) (id : string) : string :=
  default "" ((list_to_map ((fun o => (ao_ID o, f o)) <$> reverse selected) : gmap string string) !! id).

Definition with_confirmation (manifest requestID : string) (c : HistoricalImportCommand) : HistoricalImportCommand :=
  {| hc_ProjectID := hc_ProjectID c; hc_BatchID := hc_BatchID c; hc_SourceDigest := hc_SourceDigest c;
     hc_CollisionPolicy := hc_CollisionPolicy c; hc_ConfirmSourceDigest := hc_SourceDigest c; hc_ConfirmManifestDigest := manifest;
     hc_SchemaVersion := hc_SchemaVersion c; hc_ProjectThreadAliases := hc_ProjectThreadAliases c; hc_Tasks := hc_Tasks c;
     hc_Meta := {| ActorID := ActorID (hc_Meta c); SessionID := SessionID (hc_Meta c); RequestID := requestID |} |}.

Definition nop : Stmt SDB unit := fun d => inr (tt, d).
Definition current : M SDB TxFail SDB := fun _ w => (inr (w_db w), w).

(** [SAVEPOINT], the work, [ROLLBACK TO] and [RELEASE]; the deferred ones
    run when anything failed, and their own failures are ignored *)
Definition savepoint {A} (m : M SDB TxFail A) : M SDB TxFail A :=
  plain (exec nop) ;;;
  d <-- current ;;
  out <-- attempt (a <-- m ;; plain (exec (fun _ => inr (tt, d))) ;;; plain (exec nop) ;;; ret a) ;;
  match out with
  | inr a => ret a
  | inl e => attempt (exec (fun _ => inr (tt, d))) ;;; attempt (exec nop) ;;; throw e
  end.

Section Selected.
Context `{Sha256} `{ImportJSON} `{CaseTables} `{SelectedJSON}.

Definition selectionDigest (batchID : string) (outcomeIDs : list string) (proposals : string -> string) : string :=
  digest_text (json_selection batchID ((fun id => (id, proposals id)) <$> outcomeIDs)).

Definition selectedManifestDigest (batchID selection : string) (before : list Z) (receipts : list HistoricalImportReceipt) : string :=
  digest_text (json_manifest batchID selection (zip_with (fun b r =>
    {| mi_ProjectID := r_ProjectID r; mi_BatchID := r_BatchID r; mi_ManifestDigest := r_ManifestDigest r; mi_PreRevision := b;
       mi_ResultRevision := r_ProjectRevision r; mi_Tasks := r_Tasks r |}) before receipts)).

(** the token and its digest *)
Definition reviewToken (secret value : string) : string * string :=
  let token := base64_EncodeToString (hmac_Sum secret value) in (token, sha256_Sum256 token).

(** ** Eligibility *)

Definition readArchaeologyBatchEligibility (q : selectedQuerier) (principal batchID : string) : M SDB Err ArchaeologyBatchEligibility :=
  require (boundedCoreText principal 200 true && boundedCoreText batchID 120 true) ErrInvalid ;;;
  map_sql (q _ (batch_eligibility principal batchID)).

Definition readArchaeologyEligibleSelectedOutcomes (q : selectedQuerier) (principal batchID : string) (ids : list string)
    : M SDB Err (list ArchaeologyOutcome) :=
  match canonicalSelectedOutcomeIDs ids with
  | inl e => throw e
  | inr canonical =>
      eligibility <-- readArchaeologyBatchEligibility q principal batchID ;;
      require (el_Eligible eligibility) ErrConflict ;;;
      out <-- raw_sql (q _ (eligible_outcomes principal batchID canonical)) ;;
      require (size out =? size canonical) ErrNotFound ;;;
      ret out
  end.

(** [ArchaeologyBatchEligibility] *)
Definition BatchEligibility (principal batchID : string) : M SDB Err ArchaeologyBatchEligibility :=
  readArchaeologyBatchEligibility sel_db principal batchID.

(** ** Reviews *)

Definition sbody {A} (m : M SDB Err A) : M SDB TxFail A := mapE FBody m.

Definition review_id (c : ArchaeologySelectedReviewCommand) : string :=
  deterministicHistoricalID "ASV-" [sr_Principal c; sr_BatchID c; sr_SelectionDigest c; sr_ManifestDigest c].
Definition completion_token (secret : string) (c : ArchaeologySelectedReviewCommand) : string * string :=
  reviewToken secret (String.concat nul ["completion"; sr_Principal c; sr_BatchID c; sr_SelectionDigest c; sr_ManifestDigest c]).

Definition new_review (c : ArchaeologySelectedReviewCommand) (idsJSON session : string) (now : Z) : review_row :=
  {| rv_principal := sr_Principal c; rv_batch := sr_BatchID c; rv_selection := sr_SelectionDigest c; rv_manifest := sr_ManifestDigest c;
     rv_ids := idsJSON; rv_session := session; rv_completion := None; rv_page_size := 5; rv_page_count := sr_PageCount c; rv_next := 0;
     rv_completed := None; rv_consumed := None; rv_expires := stamp (now + 30 * 60 * 1000000000); rv_created := stamp now |}.

(** recording that a page was seen, in order *)
Definition view_page (c : ArchaeologySelectedReviewCommand) (id secret sessionToken : string) (now : Z)
    (out : ArchaeologySelectedReviewReceipt) : M SDB TxFail ArchaeologySelectedReviewReceipt :=
  mapped (exec (insert_page id (sr_Page c) {| pg_request := sr_RequestID c; pg_response := sha256_Sum256 sessionToken; pg_viewed := stamp now |})) ;;;
  plain (exec (update_reviews (fun i r => seqb i id && (rv_next r =? sr_Page c)) (fun r => with_next (rv_next r + 1) r))) ;;;
  if rr_NextPage out =? sr_PageCount c then
    let '(completion, digest) := completion_token secret c in
    n <-- plain (exec (update_reviews
      (fun _ r => seqb (rv_principal r) (sr_Principal c) && seqb (rv_batch r) (sr_BatchID c)
                  && seqb (rv_session r) (sha256_Sum256 (rr_SessionToken out)) && (rv_next r =? rv_page_count r)
                  && match rv_completion r with None => true | Some x => seqb x digest end)
      (with_completion digest (stamp now)))) ;;
    require (n =? 1) (FBody ErrConflict) ;;;
    ret {| rr_SessionToken := rr_SessionToken out; rr_CompletionToken := completion; rr_NextPage := rr_NextPage out; rr_ExpiresAt := rr_ExpiresAt out |}
  else ret out.

Definition advanceTx (c : ArchaeologySelectedReviewCommand) (ids : list string) (now : Z) : M SDB TxFail (TxOut ArchaeologySelectedReviewReceipt) :=
  let idsJSON := json_ids ids in
  sbody (readArchaeologyEligibleSelectedOutcomes sel_tx (sr_Principal c) (sr_BatchID c) ids) ;;;
  plain (exec (delete_expired (stamp now))) ;;;
  secret <-- plain (exec (query secret_of)) ;;
  let id := review_id c in
  let '(sessionToken, sessionDigest) := reviewToken secret (String.concat nul ["session"; id]) in
  (if (sr_Page c =? 0) && seqb (sr_SessionToken c) "" then mapped (exec (insert_review id (new_review c idsJSON sessionDigest now)))
   else require (seqb (sr_SessionToken c) sessionToken && (len (sr_SessionToken c) =? 43)) (FBody ErrInvalid)) ;;;
  found <-- attempt (exec (query (review_by_id id (sr_Principal c) (sr_BatchID c) sessionDigest))) ;;
  match found with
  | inl SqlNoRows => throw (FBody ErrNotFound)
  | inl e => throw (FBody (ErrSql e))
  | inr r =>
      let out := {| rr_SessionToken := sessionToken; rr_CompletionToken := ""; rr_NextPage := sr_Page c + 1; rr_ExpiresAt := parseStamp (rv_expires r) |} in
      require (seqb (rv_selection r) (sr_SelectionDigest c) && seqb (rv_manifest r) (sr_ManifestDigest c) && seqb (rv_ids r) idsJSON
               && (rv_page_count r =? sr_PageCount c) && (now <? rr_ExpiresAt out)) (FBody ErrConflict) ;;;
      page <-- attempt (exec (query (page_request id (sr_Page c)))) ;;
      match page with
      | inr storedRequest =>
          require (seqb storedRequest (sr_RequestID c)) (FBody ErrConflict) ;;;
          ret (TxCommit (if sr_Page c + 1 =? sr_PageCount c
                         then {| rr_SessionToken := sessionToken; rr_CompletionToken := (completion_token secret c).1; rr_NextPage := rr_NextPage out;
                                 rr_ExpiresAt := rr_ExpiresAt out |} else out))
      | inl SqlNoRows =>
          require (match rv_consumed r with None => true | Some _ => false end && (rv_next r =? sr_Page c)) (FBody ErrConflict) ;;;
          viewed <-- view_page c id secret sessionToken now out ;;
          ret (TxCommit viewed)
      | inl e => throw (FBody (ErrSql e))
      end
  end.

(** errors of [BeginTx] as they are, of [Commit] through [mapErr] *)
Definition selectedTx {A} (m : M SDB TxFail (TxOut A)) : M SDB Err A :=
  mapE (fun f => match f with FBegin e | FBody e | FReplay e => e | FCommit e => mapErr e end) (withTx m).

Definition valid_review (c : ArchaeologySelectedReviewCommand) : bool :=
  boundedCoreText (sr_Principal c) 200 true && boundedCoreText (sr_BatchID c) 120 true && boundedCoreText (sr_RequestID c) 200 true
  && historicalDigestPattern (sr_SelectionDigest c) && historicalDigestPattern (sr_ManifestDigest c)
  && (0 <=? sr_Page c) && (1 <=? sr_PageCount c) && (sr_PageCount c <=? 12) && (sr_Page c <? sr_PageCount c).

Definition AdvanceArchaeologySelectedReview (c : ArchaeologySelectedReviewCommand) : M SDB Err ArchaeologySelectedReviewReceipt :=
  require (valid_review c) ErrInvalid ;;;
  match canonicalSelectedOutcomeIDs (sr_OutcomeIDs c) with
  | inl e => throw e
  | inr ids => t <-- now ;; selectedTx (advanceTx c ids t)
  end.

Definition consumable (c : ArchaeologySelectedApplyCommand) (idsJSON digest now : string) (r : review_row) : bool :=
  seqb (rv_principal r) (sa_Principal c) && seqb (rv_batch r) (sa_BatchID c) && seqb (rv_selection r) (sa_SelectionDigest c)
  && seqb (rv_manifest r) (sa_ManifestDigest c) && seqb (rv_ids r) idsJSON && bool_decide (rv_completion r = Some digest)
  && bool_decide (is_Some (rv_completed r)) && bool_decide (rv_consumed r = None) && negb (expired now r).

Definition consumeSelectedReview (c : ArchaeologySelectedApplyCommand) (outcomeIDs : list string) (now : Z) : M SDB TxFail unit :=
  require (negb (seqb (sa_ReviewCompletionToken c) "")) (FBody ErrInvalid) ;;;
  n <-- plain (exec (update_reviews (fun _ => consumable c (json_ids outcomeIDs) (sha256_Sum256 (sa_ReviewCompletionToken c)) (stamp now))
                       (with_consumed (stamp now)))) ;;
  require (n =? 1) (FBody ErrConflict).

(** ** Replays *)

Definition readSelectedApplyReplay (q : selectedQuerier) (query : ArchaeologySelectedApplyReplayQuery) : M SDB Err (option ArchaeologySelectedApplyReceipt) :=
  match canonicalSelectedOutcomeIDs (sq_OutcomeIDs query) with
  | inl _ => throw ErrInvalid
  | inr ids =>
      require (boundedCoreText (sq_BatchID query) 120 true && boundedCoreText (sq_Principal query) 200 true
               && boundedCoreText (sq_RequestID query) 200 true) ErrInvalid ;;;
      found <-- attempt (q _ (simport_by_key (sq_Principal query) (sq_RequestID query))) ;;
      match found with
      | inl SqlNoRows => ret None
      | inl e => throw (ErrSql e)
      | inr (auditID, r) =>
          match json_read_ids (si_ids r), json_read_receipt (si_result r) with
          | Some storedIDs, Some receipt =>
              require (seqb (si_principal r) (sq_Principal query) && seqb (si_request r) (sq_RequestID query) && seqb (si_batch r) (sq_BatchID query)
                       && seqb (si_selection r) (sq_SelectionDigest query) && seqb (si_manifest r) (sq_ManifestDigest query)
                       && bool_decide (storedIDs = ids) && negb (seqb (ax_AuditID receipt) "") && seqb (ax_AuditID receipt) auditID
                       && seqb (ax_BatchID receipt) (si_batch r) && seqb (ax_SelectionDigest receipt) (si_selection r)
                       && seqb (ax_ManifestDigest receipt) (si_manifest r) && bool_decide (ax_OutcomeIDs receipt = storedIDs)
                       && (size (ax_Imports receipt) =? size storedIDs)) ErrConflict ;;;
              ret (Some receipt)
          | _, _ => throw ErrConflict
          end
      end
  end.

(** every failure through [mapErr] *)
Definition replayTx {A} (m : M SDB TxFail (TxOut A)) : M SDB Err A :=
  mapE (fun f => match f with FBegin e | FBody e | FReplay e | FCommit e => mapErr e end) (withTx m).

Definition ReplayArchaeologySelectedImports (query : ArchaeologySelectedApplyReplayQuery) : M SDB Err (option ArchaeologySelectedApplyReceipt) :=
  replayTx (
    receipt <-- sbody (readSelectedApplyReplay sel_tx query) ;;
    match receipt with
    | None => ret (TxCommit None)
    | Some r =>
        sbody (readArchaeologyEligibleSelectedOutcomes sel_tx (sq_Principal query) (sq_BatchID query) (sq_OutcomeIDs query)) ;;;
        ret (TxCommit (Some r))
    end).

Definition recoverSelectedApplyReceipt (query : ArchaeologySelectedApplyReplayQuery) (original : Err) : M SDB Err ArchaeologySelectedApplyReceipt :=
  out <-- attempt (readSelectedApplyReplay sel_db query) ;;
  match out with
  | inr (Some receipt) => ret receipt
  | inl ErrConflict => throw ErrConflict
  | _ => throw original
  end.

(** ** Simulation *)

(** one import: the project's revision before, the command as confirmed and
    the receipt of its application *)
Definition simulate_import (requestID : string) (index : nat) (item : HistoricalImportCommand)
    : M XDB TxFail (Z * HistoricalImportCommand * HistoricalImportReceipt) :=
  t <-- now ;;
  n <-- body (lift_sum (normalizeHistoricalImport item t)) ;;
  let '(normalized, manifest, counts) := n in
  preview <-- body (previewHistoricalImport on_tx normalized manifest counts) ;;
  let prepared := with_confirmation manifest
    (deterministicHistoricalID "ASR-" [requestID; pretty index; hc_ProjectID item; hc_BatchID item]) item in
  receipt <-- applyHistoricalImportTx prepared ;;
  ret (r_ProjectRevision preview, prepared, receipt).
Fixpoint simulate_imports (requestID : string) (index : nat) (items : list HistoricalImportCommand)
    : M XDB TxFail (list (Z * HistoricalImportCommand * HistoricalImportReceipt)) :=
  match items with
  | [] => ret []
  | item :: rest =>
      one <-- simulate_import requestID index item ;;
      more <-- simulate_imports requestID (S index) rest ;;
      ret (one :: more)
  end.

Definition simulateSelectedImports (batchID selection requestID : string) (imports : list HistoricalImportCommand)
    : M SDB TxFail ArchaeologySelectedPreviewReceipt :=
  savepoint (
    done <-- on_s (simulate_imports requestID 0 imports) ;;
    ret {| pr_BatchID := batchID; pr_SelectionDigest := selection;
           pr_ManifestDigest := selectedManifestDigest batchID selection done.*1.*1 done.*2; pr_OutcomeIDs := [];
           pr_Imports := done.*2; pr_PreparedImports := done.*1.*2 |}).

(** the import of each outcome is one for its project and batch *)
Fixpoint preview_matches (selected : list ArchaeologyOutcome) (ids : list string) (imports : list HistoricalImportCommand) : option Err :=
  match ids, imports with
  | id :: ids', item :: imports' =>
      let proposal := by_outcome ao_ProposalJSON selected id in
      if seqb proposal "" then Some ErrNotFound
      else match json_wire proposal with
      | Some batchID =>
          if seqb (hc_ProjectID item) (by_outcome ao_ProjectID selected id) && seqb (hc_BatchID item) batchID
          then preview_matches selected ids' imports' else Some ErrConflict
      | None => Some ErrConflict
      end
  | _, _ => None
  end.

Definition PreviewArchaeologySelectedImports (c : ArchaeologySelectedPreviewCommand) : M SDB Err ArchaeologySelectedPreviewReceipt :=
  match canonicalSelectedOutcomeIDs (sp_OutcomeIDs c) with
  | inl _ => throw ErrInvalid
  | inr ids =>
      require (boundedCoreText (sp_BatchID c) 120 true && boundedCoreText (sp_Principal c) 200 true && boundedCoreText (sp_RequestID c) 200 true
               && (size ids =? size (sp_Imports c))) ErrInvalid ;;;
      require (validateSelectedImportSources (sp_Imports c)) ErrConflict ;;;
      selectedTx (
        selected <-- sbody (readArchaeologyEligibleSelectedOutcomes sel_tx (sp_Principal c) (sp_BatchID c) ids) ;;
        match preview_matches selected ids (sp_Imports c) with
        | Some e => throw (FBody e)
        | None =>
            let selection := selectionDigest (sp_BatchID c) ids (by_outcome ao_ProposalJSON selected) in
            out <-- simulateSelectedImports (sp_BatchID c) selection (sp_RequestID c) (sp_Imports c) ;;
            ret (TxRollback {| pr_BatchID := pr_BatchID out; pr_SelectionDigest := pr_SelectionDigest out; pr_ManifestDigest := pr_ManifestDigest out;
                               pr_OutcomeIDs := ids; pr_Imports := pr_Imports out; pr_PreparedImports := pr_PreparedImports out |})
        end)
  end.

(** ** Application *)

Fixpoint order_imports (selected : list ArchaeologyOutcome) (seen ids : list string) (imports : list HistoricalImportCommand)
    : Err + list HistoricalImportCommand :=
  match ids, imports with
  | id :: ids', item :: imports' =>
      match json_wire (by_outcome ao_ProposalJSON selected id) with
      | None => inl ErrInvalid
      | Some batchID =>
          let key := String.concat nul [hc_ProjectID item; hc_BatchID item] in
          if isin key seen then inl ErrConflict
          else if negb (seqb (hc_ProjectID item) (by_outcome ao_ProjectID selected id) && seqb (hc_BatchID item) batchID) then inl ErrConflict
          else match order_imports selected (key :: seen) ids' imports' with inl e => inl e | inr ordered => inr (item :: ordered) end
      end
  | _, _ => inr []
  end.

Fixpoint apply_imports (items : list HistoricalImportCommand) : M XDB TxFail (list HistoricalImportReceipt) :=
  match items with
  | [] => ret []
  | item :: rest => one <-- applyHistoricalImportTx item ;; more <-- apply_imports rest ;; ret (one :: more)
  end.

Definition same_receipts (left right : list HistoricalImportReceipt) : bool :=
  Nat.eqb (length left) (length right) && forallb (fun p => seqb (json_stable (stable_of p.1)) (json_stable (stable_of p.2))) (zip left right).

(** after the selection was found unchanged *)
Definition apply_selection (c : ArchaeologySelectedApplyCommand) (ids : list string) (selection : string) (ordered : list HistoricalImportCommand)
    : M SDB TxFail (TxOut ArchaeologySelectedApplyReceipt) :=
  simulation <-- simulateSelectedImports (sa_BatchID c) selection (sa_RequestID c) ordered ;;
  let manifest := pr_ManifestDigest simulation in
  require (seqb manifest (sa_ManifestDigest c)) (FBody ErrConflict) ;;;
  reviewNow <-- now ;;
  consumeSelectedReview c ids reviewNow ;;;
  imports <-- on_s (apply_imports (pr_PreparedImports simulation)) ;;
  require (same_receipts imports (pr_Imports simulation)) (FBody ErrConflict) ;;;
  let receipt := {| ax_AuditID := deterministicHistoricalID "ASI-" [sa_BatchID c; selection]; ax_BatchID := sa_BatchID c;
                    ax_SelectionDigest := selection; ax_ManifestDigest := manifest; ax_OutcomeIDs := ids; ax_Imports := imports |} in
  viaReplay (exec (insert_simport (ax_AuditID receipt)
    {| si_batch := sa_BatchID c; si_principal := sa_Principal c; si_request := sa_RequestID c; si_selection := selection; si_manifest := manifest;
       si_ids := json_ids ids; si_result := json_receipt receipt; si_created := stamp reviewNow |})) ;;;
  ret (TxCommit receipt).

Definition replay_query (c : ArchaeologySelectedApplyCommand) (ids : list string) : ArchaeologySelectedApplyReplayQuery :=
  {| sq_BatchID := sa_BatchID c; sq_Principal := sa_Principal c; sq_RequestID := sa_RequestID c; sq_SelectionDigest := sa_SelectionDigest c;
     sq_ManifestDigest := sa_ManifestDigest c; sq_OutcomeIDs := ids |}.

Definition applyTx (c : ArchaeologySelectedApplyCommand) (ids : list string) : M SDB TxFail (TxOut ArchaeologySelectedApplyReceipt) :=
  mapped (exec nop) ;;;
  prior <-- sbody (readSelectedApplyReplay sel_tx (replay_query c ids)) ;;
  selected <-- sbody (readArchaeologyEligibleSelectedOutcomes sel_tx (sa_Principal c) (sa_BatchID c) ids) ;;
  match prior with
  | Some receipt => ret (TxRollback receipt)
  | None =>
      let proposals := by_outcome ao_ProposalJSON selected in
      require (forallb (fun id => negb (seqb (proposals id) "")) ids) (FBody ErrNotFound) ;;;
      let selection := selectionDigest (sa_BatchID c) ids proposals in
      require (seqb selection (sa_SelectionDigest c)) (FBody ErrConflict) ;;;
      match order_imports selected [] ids (sa_Imports c) with
      | inl e => throw (FBody e)
      | inr ordered => apply_selection c ids selection ordered
      end
  end.

Definition ApplyArchaeologySelectedImports (c : ArchaeologySelectedApplyCommand) : M SDB Err ArchaeologySelectedApplyReceipt :=
  require (boundedCoreText (sa_BatchID c) 120 true && boundedCoreText (sa_Principal c) 200 true && boundedCoreText (sa_RequestID c) 200 true
           && (1 <=? size (sa_OutcomeIDs c)) && (size (sa_OutcomeIDs c) <=? ArchaeologyNativeMaxProjects * 2)
           && (size (sa_Imports c) =? size (sa_OutcomeIDs c))) ErrInvalid ;;;
  match canonicalSelectedOutcomeIDs (sa_OutcomeIDs c) with
  | inl e => throw e
  | inr ids =>
      require (validateSelectedImportSources (sa_Imports c)) ErrConflict ;;;
      out <-- attempt (withTx (applyTx c ids)) ;;
      match out with
      | inr receipt => ret receipt
      | inl (FBegin e) => throw (mapErr e)
      | inl (FBody e) => throw e
      | inl (FReplay e | FCommit e) => recoverSelectedApplyReceipt (replay_query c ids) (mapErr e)
      end
  end.
End Selected.
