(* ===== verification/SelectedSpec.v ===== *)
(** * What a review can be relied on for

    Theorems about [SelectedReview]: pages are seen one after the other and a
    review is complete only when all were; an application that imports
    anything consumes such a review, once; a repeated request gets the
    recorded receipt; and, seen from Project Core, every operation is a
    sequence of committed core steps. *)

From Stdlib Require Import ZArith Lia Ascii.
From stdpp Require Import base gmap strings list sets sorting pretty relations.
From S2P Require Import Prelude GoText Stamp Framing CoreDB ProjectCore Claims CoreSpec CoreRefine CoreSafety CoreOutcome OpsFs ArchDB ArchPolicy ArchSafety HistoricalImport ImportSpec ImportOutcome SelectedReview.

Local Open Scope Z_scope.
Local Open Scope prog_scope.

(** ** Statements *)

Lemma scheck_inv {A} ok (a : A) d b d' : scheck ok a d = inr (b, d') -> ok = true /\ b = a /\ d' = d.
Proof. unfold scheck. destruct ok; naive_solver. Qed.

(** Pages are numbered from 0, in the order in which they were seen; a review
    with a token had them all. *)
Record review_inv (d : SDB) : Prop := {
  ri_pages : forall id r p, s_reviews d !! id = Some r -> is_Some (s_pages d !! (id, p)) <-> 0 <= p < rv_next r;
  ri_owned : forall id p, is_Some (s_pages d !! (id, p)) -> is_Some (s_reviews d !! id);
  ri_completed : forall id r, s_reviews d !! id = Some r -> is_Some (rv_completed r) -> rv_next r = rv_page_count r;
  ri_token : forall id r, s_reviews d !! id = Some r -> is_Some (rv_completion r) <-> is_Some (rv_completed r);
  ri_consumed : forall id r, s_reviews d !! id = Some r -> is_Some (rv_consumed r) -> is_Some (rv_completed r) }.

Definition keeps_reviews (d d' : SDB) : Prop := review_inv d -> review_inv d'.
#[export] Instance keeps_reviews_preorder : PreOrder keeps_reviews.
Proof. split; [intros d H; exact H|]. intros d1 d2 d3 H1 H2 H. by apply H2, H1. Qed.

Lemma review_frame d d' : s_reviews d' = s_reviews d -> s_pages d' = s_pages d -> keeps_reviews d d'.
Proof. intros Hr Hp []. by split; rewrite ?Hr, ?Hp. Qed.

Lemma keeps_delete now d u d' : delete_expired now d = inr (u, d') -> keeps_reviews d d'.
Proof.
  intros [= _ <-] [Hp Ho Hc Ht Hn]. set (kept := filter (fun e : string * review_row => expired now e.2 = false) (s_reviews d)).
  assert (forall id r, kept !! id = Some r -> s_reviews d !! id = Some r) as Hk by (intros id r Hr; by apply map_lookup_filter_Some in Hr as [? _]).
  split; simpl; [| |intros; eauto..].
  - intros id r p Hr. rewrite <-(Hp id r p (Hk _ _ Hr)). split; intros [x Hx].
    + apply map_lookup_filter_Some in Hx as [Hx _]. eauto.
    + exists x. apply map_lookup_filter_Some. split; [done|]. simpl. eauto.
  - intros id p [x Hx]. by apply map_lookup_filter_Some in Hx as [_ ?].
Qed.

Lemma keeps_insert_review id r d u d' :
  rv_next r = 0 -> rv_completion r = None -> rv_completed r = None -> rv_consumed r = None ->
  insert_review id r d = inr (u, d') -> keeps_reviews d d'.
Proof.
  intros Hnext Hcn Hcd Hcs Hst. unfold insert_review in Hst. destruct (_ && _) eqn:Hok; [|simplify_eq; reflexivity].
  apply scheck_inv in Hst as (_ & _ & ->). rewrite !andb_true_iff, absent_true in Hok. destruct Hok as [[[[Hid _] _] _] _].
  intros [Hp Ho Hc Ht Hn]. split; simpl.
  - intros i x p [[<- <-]|[Hne Hx]]%lookup_insert_Some; [|by apply Hp].
    split; [|lia]. intros Hpg. destruct (Ho _ _ Hpg). congruence.
  - intros i p Hpg. apply lookup_insert_is_Some'. right. by eapply Ho.
  - intros i x [[<- <-]|[Hne Hx]]%lookup_insert_Some; [rewrite Hcd; by intros []|by eauto].
  - intros i x [[<- <-]|[Hne Hx]]%lookup_insert_Some; [by rewrite Hcd, Hcn|by eauto].
  - intros i x [[<- <-]|[Hne Hx]]%lookup_insert_Some; [rewrite Hcs; by intros []|by eauto].
Qed.

Lemma update_reviews_inv cond f d n d' :
  update_reviews cond f d = inr (n, d') ->
  n = Z.of_nat (length (List.filter (fun e => cond e.1 e.2) (map_to_list (s_reviews d)))) /\
  s_pages d' = s_pages d /\ s_x d' = s_x d /\ s_imports d' = s_imports d /\ s_secret d' = s_secret d /\
  (forall id, s_reviews d' !! id = (fun r => if cond id r then f r else r) <$> s_reviews d !! id) /\
  map_Forall (fun _ r => review_ok r = true) (s_reviews d').
Proof.
  unfold update_reviews. intros (Hok & -> & ->)%scheck_inv. rewrite andb_true_iff, bool_decide_eq_true in Hok. destruct Hok as [Hok _].
  split_and!; try done. intros id. simpl. rewrite map_lookup_imap. by destruct (s_reviews d !! id).
Qed.

(** Rows that change no page count and set no token. *)
Lemma keeps_view id r p pg c d u d1 n d2 :
  s_reviews d !! id = Some r -> rv_next r = p -> insert_page id p pg d = inr (u, d1) ->
  update_reviews (fun i r => seqb i id && (rv_next r =? c)) (fun r => with_next (rv_next r + 1) r) d1 = inr (n, d2) -> c = p ->
  keeps_reviews d d2.
Proof.
  intros Hr Hn Hi Hu -> [Hp Ho Hc Ht Hcs]. apply scheck_inv in Hi as (Hi & _ & ->).
  assert (0 <= p) as Hp0 by (rewrite !andb_true_iff in Hi; lia). apply update_reviews_inv in Hu as (_ & Epg & _ & _ & _ & Hl & Hok). simpl in *.
  assert (forall i x, s_reviews d2 !! i = Some x ->
    i = id /\ x = with_next (p + 1) r /\ p + 1 <= rv_page_count r \/ i <> id /\ s_reviews d !! i = Some x) as Hcase.
  { intros i x Hx. pose proof (Hok _ _ Hx) as Hx'. rewrite Hl in Hx. destruct (decide (i = id)) as [->|Hne]; [left|right].
    - rewrite Hr in Hx. simpl in Hx. rewrite seqb_refl, Hn, Z.eqb_refl in Hx. injection Hx as <-.
      split_and!; [done|done|]. unfold review_ok in Hx'. simpl in Hx'. lia.
    - split; [done|]. destruct (s_reviews d !! i) as [y|]; [|done]. simpl in Hx.
      replace (seqb i id) with false in Hx by (symmetry; by apply seqb_false). done. }
  split; rewrite ?Epg.
  - intros i x q [(-> & -> & Hle)|[Hne Hx]]%Hcase; simpl.
    + rewrite lookup_insert_is_Some'. rewrite (Hp _ _ q Hr), Hn. split; [intros [[=]|?]; lia|]. intros ?.
      destruct (decide (q = p)) as [->|]; [by left|right; lia].
    + rewrite lookup_insert_ne by congruence. by apply Hp.
  - intros i q [[= -> ->]|[y Hy]]%lookup_insert_is_Some'.
    + rewrite Hl, Hr. eauto.
    + destruct (Ho i q) as [x Hx]; [eauto|]. rewrite Hl, Hx. eauto.
  - intros i x [(-> & -> & Hle)|[Hne Hx]]%Hcase; [|by eauto]. simpl. intros Hd%(Hc _ _ Hr). lia.
  - intros i x [(-> & -> & Hle)|[Hne Hx]]%Hcase; [|by eauto]. simpl. by eapply Ht.
  - intros i x [(-> & -> & Hle)|[Hne Hx]]%Hcase; [|by eauto]. simpl. by eapply Hcs.
Qed.

(** Updates that touch only tokens and marks. *)
Lemma keeps_mark cond f d n d' :
  update_reviews cond f d = inr (n, d') ->
  (forall r, rv_next (f r) = rv_next r /\ rv_page_count (f r) = rv_page_count r) ->
  (forall i r, cond i r = true -> is_Some (rv_completed (f r)) -> is_Some (rv_completed r) \/ rv_next r = rv_page_count r) ->
  (forall i r, cond i r = true -> (is_Some (rv_completion r) <-> is_Some (rv_completed r)) -> is_Some (rv_completion (f r)) <-> is_Some (rv_completed (f r))) ->
  (forall i r, cond i r = true -> is_Some (rv_consumed (f r)) -> is_Some (rv_consumed r) \/ is_Some (rv_completed r)) ->
  (forall r, is_Some (rv_completed r) -> is_Some (rv_completed (f r))) ->
  keeps_reviews d d'.
Proof.
  intros (_ & Epg & _ & _ & _ & Hl & _)%update_reviews_inv Hsame Hcd Htk Hcons Hmono [Hp Ho Hc Ht Hcs].
  assert (forall i x, s_reviews d' !! i = Some x -> exists r, s_reviews d !! i = Some r /\ (x = r \/ cond i r = true /\ x = f r)) as Hcase.
  { intros i x. rewrite Hl. destruct (s_reviews d !! i) as [r|]; simpl; [|done]. intros [= <-]. exists r. split; [done|].
    destruct (cond i r); auto. }
  split; rewrite ?Epg.
  - intros i x p (r & Hr & [->|[_ ->]])%Hcase; [by apply Hp|]. destruct (Hsame r) as [-> _]. by apply Hp.
  - intros i p [r Hr]%Ho. rewrite Hl, Hr. eauto.
  - intros i x (r & Hr & [->|[Hcnd ->]])%Hcase; [by eauto|]. intros [?|?]%(Hcd _ _ Hcnd); destruct (Hsame r) as [-> ->]; eauto.
  - intros i x (r & Hr & [->|[Hcnd ->]])%Hcase; [by eauto|]. by eapply Htk, Ht.
  - intros i x (r & Hr & [->|[Hcnd ->]])%Hcase; [by eauto|]. intros [?|?]%(Hcons _ _ Hcnd); eauto.
Qed.

(** ** Parts of the transactions *)

Lemma savepoint_inv {A} (m : M SDB TxFail A) env w a w1 :
  savepoint m env w = (inr a, w1) -> w_db w1 = w_db w /\ exists w2 w3, w_db w2 = w_db w /\ m env w2 = (inr a, w3).
Proof.
  unfold savepoint. intros Hrun. apply bind_inr_inv in Hrun as (u & w2 & H2 & Hrun). apply mapE_inr_inv, exec_inr_inv in H2 as [[= _ E2] _].
  apply bind_inr_inv in Hrun as (d & w3 & H3 & Hrun). injection H3 as <- <-.
  apply bind_inr_inv in Hrun as (out & w4 & H4 & Hrun). apply attempt_inv in H4. destruct out as [e|b].
  - apply bind_inr_inv in Hrun as (? & w5 & _ & Hrun). apply bind_inr_inv in Hrun as (? & w6 & _ & Hrun). discriminate Hrun.
  - m_inv. unfold nop in *. simplify_eq. split; [congruence|]. eexists w2, _. split; [congruence|done].
Qed.

Lemma on_s_inv {E A} (m : M XDB E A) env w a w1 :
  on_s m env w = (inr a, w1) ->
  exists env1 w2, m env1 (mkWorld (s_x (w_db w)) (w_tick w)) = (inr a, w2) /\ w_db w1 = put_x (w_db w2) (w_db w).
Proof. apply zoom_inr_inv. Qed.

Section Programs.
Context `{Sha256} `{ImportJSON} `{CaseTables} `{SelectedJSON}.

Lemma eligible_inv principal batchID ids env w sel w1 :
  sbody (readArchaeologyEligibleSelectedOutcomes sel_tx principal batchID ids) env w = (inr sel, w1) ->
  w_db w1 = w_db w /\ exists canonical e, canonicalSelectedOutcomeIDs ids = inr canonical /\ batch_eligibility principal batchID (w_db w) = inr e /\
    el_Eligible e = true /\ eligible_outcomes principal batchID canonical (w_db w) = inr sel /\ size sel = size canonical.
Proof.
  unfold sbody, readArchaeologyEligibleSelectedOutcomes, readArchaeologyBatchEligibility, map_sql, raw_sql, sel_tx. intros Hrun. m_inv.
  destruct (canonicalSelectedOutcomeIDs ids) as [e|canonical]; m_inv. split; [congruence|]. eexists _, _. split_and!; [done|done|done|congruence|lia].
Qed.

Lemma canonical_self ids canonical : canonicalSelectedOutcomeIDs ids = inr canonical -> canonical = ids /\ canonicalSelectedOutcomeIDs canonical = inr canonical.
Proof.
  intros Hc. assert (canonical = ids) as ->; [|by split]. unfold canonicalSelectedOutcomeIDs in Hc. cbv zeta in Hc.
  destruct (_ || _); [done|]. destruct (_ && _) eqn:Hok; [|done]. injection Hc as <-. rewrite !andb_true_iff, bool_decide_eq_true in Hok.
  symmetry. apply Hok.
Qed.

(** The steps of an application that writes. *)
Lemma apply_selection_inv c ids selection ordered env w o w1 :
  apply_selection c ids selection ordered env w = (inr o, w1) ->
  exists sim w2 w3 d1 t env1 k xs xw, w_db w2 = w_db w /\ simulateSelectedImports (sa_BatchID c) selection (sa_RequestID c) ordered env w2 = (inr sim, w3) /\
    pr_ManifestDigest sim = sa_ManifestDigest c /\ sa_ReviewCompletionToken c <> ""%string /\
    update_reviews (fun _ => consumable c (json_ids ids) (sha256_Sum256 (sa_ReviewCompletionToken c)) (stamp t)) (with_consumed (stamp t)) (w_db w) = inr (1, d1) /\
    apply_imports (pr_PreparedImports sim) env1 (mkWorld (s_x (w_db w)) k) = (inr xs, xw) /\ same_receipts xs (pr_Imports sim) = true /\
    let receipt := {| ax_AuditID := deterministicHistoricalID "ASI-" [sa_BatchID c; selection]; ax_BatchID := sa_BatchID c;
                      ax_SelectionDigest := selection; ax_ManifestDigest := sa_ManifestDigest c; ax_OutcomeIDs := ids; ax_Imports := xs |} in
    insert_simport (ax_AuditID receipt)
      {| si_batch := sa_BatchID c; si_principal := sa_Principal c; si_request := sa_RequestID c; si_selection := selection;
         si_manifest := sa_ManifestDigest c; si_ids := json_ids ids; si_result := json_receipt receipt; si_created := stamp t |}
      (put_x (w_db xw) d1) = inr (tt, w_db w1) /\ o = TxCommit receipt.
Proof.
  unfold apply_selection. intros Hrun. apply bind_inr_inv in Hrun as (sim & w2 & Hsim & Hrun). cbv zeta in Hrun.
  apply bind_inr_inv in Hrun as (? & w3 & Hg & Hrun). apply require_inr_inv in Hg as [Hm%seqb_true <-].
  apply bind_inr_inv in Hrun as (t & w4 & Ht & Hrun). apply now_inr_inv in Ht as (_ & E4 & _).
  apply bind_inr_inv in Hrun as (? & w5 & Hc & Hrun). unfold consumeSelectedReview in Hc. m_inv.
  match goal with Hx : update_reviews _ _ _ = _ |- _ => rename Hx into Hup end.
  match goal with Hx : on_s _ _ _ = _ |- _ => apply on_s_inv in Hx as (env1 & xw & Happ & Ew) end.
  pose proof Hsim as Hsim'. unfold simulateSelectedImports in Hsim'. apply savepoint_inv in Hsim' as [E2 _].
  repeat match goal with Hx : (_ =? 1) = true |- _ => apply Z.eqb_eq in Hx; subst end.
  match goal with Hx : negb (seqb _ _) = true |- _ => apply negb_true_iff, seqb_false in Hx; rename Hx into Hne end.
  rewrite Hm in *. rewrite E4, E2 in Hup.
  destruct (update_reviews_inv _ _ _ _ _ Hup) as (_ & _ & Ex & _). rewrite Ew in *. rewrite Ex in Happ.
  eexists sim, w, w2, _, t, env1, _, _, xw. split_and!; try done. by repeat match goal with u : unit |- _ => destruct u end.
Qed.

(** ** What the import ledger answers *)

Definition stored_answer (query : ArchaeologySelectedApplyReplayQuery) (ids : list string) (auditID : string) (r : simport_row)
    : Err + option ArchaeologySelectedApplyReceipt :=
  match json_read_ids (si_ids r), json_read_receipt (si_result r) with
  | Some storedIDs, Some receipt =>
      if seqb (si_principal r) (sq_Principal query) && seqb (si_request r) (sq_RequestID query) && seqb (si_batch r) (sq_BatchID query)
         && seqb (si_selection r) (sq_SelectionDigest query) && seqb (si_manifest r) (sq_ManifestDigest query)
         && bool_decide (storedIDs = ids) && negb (seqb (ax_AuditID receipt) "") && seqb (ax_AuditID receipt) auditID
         && seqb (ax_BatchID receipt) (si_batch r) && seqb (ax_SelectionDigest receipt) (si_selection r)
         && seqb (ax_ManifestDigest receipt) (si_manifest r) && bool_decide (ax_OutcomeIDs receipt = storedIDs)
         && (size (ax_Imports receipt) =? size storedIDs)
      then inr (Some receipt) else inl ErrConflict
  | _, _ => inl ErrConflict
  end.
Definition replay_answer (query : ArchaeologySelectedApplyReplayQuery) (d : SDB) : Err + option ArchaeologySelectedApplyReceipt :=
  match canonicalSelectedOutcomeIDs (sq_OutcomeIDs query) with
  | inl _ => inl ErrInvalid
  | inr ids =>
      if boundedCoreText (sq_BatchID query) 120 true && boundedCoreText (sq_Principal query) 200 true && boundedCoreText (sq_RequestID query) 200 true
      then match simport_by_key (sq_Principal query) (sq_RequestID query) d with
           | inr (auditID, r) => stored_answer query ids auditID r
           | inl SqlNoRows => inr None
           | inl e => inl (ErrSql e)
           end
      else inl ErrInvalid
  end.

Lemma replay_reads q env query w res w1 :
  faithful q env -> readSelectedApplyReplay q query env w = (res, w1) ->
  w_db w1 = w_db w /\ (res = replay_answer query (w_db w) \/ exists x, res = inl (ErrSql (SqlFault x))).
Proof.
  intros Hq Hrun. unfold readSelectedApplyReplay in Hrun. unfold replay_answer.
  destruct (canonicalSelectedOutcomeIDs (sq_OutcomeIDs query)) as [e|ids]; [injection Hrun as <- <-; by split; [|left]|].
  destruct (_ && _ && _); [|injection Hrun as <- <-; by split; [|left]]. unfold bind at 1, require, ret in Hrun.
  unfold bind, attempt in Hrun. destruct (q _ _ env w) as [found w2] eqn:Hf. destruct (Hq _ _ _ _ _ Hf) as [E2 Hc].
  destruct Hc as [->|[x ->]]; [|injection Hrun as <- <-; split; [done|right; eauto]].
  destruct (simport_by_key _ _ _) as [e|[auditID r]]; [destruct e; injection Hrun as <- <-; by split; [|left]|].
  unfold stored_answer. destruct (json_read_ids _) as [sids|]; [|injection Hrun as <- <-; by split; [|left]].
  destruct (json_read_receipt _) as [receipt|]; [|injection Hrun as <- <-; by split; [|left]].
  destruct (_ && _); injection Hrun as <- <-; by split; [|left].
Qed.

Lemma replay_reads_tx env query w o w1 :
  sbody (readSelectedApplyReplay sel_tx query) env w = (inr o, w1) -> replay_answer query (w_db w) = inr o /\ w_db w1 = w_db w.
Proof.
  unfold sbody. intros Hrun%mapE_inr_inv. destruct (replay_reads _ _ _ _ _ _ (faithful_exec env) Hrun) as [Hw [Hr|[x Hr]]]; [|done]. by split.
Qed.

(** What a committed or rolled back application went through. *)
Lemma applyTx_inv c ids env w o w1 :
  applyTx c ids env w = (inr o, w1) ->
  exists sel, eligible_outcomes (sa_Principal c) (sa_BatchID c) ids (w_db w) = inr sel /\ size sel = size ids /\
    canonicalSelectedOutcomeIDs ids = inr ids /\
    (exists e, batch_eligibility (sa_Principal c) (sa_BatchID c) (w_db w) = inr e /\ el_Eligible e = true) /\
    ((exists r, o = TxRollback r /\ replay_answer (replay_query c ids) (w_db w) = inr (Some r)) \/
     replay_answer (replay_query c ids) (w_db w) = inr None /\
     selectionDigest (sa_BatchID c) ids (by_outcome ao_ProposalJSON sel) = sa_SelectionDigest c /\
     exists w2 ordered, w_db w2 = w_db w /\ order_imports sel [] ids (sa_Imports c) = inr ordered /\
       apply_selection c ids (sa_SelectionDigest c) ordered env w2 = (inr o, w1)).
Proof.
  unfold applyTx. intros Hrun. apply bind_inr_inv in Hrun as (? & wa & Ha & Hrun). apply mapE_inr_inv, exec_inr_inv in Ha as [[= _ Ea] _].
  apply bind_inr_inv in Hrun as (prior & wb & Hb & Hrun). apply replay_reads_tx in Hb as [Hp Eb].
  apply bind_inr_inv in Hrun as (sel & wc & Hc & Hrun). apply eligible_inv in Hc as (Ec & canonical & e & Hcan & He & Hel & Hsel & Hsz).
  destruct (canonical_self _ _ Hcan) as [-> _]. assert (w_db wb = w_db w) as Ew by congruence. rewrite Ew in *. rewrite <-Ea in Hp. exists sel. split_and!; try done; [by eauto|].
  destruct prior as [r|]; m_inv.
  - left. by exists r.
  - right. match goal with Hx : seqb _ _ = true |- _ => apply seqb_true in Hx; rename Hx into Hd end. split; [done|]. split; [done|].
    destruct (order_imports _ _ _ _) as [err|ordered] eqn:Ho; [by m_inv|]. rewrite Hd in Hrun. eexists _, _. split; [|split; [done|exact Hrun]].
    congruence.
Qed.
End Programs.

(** ** Any sequence of calls *)

(** What the operations keep: the reviews, Project Core and the imports. *)
Definition selected_step (d d' : SDB) : Prop :=
  keeps_reviews d d' /\ core_steps (s_x d) (s_x d') /\ s_imports d ⊆ s_imports d'.
#[export] Instance selected_step_preorder : PreOrder selected_step.
Proof.
  split; [by intros d; split_and!|]. intros d1 d2 d3 (R1 & C1 & I1) (R2 & C2 & I2). split_and!; [by etrans..].
Qed.

Inductive SelectedOp :=
  | OpAdvanceReview (c : ArchaeologySelectedReviewCommand)
  | OpPreviewSelected (c : ArchaeologySelectedPreviewCommand)
  | OpApplySelected (c : ArchaeologySelectedApplyCommand)
  | OpReplaySelected (q : ArchaeologySelectedApplyReplayQuery)
  | OpBatchEligibility (principal batchID : string).

Section Guarantees.
Context `{Sha256} `{ImportJSON} `{CaseTables} `{SelectedJSON}.

Lemma view_page_keeps c id secret token t out row env w r w1 :
  s_reviews (w_db w) !! id = Some row -> rv_next row = sr_Page c ->
  view_page c id secret token t out env w = (inr r, w1) -> selected_step (w_db w) (w_db w1).
Proof.
  intros Hrow Hnext Hrun. unfold view_page in Hrun. apply bind_inr_inv in Hrun as (u & w2 & V2 & Hrun). apply mapE_inr_inv, exec_inr_inv in V2 as [V2 _].
  apply bind_inr_inv in Hrun as (n & w3 & V3 & Hrun). apply mapE_inr_inv, exec_inr_inv in V3 as [V3 _].
  assert (selected_step (w_db w) (w_db w3)) as Hview.
  { split; [by eapply keeps_view|]. apply scheck_inv in V2 as (_ & _ & E2).
    apply update_reviews_inv in V3 as (_ & _ & Ex & Ei & _). rewrite Ex, Ei, E2. done. }
  etrans; [exact Hview|]. case_match; [|m_inv; reflexivity]. destruct (completion_token secret c) as [completion digest]. m_inv.
  match goal with Hx : update_reviews _ _ _ = _ |- _ => rename Hx into Hup end. split.
  - eapply keeps_mark; [exact Hup|done|..]; simpl.
    + intros i x Hc _. rewrite !andb_true_iff in Hc. right. lia.
    + intros; split; eauto.
    + intros i x _ ?. by left.
    + intros. eauto.
  - apply update_reviews_inv in Hup as (_ & _ & -> & -> & _). done.
Qed.

Lemma advance_keeps c ids t env w r w1 : advanceTx c ids t env w = (inr (TxCommit r), w1) -> selected_step (w_db w) (w_db w1).
Proof.
  unfold advanceTx. cbv zeta. intros Hrun. apply bind_inr_inv in Hrun as (sel & wa & Ha & Hrun). apply eligible_inv in Ha as [Ea _].
  apply bind_inr_inv in Hrun as (u & wb & Hb & Hrun). apply mapE_inr_inv, exec_inr_inv in Hb as [Hb _].
  apply bind_inr_inv in Hrun as (secret & wc & Hc & Hrun). apply mapE_inr_inv, exec_inr_inv in Hc as [[_ Ec]%query_inr_inv _].
  destruct (reviewToken secret _) as [token digest]. apply bind_inr_inv in Hrun as (u2 & wd & Hd & Hrun).
  assert (selected_step (w_db w) (w_db wb)) as S1.
  { split; [rewrite <-Ea; by eapply keeps_delete|]. injection Hb as _ <-. simpl. rewrite Ea. done. }
  assert (selected_step (w_db wb) (w_db wd)) as S2.
  { rewrite <-Ec. destruct (_ && _); [|m_inv; by rewrite Ec]. apply mapE_inr_inv, exec_inr_inv in Hd as [Hd _]. split; [eapply keeps_insert_review, Hd; reflexivity|].
    unfold insert_review in Hd. destruct (_ && _); [apply scheck_inv in Hd as (_ & _ & ->)|injection Hd as _ <-]; done. }
  apply bind_inr_inv in Hrun as (found & we & He & Hrun). apply attempt_query_inv in He as [Ee Hf].
  destruct found as [[]|row]; try by m_inv. destruct Hf as [Hf|[x ?]]; [|done].
  apply bind_inr_inv in Hrun as (? & wf & Hg & Hrun). apply require_inr_inv in Hg as [_ <-].
  apply bind_inr_inv in Hrun as (page & wg & Hg & Hrun). apply attempt_query_inv in Hg as [Eg _].
  assert (selected_step (w_db w) (w_db wg)) as S3 by (etrans; [exact S1|]; by rewrite Eg, Ee). etrans; [exact S3|].
  destruct page as [[]|stored]; try by m_inv.
  m_inv. match goal with Hx : _ && (_ =? _) = true |- _ => apply andb_true_iff in Hx as [_ Hn%Z.eqb_eq] end.
  eapply view_page_keeps; [|exact Hn|eassumption]. unfold review_by_id in Hf. rewrite Eg, Ee.
  destruct (s_reviews (w_db wd) !! review_id c) as [row0|]; [|done]. by case_match; simplify_eq.
Qed.

Lemma apply_imports_core items env w xs w1 : apply_imports items env w = (inr xs, w1) -> core_steps (w_db w) (w_db w1) /\ length xs = length items.
Proof.
  revert w xs. induction items as [|item items IH]; intros w xs Hrun; simpl in Hrun; [m_inv; by split|].
  apply bind_inr_inv in Hrun as (one & w2 & V2 & Hrun). apply bind_inr_inv in Hrun as (more & w3 & V3 & Hrun). m_inv.
  apply IH in V3 as [Hc Hl]. split; [|simpl; lia]. etrans; [|exact Hc].
  apply apply_tx_step in V2 as [->|?%import_step_core]; done.
Qed.

Lemma apply_selection_step c ids selection ordered env w o w1 :
  apply_selection c ids selection ordered env w = (inr o, w1) -> selected_step (w_db w) (w_db w1).
Proof.
  intros (sim & w2 & w3 & d1 & t & env1 & k & xs & xw & _ & _ & _ & _ & Hup & Hx & _ & Hi & _)%apply_selection_inv.
  apply apply_imports_core in Hx as [Hx _]. simpl in Hx. apply scheck_inv in Hi as (Hok & _ & ->). rewrite !andb_true_iff, absent_true in Hok.
  destruct Hok as [[Habs _] _]. simpl in Habs.
  assert (keeps_reviews (w_db w) d1) as Hk.
  { eapply keeps_mark; [exact Hup|done|..]; simpl; try done.
    - intros i r _ ?. by left.
    - intros i r Hc _. unfold consumable in Hc. rewrite !andb_true_iff, !bool_decide_eq_true in Hc. right. apply Hc. }
  apply update_reviews_inv in Hup as (_ & _ & Ex & Ei & _). split_and!; [|exact Hx|].
  - etrans; [exact Hk|]. by apply review_frame.
  - simpl in *. rewrite <-Ei. by apply insert_subseteq.
Qed.

Lemma guarantees_sel_db {A} R (f : SDB -> SqlErr + A) : guarantees R (sel_db A f).
Proof. apply guarantees_autocommit_query. Qed.

Lemma guarantees_replay R q : guarantees R (readSelectedApplyReplay sel_db q).
Proof.
  unfold readSelectedApplyReplay. destruct (canonicalSelectedOutcomeIDs _); [apply guarantees_throw|]. apply guarantees_guard. intros _.
  apply guarantees_bind; [apply guarantees_attempt, guarantees_sel_db|]. intros [[]|[id r]]; try apply guarantees_throw; [apply guarantees_ret|].
  destruct (json_read_ids _); [|apply guarantees_throw]. destruct (json_read_receipt _); [|apply guarantees_throw].
  apply guarantees_guard. intros _. apply guarantees_ret.
Qed.

Definition run_selected (op : SelectedOp) : M SDB Err unit :=
  match op with
  | OpAdvanceReview c => AdvanceArchaeologySelectedReview c ;;; ret tt
  | OpPreviewSelected c => PreviewArchaeologySelectedImports c ;;; ret tt
  | OpApplySelected c => ApplyArchaeologySelectedImports c ;;; ret tt
  | OpReplaySelected q => ReplayArchaeologySelectedImports q ;;; ret tt
  | OpBatchEligibility p b => BatchEligibility p b ;;; ret tt
  end.
Definition selected_after (ops : list SelectedOp) (env : Env SDB) (d : SDB) : SDB :=
  w_db (run_all (run_selected <$> ops) env (mkWorld d 0)).2.

Lemma guarantees_run_selected op : guarantees selected_step (run_selected op).
Proof.
  destruct op; apply guarantees_bind; try (intros; apply guarantees_ret).
  - apply guarantees_guard. intros _. destruct (canonicalSelectedOutcomeIDs _); [apply guarantees_throw|].
    apply guarantees_bind; [apply guarantees_now|intros t]. apply guarantees_mapE, guarantees_withTx. intros. right. by eapply advance_keeps.
  - unfold PreviewArchaeologySelectedImports. destruct (canonicalSelectedOutcomeIDs _); [apply guarantees_throw|].
    apply guarantees_guard. intros _. apply guarantees_guard. intros _. apply guarantees_mapE, guarantees_withTx. intros env w a w1 Hrun.
    apply bind_inr_inv in Hrun as (sel & w2 & _ & Hrun). destruct (preview_matches _ _ _); [done|]. cbv zeta in Hrun.
    apply bind_inr_inv in Hrun as (out & w3 & _ & Hrun). discriminate Hrun.
  - apply guarantees_guard. intros _. destruct (canonicalSelectedOutcomeIDs _); [apply guarantees_throw|].
    apply guarantees_guard. intros _. apply guarantees_bind.
    + apply guarantees_attempt, guarantees_withTx. intros env w a w1 Hrun. right.
      apply applyTx_inv in Hrun as (sel & _ & _ & _ & _ & [(r & Hr & _)|(_ & _ & w2 & ordered & Ew & _ & Hrun)]); [done|].
      rewrite <-Ew. by eapply apply_selection_step.
    + intros [[]|r]; try apply guarantees_throw; try apply guarantees_ret;
        (apply guarantees_bind; [apply guarantees_attempt, guarantees_replay|]; intros [[]|[]]; first [apply guarantees_ret | apply guarantees_throw]).
  - apply guarantees_mapE, guarantees_withTx. intros env w a w1 Hrun. left. apply bind_inr_inv in Hrun as (r & w2 & V2 & Hrun).
    apply replay_reads_tx in V2 as [_ E2]. destruct r; [|m_inv; congruence]. apply bind_inr_inv in Hrun as (sel & w3 & V3 & Hrun).
    apply eligible_inv in V3 as [E3 _]. m_inv. congruence.
  - unfold BatchEligibility, readArchaeologyBatchEligibility. apply guarantees_guard. intros _. apply guarantees_mapE, guarantees_sel_db.
Qed.

Lemma selected_run ops env d : (forall n x, selected_step x (tk_others (env n) x)) -> selected_step d (selected_after ops env d).
Proof.
  intros Hoth. apply (run_all_step selected_step _ env (mkWorld d 0)); [|done]. intros op (o & -> & _)%list_elem_of_fmap. apply guarantees_run_selected.
Qed.
End Guarantees.

(** C13: reviews are seen in order and in full.  After any run of the operations,
    whatever fails and whatever other connections do that keeps this, the pages
    recorded for a review are exactly those before its next one; it has a
    completion token only when every page was seen, and was consumed only when
    it had one. *)
Theorem reviews_seen_in_order `{Sha256, ImportJSON, CaseTables, SelectedJSON} ops env d id r :
  (forall n x, selected_step x (tk_others (env n) x)) -> review_inv d ->
  let d' := selected_after ops env d in s_reviews d' !! id = Some r ->
  (forall p, is_Some (s_pages d' !! (id, p)) <-> 0 <= p < rv_next r) /\
  (is_Some (rv_completion r) -> rv_next r = rv_page_count r) /\
  (is_Some (rv_consumed r) -> is_Some (rv_completion r)).
Proof.
  intros Hoth Hinv d' Hr. destruct (proj1 (selected_run ops env d Hoth) Hinv) as [Hp _ Hc Ht Hn]. split_and!.
  - intros p. by apply Hp.
  - intros Htok. by eapply Hc, Ht.
  - intros Hcons. by eapply Ht, Hn.
Qed.

(** Seen from Project Core, any run of reviews, previews, applications and
    replays, with faults, ambiguous commits and other connections in between,
    is a sequence of committed core steps; so its invariants and those of the
    import tables hold, and recorded applications stay. *)
Theorem selected_refines_core `{Sha256, ImportJSON, CaseTables, SelectedJSON} ops env d :
  (forall n x, selected_step x (tk_others (env n) x)) -> core_inv (x_core (s_x d)) -> import_wf (s_x d) ->
  let d' := selected_after ops env d in
  rtc core_step (x_core (s_x d)) (x_core (s_x d')) /\ core_inv (x_core (s_x d')) /\ import_wf (s_x d') /\ s_imports d ⊆ s_imports d'.
Proof.
  intros Hoth Hc Hwf d'. destruct (selected_run ops env d Hoth) as (_ & [Hs Hw] & Hi). split_and!; [done|by eapply steps_inv|by apply Hw|done].
Qed.

(** ** An application is authorised *)

(** A principal's request is recorded once. *)
Definition requests_unique (d : SDB) : Prop := forall i j a b,
  s_imports d !! i = Some a -> s_imports d !! j = Some b -> si_principal a = si_principal b -> si_request a = si_request b -> i = j.

Lemma simport_found d id r :
  requests_unique d -> s_imports d !! id = Some r -> simport_by_key (si_principal r) (si_request r) d = inr (id, r).
Proof.
  intros Hu Hr. unfold simport_by_key.
  destruct (find_unique (fun x => seqb (si_principal x) (si_principal r) && seqb (si_request x) (si_request r)) (s_imports d) id r) as [l ->]; [done| |..|done].
  - by rewrite !seqb_refl.
  - intros i y Hy [Hp%seqb_true Hq%seqb_true]%andb_true_iff. by eapply Hu.
Qed.

Lemma simport_of d p k id r : simport_by_key p k d = inr (id, r) -> s_imports d !! id = Some r /\ si_principal r = p /\ si_request r = k.
Proof.
  unfold simport_by_key. intros Hs. destruct (List.filter _ _) as [|e l] eqn:Hl; [done|]. injection Hs as ->.
  assert (In (id, r) ((id, r) :: l)) as Hin by (by left). rewrite <-Hl in Hin. apply List.filter_In in Hin as [Hin He].
  apply list_elem_of_In, elem_of_map_to_list in Hin. apply andb_true_iff in He as [Hp%seqb_true Hk%seqb_true]. done.
Qed.

Lemma insert_simport_unique id r d u d' : insert_simport id r d = inr (u, d') -> requests_unique d -> requests_unique d'.
Proof.
  intros (Hok & _ & ->)%scheck_inv Hu. rewrite !andb_true_iff, bool_decide_eq_true in Hok. destruct Hok as [_ Hok].
  intros i j a b Hi Hj Hp Hq. simpl in *. rewrite !lookup_insert_Some in Hi, Hj.
  destruct Hi as [[<- <-]|[Hi1 Hi2]], Hj as [[<- <-]|[Hj1 Hj2]]; [done|..|by eapply Hu].
  - by destruct (Hok _ _ Hj2) as [[] _].
  - by destruct (Hok _ _ Hi2) as [[] _].
Qed.

Lemma omap_le {A B} (f : A -> option B) l : (length (omap f l) <= length l)%nat.
Proof. induction l as [|x l IH]; simpl; [done|]. change (list_omap A B f l) with (omap f l). destruct (f x); simpl; lia. Qed.

Lemma omap_all {A B} (f : A -> option B) l : length (omap f l) = length l -> Forall (fun x => is_Some (f x)) l.
Proof.
  induction l as [|x l IH]; [constructor|]. simpl. change (list_omap A B f l) with (omap f l).
  pose proof (omap_le f l). destruct (f x) as [y|] eqn:Hf; simpl; intros Hl; [|lia].
  constructor; [by rewrite Hf|]. apply IH. lia.
Qed.

(** What a first application needs and leaves. *)
Record authorised `{Sha256, SelectedJSON} (d d' : SDB) (c : ArchaeologySelectedApplyCommand) (r : ArchaeologySelectedApplyReceipt) : Prop := {
  au_batch : exists b s, a_batches (s_arch d) !! sa_BatchID c = Some b /\ a_sessions (s_arch d) !! ba_session b = Some s /\
    se_principal s = sa_Principal c /\ ba_state b = "completed"%string /\ ba_attested b = true;
  au_outcomes : Forall (fun id => exists o j, a_outcomes (s_arch d) !! id = Some o /\ a_jobs (s_arch d) !! oc_job o = Some j /\
    jo_batch j = sa_BatchID c /\ jo_state j = "completed"%string /\ is_Some (jo_report j) /\ oc_project o = jo_project j) (sa_OutcomeIDs c);
  au_review : exists id rv t, s_reviews d !! id = Some rv /\ rv_principal rv = sa_Principal c /\ rv_batch rv = sa_BatchID c /\
    rv_selection rv = sa_SelectionDigest c /\ rv_manifest rv = sa_ManifestDigest c /\ rv_ids rv = json_ids (sa_OutcomeIDs c) /\
    rv_completion rv = Some (sha256_Sum256 (sa_ReviewCompletionToken c)) /\ rv_consumed rv = None /\
    (forall p, 0 <= p < rv_page_count rv -> is_Some (s_pages d !! (id, p))) /\ s_reviews d' !! id = Some (with_consumed t rv);
  au_receipt : ax_BatchID r = sa_BatchID c /\ ax_SelectionDigest r = sa_SelectionDigest c /\ ax_ManifestDigest r = sa_ManifestDigest c /\
    ax_OutcomeIDs r = sa_OutcomeIDs c /\ length (ax_Imports r) = length (sa_OutcomeIDs c) }.

Section Authorised.
Context `{Sha256} `{ImportJSON} `{CaseTables} `{SelectedJSON}.

Lemma eligible_batch principal batchID d e :
  batch_eligibility principal batchID d = inr e -> el_Eligible e = true ->
  exists b s, a_batches (s_arch d) !! batchID = Some b /\ a_sessions (s_arch d) !! ba_session b = Some s /\
    se_principal s = principal /\ ba_state b = "completed"%string /\ ba_attested b = true /\ batch_of principal batchID d = inr b.
Proof.
  unfold batch_eligibility. destruct (batch_of principal batchID d) as [x|b] eqn:Hb; [done|]. intros [= <-] Hel. simpl in Hel.
  rewrite !andb_true_iff in Hel. destruct Hel as [[[[[Hst%seqb_true Hat] _] _] _] _]. unfold batch_of in Hb.
  destruct (a_batches _ !! _) as [b'|] eqn:Eb; [|done]. destruct (a_sessions _ !! _) as [s|] eqn:Es; [|done].
  destruct (seqb _ _) eqn:Hp; [|done]. injection Hb as ->. apply seqb_true in Hp. by exists b, s.
Qed.

Lemma eligible_all principal batchID ids d b sel :
  batch_of principal batchID d = inr b -> eligible_outcomes principal batchID ids d = inr sel -> size sel = size ids ->
  Forall (fun id => exists o j, a_outcomes (s_arch d) !! id = Some o /\ a_jobs (s_arch d) !! oc_job o = Some j /\
    jo_batch j = batchID /\ jo_state j = "completed"%string /\ is_Some (jo_report j) /\ oc_project o = jo_project j) ids.
Proof.
  intros Hb He Hsz. unfold eligible_outcomes in He. rewrite Hb in He. injection He as <-. unfold size in Hsz. apply Nat2Z.inj, omap_all in Hsz.
  eapply Forall_impl; [exact Hsz|]. intros id. simpl. destruct (a_outcomes _ !! _) as [o|]; [|by intros []].
  destruct (a_jobs _ !! _) as [j|] eqn:Ej; [|by intros []]. unfold archaeologyEligibleOutcome. destruct (_ && _) eqn:Hok; [|by intros []]. intros _.
  rewrite !andb_true_iff in Hok. destruct Hok as [[[[H1'%seqb_true H2'%seqb_true] H3'%seqb_true] H4'] H5'%seqb_true].
  exists o, j. split_and!; try done. by destruct (jo_report j).
Qed.

Lemma update_one cond f d d' :
  update_reviews cond f d = inr (1, d') -> exists id r, s_reviews d !! id = Some r /\ cond id r = true /\ s_reviews d' !! id = Some (f r).
Proof.
  intros (Hn & _ & _ & _ & _ & Hl & _)%update_reviews_inv. destruct (List.filter _ _) as [|[id r] l] eqn:Hf; [done|].
  assert (In (id, r) ((id, r) :: l)) as Hin by (by left). rewrite <-Hf in Hin. apply List.filter_In in Hin as [Hin Hc].
  apply list_elem_of_In, elem_of_map_to_list in Hin. exists id, r. split_and!; [done|done|]. rewrite Hl, Hin. simpl in *. by rewrite Hc.
Qed.

Lemma order_imports_length sel seen ids imports ordered :
  order_imports sel seen ids imports = inr ordered -> length imports = length ids -> length ordered = length ids.
Proof.
  revert seen imports ordered. induction ids as [|id ids IH]; intros seen [|item imports] ordered Ho Hl; simplify_eq/=; [done|].
  destruct (json_wire _); [|done]. destruct (isin _ _); [done|]. destruct (negb _); [done|].
  destruct (order_imports _ _ _ _) as [|rest] eqn:Hr; [done|]. injection Ho as <-. simpl. f_equal. by eapply IH.
Qed.

Lemma simulate_length requestID index items env w done w1 :
  simulate_imports requestID index items env w = (inr done, w1) -> length done = length items.
Proof.
  revert index w done. induction items as [|item items IH]; intros index w done Hrun; simpl in Hrun; [by m_inv|].
  apply bind_inr_inv in Hrun as (one & w2 & _ & Hrun). apply bind_inr_inv in Hrun as (more & w3 & Hm & Hrun). m_inv. simpl. f_equal. by eapply IH.
Qed.

(** The committed application of a selection, as it was recorded. *)
Lemma apply_recorded `{!SelectedJSONLaws} c ids env w r w1 :
  applyTx c ids env w = (inr (TxCommit r), w1) -> length (sa_Imports c) = length ids -> requests_unique (w_db w) ->
  requests_unique (w_db w1) /\ replay_answer (replay_query c ids) (w_db w1) = inr (Some r) /\
  ax_BatchID r = sa_BatchID c /\ ax_SelectionDigest r = sa_SelectionDigest c /\ ax_ManifestDigest r = sa_ManifestDigest c /\
  ax_OutcomeIDs r = ids /\ length (ax_Imports r) = length ids.
Proof.
  intros (sel & _ & _ & Hcan & _ & [(? & ? & _)|(Hnone & _ & w2 & ordered & E2 & Hord & Hrun)])%applyTx_inv Hlen Hu; [done|].
  apply apply_selection_inv in Hrun as (sim & w3 & w4 & d1 & t & env1 & k & xs & xw & E3 & Hsim & _ & _ & Hup & Hx & _ & Hi & [= ->]).
  assert (length xs = length ids) as Hxs.
  { apply apply_imports_core in Hx as [_ ->]. unfold simulateSelectedImports in Hsim. apply savepoint_inv in Hsim as (_ & w5 & w6 & _ & Hsim).
    apply bind_inr_inv in Hsim as (done & w7 & Hd & Hsim). m_inv. apply on_s_inv in Hd as (env2 & w8 & Hd & _). apply simulate_length in Hd.
    simpl. rewrite !length_fmap, Hd. by eapply order_imports_length. }
  pose proof (insert_simport_unique _ _ _ _ _ Hi) as Hu1. apply update_reviews_inv in Hup as (_ & _ & _ & Ei & _).
  assert (requests_unique (w_db w1)) as Hu2.
  { apply Hu1. unfold requests_unique in *. simpl. by rewrite Ei, E2. }
  split; [done|]. split; [|by simpl]. apply scheck_inv in Hi as (_ & _ & Ew). simpl in Ew.
  unfold replay_answer in *. simpl in *. rewrite Hcan in *. destruct (_ && _ && _); [|done].
  match type of Ew with w_db w1 = set_simports (<[?id:=?row]> _) _ =>
    pose proof (simport_found (w_db w1) id row Hu2 ltac:(rewrite Ew; apply lookup_insert_eq)) as Hf end.
  simpl in Hf. rewrite Hf. unfold stored_answer. simpl. rewrite json_ids_back, json_receipt_back. simpl.
  rewrite !seqb_refl, !bool_decide_true by done. unfold size. rewrite Hxs, Z.eqb_refl. done.
Qed.

Lemma recover_inv env query original w r w1 :
  alone env -> recoverSelectedApplyReceipt query original env w = (inr r, w1) -> replay_answer query (w_db w) = inr (Some r) /\ w_db w1 = w_db w.
Proof.
  intros Ha Hrun. unfold recoverSelectedApplyReceipt in Hrun. apply bind_inr_inv in Hrun as (out & w2 & Ho & Hrun). apply attempt_inv in Ho.
  destruct (replay_reads _ _ _ _ _ _ (faithful_autocommit env Ha) Ho) as [E2 Hc].
  destruct out as [e|[x|]]; [destruct e; by m_inv| |by m_inv]. m_inv. destruct Hc as [Hc|[? ?]]; [by split|done].
Qed.

(** How a successful application ended: the ledger had the answer, or the
    transaction committed. *)
Lemma apply_ended c env w r w1 :
  alone env -> ApplyArchaeologySelectedImports c env w = (inr r, w1) ->
  length (sa_Imports c) = length (sa_OutcomeIDs c) /\
  (w_db w1 = w_db w /\ replay_answer (replay_query c (sa_OutcomeIDs c)) (w_db w) = inr (Some r) \/
   exists w0 r0 w2, w_db w0 = w_db w /\ applyTx c (sa_OutcomeIDs c) env w0 = (inr (TxCommit r0), w2) /\ w_db w1 = w_db w2 /\
     (r = r0 \/ replay_answer (replay_query c (sa_OutcomeIDs c)) (w_db w2) = inr (Some r))).
Proof.
  intros Ha Hrun. unfold ApplyArchaeologySelectedImports in Hrun. apply bind_inr_inv in Hrun as (? & wa & Hg & Hrun).
  apply require_inr_inv in Hg as [Hg <-]. rewrite !andb_true_iff in Hg. destruct Hg as [_ Hsz%Z.eqb_eq].
  unfold size in Hsz. split; [lia|]. destruct (canonicalSelectedOutcomeIDs _) as [e|ids] eqn:Hcan; [done|]. apply canonical_self in Hcan as [-> _].
  apply bind_inr_inv in Hrun as (? & wb & Hg & Hrun). apply require_inr_inv in Hg as [_ <-].
  apply bind_inr_inv in Hrun as (out & wc & Ho & Hrun). apply attempt_inv in Ho. unfold withTx in Ho. rewrite Ha in Ho.
  destruct (tk_fault (env (w_tick w))); [injection Ho as <- <-; by m_inv|].
  destruct (applyTx c (sa_OutcomeIDs c) env _) as [res w2] eqn:Htx. destruct res as [e|[a|a]].
  - injection Ho as <- <-. left. destruct e; try by m_inv; apply recover_inv in Hrun as [? ?].
    all: apply recover_inv in Hrun as [? ?]; [by split|done].
  - destruct (tk_fault (env (w_tick w2))).
    + injection Ho as <- <-. apply recover_inv in Hrun as [Hr E1]; [|done]. simpl in *. destruct (tk_durable _).
      * right. eexists _, _, _. split; [|split; [exact Htx|]]; [done|]. split; [done|by right].
      * left. by split.
    + injection Ho as <- <-. m_inv. right. eexists _, _, _. split; [|split; [exact Htx|]]; [done|]. split; [done|by left].
  - injection Ho as <- <-. m_inv. left. split; [done|].
    apply applyTx_inv in Htx as (sel & _ & _ & _ & _ & [(r0 & [= ->] & Hans)|(_ & _ & w3 & ordered & _ & _ & Hrun)]); [done|].
    apply apply_selection_inv in Hrun as (?&?&?&?&?&?&?&?&?&?&?&?&?&?&?&?&?&?). done.
Qed.

(** The ledger's answer is kept while its rows are. *)
Lemma answer_kept query d d' r :
  requests_unique d' -> s_imports d ⊆ s_imports d' -> replay_answer query d = inr (Some r) -> replay_answer query d' = inr (Some r).
Proof.
  intros Hu Hsub. unfold replay_answer. destruct (canonicalSelectedOutcomeIDs _); [done|]. destruct (_ && _ && _); [|done].
  destruct (simport_by_key _ _ d) as [[]|[id row]] eqn:Hs; try done. apply simport_of in Hs as (Hrow & <- & <-).
  rewrite (simport_found d' id row Hu); [done|]. by eapply lookup_weaken.
Qed.
End Authorised.

Lemma requests_stay_unique `{Sha256, ImportJSON, CaseTables, SelectedJSON, !SelectedJSONLaws} c env w r w1 :
  alone env -> requests_unique (w_db w) -> ApplyArchaeologySelectedImports c env w = (inr r, w1) -> requests_unique (w_db w1).
Proof.
  intros Ha Hu Hrun. apply apply_ended in Hrun as [Hlen [[-> _]|(w0 & r0 & w2 & E0 & Htx & -> & _)]]; [done| |done].
  eapply apply_recorded; [exact Htx|exact Hlen|]. by rewrite E0.
Qed.

(** C12: nothing is imported without a review.  When a request that has no record
    yet succeeds, its batch was the principal's, completed and attested; every
    outcome was reported by a completed job of it; and a review of exactly
    this selection and manifest, all of whose pages were seen, whose token was
    presented and which was not used before, was consumed by it. *)
Theorem selected_apply_authorised `{Sha256, ImportJSON, CaseTables, SelectedJSON, !SelectedJSONLaws} c env w r w1 :
  alone env -> review_inv (w_db w) -> requests_unique (w_db w) ->
  simport_by_key (sa_Principal c) (sa_RequestID c) (w_db w) = inl SqlNoRows ->
  ApplyArchaeologySelectedImports c env w = (inr r, w1) -> authorised (w_db w) (w_db w1) c r.
Proof.
  intros Ha Hinv Hu Hnone Hrun. apply apply_ended in Hrun as [Hlen Hend]; [|done].
  destruct Hend as [[_ Hans]|(w0 & r0 & w2 & E0 & Htx & E1 & Hr)].
  { unfold replay_answer in Hans. simpl in Hans. rewrite Hnone in Hans. by repeat case_match. }
  rewrite <-E0 in Hu. destruct (apply_recorded _ _ _ _ _ _ Htx Hlen Hu) as (_ & Hans & Hrec). rewrite Hans in Hr.
  assert (r = r0) as -> by (destruct Hr as [?|[= ?]]; done). rewrite E1.
  apply applyTx_inv in Htx as (sel & Hsel & Hsz & _ & (e & He & Hel) & [(? & ? & _)|(_ & _ & w3 & ordered & E3 & _ & Hrun)]); [done|].
  rewrite E0 in *. destruct (eligible_batch _ _ _ _ He Hel) as (b & s & Hb & Hs & Hp & Hst & Hat & Hbo). split; [by eauto 10| | |done].
  - by eapply eligible_all.
  - apply apply_selection_inv in Hrun as (sim & w4 & w5 & d1 & t & env1 & k & xs & xw & _ & _ & _ & _ & Hup & _ & _ & Hi & _). rewrite E3 in Hup.
    apply update_one in Hup as (id & rv & Hrv & Hc & Hd1). apply scheck_inv in Hi as (_ & _ & ->).
    unfold consumable in Hc. rewrite !andb_true_iff, !bool_decide_eq_true in Hc.
    destruct Hc as [[[[[[[[C1%seqb_true C2%seqb_true] C3%seqb_true] C4%seqb_true] C5%seqb_true] C6] C7] C8] _].
    exists id, rv, (stamp t). split_and!; try done. intros p Hpg. apply (ri_pages _ Hinv _ _ _ Hrv). by rewrite (ri_completed _ Hinv _ _ Hrv C7).
Qed.

(** An application happens once.  After a request succeeded, repeating it on
    any later database that still has its record writes nothing and, if it
    succeeds, returns the very same receipt. *)
Theorem selected_apply_once `{Sha256, ImportJSON, CaseTables, SelectedJSON, !SelectedJSONLaws} c env w r w1 env' w' res w2 :
  alone env -> alone env' -> requests_unique (w_db w) -> ApplyArchaeologySelectedImports c env w = (inr r, w1) ->
  requests_unique (w_db w') -> s_imports (w_db w1) ⊆ s_imports (w_db w') -> ApplyArchaeologySelectedImports c env' w' = (res, w2) ->
  w_db w2 = w_db w' /\ forall r', res = inr r' -> r' = r.
Proof.
  intros Ha Ha' Hu Hrun Hu' Hsub Hagain.
  assert (replay_answer (replay_query c (sa_OutcomeIDs c)) (w_db w') = inr (Some r)) as Hans.
  { apply apply_ended in Hrun as [Hlen [[E1 Hans]|(w0 & r0 & w3 & E0 & Htx & E1 & Hr)]]; [| |done].
    { eapply answer_kept; [done| |exact Hans]. by rewrite <-E1. }
    rewrite <-E0 in Hu. destruct (apply_recorded _ _ _ _ _ _ Htx Hlen Hu) as (_ & Hans & _). rewrite <-E1 in *.
    eapply answer_kept; [done|done|]. destruct Hr as [->|?]; done. }
  split.
  - set (R := fun d d' : SDB => replay_answer (replay_query c (sa_OutcomeIDs c)) d = inr (Some r) -> d' = d).
    assert (guarantees R (ApplyArchaeologySelectedImports c)) as Hg.
    { apply guarantees_guard. intros _. destruct (canonicalSelectedOutcomeIDs _) as [|ids] eqn:Hcan; [apply guarantees_throw|].
      apply canonical_self in Hcan as [-> _]. apply guarantees_guard. intros _. apply guarantees_bind.
      - apply guarantees_attempt, guarantees_withTx. intros env0 w0 a w3 Htx. right. intros Hx.
        apply applyTx_inv in Htx as (sel & _ & _ & _ & _ & [(? & ? & _)|(Hno & _)]); [done|congruence].
      - intros [[]|x]; try apply guarantees_throw; try apply guarantees_ret;
          (apply guarantees_bind; [apply guarantees_attempt, guarantees_replay|]; intros [[]|[]]; first [apply guarantees_ret | apply guarantees_throw]). }
    assert (Reflexive R) by (by intros d). assert (Transitive R).
    { intros d1 d2 d3 H12 H23 Hx. rewrite (H12 Hx) in *. by apply H23. }
    eapply (guarantees_run R) in Hagain; [by apply Hagain|done|]. intros n x. by rewrite Ha'.
  - intros r' ->. apply apply_ended in Hagain as [_ [[_ Hans']|(w0 & r0 & w3 & E0 & Htx & _)]]; [congruence| |done].
    apply applyTx_inv in Htx as (sel & _ & _ & _ & _ & [(? & ? & _)|(Hno & _)]); [done|]. rewrite E0 in Hno. congruence.
Qed.

(** Expiry is compared as text, and stamps have variable width.  A review is
    still usable after its expiry when that fell on a whole second, and is
    deleted before it when only the deletion does. *)
Theorem review_expiry_missorts :
  (exists r t, parseStamp (rv_expires r) < t /\ expired (stamp t) r = false) /\
  (exists r t, t < parseStamp (rv_expires r) /\ expired (stamp t) r = true).
Proof.
  pose (row := fun e => {| rv_principal := "p"; rv_batch := "b"; rv_selection := ""; rv_manifest := ""; rv_ids := ""; rv_session := ""; rv_completion := None;
    rv_page_size := 5; rv_page_count := 1; rv_next := 0; rv_completed := None; rv_consumed := None; rv_expires := stamp e; rv_created := stamp 0 |}).
  split.
  - exists (row 1767225600000000000), 1767225600500000000. vm_compute. by split.
  - exists (row 1767225600500000000), 1767225600000000000. vm_compute. by split.
Qed.

(** ** A concrete run *)
Module SelectedDemo.
(** 32 bytes that separate the texts of the run *)
#[export] Instance sum32 : Sha256 := fun s =>
  Sample.checksum s +:+ Sample.checksum (s +:+ "a") +:+ String.substring 0 8 (Sample.checksum (s +:+ "b")).

#[export] Instance task_receipt_eq : EqDecision HistoricalImportTaskReceipt.
Proof. solve_decision. Defined.
#[export] Instance task_receipt_countable : Countable HistoricalImportTaskReceipt.
Proof.
  refine (inj_countable' (fun r => (hr_Key r, hr_TaskID r, hr_Disposition r)) (fun '(a, b, c) => Build_HistoricalImportTaskReceipt a b c) _).
  by intros [].
Defined.
#[export] Instance counts_eq : EqDecision HistoricalImportCounts.
Proof. solve_decision. Defined.
#[export] Instance counts_countable : Countable HistoricalImportCounts.
Proof.
  refine (inj_countable' (fun n => (n_Aliases n, n_Tasks n, n_Attributions n, n_Events n, n_Created n, n_SkippedCurrent n, n_Replayed n))
    (fun '(a, b, c, d, e, f, g) => Build_HistoricalImportCounts a b c d e f g) _). by intros [].
Defined.
#[export] Instance import_receipt_eq : EqDecision HistoricalImportReceipt.
Proof. solve_decision. Defined.
#[export] Instance import_receipt_countable : Countable HistoricalImportReceipt.
Proof.
  refine (inj_countable' (fun r => (r_ProjectID r, r_BatchID r, r_SourceDigest r, r_ManifestDigest r, r_CollisionPolicy r, r_State r,
                                    (r_Applied r, r_RecordedAt r, r_Tasks r, r_Counts r, r_ProjectRevision r)))
    (fun '(a, b, c, d, e, f, (g, h, i, j, k)) => Build_HistoricalImportReceipt a b c d e f g h i j k) _). by intros [].
Defined.
#[export] Instance apply_receipt_eq : EqDecision ArchaeologySelectedApplyReceipt.
Proof. solve_decision. Defined.
#[export] Instance apply_receipt_countable : Countable ArchaeologySelectedApplyReceipt.
Proof.
  refine (inj_countable' (fun r => (ax_AuditID r, ax_BatchID r, ax_SelectionDigest r, ax_ManifestDigest r, ax_OutcomeIDs r, ax_Imports r))
    (fun '(a, b, c, d, e, f) => Build_ArchaeologySelectedApplyReceipt a b c d e f) _). by intros [].
Defined.

Definition receipt_text (r : HistoricalImportReceipt) : string := String.concat "," ([r_ProjectID r; r_BatchID r; r_ManifestDigest r; r_State r]
  ++ ((fun t => hr_Key t +:+ hr_TaskID t +:+ hr_Disposition t) <$> r_Tasks r)).
#[export] Instance selected_json : SelectedJSON := {|
  json_ids := ArchDemo.text; json_read_ids := ArchDemo.untext; json_receipt := ArchDemo.text; json_read_receipt := ArchDemo.untext;
  json_selection := fun b items => String.concat ";" (b :: ((fun i => i.1 +:+ "=" +:+ i.2) <$> items));
  json_manifest := fun b s items => String.concat ";" (b :: s :: ((fun i => mi_ProjectID i +:+ mi_ManifestDigest i) <$> items));
  json_stable := fun r => String.concat ";" [st_ProjectID r; st_BatchID r; st_ManifestDigest r; st_State r];
  json_wire := fun _ => Some "batch-1"%string |}.
#[export] Instance selected_laws : SelectedJSONLaws.
Proof. split; intros; apply ArchDemo.untext_text. Qed.

Definition policy : ArchaeologyExecutionPolicy := {| Depth := "quick"; Sources := {| Git := true; Docs := false; CodexHistory := false |} |}.
Definition arch : ADB :=
  mkADB Demo.db {["S" := {| se_principal := "human"; se_state := "draft"; se_policy := policy; se_max := 1; se_revision := 1; se_updated := 0 |}]}%string ∅ ∅
    {["B" := {| ba_session := "S"; ba_request := "r"; ba_digest := ""; ba_state := "completed"; ba_max := 1; ba_policy := policy; ba_attested := true;
                ba_ack := None; ba_ack_by := ""; ba_created := 0; ba_updated := 0 |}]}%string
    {["J" := {| jo_batch := "B"; jo_session := "S"; jo_candidate := "c"; jo_project := "demo"; jo_name := "Demo"; jo_state := "completed"; jo_thread := "th";
                jo_codex := "co"; jo_turn := "tu"; jo_phase := ""; jo_sources := 1; jo_duration := None;
                jo_report := Some "0123456789abcdef0123456789abcdef"; jo_error := ""; jo_created := 0; jo_started := None; jo_reported := None;
                jo_terminal := None; jo_updated := 0 |}]}%string
    {["O" := {| oc_job := "J"; oc_project := "demo"; oc_title := "t"; oc_summary := "s"; oc_sources := 1; oc_proposal := "{}"; oc_created := 0 |}]}%string
    ∅ ∅ ∅ ∅ ∅.
Definition db0 : SDB := mkSDB (mkXDB arch ∅ ∅ [] ∅ ∅ ∅) ∅ ∅ ∅ (Some "secret"%string).
Definition calm : Env SDB := fun n => mkTick None false (ImportDemo.at_time + Z.of_nat n) (pretty n) id.
Lemma selected_calm_alone : alone calm.
Proof. by intros n d. Qed.
Lemma selected_calm_others n d : selected_step d (tk_others (calm n) d).
Proof. reflexivity. Qed.

Lemma db0_reviews : review_inv db0.
Proof. split; simpl; [intros id r p Hr|intros id p [x Hx]|intros id r Hr..]; by rewrite lookup_empty in *. Qed.
Lemma no_requests : requests_unique db0.
Proof. intros i j a b Ha. simpl in Ha. by rewrite lookup_empty in Ha. Qed.

Definition imports : list HistoricalImportCommand := [ImportDemo.applied_batch "" "i1"].
Definition preview : ArchaeologySelectedPreviewCommand :=
  {| sp_BatchID := "B"; sp_Principal := "human"; sp_RequestID := "q1"; sp_OutcomeIDs := ["O"]; sp_Imports := imports |}.
(** the digests that the human confirms *)
Definition digests : string * string := Eval vm_compute in
  match (PreviewArchaeologySelectedImports preview calm (mkWorld db0 0)).1 with inr p => (pr_SelectionDigest p, pr_ManifestDigest p) | inl _ => ("", "")%string end.
Definition page (n : Z) (token request : string) : ArchaeologySelectedReviewCommand :=
  {| sr_Principal := "human"; sr_BatchID := "B"; sr_SelectionDigest := digests.1; sr_ManifestDigest := digests.2; sr_SessionToken := token;
     sr_RequestID := request; sr_OutcomeIDs := ["O"]; sr_Page := n; sr_PageCount := 2 |}.
Definition session_token : string := Eval vm_compute in
  match (AdvanceArchaeologySelectedReview (page 0 "" "v0") calm (mkWorld db0 0)).1 with inr r => rr_SessionToken r | inl _ => "" end.
Definition views : list SelectedOp := [OpAdvanceReview (page 0 "" "v0"); OpAdvanceReview (page 1 session_token "v1")].
Definition viewed : SDB := selected_after views calm db0.
Definition token : string := Eval vm_compute in (completion_token "secret" (page 1 session_token "v1")).1.
Definition apply : ArchaeologySelectedApplyCommand :=
  {| sa_BatchID := "B"; sa_Principal := "human"; sa_RequestID := "q1"; sa_SelectionDigest := digests.1; sa_ManifestDigest := digests.2;
     sa_ReviewCompletionToken := token; sa_OutcomeIDs := ["O"]; sa_Imports := imports |}.

Lemma viewed_ok : core_inv (x_core (s_x viewed)) /\ import_wf (s_x viewed).
Proof.
  destruct (selected_run views calm db0 selected_calm_others) as (_ & [Hs Hw] & _). split.
  - eapply steps_inv; [exact Hs|]. exact (reachable_core_inv _ _ _ Demo.db_reachable).
  - apply Hw. split; simpl; [apply map_Forall_empty|by intros i j a b Hi%lookup_empty_Some|by intros i j a b Hi%lookup_empty_Some|apply map_Forall_empty|constructor|apply map_Forall_empty..].
Qed.
Definition start : World SDB := mkWorld viewed 0.
Lemma viewed_reviews : review_inv (w_db start).
Proof. unfold start, viewed. cbn [w_db]. exact (proj1 (selected_run views calm db0 selected_calm_others) db0_reviews). Qed.
Lemma viewed_unique : requests_unique (w_db start).
Proof. intros i j a b Ha. assert (s_imports (w_db start) = ∅) as Hi by (vm_compute; reflexivity). rewrite Hi in Ha. destruct (lookup_empty_Some _ _ Ha). Qed.
End SelectedDemo.
#[export] Existing Instances SelectedDemo.sum32 SelectedDemo.selected_json SelectedDemo.selected_laws.

Lemma reviews_seen_in_order_witness : exists id r,
  s_reviews SelectedDemo.viewed !! id = Some r /\ is_Some (rv_completion r) /\ is_Some (s_pages SelectedDemo.viewed !! (id, 1)).
Proof.
  assert (exists id r, s_reviews SelectedDemo.viewed !! id = Some r /\ is_Some (rv_completion r) /\ rv_page_count r = 2) as (id & r & Hr & Hc & Hn).
  { exists (review_id (SelectedDemo.page 0 "" "v0")). eexists. split; [vm_compute; reflexivity|]. split; [eexists; reflexivity|reflexivity]. }
  exists id, r. split; [exact Hr|]. split; [exact Hc|].
  destruct (reviews_seen_in_order SelectedDemo.views _ _ id r SelectedDemo.selected_calm_others SelectedDemo.db0_reviews Hr) as (Hp & Htok & _).
  apply Hp. rewrite (Htok Hc), Hn. lia.
Defined.

Lemma selected_refines_core_witness :
  core_inv (x_core (s_x (selected_after [OpApplySelected SelectedDemo.apply] SelectedDemo.calm SelectedDemo.viewed))) /\
  p_revision <$> projects (x_core (s_x (selected_after [OpApplySelected SelectedDemo.apply] SelectedDemo.calm SelectedDemo.viewed))) !! "demo"%string = Some 9.
Proof.
  split; [|vm_compute; reflexivity].
  apply selected_refines_core; [exact SelectedDemo.selected_calm_others|apply SelectedDemo.viewed_ok..].
Defined.

Lemma selected_apply_authorised_witness : exists r w1,
  ApplyArchaeologySelectedImports SelectedDemo.apply SelectedDemo.calm SelectedDemo.start = (inr r, w1) /\
  authorised (w_db SelectedDemo.start) (w_db w1) SelectedDemo.apply r.
Proof.
  assert (exists r, (ApplyArchaeologySelectedImports SelectedDemo.apply SelectedDemo.calm SelectedDemo.start).1 = inr r) as (r & Hr)
    by (eexists; vm_compute; reflexivity).
  pose proof (surjective_pairing (ApplyArchaeologySelectedImports SelectedDemo.apply SelectedDemo.calm SelectedDemo.start)) as Ea.
  rewrite Hr in Ea. eexists r, _. refine (conj Ea _).
  refine (selected_apply_authorised _ _ SelectedDemo.start _ _ SelectedDemo.selected_calm_alone SelectedDemo.viewed_reviews SelectedDemo.viewed_unique _ Ea).
  vm_compute. reflexivity.
Defined.

Lemma selected_apply_once_witness : exists r w1,
  ApplyArchaeologySelectedImports SelectedDemo.apply SelectedDemo.calm SelectedDemo.start = (inr r, w1) /\
  w_db (ApplyArchaeologySelectedImports SelectedDemo.apply SelectedDemo.calm w1).2 = w_db w1.
Proof.
  assert (exists r, (ApplyArchaeologySelectedImports SelectedDemo.apply SelectedDemo.calm SelectedDemo.start).1 = inr r) as (r & Hr)
    by (eexists; vm_compute; reflexivity).
  pose proof (surjective_pairing (ApplyArchaeologySelectedImports SelectedDemo.apply SelectedDemo.calm SelectedDemo.start)) as Ea.
  rewrite Hr in Ea. revert Ea. generalize (ApplyArchaeologySelectedImports SelectedDemo.apply SelectedDemo.calm SelectedDemo.start).2. intros w1 Ea.
  exists r, w1. refine (conj Ea _).
  exact (proj1 (selected_apply_once _ _ _ _ _ _ w1 _ _ SelectedDemo.selected_calm_alone SelectedDemo.selected_calm_alone SelectedDemo.viewed_unique Ea
    (requests_stay_unique _ _ _ _ _ SelectedDemo.selected_calm_alone SelectedDemo.viewed_unique Ea) (reflexivity _) (surjective_pairing _))).
Defined.
