(* ===== verification/Forum.v ===== *)
(** * Posts, comments, mentions, scopes and read receipts

    [internal/store/posts.go], [comments.go], [notifications.go],
    [addressability.go], [post_discovery.go], the posts and comments of
    [write.go], and [UpsertSession] and [CreateTopic] of [store.go], over the
    tables of [migrations/001_core.sql], [003_posts_feed.sql],
    [004_comment_intent.sql], [007_addressable_contributors.sql] and
    [008_single_plane_attention.sql].  The tables of Project Core are a part of
    the database, so that a post of a project is a change of that project. *)

From Stdlib Require Import ZArith Lia Ascii.
From stdpp Require Import base gmap strings list sets sorting pretty.
From S2P Require Import Prelude GoText CoreDB ProjectCore Claims.

Local Open Scope Z_scope.
Local Open Scope prog_scope.

(** ** Constants and requests, [internal/domain/model.go] *)

Definition TopicGeneral : string := "general".
Definition HumanLocalPrincipal : string := "human:local-admin".
Definition HumanLegacySession : string := "human-local-admin".

Definition maxPostAttachments : Z := 8.
Definition maxPostURL : Z := 2048.
Definition maxPostTitle : Z := 200.
Definition maxStructuredRecipients : Z := 5.

Record PostAttachment := { at_Kind : string; at_URL : string; at_Title : string }.

Record PostRequest := {
  pq_TopicID : string; pq_Kind : string; pq_Title : string; pq_Body : string; pq_Basis : string; pq_Ref : string;
  pq_ActorID : string; pq_ActorKind : string; pq_ActorPrincipal : string; pq_SessionID : string; pq_RequestID : string;
  pq_Attachments : list PostAttachment; pq_MentionPrincipals : list string }.

Record Post := {
  po_ID : string; po_TopicID : string; po_ProjectID : string; po_Kind : string; po_Title : string; po_Body : string;
  po_Basis : string; po_Ref : string; po_SessionID : string; po_RequestID : string; po_Revision : Z; po_CreatedAt : Z;
  po_Attachments : list PostAttachment; po_MentionPrincipals : list string }.

Record CommentRequest := {
  cq_PostID : string; cq_Body : string; cq_Intent : string; cq_ActorID : string; cq_ActorKind : string;
  cq_ActorPrincipal : string; cq_SessionID : string; cq_RequestID : string;
  cq_MentionSessionIDs : list string; cq_MentionPrincipals : list string }.

Record PostStateRequest := {
  sq_PostID : string; sq_State : string; sq_SupersededBy : string; sq_ActorID : string; sq_SessionID : string;
  sq_RequestID : string }.

Record PerspectiveScopeRequest := {
  vq_PostID : string; vq_Scope : string; vq_ActorID : string; vq_SessionID : string; vq_RequestID : string;
  vq_BaseRevision : Z; vq_AuthorOnly : bool }.

Record MarkNotificationReadRequest := {
  mq_NotificationID : string; mq_RecipientPrincipal : string; mq_ActorID : string; mq_RequestID : string }.

Record MentionTarget := {
  mt_Kind : string; mt_Principal : string; mt_SessionID : string; mt_Handle : string; mt_Purpose : string }.

Record SessionInput := { si_ID : string; si_Host : string; si_ProjectID : string; si_Purpose : string }.
Record TopicInput := { ti_ID : string; ti_ProjectID : string; ti_Name : string }.

#[export] Instance PostAttachment_eq : EqDecision PostAttachment.
Proof. solve_decision. Defined.

Definition PostKinds : list string := ["finding"; "question"; "notice"; "decision"; "topic_request"].
Definition CommentIntents : list string := ["answer"; "add_evidence"; "challenge"; "clarify"].
Definition AttachmentKinds : list string := ["link"; "github"; "image"; "video"].
Definition PostStates : list string := ["open"; "resolved"; "superseded"].
Definition Scopes : list string := ["closed"; "project"; "commons"].

(** ** Tables *)

Record post_row := {
  p_topic : string; p_proj : option string; p_rev : option Z; p_kind : string; p_title : string; p_body : string;
  p_basis : string; p_ref : string; p_session : string; p_request : option string; p_at : Z }.
Record comment_row := {
  cm_post : string; cm_project : option string; cm_revision : option Z; cm_body : string; cm_intent : string;
  cm_session : string; cm_request : option string; cm_created : Z }.
Record state_event_row := {
  pe_id : string; pe_post : string; pe_project : option string; pe_revision : option Z; pe_state : string;
  pe_superseded : option string; pe_session : string; pe_request : option string; pe_created : Z }.
Record scope_row := { sc_scope : string; sc_revision : Z; sc_event : option string; sc_updated : Z }.
Record scope_event_row := {
  se_post : string; se_scope : string; se_base : Z; se_revision : Z; se_actor : string; se_session : string;
  se_request : string; se_created : Z }.
Record mention_row := { mn_position : Z; mn_kind : string; mn_session : option string; mn_created : Z }.
Record comment_mention_row := { cn_position : Z; cn_created : Z }.
Record notification_row := {
  nt_recipient : string; nt_source : string; nt_post : string; nt_comment : option string; nt_actor_kind : string;
  nt_actor : string; nt_session : string; nt_snippet : string; nt_created : Z; nt_read : option Z }.
(** [rc_read] is [None] for an empty text. *)
Record receipt_row := { rc_notification : string; rc_recipient : string; rc_request : string; rc_read : option Z; rc_created : Z }.
Record session_row := { ss_host : string; ss_project : option string; ss_purpose : string; ss_created : Z }.
Record handle_row := { hd_handle : string; hd_created : Z }.

(** [content_mentions] by (source kind, source id, principal),
    [comment_mentions] by (comment, session), [post_attachments] by (post,
    position); [post_state_events] in the order of its AUTOINCREMENT key. *)
Record FDB := mkFDB {
  f_core : DB;
  f_posts : gmap string post_row;
  f_comments : gmap string comment_row;
  f_attachments : gmap (string * Z) PostAttachment;
  f_states : list state_event_row;
  f_scopes : gmap string scope_row;
  f_scope_events : gmap string scope_event_row;
  f_mentions : gmap (string * string * string) mention_row;
  f_comment_mentions : gmap (string * string) comment_mention_row;
  f_notifications : gmap string notification_row;
  f_receipts : gmap string receipt_row;
  f_sessions : gmap string session_row;
  f_handles : gmap string handle_row;
}.

Definition set_f_core (v : DB) (d : FDB) : FDB :=
  mkFDB v (f_posts d) (f_comments d) (f_attachments d) (f_states d) (f_scopes d) (f_scope_events d) (f_mentions d) (f_comment_mentions d) (f_notifications d) (f_receipts d) (f_sessions d) (f_handles d).
Definition set_f_posts (v : gmap string post_row) (d : FDB) : FDB :=
  mkFDB (f_core d) v (f_comments d) (f_attachments d) (f_states d) (f_scopes d) (f_scope_events d) (f_mentions d) (f_comment_mentions d) (f_notifications d) (f_receipts d) (f_sessions d) (f_handles d).
Definition set_f_comments (v : gmap string comment_row) (d : FDB) : FDB :=
  mkFDB (f_core d) (f_posts d) v (f_attachments d) (f_states d) (f_scopes d) (f_scope_events d) (f_mentions d) (f_comment_mentions d) (f_notifications d) (f_receipts d) (f_sessions d) (f_handles d).
Definition set_f_attachments (v : gmap (string * Z) PostAttachment) (d : FDB) : FDB :=
  mkFDB (f_core d) (f_posts d) (f_comments d) v (f_states d) (f_scopes d) (f_scope_events d) (f_mentions d) (f_comment_mentions d) (f_notifications d) (f_receipts d) (f_sessions d) (f_handles d).
Definition set_f_states (v : list state_event_row) (d : FDB) : FDB :=
  mkFDB (f_core d) (f_posts d) (f_comments d) (f_attachments d) v (f_scopes d) (f_scope_events d) (f_mentions d) (f_comment_mentions d) (f_notifications d) (f_receipts d) (f_sessions d) (f_handles d).
Definition set_f_scopes (v : gmap string scope_row) (d : FDB) : FDB :=
  mkFDB (f_core d) (f_posts d) (f_comments d) (f_attachments d) (f_states d) v (f_scope_events d) (f_mentions d) (f_comment_mentions d) (f_notifications d) (f_receipts d) (f_sessions d) (f_handles d).
Definition set_f_scope_events (v : gmap string scope_event_row) (d : FDB) : FDB :=
  mkFDB (f_core d) (f_posts d) (f_comments d) (f_attachments d) (f_states d) (f_scopes d) v (f_mentions d) (f_comment_mentions d) (f_notifications d) (f_receipts d) (f_sessions d) (f_handles d).
Definition set_f_mentions (v : gmap (string * string * string) mention_row) (d : FDB) : FDB :=
  mkFDB (f_core d) (f_posts d) (f_comments d) (f_attachments d) (f_states d) (f_scopes d) (f_scope_events d) v (f_comment_mentions d) (f_notifications d) (f_receipts d) (f_sessions d) (f_handles d).
Definition set_f_comment_mentions (v : gmap (string * string) comment_mention_row) (d : FDB) : FDB :=
  mkFDB (f_core d) (f_posts d) (f_comments d) (f_attachments d) (f_states d) (f_scopes d) (f_scope_events d) (f_mentions d) v (f_notifications d) (f_receipts d) (f_sessions d) (f_handles d).
Definition set_f_notifications (v : gmap string notification_row) (d : FDB) : FDB :=
  mkFDB (f_core d) (f_posts d) (f_comments d) (f_attachments d) (f_states d) (f_scopes d) (f_scope_events d) (f_mentions d) (f_comment_mentions d) v (f_receipts d) (f_sessions d) (f_handles d).
Definition set_f_receipts (v : gmap string receipt_row) (d : FDB) : FDB :=
  mkFDB (f_core d) (f_posts d) (f_comments d) (f_attachments d) (f_states d) (f_scopes d) (f_scope_events d) (f_mentions d) (f_comment_mentions d) (f_notifications d) v (f_sessions d) (f_handles d).
Definition set_f_sessions (v : gmap string session_row) (d : FDB) : FDB :=
  mkFDB (f_core d) (f_posts d) (f_comments d) (f_attachments d) (f_states d) (f_scopes d) (f_scope_events d) (f_mentions d) (f_comment_mentions d) (f_notifications d) (f_receipts d) v (f_handles d).
Definition set_f_handles (v : gmap string handle_row) (d : FDB) : FDB :=
  mkFDB (f_core d) (f_posts d) (f_comments d) (f_attachments d) (f_states d) (f_scopes d) (f_scope_events d) (f_mentions d) (f_comment_mentions d) (f_notifications d) (f_receipts d) (f_sessions d) v.

Definition fcheck {A} (ok : bool) (a : A) (d : FDB) : SqlErr + A * FDB := if ok then inr (a, d) else inl SqlConstraint.

(** A statement of the core tables, as a statement of the whole database. *)
Definition on_core {A} (st : Stmt DB A) : Stmt FDB A := fun d =>
  match st (f_core d) with
  | inl e => inl e
  | inr (a, c) => inr (a, set_f_core c d)
  end.
Definition call_core A (st : Stmt DB A) : M FDB SqlErr A := exec (on_core st).

(** A nullable [UNIQUE] column: NULL never collides. *)
Definition request_free {A} (req : A -> option string) (m : gmap string A) (request : option string) : bool :=
  bool_decide (map_Forall (fun _ r => req r = request -> request = None) m).

Definition known_project (d : FDB) (p : option string) : bool := present_opt (projects (f_core d)) p.

(** ** Statements *)

Definition insert_post (id : string) (r : post_row) : Stmt FDB unit := fun d =>
  fcheck (absent (f_posts d) id && present (topics (f_core d)) (p_topic r) && known_project d (p_proj r)
          && isin (p_kind r) PostKinds && request_free p_request (f_posts d) (p_request r))
    tt (set_f_posts (<[id:=r]> (f_posts d)) d).

Definition insert_comment (id : string) (r : comment_row) : Stmt FDB unit := fun d =>
  fcheck (absent (f_comments d) id && present (f_posts d) (cm_post r) && known_project d (cm_project r)
          && isin (cm_intent r) CommentIntents && request_free cm_request (f_comments d) (cm_request r))
    tt (set_f_comments (<[id:=r]> (f_comments d)) d).

Definition insert_attachment (post : string) (position : Z) (a : PostAttachment) : Stmt FDB unit := fun d =>
  fcheck (absent (f_attachments d) (post, position) && present (f_posts d) post && (0 <=? position) && (position <? 8)
          && isin (at_Kind a) AttachmentKinds)
    tt (set_f_attachments (<[(post, position):=a]> (f_attachments d)) d).

Definition insert_state (r : state_event_row) : Stmt FDB unit := fun d =>
  fcheck (forallb (fun o => negb (seqb (pe_id o) (pe_id r))) (f_states d)
          && present (f_posts d) (pe_post r) && known_project d (pe_project r) && isin (pe_state r) PostStates
          && present_opt (f_posts d) (pe_superseded r)
          && forallb (fun o => bool_decide (pe_request o = pe_request r -> pe_request r = None)) (f_states d)
          && Bool.eqb (seqb (pe_state r) "superseded") (bool_decide (is_Some (pe_superseded r))))
    tt (set_f_states (f_states d ++ [r]) d).

Definition insert_scope (post : string) (r : scope_row) : Stmt FDB unit := fun d =>
  fcheck (absent (f_scopes d) post && present (f_posts d) post && isin (sc_scope r) Scopes && (0 <=? sc_revision r)
          && present_opt (f_scope_events d) (sc_event r))
    tt (set_f_scopes (<[post:=r]> (f_scopes d)) d).

(** A revision past the 64-bit range wraps to a negative one, which
    [CHECK(revision > 0)] refuses. *)
Definition insert_scope_event (id : string) (r : scope_event_row) : Stmt FDB unit := fun d =>
  fcheck (absent (f_scope_events d) id && present (f_posts d) (se_post r) && isin (se_scope r) Scopes
          && (0 <=? se_base r) && (0 <? se_revision r) && (se_revision r <=? maxInt64) && present (f_sessions d) (se_session r)
          && bool_decide (map_Forall (fun _ o => se_request o <> se_request r) (f_scope_events d))
          && bool_decide (map_Forall (fun _ o => ~ (se_post o = se_post r /\ se_revision o = se_revision r)) (f_scope_events d)))
    tt (set_f_scope_events (<[id:=r]> (f_scope_events d)) d).

(** [UPDATE post_perspective_scopes SET scope=?,revision=?,event_id=?,updated_at=? WHERE post_id=? AND revision=?] *)
Definition update_scope (post : string) (revision : Z) (r : scope_row) : Stmt FDB Z := fun d =>
  match f_scopes d !! post with
  | Some o =>
      if sc_revision o =? revision
      then fcheck (isin (sc_scope r) Scopes && (0 <=? sc_revision r) && present_opt (f_scope_events d) (sc_event r))
             1 (set_f_scopes (<[post:=r]> (f_scopes d)) d)
      else inr (0, d)
  | None => inr (0, d)
  end.

(** The [CHECK]s and the source trigger of [content_mentions]. *)
Definition mention_ok (d : FDB) (kind source principal : string) (r : mention_row) : bool :=
  isin kind ["post"; "comment"] && (0 <=? mn_position r) && (mn_position r <? 5)
  && match mn_session r with
     | Some s => seqb (mn_kind r) "agent" && seqb principal s && present (f_handles d) s
     | None => seqb (mn_kind r) "human" && seqb principal HumanLocalPrincipal
     end
  && (if seqb kind "post" then present (f_posts d) source else present (f_comments d) source).

Definition insert_mention (kind source principal : string) (r : mention_row) : Stmt FDB unit := fun d =>
  fcheck (absent (f_mentions d) (kind, source, principal) && mention_ok d kind source principal r
          && bool_decide (map_Forall (fun k o => k.1 = (kind, source) -> mn_position o <> mn_position r) (f_mentions d)))
    tt (set_f_mentions (<[(kind, source, principal):=r]> (f_mentions d)) d).

Definition insert_comment_mention (comment session : string) (r : comment_mention_row) : Stmt FDB unit := fun d =>
  fcheck (absent (f_comment_mentions d) (comment, session) && present (f_comments d) comment
          && present (f_handles d) session && (0 <=? cn_position r) && (cn_position r <? 8)
          && bool_decide (map_Forall (fun k o => k.1 = comment -> cn_position o <> cn_position r) (f_comment_mentions d)))
    tt (set_f_comment_mentions (<[(comment, session):=r]> (f_comment_mentions d)) d).

(** [length(text)]: characters, up to the first NUL *)
Fixpoint sql_length (skip : bool) (s : string) : Z :=
  match s with
  | EmptyString => 0
  | String a s' =>
      if byte a =? 0 then 0
      else if skip && cont a then sql_length skip s'
      else 1 + sql_length (0xC0 <=? byte a) s'
  end.

(** The [CHECK]s, the unique index on the source and the source trigger of
    [human_notifications]. *)
Definition notification_ok (d : FDB) (r : notification_row) : bool :=
  seqb (nt_recipient r) HumanLocalPrincipal && isin (nt_source r) ["post"; "comment"]
  && present (f_posts d) (nt_post r) && present_opt (f_comments d) (nt_comment r)
  && present (f_sessions d) (nt_session r) && (sql_length false (nt_snippet r) <=? 320)
  && Bool.eqb (seqb (nt_source r) "post") (bool_decide (nt_comment r = None))
  && (seqb (nt_actor_kind r) "agent" && seqb (nt_actor r) (nt_session r)
      || seqb (nt_actor_kind r) "human" && seqb (nt_actor r) HumanLocalPrincipal && seqb (nt_session r) HumanLegacySession)
  && match nt_comment r with
     | None => true
     | Some c => match f_comments d !! c with Some row => seqb (cm_post row) (nt_post r) | None => false end
     end.

Definition same_source (a b : notification_row) : Prop :=
  nt_recipient a = nt_recipient b /\ nt_source a = nt_source b /\ nt_post a = nt_post b /\ default "" (nt_comment a) = default "" (nt_comment b).
#[export] Instance same_source_dec a b : Decision (same_source a b).
Proof. unfold same_source. apply _. Defined.

Definition insert_notification (id : string) (r : notification_row) : Stmt FDB unit := fun d =>
  fcheck (absent (f_notifications d) id && notification_ok d r
          && bool_decide (map_Forall (fun _ o => ~ same_source o r) (f_notifications d)))
    tt (set_f_notifications (<[id:=r]> (f_notifications d)) d).

Definition read_now (t : Z) (r : notification_row) : notification_row :=
  {| nt_recipient := nt_recipient r; nt_source := nt_source r; nt_post := nt_post r; nt_comment := nt_comment r;
     nt_actor_kind := nt_actor_kind r; nt_actor := nt_actor r; nt_session := nt_session r; nt_snippet := nt_snippet r;
     nt_created := nt_created r; nt_read := Some t |}.

(** [UPDATE human_notifications SET read_at=? WHERE id=? AND recipient_principal=? AND read_at IS NULL] *)
Definition mark_read (id recipient : string) (t : Z) : Stmt FDB unit := fun d =>
  match f_notifications d !! id with
  | Some r =>
      if seqb (nt_recipient r) recipient && bool_decide (nt_read r = None)
      then inr (tt, set_f_notifications (<[id:=read_now t r]> (f_notifications d)) d)
      else inr (tt, d)
  | None => inr (tt, d)
  end.

Definition insert_receipt (id : string) (r : receipt_row) : Stmt FDB unit := fun d =>
  fcheck (absent (f_receipts d) id && seqb (rc_recipient r) HumanLocalPrincipal
          && match f_notifications d !! rc_notification r with
             | Some n => seqb (nt_recipient n) (rc_recipient r)
             | None => false
             end
          && bool_decide (map_Forall (fun _ o => rc_request o <> rc_request r) (f_receipts d)))
    tt (set_f_receipts (<[id:=r]> (f_receipts d)) d).

(** The [CHECK] on [session_handles.handle] *)
Definition handle_ok (s : string) : bool := slugPattern 63 s && (3 <=? len s).

(** [INSERT INTO sessions ... ON CONFLICT(id) DO UPDATE SET host=excluded.host,project_id=excluded.project_id,purpose=excluded.purpose] *)
Definition upsert_session (id : string) (r : session_row) : Stmt FDB unit := fun d =>
  let created := match f_sessions d !! id with Some o => ss_created o | None => ss_created r end in
  fcheck (known_project d (ss_project r)) tt
    (set_f_sessions (<[id:={| ss_host := ss_host r; ss_project := ss_project r; ss_purpose := ss_purpose r; ss_created := created |}]>
                       (f_sessions d)) d).

Definition insert_handle (session : string) (r : handle_row) : Stmt FDB unit := fun d =>
  fcheck (absent (f_handles d) session && present (f_sessions d) session && handle_ok (hd_handle r)
          && bool_decide (map_Forall (fun _ o => hd_handle o <> hd_handle r) (f_handles d)))
    tt (set_f_handles (<[session:=r]> (f_handles d)) d).

(** The number of a handle [agent-<digits>...] and the next free one,
    [SELECT COALESCE(max(CAST(substr(handle,7) AS INTEGER)),0)+1 FROM
    session_handles WHERE handle GLOB 'agent-[0-9]*'].  The cast reads the
    leading digits and stops at the largest 64-bit integer. *)
Fixpoint leading_digits (acc : Z) (s : string) : Z :=
  match s with
  | String a s' => if digit a then leading_digits (Z.min maxInt64 (10 * acc + digit_val a)) s' else acc
  | EmptyString => acc
  end.
Definition handle_number (h : string) : option Z :=
  if seqb (String.substring 0 6 h) "agent-" then
    match String.substring 6 (String.length h - 6) h with
    | String a s => if digit a then Some (leading_digits 0 (String a s)) else None
    | EmptyString => None
    end
  else None.
Definition next_handle : FDB -> SqlErr + Z := fun d =>
  let top := foldr Z.max 0 (omap (fun e => handle_number (hd_handle e.2)) (map_to_list (f_handles d))) in
  if top + 1 <=? maxInt64 then inr (top + 1) else inl (SqlFault FIO).

(** [%06d] of a non-negative number *)
Definition pad6 (s : string) : string := String.string_of_list_ascii (replicate (6 - String.length s) "0"%char) +:+ s.
Definition handle_name (n : Z) : string := "agent-" +:+ pad6 (pretty n).

(** ** Mentions *)

(** Which of the two lists of the request counts, [None] when both are given. *)
Fixpoint normalize_principals (seen out : list string) (principals : list string) : option (list string) :=
  match principals with
  | [] => Some out
  | p :: rest =>
      if seqb p "" || (200 <? len p) || negb (seqb (TrimSpace p) p) then None
      else if isin p seen then normalize_principals seen out rest
      else if maxStructuredRecipients <? Z.of_nat (length (out ++ [p])) then None
      else normalize_principals (p :: seen) (out ++ [p]) rest
  end.

Definition normalizeMentionPrincipals (principals legacySessions : list string) : option (list string) :=
  match principals, legacySessions with
  | _ :: _, _ :: _ => None
  | _, _ =>
      let chosen := match principals with [] => legacySessions | _ => principals end in
      if 20 <? Z.of_nat (length chosen) then None else normalize_principals [] [] chosen
  end.

(** [SELECT h.handle,s.purpose FROM session_handles h JOIN sessions s ON s.id=h.session_id WHERE h.session_id=?] *)
Definition contributor (session : string) : FDB -> SqlErr + (string * string) := fun d =>
  match f_handles d !! session, f_sessions d !! session with
  | Some h, Some s => inr (hd_handle h, ss_purpose s)
  | _, _ => inl SqlNoRows
  end.

Definition resolveMentionTarget (principal : string) : M FDB TxFail MentionTarget :=
  if seqb principal HumanLocalPrincipal then
    ret {| mt_Kind := "human"; mt_Principal := principal; mt_SessionID := ""; mt_Handle := ""; mt_Purpose := "" |}
  else if seqb principal HumanLegacySession then throw (FBody ErrInvalid)
  else
    found <-- attempt (exec (query (contributor principal))) ;;
    match found with
    | inr (handle, purpose) =>
        ret {| mt_Kind := "agent"; mt_Principal := principal; mt_SessionID := principal; mt_Handle := handle; mt_Purpose := purpose |}
    | inl SqlNoRows => throw (FBody ErrInvalid)
    | inl e => throw (FBody (mapErr (ErrSql e)))
    end.

(** The longest valid prefix of at most [n] bytes *)
Fixpoint valid_prefix (n : nat) (s : string) : string :=
  match n with
  | O => ""
  | S m => if utf8_ValidString (String.substring 0 n s) then String.substring 0 n s else valid_prefix m s
  end.

Definition ellipsis : string := String " "%char (String "226"%char (String "128"%char (String "166"%char ""))).

Definition boundedUTF8 (value : string) (maxBytes : Z) : string :=
  if len value <=? maxBytes then value
  else TrimSpace (valid_prefix (Z.to_nat (maxBytes - len ellipsis)) value) +:+ ellipsis.

(** One mention: its row, the compatibility row of a comment that names an
    agent, and the notification of the human. *)
Definition insert_one_mention (sourceKind sourceID postID actorKind actorPrincipal actorSession body : string) (created : Z)
    (item : nat * string) : M FDB TxFail unit :=
  let position := Z.of_nat item.1 in
  target <-- resolveMentionTarget item.2 ;;
  mapped (exec (insert_mention sourceKind sourceID (mt_Principal target)
    {| mn_position := position; mn_kind := mt_Kind target; mn_session := nullif_empty (mt_SessionID target); mn_created := created |})) ;;;
  (if seqb sourceKind "comment" && seqb (mt_Kind target) "agent" then
     mapped (exec (insert_comment_mention sourceID (mt_SessionID target) {| cn_position := position; cn_created := created |}))
   else ret tt) ;;;
  (if seqb (mt_Kind target) "human" then
     id <-- newID "N-" ;;
     mapped (exec (insert_notification id
       {| nt_recipient := mt_Principal target; nt_source := sourceKind; nt_post := postID;
          nt_comment := if seqb sourceKind "comment" then Some sourceID else None;
          nt_actor_kind := actorKind; nt_actor := actorPrincipal; nt_session := actorSession;
          nt_snippet := boundedUTF8 (TrimSpace body) 320; nt_created := created; nt_read := None |}))
   else ret tt).

Definition insertContentMentions (sourceKind sourceID postID actorKind actorPrincipal actorSession body : string) (created : Z)
    (principals : list string) : M FDB TxFail unit :=
  let actorKind := if seqb actorKind "" then "agent" else actorKind in
  let actorPrincipal := if seqb actorPrincipal "" then actorSession else actorPrincipal in
  forM_ (imap pair principals)
    (insert_one_mention sourceKind sourceID postID actorKind actorPrincipal actorSession body created).

(** The mentions of one source in their order; a session that has since gone
    reads as empty. *)
Definition shown_target (d : FDB) (principal : string) (r : mention_row) : MentionTarget :=
  let session := default "" (mn_session r) in
  {| mt_Kind := mn_kind r; mt_Principal := principal; mt_SessionID := session;
     mt_Handle := match mn_session r with Some s => default "" (hd_handle <$> f_handles d !! s) | None => "" end;
     mt_Purpose := match mn_session r with Some s => default "" (ss_purpose <$> f_sessions d !! s) | None => "" end |}.

Definition by_position (a b : string * mention_row) : Prop := mn_position a.2 <= mn_position b.2.
#[export] Instance by_position_dec a b : Decision (by_position a b).
Proof. unfold by_position. apply _. Defined.

Definition mentions_of (kind source : string) (d : FDB) : list (string * mention_row) :=
  merge_sort by_position
    (omap (fun e : (string * string * string) * mention_row =>
             if bool_decide (e.1.1 = (kind, source)) then Some (e.1.2, e.2) else None)
       (map_to_list (f_mentions d))).

(** [ORDER BY m.source_id,m.position], grouped by source. *)
Definition content_mentions (kind : string) (sources : list string) : FDB -> SqlErr + gmap string (list MentionTarget) := fun d =>
  inr (list_to_map ((fun id => (id, (fun e => shown_target d e.1 e.2) <$> mentions_of kind id d)) <$> sources)).

(** The connection a read goes through: [s.db] or a transaction. *)
Definition forumQuerier := forall A, (FDB -> SqlErr + A) -> M FDB SqlErr A.
Definition fq_db : forumQuerier := fun A q => autocommit (query q).
Definition fq_tx : forumQuerier := fun A q => exec (query q).
Definition raw {DB A} (m : M DB SqlErr A) : M DB Err A := mapE ErrSql m.

Definition readContentMentions (q : forumQuerier) (kind : string) (sources : list string) : M FDB Err (gmap string (list MentionTarget)) :=
  match sources with
  | [] => ret ∅
  | _ => raw (q _ (content_mentions kind sources))
  end.

Definition attachments_of (post : string) (d : FDB) : list PostAttachment :=
  omap (fun i => f_attachments d !! (post, Z.of_nat i)) (seq 0 8).
Definition readPostAttachments (q : forumQuerier) (post : string) : M FDB Err (list PostAttachment) :=
  raw (q _ (fun d => inr (attachments_of post d))).

(** ** Who may see a post *)

Definition scope_of (d : FDB) (post : string) : string := match f_scopes d !! post with Some r => sc_scope r | None => "closed" end.

Definition mentions_agent (d : FDB) (kind source session : string) : bool :=
  match f_mentions d !! (kind, source, session) with Some r => seqb (mn_kind r) "agent" | None => false end.

Definition mentioned_below (d : FDB) (post session : string) : bool :=
  existsb (fun e => seqb (cm_post e.2) post && mentions_agent d "comment" e.1 session) (map_to_list (f_comments d)).

Definition session_project (d : FDB) (session : string) : option string := f_sessions d !! session ≫= ss_project.

Definition agent_sees (session : string) (d : FDB) (id : string) (p : post_row) : bool :=
  seqb (p_session p) session
  || mentions_agent d "post" id session
  || mentioned_below d id session
  || seqb (scope_of d id) "commons"
  || seqb (scope_of d id) "project"
     && match p_proj p, session_project d session with Some a, Some b => seqb a b | _, _ => false end.

(** The SQL condition on a post for a viewer, [None] for a viewer that is
    neither a human nor an agent with a session. *)
Definition postDiscoveryPredicate (viewerKind viewerSession : string) : option (FDB -> string -> post_row -> bool) :=
  if seqb viewerKind "" || seqb viewerKind "human" then Some (fun _ _ _ => true)
  else if negb (seqb viewerKind "agent") || seqb viewerSession "" then None
  else Some (agent_sees viewerSession).

Definition visible_post (see : FDB -> string -> post_row -> bool) (id : string) : FDB -> SqlErr + post_row := fun d =>
  match f_posts d !! id with
  | Some p => if see d id p then inr p else inl SqlNoRows
  | None => inl SqlNoRows
  end.

Definition CanDiscoverPost (viewerKind viewerSession postID : string) : M FDB Err bool :=
  require (negb (seqb postID "")) ErrInvalid ;;;
  match postDiscoveryPredicate viewerKind viewerSession with
  | None => throw ErrInvalid
  | Some see =>
      raw (autocommit (query (fun d => inr (match visible_post see postID d with inr _ => true | inl _ => false end))))
  end.

Definition PostForComment (commentID : string) : M FDB Err string :=
  require (negb (seqb commentID "")) ErrInvalid ;;;
  direct (query (fun d => match f_comments d !! commentID with Some c => inr (cm_post c) | None => inl SqlNoRows end)).

(** ** Publishing a post *)

(** [url.Parse] and what the code reads of its result *)
Record ParsedURL := { u_Scheme : string; u_Host : string; u_Hostname : string; u_User : bool; u_Fragment : string }.
Class UrlParser := url_Parse : string -> option ParsedURL.

(** [strings.EqualFold] with a text whose letters fold within ASCII *)
Definition fold_byte (a : ascii) : ascii := if between 65 90 a then ascii_of_N (N_of_ascii a + 32) else a.
Definition equal_fold_ascii (a b : string) : bool :=
  bool_decide (map fold_byte (String.list_ascii_of_string a) = map fold_byte (String.list_ascii_of_string b)).

Definition valid_attachment `{UrlParser} (item : PostAttachment) : bool :=
  isin (at_Kind item) AttachmentKinds && negb (seqb (at_URL item) "") && (len (at_URL item) <=? maxPostURL)
  && (len (at_Title item) <=? maxPostTitle) && seqb (TrimSpace (at_URL item)) (at_URL item)
  && seqb (TrimSpace (at_Title item)) (at_Title item)
  && match url_Parse (at_URL item) with
     | None => false
     | Some u =>
         seqb (u_Scheme u) "https" && negb (seqb (u_Host u) "") && negb (u_User u) && seqb (u_Fragment u) ""
         && (negb (seqb (at_Kind item) "github") || equal_fold_ascii (u_Hostname u) "github.com")
     end.

Definition validPostAttachments `{UrlParser} (items : list PostAttachment) : bool :=
  (Z.of_nat (length items) <=? maxPostAttachments) && forallb valid_attachment items.

(** [SELECT ... FROM posts WHERE request_id=?] *)
Definition row_by_request {A} (request : A -> option string) (key : string) (m : gmap string A) : SqlErr + string * A :=
  match List.filter (fun e => bool_decide (request e.2 = Some key)) (map_to_list m) with
  | e :: _ => inr e
  | [] => inl SqlNoRows
  end.

Definition postByRequest (storageKey requestID : string) : M FDB Err Post :=
  row <-- direct (query (fun d => row_by_request p_request storageKey (f_posts d))) ;;
  let '(id, p) := row in
  attachments <-- readPostAttachments fq_db id ;;
  mentions <-- readContentMentions fq_db "post" [id] ;;
  ret {| po_ID := id; po_TopicID := p_topic p; po_ProjectID := default "" (p_proj p); po_Kind := p_kind p;
         po_Title := p_title p; po_Body := p_body p; po_Basis := p_basis p; po_Ref := p_ref p; po_SessionID := p_session p;
         po_RequestID := requestID; po_Revision := default 0 (p_rev p); po_CreatedAt := p_at p;
         po_Attachments := attachments; po_MentionPrincipals := mt_Principal <$> default [] (mentions !! id) |}.

Definition samePost (a : Post) (b : PostRequest) : bool :=
  seqb (po_TopicID a) (pq_TopicID b) && seqb (po_Kind a) (pq_Kind b) && seqb (po_Title a) (pq_Title b)
  && seqb (po_Body a) (pq_Body b) && seqb (po_Basis a) (pq_Basis b) && seqb (po_Ref a) (pq_Ref b)
  && seqb (po_SessionID a) (pq_SessionID b) && bool_decide (po_Attachments a = pq_Attachments b)
  && bool_decide (po_MentionPrincipals a = pq_MentionPrincipals b).

(** The prior post of the same request, or the error. *)
Definition replay_post (storageKey : string) (req : PostRequest) (err : Err) : M FDB Err Post :=
  prior <-- attempt (E := Err) (postByRequest storageKey (pq_RequestID req)) ;;
  match prior with
  | inr p => if samePost p req then ret p else throw err
  | inl _ => throw err
  end.

Definition with_mentions (mentions : list string) (r : PostRequest) : PostRequest :=
  {| pq_TopicID := pq_TopicID r; pq_Kind := pq_Kind r; pq_Title := pq_Title r; pq_Body := pq_Body r; pq_Basis := pq_Basis r;
     pq_Ref := pq_Ref r; pq_ActorID := pq_ActorID r; pq_ActorKind := pq_ActorKind r; pq_ActorPrincipal := pq_ActorPrincipal r;
     pq_SessionID := pq_SessionID r; pq_RequestID := pq_RequestID r; pq_Attachments := pq_Attachments r;
     pq_MentionPrincipals := mentions |}.

(** [insert]: the rows of a post, in its project's transaction or its own *)
Definition post_insert (req : PostRequest) (id storageKey : string) (project : option string) (created : Z) (rev : option Z) : M FDB TxFail unit :=
  mapped (exec (insert_post id
    {| p_topic := pq_TopicID req; p_proj := project; p_rev := rev; p_kind := pq_Kind req; p_title := pq_Title req;
       p_body := pq_Body req; p_basis := pq_Basis req; p_ref := pq_Ref req; p_session := pq_SessionID req;
       p_request := nullif_empty storageKey; p_at := created |})) ;;;
  mapped (exec (insert_scope id {| sc_scope := "closed"; sc_revision := 0; sc_event := None; sc_updated := created |})) ;;;
  mapped (call_core _ (insert_search id
    {| sd_project := project; sd_kind := pq_Kind req; sd_revision := default 0 rev; sd_title := pq_Title req;
       sd_body := pq_Body req +:+ " " +:+ pq_Basis req |})) ;;;
  forM_ (imap pair (pq_Attachments req)) (fun item => mapped (exec (insert_attachment id (Z.of_nat item.1) item.2))) ;;;
  insertContentMentions "post" id id (pq_ActorKind req) (pq_ActorPrincipal req) (pq_SessionID req) (pq_Body req) created
    (pq_MentionPrincipals req).

Definition valid_post `{UrlParser} (req : PostRequest) : bool :=
  negb (seqb (pq_TopicID req) "") && isin (pq_Kind req) PostKinds && negb (seqb (pq_Title req) "")
  && negb (seqb (pq_Body req) "") && negb (seqb (pq_Basis req) "") && negb (seqb (pq_SessionID req) "")
  && negb (seqb (pq_RequestID req) "") && validPostAttachments (pq_Attachments req)
  && (negb (seqb (pq_Kind req) "topic_request") || seqb (pq_TopicID req) TopicGeneral).

(** A transaction of its own, for what belongs to no project. *)
Definition ownTx (insert : M FDB TxFail unit) : M FDB TxFail unit := withTx (insert ;;; ret (TxCommit tt)).

Definition publish (req : PostRequest) (storageKey : string) (project : option string) : M FDB Err Post :=
  id <-- newID "P-" ;;
  created <-- now ;;
  let done rev := {|
    po_ID := id; po_TopicID := pq_TopicID req; po_ProjectID := default "" project; po_Kind := pq_Kind req;
    po_Title := pq_Title req; po_Body := pq_Body req; po_Basis := pq_Basis req; po_Ref := pq_Ref req;
    po_SessionID := pq_SessionID req; po_RequestID := pq_RequestID req; po_Revision := rev; po_CreatedAt := created;
    po_Attachments := pq_Attachments req; po_MentionPrincipals := pq_MentionPrincipals req |} in
  match project with
  | Some pid =>
      out <-- attempt (E := Err) (mutate_in call_core pid "post" id (pq_Title req)
        (fun rev => post_insert req id storageKey project created (Some rev))) ;;
      match out with
      | inr rev => ret (done rev)
      | inl err => if seqb storageKey "" then throw err else replay_post storageKey req err
      end
  | None =>
      out <-- attempt (ownTx (post_insert req id storageKey project created None)) ;;
      match out with
      | inr _ => ret (done 0)
      | inl (FBegin err) => throw err
      | inl (FBody err) | inl (FReplay err) | inl (FCommit err) => replay_post storageKey req (mapErr err)
      end
  end.

Definition Post_ `{UrlParser} (req : PostRequest) : M FDB Err Post :=
  match normalizeMentionPrincipals (pq_MentionPrincipals req) [] with
  | None => throw ErrInvalid
  | Some mentions =>
      let req := with_mentions mentions req in
      require (valid_post req) ErrInvalid ;;;
      let storageKey := requestStorageKey (pq_ActorID req) (pq_SessionID req) (pq_RequestID req) in
      prior <-- (if seqb storageKey "" then ret (inl ErrNotFound)
                 else attempt (E := Err) (postByRequest storageKey (pq_RequestID req))) ;;
      match prior with
      | inr p => if samePost p req then ret p else throw ErrConflict
      | inl ErrNotFound =>
          topic <-- direct (query (fun d => select topics (pq_TopicID req) (f_core d))) ;;
          publish req storageKey (tp_project topic)
      | inl err => throw err
      end
  end.

(** ** Commenting *)

Definition commentByRequest (storageKey : string) : M FDB Err (CommentRequest * WriteResult) :=
  row <-- direct (query (fun d => row_by_request cm_request storageKey (f_comments d))) ;;
  let '(id, c) := row in
  targets <-- readContentMentions fq_db "comment" [id] ;;
  ret ({| cq_PostID := cm_post c; cq_Body := cm_body c; cq_Intent := cm_intent c; cq_ActorID := ""; cq_ActorKind := "";
          cq_ActorPrincipal := ""; cq_SessionID := cm_session c; cq_RequestID := ""; cq_MentionSessionIDs := [];
          cq_MentionPrincipals := mt_Principal <$> default [] (targets !! id) |},
       {| ID := id; Revision := default 0 (cm_revision c) |}).

Definition sameComment (a b : CommentRequest) : bool :=
  seqb (cq_PostID a) (cq_PostID b) && seqb (cq_Body a) (cq_Body b) && seqb (cq_Intent a) (cq_Intent b)
  && seqb (cq_SessionID a) (cq_SessionID b) && bool_decide (cq_MentionPrincipals a = cq_MentionPrincipals b).

Definition comment_insert (req : CommentRequest) (id storageKey : string) (project : option string) (created : Z)
    (rev : option Z) : M FDB TxFail unit :=
  mapped (exec (insert_comment id
    {| cm_post := cq_PostID req; cm_project := project; cm_revision := rev; cm_body := cq_Body req; cm_intent := cq_Intent req;
       cm_session := cq_SessionID req; cm_request := nullif_empty storageKey; cm_created := created |})) ;;;
  insertContentMentions "comment" id (cq_PostID req) (cq_ActorKind req) (cq_ActorPrincipal req) (cq_SessionID req)
    (cq_Body req) created (cq_MentionPrincipals req).

Definition with_recipients (mentions : list string) (r : CommentRequest) : CommentRequest :=
  {| cq_PostID := cq_PostID r; cq_Body := cq_Body r; cq_Intent := cq_Intent r; cq_ActorID := cq_ActorID r;
     cq_ActorKind := cq_ActorKind r; cq_ActorPrincipal := cq_ActorPrincipal r; cq_SessionID := cq_SessionID r;
     cq_RequestID := cq_RequestID r; cq_MentionSessionIDs := []; cq_MentionPrincipals := mentions |}.

(** A write that belongs to a project goes through [mutate], another has a
    transaction of its own. *)
Definition in_project (project : option string) (kind ref summary : string) (insert : option Z -> M FDB TxFail unit) : M FDB Err Z :=
  match project with
  | Some pid => mutate_in call_core pid kind ref summary (fun rev => insert (Some rev))
  | None => runTx (insert None ;;; ret (TxCommit 0))
  end.

Definition Comment (request : CommentRequest) : M FDB Err WriteResult :=
  match normalizeMentionPrincipals (cq_MentionPrincipals request) (cq_MentionSessionIDs request) with
  | None => throw ErrInvalid
  | Some mentions =>
      let req := with_recipients mentions request in
      require (negb (seqb (cq_PostID req) "") && negb (seqb (cq_Body req) "") && isin (cq_Intent req) CommentIntents
               && negb (seqb (cq_SessionID req) "") && negb (seqb (cq_RequestID req) "")) ErrInvalid ;;;
      let storageKey := requestStorageKey (cq_ActorID req) (cq_SessionID req) (cq_RequestID req) in
      prior <-- (if seqb storageKey "" then ret (inl ErrNotFound) else attempt (E := Err) (commentByRequest storageKey)) ;;
      match prior with
      | inr (p, result) => if sameComment p req then ret result else throw ErrConflict
      | inl ErrNotFound =>
          match postDiscoveryPredicate (cq_ActorKind req) (cq_SessionID req) with
          | None => throw ErrInvalid
          | Some see =>
              post <-- direct (query (visible_post see (cq_PostID req))) ;;
              id <-- newID "R-" ;;
              created <-- now ;;
              out <-- attempt (E := Err) (in_project (p_proj post) "comment" id ("comment on " +:+ cq_PostID req)
                (comment_insert req id storageKey (p_proj post) created)) ;;
              match out with
              | inr rev => ret {| ID := id; Revision := rev |}
              | inl err =>
                  again <-- (if seqb storageKey "" then ret (inl ErrNotFound) else attempt (E := Err) (commentByRequest storageKey)) ;;
                  match again with
                  | inr (p, result) => if sameComment p req then ret result else throw (mapErr err)
                  | inl _ => throw (mapErr err)
                  end
              end
          end
      | inl err => throw err
      end
  end.

(** ** The state of a post *)

Definition state_by_request (key : string) (d : FDB) : SqlErr + state_event_row :=
  match List.filter (fun r => bool_decide (pe_request r = Some key)) (f_states d) with
  | r :: _ => inr r
  | [] => inl SqlNoRows
  end.

Definition postStateByRequest (storageKey requestID : string) : M FDB Err (PostStateRequest * WriteResult) :=
  r <-- direct (query (state_by_request storageKey)) ;;
  ret ({| sq_PostID := pe_post r; sq_State := pe_state r; sq_SupersededBy := default "" (pe_superseded r); sq_ActorID := "";
          sq_SessionID := pe_session r; sq_RequestID := requestID |},
       {| ID := pe_id r; Revision := default 0 (pe_revision r) |}).

Definition samePostState (a b : PostStateRequest) : bool :=
  seqb (sq_PostID a) (sq_PostID b) && seqb (sq_State a) (sq_State b) && seqb (sq_SupersededBy a) (sq_SupersededBy b)
  && seqb (sq_SessionID a) (sq_SessionID b).

Definition state_insert (req : PostStateRequest) (id storageKey : string) (project : option string) (created : Z)
    (rev : option Z) : M FDB TxFail unit :=
  mapped (exec (insert_state
    {| pe_id := id; pe_post := sq_PostID req; pe_project := project; pe_revision := rev; pe_state := sq_State req;
       pe_superseded := nullif_empty (sq_SupersededBy req); pe_session := sq_SessionID req;
       pe_request := nullif_empty storageKey; pe_created := created |})).

Definition valid_state (req : PostStateRequest) : bool :=
  negb (seqb (sq_PostID req) "") && negb (seqb (sq_SessionID req) "") && isin (sq_State req) PostStates
  && Bool.eqb (seqb (sq_State req) "superseded") (negb (seqb (sq_SupersededBy req) ""))
  && negb (seqb (sq_PostID req) (sq_SupersededBy req)).

Definition SetPostState (req : PostStateRequest) : M FDB Err WriteResult :=
  require (valid_state req) ErrInvalid ;;;
  let storageKey := requestStorageKey (sq_ActorID req) (sq_SessionID req) (sq_RequestID req) in
  let read : M FDB Err (Err + PostStateRequest * WriteResult) :=
    if seqb storageKey "" then ret (inl ErrNotFound) else attempt (E := Err) (postStateByRequest storageKey (sq_RequestID req)) in
  prior <-- read ;;
  match prior with
  | inr (p, result) => if samePostState p req then ret result else throw ErrConflict
  | inl ErrNotFound =>
      post <-- direct (query (visible_post (fun _ _ _ => true) (sq_PostID req))) ;;
      (if seqb (sq_SupersededBy req) "" then ret tt
       else found <-- raw (autocommit (query (fun d => inr (present (f_posts d) (sq_SupersededBy req))))) ;;
            require found ErrNotFound) ;;;
      id <-- newID "PS-" ;;
      created <-- now ;;
      out <-- attempt (E := Err) (in_project (p_proj post) "post_state" (sq_PostID req) (sq_State req)
        (state_insert req id storageKey (p_proj post) created)) ;;
      match out with
      | inr rev => ret {| ID := id; Revision := rev |}
      | inl err =>
          again <-- read ;;
          match again with
          | inr (p, result) => if samePostState p req then ret result else throw (mapErr err)
          | inl _ => throw (mapErr err)
          end
      end
  | inl err => throw err
  end.

(** The state a post is shown in: its last event, open when there is none. *)
Definition current_state (post : string) (d : FDB) : string * string :=
  match last (List.filter (fun r => seqb (pe_post r) post) (f_states d)) with
  | Some r => (pe_state r, default "" (pe_superseded r))
  | None => ("open", "")
  end.

(** ** The scope of a post *)

Definition scope_event_by_request (key : string) (d : FDB) : SqlErr + string * scope_event_row :=
  row_by_request (fun r => Some (se_request r)) key (f_scope_events d).

Definition perspectiveScopeByRequest (storageKey requestID : string) : M FDB Err (PerspectiveScopeRequest * WriteResult) :=
  row <-- direct (query (scope_event_by_request storageKey)) ;;
  let '(id, r) := row in
  ret ({| vq_PostID := se_post r; vq_Scope := se_scope r; vq_ActorID := ""; vq_SessionID := se_session r;
          vq_RequestID := requestID; vq_BaseRevision := se_base r; vq_AuthorOnly := false |},
       {| ID := id; Revision := se_revision r |}).

Definition samePerspectiveScope (a b : PerspectiveScopeRequest) : bool :=
  seqb (vq_PostID a) (vq_PostID b) && seqb (vq_Scope a) (vq_Scope b) && (vq_BaseRevision a =? vq_BaseRevision b)
  && seqb (vq_SessionID a) (vq_SessionID b).

Definition scope_and_post (post : string) : FDB -> SqlErr + scope_row * post_row := fun d =>
  match f_scopes d !! post, f_posts d !! post with
  | Some s, Some p => inr (s, p)
  | _, _ => inl SqlNoRows
  end.

Definition scopeTx (req : PerspectiveScopeRequest) (storageKey : string) : M FDB TxFail (TxOut WriteResult) :=
  found <-- mapped (exec (query (scope_and_post (vq_PostID req)))) ;;
  let '(s, p) := found in
  require (negb (vq_AuthorOnly req && negb (seqb (p_session p) (vq_SessionID req)))) (FBody ErrForbidden) ;;;
  require (negb (seqb (vq_Scope req) "project" && bool_decide (p_proj p = None))) (FBody ErrInvalid) ;;;
  require (sc_revision s =? vq_BaseRevision req) (FBody ErrConflict) ;;;
  id <-- newID "PSC-" ;;
  created <-- now ;;
  let next := sc_revision s + 1 in
  mapped (exec (insert_scope_event id
    {| se_post := vq_PostID req; se_scope := vq_Scope req; se_base := sc_revision s; se_revision := next;
       se_actor := vq_ActorID req; se_session := vq_SessionID req; se_request := storageKey; se_created := created |})) ;;;
  n <-- mapped (exec (update_scope (vq_PostID req) (sc_revision s)
    {| sc_scope := vq_Scope req; sc_revision := next; sc_event := Some id; sc_updated := created |})) ;;
  require (n =? 1) (FBody ErrConflict) ;;;
  ret (TxCommit {| ID := id; Revision := next |}).

(** [BeginTx]'s error is returned as it is, [Commit]'s through [mapErr]. *)
Definition committed {A} (body : M FDB TxFail (TxOut A)) : M FDB Err A :=
  mapE (fun f => match f with FBegin e | FBody e => e | FReplay e | FCommit e => mapErr e end) (withTx body).

Definition valid_scope (req : PerspectiveScopeRequest) : bool :=
  negb (seqb (vq_PostID req) "") && negb (seqb (vq_SessionID req) "") && isin (vq_Scope req) Scopes
  && (0 <=? vq_BaseRevision req) && negb (seqb (vq_RequestID req) "").

Definition SetPerspectiveScope (req : PerspectiveScopeRequest) : M FDB Err WriteResult :=
  require (valid_scope req) ErrInvalid ;;;
  let storageKey := requestStorageKey (vq_ActorID req) (vq_SessionID req) (vq_RequestID req) in
  prior <-- attempt (E := Err) (perspectiveScopeByRequest storageKey (vq_RequestID req)) ;;
  match prior with
  | inr (p, result) => if samePerspectiveScope p req then ret result else throw ErrConflict
  | inl ErrNotFound => committed (scopeTx req storageKey)
  | inl err => throw err
  end.

(** ** Read receipts of the human's notifications *)

Definition receipt_by_request (key : string) (d : FDB) : SqlErr + string * receipt_row :=
  row_by_request (fun r => Some (rc_request r)) key (f_receipts d).

(** [UPDATE schema_migrations SET name=name WHERE version=8] takes SQLite's
    writer and changes nothing. *)
Definition take_writer : Stmt FDB unit := fun d => inr (tt, d).

Definition read_at_of (id recipient : string) : FDB -> SqlErr + option Z := fun d =>
  match f_notifications d !! id with
  | Some n => if seqb (nt_recipient n) recipient then inr (nt_read n) else inl SqlNoRows
  | None => inl SqlNoRows
  end.

Definition markReadTx (req : MarkNotificationReadRequest) (storageKey : string) : M FDB TxFail (TxOut WriteResult) :=
  now <-- now ;;
  mapped (exec take_writer) ;;;
  prior <-- attempt (exec (query (receipt_by_request storageKey))) ;;
  match prior with
  | inr (eventID, r) =>
      if seqb (rc_notification r) (mq_NotificationID req) then ret (TxRollback {| ID := eventID; Revision := 0 |})
      else throw (FBody ErrConflict)
  | inl SqlNoRows =>
      mapped (exec (mark_read (mq_NotificationID req) (mq_RecipientPrincipal req) now)) ;;;
      readAt <-- mapped (exec (query (read_at_of (mq_NotificationID req) (mq_RecipientPrincipal req)))) ;;
      eventID <-- newID "NR-" ;;
      mapped (exec (insert_receipt eventID
        {| rc_notification := mq_NotificationID req; rc_recipient := mq_RecipientPrincipal req; rc_request := storageKey;
           rc_read := readAt; rc_created := now |})) ;;;
      ret (TxCommit {| ID := eventID; Revision := 0 |})
  | inl e => throw (FBody (ErrSql e))
  end.

Definition MarkHumanNotificationRead (req : MarkNotificationReadRequest) : M FDB Err WriteResult :=
  require (negb (seqb (mq_NotificationID req) "") && seqb (mq_RecipientPrincipal req) HumanLocalPrincipal
           && negb (seqb (mq_ActorID req) "") && negb (seqb (mq_RequestID req) "")) ErrInvalid ;;;
  committed (markReadTx req (requestStorageKey (mq_ActorID req) (mq_RecipientPrincipal req) (mq_RequestID req))).

(** ** Sessions, handles and topics, [store.go] *)

Definition sessionTx (v : SessionInput) : M FDB TxFail (TxOut unit) :=
  created <-- now ;;
  mapped (exec (upsert_session (si_ID v)
    {| ss_host := si_Host v; ss_project := nullif_empty (si_ProjectID v); ss_purpose := si_Purpose v; ss_created := created |})) ;;;
  exists_ <-- plain (exec (query (fun d => inr (present (f_handles d) (si_ID v))))) ;;
  (if exists_ then ret tt
   else
     next <-- plain (exec (query next_handle)) ;;
     mapped (exec (insert_handle (si_ID v) {| hd_handle := handle_name next; hd_created := created |}))) ;;;
  ret (TxCommit tt).

Definition UpsertSession (v : SessionInput) : M FDB Err unit :=
  require (negb (seqb (si_ID v) "") && negb (seqb (si_Host v) "")) ErrInvalid ;;;
  runTx (sessionTx v).

Definition CreateTopic (t : TopicInput) : M FDB Err unit :=
  require (negb (seqb (ti_ID t) "") && negb (seqb (ti_ProjectID t) "") && negb (seqb (ti_Name t) "")
           && negb (seqb (ti_ID t) TopicGeneral)) ErrInvalid ;;;
  created <-- now ;;
  direct (on_core (insert_topic (ti_ID t) {| tp_project := Some (ti_ProjectID t); tp_name := ti_Name t; tp_created := created |})).
