(* ===== verification/ForumReads.v ===== *)
(** * Reading the forum

    The lists and threads of [internal/store/posts.go], [comments.go] and
    [notifications.go], and the services of [internal/application/posts.go],
    [comments.go], [notifications.go] and [provenance.go] that page through
    them with the cursors of [browse.go].  A stored time is kept as the instant
    its stamp denotes.

    SQLite's [julianday] and the matcher of its full-text index are arguments;
    nothing is assumed of either.  The identity of the local human, which the
    service reads under a lock, is an argument that stays the same during one
    call. *)

From Stdlib Require Import ZArith Lia Ascii.
From stdpp Require Import base gmap strings list sets sorting pretty.
From S2P Require Import Prelude GoText Stamp Cursor CoreDB ProjectCore Claims Forum.

Local Open Scope Z_scope.
Local Open Scope prog_scope.

(** [julianday(text)]: SQLite's value is a number of milliseconds divided by a
    constant, and the code only compares it. *)
Class SqlTime := julianday : Z -> Z.
(** [search_fts MATCH ?]: whether a document's title and body match, or no
    answer when the index refuses the expression. *)
Class FullText := fts_match : string -> option (string -> string -> bool).

Fixpoint mapM {DB E A B} (f : A -> M DB E B) (l : list A) : M DB E (list B) :=
  match l with
  | [] => ret []
  | x :: l' => y <-- f x ;; ys <-- mapM f l' ;; ret (y :: ys)
  end.

(** An error that an inner call returns, inside a transaction. *)
Definition inner {DB A} (m : M DB Err A) : M DB TxFail A := mapE FBody m.

(** ** Views of [internal/domain/browse.go] and [model.go] *)

Record PostAuthor := { pa_Kind : string; pa_Principal : string; pa_SessionID : string; pa_Handle : string; pa_Purpose : string }.
Record PostTopic := { pt_ID : string; pt_Name : string }.
Record PostProject := { pp_ID : string; pp_Name : string }.
Record PerspectiveScope := { ps_Scope : string; ps_Revision : Z }.
Record PostFilters := {
  pf_Search : string; pf_TopicID : string; pf_ProjectID : string; pf_Kind : string;
  pf_CreatedFrom : option Z; pf_CreatedTo : option Z }.
Record PostBrowseQuery := {
  pb_Filters : PostFilters; pb_After : option BrowseCursor; pb_Limit : Z;
  pb_ViewerKind : string; pb_ViewerPrincipal : string; pb_ViewerSession : string }.
Record PostBrowseItem := {
  bi_ID : string; bi_Kind : string; bi_Title : string; bi_Preview : string; bi_State : string; bi_SupersededBy : string;
  bi_Topic : PostTopic; bi_Project : option PostProject; bi_Author : PostAuthor; bi_CreatedAt : Z; bi_CommentCount : Z;
  bi_Attachments : list PostAttachment; bi_Scope : PerspectiveScope; bi_Mentions : list MentionTarget }.
Record PostBrowseSnapshot_ := { bs_Total : Z; bs_Items : list PostBrowseItem }.
Record PostComment := {
  pc_ID : string; pc_Body : string; pc_Intent : string; pc_Author : PostAuthor; pc_CreatedAt : Z; pc_Mentions : list MentionTarget }.
Record PostThreadQuery := {
  tq_PostID : string; tq_After : option BrowseCursor; tq_Limit : Z;
  tq_ViewerKind : string; tq_ViewerPrincipal : string; tq_ViewerSession : string }.
(** the fields of [Object] that a post fills *)
Record Object := {
  ob_Ref : string; ob_ProjectID : string; ob_TopicID : string; ob_Kind : string; ob_Title : string; ob_Body : string;
  ob_Basis : string; ob_RelatedRef : string; ob_SessionID : string; ob_Revision : Z; ob_CreatedAt : Z }.
Record PostThread_ := {
  th_Post : Object; th_Topic : PostTopic; th_Project : option PostProject; th_Author : PostAuthor; th_State : string;
  th_SupersededBy : string; th_Attachments : list PostAttachment; th_CommentCount : Z; th_Comments : list PostComment;
  th_Scope : PerspectiveScope; th_Mentions : list MentionTarget }.
Record NotificationQuery := { nq_Recipient : string; nq_UnreadOnly : bool; nq_After : option BrowseCursor; nq_Limit : Z }.
Record HumanNotification := {
  hn_ID : string; hn_Recipient : string; hn_SourceKind : string; hn_PostID : string; hn_CommentID : string;
  hn_ActorKind : string; hn_ActorPrincipal : string; hn_ActorSessionID : string; hn_ActorHandle : string;
  hn_ActorPurpose : string; hn_Snippet : string; hn_CreatedAt : Z; hn_ReadAt : option Z }.
Record NotificationPage := { np_Items : list HumanNotification; np_UnreadCount : Z }.

(** ** Helpers of the store *)

Definition maxHomeIdentifier : Z := 200.
Definition maxBrowseSearch : Z := 200.
Definition maxPostFeedLimit : Z := 50.

Definition boundedHomeValue (value : string) (max : Z) : bool :=
  negb (seqb value "") && (len value <=? max) && seqb (TrimSpace value) value.

Definition setCanonicalAuthor (a : PostAuthor) : PostAuthor :=
  if seqb (pa_SessionID a) HumanLegacySession
  then {| pa_Kind := "human"; pa_Principal := HumanLocalPrincipal; pa_SessionID := pa_SessionID a;
          pa_Handle := pa_Handle a; pa_Purpose := pa_Purpose a |}
  else {| pa_Kind := "agent"; pa_Principal := pa_SessionID a; pa_SessionID := pa_SessionID a;
          pa_Handle := pa_Handle a; pa_Purpose := pa_Purpose a |}.

(** [COALESCE(h.handle,'')] and [COALESCE(s.purpose,'')] of a session *)
Definition handle_of (d : FDB) (session : string) : string := default "" (hd_handle <$> f_handles d !! session).
Definition purpose_of (d : FDB) (session : string) : string := default "" (ss_purpose <$> f_sessions d !! session).
Definition author_of (d : FDB) (session : string) : PostAuthor :=
  setCanonicalAuthor {| pa_Kind := ""; pa_Principal := ""; pa_SessionID := session; pa_Handle := handle_of d session;
                        pa_Purpose := purpose_of d session |}.

(** [ftsQuery]: every word a quoted phrase *)
Definition quote : string := String "034"%char EmptyString.
Fixpoint double_quotes (s : string) : string :=
  match s with
  | EmptyString => EmptyString
  | String a s' => if byte a =? 34 then String a (String a (double_quotes s')) else String a (double_quotes s')
  end.
Definition ftsQuery (q : string) : option string :=
  match Fields q with
  | [] => None
  | words => Some (String.concat " AND " ((fun v => quote +:+ double_quotes v +:+ quote) <$> words))
  end.

Section Reads.
Context `{SqlTime, FullText}.

(** The keyset condition on the rows after a cursor; [td] and [sd] say whether
    times and identifiers descend. *)
Definition after_cursor (td sd : bool) (after : option BrowseCursor) (key : Z * string) : bool :=
  match after with
  | None => true
  | Some c => key_before td sd (julianday (bc_Time c), bc_ID c) key
  end.

(** ** [HumanNotifications] *)

Definition notification_key (e : string * notification_row) : Z * string := (julianday (nt_created e.2), e.1).

Definition notification_matches (q : NotificationQuery) (e : string * notification_row) : bool :=
  seqb (nt_recipient e.2) (nq_Recipient q) && (negb (nq_UnreadOnly q) || bool_decide (nt_read e.2 = None)).

Definition shown_notification (d : FDB) (e : string * notification_row) : HumanNotification :=
  let n := e.2 in
  {| hn_ID := e.1; hn_Recipient := nt_recipient n; hn_SourceKind := nt_source n; hn_PostID := nt_post n;
     hn_CommentID := default "" (nt_comment n); hn_ActorKind := nt_actor_kind n; hn_ActorPrincipal := nt_actor n;
     hn_ActorSessionID := nt_session n; hn_ActorHandle := handle_of d (nt_session n);
     hn_ActorPurpose := purpose_of d (nt_session n); hn_Snippet := nt_snippet n; hn_CreatedAt := nt_created n;
     hn_ReadAt := nt_read n |}.

Definition unread_count (recipient : string) (d : FDB) : Z :=
  Z.of_nat (length (List.filter (fun e => seqb (nt_recipient e.2) recipient && bool_decide (nt_read e.2 = None))
                      (map_to_list (f_notifications d)))).

(** [... WHERE n.recipient_principal=? ... ORDER BY julianday(n.created_at) DESC,n.id DESC LIMIT ?] *)
Definition notification_rows (q : NotificationQuery) (d : FDB) : list (string * notification_row) :=
  take (Z.to_nat (nq_Limit q + 1))
    (order_by true true notification_key
       (List.filter (fun e => notification_matches q e && after_cursor true true (nq_After q) (notification_key e))
          (map_to_list (f_notifications d)))).

Definition HumanNotifications (q : NotificationQuery) : M FDB Err NotificationPage :=
  require (seqb (nq_Recipient q) HumanLocalPrincipal && (1 <=? nq_Limit q) && (nq_Limit q <=? 50)
           && match nq_After q with None => true | Some c => negb (IsZero (bc_Time c)) && negb (seqb (bc_ID c) "") end)
    ErrInvalid ;;;
  runTx (
    unread <-- plain (exec (query (fun d => inr (unread_count (nq_Recipient q) d)))) ;;
    items <-- plain (exec (query (fun d => inr (shown_notification d <$> notification_rows q d)))) ;;
    ret (TxCommit {| np_Items := items; np_UnreadCount := unread |})).

(** ** [PostBrowseSnapshot] *)

Definition validatePostBrowseQuery (q : PostBrowseQuery) : bool :=
  let f := pb_Filters q in
  match postDiscoveryPredicate (pb_ViewerKind q) (pb_ViewerSession q) with None => false | Some _ => true end
  && (1 <=? pb_Limit q) && (pb_Limit q <=? maxPostFeedLimit)
  && (len (pf_Search f) <=? maxBrowseSearch) && seqb (TrimSpace (pf_Search f)) (pf_Search f)
  && (len (pf_TopicID f) <=? maxHomeIdentifier) && (len (pf_ProjectID f) <=? maxHomeIdentifier)
  && (seqb (pf_Kind f) "" || isin (pf_Kind f) PostKinds)
  && match pf_CreatedFrom f, pf_CreatedTo f with Some a, Some b => a <=? b | _, _ => true end
  && match pb_After q with
     | None => true
     | Some c => negb (IsZero (bc_Time c)) && boundedHomeValue (bc_ID c) maxHomeIdentifier
     end.

Definition post_key (e : string * post_row) : Z * string := (julianday (p_at e.2), e.1).

(** [postWhere] without the cursor, on the rows of [postFrom]: [text] is the
    match of a search, [None] when there is none.  [None] of the whole is the
    error of [ftsQuery]. *)
Definition post_where (f : PostFilters) (text : option (string -> string -> bool)) (d : FDB) (e : string * post_row) : bool :=
  match text with
  | None => true
  | Some hit => match search_documents (f_core d) !! e.1 with Some s => hit (sd_title s) (sd_body s) | None => false end
  end
  && (seqb (pf_TopicID f) "" || seqb (p_topic e.2) (pf_TopicID f))
  && (seqb (pf_ProjectID f) "" || bool_decide (p_proj e.2 = Some (pf_ProjectID f)))
  && (seqb (pf_Kind f) "" || seqb (p_kind e.2) (pf_Kind f))
  && match pf_CreatedFrom f with None => true | Some t => julianday t <=? julianday (p_at e.2) end
  && match pf_CreatedTo f with None => true | Some t => julianday (p_at e.2) <=? julianday t end.

(** The expression of a search: none, refused by [ftsQuery], or a text. *)
Definition search_text (f : PostFilters) : Err + option string :=
  if seqb (pf_Search f) "" then inr None
  else match ftsQuery (pf_Search f) with None => inl ErrInvalid | Some s => inr (Some s) end.

(** The posts of a query that has been accepted, or the error of the index. *)
Definition posts_where (f : PostFilters) (text : option string) (see : FDB -> string -> post_row -> bool) (d : FDB) :
    SqlErr + list (string * post_row) :=
  let listed hit := List.filter (fun e => post_where f hit d e && see d e.1 e.2) (map_to_list (f_posts d)) in
  match text with
  | None => inr (listed None)
  | Some s => match fts_match s with None => inl (SqlFault FIO) | Some hit => inr (listed (Some hit)) end
  end.

Definition comment_count (post : string) (d : FDB) : Z :=
  Z.of_nat (length (List.filter (fun e => seqb (cm_post e.2) post) (map_to_list (f_comments d)))).
Definition project_of (d : FDB) (p : option string) : option PostProject :=
  match p with
  | None => None
  | Some id =>
      match projects (f_core d) !! id with
      | Some r => if seqb id "" then None else Some {| pp_ID := id; pp_Name := p_name r |}
      | None => None
      end
  end.
Definition scope_shown (d : FDB) (post : string) : PerspectiveScope :=
  match f_scopes d !! post with
  | Some s => {| ps_Scope := sc_scope s; ps_Revision := sc_revision s |}
  | None => {| ps_Scope := "closed"; ps_Revision := 0 |}
  end.

(** A row of the page, before its attachments and mentions are read; [None]
    when the topic is missing. *)
Definition shown_post (d : FDB) (e : string * post_row) : option PostBrowseItem :=
  let p := e.2 in
  t ← topics (f_core d) !! p_topic p;
  Some {| bi_ID := e.1; bi_Kind := p_kind p; bi_Title := boundedUTF8 (p_title p) 200;
          bi_Preview := boundedUTF8 (TrimSpace (p_body p)) 320;
          bi_State := (current_state e.1 d).1; bi_SupersededBy := (current_state e.1 d).2;
          bi_Topic := {| pt_ID := p_topic p; pt_Name := tp_name t |}; bi_Project := project_of d (p_proj p);
          bi_Author := author_of d (p_session p); bi_CreatedAt := p_at p; bi_CommentCount := comment_count e.1 d;
          bi_Attachments := []; bi_Scope := scope_shown d e.1; bi_Mentions := [] |}.

(** [ORDER BY julianday(p.created_at) DESC,p.id LIMIT ?] *)
Definition post_rows (q : PostBrowseQuery) (text : option string) (see : FDB -> string -> post_row -> bool) (d : FDB) :
    SqlErr + list PostBrowseItem :=
  match posts_where (pb_Filters q) text see d with
  | inl e => inl e
  | inr rows =>
      inr (omap (shown_post d)
             (take (Z.to_nat (pb_Limit q + 1))
                (order_by true false post_key
                   (List.filter (fun e => bool_decide (is_Some (shown_post d e)) && after_cursor true false (pb_After q) (post_key e)) rows))))
  end.

Definition with_attachments (l : list PostAttachment) (i : PostBrowseItem) : PostBrowseItem :=
  {| bi_ID := bi_ID i; bi_Kind := bi_Kind i; bi_Title := bi_Title i; bi_Preview := bi_Preview i; bi_State := bi_State i;
     bi_SupersededBy := bi_SupersededBy i; bi_Topic := bi_Topic i; bi_Project := bi_Project i; bi_Author := bi_Author i;
     bi_CreatedAt := bi_CreatedAt i; bi_CommentCount := bi_CommentCount i; bi_Attachments := l; bi_Scope := bi_Scope i;
     bi_Mentions := bi_Mentions i |}.
Definition with_targets (l : list MentionTarget) (i : PostBrowseItem) : PostBrowseItem :=
  {| bi_ID := bi_ID i; bi_Kind := bi_Kind i; bi_Title := bi_Title i; bi_Preview := bi_Preview i; bi_State := bi_State i;
     bi_SupersededBy := bi_SupersededBy i; bi_Topic := bi_Topic i; bi_Project := bi_Project i; bi_Author := bi_Author i;
     bi_CreatedAt := bi_CreatedAt i; bi_CommentCount := bi_CommentCount i; bi_Attachments := bi_Attachments i; bi_Scope := bi_Scope i;
     bi_Mentions := l |}.

Definition PostBrowseSnapshot (q : PostBrowseQuery) : M FDB Err PostBrowseSnapshot_ :=
  require (validatePostBrowseQuery q) ErrInvalid ;;;
  match postDiscoveryPredicate (pb_ViewerKind q) (pb_ViewerSession q) with
  | None => throw ErrInvalid
  | Some see =>
      runTx (
        match search_text (pb_Filters q) with
        | inl err => throw (FBody err)
        | inr text =>
            total <-- plain (exec (query (fun d => match posts_where (pb_Filters q) text see d with
                                                   | inl e => inl e | inr l => inr (Z.of_nat (length l)) end))) ;;
            rows <-- plain (exec (query (post_rows q text see))) ;;
            items <-- mapM (fun i => a <-- inner (readPostAttachments fq_tx (bi_ID i)) ;; ret (with_attachments a i)) rows ;;
            mentions <-- inner (readContentMentions fq_tx "post" (bi_ID <$> items)) ;;
            ret (TxCommit {| bs_Total := total;
                             bs_Items := (fun i => with_targets (default [] (mentions !! bi_ID i)) i) <$> items |})
        end)
  end.

(** ** [PostThread] and [PostCommentByID] *)

Definition comment_key (e : string * comment_row) : Z * string := (julianday (cm_created e.2), e.1).

Definition shown_comment (d : FDB) (e : string * comment_row) : PostComment :=
  {| pc_ID := e.1; pc_Body := cm_body e.2; pc_Intent := cm_intent e.2; pc_Author := author_of d (cm_session e.2);
     pc_CreatedAt := cm_created e.2; pc_Mentions := [] |}.
Definition comment_with_targets (l : list MentionTarget) (c : PostComment) : PostComment :=
  {| pc_ID := pc_ID c; pc_Body := pc_Body c; pc_Intent := pc_Intent c; pc_Author := pc_Author c;
     pc_CreatedAt := pc_CreatedAt c; pc_Mentions := l |}.

(** [... WHERE c.post_id=? ... ORDER BY julianday(c.created_at),c.id LIMIT ?] *)
Definition comment_rows (q : PostThreadQuery) (d : FDB) : list PostComment :=
  shown_comment d <$>
  take (Z.to_nat (tq_Limit q + 1))
    (order_by false false comment_key
       (List.filter (fun e => seqb (cm_post e.2) (tq_PostID q) && after_cursor false false (tq_After q) (comment_key e))
          (map_to_list (f_comments d)))).

(** The post and all that is shown with it, before attachments, comments and
    mentions are read. *)
Definition thread_row (see : FDB -> string -> post_row -> bool) (id : string) : FDB -> SqlErr + PostThread_ := fun d =>
  match visible_post see id d with
  | inl e => inl e
  | inr p =>
      match topics (f_core d) !! p_topic p with
      | None => inl SqlNoRows
      | Some t =>
          inr {| th_Post := {| ob_Ref := id; ob_ProjectID := default "" (p_proj p); ob_TopicID := p_topic p; ob_Kind := p_kind p;
                               ob_Title := p_title p; ob_Body := p_body p; ob_Basis := p_basis p; ob_RelatedRef := p_ref p;
                               ob_SessionID := p_session p; ob_Revision := default 0 (p_rev p); ob_CreatedAt := p_at p |};
                 th_Topic := {| pt_ID := p_topic p; pt_Name := tp_name t |}; th_Project := project_of d (p_proj p);
                 th_Author := author_of d (p_session p); th_State := (current_state id d).1;
                 th_SupersededBy := (current_state id d).2; th_Attachments := []; th_CommentCount := comment_count id d;
                 th_Comments := []; th_Scope := scope_shown d id; th_Mentions := [] |}
      end
  end.

Definition thread_with (attachments : list PostAttachment) (comments : list PostComment) (mentions : list MentionTarget)
    (t : PostThread_) : PostThread_ :=
  {| th_Post := th_Post t; th_Topic := th_Topic t; th_Project := th_Project t; th_Author := th_Author t; th_State := th_State t;
     th_SupersededBy := th_SupersededBy t; th_Attachments := attachments; th_CommentCount := th_CommentCount t;
     th_Comments := comments; th_Scope := th_Scope t; th_Mentions := mentions |}.

Definition PostThread (q : PostThreadQuery) : M FDB Err PostThread_ :=
  require (negb (seqb (tq_PostID q) "") && (1 <=? tq_Limit q) && (tq_Limit q <=? maxPostFeedLimit)
           && match tq_After q with
              | None => true
              | Some c => negb (IsZero (bc_Time c)) && boundedHomeValue (bc_ID c) maxHomeIdentifier
              end) ErrInvalid ;;;
  match postDiscoveryPredicate (tq_ViewerKind q) (tq_ViewerSession q) with
  | None => throw ErrInvalid
  | Some see =>
      runTx (
        t <-- mapped (exec (query (thread_row see (tq_PostID q)))) ;;
        attachments <-- inner (readPostAttachments fq_tx (tq_PostID q)) ;;
        comments <-- plain (exec (query (fun d => inr (comment_rows q d)))) ;;
        postMentions <-- inner (readContentMentions fq_tx "post" [tq_PostID q]) ;;
        mentions <-- inner (readContentMentions fq_tx "comment" (pc_ID <$> comments)) ;;
        ret (TxCommit (thread_with attachments
                         ((fun c => comment_with_targets (default [] (mentions !! pc_ID c)) c) <$> comments)
                         (default [] (postMentions !! tq_PostID q)) t)))
  end.

(** The comment with its post, for a viewer who may see the post. *)
Definition comment_row_for (see : FDB -> string -> post_row -> bool) (id : string) : FDB -> SqlErr + string * PostComment := fun d =>
  match f_comments d !! id with
  | None => inl SqlNoRows
  | Some c => match visible_post see (cm_post c) d with inl e => inl e | inr _ => inr (cm_post c, shown_comment d (id, c)) end
  end.

Definition PostCommentByID (commentID viewerKind viewerSession : string) : M FDB Err (string * PostComment) :=
  require (negb (seqb commentID "")) ErrInvalid ;;;
  match postDiscoveryPredicate viewerKind viewerSession with
  | None => throw ErrInvalid
  | Some see =>
      found <-- direct (query (comment_row_for see commentID)) ;;
      mentions <-- readContentMentions fq_db "comment" [commentID] ;;
      ret (found.1, comment_with_targets (default [] (mentions !! commentID)) found.2)
  end.
End Reads.
