(* ===== verification/ForumService.v ===== *)
(** * The forum's services

    [internal/application/posts.go], [comments.go], [notifications.go] and the
    views of [provenance.go]: what a caller of the service gets, and the pages
    it is handed.  Requests that the service only forwards to the store
    ([SetPostState], [SetPerspectiveScope], [Comment], [MarkNotificationRead])
    are the store's. *)

From Stdlib Require Import ZArith Lia Ascii.
From stdpp Require Import base gmap strings list sets sorting pretty.
From S2P Require Import Prelude GoText Stamp Cursor CoreDB ProjectCore Claims Forum ForumReads.

Local Open Scope Z_scope.
Local Open Scope prog_scope.

(** ** Provenance, [internal/application/provenance.go] *)

Record ProvenanceSource := { vs_Kind : string; vs_StableID : string; vs_Digest : string; vs_OccurredAt : option Z }.
Record ProvenanceRecorder := { vr_Actor : string; vr_Session : string }.
Record Provenance := {
  pv_Kind : string; pv_Actor : string; pv_Session : string; pv_Purpose : string; pv_Role : string; pv_Confidence : string;
  pv_RecordedAt : option Z; pv_Source : option ProvenanceSource; pv_RecordedBy : option ProvenanceRecorder }.

(** the domain's own record of it, [internal/domain/provenance.go] *)
Record HistoricalSource := { hs_Kind : string; hs_StableID : string; hs_Digest : string; hs_OccurredAt : Z }.
Record RecordedPrincipal := { rp_ActorID : string; rp_SessionID : string }.
Record DomainProvenance := {
  dv_Kind : string; dv_ActorID : string; dv_SessionID : string; dv_Purpose : string; dv_Role : string; dv_Confidence : string;
  dv_RecordedAt : Z; dv_Source : option HistoricalSource; dv_RecordedBy : option RecordedPrincipal }.

Definition ProvenanceAttested : string := "attested".

(** the zero time and the Unix epoch both mean that there is none *)
Definition optionalTime (value : Z) : option Z := if IsZero value || (value =? 0) then None else Some value.

Definition provenanceView (item : DomainProvenance) : option Provenance :=
  if seqb (dv_Kind item) "" || seqb (dv_SessionID item) "" && bool_decide (dv_Source item = None) then None
  else Some {|
    pv_Kind := dv_Kind item; pv_Actor := dv_ActorID item; pv_Session := dv_SessionID item; pv_Purpose := dv_Purpose item;
    pv_Role := dv_Role item; pv_Confidence := dv_Confidence item; pv_RecordedAt := optionalTime (dv_RecordedAt item);
    pv_Source := (fun s => {| vs_Kind := hs_Kind s; vs_StableID := hs_StableID s; vs_Digest := hs_Digest s;
                              vs_OccurredAt := optionalTime (hs_OccurredAt s) |}) <$> dv_Source item;
    pv_RecordedBy := match dv_RecordedBy item with
                     | Some r => if negb (seqb (rp_ActorID r) "") || negb (seqb (rp_SessionID r) "")
                                 then Some {| vr_Actor := rp_ActorID r; vr_Session := rp_SessionID r |} else None
                     | None => None
                     end |}.

Definition attestedProvenance (actor session purpose : string) : option Provenance :=
  provenanceView {| dv_Kind := ProvenanceAttested; dv_ActorID := actor; dv_SessionID := session; dv_Purpose := purpose;
                    dv_Role := ""; dv_Confidence := ""; dv_RecordedAt := zeroTime; dv_Source := None; dv_RecordedBy := None |}.

(** ** Views *)

Record AppAuthor := {
  aa_Kind : string; aa_Principal : string; aa_DisplayName : string; aa_Handle : string; aa_Session : string; aa_Purpose : string;
  aa_Provenance : option Provenance }.
Record AppMention := {
  am_Kind : string; am_Principal : string; am_Session : string; am_Handle : string; am_DisplayName : string; am_Purpose : string;
  am_Provenance : option Provenance }.
Record BrowseDestination := { bd_Kind : string; bd_Ref : string }.
Record PostFeedItem := {
  fi_ID : string; fi_Kind : string; fi_Title : string; fi_Preview : string; fi_Topic : PostTopic; fi_Project : option PostProject;
  fi_Author : AppAuthor; fi_CreatedAt : Z; fi_CommentCount : Z; fi_State : string; fi_SupersededBy : string;
  fi_Attachments : list PostAttachment; fi_Destination : BrowseDestination; fi_Scope : PerspectiveScope; fi_Mentions : list AppMention }.
Record PostFeedRequest := {
  fr_ViewerKind : string; fr_ViewerPrincipal : string; fr_ViewerSession : string; fr_Cursor : string; fr_Search : string;
  fr_Topic : string; fr_Project : string; fr_Kind : string; fr_CreatedFrom : option Z; fr_CreatedTo : option Z; fr_Limit : Z }.
Record PostFeedResult := { ft_Total : Z; ft_Limit : Z; ft_Items : list PostFeedItem; ft_NextCursor : string }.
Record PostFull := {
  fu_ID : string; fu_Kind : string; fu_Title : string; fu_Body : string; fu_Basis : string; fu_RelatedRef : string; fu_Revision : Z;
  fu_Topic : PostTopic; fu_Project : option PostProject; fu_Author : AppAuthor; fu_CreatedAt : Z; fu_State : string;
  fu_SupersededBy : string; fu_Attachments : list PostAttachment; fu_CommentCount : Z; fu_Destination : BrowseDestination;
  fu_Scope : PerspectiveScope; fu_Mentions : list AppMention }.
Record AppComment := {
  ac_ID : string; ac_Body : string; ac_Intent : string; ac_Author : AppAuthor; ac_CreatedAt : Z; ac_Mentions : list AppMention }.
Record PostCommentPage := { cg_Limit : Z; cg_Items : list AppComment; cg_NextCursor : string }.
Record PostOpenRequest := {
  or_Ref : string; or_CommentsCursor : string; or_CommentsLimit : Z; or_ViewerKind : string; or_ViewerPrincipal : string;
  or_ViewerSession : string }.
Record PostOpenResult := { os_Post : PostFull; os_Comments : PostCommentPage }.
Record CommentOpenRequest := { co_ID : string; co_ViewerKind : string; co_ViewerPrincipal : string; co_ViewerSession : string }.
Record CommentOpenResult := { cr_PostRef : string; cr_Comment : AppComment }.
Record NotificationListRequest := { nr_Cursor : string; nr_UnreadOnly : bool; nr_Limit : Z }.
Record NotificationPrincipal := { pr_Kind : string; pr_Principal : string; pr_Handle : string; pr_DisplayName : string; pr_Purpose : string }.
Record NotificationSource := { ns_Kind : string; ns_PostRef : string; ns_CommentRef : string }.
Record NotificationItem := {
  ni_ID : string; ni_Recipient : NotificationPrincipal; ni_Source : NotificationSource; ni_Actor : NotificationPrincipal;
  ni_Snippet : string; ni_CreatedAt : Z; ni_ReadAt : option Z }.
Record NotificationListResult := { nl_Items : list NotificationItem; nl_NextCursor : string; nl_UnreadCount : Z }.

(** [humanIdentity]: the display name and the handle of the local human *)
Record Identity := { hi_DisplayName : string; hi_Handle : string }.

Definition postFeedLimit (value : Z) : option Z :=
  if value =? 0 then Some 20 else if (1 <=? value) && (value <=? 50) then Some value else None.
Definition commentLimit (value : Z) : option Z :=
  if value =? 0 then Some 10 else if (1 <=? value) && (value <=? 20) then Some value else None.

(** [appAttachments], [appTopic] and [appProject] copy their fields. *)
Definition appAuthor (me : Identity) (item : PostAuthor) : AppAuthor :=
  let human := seqb (pa_Kind item) "human" in
  {| aa_Kind := pa_Kind item; aa_Principal := pa_Principal item; aa_DisplayName := if human then hi_DisplayName me else "";
     aa_Handle := if human then hi_Handle me else pa_Handle item; aa_Session := pa_SessionID item;
     aa_Purpose := if human then "" else pa_Purpose item;
     aa_Provenance := attestedProvenance "" (pa_SessionID item) (pa_Purpose item) |}.

Definition appMention (me : Identity) (item : MentionTarget) : AppMention :=
  let human := seqb (mt_Kind item) "human" in
  {| am_Kind := mt_Kind item; am_Principal := mt_Principal item; am_Session := mt_SessionID item;
     am_Handle := if human then hi_Handle me else mt_Handle item; am_DisplayName := if human then hi_DisplayName me else "";
     am_Purpose := mt_Purpose item;
     am_Provenance := if human then None else attestedProvenance "" (mt_SessionID item) (mt_Purpose item) |}.
Definition appMentions (me : Identity) (items : list MentionTarget) : list AppMention := appMention me <$> items.

Definition feed_item (me : Identity) (item : PostBrowseItem) : PostFeedItem :=
  {| fi_ID := bi_ID item; fi_Kind := bi_Kind item; fi_Title := bi_Title item; fi_Preview := bi_Preview item;
     fi_Topic := bi_Topic item; fi_Project := bi_Project item; fi_Author := appAuthor me (bi_Author item);
     fi_CreatedAt := bi_CreatedAt item; fi_CommentCount := bi_CommentCount item; fi_State := bi_State item;
     fi_SupersededBy := bi_SupersededBy item; fi_Attachments := bi_Attachments item;
     fi_Destination := {| bd_Kind := "post"; bd_Ref := bi_ID item |}; fi_Scope := bi_Scope item;
     fi_Mentions := appMentions me (bi_Mentions item) |}.

Definition app_comment (me : Identity) (item : PostComment) : AppComment :=
  {| ac_ID := pc_ID item; ac_Body := pc_Body item; ac_Intent := pc_Intent item; ac_Author := appAuthor me (pc_Author item);
     ac_CreatedAt := pc_CreatedAt item; ac_Mentions := appMentions me (pc_Mentions item) |}.

Definition notification_item (me : Identity) (item : HumanNotification) : NotificationItem :=
  let human := seqb (hn_ActorKind item) "human" in
  {| ni_ID := hn_ID item;
     ni_Recipient := {| pr_Kind := "human"; pr_Principal := HumanLocalPrincipal; pr_Handle := hi_Handle me;
                        pr_DisplayName := hi_DisplayName me; pr_Purpose := "" |};
     ni_Source := {| ns_Kind := hn_SourceKind item; ns_PostRef := hn_PostID item; ns_CommentRef := hn_CommentID item |};
     ni_Actor := {| pr_Kind := hn_ActorKind item; pr_Principal := hn_ActorPrincipal item;
                    pr_Handle := if human then hi_Handle me else hn_ActorHandle item;
                    pr_DisplayName := if human then hi_DisplayName me else "";
                    pr_Purpose := if human then "" else hn_ActorPurpose item |};
     ni_Snippet := hn_Snippet item; ni_CreatedAt := hn_CreatedAt item; ni_ReadAt := hn_ReadAt item |}.

(** ** Pages

    The extra row of a page only says that there is more; the next cursor is
    the last row shown. *)
Section Services.
Context `{CursorJSON, SqlTime, FullText}.

Definition next_cursor {A} (resource : string) (created : A -> Z) (id : A -> string) (limit : Z) (items : list A) : list A * string :=
  if limit <? Z.of_nat (length items) then
    let shown := take (Z.to_nat limit) items in
    (shown, match last shown with
            | Some x => encodeCursor resource {| bc_Time := created x; bc_Text := ""; bc_ID := id x |}
            | None => ""
            end)
  else (items, "").

(** A cursor that a list ordered by time accepts *)
Definition time_cursor (resource raw : string) : Err + option BrowseCursor :=
  match decodeCursor resource raw with
  | inr (Some c) => if IsZero (bc_Time c) then inl ErrInvalid else inr (Some c)
  | inr None => inr None
  | inl _ => inl ErrInvalid
  end.

Definition feed_query (request : PostFeedRequest) (after : option BrowseCursor) (limit : Z) : PostBrowseQuery :=
  {| pb_Filters := {| pf_Search := fr_Search request; pf_TopicID := fr_Topic request; pf_ProjectID := fr_Project request;
                      pf_Kind := fr_Kind request; pf_CreatedFrom := fr_CreatedFrom request; pf_CreatedTo := fr_CreatedTo request |};
     pb_After := after; pb_Limit := limit; pb_ViewerKind := fr_ViewerKind request;
     pb_ViewerPrincipal := fr_ViewerPrincipal request; pb_ViewerSession := fr_ViewerSession request |}.

Definition BrowsePosts (me : Identity) (request : PostFeedRequest) : M FDB Err PostFeedResult :=
  require ((len (fr_Search request) <=? 200) && seqb (TrimSpace (fr_Search request)) (fr_Search request)
           && (seqb (fr_Kind request) "" || isin (fr_Kind request) PostKinds)
           && match fr_CreatedFrom request, fr_CreatedTo request with Some a, Some b => a <=? b | _, _ => true end) ErrInvalid ;;;
  match postFeedLimit (fr_Limit request), time_cursor "posts" (fr_Cursor request) with
  | Some limit, inr after =>
      snapshot <-- PostBrowseSnapshot (feed_query request after limit) ;;
      let '(items, next) := next_cursor "posts" bi_CreatedAt bi_ID limit (bs_Items snapshot) in
      ret {| ft_Total := bs_Total snapshot; ft_Limit := limit; ft_Items := feed_item me <$> items; ft_NextCursor := next |}
  | _, _ => throw ErrInvalid
  end.

Definition full_post (me : Identity) (t : PostThread_) : PostFull :=
  {| fu_ID := ob_Ref (th_Post t); fu_Kind := ob_Kind (th_Post t); fu_Title := ob_Title (th_Post t); fu_Body := ob_Body (th_Post t);
     fu_Basis := ob_Basis (th_Post t); fu_RelatedRef := ob_RelatedRef (th_Post t); fu_Revision := ob_Revision (th_Post t);
     fu_Topic := th_Topic t; fu_Project := th_Project t; fu_Author := appAuthor me (th_Author t);
     fu_CreatedAt := ob_CreatedAt (th_Post t); fu_State := th_State t; fu_SupersededBy := th_SupersededBy t;
     fu_Attachments := th_Attachments t; fu_CommentCount := th_CommentCount t;
     fu_Destination := {| bd_Kind := "post"; bd_Ref := ob_Ref (th_Post t) |}; fu_Scope := th_Scope t;
     fu_Mentions := appMentions me (th_Mentions t) |}.

Definition OpenPost (me : Identity) (request : PostOpenRequest) : M FDB Err PostOpenResult :=
  require (negb (seqb (or_Ref request) "")) ErrInvalid ;;;
  let resource := "post-comments:" +:+ or_Ref request in
  match commentLimit (or_CommentsLimit request), time_cursor resource (or_CommentsCursor request) with
  | Some limit, inr after =>
      thread <-- PostThread {| tq_PostID := or_Ref request; tq_After := after; tq_Limit := limit;
                               tq_ViewerKind := or_ViewerKind request; tq_ViewerPrincipal := or_ViewerPrincipal request;
                               tq_ViewerSession := or_ViewerSession request |} ;;
      let '(items, next) := next_cursor resource pc_CreatedAt pc_ID limit (th_Comments thread) in
      ret {| os_Post := full_post me thread;
             os_Comments := {| cg_Limit := limit; cg_Items := app_comment me <$> items; cg_NextCursor := next |} |}
  | _, _ => throw ErrInvalid
  end.

Definition OpenComment (me : Identity) (request : CommentOpenRequest) : M FDB Err CommentOpenResult :=
  require (negb (seqb (co_ID request) "")) ErrInvalid ;;;
  found <-- PostCommentByID (co_ID request) (co_ViewerKind request) (co_ViewerSession request) ;;
  ret {| cr_PostRef := found.1; cr_Comment := app_comment me found.2 |}.

Definition notification_limit (value : Z) : option Z :=
  let limit := if value =? 0 then 20 else value in
  if (limit <? 1) || (50 <? limit) then None else Some limit.

Definition Notifications (me : Identity) (request : NotificationListRequest) : M FDB Err NotificationListResult :=
  match notification_limit (nr_Limit request), time_cursor "human-notifications" (nr_Cursor request) with
  | Some limit, inr after =>
      page <-- HumanNotifications {| nq_Recipient := HumanLocalPrincipal; nq_UnreadOnly := nr_UnreadOnly request;
                                     nq_After := after; nq_Limit := limit |} ;;
      let '(items, next) := next_cursor "human-notifications" hn_CreatedAt hn_ID limit (np_Items page) in
      ret {| nl_Items := notification_item me <$> items; nl_NextCursor := next; nl_UnreadCount := np_UnreadCount page |}
  | _, _ => throw ErrInvalid
  end.
End Services.
