(* ===== verification/ForumSpec.v ===== *)
(** * What the forum promises

    The exact effect of publishing, commenting and rescoping, the invariant
    they keep (scope histories without gaps, one notification for each time the
    human is named, receipts that agree with what they confirm), how they act
    on Project Core, and who can come to see a closed post. *)

From Stdlib Require Import ZArith Lia Ascii.
From stdpp Require Import base gmap strings list sets sorting pretty.
From S2P Require Import Prelude GoText CoreDB ProjectCore Claims CoreSpec CoreRefine Forum.

Local Open Scope Z_scope.
Local Open Scope prog_scope.

(** ** Statements *)

Lemma fcheck_inv {A} ok (a : A) d b d' : fcheck ok a d = inr (b, d') -> ok = true /\ b = a /\ d' = d.
Proof. unfold fcheck. destruct ok; naive_solver. Qed.

Lemma on_core_inv {A} (st : Stmt DB A) d a d' :
  on_core st d = inr (a, d') -> exists c, st (f_core d) = inr (a, c) /\ d' = set_f_core c d.
Proof. unfold on_core. destruct (st (f_core d)) as [e|[b c]]; naive_solver. Qed.

Lemma insert_search_inv ref r d u d' :
  insert_search ref r d = inr (u, d') -> search_documents d !! ref = None /\ exists sds, d' = set_search_documents sds d.
Proof. intros H. unfold insert_search in H. apply constraint_inv in H as [H ->]. bool_inv. split; [by apply absent_true|eauto]. Qed.

Lemma present_inv {A} `{Countable K} (m : gmap K A) k : present m k = true -> is_Some (m !! k).
Proof. unfold present. apply bool_decide_eq_true. Qed.

(** Open a successful statement of the forum tables. *)
Ltac stmt_open :=
  repeat match goal with
  | H : fcheck _ _ _ = inr (_, _) |- _ => apply fcheck_inv in H as (? & ? & ?)
  | H : on_core _ _ = inr (_, _) |- _ => apply on_core_inv in H as (? & ? & ?)
  | H : absent _ _ = true |- _ => apply absent_inv in H
  | H : present _ _ = true |- _ => apply present_inv in H
  end.
Ltac stmt_inv :=
  unfold insert_post, insert_comment, insert_attachment, insert_state, insert_scope, insert_scope_event, insert_mention,
    insert_comment_mention, insert_notification, insert_receipt, insert_handle, upsert_session in *;
  stmt_open; bool_inv; stmt_open; subst.

Ltac worlds := repeat match goal with w : World FDB |- _ => destruct w; cbn [w_db w_tick] in * end; subst; cbn
  [f_core f_posts f_comments f_attachments f_states f_scopes f_scope_events f_mentions f_comment_mentions f_notifications
   f_receipts f_sessions f_handles set_f_core set_f_posts set_f_comments set_f_attachments set_f_states set_f_scopes
   set_f_scope_events set_f_mentions set_f_comment_mentions set_f_notifications set_f_receipts set_f_sessions set_f_handles] in *.

(** ** The effect of mentions *)

(** The row a principal gets at a position. *)
Definition mention_entry (created : Z) (i : nat) (p : string) : mention_row :=
  if seqb p HumanLocalPrincipal
  then {| mn_position := Z.of_nat i; mn_kind := "human"; mn_session := None; mn_created := created |}
  else {| mn_position := Z.of_nat i; mn_kind := "agent"; mn_session := Some p; mn_created := created |}.

Fixpoint add_mentions (kind source : string) (created : Z) (i : nat) (l : list string)
    (m : gmap (string * string * string) mention_row) : gmap (string * string * string) mention_row :=
  match l with
  | [] => m
  | p :: l' => add_mentions kind source created (S i) l' (<[(kind, source, p) := mention_entry created i p]> m)
  end.

Definition notification_of (kind source post actorKind actor session body : string) (created : Z) : notification_row :=
  {| nt_recipient := HumanLocalPrincipal; nt_source := kind; nt_post := post;
     nt_comment := if seqb kind "comment" then Some source else None;
     nt_actor_kind := actorKind; nt_actor := actor; nt_session := session;
     nt_snippet := boundedUTF8 (TrimSpace body) 320; nt_created := created; nt_read := None |}.

(** The human is notified once if and only if named. *)
Inductive notified (n : notification_row) (l : list string) (m m' : gmap string notification_row) : Prop :=
  | notified_no : HumanLocalPrincipal ∉ l -> m' = m -> notified n l m m'
  | notified_once id :
      HumanLocalPrincipal ∈ l -> m !! id = None -> map_Forall (fun _ o => ~ same_source o n) m -> m' = <[id:=n]> m ->
      notified n l m m'.

Definition with_mentions_of (ns : gmap string notification_row) cms ms (d : FDB) : FDB :=
  set_f_notifications ns (set_f_comment_mentions cms (set_f_mentions ms d)).

Definition target_for (p : string) (t : MentionTarget) : Prop :=
  p = HumanLocalPrincipal /\ mt_Kind t = "human" /\ mt_SessionID t = ""
  \/ p <> HumanLocalPrincipal /\ mt_Kind t = "agent" /\ mt_SessionID t = p.

Lemma resolve_inv p env w t w1 :
  resolveMentionTarget p env w = (inr t, w1) ->
  w_db w1 = w_db w /\ mt_Principal t = p /\
  target_for p t.
Proof.
  unfold resolveMentionTarget, target_for. destruct (seqb p HumanLocalPrincipal) eqn:E1; bool_inv.
  { intros H. m_inv. naive_solver. }
  destruct (seqb p HumanLegacySession) eqn:E2; intros H; m_inv.
  destruct r as [[]|[h pu]]; m_inv. naive_solver.
Qed.

Lemma entry_of_target d kind source created i t p :
  target_for p t ->
  let row := {| mn_position := Z.of_nat i; mn_kind := mt_Kind t; mn_session := nullif_empty (mt_SessionID t); mn_created := created |} in
  mention_ok d kind source p row = true -> mention_entry created i p = row.
Proof.
  intros [(-> & -> & ->)|(Hp & -> & ->)]; [done|]. unfold mention_entry.
  destruct (seqb p HumanLocalPrincipal) eqn:E; bool_inv; [done|]. unfold mention_ok, nullif_empty. simpl.
  destruct (seqb p "") eqn:E0; [|done]. bool_inv. subst. simpl. intros H. bool_inv. done.
Qed.

Lemma comment_mention_inv (b : bool) comment session r env w u w1 :
  (if b then mapped (exec (insert_comment_mention comment session r)) else ret tt) env w = (inr u, w1) ->
  exists cms, w_db w1 = set_f_comment_mentions cms (w_db w) /\ f_comment_mentions (w_db w) ⊆ cms.
Proof.
  destruct b; intros H; m_inv.
  - stmt_inv. eexists. split; [eassumption|by apply insert_subseteq].
  - exists (f_comment_mentions (w_db w1)). split; [by destruct (w_db w1)|done].
Qed.

Lemma notification_inv t row env w u w1 :
  target_for (mt_Principal t) t -> nt_recipient row = mt_Principal t ->
  (if seqb (mt_Kind t) "human" then id <-- newID "N-" ;; mapped (exec (insert_notification id row)) else ret tt) env w = (inr u, w1) ->
  exists ns, w_db w1 = set_f_notifications ns (w_db w) /\ notified row [mt_Principal t] (f_notifications (w_db w)) ns.
Proof.
  intros [(Hh & -> & _)|(Hh & -> & _)] Hrow; simpl; intros H; m_inv.
  - stmt_inv.
    match goal with H : w_db w0 = w_db w |- _ => rewrite H in * end.
    eexists. split; [eassumption|]. eapply notified_once; [by rewrite Hh; left|done..].
  - exists (f_notifications (w_db w1)). split; [by destruct (w_db w1)|]. apply notified_no; [|done].
    by rewrite list_elem_of_singleton.
Qed.

Lemma one_mention_inv kind source post ak actor session body created i p env w u w1 :
  insert_one_mention kind source post ak actor session body created (i, p) env w = (inr u, w1) ->
  f_mentions (w_db w) !! (kind, source, p) = None /\
  mention_ok (w_db w) kind source p (mention_entry created i p) = true /\
  exists ns cms,
    w_db w1 = with_mentions_of ns cms (<[(kind, source, p) := mention_entry created i p]> (f_mentions (w_db w))) (w_db w) /\
    f_comment_mentions (w_db w) ⊆ cms /\
    notified (notification_of kind source post ak actor session body created) [p] (f_notifications (w_db w)) ns.
Proof.
  unfold insert_one_mention. simpl. intros H. m_inv1.
  apply resolve_inv in Hrun as (Hd & Hp & Hkind). m_inv. stmt_inv.
  rewrite Hd in *.
  apply comment_mention_inv in Hrun0 as (cms & Hw3 & Hcms).
  apply notification_inv in H as (ns & Hw1 & Hns); [|done|done].
  match goal with H : mention_ok _ _ _ _ _ = true |- _ => rewrite (entry_of_target _ _ _ _ _ _ _ Hkind H) end.
  split_and!; [done|done|]. exists ns, cms.
  match goal with H : w_db w2 = _ |- _ => rewrite H in * end. rewrite Hw3 in *. simpl in *.
  split_and!; [done|done|].
  destruct Hns as [Hno ->|nid Hin ? ? ->]; [by apply notified_no|].
  apply list_elem_of_singleton in Hin. rewrite <- Hin in *. by eapply notified_once; [left|..].
Qed.

Lemma notified_app n l l' m m1 m' :
  notified n l m m1 -> notified n l' m1 m' -> notified n (l ++ l') m m'.
Proof.
  intros [Hno ->|i Hin Hf Hs ->] [Hno' ->|j Hin' Hf' Hs' ->].
  - apply notified_no; [|done]. rewrite elem_of_app. tauto.
  - eapply notified_once; eauto. rewrite elem_of_app. auto.
  - eapply notified_once; eauto. rewrite elem_of_app. auto.
  - exfalso. apply (Hs' i n); [by rewrite lookup_insert_eq|done].
Qed.

(** What a successful call left behind. *)
Lemma mentions_inv_from kind source post ak actor session body created l i env w u w1 :
  forM_ (imap (fun k p => ((i + k)%nat, p)) l) (insert_one_mention kind source post ak actor session body created) env w = (inr u, w1) ->
  NoDup l /\ Forall (fun p => f_mentions (w_db w) !! (kind, source, p) = None) l /\
  (l = [] \/ exists p e, mention_ok (w_db w) kind source p e = true) /\
  exists ns cms,
    w_db w1 = with_mentions_of ns cms (add_mentions kind source created i l (f_mentions (w_db w))) (w_db w) /\
    f_comment_mentions (w_db w) ⊆ cms /\
    notified (notification_of kind source post ak actor session body created) l (f_notifications (w_db w)) ns.
Proof.
  induction l as [|p l IH] in i, w |- *; simpl; intros H.
  { m_inv. split_and!; [constructor|constructor|by left|].
    exists (f_notifications (w_db w1)), (f_comment_mentions (w_db w1)).
    split; [by destruct (w_db w1)|]. split; [done|]. apply notified_no; [set_solver|done]. }
  m_inv. rewrite Nat.add_0_r in Hrun. apply one_mention_inv in Hrun as (Hnew & Hok & ns & cms & Hw0 & Hcms & Hns).
  rewrite (imap_ext _ (fun k p => ((S i + k)%nat, p))) in H by (intros; simpl; f_equal; lia).
  apply IH in H as (Hnd & Hfree & _ & ns' & cms' & Hw1 & Hcms' & Hns').
  rewrite Hw0 in *. unfold with_mentions_of in *. simpl in *. rewrite Forall_forall in Hfree.
  split_and!.
  - constructor; [|done]. intros Hin. specialize (Hfree _ Hin). by rewrite lookup_insert_eq in Hfree.
  - constructor; [done|]. apply Forall_forall. intros q Hq. specialize (Hfree q Hq).
    apply lookup_insert_None in Hfree. tauto.
  - eauto.
  - exists ns', cms'. split_and!; [done|by etrans|]. by apply (notified_app _ [p] l _ ns).
Qed.

Lemma mentions_inv kind source post ak actor session body created l env w u w1 :
  insertContentMentions kind source post ak actor session body created l env w = (inr u, w1) ->
  NoDup l /\ Forall (fun p => f_mentions (w_db w) !! (kind, source, p) = None) l /\
  exists ns cms,
    w_db w1 = with_mentions_of ns cms (add_mentions kind source created 0 l (f_mentions (w_db w))) (w_db w) /\
    f_comment_mentions (w_db w) ⊆ cms /\
    notified (notification_of kind source post (if seqb ak "" then "agent" else ak) (if seqb actor "" then session else actor)
                session body created) l (f_notifications (w_db w)) ns.
Proof.
  unfold insertContentMentions. intros H. cbv zeta in H.
  rewrite (imap_ext _ (fun k p => ((0 + k)%nat, p))) in H by done.
  apply mentions_inv_from in H as (? & ? & _ & ?). auto.
Qed.

(** ** The effect of attachments *)

Fixpoint add_attachments (post : string) (i : nat) (l : list PostAttachment) (m : gmap (string * Z) PostAttachment) :=
  match l with
  | [] => m
  | a :: l' => add_attachments post (S i) l' (<[(post, Z.of_nat i) := a]> m)
  end.

Lemma add_attachments_lookup post l i m key a :
  add_attachments post i l m !! key = Some a <->
  (exists j, l !! j = Some a /\ key = (post, Z.of_nat (i + j))) \/
  m !! key = Some a /\ forall j, (j < length l)%nat -> key <> (post, Z.of_nat (i + j)).
Proof.
  induction l as [|x l IH] in i, m |- *; simpl.
  { split; [intros; right; split; [done|lia]|]. intros [(j & Hj & _)|[? _]]; [by destruct j|done]. }
  rewrite IH, lookup_insert_Some. split.
  - intros [(j & Hj & ->)|[[[<- <-]|[Hne Hm]] Hkey]].
    + left. exists (S j). split; [done|]. do 2 f_equal. lia.
    + left. exists 0%nat. by rewrite Nat.add_0_r.
    + right. split; [done|]. intros [|j] Hj; [by rewrite Nat.add_0_r|]. rewrite <- Nat.add_succ_comm. apply Hkey. lia.
  - intros [([|j] & Hj & ->)|[Hm Hkey]].
    + right. simpl in Hj. rewrite Nat.add_0_r. split; [naive_solver|]. intros j _ [=]. lia.
    + left. exists j. split; [done|]. do 2 f_equal. lia.
    + right. split.
      * right. split; [|done]. specialize (Hkey 0%nat). rewrite Nat.add_0_r in Hkey. intros E. apply Hkey; [lia|done].
      * intros j Hj. rewrite Nat.add_succ_comm. apply Hkey. lia.
Qed.

Lemma attachments_inv post l i env w u w1 :
  forM_ (imap (fun k a => ((i + k)%nat, a)) l) (fun item => mapped (exec (insert_attachment post (Z.of_nat item.1) item.2))) env w
    = (inr u, w1) ->
  (l = [] \/ (i + length l <= 8)%nat) /\ f_attachments (w_db w) ⊆ add_attachments post i l (f_attachments (w_db w)) /\
  w_db w1 = set_f_attachments (add_attachments post i l (f_attachments (w_db w))) (w_db w).
Proof.
  induction l as [|a l IH] in i, w |- *; simpl; intros H.
  { m_inv. split; [by left|split; [done|by destruct (w_db w1)]]. }
  m_inv. rewrite Nat.add_0_r in Hst. stmt_inv.
  rewrite (imap_ext _ (fun k p => ((S i + k)%nat, p))) in H by (intros; simpl; f_equal; lia).
  apply IH in H as (Hl & Hsub & Hw1). match goal with H : w_db w0 = _ |- _ => rewrite H in * end. simpl in *.
  split; [right; destruct Hl as [->|]; simpl; lia|]. split; [|done].
  etrans; [by apply insert_subseteq|exact Hsub].
Qed.

(** ** The effect of the two inserts *)

Definition closed_scope (created : Z) : scope_row := {| sc_scope := "closed"; sc_revision := 0; sc_event := None; sc_updated := created |}.

Definition post_of (req : PostRequest) (key : string) (project : option string) (created : Z) (rev : option Z) : post_row :=
  {| p_topic := pq_TopicID req; p_proj := project; p_rev := rev; p_kind := pq_Kind req; p_title := pq_Title req;
     p_body := pq_Body req; p_basis := pq_Basis req; p_ref := pq_Ref req; p_session := pq_SessionID req;
     p_request := nullif_empty key; p_at := created |}.

Definition comment_of (req : CommentRequest) (key : string) (project : option string) (created : Z) (rev : option Z) : comment_row :=
  {| cm_post := cq_PostID req; cm_project := project; cm_revision := rev; cm_body := cq_Body req; cm_intent := cq_Intent req;
     cm_session := cq_SessionID req; cm_request := nullif_empty key; cm_created := created |}.

Definition posted (id : string) (row : post_row) (l : list PostAttachment) sds (d : FDB) : FDB :=
  set_f_attachments (add_attachments id 0 l (f_attachments d))
    (set_f_core (set_search_documents sds (f_core d))
      (set_f_scopes (<[id:=closed_scope (p_at row)]> (f_scopes d)) (set_f_posts (<[id:=row]> (f_posts d)) d))).

Lemma post_insert_inv req id key project created rev env w u w1 :
  post_insert req id key project created rev env w = (inr u, w1) ->
  let d := w_db w in let row := post_of req key project created rev in
  f_posts d !! id = None /\ f_scopes d !! id = None /\ (length (pq_Attachments req) <= 8)%nat /\
  f_attachments d ⊆ add_attachments id 0 (pq_Attachments req) (f_attachments d) /\
  request_free p_request (f_posts d) (nullif_empty key) = true /\
  NoDup (pq_MentionPrincipals req) /\ Forall (fun p => f_mentions d !! ("post", id, p) = None) (pq_MentionPrincipals req) /\
  exists sds ns cms actorKind actor,
    w_db w1 = with_mentions_of ns cms (add_mentions "post" id created 0 (pq_MentionPrincipals req) (f_mentions d))
                (posted id row (pq_Attachments req) sds d) /\
    f_comment_mentions d ⊆ cms /\
    notified (notification_of "post" id id actorKind actor (pq_SessionID req) (pq_Body req) created)
      (pq_MentionPrincipals req) (f_notifications d) ns.
Proof.
  intros H d row. unfold post_insert, call_core in H. m_inv.
  stmt_inv.
  match goal with H : insert_search _ _ _ = _ |- _ => apply insert_search_inv in H as (_ & sds & ->) end.
  rewrite (imap_ext _ (fun k p => ((0 + k)%nat, p))) in Hrun2 by done.
  apply attachments_inv in Hrun2 as (Hlen & Hsub & Hw). apply mentions_inv in H as (Hnd & Hfree & ns & cms & Hw1 & Hcms & Hns).
  subst d row. worlds.
  split_and!; try done.
  { destruct Hlen as [->|]; simpl; lia. }
  do 5 eexists. split; [reflexivity|]. split; [done|exact Hns].
Qed.

Lemma comment_insert_inv req id key project created rev env w u w1 :
  comment_insert req id key project created rev env w = (inr u, w1) ->
  let d := w_db w in
  f_comments d !! id = None /\ is_Some (f_posts d !! cq_PostID req) /\
  request_free cm_request (f_comments d) (nullif_empty key) = true /\
  NoDup (cq_MentionPrincipals req) /\ Forall (fun p => f_mentions d !! ("comment", id, p) = None) (cq_MentionPrincipals req) /\
  exists ns cms actorKind actor,
    w_db w1 = with_mentions_of ns cms (add_mentions "comment" id created 0 (cq_MentionPrincipals req) (f_mentions d))
                (set_f_comments (<[id:=comment_of req key project created rev]> (f_comments d)) d) /\
    f_comment_mentions d ⊆ cms /\
    notified (notification_of "comment" id (cq_PostID req) actorKind actor (cq_SessionID req) (cq_Body req) created)
      (cq_MentionPrincipals req) (f_notifications d) ns.
Proof.
  intros H d. unfold comment_insert in H. m_inv. stmt_inv.
  apply mentions_inv in H as (Hnd & Hfree & ns & cms & Hw1 & Hcms & Hns). subst d. worlds.
  split_and!; try done. do 4 eexists. split; [reflexivity|]. split; [done|exact Hns].
Qed.

(** ** Writes in a project *)

(** A write of a project happens between the step of its revision and the
    entry in its log. *)
Lemma mutate_core_inv pid kind ref summary fn env w rev w1 :
  mutateTx_in call_core pid kind ref summary fn env w = (inr (TxCommit rev), w1) ->
  exists r t t' wa wb,
    projects (f_core (w_db w)) !! pid = Some r /\ rev = p_revision r + 1 /\ rev <= maxInt64 /\
    w_db wa = set_f_core (set_projects (<[pid:=bumped r t]> (projects (f_core (w_db w)))) (f_core (w_db w))) (w_db w) /\
    fn rev env wa = (inr tt, wb) /\
    changes (f_core (w_db wb)) !! (pid, rev) = None /\
    w_db w1 = set_f_core (set_changes (<[(pid, rev):={| ch_kind := kind; ch_ref := ref; ch_summary := summary; ch_created := t' |}]>
                 (changes (f_core (w_db wb)))) (f_core (w_db wb))) (w_db wb).
Proof.
  unfold mutateTx_in, call_core. intros H. m_inv. stmt_inv.
  match goal with H : bump_project_rows _ _ _ = _ |- _ => apply bump_project_rows_inv in H as (r' & Hr' & Hmax & ->) end.
  match goal with H : query _ _ = _ |- _ => apply query_inr_inv in H as [Hq ->] end.
  match goal with H : insert_change _ _ _ _ = _ |- _ => apply insert_tables_inv_change in H as [Hfree ->] end.
  apply select_inv in Hq. worlds. cbn in Hq. rewrite lookup_insert_eq in Hq. injection Hq as <-. simpl in *.
  repeat match goal with x : unit |- _ => destruct x end.
  do 5 eexists. split_and!; [eassumption|done|done|idtac|eassumption|done|reflexivity]. reflexivity.
Qed.

(** ** Acting on Project Core *)

(** A forum write is a step of Project Core, or only touches the search index
    or adds a topic. *)
Definition forum_core (c c' : DB) : Prop :=
  core_step c c' \/ (exists sds, c' = set_search_documents sds c)
  \/ (exists id t, topics c !! id = None /\ c' = set_topics (<[id:=t]> (topics c)) c).

Lemma logged_core_step c pid r t ch sds :
  projects c !! pid = Some r -> p_revision r + 1 <= maxInt64 -> changes c !! (pid, p_revision r + 1) = None ->
  core_step c (set_changes (<[(pid, p_revision r + 1):=ch]> (changes c))
                 (set_search_documents sds (set_projects (<[pid:=bumped r t]> (projects c)) c))).
Proof. intros. step_tac. Qed.

(** ** Mentions and notifications *)

Definition names (kind source : string) (n : notification_row) : Prop :=
  nt_source n = kind /\
  if seqb kind "comment" then nt_comment n = Some source else nt_comment n = None /\ nt_post n = source.

(** A source's mentions are a list of distinct principals in order. *)
Record mention_inv (d : FDB) : Prop := {
  mi_source : forall kind source p r, f_mentions d !! (kind, source, p) = Some r ->
    kind = "post" /\ is_Some (f_posts d !! source) \/ kind = "comment" /\ is_Some (f_comments d !! source);
  mi_list : forall kind source, exists l created, NoDup l /\
    forall p r, f_mentions d !! (kind, source, p) = Some r <-> exists i, l !! i = Some p /\ r = mention_entry created i p;
  mi_notified : forall kind source, is_Some (f_mentions d !! (kind, source, HumanLocalPrincipal)) <->
    exists id n, f_notifications d !! id = Some n /\ names kind source n;
  mi_unique : forall i j a b, f_notifications d !! i = Some a -> f_notifications d !! j = Some b -> same_source a b -> i = j;
  mi_comment : forall id n c, f_notifications d !! id = Some n -> nt_comment n = Some c ->
    exists row, f_comments d !! c = Some row /\ cm_post row = nt_post n;
  mi_recipient : forall id n, f_notifications d !! id = Some n -> nt_recipient n = HumanLocalPrincipal;
}.

Lemma add_mentions_lookup kind source created l i m key r :
  NoDup l ->
  add_mentions kind source created i l m !! key = Some r <->
  (exists j p, l !! j = Some p /\ key = (kind, source, p) /\ r = mention_entry created (i + j) p) \/
  m !! key = Some r /\ forall p, p ∈ l -> key <> (kind, source, p).
Proof.
  intros Hnd. induction l as [|p l IH] in i, m, Hnd |- *; simpl.
  { split; [|intros [(j & q & Hq & _)|[? _]]; [by destruct j|done]].
    intros Hm. right. split; [done|]. intros q Hq. inversion Hq. }
  inversion Hnd as [|? ? Hp Hnd']; subst. rewrite IH by done. split.
  - intros [(j & q & Hq & -> & ->)|[Hm Hkey]].
    + left. exists (S j), q. split_and!; [done|done|]. f_equal. lia.
    + apply lookup_insert_Some in Hm as [[<- <-]|[Hne Hm]].
      * left. exists 0%nat, p. by rewrite Nat.add_0_r.
      * right. split; [done|]. intros q [->|Hq]%elem_of_cons; [congruence|by apply Hkey].
  - intros [(j & q & Hq & -> & ->)|[Hm Hkey]].
    + destruct j as [|j]; simpl in Hq.
      * injection Hq as <-. right. rewrite lookup_insert_eq, Nat.add_0_r. split; [done|]. intros q Hin [=]. by subst.
      * left. exists j, q. split_and!; [done|done|]. f_equal. lia.
    + right. rewrite lookup_insert_ne by (intros E; apply (Hkey p); [left|done]).
      split; [done|]. intros q Hq. apply Hkey. by right.
Qed.

Lemma add_mentions_other kind source created l i m key :
  NoDup l -> key.1 <> (kind, source) -> add_mentions kind source created i l m !! key = m !! key.
Proof.
  intros Hnd Hne. apply option_eq. intros r. rewrite add_mentions_lookup by done. split.
  - intros [(j & p & _ & -> & _)|[? _]]; [by simpl in Hne|done].
  - intros ?. right. split; [done|]. intros p _ ->. by simpl in Hne.
Qed.

Lemma same_source_sym a b : same_source a b -> same_source b a.
Proof. unfold same_source. naive_solver. Qed.

(** Adding a source with its mentions keeps the invariant. *)
Lemma mention_inv_add d d1 kind source post ak actor session body created l ns cms :
  mention_inv d -> NoDup l ->
  f_mentions d1 = f_mentions d -> f_notifications d1 = f_notifications d -> f_posts d ⊆ f_posts d1 -> f_comments d ⊆ f_comments d1 ->
  (forall p, f_mentions d !! (kind, source, p) = None) ->
  (kind = "post" /\ post = source /\ is_Some (f_posts d1 !! source)
   \/ kind = "comment" /\ exists row, f_comments d1 !! source = Some row /\ cm_post row = post) ->
  notified (notification_of kind source post ak actor session body created) l (f_notifications d) ns ->
  mention_inv (with_mentions_of ns cms (add_mentions kind source created 0 l (f_mentions d)) d1).
Proof.
  intros [Hsrc Hlist Hntf Huniq Hcom Hrec] Hnd Hm Hn Hposts Hcomments Hfresh Hkind Hns.
  assert (Hnew : forall k s, names k s (notification_of kind source post ak actor session body created) <-> k = kind /\ s = source).
  { intros k s. unfold names, notification_of. simpl.
    destruct Hkind as [(-> & -> & _)|(-> & _)]; simpl; (split; [intros [<- H2]; simpl in H2; naive_solver|intros [-> ->]; simpl; auto]). }
  assert (Hlook : forall p r, add_mentions kind source created 0 l (f_mentions d) !! (kind, source, p) = Some r <->
            exists i, l !! i = Some p /\ r = mention_entry created i p).
  { intros p r. rewrite add_mentions_lookup by done. rewrite Hfresh. split; [intros [(j & q & ? & [= <-] & ->)|[? _]]; eauto; done|].
    intros (i & Hi & ->). left. eauto. }
  split; unfold with_mentions_of; worlds; simpl.
  - intros k s p r Hr. destruct (decide ((k, s) = (kind, source))) as [[= -> ->]|Hne].
    + destruct Hkind as [(-> & -> & ?)|(-> & row & ? & ?)]; [left; done|right; eauto].
    + rewrite add_mentions_other in Hr by done. destruct (Hsrc _ _ _ _ Hr) as [[-> [x Hx]]|[-> [x Hx]]]; [left|right];
        (split; [done|]); eauto using lookup_weaken.
  - intros k s. destruct (decide ((k, s) = (kind, source))) as [[= -> ->]|Hne]; [eauto|].
    destruct (Hlist k s) as (l0 & c0 & ? & Hl0). exists l0, c0. split; [done|]. intros p r.
    rewrite add_mentions_other by done. apply Hl0.
  - intros k s. destruct Hns as [Hno ->|id Hin Hid Hfor ->].
    + rewrite <- Hntf. destruct (decide ((k, s) = (kind, source))) as [[= -> ->]|Hne]; [|by rewrite add_mentions_other].
      rewrite Hfresh. split; [|by intros [? ?]]. intros [r Hr]. apply Hlook in Hr as (i & Hi & _).
      exfalso. by apply Hno, (list_elem_of_lookup_2 _ i).
    + destruct (decide ((k, s) = (kind, source))) as [[= -> ->]|Hne].
      * split; intros _; [exists id; eexists; rewrite lookup_insert_eq; split; [done|by apply Hnew]|].
        apply list_elem_of_lookup in Hin as [i Hi]. eexists. apply Hlook. eauto.
      * rewrite add_mentions_other by done. rewrite Hntf. split; intros (j & n & Hj & Hnm); exists j, n.
        -- split; [|done]. rewrite lookup_insert_ne; [done|congruence].
        -- split; [|done]. apply lookup_insert_Some in Hj as [[<- <-]|[_ Hj]]; [|done]. exfalso. apply Hne.
           apply Hnew in Hnm as [-> ->]. done.
  - intros i j a b Hi Hj Hab. destruct Hns as [Hno ->|id Hin Hid Hfor ->]; [eauto|].
    apply lookup_insert_Some in Hi as [[<- <-]|[? Hi]]; apply lookup_insert_Some in Hj as [[<- <-]|[? Hj]]; [done|..|eauto].
    + exfalso. by apply (Hfor _ _ Hj), same_source_sym.
    + exfalso. by apply (Hfor _ _ Hi).
  - intros i n c Hi Hc. destruct Hns as [Hno ->|id Hin Hid Hfor ->].
    + destruct (Hcom _ _ _ Hi Hc) as (row & ? & ?). eauto using lookup_weaken.
    + apply lookup_insert_Some in Hi as [[<- <-]|[? Hi]].
      * simpl in Hc. destruct Hkind as [(-> & _)|(-> & row & ? & ?)]; simpl in Hc; [done|]. injection Hc as <-. eauto.
      * destruct (Hcom _ _ _ Hi Hc) as (row & ? & ?). eauto using lookup_weaken.
  - intros i n Hi. destruct Hns as [Hno ->|id Hin Hid Hfor ->]; [eauto|].
    apply lookup_insert_Some in Hi as [[<- <-]|[? Hi]]; [done|eauto].
Qed.

(** ** Scopes and their history *)

Definition scope_event_at (d : FDB) (post : string) (k : Z) (id : string) (e : scope_event_row) : Prop :=
  f_scope_events d !! id = Some e /\ se_post e = post /\ se_revision e = k.

(** The events of a post are numbered from one to its revision, and the last
    of them is its scope. *)
Record scope_history (d : FDB) (post : string) (s : scope_row) : Prop := {
  sh_gapless : forall k, (exists id e, scope_event_at d post k id e) <-> 1 <= k <= sc_revision s;
  sh_range : 0 <= sc_revision s;
  sh_first : sc_revision s = 0 -> sc_scope s = "closed" /\ sc_event s = None;
  sh_last : 0 < sc_revision s -> exists id e, scope_event_at d post (sc_revision s) id e /\ sc_event s = Some id /\ se_scope e = sc_scope s;
}.

Record scope_inv (d : FDB) : Prop := {
  si_posts : forall id, is_Some (f_scopes d !! id) <-> is_Some (f_posts d !! id);
  si_events : forall id e, f_scope_events d !! id = Some e -> is_Some (f_posts d !! se_post e);
  si_history : forall post s, f_scopes d !! post = Some s -> scope_history d post s;
  si_project : forall post s p, f_scopes d !! post = Some s -> f_posts d !! post = Some p -> sc_scope s = "project" -> p_proj p <> None;
}.

Lemma scope_inv_frame d d' :
  f_scopes d' = f_scopes d -> f_posts d' = f_posts d -> f_scope_events d' = f_scope_events d -> scope_inv d -> scope_inv d'.
Proof.
  intros Hs Hp He [H1 H2 H3 H4]. split; rewrite ?Hs, ?Hp, ?He; [done|done| |done].
  intros post s Hpost. destruct (H3 _ _ Hpost). split; unfold scope_event_at in *; rewrite ?He; done.
Qed.

Lemma scope_inv_post d d' id row created :
  f_posts d !! id = None -> f_scopes d' = <[id:=closed_scope created]> (f_scopes d) -> f_posts d' = <[id:=row]> (f_posts d) ->
  f_scope_events d' = f_scope_events d -> scope_inv d -> scope_inv d'.
Proof.
  intros Hnew Hs Hp He [H1 H2 H3 H4]. split.
  - intros j. rewrite Hs, Hp. destruct (decide (j = id)) as [->|]; [by rewrite !lookup_insert_eq|].
    by rewrite !lookup_insert_ne.
  - intros j e Hj. rewrite He in Hj. rewrite Hp. destruct (H2 _ _ Hj) as [x Hx].
    rewrite lookup_insert_ne by (intros ->; congruence). eauto.
  - intros post s Hpost. rewrite Hs in Hpost. unfold scope_event_at in *.
    apply lookup_insert_Some in Hpost as [[<- <-]|[Hne Hpost]].
    + split; unfold scope_event_at; simpl; rewrite ?He; [|lia|done|lia]. intros k. split; [|lia].
      intros (j & e & Hj & Hpo & _). destruct (H2 _ _ Hj). rewrite Hpo in *. congruence.
    + destruct (H3 _ _ Hpost). split; unfold scope_event_at in *; rewrite ?He; done.
  - intros post s p. rewrite Hs, Hp. intros [[<- <-]|[Hne Hpost]]%lookup_insert_Some; [done|].
    rewrite lookup_insert_ne by done. eauto.
Qed.

(** The next event of a post. *)
Lemma scope_inv_event d d' post s p id e t :
  f_scopes d !! post = Some s -> f_posts d !! post = Some p -> f_scope_events d !! id = None ->
  se_post e = post -> se_revision e = sc_revision s + 1 -> (se_scope e = "project" -> p_proj p <> None) ->
  f_scopes d' = <[post:={| sc_scope := se_scope e; sc_revision := sc_revision s + 1; sc_event := Some id; sc_updated := t |}]> (f_scopes d) ->
  f_posts d' = f_posts d -> f_scope_events d' = <[id:=e]> (f_scope_events d) -> scope_inv d -> scope_inv d'.
Proof.
  intros Hpost Hp Hid Hse Hrev Hproj Hs' Hp' He' [H1 H2 H3 H4]. pose proof (H3 _ _ Hpost) as Hh.
  assert (Hold : forall j x, f_scope_events d' !! j = Some x <-> j = id /\ x = e \/ f_scope_events d !! j = Some x).
  { intros j x. rewrite He', lookup_insert_Some. split; [naive_solver|]. intros [[-> ->]|Hj]; [by left|right].
    split; [congruence|done]. }
  split.
  - intros j. rewrite Hs', Hp'. destruct (decide (j = post)) as [->|]; [|by rewrite lookup_insert_ne].
    rewrite lookup_insert_eq, Hp. by split; intros _; eauto.
  - intros j x [[-> ->]|Hj]%Hold; rewrite Hp'; [rewrite Hse|]; eauto.
  - intros q s' Hq. rewrite Hs' in Hq. apply lookup_insert_Some in Hq as [[<- <-]|[Hne Hq]].
    + destruct Hh as [Hg Hr Hf Hl]. split; simpl; unfold scope_event_at in *; [|lia|lia|].
      * intros k. split.
        -- intros (j & x & Hj & Hjp & Hjr). apply Hold in Hj as [[-> ->]|Hj]; [lia|].
           assert (1 <= k <= sc_revision s) by (apply Hg; eauto). lia.
        -- intros Hk. destruct (decide (k = sc_revision s + 1)) as [->|]; [exists id, e; rewrite Hold; auto|].
           destruct (proj2 (Hg k)) as (j & x & ? & ? & ?); [lia|]. exists j, x. rewrite Hold. auto.
      * intros _. exists id, e. rewrite Hold. auto.
    + destruct (H3 _ _ Hq) as [Hg Hr Hf Hl]. split; unfold scope_event_at in *; [|done|done|].
      * intros k. rewrite <- Hg. split; intros (j & x & Hj & ? & ?); exists j, x; (split; [|done]);
          [apply Hold in Hj as [[-> ->]|]; [congruence|done]|apply Hold; auto].
      * intros Hpos. destruct (Hl Hpos) as (j & x & (? & ? & ?) & ? & ?). exists j, x. rewrite Hold. auto 6.
  - intros q s' p' Hq. rewrite Hp'. rewrite Hs' in Hq. apply lookup_insert_Some in Hq as [[<- <-]|[Hne Hq]]; [|eauto].
    rewrite Hp. intros [= <-]. exact Hproj.
Qed.

(** ** Receipts *)

(** A notification is read exactly when a receipt says so, at the time they
    all say. *)
Record receipt_inv (d : FDB) : Prop := {
  ri_known : forall id r, f_receipts d !! id = Some r -> is_Some (f_notifications d !! rc_notification r);
  ri_read : forall id n, f_notifications d !! id = Some n ->
    (nt_read n <> None -> exists j r, f_receipts d !! j = Some r /\ rc_notification r = id) /\
    (forall j r, f_receipts d !! j = Some r -> rc_notification r = id -> rc_read r = nt_read n /\ nt_read n <> None);
}.

Lemma receipt_inv_frame d d' :
  f_receipts d' = f_receipts d -> f_notifications d' = f_notifications d -> receipt_inv d -> receipt_inv d'.
Proof. intros Hr Hn [H1 H2]. split; rewrite ?Hr, ?Hn; done. Qed.

Lemma receipt_inv_notified d d' n l :
  f_receipts d' = f_receipts d -> nt_read n = None -> notified n l (f_notifications d) (f_notifications d') ->
  receipt_inv d -> receipt_inv d'.
Proof.
  intros Hr Hn [Hno He|i Hin Hi Hfor He] [H1 H2]; [by apply (receipt_inv_frame d)|]. split; rewrite Hr, He.
  - intros j r Hj. destruct (H1 _ _ Hj). rewrite lookup_insert_is_Some. destruct (decide (i = rc_notification r)); eauto.
  - intros j m [[<- <-]|[Hne Hj]]%lookup_insert_Some; [|eauto]. split; [congruence|].
    intros k r Hk Hrc. destruct (H1 _ _ Hk). congruence.
Qed.

(** ** The project log *)

Definition logged_at (c : DB) (kind ref : string) (project : option string) (rev : option Z) : Prop :=
  match project, rev with
  | None, None => True
  | Some pid, Some k => exists ch, changes c !! (pid, k) = Some ch /\ ch_kind ch = kind /\ ch_ref ch = ref
  | _, _ => False
  end.

(** What belongs to a project is in the project's log, at its revision. *)
Record log_of (d : FDB) : Prop := {
  lo_posts : forall id p, f_posts d !! id = Some p -> logged_at (f_core d) "post" id (p_proj p) (p_rev p);
  lo_comments : forall id c, f_comments d !! id = Some c -> logged_at (f_core d) "comment" id (cm_project c) (cm_revision c);
  lo_states : forall r, r ∈ f_states d -> logged_at (f_core d) "post_state" (pe_post r) (pe_project r) (pe_revision r);
}.

Lemma logged_at_mono c c' kind ref project rev :
  changes c ⊆ changes c' -> logged_at c kind ref project rev -> logged_at c' kind ref project rev.
Proof. unfold logged_at. destruct project, rev; try done. intros Hs (ch & ? & ?). eauto using lookup_weaken. Qed.

Lemma log_of_mono d c : changes (f_core d) ⊆ changes c -> log_of d -> log_of (set_f_core c d).
Proof. intros Hs [H1 H2 H3]. split; worlds; eauto using logged_at_mono. Qed.

(** ** The invariant and the steps *)

Record forum_inv (d : FDB) : Prop := {
  fo_mentions : mention_inv d;
  fo_scopes : scope_inv d;
  fo_receipts : receipt_inv d;
  fo_log : log_of d;
  fo_attachments : forall post i a, f_attachments d !! (post, i) = Some a -> is_Some (f_posts d !! post);
  fo_post_keys : forall i j a b k, f_posts d !! i = Some a -> f_posts d !! j = Some b -> p_request a = Some k -> p_request b = Some k -> i = j;
}.

(** What other requests may have read stays: rows are only added, and a
    notification only becomes read. *)
Record forum_grows (d d' : FDB) : Prop := {
  fg_posts : f_posts d ⊆ f_posts d';
  fg_comments : f_comments d ⊆ f_comments d';
  fg_attachments : f_attachments d ⊆ f_attachments d';
  fg_states : f_states d `prefix_of` f_states d';
  fg_events : f_scope_events d ⊆ f_scope_events d';
  fg_mentions : f_mentions d ⊆ f_mentions d';
  fg_comment_mentions : f_comment_mentions d ⊆ f_comment_mentions d';
  fg_notifications : forall id n, f_notifications d !! id = Some n ->
    exists n', f_notifications d' !! id = Some n' /\ (n' = n \/ nt_read n = None /\ exists t, n' = read_now t n);
  fg_receipts : f_receipts d ⊆ f_receipts d';
  fg_handles : f_handles d ⊆ f_handles d';
}.

#[export] Instance forum_grows_refl : Reflexive forum_grows.
Proof. intros d. split; try done. eauto. Qed.
#[export] Instance forum_grows_trans : Transitive forum_grows.
Proof.
  intros d d1 d2 [] []. split; try (by etrans).
  intros id n Hn. destruct (fg_notifications0 _ _ Hn) as (n1 & Hn1 & H1).
  destruct (fg_notifications1 _ _ Hn1) as (n2 & Hn2 & H2). exists n2. split; [done|].
  destruct H1 as [->|[? [t ->]]]; [done|]. right. split; [done|]. exists t. destruct H2 as [->|[Hr _]]; [done|]. done.
Qed.

Record forum_step (d d' : FDB) : Prop := {
  fs_core : rtc forum_core (f_core d) (f_core d');
  fs_grows : forum_grows d d';
  fs_inv : forum_inv d -> forum_inv d';
}.
#[export] Instance forum_step_refl : Reflexive forum_step.
Proof. intros d. by split. Qed.
#[export] Instance forum_step_trans : Transitive forum_step.
Proof. intros d d1 d2 [] []. split; [by etrans|by etrans|auto]. Qed.

Lemma forum_inv_core d c : changes (f_core d) ⊆ changes c -> forum_inv d -> forum_inv (set_f_core c d).
Proof. intros Hs [H1 H2 H3 H4 H5 H6]. split; try done; [by destruct H1; constructor|by apply (scope_inv_frame d)|by apply (receipt_inv_frame d)|by apply log_of_mono]. Qed.

Lemma set_search_same c : set_search_documents (search_documents c) c = c.
Proof. by destruct c. Qed.
Lemma set_core_same d : set_f_core (f_core d) d = d.
Proof. by destruct d. Qed.

(** What an insert must do to be part of a project or stand alone: only index
    the text, add rows, and keep the invariant once the log has its entry. *)
Definition insert_ok (kind ref : string) (project : option string) (ins : option Z -> M FDB TxFail unit) : Prop :=
  forall rev env w u w1, ins rev env w = (inr u, w1) ->
    (exists sds, f_core (w_db w1) = set_search_documents sds (f_core (w_db w))) /\ forum_grows (w_db w) (w_db w1) /\
    forall c, changes (f_core (w_db w)) ⊆ changes c -> logged_at c kind ref project rev ->
      forum_inv (w_db w) -> forum_inv (set_f_core c (w_db w1)).

Lemma grows_core d c : forum_grows d (set_f_core c d).
Proof. split; try done. eauto. Qed.

Lemma mutate_body_step pid kind ref summary ins env w rev w1 :
  insert_ok kind ref (Some pid) ins ->
  mutateTx_in call_core pid kind ref summary (fun rev => ins (Some rev)) env w = (inr (TxCommit rev), w1) ->
  forum_step (w_db w) (w_db w1).
Proof.
  intros Hok H. apply mutate_core_inv in H as (r & t & t' & wa & wb & Hp & -> & Hmax & Hwa & Hins & Hfree & Hw1).
  destruct (Hok _ _ _ _ _ Hins) as ([sds Hsds] & Hg & Hinv). rewrite Hw1. rewrite Hwa in *. worlds. rewrite Hsds in *.
  cbn [changes set_search_documents set_projects] in *. split; simpl.
  - apply rtc_once. left. by apply logged_core_step.
  - etrans; [|apply grows_core]. etrans; [apply (grows_core w_db2)|exact Hg].
  - intros Hd. apply Hinv; [cbn [changes set_changes set_search_documents set_projects]; by apply insert_subseteq| |].
    + eexists. cbn [changes set_changes]. by rewrite lookup_insert_eq.
    + by apply forum_inv_core.
Qed.

Lemma own_body_step kind ref ins env w u w1 :
  insert_ok kind ref None ins -> ins None env w = (inr u, w1) -> forum_step (w_db w) (w_db w1).
Proof.
  intros Hok H. destruct (Hok _ _ _ _ _ H) as ([sds Hsds] & Hg & Hinv). split; [|done|].
  - rewrite Hsds. apply rtc_once. right. left. eauto.
  - intros Hd. rewrite <- (set_core_same (w_db w1)). apply Hinv; [by rewrite Hsds|done|done].
Qed.

Lemma guarantees_in_project project kind ref summary ins :
  insert_ok kind ref project ins -> guarantees forum_step (in_project project kind ref summary ins).
Proof.
  intros Hok. unfold in_project, mutate_in, runTx. destruct project as [pid|]; apply guarantees_mapE, guarantees_withTx; intros env w a w1 H; right.
  - by eapply mutate_body_step.
  - m_inv. by eapply own_body_step.
Qed.

Lemma add_mentions_grows kind source created l m :
  NoDup l -> Forall (fun p => m !! (kind, source, p) = None) l -> m ⊆ add_mentions kind source created 0 l m.
Proof.
  intros Hnd Hfree. apply map_subseteq_spec. intros key r Hr. apply add_mentions_lookup; [done|]. right. split; [done|].
  intros p Hp ->. rewrite Forall_forall in Hfree. specialize (Hfree p Hp). congruence.
Qed.

Lemma notified_keeps n l m m' id x : notified n l m m' -> m !! id = Some x -> m' !! id = Some x.
Proof. intros [_ ->|i _ Hi _ ->] Hx; [done|]. rewrite lookup_insert_ne; [done|congruence]. Qed.

Lemma request_free_inv {A} (req : A -> option string) m k i r :
  request_free req m (Some k) = true -> m !! i = Some r -> req r <> Some k.
Proof. unfold request_free. intros H%bool_decide_eq_true Hi Hr. specialize (H _ _ Hi Hr). done. Qed.

Lemma no_post_mentions d id p : mention_inv d -> f_posts d !! id = None -> f_mentions d !! ("post", id, p) = None.
Proof.
  intros Hm Hid. destruct (f_mentions d !! _) as [r|] eqn:E; [|done].
  destruct (mi_source _ Hm _ _ _ _ E) as [[_ [x Hx]]|[? _]]; [congruence|done].
Qed.
Lemma no_comment_mentions d id p : mention_inv d -> f_comments d !! id = None -> f_mentions d !! ("comment", id, p) = None.
Proof.
  intros Hm Hid. destruct (f_mentions d !! _) as [r|] eqn:E; [|done].
  destruct (mi_source _ Hm _ _ _ _ E) as [[? _]|[_ [x Hx]]]; [done|congruence].
Qed.

Lemma post_insert_ok req id key project created : insert_ok "post" id project (post_insert req id key project created).
Proof.
  intros rev env w u w1 H.
  apply post_insert_inv in H as (Hid & Hsc & _ & Hatt & Hkey & Hnd & Hfree & sds & ns & cms & ak & actor & Hw1 & Hcms & Hns).
  rewrite Hw1. split_and!; [by eexists| |].
  - split; simpl; try done; [by apply insert_subseteq|by apply add_mentions_grows|].
    intros i n Hn. exists n. split; [by eapply notified_keeps|by left].
  - intros c Hc Hlog [Hm Hs Hr Hl Ha Hk]. split.
    + change (mention_inv (with_mentions_of ns cms (add_mentions "post" id created 0 (pq_MentionPrincipals req) (f_mentions (w_db w)))
                (set_f_core c (posted id (post_of req key project created rev) (pq_Attachments req) sds (w_db w))))).
      eapply mention_inv_add; [exact Hm|done|done|done|by apply insert_subseteq|done| |left|exact Hns].
      * intros p. by apply no_post_mentions.
      * simpl. rewrite lookup_insert_eq. eauto.
    + eapply scope_inv_post; [exact Hid|reflexivity|reflexivity|done|done].
    + eapply receipt_inv_notified; [..|exact Hns|exact Hr]; done.
    + destruct Hl as [L1 L2 L3]. split; simpl.
      * intros i p [[<- <-]|[_ Hi]]%lookup_insert_Some; [done|]. eauto using logged_at_mono.
      * eauto using logged_at_mono.
      * eauto using logged_at_mono.
    + simpl. intros q i a [(j & _ & [= -> _])|[Hi _]]%add_attachments_lookup; [by rewrite lookup_insert_eq|].
      destruct (Ha _ _ _ Hi) as [x Hx]. rewrite lookup_insert_is_Some. destruct (decide (id = q)); eauto.
    + simpl. intros i j a b k [[<- <-]|[_ Hi]]%lookup_insert_Some [[<- <-]|[_ Hj]]%lookup_insert_Some Ea Eb; [done|..|eauto];
        simpl in *; [rewrite Ea in Hkey|rewrite Eb in Hkey]; exfalso; by eapply request_free_inv.
Qed.

Lemma comment_insert_ok req id key project created : insert_ok "comment" id project (comment_insert req id key project created).
Proof.
  intros rev env w u w1 H.
  apply comment_insert_inv in H as (Hid & [prow Hpost] & _ & Hnd & Hfree & ns & cms & ak & actor & Hw1 & Hcms & Hns).
  rewrite Hw1. split_and!.
  - exists (search_documents (f_core (w_db w))). by rewrite set_search_same.
  - split; simpl; try done; [by apply insert_subseteq|by apply add_mentions_grows|].
    intros i n Hn. exists n. split; [by eapply notified_keeps|by left].
  - intros c Hc Hlog [Hm Hs Hr Hl Ha Hk]. split; try done.
    + change (mention_inv (with_mentions_of ns cms (add_mentions "comment" id created 0 (cq_MentionPrincipals req) (f_mentions (w_db w)))
                (set_f_core c (set_f_comments (<[id:=comment_of req key project created rev]> (f_comments (w_db w))) (w_db w))))).
      eapply mention_inv_add; [exact Hm|done|done|done|done|by apply insert_subseteq| |right|exact Hns].
      * intros p. by apply no_comment_mentions.
      * split; [done|]. eexists. simpl. by rewrite lookup_insert_eq.
    + by eapply scope_inv_frame; [..|exact Hs].
    + eapply receipt_inv_notified; [..|exact Hns|exact Hr]; done.
    + destruct Hl as [L1 L2 L3]. split; simpl.
      * eauto using logged_at_mono.
      * intros i p [[<- <-]|[_ Hi]]%lookup_insert_Some; [done|]. eauto using logged_at_mono.
      * eauto using logged_at_mono.
Qed.

Lemma insert_state_inv r d u d' : insert_state r d = inr (u, d') -> d' = set_f_states (f_states d ++ [r]) d.
Proof. intros H. by apply fcheck_inv in H as (_ & _ & ->). Qed.

Lemma state_insert_ok req id key project created : insert_ok "post_state" (sq_PostID req) project (state_insert req id key project created).
Proof.
  intros rev env w u w1 H. unfold state_insert in H. m_inv. apply insert_state_inv in Hst. rewrite Hst. split_and!.
  - exists (search_documents (f_core (w_db w))). by rewrite set_search_same.
  - split; simpl; try done; [by apply prefix_app_r|eauto].
  - intros c Hc Hlog [Hm Hs Hr Hl Ha Hk]. split; try done.
    + by destruct Hm; constructor.
    + by eapply scope_inv_frame; [..|exact Hs].
    + by eapply receipt_inv_frame; [..|exact Hr].
    + destruct Hl as [L1 L2 L3]. split; simpl; [eauto using logged_at_mono..|].
      intros r [Hr'|Hr']%elem_of_app; [eauto using logged_at_mono|]. by apply list_elem_of_singleton in Hr' as ->.
Qed.

(** ** Every operation *)

Lemma guarantees_postByRequest R key rid : guarantees R (postByRequest key rid).
Proof.
  unfold postByRequest, readPostAttachments, readContentMentions, raw, fq_db.
  apply guarantees_bind; [auto with guar|]. intros [id p]. auto 10 with guar.
Qed.
Lemma guarantees_commentByRequest R key : guarantees R (commentByRequest key).
Proof.
  unfold commentByRequest, readContentMentions, raw, fq_db. apply guarantees_bind; [auto with guar|]. intros [id c]. auto 10 with guar.
Qed.
Lemma guarantees_postStateByRequest R key rid : guarantees R (postStateByRequest key rid).
Proof. unfold postStateByRequest. auto with guar. Qed.
Lemma guarantees_scopeByRequest R key rid : guarantees R (perspectiveScopeByRequest key rid).
Proof. unfold perspectiveScopeByRequest. apply guarantees_bind; [auto with guar|]. intros [id r]. auto with guar. Qed.
#[export] Hint Resolve guarantees_postByRequest guarantees_commentByRequest guarantees_postStateByRequest guarantees_scopeByRequest : guar.

(** Split a program on what it looked at. *)
Ltac guar :=
  repeat match goal with
  | |- guarantees _ (if ?b then _ else _) => destruct b
  | |- guarantees _ (match ?x with _ => _ end) => destruct x
  | |- guarantees _ (bind _ _) => apply guarantees_bind; [|intros ?]
  | |- guarantees _ (attempt _) => apply guarantees_attempt
  | |- _ => solve [auto with guar]
  end.

Lemma guarantees_replay_post R key req err : guarantees R (replay_post key req err).
Proof. unfold replay_post. guar. Qed.
#[export] Hint Resolve guarantees_replay_post : guar.

Lemma guarantees_publish req key project : guarantees forum_step (publish req key project).
Proof.
  unfold publish. cbv zeta. guar.
  - unfold mutate_in. apply guarantees_mapE, guarantees_withTx. intros env w ? w1 H. right.
    eapply (mutate_body_step _ _ _ _ (post_insert req _ key (Some _) _)); [apply post_insert_ok|exact H].
  - unfold ownTx. apply guarantees_withTx. intros env w u w1 H. right. m_inv. eapply own_body_step; [apply post_insert_ok|eassumption].
Qed.

Lemma guarantees_Post `{UrlParser} req : guarantees forum_step (Post_ req).
Proof. unfold Post_. cbv zeta. guar. apply guarantees_publish. Qed.

Lemma guarantees_Comment req : guarantees forum_step (Comment req).
Proof. unfold Comment. cbv zeta. guar. apply guarantees_in_project, comment_insert_ok. Qed.

Lemma guarantees_SetPostState req : guarantees forum_step (SetPostState req).
Proof. unfold SetPostState, raw. cbv zeta. guar. apply guarantees_in_project, state_insert_ok. Qed.

Lemma scope_tx_inv req key env w r w1 :
  scopeTx req key env w = (inr (TxCommit r), w1) ->
  exists s p e t,
    let d := w_db w in
    f_scopes d !! vq_PostID req = Some s /\ f_posts d !! vq_PostID req = Some p /\ f_scope_events d !! ID r = None /\
    (vq_AuthorOnly req = true -> p_session p = vq_SessionID req) /\ (vq_Scope req = "project" -> p_proj p <> None) /\
    sc_revision s = vq_BaseRevision req /\ Revision r = sc_revision s + 1 /\
    se_post e = vq_PostID req /\ se_scope e = vq_Scope req /\ se_revision e = sc_revision s + 1 /\ se_request e = key /\
    w_db w1 = set_f_scopes (<[vq_PostID req:={| sc_scope := se_scope e; sc_revision := sc_revision s + 1; sc_event := Some (ID r);
                                               sc_updated := t |}]> (f_scopes d))
                (set_f_scope_events (<[ID r:=e]> (f_scope_events d)) d).
Proof.
  unfold scopeTx. intros H. m_inv. unfold scope_and_post in Hq.
  destruct (f_scopes (w_db w) !! vq_PostID req) as [s|] eqn:Es; [|done].
  destruct (f_posts (w_db w) !! vq_PostID req) as [p|] eqn:Ep; [|done]. injection Hq as <-. m_inv. unfold update_scope in *. stmt_inv.
  worlds. rewrite Es in *.
  match goal with H : (if sc_revision s =? sc_revision s then _ else _) = _ |- _ => rewrite Z.eqb_refl in H end. stmt_inv.
  eexists s, p, {| se_post := vq_PostID req; se_scope := vq_Scope req; se_base := sc_revision s; se_revision := sc_revision s + 1;
    se_actor := vq_ActorID req; se_session := vq_SessionID req; se_request := key; se_created := _ |}, _.
  simpl. split_and!; try done.
  - intros Ha. destruct (vq_AuthorOnly req); [|done]. simpl in *.
    match goal with H : negb (seqb (p_session p) _) = false |- _ => apply negb_false_iff in H; by apply seqb_true in H end.
  - intros Hs. rewrite Hs in *. simpl in *. bool_inv. done.
Qed.

Lemma scope_tx_step req key env w r w1 : scopeTx req key env w = (inr (TxCommit r), w1) -> forum_step (w_db w) (w_db w1).
Proof.
  intros H. apply scope_tx_inv in H as (s & p & e & t & Hs & Hp & Hid & _ & Hproj & _ & _ & Hep & Hes & Her & _ & ->).
  split; [done| |].
  - split; simpl; try done; [by apply insert_subseteq|eauto].
  - intros [Hm Hsc Hr Hl Ha Hk]. split; simpl; try done.
    + by destruct Hm; constructor.
    + eapply (scope_inv_event (w_db w) _ _ s p (ID r) e t); try done. by rewrite Hes.
    + by eapply receipt_inv_frame; [..|exact Hr].
    + by destruct Hl; constructor.
Qed.

Lemma guarantees_SetPerspectiveScope req : guarantees forum_step (SetPerspectiveScope req).
Proof.
  unfold SetPerspectiveScope, committed. cbv zeta. guar. apply guarantees_mapE, guarantees_withTx. intros. right. by eapply scope_tx_step.
Qed.

Lemma row_by_request_inv {A} (req : A -> option string) key m id r :
  row_by_request req key m = inr (id, r) -> m !! id = Some r /\ req r = Some key.
Proof.
  unfold row_by_request. destruct (List.filter _ _) as [|e l] eqn:E; [done|]. intros [= ->].
  assert (In (id, r) (List.filter (fun e => bool_decide (req e.2 = Some key)) (map_to_list m))) as Hin by (rewrite E; by left).
  apply filter_In in Hin as [Hin Hb]. apply bool_decide_eq_true in Hb. split; [|done].
  by apply elem_of_map_to_list, list_elem_of_In.
Qed.

Lemma row_by_request_none {A} (req : A -> option string) key m id r :
  row_by_request req key m = inl SqlNoRows -> m !! id = Some r -> req r <> Some key.
Proof.
  unfold row_by_request. destruct (List.filter _ _) as [|e l] eqn:E; [|by destruct e]. intros _ Hid Hr.
  assert (In (id, r) (List.filter (fun e => bool_decide (req e.2 = Some key)) (map_to_list m))) as Hin; [|by rewrite E in Hin].
  apply filter_In. split; [|by apply bool_decide_eq_true]. by apply list_elem_of_In, elem_of_map_to_list.
Qed.

(** A notification that was unread becomes read now; one that was read keeps
    its time; either way the receipt says the same. *)
Definition read_at (t : Z) (n : notification_row) : notification_row := match nt_read n with None => read_now t n | Some _ => n end.

Lemma mark_read_inv id recipient t d u d' a :
  mark_read id recipient t d = inr (u, d') -> read_at_of id recipient d' = inr a ->
  exists n, f_notifications d !! id = Some n /\ a = nt_read (read_at t n) /\
    d' = set_f_notifications (<[id:=read_at t n]> (f_notifications d)) d.
Proof.
  unfold mark_read, read_at_of, read_at. destruct (f_notifications d !! id) as [n|] eqn:En.
  2: { intros [= <- <-]. by rewrite En. }
  destruct (seqb (nt_recipient n) recipient) eqn:Er, (nt_read n) as [t0|] eqn:Et; simpl; intros [= <- <-]; simpl; rewrite ?lookup_insert_eq, ?En, ?Er; simpl; rewrite ?Er;
    intros [= <-]; exists n; rewrite ?Et; (split_and!; [done|done|]); [|done].
  rewrite insert_id by done. by destruct d.
Qed.

Lemma mark_read_tx_inv req key env w r w1 :
  markReadTx req key env w = (inr (TxCommit r), w1) ->
  exists n t rc, f_notifications (w_db w) !! mq_NotificationID req = Some n /\ f_receipts (w_db w) !! ID r = None /\
    rc_notification rc = mq_NotificationID req /\ rc_read rc = nt_read (read_at t n) /\
    w_db w1 = set_f_receipts (<[ID r:=rc]> (f_receipts (w_db w)))
                (set_f_notifications (<[mq_NotificationID req:=read_at t n]> (f_notifications (w_db w))) (w_db w)).
Proof.
  intros H. unfold markReadTx, take_writer in H. m_inv.
  destruct r2 as [[]|[ev rc]]; [| | |destruct (seqb _ _); m_inv]; m_inv.
  stmt_inv. worlds.
  match goal with Hm : mark_read _ _ _ _ = _, Hr : read_at_of _ _ _ = _ |- _ => destruct (mark_read_inv _ _ _ _ _ _ _ Hm Hr) as (n & Hn & -> & ->) end.
  worlds. do 3 eexists. split_and!; [exact Hn|done| | |reflexivity]; done.
Qed.

(** Reading changes nothing but the time of reading. *)
Definition same_but_read (n n' : notification_row) : Prop := n' = n \/ exists t, n' = read_now t n.

Lemma mention_inv_read d d' id n n' :
  f_notifications d !! id = Some n -> same_but_read n n' ->
  f_notifications d' = <[id:=n']> (f_notifications d) ->
  f_mentions d' = f_mentions d -> f_posts d' = f_posts d -> f_comments d' = f_comments d ->
  mention_inv d -> mention_inv d'.
Proof.
  intros Hn Hsame Hns Hm Hp Hc [M1 M2 M3 M4 M5 M6].
  assert (Hback : forall i x', f_notifications d' !! i = Some x' -> exists x, f_notifications d !! i = Some x /\ same_but_read x x').
  { intros i x'. rewrite Hns. intros [[<- <-]|[_ Hi]]%lookup_insert_Some; [eauto|]. exists x'. split; [done|by left]. }
  assert (Hforth : forall i x, f_notifications d !! i = Some x -> exists x', f_notifications d' !! i = Some x' /\ same_but_read x x').
  { intros i x Hi. rewrite Hns. destruct (decide (id = i)) as [->|]; [rewrite lookup_insert_eq; simplify_eq; eauto|].
    rewrite lookup_insert_ne by done. exists x. split; [done|by left]. }
  split; rewrite ?Hm, ?Hp, ?Hc; try done.
  - intros k s. rewrite M3. split; intros (i & x & Hi & Hx); [destruct (Hforth _ _ Hi) as (x' & ? & [->|[t ->]])|
      destruct (Hback _ _ Hi) as (x' & ? & [->|[t ->]])]; do 2 eexists; (split; [eassumption|exact Hx]).
  - intros i j a b Hi Hj Hab. destruct (Hback _ _ Hi) as (a' & Hi' & Ha), (Hback _ _ Hj) as (b' & Hj' & Hb).
    eapply M4; [exact Hi'|exact Hj'|]. destruct Ha as [->|[? ->]], Hb as [->|[? ->]]; done.
  - intros i x c Hi Hx. destruct (Hback _ _ Hi) as (x' & Hi' & [->|[t ->]]); exact (M5 _ _ _ Hi' Hx).
  - intros i x Hi. destruct (Hback _ _ Hi) as (x' & Hi' & [->|[t ->]]); exact (M6 _ _ Hi').
Qed.

Lemma receipt_inv_read d d' id n n' rid rc :
  f_notifications d !! id = Some n -> f_receipts d !! rid = None -> rc_notification rc = id -> rc_read rc = nt_read n' -> nt_read n' <> None ->
  (nt_read n <> None -> n' = n) ->
  f_notifications d' = <[id:=n']> (f_notifications d) -> f_receipts d' = <[rid:=rc]> (f_receipts d) -> receipt_inv d -> receipt_inv d'.
Proof.
  intros Hn Hrid Hrc Hread Hsome Hkeep Hns Hrs [R1 R2]. split; rewrite Hns, Hrs.
  - intros j r [[<- <-]|[_ Hj]]%lookup_insert_Some; [by rewrite Hrc, lookup_insert_eq|].
    rewrite lookup_insert_is_Some. destruct (decide (id = rc_notification r)); eauto.
  - intros i x [[<- <-]|[Hne Hi]]%lookup_insert_Some.
    + split; [intros _; exists rid, rc; by rewrite lookup_insert_eq|].
      intros j r [[<- <-]|[_ Hj]]%lookup_insert_Some Hr; [done|]. destruct (R2 _ _ Hn) as [_ H2].
      destruct (H2 _ _ Hj Hr) as [H3 H4]. by rewrite (Hkeep H4).
    + destruct (R2 _ _ Hi) as [H1 H2]. split.
      * intros Hx. destruct (H1 Hx) as (j & r & Hj & ?). exists j, r. split; [|done]. rewrite lookup_insert_ne; [done|congruence].
      * intros j r [[<- <-]|[_ Hj]]%lookup_insert_Some Hr; [congruence|eauto].
Qed.

Lemma mark_read_step req key env w r w1 : markReadTx req key env w = (inr (TxCommit r), w1) -> forum_step (w_db w) (w_db w1).
Proof.
  intros H. apply mark_read_tx_inv in H as (n & t & rc & Hn & Hrid & Hrc & Hread & ->).
  assert (Hcase : read_at t n = n \/ nt_read n = None /\ read_at t n = read_now t n) by (unfold read_at; destruct (nt_read n); auto).
  assert (Hrd : nt_read (read_at t n) <> None) by (unfold read_at; destruct (nt_read n) eqn:E; simpl; congruence).
  split; [done| |].
  - split; simpl; try done; [|by apply insert_subseteq]. intros id x Hx. destruct (decide (id = mq_NotificationID req)) as [->|].
    + rewrite lookup_insert_eq. eexists. split; [done|]. rewrite Hn in Hx. injection Hx as <-. destruct Hcase as [->|[? ->]]; eauto.
    + rewrite lookup_insert_ne by done. eauto.
  - intros [Hm Hsc Hr Hl Ha Hk]. split; simpl; try done.
    + eapply mention_inv_read; [exact Hn| |reflexivity|..|exact Hm]; try done. destruct Hcase as [->|[_ ->]]; [by left|right; eauto].
    + by eapply scope_inv_frame; [..|exact Hsc].
    + eapply (receipt_inv_read (w_db w) _ _ n (read_at t n)); try done. intros Hsome. by destruct Hcase as [->|[? _]].
    + by destruct Hl; constructor.
Qed.

Lemma guarantees_MarkRead req : guarantees forum_step (MarkHumanNotificationRead req).
Proof.
  unfold MarkHumanNotificationRead, committed. cbv zeta. guar. apply guarantees_mapE, guarantees_withTx. intros. right. by eapply mark_read_step.
Qed.

(** Sessions, handles and topics are not part of the invariant. *)
Lemma session_tx_step v env w u w1 : sessionTx v env w = (inr (TxCommit u), w1) -> forum_step (w_db w) (w_db w1).
Proof.
  unfold sessionTx. intros H. m_inv. stmt_inv.
  assert (Hd : exists ss hs, w_db w1 = set_f_handles hs (set_f_sessions ss (w_db w)) /\ f_handles (w_db w) ⊆ hs).
  { destruct r1; m_inv; stmt_inv; worlds.
    - eexists _, (f_handles _). split; [|done]. reflexivity.
    - eexists _, _. split; [reflexivity|by apply insert_subseteq]. }
  destruct Hd as (ss & hs & -> & Hsub). split; [done| |].
  - split; simpl; try done. eauto.
  - intros [Hm Hsc Hr Hl Ha Hk]. split; simpl; try done; [by destruct Hm; constructor| | |by destruct Hl; constructor].
    + by eapply scope_inv_frame; [..|exact Hsc].
    + by eapply receipt_inv_frame; [..|exact Hr].
Qed.

Lemma guarantees_UpsertSession v : guarantees forum_step (UpsertSession v).
Proof.
  unfold UpsertSession, runTx. guar. apply guarantees_mapE, guarantees_withTx. intros. right. by eapply session_tx_step.
Qed.

Lemma guarantees_CreateTopic t : guarantees forum_step (CreateTopic t).
Proof.
  unfold CreateTopic. guar. apply guarantees_direct. intros d b d' H. stmt_inv. unfold insert_topic in *.
  match goal with H : constraint _ _ = _ |- _ => apply constraint_inv in H as [Hok ->] end. bool_inv.
  split; simpl; [|apply grows_core|by apply forum_inv_core].
  apply rtc_once. right. right. do 2 eexists. split; [|reflexivity]. by apply absent_true.
Qed.

(** ** Runs *)

Inductive ForumOp :=
  | OpPost (r : PostRequest) | OpComment (r : CommentRequest) | OpPostState (r : PostStateRequest)
  | OpScope (r : PerspectiveScopeRequest) | OpMarkRead (r : MarkNotificationReadRequest)
  | OpSession (v : SessionInput) | OpTopic (t : TopicInput).

Definition drop_result {A} (m : M FDB Err A) : M FDB Err unit := _ <-- m ;; ret tt.

Definition run_forum `{UrlParser} (op : ForumOp) : M FDB Err unit :=
  match op with
  | OpPost r => drop_result (Post_ r)
  | OpComment r => drop_result (Comment r)
  | OpPostState r => drop_result (SetPostState r)
  | OpScope r => drop_result (SetPerspectiveScope r)
  | OpMarkRead r => drop_result (MarkHumanNotificationRead r)
  | OpSession v => UpsertSession v
  | OpTopic t => CreateTopic t
  end.

Definition forum_after `{UrlParser} (ops : list ForumOp) (env : Env FDB) (d : FDB) : FDB :=
  w_db (run_all (run_forum <$> ops) env (mkWorld d 0)).2.

Lemma guarantees_run_forum `{UrlParser} op : guarantees forum_step (run_forum op).
Proof.
  destruct op; simpl; unfold drop_result; try (apply guarantees_bind; [|intros; apply guarantees_ret]);
    auto using guarantees_Post, guarantees_Comment, guarantees_SetPostState, guarantees_SetPerspectiveScope, guarantees_MarkRead,
      guarantees_UpsertSession, guarantees_CreateTopic.
Qed.

Lemma forum_run `{UrlParser} ops env d : (forall n x, forum_step x (tk_others (env n) x)) -> forum_step d (forum_after ops env d).
Proof.
  intros Hoth. unfold forum_after. apply (run_all_step forum_step _ env (mkWorld d 0)); [|done].
  intros m (op & -> & _)%list_elem_of_fmap. apply guarantees_run_forum.
Qed.

Lemma core_inv_forum c c' : forum_core c c' -> core_inv c -> core_inv c'.
Proof.
  intros [Hs|[[sds ->]|(id & t & _ & ->)]] Hc; [by eapply core_inv_step| |];
    destruct Hc as [H1 H2 H3 [] [] H6 []]; (split; [exact H1|exact H2|exact H3| | |exact H6|]); constructor; assumption.
Qed.

(** C18: posts, comments and post states act on Project Core as Project Core
    allows: whatever requests run, among others that run such requests, each
    change of the core tables is one of its own steps (a project revision with
    its log entry), or only the search index or a new topic; the invariants of
    Project Core survive; and every post, comment and state event that belongs to
    a project carries the revision at which the project's log names it. *)
Theorem forum_refines_core `{UrlParser} ops env d :
  (forall n x, forum_step x (tk_others (env n) x)) -> forum_inv d -> core_inv (f_core d) ->
  let d' := forum_after ops env d in
  rtc forum_core (f_core d) (f_core d') /\ core_inv (f_core d') /\
  (forall id p, f_posts d' !! id = Some p -> logged_at (f_core d') "post" id (p_proj p) (p_rev p)) /\
  (forall id c, f_comments d' !! id = Some c -> logged_at (f_core d') "comment" id (cm_project c) (cm_revision c)) /\
  (forall r, r ∈ f_states d' -> logged_at (f_core d') "post_state" (pe_post r) (pe_project r) (pe_revision r)).
Proof.
  intros Hoth Hd Hc d'. destruct (forum_run ops env d Hoth) as [Hcore _ Hinv]. fold d' in Hcore, Hinv.
  destruct (Hinv Hd) as [_ _ _ [L1 L2 L3] _ _]. split_and!; try done.
  clear -Hcore Hc. induction Hcore as [|x y z Hxy _ IH]; [done|]. apply IH. by eapply core_inv_forum.
Qed.

(** The scope of every post has a gapless history: it starts closed at
    revision 0, its events are numbered 1, 2, ... up to its revision, the last one
    is its present scope, earlier events are never lost, and only a post of a
    project is ever scoped to its project. *)
Theorem scope_history_gapless `{UrlParser} ops env d post s p :
  (forall n x, forum_step x (tk_others (env n) x)) -> forum_inv d ->
  let d' := forum_after ops env d in
  f_scopes d' !! post = Some s -> f_posts d' !! post = Some p ->
  (forall k, (exists id e, scope_event_at d' post k id e) <-> 1 <= k <= sc_revision s) /\
  (sc_revision s = 0 -> sc_scope s = "closed" /\ sc_event s = None) /\
  (0 < sc_revision s -> exists id e, scope_event_at d' post (sc_revision s) id e /\ sc_event s = Some id /\ se_scope e = sc_scope s) /\
  (sc_scope s = "project" -> p_proj p <> None) /\
  f_scope_events d ⊆ f_scope_events d'.
Proof.
  intros Hoth Hd d' Hs Hp. destruct (forum_run ops env d Hoth) as [_ Hg Hinv]. destruct (fo_scopes _ (Hinv Hd)) as [_ _ Hh Hproj].
  destruct (Hh _ _ Hs). split_and!; try done; [by eapply Hproj|apply Hg].
Qed.

(** C17: the human is notified exactly once for each post or comment that names
    them, and never otherwise; the mentions of one text are distinct; a
    notification is read exactly when a receipt says so, every receipt for it
    agrees on the time, and a time of reading, once set, never changes. *)
Theorem human_notified_once `{UrlParser} ops env d :
  (forall n x, forum_step x (tk_others (env n) x)) -> forum_inv d ->
  let d' := forum_after ops env d in
  (forall kind source, is_Some (f_mentions d' !! (kind, source, HumanLocalPrincipal)) <->
     exists id n, f_notifications d' !! id = Some n /\ names kind source n /\
       forall j m, f_notifications d' !! j = Some m -> same_source m n -> j = id) /\
  (forall kind source, exists l created, NoDup l /\
     forall p r, f_mentions d' !! (kind, source, p) = Some r <-> exists i, l !! i = Some p /\ r = mention_entry created i p) /\
  (forall id n, f_notifications d' !! id = Some n ->
     (nt_read n <> None <-> exists j r, f_receipts d' !! j = Some r /\ rc_notification r = id) /\
     forall j r, f_receipts d' !! j = Some r -> rc_notification r = id -> rc_read r = nt_read n) /\
  (forall id n t, f_notifications d !! id = Some n -> nt_read n = Some t ->
     exists n', f_notifications d' !! id = Some n' /\ nt_read n' = Some t).
Proof.
  intros Hoth Hd d'. destruct (forum_run ops env d Hoth) as [_ Hg Hinv]. fold d' in Hg, Hinv.
  destruct (Hinv Hd) as [[_ Hl Hn Hu _ _] _ [_ Hr] _ _ _]. split_and!.
  - intros k s. rewrite Hn. split; intros (id & n & Hid & Hnm); exists id, n; [|tauto]. eauto.
  - exact Hl.
  - intros id n Hid. destruct (Hr _ _ Hid) as [H1 H2]. split; [|intros j r Hj Hrc; by eapply H2].
    split; [exact H1|]. intros (j & r & Hj & Hrc). by eapply H2.
  - intros id n t Hid Ht. destruct (fg_notifications _ _ Hg _ _ Hid) as (n' & ? & [->|[? _]]); [eauto|congruence].
Qed.
