(* ===== verification/ForumOutcome.v ===== *)
(** * Who sees a closed post, and requests that come twice

    A closed post stays out of reach of sessions that neither wrote it nor are
    named in it, whatever those sessions try; and a post request repeated after
    it succeeded returns the stored post. *)

From Stdlib Require Import ZArith Lia Ascii.
From stdpp Require Import base gmap strings list sets sorting pretty.
From S2P Require Import Prelude GoText Graph CoreDB ProjectCore Claims CoreSpec CoreRefine Forum ForumSpec.

Local Open Scope Z_scope.
Local Open Scope prog_scope.

(** ** Reads keep whatever the others keep *)

Section Reads.
Context (P : FDB -> Prop) (env : Env FDB) (Hstable : stable P env).

Lemma holds_query {A} (q : FDB -> SqlErr + A) : holds env P (autocommit (query q)) (fun _ => True).
Proof. apply holds_autocommit; [done|apply stmt_query]. Qed.
Lemma holds_select {A} (q : FDB -> SqlErr + A) : holds env P (direct (query q)) (fun _ => True).
Proof. apply holds_mapE, holds_query. Qed.
End Reads.

Ltac hold :=
  repeat match goal with
  | |- holds _ _ (if ?b then _ else _) _ => destruct b
  | |- holds _ _ (match ?x with _ => _ end) _ => destruct x
  | |- holds _ _ (bind _ _) _ => eapply (holds_bind _ _ _ _ (fun _ => True)); [|intros ? _]
  | |- holds _ _ (attempt _) _ => apply holds_attempt
  | |- holds _ _ (ret _) _ => by apply holds_ret
  | |- holds _ _ (throw _) _ => apply holds_throw
  | |- holds _ _ (require _ _) _ => apply holds_require
  | |- holds _ _ now _ => by apply holds_now
  | |- holds _ _ (newID _) _ => by apply holds_newID
  | |- holds _ _ (direct (query _)) _ => apply holds_select; assumption
  | |- holds _ _ (mapE _ (autocommit (query _))) _ => apply holds_mapE, holds_query; assumption
  end.

Section ReadPosts.
Context (P : FDB -> Prop) (env : Env FDB) (Hstable : stable P env).

Lemma postByRequest_holds key rid : holds env P (postByRequest key rid) (fun _ => True).
Proof. unfold postByRequest, readPostAttachments, readContentMentions, raw, fq_db. hold. Qed.
Lemma commentByRequest_holds key : holds env P (commentByRequest key) (fun _ => True).
Proof. unfold commentByRequest, readContentMentions, raw, fq_db. hold. Qed.
Lemma replay_post_holds key req err : holds env P (replay_post key req err) (fun _ => True).
Proof. unfold replay_post. hold. by apply postByRequest_holds. Qed.
End ReadPosts.

(** ** A closed post and its outsiders *)

Section Private.
Context (post : string) (outsider : string -> Prop).

(** The post is closed, and no outsider wrote it or is named in it or below it. *)
Definition private (d : FDB) : Prop :=
  exists p, f_posts d !! post = Some p /\ scope_of d post = "closed" /\
    forall v, outsider v -> p_session p <> v /\ mentions_agent d "post" post v = false /\
      forall c row, f_comments d !! c = Some row -> cm_post row = post -> mentions_agent d "comment" c v = false.

Lemma mentioned_below_false d v :
  (forall c row, f_comments d !! c = Some row -> cm_post row = post -> mentions_agent d "comment" c v = false) ->
  mentioned_below d post v = false.
Proof.
  intros H. unfold mentioned_below. destruct (existsb _ _) eqn:E; [|done].
  apply existsb_exists in E as ([c row] & Hin & Hb). simpl in Hb. bool_inv.
  apply list_elem_of_In, elem_of_map_to_list in Hin. rewrite (H _ _ Hin) in *; done.
Qed.

Lemma private_unseen d p v : private d -> f_posts d !! post = Some p -> outsider v -> agent_sees v d post p = false.
Proof.
  intros (q & Hq & Hs & Hv) Hp Ho. simplify_eq. destruct (Hv v Ho) as (H1 & H2 & H3). unfold agent_sees.
  rewrite Hs, H2, (mentioned_below_false _ _ H3). apply seqb_false in H1. by rewrite H1.
Qed.

Lemma private_frame d d' :
  f_posts d' !! post = f_posts d !! post -> f_scopes d' !! post = f_scopes d !! post -> f_mentions d' = f_mentions d ->
  f_comments d' = f_comments d -> private d -> private d'.
Proof.
  intros Hp Hs Hm Hc (p & H1 & H2 & H3). exists p. unfold scope_of, mentions_agent in *. by rewrite Hp, Hs, Hm, Hc.
Qed.

Lemma mentions_agent_add ns cms kind source created l d k s v :
  NoDup l -> (k, s) <> (kind, source) ->
  mentions_agent (with_mentions_of ns cms (add_mentions kind source created 0 l (f_mentions d)) d) k s v = mentions_agent d k s v.
Proof. intros Hnd Hne. unfold mentions_agent, with_mentions_of. simpl. by rewrite add_mentions_other. Qed.

Lemma private_posted id row atts sds ns cms created l d :
  f_posts d !! id = None -> NoDup l -> private d ->
  private (with_mentions_of ns cms (add_mentions "post" id created 0 l (f_mentions d)) (posted id row atts sds d)).
Proof.
  intros Hid Hnd (p & H1 & H2 & H3). assert (id <> post) by congruence. exists p. simpl.
  rewrite lookup_insert_ne by done. split_and!; [done| |].
  - unfold scope_of in *. simpl. by rewrite lookup_insert_ne.
  - intros v Hv. destruct (H3 v Hv) as (H4 & H5 & H6). split_and!; [done| |].
    + rewrite (mentions_agent_add ns cms "post" id created l (posted id row atts sds d)); [done|done|congruence].
    + intros c crow Hc Hcp. rewrite (mentions_agent_add ns cms "post" id created l (posted id row atts sds d)); [|done|done].
      by eapply H6.
Qed.

Lemma private_commented id row ns cms created l d :
  f_comments d !! id = None -> cm_post row <> post -> NoDup l -> private d ->
  private (with_mentions_of ns cms (add_mentions "comment" id created 0 l (f_mentions d)) (set_f_comments (<[id:=row]> (f_comments d)) d)).
Proof.
  intros Hid Hpost Hnd (p & H1 & H2 & H3). exists p. split_and!; [done|done|].
  intros v Hv. destruct (H3 v Hv) as (H4 & H5 & H6). split_and!; [done| |].
  - rewrite (mentions_agent_add ns cms "comment" id created l (set_f_comments _ d)); [done|done|done].
  - simpl. intros c crow Hc Hcp. apply lookup_insert_Some in Hc as [[<- <-]|[Hne Hc]]; [done|].
    rewrite (mentions_agent_add ns cms "comment" id created l (set_f_comments _ d)); [|done|congruence]. by eapply H6.
Qed.

(** Transactions whose successful runs keep the post private. *)
Definition keeps_private {A} (body : M FDB TxFail A) : Prop :=
  forall env w a w1, body env w = (inr a, w1) -> private (w_db w) -> private (w_db w1).

Lemma holds_tx env {A} (body : M FDB TxFail (TxOut A)) :
  stable private env -> (forall w a w1, body env w = (inr (TxCommit a), w1) -> private (w_db w) -> private (w_db w1)) ->
  holds env private (withTx body) (fun _ => True).
Proof.
  intros Hst Hb w r w' HP. unfold withTx. pose proof (Hst (w_tick w) _ HP) as H0.
  destruct (tk_fault _); [by intros [= <- <-]|].
  destruct (body env _) as [[e|[a|a]] w1] eqn:Hrun; [by intros [= <- <-]| |by intros [= <- <-]].
  pose proof (Hb (mkWorld _ _) _ _ Hrun H0) as H1.
  destruct (tk_fault _); intros [= <- <-]; [|done]. split; [|done]. simpl. by destruct (tk_durable _).
Qed.

Lemma mutate_private pid kind ref summary ins env w rev w1 :
  (forall rev, keeps_private (ins rev)) ->
  mutateTx_in call_core pid kind ref summary (fun rev => ins (Some rev)) env w = (inr (TxCommit rev), w1) ->
  private (w_db w) -> private (w_db w1).
Proof.
  intros Hins H Hp. apply mutate_core_inv in H as (r & t & t' & wa & wb & _ & _ & _ & Hwa & Hrun & _ & ->).
  apply (private_frame (w_db wb)); try done. apply (Hins _ _ _ _ _ Hrun). rewrite Hwa. by apply (private_frame (w_db w)).
Qed.

Lemma in_project_private project kind ref summary ins env :
  stable private env -> (forall rev, keeps_private (ins rev)) -> holds env private (in_project project kind ref summary ins) (fun _ => True).
Proof.
  intros Hst Hins. unfold in_project, mutate_in, runTx. destruct project; apply holds_mapE, holds_tx; try done.
  - intros w a w1. by apply mutate_private.
  - intros w a w1 H. m_inv. eapply Hins. eassumption.
Qed.

Lemma post_insert_private req id key project created rev : keeps_private (post_insert req id key project created rev).
Proof.
  intros env w u w1 H Hp. apply post_insert_inv in H as (Hid & _ & _ & _ & _ & Hnd & _ & sds & ns & cms & ak & actor & -> & _ & _).
  by apply private_posted.
Qed.

Lemma comment_insert_private req id key project created rev :
  cq_PostID req <> post -> keeps_private (comment_insert req id key project created rev).
Proof.
  intros Hne env w u w1 H Hp. apply comment_insert_inv in H as (Hid & _ & _ & Hnd & _ & ns & cms & ak & actor & -> & _ & _).
  by apply private_commented.
Qed.

Lemma state_insert_private req id key project created rev : keeps_private (state_insert req id key project created rev).
Proof. intros env w u w1 H Hp. unfold state_insert in H. m_inv. apply insert_state_inv in Hst. rewrite Hst. by apply (private_frame (w_db w)). Qed.

(** ** The operations *)

Context (env : Env FDB) (Hstable : stable private env).

Lemma publish_private req key project : holds env private (publish req key project) (fun _ => True).
Proof.
  unfold publish. cbv zeta. hold; try (by apply replay_post_holds).
  - unfold mutate_in. apply holds_mapE, holds_tx; [done|]. intros w b w1 H.
    eapply (mutate_private _ _ _ _ (post_insert req _ key (Some _) _)); [intros; apply post_insert_private|exact H].
  - unfold ownTx. apply holds_tx; [done|]. intros w b w1 H. m_inv. eapply post_insert_private. eassumption.
Qed.

Lemma Post_private `{UrlParser} req : holds env private (Post_ req) (fun _ => True).
Proof. unfold Post_. cbv zeta. hold; [by apply postByRequest_holds|apply publish_private]. Qed.

Lemma SetPostState_private req : holds env private (SetPostState req) (fun _ => True).
Proof.
  unfold SetPostState, postStateByRequest, raw. cbv zeta. hold. apply in_project_private; [done|]. intros. apply state_insert_private.
Qed.

(** An outsider's comment on the post does not find it. *)
Lemma private_hidden see v :
  postDiscoveryPredicate "agent" v = Some see -> outsider v ->
  holds (E := Err) (A := post_row) env private (direct (query (visible_post see post))) (fun _ => False).
Proof.
  unfold postDiscoveryPredicate. simpl. destruct (seqb v "") eqn:E; simpl; [done|]. intros [= <-] Hv.
  apply holds_direct; [done|]. intros d p d' Hp H. apply query_inr_inv in H as [H ->]. unfold visible_post in H.
  destruct Hp as (q & Hq & Hrest). rewrite Hq in H.
  rewrite (private_unseen d q v) in H; [done|exists q; done|done|done].
Qed.

Lemma Comment_private req :
  cq_PostID req <> post \/ cq_ActorKind req = "agent" /\ outsider (cq_SessionID req) -> holds env private (Comment req) (fun _ => True).
Proof.
  intros Hop. unfold Comment. cbv zeta. destruct (normalizeMentionPrincipals _ _) as [l|]; [|apply holds_throw]. simpl.
  eapply (holds_bind _ _ _ _ (fun _ => True)); [apply holds_require|intros _ _].
  eapply (holds_bind _ _ _ _ (fun _ => True)); [hold; by apply commentByRequest_holds|intros [err|[p res]] _; [|hold]].
  destruct err; try apply holds_throw. destruct (postDiscoveryPredicate _ _) as [see|] eqn:Esee; [|apply holds_throw].
  destruct (decide (cq_PostID req = post)) as [Heq|Hne].
  - destruct Hop as [?|[Hk Ho]]; [done|]. rewrite Hk in Esee. rewrite Heq.
    eapply holds_bind; [by eapply private_hidden|]. by intros ? ?.
  - hold; try (by apply commentByRequest_holds). apply in_project_private; [done|]. intros. by apply comment_insert_private.
Qed.

Lemma SetPerspectiveScope_private req :
  vq_PostID req <> post \/ vq_AuthorOnly req = true /\ outsider (vq_SessionID req) ->
  holds env private (SetPerspectiveScope req) (fun _ => True).
Proof.
  intros Hop. unfold SetPerspectiveScope, perspectiveScopeByRequest, committed. cbv zeta. hold. apply holds_mapE, holds_tx; [done|].
  intros w r w1 H Hp. apply scope_tx_inv in H as (s & p & e & t & Hs & Hpost & _ & Hauth & _ & _ & _ & _ & _ & _ & _ & ->).
  destruct (decide (vq_PostID req = post)) as [Heq|Hne].
  - destruct Hop as [?|[Ha Ho]]; [done|]. destruct Hp as (q & Hq & _ & Hv). rewrite Heq in *. simplify_eq.
    destruct (Hv _ Ho) as [Hn _]. by destruct Hn; apply Hauth.
  - apply (private_frame (w_db w)); try done. simpl. by rewrite lookup_insert_ne.
Qed.

Lemma MarkRead_private req : holds env private (MarkHumanNotificationRead req) (fun _ => True).
Proof.
  unfold MarkHumanNotificationRead, committed. hold. apply holds_mapE, holds_tx; [done|]. intros w r w1 H.
  apply mark_read_tx_inv in H as (n & t & rc & _ & _ & _ & _ & ->). by apply private_frame.
Qed.

Lemma UpsertSession_private v : holds env private (UpsertSession v) (fun _ => True).
Proof.
  unfold UpsertSession, runTx. hold. apply holds_mapE, holds_tx; [done|]. intros w u w1 H Hp. apply (private_frame (w_db w)); try done.
  all: unfold sessionTx in H; m_inv; stmt_inv; destruct r1; m_inv; stmt_inv; by worlds.
Qed.

Lemma CreateTopic_private t : holds env private (CreateTopic t) (fun _ => True).
Proof.
  unfold CreateTopic. hold. apply holds_direct; [done|]. intros d u d' Hp H. split; [|done]. stmt_inv. by apply (private_frame d).
Qed.

End Private.

(** What outsiders may try: anything, except that on this post they comment as
    themselves and change the scope as its author at most. *)
Definition tried_by (post : string) (outsider : string -> Prop) (op : ForumOp) : Prop :=
  match op with
  | OpComment r => cq_PostID r <> post \/ cq_ActorKind r = "agent" /\ outsider (cq_SessionID r)
  | OpScope r => vq_PostID r <> post \/ vq_AuthorOnly r = true /\ outsider (vq_SessionID r)
  | _ => True
  end.

(** C14: a closed post stays hidden from every session that neither wrote it nor
    is named in it: whatever such sessions do, in whatever order (publish, comment
    here or elsewhere, name themselves, change scopes, re-register under another
    project, mark notifications), and as long as the rest of the system does not
    let one in, none of them can discover the post afterwards. *)
Theorem closed_post_stays_hidden `{UrlParser} ops env d post outsider :
  stable (private post outsider) env -> private post outsider d -> Forall (tried_by post outsider) ops ->
  let d' := forum_after ops env d in
  exists p, f_posts d' !! post = Some p /\
    forall v n, outsider v -> quiet env -> v <> "" -> post <> "" ->
      (CanDiscoverPost "agent" v post env (mkWorld d' n)).1 = inr false /\ agent_sees v d' post p = false.
Proof.
  intros Hst Hp Hops d'.
  assert (private post outsider d') as Hd'.
  { unfold d', forum_after. destruct (run_all _ env _) as [r w'] eqn:Hrun. simpl.
    refine (proj1 (holds_run_all env _ (run_forum <$> ops) _ (mkWorld d 0) r w' Hp Hrun)).
    intros m (op & -> & Hin)%list_elem_of_fmap. rewrite Forall_forall in Hops. specialize (Hops _ Hin).
    destruct op; simpl in *; unfold drop_result;
      try (eapply (holds_bind _ _ _ _ (fun _ => True)); [|intros; by apply holds_ret]);
      auto using Post_private, Comment_private, SetPostState_private, SetPerspectiveScope_private, MarkRead_private,
        UpsertSession_private, CreateTopic_private. }
  pose proof Hd' as (p & Hpost & _). exists p. split; [done|]. intros v n Hv Hq Hne Hpne.
  pose proof (private_unseen _ _ _ _ _ Hd' Hpost Hv) as Hun. split; [|done].
  unfold CanDiscoverPost. apply seqb_false in Hne, Hpne. unfold postDiscoveryPredicate. rewrite Hne, Hpne. simpl.
  unfold bind, require, ret, raw, mapE, autocommit, exec, query. simpl. destruct (Hq n) as [-> Ho]. rewrite Ho.
  unfold visible_post. simpl. by rewrite Hpost, Hun.
Qed.

(** ** Reading a post back *)

Lemma NoDup_omap_keys {A B C} (f : A * B -> option C) (l : list (A * B)) :
  (forall x y c, x ∈ l -> y ∈ l -> f x = Some c -> f y = Some c -> x = y) -> NoDup l -> NoDup (omap f l).
Proof.
  intros Hinj. induction 1 as [|x l Hx Hnd IH]; simpl; [constructor|].
  assert (IH' : NoDup (omap f l)) by (apply IH; intros; eapply Hinj; eauto; by right).
  destruct (f x) as [c|] eqn:E; [|done]. constructor; [|done].
  intros (y & Hy & Hfy)%list_elem_of_omap. apply Hx. rewrite (Hinj x y c); [done|left|by right|done|done].
Qed.

(** The mentions in the order they were given. *)
Definition given_mentions (created : Z) (i : nat) (l : list string) : list (string * mention_row) :=
  imap (fun k p => (p, mention_entry created (i + k) p)) l.

Lemma mention_entry_position created i p : mn_position (mention_entry created i p) = Z.of_nat i.
Proof. unfold mention_entry. by destruct (seqb _ _). Qed.

Lemma elem_of_given created i l p r :
  (p, r) ∈ given_mentions created i l <-> exists j, l !! j = Some p /\ r = mention_entry created (i + j) p.
Proof.
  unfold given_mentions. rewrite elem_of_lookup_imap. split.
  - intros (j & q & [= -> ->] & Hj). eauto.
  - intros (j & Hj & ->). eauto.
Qed.

Lemma given_sorted created i l : StronglySorted by_position (given_mentions created i l).
Proof.
  induction l as [|p l IH] in i |- *; [constructor|]. unfold given_mentions. simpl.
  rewrite (imap_ext _ (fun k p => (p, mention_entry created (S i + k) p))) by (intros; simpl; do 2 f_equal; lia).
  constructor; [apply IH|]. apply Forall_forall. intros [q r] (j & Hj & ->)%elem_of_given.
  unfold by_position. simpl. rewrite !mention_entry_position. lia.
Qed.

Lemma given_principals created i l : (given_mentions created i l).*1 = l.
Proof.
  unfold given_mentions. rewrite fmap_imap. induction l as [|p l IH] in i |- *; [done|]. simpl. f_equal.
  rewrite <- (IH (S i)) at 2. apply imap_ext. done.
Qed.

#[export] Instance by_position_total : Total by_position.
Proof. intros a b. unfold by_position. lia. Qed.
#[export] Instance by_position_trans : Transitive by_position.
Proof. intros a b c. unfold by_position. lia. Qed.

Lemma mentions_read_back kind source created l d :
  NoDup l ->
  (forall p r, f_mentions d !! (kind, source, p) = Some r <-> exists i, l !! i = Some p /\ r = mention_entry created i p) ->
  mentions_of kind source d = given_mentions created 0 l.
Proof.
  intros Hnd Hm. unfold mentions_of. set (rows := omap _ (map_to_list (f_mentions d))).
  assert (Hin : forall p r, (p, r) ∈ rows <-> f_mentions d !! (kind, source, p) = Some r).
  { intros p r. unfold rows. rewrite list_elem_of_omap. split.
    - intros ([[[k s] q] r'] & He & Hf). simpl in Hf. case_bool_decide; simplify_eq. by apply elem_of_map_to_list.
    - intros Hr. exists ((kind, source, p), r). rewrite elem_of_map_to_list. simpl. split; [done|]. by rewrite bool_decide_true. }
  assert (Hperm : rows ≡ₚ given_mentions created 0 l).
  { apply NoDup_Permutation.
    - apply NoDup_omap_keys; [|apply NoDup_map_to_list]. intros [[[? ?] ?] ?] [[[? ?] ?] ?] c _ _. simpl.
      repeat case_bool_decide; naive_solver.
    - apply (NoDup_fmap_1 fst). by rewrite given_principals.
    - intros [p r]. by rewrite Hin, Hm, elem_of_given. }
  apply (StronglySorted_unique_strong by_position).
  - intros [p r] [q r'] Hp Hq. rewrite merge_sort_Permutation, Hperm, elem_of_given in Hp. rewrite elem_of_given in Hq.
    destruct Hp as (i & Hi & ->), Hq as (j & Hj & ->). unfold by_position. simpl. rewrite !mention_entry_position. intros.
    assert (i = j) as -> by lia. by simplify_eq.
  - apply Sorted_StronglySorted; [apply _|]. apply Sorted_merge_sort, _.
  - apply given_sorted.
  - by rewrite merge_sort_Permutation.
Qed.

Lemma attachments_read_back id l m d :
  (length l <= 8)%nat -> (forall i, m !! (id, i) = None) -> f_attachments d = add_attachments id 0 l m -> attachments_of id d = l.
Proof.
  intros Hlen Hm Hd. unfold attachments_of. rewrite Hd.
  assert (Hlook : forall j, add_attachments id 0 l m !! (id, Z.of_nat j) = l !! j).
  { intros j. apply option_eq. intros a. rewrite add_attachments_lookup, Hm. split.
    - intros [(k & Hk & [= E])|[? _]]; [|done]. by replace j with k by lia.
    - intros Hj. left. eauto. }
  assert (Hseq : forall n k, (length l - k <= n)%nat -> omap (fun i => add_attachments id 0 l m !! (id, Z.of_nat i)) (seq k n) = drop k l).
  { induction n as [|n IH]; intros k Hk; simpl.
    - symmetry. apply drop_ge. lia.
    - rewrite Hlook. destruct (l !! k) as [a|] eqn:E.
      + rewrite (drop_S _ _ _ E), IH; [done|lia].
      + apply lookup_ge_None in E. rewrite IH by lia. rewrite !drop_ge; [done|lia..]. }
  apply (Hseq 8%nat 0%nat). lia.
Qed.

(** ** Requests that come twice *)

(** What [postByRequest] reads. *)
Definition stored_post (key rid : string) (d : FDB) : SqlErr + Post :=
  match row_by_request p_request key (f_posts d) with
  | inl e => inl e
  | inr (id, p) =>
      inr {| po_ID := id; po_TopicID := p_topic p; po_ProjectID := default "" (p_proj p); po_Kind := p_kind p;
             po_Title := p_title p; po_Body := p_body p; po_Basis := p_basis p; po_Ref := p_ref p; po_SessionID := p_session p;
             po_RequestID := rid; po_Revision := default 0 (p_rev p); po_CreatedAt := p_at p;
             po_Attachments := attachments_of id d; po_MentionPrincipals := (mentions_of "post" id d).*1 |}
  end.

Lemma shown_principals d l : mt_Principal <$> ((fun e => shown_target d e.1 e.2) <$> l) = l.*1.
Proof. rewrite <- list_fmap_compose. apply list_fmap_ext. done. Qed.

Lemma read_alone {A} (q : FDB -> SqlErr + A) g env w a w1 :
  alone env -> mapE (E' := Err) g (autocommit (query q)) env w = (inr a, w1) -> q (w_db w) = inr a /\ w_db w1 = w_db w.
Proof. intros Ha H. m_inv. unfold autocommit in H. m_inv. simpl in *. by rewrite Ha in *. Qed.

Lemma postByRequest_reads key rid env w p w1 :
  alone env -> postByRequest key rid env w = (inr p, w1) -> stored_post key rid (w_db w) = inr p /\ w_db w1 = w_db w.
Proof.
  intros Ha H. unfold postByRequest, readPostAttachments, readContentMentions, raw, fq_db, direct, content_mentions in H.
  apply bind_inr_inv in H as ([id row] & w2 & H1 & H). apply read_alone in H1 as [H1 Hw2]; [|done].
  apply bind_inr_inv in H as (atts & w3 & H2 & H). apply read_alone in H2 as [[= <-] Hw3]; [|done].
  apply bind_inr_inv in H as (ms & w4 & H3 & H). apply read_alone in H3 as [[= <-] Hw4]; [|done].
  m_inv. unfold stored_post. rewrite H1, Hw4, Hw3, Hw2. split; [|done]. simpl. rewrite lookup_insert_eq. simpl.
  by rewrite shown_principals.
Qed.

Lemma read_quiet {A} (q : FDB -> SqlErr + A) g env w :
  quiet env -> mapE (E' := Err) g (autocommit (query q)) env w = (match q (w_db w) with inl e => inl (g e) | inr a => inr a end, mkWorld (w_db w) (S (w_tick w))).
Proof.
  intros Hq. unfold mapE, autocommit, exec, query. simpl. destruct (Hq (w_tick w)) as [-> Ho]. rewrite Ho. by destruct (q (w_db w)).
Qed.

Lemma postByRequest_quiet key rid env w p :
  quiet env -> stored_post key rid (w_db w) = inr p -> exists n, postByRequest key rid env w = (inr p, mkWorld (w_db w) n).
Proof.
  intros Hq H. unfold stored_post in H. destruct (row_by_request _ _ _) as [|[id row]] eqn:E; [done|]. injection H as <-.
  unfold postByRequest, readPostAttachments, readContentMentions, raw, fq_db, direct, content_mentions, bind.
  rewrite read_quiet, E by done. rewrite read_quiet by done. simpl. rewrite read_quiet by done. unfold ret. simpl.
  rewrite lookup_insert_eq. simpl. rewrite shown_principals. eauto.
Qed.

Definition as_posted (req : PostRequest) (id : string) (project : option string) (rev created : Z) : Post :=
  {| po_ID := id; po_TopicID := pq_TopicID req; po_ProjectID := default "" project; po_Kind := pq_Kind req;
     po_Title := pq_Title req; po_Body := pq_Body req; po_Basis := pq_Basis req; po_Ref := pq_Ref req;
     po_SessionID := pq_SessionID req; po_RequestID := pq_RequestID req; po_Revision := rev; po_CreatedAt := created;
     po_Attachments := pq_Attachments req; po_MentionPrincipals := pq_MentionPrincipals req |}.

Lemma row_by_request_found {A} (req : A -> option string) key m id r :
  m !! id = Some r -> req r = Some key -> (forall j x, m !! j = Some x -> req x = Some key -> j = id) -> row_by_request req key m = inr (id, r).
Proof.
  intros Hid Hr Hu. destruct (row_by_request req key m) as [e|[j x]] eqn:E.
  - exfalso. assert (e = SqlNoRows) as -> by (unfold row_by_request in E; destruct (List.filter _ _); congruence).
    by eapply row_by_request_none.
  - apply row_by_request_inv in E as [Hj Hx]. assert (j = id) as -> by eauto. congruence.
Qed.

(** A post is stored as it was sent. *)
Lemma posted_stored req id key project created rev env w u w1 c :
  forum_inv (w_db w) -> key <> "" -> post_insert req id key project created rev env w = (inr u, w1) ->
  stored_post key (pq_RequestID req) (set_f_core c (w_db w1)) = inr (as_posted req id project (default 0 rev) created).
Proof.
  intros [Hm _ _ _ Ha _] Hkey H.
  apply post_insert_inv in H as (Hid & _ & Hlen & _ & Hfree & Hnd & _ & sds & ns & cms & ak & actor & -> & _ & _).
  assert (Hnull : nullif_empty key = Some key) by (unfold nullif_empty; apply seqb_false in Hkey; by rewrite Hkey).
  rewrite Hnull in Hfree. unfold stored_post. rewrite (row_by_request_found _ _ _ id (post_of req key project created rev)).
  - rewrite (attachments_read_back id (pq_Attachments req) (f_attachments (w_db w))); [|done| |done].
    2: { intros i. destruct (f_attachments (w_db w) !! (id, i)) eqn:E; [|done]. destruct (Ha _ _ _ E). congruence. }
    rewrite (mentions_read_back _ _ created (pq_MentionPrincipals req)), given_principals; [done|done|].
    intros p r. simpl. rewrite add_mentions_lookup by done. rewrite no_post_mentions by done.
    split; [intros [(j & q & ? & [= <-] & ->)|[? _]]; eauto; done|]. intros (i & ? & ->). left. eauto.
  - simpl. by rewrite lookup_insert_eq.
  - done.
  - simpl. intros j x [[<- <-]|[_ Hj]]%lookup_insert_Some Hx; [done|]. exfalso. by eapply request_free_inv.
Qed.

Lemma samePost_posted req id project rev created : samePost (as_posted req id project rev created) req = true.
Proof. unfold samePost, as_posted. simpl. by rewrite !seqb_refl, !bool_decide_true. Qed.

Lemma replay_post_inv key req err env w p w1 :
  alone env -> replay_post key req err env w = (inr p, w1) ->
  stored_post key (pq_RequestID req) (w_db w1) = inr p /\ samePost p req = true.
Proof.
  intros Ha H. unfold replay_post in H. m_inv. apply attempt_inv in Hrun. destruct r as [e|q]; [done|].
  destruct (samePost q req) eqn:E; m_inv. apply postByRequest_reads in Hrun as [? ->]; auto.
Qed.

Lemma publish_stored req key project env w p w1 :
  forum_inv (w_db w) -> key <> "" -> alone env -> publish req key project env w = (inr p, w1) ->
  stored_post key (pq_RequestID req) (w_db w1) = inr p /\ samePost p req = true.
Proof.
  intros Hinv Hkey Ha H. unfold publish in H.
  apply bind_inr_inv in H as (id & w0 & (_ & Hw0 & _)%newID_inr_inv & H).
  apply bind_inr_inv in H as (created & w2 & (_ & Hw2 & _)%now_inr_inv & H). cbv zeta in H.
  assert (forum_inv (w_db w2)) as Hinv2 by (by rewrite Hw2, Hw0).
  destruct project as [pid|]; apply bind_inr_inv in H as (r1 & w3 & Hrun & H); apply attempt_inv in Hrun.
  - destruct r1 as [err|rev].
    + destruct (seqb key "") eqn:E; [done|]. by eapply replay_post_inv.
    + m_inv. unfold mutate_in in Hrun. m_inv. apply withTx_inr_inv in Hrun as ([b|b] & wx & Hb & -> & Hw).
      * apply mutate_core_inv in Hb as (row & t & t' & wa & wb & _ & -> & _ & Hwa & Hins & _ & Hwx). rewrite Hw, Hwx. simpl in Hwa. rewrite Ha in Hwa.
        assert (forum_inv (w_db wa)) as Hia by (rewrite Hwa; by apply forum_inv_core).
        rewrite (posted_stored _ _ _ _ _ _ _ _ _ _ _ Hia Hkey Hins). split; [done|apply samePost_posted].
      * unfold mutateTx_in in Hb. m_inv.
  - destruct r1 as [[err|err|err|err]|[]]; [done|by eapply replay_post_inv..|].
    m_inv. unfold ownTx in Hrun. apply withTx_inr_inv in Hrun as ([b|b] & wx & Hb & _ & Hw); m_inv.
    rewrite Hw, <- (set_core_same (w_db wx)). simpl in *.
    match goal with Hi : post_insert _ _ _ _ _ _ _ ?w0 = _ |- _ =>
      assert (forum_inv (w_db w0)) as Hia by (simpl; by rewrite Ha); rewrite (posted_stored _ _ _ _ _ _ _ _ _ _ _ Hia Hkey Hi) end.
    split; [done|exact (samePost_posted req id None 0 created)].
Qed.

Lemma requestStorageKey_nonempty actor session request : request <> "" -> requestStorageKey actor session request <> "".
Proof.
  intros Hr. unfold requestStorageKey. apply seqb_false in Hr. rewrite Hr. cbv zeta. by destruct (pretty _).
Qed.

(** A post that came through is stored under the key of its request. *)
Lemma post_stored `{UrlParser} req env w p w1 :
  forum_inv (w_db w) -> alone env -> Post_ req env w = (inr p, w1) ->
  exists mentions, normalizeMentionPrincipals (pq_MentionPrincipals req) [] = Some mentions /\
    let req' := with_mentions mentions req in let key := requestStorageKey (pq_ActorID req) (pq_SessionID req) (pq_RequestID req) in
    valid_post req' = true /\ key <> "" /\
    stored_post key (pq_RequestID req) (w_db w1) = inr p /\ samePost p req' = true.
Proof.
  intros Hinv Ha Hrun. unfold Post_ in Hrun. destruct (normalizeMentionPrincipals _ _) as [l|]; [|done]. exists l. split; [done|]. cbv zeta in *.
  set (req' := with_mentions l req) in *. apply bind_inr_inv in Hrun as ([] & w0 & Hv & Hrun). apply require_inr_inv in Hv as [Hv <-].
  assert (pq_RequestID req <> "") as Hid by (unfold valid_post in Hv; bool_inv; done).
  pose proof (requestStorageKey_nonempty (pq_ActorID req) (pq_SessionID req) _ Hid) as Hkey. simpl in Hrun.
  set (key := requestStorageKey (pq_ActorID req) (pq_SessionID req) (pq_RequestID req)) in *.
  split; [done|]. split; [done|]. pose proof Hkey as Hkey'. apply seqb_false in Hkey'. rewrite Hkey' in Hrun.
  apply bind_inr_inv in Hrun as (prior & w2 & Hp & Hrun). apply attempt_inv in Hp. destruct prior as [err|q].
  - destruct err; try done. apply bind_inr_inv in Hrun as (topic & w3 & Ht & Hrun). unfold direct in Ht. apply read_alone in Ht as [_ Hw3]; [|done].
    eapply (publish_stored req' key (tp_project topic) env w3); [|done|done|exact Hrun].
    assert (w_db w2 = w_db w) as Hw2; [|by rewrite Hw3, Hw2].
    refine (proj1 (postByRequest_holds (fun d => d = w_db w) env _ key (pq_RequestID req) w _ w2 eq_refl Hp)).
    intros n x ->. apply Ha.
  - apply postByRequest_reads in Hp as [Hp Hw2]; [|done]. destruct (samePost q req') eqn:E; m_inv. by rewrite Hw2.
Qed.

(** What a later request under the same key is told. *)
Definition repeat_answer `{UrlParser} (p : Post) (other : PostRequest) : Err + Post :=
  match normalizeMentionPrincipals (pq_MentionPrincipals other) [] with
  | Some mentions =>
      if valid_post (with_mentions mentions other) then
        if samePost p (with_mentions mentions other) then inr p else inl ErrConflict
      else inl ErrInvalid
  | None => inl ErrInvalid
  end.

(** A post request that succeeded, even one whose commit reported an error
    and was found to have been made, is made once: repeating it returns the same
    post (with its attachments and mentions as sent and in order) and changes
    nothing, and any other request under the same key is refused or, when it asks
    for the same post, answered with it, again without writing. *)
Theorem post_made_once `{UrlParser} req env env' w p w1 n :
  forum_inv (w_db w) -> alone env -> quiet env' -> Post_ req env w = (inr p, w1) ->
  (exists m, Post_ req env' (mkWorld (w_db w1) n) = (inr p, mkWorld (w_db w1) m)) /\
  forall other, pq_ActorID other = pq_ActorID req -> pq_SessionID other = pq_SessionID req -> pq_RequestID other = pq_RequestID req ->
    exists m, Post_ other env' (mkWorld (w_db w1) n) = (repeat_answer p other, mkWorld (w_db w1) m).
Proof.
  intros Hinv Ha Hq Hrun. destruct (post_stored _ _ _ _ _ Hinv Ha Hrun) as (l & Hl & Hv & Hkey & Hst & Hsame).
  assert (Hrep : forall other, pq_ActorID other = pq_ActorID req -> pq_SessionID other = pq_SessionID req -> pq_RequestID other = pq_RequestID req ->
    exists m, Post_ other env' (mkWorld (w_db w1) n) = (repeat_answer p other, mkWorld (w_db w1) m)).
  { intros other H1 H2 H3. unfold Post_, repeat_answer. destruct (normalizeMentionPrincipals (pq_MentionPrincipals other) []) as [l'|]; [|by exists n].
    cbv zeta. unfold bind at 1, require. destruct (valid_post (with_mentions l' other)); [|by exists n]. cbn [ret].
    cbn [pq_ActorID pq_SessionID pq_RequestID with_mentions]. rewrite H1, H2, H3. apply seqb_false in Hkey. rewrite Hkey.
    destruct (postByRequest_quiet _ (pq_RequestID req) env' (mkWorld (w_db w1) n) p Hq Hst) as [m Hm].
    exists m. unfold bind, attempt. rewrite Hm. by destruct (samePost p (with_mentions l' other)). }
  split; [|done]. destruct (Hrep req) as [m Hm]; [done..|]. exists m. rewrite Hm. unfold repeat_answer. by rewrite Hl, Hv, Hsame.
Qed.

(** ** A small forum *)

Module ForumDemo.

#[local] Instance demo_urls : UrlParser := fun s =>
  if seqb s "https://github.com/o/r"
  then Some {| u_Scheme := "https"; u_Host := "github.com"; u_Hostname := "GitHub.com"; u_User := false; u_Fragment := "" |}
  else None.

Definition demo_project : project_row :=
  {| p_name := "Demo"; p_status := "active"; p_purpose := ""; p_milestone := ""; p_now := ""; p_revision := 0; p_created := 0; p_updated := 0 |}.
Definition core0 : DB := set_projects {["demo" := demo_project]} db_empty.
Definition db0 : FDB := mkFDB core0 ∅ ∅ ∅ [] ∅ ∅ ∅ ∅ ∅ ∅ ∅ ∅.
Definition calm : Env FDB := fun n => mkTick None false (Z.of_nat n) (pretty n) id.

Lemma core0_ok : core_inv core0.
Proof.
  destruct core_inv_empty as [_ _ _ [] [] H6 []]. split; [..|exact H6|]; try (constructor; assumption).
  - intros p k. simpl. rewrite lookup_empty. split; [by intros []|].
    intros (row & Hrow & Hk). apply lookup_singleton_Some in Hrow as [_ <-]. simpl in Hk. lia.
  - apply map_Forall_singleton. simpl. lia.
  - intros id row. simpl. by rewrite lookup_empty.
Qed.

Lemma db0_ok : forum_inv db0.
Proof.
  split; simpl; try done; split; simpl; try done.
  - intros k s. exists [], 0. split; [constructor|]. intros p r. rewrite lookup_empty. split; [done|]. by intros ([] & ? & _).
  - intros k s. rewrite lookup_empty. split; [by intros []|]. by intros (i & n & ? & _).
  - intros k. by rewrite !lookup_empty.
  - intros r Hr. inversion Hr.
Qed.

Lemma forum_calm_alone : alone calm.
Proof. done. Qed.
Lemma forum_calm_quiet : quiet calm.
Proof. done. Qed.
Lemma forum_calm_others n d : forum_step d (tk_others (calm n) d).
Proof. reflexivity. Qed.

Definition demo_session (id : string) : ForumOp := OpSession {| si_ID := id; si_Host := "h"; si_ProjectID := "demo"; si_Purpose := "p" |}.
Definition demo_post : PostRequest :=
  {| pq_TopicID := "demo-topic"; pq_Kind := "finding"; pq_Title := "T"; pq_Body := "B"; pq_Basis := "S"; pq_Ref := "";
     pq_ActorID := ""; pq_ActorKind := "agent"; pq_ActorPrincipal := ""; pq_SessionID := "author"; pq_RequestID := "r1";
     pq_Attachments := [{| at_Kind := "github"; at_URL := "https://github.com/o/r"; at_Title := "" |}];
     pq_MentionPrincipals := ["helper"; HumanLocalPrincipal] |}.
Definition demo_comment (session post : string) : CommentRequest :=
  {| cq_PostID := post; cq_Body := "see me"; cq_Intent := "answer"; cq_ActorID := ""; cq_ActorKind := "agent"; cq_ActorPrincipal := "";
     cq_SessionID := session; cq_RequestID := "c1"; cq_MentionSessionIDs := []; cq_MentionPrincipals := [session] |}.
Definition demo_scope (session post scope : string) (base : Z) : PerspectiveScopeRequest :=
  {| vq_PostID := post; vq_Scope := scope; vq_ActorID := ""; vq_SessionID := session; vq_RequestID := "v" +:+ pretty base;
     vq_BaseRevision := base; vq_AuthorOnly := true |}.

Definition setup : list ForumOp :=
  [demo_session "author"; demo_session "helper"; demo_session "reader";
   OpTopic {| ti_ID := "demo-topic"; ti_ProjectID := "demo"; ti_Name := "Demo" |}].
Definition posted_db : FDB := Eval vm_compute in forum_after (setup ++ [OpPost demo_post]) calm db0.
Definition post_ids : list string := Eval vm_compute in (map_to_list (f_posts posted_db)).*1.
Definition post_id : string := Eval vm_compute in default "" (head post_ids).
Definition note_id : string := Eval vm_compute in default "" (head (map_to_list (f_notifications posted_db)).*1).
Definition read_note (request : string) : MarkNotificationReadRequest :=
  {| mq_NotificationID := note_id; mq_RecipientPrincipal := HumanLocalPrincipal; mq_ActorID := "human"; mq_RequestID := request |}.
Definition story : list ForumOp :=
  setup ++ [OpPost demo_post; OpComment (demo_comment "helper" post_id); OpScope (demo_scope "author" post_id "project" 0);
            OpScope (demo_scope "author" post_id "commons" 1); OpMarkRead (read_note "m1"); OpMarkRead (read_note "m2");
            OpPostState {| sq_PostID := post_id; sq_State := "resolved"; sq_SupersededBy := ""; sq_ActorID := ""; sq_SessionID := "author"; sq_RequestID := "st1" |}].

(** A post, a comment and a state of the project, logged at revisions 1 to 3. *)
Lemma forum_refines_core_witness :
  let d' := forum_after story calm db0 in
  core_inv (f_core d') /\ size (f_posts d') = 1%nat /\ p_revision <$> projects (f_core d') !! "demo" = Some 3 /\
  (forall id p, f_posts d' !! id = Some p -> logged_at (f_core d') "post" id (p_proj p) (p_rev p)).
Proof.
  destruct (forum_refines_core story calm db0 forum_calm_others db0_ok core0_ok) as (_ & Hc & Hp & _).
  split; [exact Hc|]. split; [vm_compute; reflexivity|]. split; [vm_compute; reflexivity|exact Hp].
Defined.

Definition story_db : FDB := Eval vm_compute in forum_after story calm db0.
Definition story_scope : scope_row := Eval vm_compute in default (closed_scope 0) (f_scopes story_db !! post_id).
Definition story_note : notification_row :=
  Eval vm_compute in default (notification_of "" "" "" "" "" "" "" 0) (f_notifications story_db !! note_id).

Lemma scope_history_gapless_witness :
  f_scopes (forum_after story calm db0) !! post_id = Some story_scope /\ sc_revision story_scope = 2 /\ sc_scope story_scope = "commons" /\
  forall k, (exists id e, scope_event_at (forum_after story calm db0) post_id k id e) <-> 1 <= k <= sc_revision story_scope.
Proof.
  split; [vm_compute; reflexivity|]. split; [reflexivity|]. split; [reflexivity|].
  refine (proj1 (scope_history_gapless story calm db0 post_id story_scope _ forum_calm_others db0_ok _ _)); vm_compute; reflexivity.
Defined.

Lemma human_notified_once_witness :
  let d' := forum_after story calm db0 in
  f_notifications d' !! note_id = Some story_note /\ nt_read story_note = Some 75 /\
  (exists id n, f_notifications d' !! id = Some n /\ names "post" post_id n) /\
  (exists j r, f_receipts d' !! j = Some r /\ rc_notification r = note_id) /\
  forall j r, f_receipts d' !! j = Some r -> rc_notification r = note_id -> rc_read r = Some 75.
Proof.
  destruct (human_notified_once story calm db0 forum_calm_others db0_ok) as (Hn & _ & Hr & _).
  assert (Hid : f_notifications (forum_after story calm db0) !! note_id = Some story_note) by (vm_compute; reflexivity).
  destruct (Hr _ _ Hid) as [Hread Hsame]. split; [exact Hid|]. split; [reflexivity|]. split.
  - destruct (proj1 (Hn "post" post_id)) as (id & n & H1 & H2 & _); [vm_compute; eauto|]. exists id, n. split; assumption.
  - split; [apply Hread; discriminate|exact Hsame].
Defined.

(** The reader keeps trying: a comment on the post that names the reader, a new
    scope, and another registration. *)
Definition attempts : list ForumOp :=
  [OpComment (demo_comment "reader" post_id); OpScope (demo_scope "reader" post_id "commons" 0); demo_session "reader";
   OpPost (with_mentions ["reader"] demo_post)].

Lemma posted_private : private post_id (eq "reader") posted_db.
Proof.
  eexists. split; [vm_compute; reflexivity|]. split; [reflexivity|]. intros v <-. split; [discriminate|]. split; [reflexivity|].
  intros c row Hc. vm_compute in Hc. discriminate.
Qed.

Lemma closed_post_stays_hidden_witness :
  (CanDiscoverPost "agent" "reader" post_id calm (mkWorld (forum_after attempts calm posted_db) 0)).1 = inr false /\
  (CanDiscoverPost "agent" "helper" post_id calm (mkWorld (forum_after attempts calm posted_db) 0)).1 = inr true.
Proof.
  split; [|vm_compute; reflexivity].
  destruct (closed_post_stays_hidden attempts calm posted_db post_id (eq "reader")) as (p & _ & Hall).
  - intros n d Hd. exact Hd.
  - exact posted_private.
  - repeat (constructor; [solve [exact I | right; split; reflexivity]|]). constructor.
  - apply (Hall "reader" 0%nat); [reflexivity|exact forum_calm_quiet|discriminate|discriminate].
Defined.

(** A commit that reports an error but was made, found again by its key. *)
Definition torn : Env FDB := fun n => mkTick (if Nat.eqb n 19 then Some FIO else None) true (Z.of_nat n) (pretty n) id.
Definition setup_db : FDB := Eval vm_compute in forum_after setup calm db0.
Lemma setup_ok : forum_inv setup_db.
Proof.
  change (forum_inv (forum_after setup calm db0)). destruct (forum_run setup calm db0 forum_calm_others) as [_ _ H]. apply H, db0_ok.
Qed.
Definition torn_run : (Err + Post) * World FDB := Eval vm_compute in Post_ demo_post torn (mkWorld setup_db 0).

Lemma post_made_once_witness : exists p w1,
  Post_ demo_post torn (mkWorld setup_db 0) = (inr p, w1) /\ po_MentionPrincipals p = ["helper"; HumanLocalPrincipal] /\
  size (f_posts (w_db w1)) = 1%nat /\
  (exists m, Post_ demo_post calm (mkWorld (w_db w1) 0) = (inr p, mkWorld (w_db w1) m)) /\
  exists m, Post_ (with_mentions [] demo_post) calm (mkWorld (w_db w1) 0) = (inl ErrConflict, mkWorld (w_db w1) m).
Proof.
  exists (match torn_run.1 with inr p => p | inl _ => as_posted demo_post "" None 0 0 end), torn_run.2.
  assert (Hrun : Post_ demo_post torn (mkWorld setup_db 0) = (inr (match torn_run.1 with inr p => p | inl _ => as_posted demo_post "" None 0 0 end), torn_run.2))
    by (vm_compute; reflexivity).
  destruct (post_made_once demo_post torn calm (mkWorld setup_db 0) _ _ 0%nat setup_ok (fun _ _ => eq_refl) forum_calm_quiet Hrun) as [Hsame Hother].
  split; [exact Hrun|]. split; [reflexivity|]. split; [vm_compute; reflexivity|]. split; [exact Hsame|].
  destruct (Hother (with_mentions [] demo_post) eq_refl eq_refl eq_refl) as [m Hm]. exists m. exact Hm.
Defined.
End ForumDemo.
