(* ===== verification/ForumPages.v ===== *)
(** * Reading a list through its pages

    A client that starts with no cursor and follows [NextCursor] until it is
    empty.  The list is read while others write: every page is a snapshot of
    its own.  Whatever they write, a row that is on the list throughout is read
    once, nothing is read twice and the order is that of the list; and when
    nobody writes, the client comes to the end and has read the whole list. *)

From Stdlib Require Import ZArith Lia Ascii.
From stdpp Require Import base gmap strings list sets sorting pretty relations.
From S2P Require Import Prelude GoText Stamp Cursor CoreDB ProjectCore Claims CoreSpec Forum ForumReads ForumService ForumSpec ForumOutcome.

Local Open Scope Z_scope.
Local Open Scope prog_scope.

(** The items of all pages, or nothing when [fuel] pages were not enough. *)
Fixpoint read_all {A} (fuel : nat) (page : string -> M FDB Err (list A * string)) (cursor : string) : M FDB Err (option (list A)) :=
  match fuel with
  | O => ret None
  | S fuel' =>
      got <-- page cursor ;;
      if seqb got.2 "" then ret (Some got.1)
      else rest <-- read_all fuel' page got.2 ;; ret (app got.1 <$> rest)
  end.

(** The pages of such a reading, each with the database it was read from: the
    one its transaction found, after what others had done by then. *)
Fixpoint page_trace {A} (fuel : nat) (page : string -> M FDB Err (list A * string)) (cursor : string) (env : Env FDB) (w : World FDB)
    : list (list A * FDB) :=
  match fuel with
  | O => []
  | S fuel' =>
      match page cursor env w with
      | (inr (shown, next), w1) =>
          (shown, tk_others (env (w_tick w)) (w_db w)) :: (if seqb next "" then [] else page_trace fuel' page next env w1)
      | _ => []
      end
  end.

(** What others do between two calls. *)
Definition others (env : Env FDB) : relation FDB := fun d d' => exists n, d' = tk_others (env n) d.

Lemma elem_of_take_weaken {A} (x : A) n l : x ∈ take n l -> x ∈ l.
Proof. intros (i & Hi & _)%elem_of_take. by eapply list_elem_of_lookup_2. Qed.

Lemma StronglySorted_take_n {A} (R : relation A) n l : StronglySorted R l -> StronglySorted R (take n l).
Proof. rewrite <- (take_drop n l) at 1. apply StronglySorted_app_1_l. Qed.

(** ** Any list in a strict order *)
Section Walk.
Context {A K : Type} (before : K -> K -> bool) (key : A -> K) (L : FDB -> list K) (limit : nat).
Context (page : string -> M FDB Err (list A * string)) (at_ : option K -> string -> Prop) (good : FDB -> Prop) (env : Env FDB).

Definition after (k : option K) (x : K) : bool := match k with None => true | Some c => before c x end.
Definition rest (d : FDB) (k : option K) : list K := List.filter (after k) (L d).

(** A page shows the first rows after its cursor, and hands out a cursor at
    the last of them exactly when there are more. *)
Definition page_ok : Prop := forall k c w items next w1,
  at_ k c -> good (tk_others (env (w_tick w)) (w_db w)) -> page c env w = (inr (items, next), w1) ->
  w_db w1 = tk_others (env (w_tick w)) (w_db w) /\
  key <$> items = take limit (rest (w_db w1) k) /\
  if seqb next "" then (length (rest (w_db w1) k) <= limit)%nat
  else (limit < length (rest (w_db w1) k))%nat /\ forall x, last items = Some x -> at_ (Some (key x)) next.

Context (Hlim : (0 < limit)%nat) (Hirr : forall x, before x x = false) (Hasym : forall x y, before x y = true -> before y x = false).
Context (Htrans : forall x y z, before x y = true -> before y z = true -> before x z = true).
Notation R := (fun x y => before x y = true).
Context (Hsorted : forall d, StronglySorted R (L d)) (Hpage : page_ok) (Hgood : stable good env).

Lemma rest_elem d k x : x ∈ rest d k <-> x ∈ L d /\ after k x = true.
Proof. unfold rest. by rewrite !list_elem_of_In, filter_In. Qed.

Lemma rest_sorted d k : StronglySorted R (rest d k).
Proof.
  unfold rest. specialize (Hsorted d). induction Hsorted as [|x l Hl IH Hx]; simpl; [constructor|].
  destruct (after k x); [|done]. constructor; [done|]. apply Forall_forall. intros y Hy.
  apply list_elem_of_In, filter_In in Hy as [Hy _]. rewrite Forall_forall in Hx. by apply Hx, list_elem_of_In.
Qed.

(** The rows that a page leaves are those after its last one. *)
Lemma rest_next d k l0 c : take limit (rest d k) = l0 ++ [c] -> rest d (Some c) = drop limit (rest d k).
Proof.
  intros Htake. pose proof (rest_sorted d k) as Hs. rewrite <- (take_drop limit (rest d k)), Htake, <- app_assoc in Hs. simpl in Hs.
  assert (Hc : c ∈ rest d k) by (rewrite <- (take_drop limit (rest d k)), Htake; set_solver).
  assert (rest d (Some c) = List.filter (before c) (rest d k)) as ->.
  { unfold rest. apply rest_elem in Hc as [_ Hc]. clear -Hc Htrans. induction (L d) as [|x l IH]; [done|]. simpl.
    destruct (before c x) eqn:E; destruct (after k x) eqn:E'; simpl; rewrite ?E, ?IH; try done. exfalso.
    destruct k as [b|]; simpl in *; [|done]. by rewrite (Htrans _ _ _ Hc E) in E'. }
  rewrite <- (take_drop limit (rest d k)) at 1. rewrite Htake, <- app_assoc. simpl. by apply (filter_after before Hirr Hasym).
Qed.

Lemma read_all_db fuel k c w items w1 :
  good (w_db w) -> at_ k c -> read_all fuel page c env w = (inr (Some items), w1) ->
  StronglySorted R (key <$> items) /\ Forall (fun x => after k (key x) = true) items /\
  (items = concat (page_trace fuel page c env w).*1 /\
   Forall (fun pg => (forall i, i ∈ pg.1 -> key i ∈ L pg.2) /\ rtc (others env) (w_db w) pg.2 /\ rtc (others env) pg.2 (w_db w1))
     (page_trace fuel page c env w)) /\
  rtc (others env) (w_db w) (w_db w1) /\
  forall x (P : FDB -> Prop), stable P env -> (forall d, P d -> x ∈ L d) -> P (w_db w) -> after k x = true -> x ∈ key <$> items.
Proof.
  induction fuel as [|fuel IH] in k, c, w, items, w1 |- *; intros Hg Hat Hrun; simpl in Hrun; [done|].
  apply bind_inr_inv in Hrun as ([shown next] & w2 & Hrun0 & Hrun). simpl in Hrun.
  destruct (Hpage _ _ _ _ _ _ Hat (Hgood _ _ Hg) Hrun0) as (Hdb & Hshown & Hnext). cbn [page_trace]. rewrite Hrun0, <-Hdb.
  assert (Hstep : rtc (others env) (w_db w) (w_db w2)) by (apply rtc_once; exists (w_tick w); done).
  assert (Hkept : forall P, stable P env -> P (w_db w) -> P (w_db w2)) by (intros P HP Hw; rewrite Hdb; by apply HP).
  assert (Hin : forall x, x ∈ key <$> shown -> x ∈ L (w_db w2) /\ after k x = true).
  { intros x Hx. apply rest_elem. rewrite Hshown in Hx. by eapply elem_of_take_weaken. }
  assert (Hsrt : StronglySorted R (key <$> shown)) by (rewrite Hshown; by apply StronglySorted_take_n, rest_sorted).
  assert (Hlisted : forall i, i ∈ shown -> key i ∈ L (w_db w2)) by (intros i Hi; by apply Hin, list_elem_of_fmap_2).
  clear Hdb. destruct (seqb next "") eqn:En.
  - apply ret_inr_inv in Hrun as [[= <-] <-]. split; [done|split; [|split; [|split; [done|]]]].
    + apply Forall_forall. intros x Hx. by apply Hin, list_elem_of_fmap_2.
    + split; [simpl; by rewrite app_nil_r|]. by repeat constructor.
    + intros x P HP Hl Hw Hk. rewrite Hshown, take_ge by done. apply rest_elem. split; [|done]. by apply Hl, Hkept.
  - destruct Hnext as [Hlen Hcur]. apply bind_inr_inv in Hrun as ([more|] & w3 & Hrun1 & [[= <-] <-]%ret_inr_inv).
    destruct (last shown) as [x|] eqn:Hlast.
    2: { apply last_None in Hlast. subst shown. apply (f_equal length) in Hshown. rewrite length_take in Hshown. simpl in Hshown. lia. }
    apply last_Some in Hlast as [l0 ->]. specialize (Hcur x eq_refl). rewrite fmap_app in Hshown. simpl in Hshown.
    destruct (IH _ _ _ _ _ (Hkept good Hgood Hg) Hcur Hrun1) as (H1 & H2 & H3 & H4 & H5).
    assert (Hx : after k (key x) = true) by (apply Hin; rewrite fmap_app; set_solver).
    assert (Hafter : forall y, before (key x) y = true -> after k y = true).
    { intros y Hy. destruct k as [b|]; [|done]. simpl in *. by eapply Htrans. }
    split; [|split; [|split; [|split]]].
    + rewrite !fmap_app in *. simpl in *. apply StronglySorted_app. split_and!; [|done|done].
      intros a b Ha Hb. apply list_elem_of_fmap in Hb as (i & -> & Hi). rewrite Forall_forall in H2. specialize (H2 i Hi). simpl in H2.
      apply elem_of_app in Ha as [Ha| ->%list_elem_of_singleton]; [|done]. eapply Htrans; [|done].
      apply StronglySorted_app in Hsrt as (Hs & _ & _). apply Hs; [done|left].
    + apply Forall_app. split; [apply Forall_forall; intros y Hy; by apply Hin, list_elem_of_fmap_2|].
      eapply Forall_impl; [exact H2|]. intros y Hy. by apply Hafter.
    + destruct H3 as [-> H3]. split; [done|]. constructor; [done|]. eapply Forall_impl; [exact H3|].
      intros pg (? & ? & ?). split_and!; [done|by etrans|done].
    + by etrans.
    + intros y P HP Hl Hw Hk. rewrite fmap_app, elem_of_app. destruct (before (key x) y) eqn:Ey; [right; by apply (H5 y P HP Hl (Hkept P HP Hw))|]. left.
      assert (Hy : y ∈ rest (w_db w2) k) by (apply rest_elem; split; [by apply Hl, Hkept|done]).
      rewrite <- (take_drop limit (rest _ k)), elem_of_app in Hy. rewrite fmap_app. simpl. rewrite Hshown. destruct Hy as [Hy|Hy]; [done|].
      exfalso. rewrite <- (rest_next (w_db w2) k (key <$> l0) (key x)) in Hy by done. apply rest_elem in Hy as [_ Hy]. simpl in Hy. congruence.
Qed.

(** When nobody writes, enough pages give the whole list. *)
Lemma read_all_quiet fuel k c w :
  (forall k c w, at_ k c -> good (w_db w) -> exists items next w1, page c env w = (inr (items, next), w1)) -> alone env ->
  good (w_db w) -> at_ k c -> (length (rest (w_db w) k) < fuel)%nat ->
  exists items w1, read_all fuel page c env w = (inr (Some items), w1) /\ w_db w1 = w_db w /\ key <$> items = rest (w_db w) k.
Proof.
  intros Hok Ha. induction fuel as [|fuel IH] in k, c, w |- *; intros Hg Hat Hfuel; [lia|]. simpl.
  destruct (Hok k c w Hat Hg) as (shown & next & w2 & Hrun). unfold bind at 1. rewrite Hrun. simpl.
  destruct (Hpage _ _ _ _ _ _ Hat (Hgood _ _ Hg) Hrun) as (Hdb & Hshown & Hnext). rewrite Ha in Hdb. rewrite Hdb in *.
  destruct (seqb next "") eqn:En.
  - exists shown, w2. split_and!; [done|done|]. rewrite Hshown. by apply take_ge.
  - destruct Hnext as [Hlen Hcur]. destruct (last shown) as [x|] eqn:Hlast.
    2: { apply last_None in Hlast. subst shown. apply (f_equal length) in Hshown. rewrite length_take in Hshown. simpl in Hshown. lia. }
    apply last_Some in Hlast as [l0 ->]. rewrite fmap_app in Hshown. simpl in Hshown.
    pose proof (rest_next (w_db w) k (key <$> l0) (key x) ltac:(done)) as Hrest.
    destruct (IH (Some (key x)) next w2) as (more & w3 & Hmore & Hdb3 & Hkeys); [by rewrite Hdb|by apply Hcur|..].
    { rewrite Hdb, Hrest, length_drop. lia. }
    exists ((l0 ++ [x]) ++ more), w3. unfold bind. rewrite Hmore, <- Hdb. split_and!; [done|done|].
    rewrite !fmap_app, Hkeys, Hdb, Hrest. change (key <$> [x]) with [key x]. by rewrite Hshown, take_drop.
Qed.
End Walk.

(** ** Transactions that only read *)

Definition reads_only {E A} (m : M FDB E A) : Prop := forall env w r w', m env w = (r, w') -> w_db w' = w_db w.

Lemma ro_ret {E A} (a : A) : reads_only (E := E) (ret a).
Proof. by intros env w r w' [= <- <-]. Qed.
Lemma ro_throw {E A} (e : E) : reads_only (A := A) (throw e).
Proof. by intros env w r w' [= <- <-]. Qed.
Lemma ro_bind {E A B} (m : M FDB E A) (f : A -> M FDB E B) : reads_only m -> (forall a, reads_only (f a)) -> reads_only (bind m f).
Proof.
  intros Hm Hf env w r w'. unfold bind. destruct (m env w) as [[e|a] w1] eqn:E1; intros Hr; [simplify_eq; eauto|].
  rewrite (Hf a _ _ _ _ Hr). eauto.
Qed.
Lemma ro_mapE {E E' A} (g : E -> E') (m : M FDB E A) : reads_only m -> reads_only (mapE g m).
Proof. intros Hm env w r w'. unfold mapE. destruct (m env w) as [[e|a] w1] eqn:E1; intros Hr; simplify_eq; eauto. Qed.
Lemma ro_query {A} (q : FDB -> SqlErr + A) : reads_only (exec (query q)).
Proof.
  intros env w r w'. unfold exec, query. destruct (tk_fault _); [by intros [= <- <-]|]. destruct (q (w_db w)); by intros [= <- <-].
Qed.
Lemma ro_mapM {E A B} (f : A -> M FDB E B) l : (forall x, reads_only (f x)) -> reads_only (mapM f l).
Proof.
  intros Hf. induction l as [|x l IH]; simpl; [apply ro_ret|]. apply ro_bind; [done|]. intros y. apply ro_bind; [done|].
  intros ys. apply ro_ret.
Qed.
Lemma ro_attachments post : reads_only (readPostAttachments fq_tx post).
Proof. apply ro_mapE, ro_query. Qed.
Lemma ro_mentions kind sources : reads_only (readContentMentions fq_tx kind sources).
Proof. destruct sources; [apply ro_ret|]. apply ro_mapE, ro_query. Qed.

Lemma ro_inner {A} (m : M FDB Err A) : reads_only m -> reads_only (inner m).
Proof. apply ro_mapE. Qed.

Create HintDb ro.
#[export] Hint Resolve ro_ret ro_throw ro_bind ro_mapE ro_query ro_mapM ro_inner ro_attachments ro_mentions : ro.

Lemma mapM_inr_inv {E A B} (f : A -> M FDB E B) l env w ys w' :
  mapM f l env w = (inr ys, w') -> Forall2 (fun x y => exists w1 w2, f x env w1 = (inr y, w2)) l ys.
Proof.
  induction l as [|x l IH] in w, ys |- *; simpl; intros Hrun; m_inv; [constructor|]. constructor; eauto.
Qed.

(** ** Cursors of lists ordered by time *)

Section Lists.
Context `{CursorJSONLaws, SqlTime, FullText}.

Definition cursor_of (t : Z) (id : string) : BrowseCursor := {| bc_Time := t; bc_Text := ""; bc_ID := id |}.

(** A row whose cursor can be handed out and taken back. *)
Record cursorable (resource : string) (t : Z) (id : string) : Prop := {
  cu_text : cursor_text_ok (opaque_of resource (cursor_of t id));
  cu_id : boundedHomeValue id maxHomeIdentifier = true;
  cu_time : in_range t;
  cu_set : IsZero t = false;
  cu_length : len (json_cursor (opaque_of resource (cursor_of t id))) <= 384;
}.

(** The position that a cursor's text stands for. *)
Definition starts_at (resource : string) (k : option (Z * string)) (c : string) : Prop :=
  exists cur, time_cursor resource c = inr cur /\ k = (fun c => (julianday (bc_Time c), bc_ID c)) <$> cur /\
    match cur with Some c => IsZero (bc_Time c) = false /\ boundedHomeValue (bc_ID c) maxHomeIdentifier = true | None => True end.

Lemma boundedHomeValue_nonempty id n : boundedHomeValue id n = true -> id <> "".
Proof. unfold boundedHomeValue. rewrite !andb_true_iff, negb_true_iff. intros [[Hid _] _]. by apply seqb_false. Qed.

Lemma starts_first resource : starts_at resource None "".
Proof. by exists None. Qed.

Lemma starts_next resource t id : cursorable resource t id -> starts_at resource (Some (julianday t, id)) (encodeCursor resource (cursor_of t id)).
Proof.
  intros [Ht Hid Hr Hz Hl]. exists (Some (cursor_of t id)). unfold time_cursor.
  rewrite decode_encode; [|done|by eapply boundedHomeValue_nonempty|by right]. rewrite seqb_refl, (proj2 (Z.leb_le _ _)) by done.
  simpl. by rewrite Hz.
Qed.

Lemma cursor_nonempty resource t id : cursorable resource t id -> encodeCursor resource (cursor_of t id) <> "".
Proof.
  intros Hc E. destruct (starts_next _ _ _ Hc) as (cur & Hcur & Hk & _). rewrite E in Hcur. by injection Hcur as <-.
Qed.

Lemma after_cursor_at td sd cur x :
  after_cursor td sd cur x = after (key_before td sd) ((fun c => (julianday (bc_Time c), bc_ID c)) <$> cur) x.
Proof. by destruct cur. Qed.

(** What [next_cursor] makes of the first rows of a list, one more than the
    limit. *)
Lemma next_cursor_ok {A K} (created : A -> Z) (id : A -> string) (g : A -> K) resource limit items (l : list K) shown next :
  next_cursor resource created id limit items = (shown, next) -> 1 <= limit -> g <$> items = take (Z.to_nat (limit + 1)) l ->
  (forall x, x ∈ items -> cursorable resource (created x) (id x)) ->
  g <$> shown = take (Z.to_nat limit) l /\
  if seqb next "" then (length l <= Z.to_nat limit)%nat
  else (Z.to_nat limit < length l)%nat /\ forall x, last shown = Some x -> starts_at resource (Some (julianday (created x), id x)) next.
Proof.
  unfold next_cursor. intros Hnext Hlim Hitems Hgood.
  assert (Hlen : length items = Nat.min (Z.to_nat (limit + 1)) (length l)).
  { apply (f_equal length) in Hitems. by rewrite length_fmap, length_take in Hitems. }
  destruct (Z.ltb_spec limit (Z.of_nat (length items))) as [Hlt|Hge]; simplify_eq.
  - rewrite fmap_take, Hitems, take_take. replace (_ `min` _)%nat with (Z.to_nat limit) by lia. split; [done|].
    destruct (last (take (Z.to_nat limit) items)) as [x|] eqn:Hx.
    + assert (cursorable resource (created x) (id x)) as Hc.
      { apply Hgood. apply last_Some in Hx as [l0 Hx]. apply (elem_of_take_weaken x (Z.to_nat limit)). rewrite Hx. set_solver. }
      rewrite (proj2 (seqb_false _ _)) by (by apply cursor_nonempty). split; [lia|]. intros y [= <-]. by apply starts_next.
    + apply last_None in Hx. apply (f_equal length) in Hx. rewrite length_take in Hx. simpl in Hx. lia.
  - rewrite seqb_refl, Hitems. split; [|lia]. rewrite !take_ge by lia. done.
Qed.

(** ** The feed *)

Definition with_cursor (c : string) (r : PostFeedRequest) : PostFeedRequest :=
  {| fr_ViewerKind := fr_ViewerKind r; fr_ViewerPrincipal := fr_ViewerPrincipal r; fr_ViewerSession := fr_ViewerSession r;
     fr_Cursor := c; fr_Search := fr_Search r; fr_Topic := fr_Topic r; fr_Project := fr_Project r; fr_Kind := fr_Kind r;
     fr_CreatedFrom := fr_CreatedFrom r; fr_CreatedTo := fr_CreatedTo r; fr_Limit := fr_Limit r |}.

Definition feed_page (me : Identity) (r : PostFeedRequest) (c : string) : M FDB Err (list PostFeedItem * string) :=
  got <-- BrowsePosts me (with_cursor c r) ;; ret (ft_Items got, ft_NextCursor got).

(** The posts that a request lists: those that match and that its viewer may
    discover. *)
Definition feed_posts (r : PostFeedRequest) (d : FDB) : list (string * post_row) :=
  match postDiscoveryPredicate (fr_ViewerKind r) (fr_ViewerSession r), search_text (pb_Filters (feed_query r None 1)) with
  | Some see, inr text =>
      match posts_where (pb_Filters (feed_query r None 1)) text see d with
      | inr rows => List.filter (fun e => bool_decide (is_Some (shown_post d e))) rows
      | inl _ => []
      end
  | _, _ => []
  end.

Definition feed_key (i : PostFeedItem) : Z * string := (julianday (fi_CreatedAt i), fi_ID i).
Definition feed_keys (r : PostFeedRequest) (d : FDB) : list (Z * string) := post_key <$> order_by true false post_key (feed_posts r d).
Definition feed_cursorable (d : FDB) : Prop := forall id p, f_posts d !! id = Some p -> cursorable "posts" (p_at p) id.

Lemma keys_nodup {A} (m : gmap string A) (created : A -> Z) (p : string * A -> bool) :
  NoDup ((fun e => (julianday (created e.2), e.1)) <$> List.filter p (map_to_list m)).
Proof.
  apply (NoDup_fmap_1 snd). rewrite <- list_fmap_compose. pose proof (NoDup_fst_map_to_list m) as Hnd.
  induction (map_to_list m) as [|e l IH]; simpl; [constructor|]. inversion Hnd as [|? ? Hni Hnd']; subst.
  destruct (p e); simpl; [|by apply IH]. constructor; [|by apply IH]. intros Hin. apply Hni.
  apply list_elem_of_fmap in Hin as (x & Hx & Hin). apply list_elem_of_In, filter_In in Hin as [Hin _].
  simpl in Hx. rewrite Hx. by apply list_elem_of_fmap_2, list_elem_of_In.
Qed.

Lemma filter_filter_bool {A} (p q : A -> bool) l : List.filter p (List.filter q l) = List.filter (fun x => q x && p x) l.
Proof. induction l as [|x l IH]; [done|]. simpl. destruct (q x); simpl; [destruct (p x); by rewrite IH|done]. Qed.

Lemma filter_false {A} (l : list A) : List.filter (fun _ => false) l = [].
Proof. by induction l. Qed.

Lemma feed_posts_filter r d : exists p, feed_posts r d = List.filter p (map_to_list (f_posts d)).
Proof.
  unfold feed_posts, posts_where. destruct (postDiscoveryPredicate _ _) as [see|]; [|by exists (fun _ => false); rewrite filter_false].
  destruct (search_text _) as [e|[s|]]; [by exists (fun _ => false); rewrite filter_false| |].
  - destruct (fts_match s) as [hit|]; [rewrite filter_filter_bool; eauto|by exists (fun _ => false); rewrite filter_false].
  - rewrite filter_filter_bool. eauto.
Qed.

Lemma feed_posts_in r d e : e ∈ feed_posts r d -> f_posts d !! e.1 = Some e.2.
Proof.
  destruct (feed_posts_filter r d) as [p ->]. rewrite list_elem_of_In, filter_In, <- list_elem_of_In.
  destruct e as [id row]. by intros [Hin%elem_of_map_to_list _].
Qed.

Lemma feed_posts_nodup r d : NoDup (post_key <$> feed_posts r d).
Proof. destruct (feed_posts_filter r d) as [p ->]. apply (keys_nodup _ p_at). Qed.

Lemma feed_keys_sorted r d : StronglySorted (fun x y => key_before true false x y = true) (feed_keys r d).
Proof.
  unfold feed_keys. pose proof (order_by_strict true false post_key _ (feed_posts_nodup r d)) as Hs.
  induction Hs as [|x l Hl IH Hx]; simpl; constructor; [done|]. by apply Forall_fmap.
Qed.

(** The rows after a position, as the query orders them and as the list has
    them. *)
Lemma filter_fmap {A B} (f : A -> B) (p : B -> bool) l : List.filter p (f <$> l) = f <$> List.filter (fun x => p (f x)) l.
Proof. induction l as [|x l IH]; [done|]. simpl. destruct (p (f x)); simpl; [f_equal|]; exact IH. Qed.

Lemma omap_total {A B} (f : A -> option B) l : (forall x, x ∈ l -> is_Some (f x)) -> Forall2 (fun x y => f x = Some y) l (omap f l).
Proof.
  induction l as [|x l IH]; intros Hl; [constructor|]. destruct (Hl x) as [y Hy]; [left|]. simpl. rewrite Hy.
  constructor; [done|]. apply IH. intros z Hz. apply Hl. by right.
Qed.

Lemma snapshot_inv q env w s w1 : PostBrowseSnapshot q env w = (inr s, w1) ->
  exists see text rows, postDiscoveryPredicate (pb_ViewerKind q) (pb_ViewerSession q) = Some see /\
    search_text (pb_Filters q) = inr text /\ w_db w1 = tk_others (env (w_tick w)) (w_db w) /\
    post_rows q text see (w_db w1) = inr rows /\
    Forall2 (fun r i => bi_ID i = bi_ID r /\ bi_CreatedAt i = bi_CreatedAt r) rows (bs_Items s).
Proof.
  unfold PostBrowseSnapshot. intros Hrun. m_inv1. destruct (postDiscoveryPredicate _ _) as [see|]; [|done].
  apply runTx_inr_inv in Hrun as (w2 & o & Hbody & Hout). destruct (search_text _) as [err|text]; [done|].
  exists see, text. m_inv1. m_inv1. apply bind_inr_inv in Hbody as (items & w5 & Hmap & Hbody).
  apply bind_inr_inv in Hbody as (ms & w6 & Hms & Hbody). m_inv. destruct Hout as [[[= <-] Hdb]|[[=] _]].
  pose proof (mapM_inr_inv _ _ _ _ _ _ Hmap) as Hitems.
  assert (w_db w5 = w_db w4) as E5 by (refine (ro_mapM _ _ _ _ _ _ _ Hmap); intros; apply ro_bind; auto with ro).
  assert (w_db w2 = w_db w5) as E2 by (eapply ro_mapE; [apply ro_mentions|exact Hms]).
  assert (w_db w1 = w_db w3) as E1 by congruence. exists r1. rewrite E1. split_and!; try done. cbn [bs_Items].
  rewrite Forall2_fmap_r. eapply Forall2_impl; [exact Hitems|]. intros x y (wa & wb & Hxy). m_inv. done.
Qed.

Definition item_key (i : PostBrowseItem) : Z * string := (julianday (bi_CreatedAt i), bi_ID i).

(** The rows of a page: the posts of the list after the cursor. *)
Lemma post_rows_keys r see text after_ limit d rows :
  postDiscoveryPredicate (fr_ViewerKind r) (fr_ViewerSession r) = Some see ->
  search_text (pb_Filters (feed_query r None 1)) = inr text ->
  post_rows (feed_query r after_ limit) text see d = inr rows ->
  item_key <$> rows = take (Z.to_nat (limit + 1)) (List.filter (after_cursor true false after_) (feed_keys r d)) /\
  forall i, i ∈ rows -> exists p, f_posts d !! bi_ID i = Some p /\ p_at p = bi_CreatedAt i.
Proof.
  intros Hsee Htext Hrows. pose proof (feed_posts_nodup r d) as Hnd. pose proof (feed_posts_in r d) as Hin.
  unfold feed_keys. rewrite filter_fmap, <- fmap_take, <- (order_by_filter true false post_key _ Hnd).
  unfold feed_posts in *. rewrite Hsee, Htext in *. unfold post_rows in Hrows. cbn [feed_query pb_Filters pb_After pb_Limit] in *.
  destruct (posts_where _ text see d) as [|all]; [done|]. injection Hrows as <-.
  rewrite filter_filter_bool. set (l := take _ _).
  assert (Hl : forall e, e ∈ l -> is_Some (shown_post d e) /\ f_posts d !! e.1 = Some e.2).
  { intros e He. apply elem_of_take_weaken in He. rewrite order_by_perm in He. apply list_elem_of_In, filter_In in He as [He Hok].
    apply andb_true_iff in Hok as [Hok _]. split; [by apply bool_decide_eq_true in Hok|]. apply Hin.
    apply list_elem_of_In, filter_In. done. }
  pose proof (omap_total (shown_post d) l (fun x Hx => proj1 (Hl x Hx))) as Hall. split.
  - clear Hl. induction Hall as [|x y l' ys Hxy _ IH]; [done|]. rewrite !fmap_cons, IH. f_equal.
    unfold shown_post in Hxy. destruct (topics _ !! _); [|done]. by injection Hxy as <-.
  - intros i Hi. apply list_elem_of_lookup in Hi as [n Hi]. destruct (Forall2_lookup_r _ _ _ _ _ Hall Hi) as (e & He & Hei).
    exists e.2. apply list_elem_of_lookup_2, Hl in He as [_ He]. unfold shown_post in Hei. destruct (topics _ !! _); [|done].
    by injection Hei as <-.
Qed.

Lemma feed_limit_pos value limit : postFeedLimit value = Some limit -> 1 <= limit <= 50.
Proof. unfold postFeedLimit. destruct (value =? 0); [intros [= <-]; lia|]. destruct (_ && _) eqn:E; [|done]. intros [= <-]. apply andb_true_iff in E. lia. Qed.

Lemma feed_page_ok me r env limit : postFeedLimit (fr_Limit r) = Some limit ->
  page_ok (key_before true false) feed_key (feed_keys r) (Z.to_nat limit) (feed_page me r) (starts_at "posts") feed_cursorable env.
Proof.
  intros Hlimit k c w items next w1 (cur & Hcur & -> & _) Hgood Hrun. unfold feed_page in Hrun. m_inv1.
  unfold BrowsePosts in Hrun0. m_inv1. m_inv1. cbn [with_cursor fr_Limit fr_Cursor] in Hrun0. rewrite Hlimit, Hcur in Hrun0.
  apply bind_inr_inv in Hrun0 as (s & w2 & Hsnap & Hrun0). destruct (next_cursor _ _ _ _ _) as [shown nxt] eqn:Hnext. m_inv.
  destruct (snapshot_inv _ _ _ _ _ Hsnap) as (see & text & rows & Hsee & Htext & Hdb & Hrows & Hitems).
  change (pb_Filters _) with (pb_Filters (feed_query r None 1)) in Htext. cbn [feed_query with_cursor pb_ViewerKind pb_ViewerSession] in Hsee.
  split; [done|]. rewrite <- Hdb in Hgood. cbn [ft_Items ft_NextCursor].
  destruct (post_rows_keys r see text cur limit (w_db w1) rows Hsee Htext Hrows) as [Hkeys Hin].
  assert (Hsame : item_key <$> bs_Items s = item_key <$> rows).
  { clear -Hitems. induction Hitems as [|x y l l' [E1 E2] _ IH]; [done|]. rewrite !fmap_cons, IH. unfold item_key. by rewrite E1, E2. }
  unfold rest. erewrite (List.filter_ext (after _ _)) by (intros x; symmetry; apply after_cursor_at).
  destruct (next_cursor_ok bi_CreatedAt bi_ID item_key "posts" limit (bs_Items s) _ shown nxt Hnext
              ltac:(apply feed_limit_pos in Hlimit; lia) (eq_trans Hsame Hkeys)) as [Hshown Hmore].
  { intros x Hx. apply list_elem_of_lookup in Hx as [n Hx]. destruct (Forall2_lookup_r _ _ _ _ _ Hitems Hx) as (y & Hy & -> & ->).
    apply list_elem_of_lookup_2, Hin in Hy as (p & Hp & <-). by apply Hgood. }
  rewrite <- list_fmap_compose. split; [exact Hshown|]. destruct (seqb nxt ""); [done|]. destruct Hmore as [Hlen Hmore]. split; [done|].
  intros x Hx. rewrite fmap_last in Hx. destruct (last shown) as [y|]; [|done]. injection Hx as <-. by apply Hmore.
Qed.
End Lists.

Lemma feed_keys_elem `{SqlTime, FullText} r d k : k ∈ feed_keys r d <-> exists e, e ∈ feed_posts r d /\ k = post_key e.
Proof.
  unfold feed_keys. rewrite list_elem_of_fmap. setoid_rewrite (order_by_perm true false post_key (feed_posts r d)). naive_solver.
Qed.

Lemma posts_grow env d d' : (forall n x, forum_step x (tk_others (env n) x)) -> rtc (others env) d d' -> f_posts d ⊆ f_posts d'.
Proof.
  intros Hoth. induction 1 as [|x y z [n ->] _ IH]; [done|]. etrans; [|exact IH]. apply (fs_grows _ _ (Hoth n x)).
Qed.

Lemma StronglySorted_fmap {A B} (f : A -> B) (R : relation B) l : StronglySorted R (f <$> l) -> StronglySorted (fun x y => R (f x) (f y)) l.
Proof.
  induction l as [|x l IH]; [constructor|]. rewrite fmap_cons. intros Hs. inversion Hs as [|? ? Hl Hx]; subst. constructor; [auto|].
  rewrite Forall_fmap in Hx. exact Hx.
Qed.

Lemma feed_has_limit `{CursorJSONLaws, SqlTime, FullText} me r fuel env w items w1 :
  read_all fuel (feed_page me r) "" env w = (inr (Some items), w1) -> exists limit, postFeedLimit (fr_Limit r) = Some limit.
Proof.
  destruct fuel as [|fuel]; [done|]. intros Hrun. simpl in Hrun. apply bind_inr_inv in Hrun as (got & w2 & Hrun & _).
  unfold feed_page, BrowsePosts in Hrun. m_inv1. m_inv1. cbn [with_cursor fr_Limit] in Hrun0.
  destruct (postFeedLimit (fr_Limit r)); [eauto|done].
Qed.

(** ** Reading to the end when nobody writes *)

Definition works {E A} (env : Env FDB) (m : M FDB E A) : Prop := forall w, exists a w1, m env w = (inr a, w1).

Section Works.
Context (env : Env FDB) (Hq : quiet env).

Lemma works_ret {E A} (a : A) : works env (ret (E := E) a).
Proof. intros w. by exists a, w. Qed.
Lemma works_bind {E A B} (m : M FDB E A) (f : A -> M FDB E B) : works env m -> (forall a, works env (f a)) -> works env (bind m f).
Proof. intros Hm Hf w. unfold bind. destruct (Hm w) as (a & w1 & ->). apply Hf. Qed.
Lemma works_mapE {E E' A} (g : E -> E') (m : M FDB E A) : works env m -> works env (mapE g m).
Proof. intros Hm w. unfold mapE. destruct (Hm w) as (a & w1 & ->). eauto. Qed.
Lemma works_query {A} (q : FDB -> SqlErr + A) : (forall d, exists a, q d = inr a) -> works env (exec (query q)).
Proof. intros Hall w. unfold exec, query. rewrite (proj1 (Hq _)). destruct (Hall (w_db w)) as [a ->]. eauto. Qed.
Lemma works_runTx {A} (body : M FDB TxFail (TxOut A)) : works env body -> works env (runTx body).
Proof.
  intros Hb. apply works_mapE. intros w. unfold withTx. rewrite (proj1 (Hq _)).
  destruct (Hb (mkWorld (tk_others (env (w_tick w)) (w_db w)) (S (w_tick w)))) as ([a|a] & w1 & ->); [|eauto].
  rewrite (proj1 (Hq _)). eauto.
Qed.
End Works.

Lemma sublist_filter_bool {A} (p : A -> bool) l : List.filter p l `sublist_of` l.
Proof. induction l as [|x l IH]; [done|]. simpl. destruct (p x); by constructor. Qed.

Section Notified.
Context `{CursorJSONLaws, SqlTime, FullText}.

Definition notification_page (me : Identity) (r : NotificationListRequest) (c : string) : M FDB Err (list NotificationItem * string) :=
  got <-- Notifications me {| nr_Cursor := c; nr_UnreadOnly := nr_UnreadOnly r; nr_Limit := nr_Limit r |} ;;
  ret (nl_Items got, nl_NextCursor got).

(** The notifications that a request lists. *)
Definition listed_notifications (r : NotificationListRequest) (d : FDB) : list (string * notification_row) :=
  List.filter (fun e => seqb (nt_recipient e.2) HumanLocalPrincipal && (negb (nr_UnreadOnly r) || bool_decide (nt_read e.2 = None)))
    (map_to_list (f_notifications d)).
Definition notification_keys (r : NotificationListRequest) (d : FDB) : list (Z * string) :=
  notification_key <$> order_by true true notification_key (listed_notifications r d).
Definition ni_key (i : NotificationItem) : Z * string := (julianday (ni_CreatedAt i), ni_ID i).
Definition notifications_cursorable (d : FDB) : Prop :=
  forall id n, f_notifications d !! id = Some n -> cursorable "human-notifications" (nt_created n) id.

Lemma listed_nodup r d : NoDup (notification_key <$> listed_notifications r d).
Proof. apply (keys_nodup _ nt_created). Qed.

Lemma notification_keys_sorted r d : StronglySorted (fun x y => key_before true true x y = true) (notification_keys r d).
Proof.
  unfold notification_keys. pose proof (order_by_strict true true notification_key _ (listed_nodup r d)) as Hs.
  induction Hs as [|x l Hl IH Hx]; simpl; constructor; [done|]. by apply Forall_fmap.
Qed.

Lemma notification_limit_pos value limit : notification_limit value = Some limit -> 1 <= limit <= 50.
Proof. unfold notification_limit. destruct (_ || _) eqn:E; [done|]. intros [= <-]. apply orb_false_iff in E. lia. Qed.

Definition hn_key (i : HumanNotification) : Z * string := (julianday (hn_CreatedAt i), hn_ID i).

Lemma notification_rows_keys r cur limit d :
  let rows := notification_rows {| nq_Recipient := HumanLocalPrincipal; nq_UnreadOnly := nr_UnreadOnly r; nq_After := cur; nq_Limit := limit |} d in
  hn_key <$> (shown_notification d <$> rows) =
    take (Z.to_nat (limit + 1)) (List.filter (after_cursor true true cur) (notification_keys r d)) /\
  forall e, e ∈ rows -> f_notifications d !! e.1 = Some e.2.
Proof.
  intros rows. split.
  - rewrite <- list_fmap_compose. unfold notification_keys. rewrite filter_fmap, <- fmap_take.
    rewrite <- (order_by_filter true true notification_key _ (listed_nodup r d)). unfold listed_notifications. by rewrite filter_filter_bool.
  - intros [id n] He. apply elem_of_take_weaken in He. rewrite order_by_perm in He. apply list_elem_of_In, filter_In in He as [He _].
    by apply list_elem_of_In, elem_of_map_to_list in He.
Qed.

Lemma notification_page_ok me r env limit : notification_limit (nr_Limit r) = Some limit ->
  page_ok (key_before true true) ni_key (notification_keys r) (Z.to_nat limit) (notification_page me r)
    (starts_at "human-notifications") notifications_cursorable env.
Proof.
  intros Hlimit k c w items next w1 (cur & Hcur & -> & _) Hgood Hrun. unfold notification_page, Notifications in Hrun. m_inv1.
  cbn [nr_Limit nr_Cursor nr_UnreadOnly] in Hrun0. rewrite Hlimit, Hcur in Hrun0.
  apply bind_inr_inv in Hrun0 as (pg & w2 & Hpg & Hrun0). destruct (next_cursor _ _ _ _ _) as [shown nxt] eqn:Hnext. m_inv.
  unfold HumanNotifications in Hpg. m_inv1. m_inv1. apply runTx_inr_inv in Hpg as (w3 & o & Hbody & Hout).
  m_inv. destruct Hout as [[[= <-] Hdb]|[[=] _]]. simpl in *.
  assert (w_db w1 = tk_others (env (w_tick w)) (w_db w)) as E1 by congruence. split; [done|].
  assert (w_db w0 = w_db w1) as E0 by congruence. rewrite E0 in Hq. rewrite <- E1 in Hgood. injection Hq as <-.
  destruct (notification_rows_keys r cur limit (w_db w1)) as [Hkeys Hin].
  unfold rest. erewrite (List.filter_ext (after _ _)) by (intros x; symmetry; apply after_cursor_at).
  destruct (next_cursor_ok hn_CreatedAt hn_ID hn_key "human-notifications" limit _ _ shown nxt Hnext
              ltac:(apply notification_limit_pos in Hlimit; lia) Hkeys) as [Hshown Hmore].
  { intros x (e & -> & He)%list_elem_of_fmap. apply Hgood. by apply Hin. }
  rewrite <- list_fmap_compose. split; [exact Hshown|]. destruct (seqb nxt ""); [done|]. destruct Hmore as [Hlen Hmore]. split; [done|].
  intros x Hx. rewrite fmap_last in Hx. destruct (last shown) as [y|]; [|done]. injection Hx as <-. by apply Hmore.
Qed.

Lemma notification_page_works me r env limit k c w : quiet env -> notification_limit (nr_Limit r) = Some limit ->
  starts_at "human-notifications" k c -> exists items next w1, notification_page me r c env w = (inr (items, next), w1).
Proof.
  intros Hq Hlimit (cur & Hcur & _ & Hok).
  assert (Hw : works env (notification_page me r c)).
  { unfold notification_page, Notifications. cbn [nr_Limit nr_Cursor nr_UnreadOnly]. rewrite Hlimit, Hcur. apply notification_limit_pos in Hlimit.
    apply works_bind; [|intros; apply works_ret]. apply works_bind.
    - unfold HumanNotifications. apply works_bind.
      + unfold require. cbn [nq_Recipient nq_Limit nq_After]. rewrite seqb_refl, (proj2 (Z.leb_le 1 limit)), (proj2 (Z.leb_le limit 50)) by lia.
        destruct cur as [b|]; [|apply works_ret]. destruct Hok as [Hz Hid]. rewrite Hz, (proj2 (seqb_false _ _)); [apply works_ret|].
        by eapply boundedHomeValue_nonempty.
      + intros _. apply works_runTx; [done|]. apply works_bind; [apply works_mapE, works_query; eauto|]. intros n.
        apply works_bind; [apply works_mapE, works_query; eauto|]. intros; apply works_ret.
    - intros pg. destruct (next_cursor _ _ _ _ _). apply works_ret. }
  destruct (Hw w) as ([items next] & w1 & Hrun). eauto.
Qed.
End Notified.

(** C16: when nobody writes, a client that follows the cursors of the
    notification list comes to its end within one page more than there are
    notifications, and has then read each of them exactly once, latest first,
    without changing anything. *)
Theorem notifications_read_through `{CursorJSONLaws, SqlTime, FullText} me r env w limit :
  quiet env -> notification_limit (nr_Limit r) = Some limit -> notifications_cursorable (w_db w) ->
  let listed := order_by true true notification_key (listed_notifications r (w_db w)) in
  exists items w1,
    read_all (S (length listed)) (notification_page me r) "" env w = (inr (Some items), w1) /\ w_db w1 = w_db w /\
    ni_ID <$> items = listed.*1 /\ NoDup (ni_ID <$> items).
Proof.
  intros Hq Hlimit Hgood listed.
  destruct (read_all_quiet (key_before true true) ni_key (notification_keys r) (Z.to_nat limit) (notification_page me r)
              (starts_at "human-notifications") notifications_cursorable env ltac:(apply notification_limit_pos in Hlimit; lia)
              (key_before_irr _ _) (key_before_asym _ _) (key_before_trans _ _) (notification_keys_sorted r)
              (notification_page_ok me r env limit Hlimit) ltac:(intros n d Hd; by rewrite (proj2 (Hq n)))
              (S (length listed)) None "" w) as (items & w1 & Hrun & Hdb & Hkeys).
  - intros k c w0 Hat _. by eapply notification_page_works.
  - intros n d. apply Hq.
  - done.
  - apply starts_first.
  - unfold rest, notification_keys. fold listed. rewrite List.forallb_filter_id by (by apply forallb_forall). rewrite length_fmap. lia.
  - assert (Hids : ni_ID <$> items = listed.*1).
    { unfold rest, notification_keys in Hkeys. fold listed in Hkeys. rewrite List.forallb_filter_id in Hkeys by (by apply forallb_forall).
      apply (f_equal (fmap snd)) in Hkeys. by rewrite <- !list_fmap_compose in Hkeys. }
    exists items, w1. split_and!; [done|done|done|]. rewrite Hids. unfold listed. rewrite (order_by_perm true true notification_key).
    apply (sublist_NoDup _ (map_to_list (f_notifications (w_db w))).*1); [apply NoDup_fst_map_to_list|].
    apply fmap_sublist, sublist_filter_bool.
Qed.

(** ** The feed, through its pages *)

(** Listed in strict order, the posts of one database have distinct ids. *)
Lemma feed_ids_nodup `{SqlTime} (m : gmap string post_row) items :
  StronglySorted (fun x y => key_before true false x y = true) (feed_key <$> items) ->
  (forall i, i ∈ items -> exists p, julianday (p_at p) = julianday (fi_CreatedAt i) /\ m !! fi_ID i = Some p) -> NoDup (fi_ID <$> items).
Proof.
  intros Hs%StronglySorted_fmap Hrow. induction Hs as [|x l Hl IH Hx]; [constructor|]. rewrite fmap_cons. constructor.
  - intros (y & Hid & Hy)%list_elem_of_fmap. destruct (Hrow x ltac:(left)) as (p & Hp & Hpx).
    destruct (Hrow y ltac:(by right)) as (p' & Hp' & Hpy). rewrite Hid in Hpx. rewrite Forall_forall in Hx.
    specialize (Hx y Hy). assert (feed_key x = feed_key y) as E by (unfold feed_key; congruence).
    rewrite E, key_before_irr in Hx. done.
  - apply IH. intros i Hi. apply Hrow. by right.
Qed.

(** A request that the feed accepts and whose search the index answers. *)
Definition feed_valid `{FullText} (r : PostFeedRequest) : Prop :=
  (len (fr_Search r) <=? 200) && seqb (TrimSpace (fr_Search r)) (fr_Search r)
    && (seqb (fr_Kind r) "" || isin (fr_Kind r) PostKinds)
    && match fr_CreatedFrom r, fr_CreatedTo r with Some a, Some b => a <=? b | _, _ => true end = true /\
  exists limit see text, postFeedLimit (fr_Limit r) = Some limit /\ validatePostBrowseQuery (feed_query r None limit) = true /\
    postDiscoveryPredicate (fr_ViewerKind r) (fr_ViewerSession r) = Some see /\
    search_text (pb_Filters (feed_query r None limit)) = inr text /\
    match text with Some s => is_Some (fts_match s) | None => True end.

Lemma works_mapM {E A B} env (f : A -> M FDB E B) l : (forall x, works env (f x)) -> works env (mapM f l).
Proof.
  intros Hf. induction l as [|x l IH]; simpl; [apply works_ret|]. apply works_bind; [done|]. intros y. apply works_bind; [done|].
  intros ys. apply works_ret.
Qed.

Lemma feed_page_works `{CursorJSONLaws, SqlTime, FullText} me r env k c w :
  quiet env -> feed_valid r -> starts_at "posts" k c -> exists items next w1, feed_page me r c env w = (inr (items, next), w1).
Proof.
  intros Hq (Hg & limit & see & text & Hlimit & Hvalid & Hsee & Htext & Hfts) (cur & Hcur & _ & Hok).
  assert (Hw : works env (feed_page me r c)).
  { unfold feed_page, BrowsePosts. apply works_bind; [|intros; apply works_ret]. apply works_bind.
    { unfold require. cbn [with_cursor fr_Search fr_Kind fr_CreatedFrom fr_CreatedTo]. rewrite Hg. apply works_ret. }
    intros _. cbn [with_cursor fr_Limit fr_Cursor]. rewrite Hlimit, Hcur. apply works_bind.
    - unfold PostBrowseSnapshot. apply works_bind.
      + assert (validatePostBrowseQuery (feed_query (with_cursor c r) cur limit) = true) as Hv; [|unfold require; rewrite Hv; apply works_ret].
        unfold validatePostBrowseQuery in *. cbn [feed_query with_cursor pb_After pb_Filters pb_Limit pb_ViewerKind pb_ViewerSession
          pf_Search pf_TopicID pf_ProjectID pf_Kind pf_CreatedFrom pf_CreatedTo fr_ViewerKind fr_ViewerSession fr_Search fr_Topic
          fr_Project fr_Kind fr_CreatedFrom fr_CreatedTo] in *. rewrite andb_true_r in Hvalid. rewrite Hvalid.
        destruct cur as [b|]; [|done]. destruct Hok as [-> ->]. done.
      + intros _. cbn [feed_query with_cursor pb_ViewerKind pb_ViewerSession fr_ViewerKind fr_ViewerSession]. rewrite Hsee.
        apply works_runTx; [done|]. change (search_text _) with (search_text (pb_Filters (feed_query r None limit))). rewrite Htext.
        assert (forall f d, exists l, posts_where f text see d = inr l) as Hrows.
        { intros f d. unfold posts_where. destruct text as [t|]; [destruct Hfts as [hit ->]|]; eauto. }
        apply works_bind; [apply works_mapE, works_query; [done|]; intros d; destruct (Hrows (pb_Filters (feed_query (with_cursor c r) cur limit)) d) as [l Hl]; cbn [feed_query with_cursor] in *; rewrite Hl; eauto|].
        intros n. apply works_bind.
        { apply works_mapE, works_query; [done|]. intros d. unfold post_rows.
          destruct (Hrows (pb_Filters (feed_query (with_cursor c r) cur limit)) d) as [l Hl]. rewrite Hl. eauto. }
        intros rows. apply works_bind.
        { apply works_mapM. intros x. apply works_bind; [|intros; apply works_ret]. apply works_mapE, works_mapE, works_query; [done|eauto]. }
        intros items. apply works_bind; [|intros; apply works_ret]. apply works_mapE. unfold readContentMentions.
        destruct (bi_ID <$> items); [apply works_ret|]. apply works_mapE, works_query; [done|]. eauto.
    - intros pg. destruct (next_cursor _ _ _ _ _). apply works_ret. }
  destruct (Hw w) as ([items next] & w1 & Hrun). eauto.
Qed.

(** C15: a client that reads the feed to its end, following the cursors while
    other requests run in between (posts and cursors being such that a cursor
    can be handed out for each), gets the posts newest first and none twice.
    Every page shows only posts that match and that the viewer may discover in
    the snapshot of that very page, and no post that is on the list all the
    time is missed.  The reading does come to its end, within one page more than
    there are posts on the list, when the request is valid, nothing fails and
    nobody writes; it has then read the whole list. *)
Theorem feed_reads_every_post `{CursorJSONLaws, SqlTime, FullText} me r env w :
  (forall n x, forum_step x (tk_others (env n) x)) -> stable feed_cursorable env -> feed_cursorable (w_db w) ->
  (forall fuel items w1, read_all fuel (feed_page me r) "" env w = (inr (Some items), w1) ->
     StronglySorted (fun i j => key_before true false (feed_key i) (feed_key j) = true) items /\
     NoDup (fi_ID <$> items) /\
     items = concat (page_trace fuel (feed_page me r) "" env w).*1 /\
     (forall shown d i, (shown, d) ∈ page_trace fuel (feed_page me r) "" env w -> i ∈ shown ->
        exists p, (fi_ID i, p) ∈ feed_posts r d /\ julianday (p_at p) = julianday (fi_CreatedAt i)) /\
     (forall id p, stable (fun d => (id, p) ∈ feed_posts r d) env -> (id, p) ∈ feed_posts r (w_db w) -> id ∈ fi_ID <$> items)) /\
  (quiet env -> feed_valid r ->
   exists items w1, read_all (S (length (feed_posts r (w_db w)))) (feed_page me r) "" env w = (inr (Some items), w1) /\
     fi_ID <$> items = (order_by true false post_key (feed_posts r (w_db w))).*1).
Proof.
  intros Hoth Hst Hgood. split.
  - intros fuel items w1 Hrun. destruct (feed_has_limit _ _ _ _ _ _ _ Hrun) as [limit Hlimit].
    destruct (read_all_db (key_before true false) feed_key (feed_keys r) (Z.to_nat limit) (feed_page me r) (starts_at "posts")
                feed_cursorable env ltac:(apply feed_limit_pos in Hlimit; lia) (key_before_irr _ _) (key_before_asym _ _)
                (key_before_trans _ _) (feed_keys_sorted r) (feed_page_ok me r env limit Hlimit) Hst fuel None "" w items w1
                Hgood (starts_first "posts") Hrun) as (Hs & _ & [Hcat Hpages] & _ & Hall).
    rewrite Forall_forall in Hpages.
    assert (Hpg : forall shown d i, (shown, d) ∈ page_trace fuel (feed_page me r) "" env w -> i ∈ shown ->
      exists p, (fi_ID i, p) ∈ feed_posts r d /\ julianday (p_at p) = julianday (fi_CreatedAt i) /\ f_posts (w_db w1) !! fi_ID i = Some p).
    { intros shown d i Hin Hi. destruct (Hpages _ Hin) as (Hl & _ & Hlater). apply Hl, feed_keys_elem in Hi as ([id p] & He & Hk).
      injection Hk as Ht <-. exists p. split_and!; [done|done|]. eapply lookup_weaken; [|by eapply posts_grow]. by apply (feed_posts_in r d (_, p)). }
    assert (Hrow : forall i, i ∈ items -> exists p, julianday (p_at p) = julianday (fi_CreatedAt i) /\ f_posts (w_db w1) !! fi_ID i = Some p).
    { rewrite Hcat. intros i (shown & Hi & Hsh)%list_elem_of_In%in_concat. apply list_elem_of_In, list_elem_of_fmap in Hi as ([shown' d] & -> & Hin).
      apply list_elem_of_In in Hsh. destruct (Hpg _ _ _ Hin Hsh) as (p & _ & ? & ?). eauto. }
    split_and!.
    + exact (StronglySorted_fmap _ _ _ Hs).
    + by eapply feed_ids_nodup.
    + done.
    + intros shown d i Hin Hi. destruct (Hpg _ _ _ Hin Hi) as (p & ? & ? & _). eauto.
    + intros id p Hkept Hnow. assert (Hin : post_key (id, p) ∈ feed_key <$> items).
      { apply (Hall _ (fun d => (id, p) ∈ feed_posts r d) Hkept); [|done|done]. intros d Hd. apply feed_keys_elem. eauto. }
      apply list_elem_of_fmap in Hin as (x & Hx & Hx'). injection Hx as _ ->. by apply list_elem_of_fmap_2.
  - intros Hq Hv. pose proof Hv as (_ & limit & _ & _ & Hlimit & _).
    destruct (read_all_quiet (key_before true false) feed_key (feed_keys r) (Z.to_nat limit) (feed_page me r)
                (starts_at "posts") feed_cursorable env ltac:(apply feed_limit_pos in Hlimit; lia)
                (key_before_irr _ _) (key_before_asym _ _) (key_before_trans _ _) (feed_keys_sorted r)
                (feed_page_ok me r env limit Hlimit) Hst (S (length (feed_posts r (w_db w)))) None "" w) as (items & w1 & Hrun & _ & Hkeys).
    + intros k c w0 Hat _. by eapply feed_page_works.
    + intros n d. apply Hq.
    + done.
    + apply starts_first.
    + unfold rest, feed_keys. rewrite List.forallb_filter_id by (by apply forallb_forall). rewrite length_fmap, order_by_perm. lia.
    + exists items, w1. split; [done|]. unfold rest, feed_keys in Hkeys. rewrite List.forallb_filter_id in Hkeys by (by apply forallb_forall).
      apply (f_equal (fmap snd)) in Hkeys. by rewrite <- !list_fmap_compose in Hkeys.
Qed.

(** ** What a reader may see *)

Lemma feed_posts_seen `{SqlTime, FullText} r d e see :
  postDiscoveryPredicate (fr_ViewerKind r) (fr_ViewerSession r) = Some see -> e ∈ feed_posts r d -> see d e.1 e.2 = true.
Proof.
  unfold feed_posts, posts_where. intros -> He.
  destruct (search_text _) as [err|[s|]]; [inversion He| |].
  - destruct (fts_match s) as [hit|]; [|inversion He]. rewrite filter_filter_bool in He.
    apply list_elem_of_In, filter_In in He as [_ He]. rewrite !andb_true_iff in He. apply He.
  - rewrite filter_filter_bool in He. apply list_elem_of_In, filter_In in He as [_ He]. rewrite !andb_true_iff in He. apply He.
Qed.

Lemma BrowsePosts_seen `{CursorJSON, SqlTime, FullText} me r env w got w1 i see :
  BrowsePosts me r env w = (inr got, w1) -> postDiscoveryPredicate (fr_ViewerKind r) (fr_ViewerSession r) = Some see ->
  i ∈ ft_Items got -> exists p, f_posts (w_db w1) !! fi_ID i = Some p /\ see (w_db w1) (fi_ID i) p = true.
Proof.
  unfold BrowsePosts. intros Hrun Hsee Hi. m_inv1. m_inv1. destruct (postFeedLimit _) as [limit|]; [|done].
  destruct (time_cursor _ _) as [|cur]; [done|]. apply bind_inr_inv in Hrun as (s & w2 & Hsnap & Hrun).
  destruct (next_cursor _ _ _ _ _) as [shown nxt] eqn:Hnext. m_inv. simpl in Hi.
  destruct (snapshot_inv _ _ _ _ _ Hsnap) as (see' & text & rows & Hsee' & Htext & _ & Hrows & Hitems).
  cbn [feed_query pb_ViewerKind pb_ViewerSession] in Hsee'. assert (see' = see) as -> by congruence.
  destruct (post_rows_keys r see text cur limit (w_db w1) rows Hsee Htext Hrows) as [Hkeys _].
  apply list_elem_of_fmap in Hi as (x & -> & Hx). assert (x ∈ bs_Items s) as Hx'.
  { unfold next_cursor in Hnext. destruct (_ <? _); simplify_eq; [by eapply elem_of_take_weaken|done]. }
  apply list_elem_of_lookup in Hx' as [n Hn]. destruct (Forall2_lookup_r _ _ _ _ _ Hitems Hn) as (y & Hy & Hid & _).
  apply list_elem_of_lookup_2 in Hy. assert (item_key y ∈ feed_keys r (w_db w1)) as Hk.
  { apply (list_elem_of_fmap_2 item_key) in Hy. rewrite Hkeys in Hy. apply elem_of_take_weaken in Hy.
    by apply list_elem_of_In, filter_In in Hy as [Hy%list_elem_of_In _]. }
  apply feed_keys_elem in Hk as (e & He & Hk). injection Hk as _ Hk. simpl. rewrite Hid, Hk.
  exists e.2. split; [by eapply feed_posts_in|by eapply feed_posts_seen].
Qed.

Lemma thread_row_inv see id d t : thread_row see id d = inr t ->
  ob_Ref (th_Post t) = id /\ exists p, f_posts d !! id = Some p /\ see d id p = true.
Proof.
  unfold thread_row, visible_post. destruct (f_posts d !! id) as [p|]; [|done]. destruct (see d id p) eqn:E; [|done].
  destruct (topics _ !! _); [|done]. intros [= <-]. eauto.
Qed.

Lemma OpenPost_seen `{CursorJSON, SqlTime} me r env w got w1 see :
  OpenPost me r env w = (inr got, w1) -> postDiscoveryPredicate (or_ViewerKind r) (or_ViewerSession r) = Some see ->
  fu_ID (os_Post got) = or_Ref r /\ exists p, f_posts (w_db w1) !! or_Ref r = Some p /\ see (w_db w1) (or_Ref r) p = true.
Proof.
  unfold OpenPost. intros Hrun Hsee. m_inv1. m_inv1. destruct (commentLimit _) as [limit|]; [|done].
  destruct (time_cursor _ _) as [|cur]; [done|]. apply bind_inr_inv in Hrun as (t & w2 & Ht & Hrun).
  destruct (next_cursor _ _ _ _ _) as [shown nxt]. m_inv. unfold PostThread in Ht. m_inv1. m_inv1.
  cbn [tq_ViewerKind tq_ViewerSession] in Ht. rewrite Hsee in Ht. apply runTx_inr_inv in Ht as (w2 & o & Hbody & Hout).
  apply bind_inr_inv in Hbody as (t0 & w3 & Hrow & Hbody).
  apply mapE_inr_inv, exec_inr_inv in Hrow as [[Hq E3]%query_inr_inv _].
  assert (w_db w2 = w_db w3) as E2.
  { refine ((_ : reads_only _) _ _ _ _ Hbody). repeat (apply ro_bind; [|intros ?]); unfold plain; auto with ro. }
  destruct (thread_row_inv _ _ _ _ Hq) as (Href & p & Hp & Hs). apply bind_inr_inv in Hbody as (a1 & ? & _ & Hbody).
  apply bind_inr_inv in Hbody as (a2 & ? & _ & Hbody). apply bind_inr_inv in Hbody as (a3 & ? & _ & Hbody).
  apply bind_inr_inv in Hbody as (a4 & ? & _ & Hbody). m_inv. destruct Hout as [[[= <-] Hdb]|[[=] _]].
  cbn [os_Post full_post fu_ID thread_with th_Post tq_PostID] in *. split; [done|]. exists p. by rewrite Hdb, E2, E3.
Qed.

Lemma OpenComment_seen `{SqlTime} me r env w got w1 see :
  OpenComment me r env w = (inr got, w1) -> postDiscoveryPredicate (co_ViewerKind r) (co_ViewerSession r) = Some see ->
  let d := tk_others (env (w_tick w)) (w_db w) in
  exists c p, f_comments d !! co_ID r = Some c /\ cr_PostRef got = cm_post c /\ f_posts d !! cm_post c = Some p /\ see d (cm_post c) p = true.
Proof.
  intros Hrun Hsee d. apply bind_inr_inv in Hrun as ([] & w0 & Hg & Hrun). apply require_inr_inv in Hg as [_ <-].
  apply bind_inr_inv in Hrun as (found & w2 & Hfound & [<- <-]%ret_inr_inv).
  apply bind_inr_inv in Hfound as ([] & w0 & Hg & Hfound). apply require_inr_inv in Hg as [_ <-]. rewrite Hsee in Hfound.
  apply bind_inr_inv in Hfound as (f0 & w3 & Hf & Hrest). apply bind_inr_inv in Hrest as (ms & w4 & _ & [<- _]%ret_inr_inv).
  apply mapE_inr_inv, exec_inr_inv in Hf as [[Hq _]%query_inr_inv _].
  simpl in *. fold d in Hq. unfold comment_row_for in Hq. destruct (f_comments d !! co_ID r) as [c|]; [|done].
  unfold visible_post in Hq. destruct (f_posts d !! cm_post c) as [p|] eqn:Hp; [|done]. destruct (see d (cm_post c) p) eqn:Hs; [|done].
  injection Hq as <-. exists c, p. done.
Qed.

(** The lists and threads show an agent only what it may discover: every
    post of its feed, every thread it opens and the post of every comment it
    opens is one that the discovery rule allows it to see in the snapshot that
    was read. *)
Theorem reads_respect_discovery `{CursorJSON, SqlTime, FullText} me env w session : session <> "" ->
  (forall r got w1 i, fr_ViewerKind r = "agent" -> fr_ViewerSession r = session -> BrowsePosts me r env w = (inr got, w1) ->
     i ∈ ft_Items got -> exists p, f_posts (w_db w1) !! fi_ID i = Some p /\ agent_sees session (w_db w1) (fi_ID i) p = true) /\
  (forall r got w1, or_ViewerKind r = "agent" -> or_ViewerSession r = session -> OpenPost me r env w = (inr got, w1) ->
     fu_ID (os_Post got) = or_Ref r /\
     exists p, f_posts (w_db w1) !! or_Ref r = Some p /\ agent_sees session (w_db w1) (or_Ref r) p = true) /\
  (forall r got w1, co_ViewerKind r = "agent" -> co_ViewerSession r = session -> OpenComment me r env w = (inr got, w1) ->
     exists p, f_posts (tk_others (env (w_tick w)) (w_db w)) !! cr_PostRef got = Some p /\
       agent_sees session (tk_others (env (w_tick w)) (w_db w)) (cr_PostRef got) p = true).
Proof.
  intros Hne. assert (Hsee : postDiscoveryPredicate "agent" session = Some (agent_sees session)).
  { unfold postDiscoveryPredicate. simpl. by rewrite (proj2 (seqb_false _ _)). }
  split_and!.
  - intros r got w1 i Hk Hs Hrun Hi. eapply BrowsePosts_seen; [exact Hrun|by rewrite Hk, Hs|done].
  - intros r got w1 Hk Hs Hrun. eapply OpenPost_seen; [exact Hrun|by rewrite Hk, Hs].
  - intros r got w1 Hk Hs Hrun. destruct (OpenComment_seen _ _ _ _ _ _ (agent_sees session) Hrun) as (c & p & _ & -> & Hp & Hv); [by rewrite Hk, Hs|].
    eauto.
Qed.

(** Three posts that name the human, read one a page. *)
Module PagesDemo.
Import ForumDemo CursorDemo.
#[export] Instance exact_time : SqlTime := fun t => t.
#[export] Instance contains_word : FullText := fun s => Some (fun title _ => seqb title s).

Definition numbered_post (n : string) : PostRequest :=
  {| pq_TopicID := "demo-topic"; pq_Kind := "finding"; pq_Title := "T" +:+ n; pq_Body := "B"; pq_Basis := "S"; pq_Ref := "";
     pq_ActorID := ""; pq_ActorKind := "agent"; pq_ActorPrincipal := ""; pq_SessionID := "author"; pq_RequestID := "r" +:+ n;
     pq_Attachments := []; pq_MentionPrincipals := [HumanLocalPrincipal] |}.
Definition pages_db : FDB :=
  Eval vm_compute in forum_after (setup ++ [OpPost (numbered_post "1"); OpPost (numbered_post "2"); OpPost (numbered_post "3")]) calm db0.
Definition ann : Identity := {| hi_DisplayName := "Ann"; hi_Handle := "ann" |}.
Definition one_a_page : PostFeedRequest :=
  {| fr_ViewerKind := "human"; fr_ViewerPrincipal := HumanLocalPrincipal; fr_ViewerSession := ""; fr_Cursor := ""; fr_Search := "";
     fr_Topic := ""; fr_Project := "demo"; fr_Kind := ""; fr_CreatedFrom := None; fr_CreatedTo := None; fr_Limit := 1 |}.

Ltac concrete_cursor :=
  constructor; [repeat split; vm_compute; reflexivity|vm_compute; reflexivity|vm_compute; split; [discriminate|reflexivity]|vm_compute; reflexivity|vm_compute; discriminate].

Lemma pages_cursorable : feed_cursorable pages_db.
Proof.
  intros id p Hp. apply elem_of_map_to_list in Hp. set (l := map_to_list _) in Hp. vm_compute in l. subst l.
  repeat (apply elem_of_cons in Hp as [[= -> ->]|Hp]; [concrete_cursor|]). inversion Hp.
Qed.
Lemma notes_cursorable : notifications_cursorable pages_db.
Proof.
  intros id p Hp. apply elem_of_map_to_list in Hp. set (l := map_to_list _) in Hp. vm_compute in l. subst l.
  repeat (apply elem_of_cons in Hp as [[= -> ->]|Hp]; [concrete_cursor|]). inversion Hp.
Qed.

Definition feed_run : (Err + option (list PostFeedItem)) * World FDB :=
  Eval vm_compute in read_all 3 (feed_page ann one_a_page) "" calm (mkWorld pages_db 0).
Definition feed_read : list PostFeedItem := Eval vm_compute in match feed_run.1 with inr (Some l) => l | _ => [] end.

Lemma feed_reads_every_post_witness :
  fi_Title <$> feed_read = ["T3"; "T2"; "T1"]%string /\ NoDup (fi_ID <$> feed_read) /\
  forall id p, (id, p) ∈ feed_posts one_a_page pages_db -> id ∈ fi_ID <$> feed_read.
Proof.
  assert (Hrun : read_all 3 (feed_page ann one_a_page) "" calm (mkWorld pages_db 0) = (inr (Some feed_read), feed_run.2)) by (vm_compute; reflexivity).
  destruct (feed_reads_every_post ann one_a_page calm (mkWorld pages_db 0) forum_calm_others (fun _ _ Hd => Hd) pages_cursorable) as [Hread _].
  destruct (Hread 3%nat feed_read _ Hrun) as (_ & Hnd & _ & _ & Hall).
  split; [reflexivity|]. split; [exact Hnd|]. intros id p Hin. exact (Hall id p (fun _ _ Hd => Hd) Hin).
Defined.

Definition note_request : NotificationListRequest := {| nr_Cursor := ""; nr_UnreadOnly := true; nr_Limit := 1 |}.

Lemma notifications_read_through_witness : exists items w1,
  read_all 4 (notification_page ann note_request) "" calm (mkWorld pages_db 0) = (inr (Some items), w1) /\
  length items = 3%nat /\ NoDup (ni_ID <$> items).
Proof.
  destruct (notifications_read_through ann note_request calm (mkWorld pages_db 0) 1 forum_calm_quiet eq_refl notes_cursorable)
    as (items & w1 & Hrun & _ & Hids & Hnd).
  exists items, w1. split; [exact Hrun|]. split; [|exact Hnd].
  rewrite <- (length_fmap ni_ID), Hids. vm_compute. reflexivity.
Defined.

Definition agent_feed : PostFeedRequest :=
  {| fr_ViewerKind := "agent"; fr_ViewerPrincipal := ""; fr_ViewerSession := "author"; fr_Cursor := ""; fr_Search := "";
     fr_Topic := ""; fr_Project := ""; fr_Kind := ""; fr_CreatedFrom := None; fr_CreatedTo := None; fr_Limit := 2 |}.

Lemma reads_respect_discovery_witness : exists got w1 i,
  BrowsePosts ann agent_feed calm (mkWorld pages_db 0) = (inr got, w1) /\
  ft_Total got = 3 /\ i ∈ ft_Items got /\
  exists p, f_posts (w_db w1) !! fi_ID i = Some p /\ agent_sees "author" (w_db w1) (fi_ID i) p = true.
Proof.
  destruct (BrowsePosts ann agent_feed calm (mkWorld pages_db 0)) as [[e|got] w1] eqn:Hrun; [vm_compute in Hrun; discriminate|].
  assert (Htotal : ft_Total got = 3) by (vm_compute in Hrun; injection Hrun as <- <-; reflexivity).
  assert (Hi : exists i, i ∈ ft_Items got) by (vm_compute in Hrun; injection Hrun as <- <-; eexists; left).
  destruct Hi as [i Hi]. exists got, w1, i. split; [reflexivity|]. split; [exact Htotal|]. split; [exact Hi|].
  destruct (reads_respect_discovery ann calm (mkWorld pages_db 0) "author") as [Hfeed _]; [discriminate|].
  exact (Hfeed agent_feed got w1 i eq_refl eq_refl Hrun Hi).
Defined.
End PagesDemo.
